(* ===== verification/_CoqProject ===== *)
-Q . S2P
Prelude.v
State.v
CapTable.v
Desc.v
Isa.v
Extents.v
ExtentsFacts.v
Registry.v
PointerFrames.v
HeapWork.v
HeapLedger.v
HeapWorkers.v
RegistrySafety.v
RegistryOps.v
HeapLives.v
HeapMoves.v
Fabric.v
FabricTx.v
FabricAuth.v
FabricInv.v
FabricSafety.v
FabricCells.v
FabricHeap.v
FabricWork.v
HeapCustody.v
HeapOutside.v
HeapScrub.v
HeapSteps.v
HeapTickets.v
HeapDemo.v
HeapSafety.v
Block.v
Nic.v
SlotMachine.v
Dma.v
BlockFacts.v
NicFacts.v
Core.v
CoreAlu.v
CoreFault.v
CoreInv.v
CoreFrames.v
FabricMoves.v
PointerSafety.v
CoreDemo.v
CoreSafety.v
CoreEvents.v
Kernel.v
Syscalls.v
Scheduler.v
KernelLogic.v
KernelDevices.v
KernelInv.v
KernelSteps.v
KernelCalls.v
KernelImages.v
KernelDispatch.v
KernelSched.v
KernelReach.v
KernelTree.v
KernelDrain.v
KernelDemo.v
KernelTransfer.v
KernelSafety.v
Bv68.v
Bus68.v
Protection68.v
Cpu68.v
Bv68Facts.v
Cpu68User.v
Protection68Facts.v
Cpu68Safety.v
Cpu68Modify.v
Srec.v
Concurrent68.v
