(* ===== verification/Prelude.v ===== *)
(** * Anka: a verification of the machines, their devices and the kernel

    Anka64 is a capability machine written in Rust.  All memory lives in objects
    that a _fabric_ owns; a protection domain reaches an object only through
    capabilities with generations; CPU cores execute sealed code against the
    fabric; two DMA devices reach memory through narrow delegations; a kernel
    schedules processes, serves their system calls and routes device completions.
    This library translates that system into Rocq functions and proves what it
    promises.

    ** The parts and their files

    - Values and tables.  [State]: the data model of [src/anka64/state.rs].
      [CapTable]: the capability handle table of a process (same source).
      [Desc], [Isa]: the instruction table ([desc.rs]), encoders, decoder and
      emitter ([isa.rs]).
    - Memory management.  [Extents]: page-rounded extents and the first-fit
      allocators ([placement.rs], [placement/bounded.rs]), with their correctness in
      [ExtentsFacts].
    - Protected pointers.  [Registry]: scopes, slots and generations of
      [scoped_pointers.rs].  [HeapLedger]: heap accounts, reservation, attachment,
      publication and closure ([scoped_pointers/heap.rs] and its submodules).
      [HeapWork]: the tickets of queued CPU work ([fabric/heap/work.rs]).
      [HeapWorkers]: cleanup workers, their leases, retirement and scrub progress
      ([scoped_pointers/heap/workers.rs] and submodules).
      [PointerFrames]: frame manifests and the validator of protected programs
      ([pointer_frames.rs]).  [RegistrySafety]: the invariant and the order in which
      slots evolve; [RegistryOps]: every operation on the registry as one relation,
      which keeps that order; [HeapLives] and [HeapMoves] do the same for the allocations of
      the ledger and their cleanup jobs.
    - The fabric ([fabric.rs]).  [Fabric]: objects, domains, authority, the
      three-phase transactions, one function per method.  [FabricCells]: pointer
      cells and local frames ([fabric/local_frames.rs]).  [FabricHeap]: the private
      heap ([fabric/heap.rs] and submodules); [FabricWork]: its queued work and its
      workers.  [FabricTx] refines complete accesses
      to an atomic specification, [FabricAuth] characterises authority, [FabricInv]
      is the step relation [fab_step] with its invariant, [FabricSafety] the safety
      theorems, [FabricMoves] what the rest of the machine can do to a fabric, and
      [PointerSafety] the lifetime of local pointers.
    - The private heap as a whole.  [HeapCustody] ties the rows and the shadow of the
      fabric to the allocations of the ledger; [HeapOutside] shows that nothing else
      touches the pool, [HeapScrub] carries the invariant through the cleanup of an
      allocation, [HeapSteps] is the step relation [heap_step] of all its operations,
      [HeapTickets] the invariant of the queued work, [HeapDemo] one page from
      reservation to release and the next reservation, [HeapSafety] the guarantees.
    - Devices.  [Block] ([block.rs]), [Nic] ([nic.rs]); [SlotMachine] is the abstract
      request machine both refine (class [SlotDevice]), [Dma] the life of one
      delegated transaction, [BlockFacts] and [NicFacts] the theorems.
    - The core ([core.rs], [core/heap.rs]).  [Core]: registers, events, pointer
      machine and the instruction step.  [CoreAlu]: arithmetic and flags.
      [CoreFault]: faults are atomic.  [CoreInv]: reachable cores.  [CoreFrames],
      [CoreSafety], [CoreEvents]: frames under events, control flow, privilege and
      what survives a handler.  [CoreDemo]: a concrete program.
    - The kernel ([os.rs]).  [Kernel]: processes, lifecycle, capabilities, messages.
      [Syscalls]: one definition per system call handler.  [Scheduler]: completion
      routing, waking, rounds, boot.  [KernelLogic]: a program logic for the kernel
      monad.  [KernelInv]: the invariant [kinv]; [KernelSteps], [KernelCalls],
      [KernelImages], [KernelDispatch], [KernelSched] carry it through every
      operation; [KernelDevices] does so for the controllers.  [KernelReach]: the
      step relation [kernel_step] of the host and its reachable states.
      [KernelTree]: exit and the process tree.  [KernelDrain]: the draining of
      completions returns.  [KernelTransfer]: SYS_SEND_CAP.
      [KernelDemo]: concrete kernels.  [KernelSafety]: the guarantees.
    - The MC68000 machine, the older and separate half of the repository.  [Bv68]:
      operand sizes, status register and arithmetic ([src/cpu/types.rs],
      [src/cpu/bv.rs]); [Bus68]: the bus and device traits as classes, memories,
      timer and console ([src/bus]); [Protection68]: capabilities, object table,
      domains and the protected bus ([src/protection.rs]); [Cpu68]: effective
      addresses and the whole instruction set over any bus ([src/cpu/mod.rs],
      [ea.rs], [exec.rs]).  [Bv68Facts]: the arithmetic is exact.  [Cpu68User]: what
      one user-mode step can do, against the class [Confinement] of a bus that
      confines its user; [Protection68Facts] shows that the protected bus does;
      [Cpu68Safety] puts both together.  [Cpu68Modify]: read-modify-write through a
      moving register.  [Srec]: the S-record parser and writer ([src/srec.rs]).
      [Concurrent68]: two agents racing with revocation ([src/concurrent.rs]).

    ** Conventions

    A [u64] or [u32] is a [Z], with the wrap-around and the checked operations
    written out; [usize] indices are [nat].  A function of the source that can panic
    returns [outcome], one that returns [Result] returns [result], one that does both
    is [fallible].  A mutable borrow is an argument and a result.  A [BTreeMap] or
    [HashMap] is a [gmap], a [Vec] a list; a vector used as a stack has its top
    first.  Overflow of plain arithmetic panics in a debug build and wraps in a
    release build: the class [Profile] carries the choice, and every theorem holds
    for both.  What the code takes from the host (the class [Host]) is a parameter.

    ** What is proved

    - W^X and code: no object is ever executable and writable, what a process
      executes lies in a sealed object that nothing can change, sealed contents are
      immutable, returns go to call sites, privilege is entered only by events.  Where the trap
      vector of an over-long image leads (a finding).
    - Isolation and authority: a complete access touches only its object; the
      authorization procedure decides exactly the coverage relation; derivation,
      delegation and transfer never amplify; revocation and dropped handles are
      permanent; a transfer is all or nothing and gives exactly what its registers ask for.
    - Lifetimes: a pointer into a left frame or a closed heap allocation never
      resolves again.
    - Heap cleanup: memory is released only scrubbed, whatever was written to it
      before; a revoked lease is never honoured again; queued work is consumed once
      and its pins never break.
    - Transactions: complete accesses refine an atomic specification; what the commit
      gate rechecks, and two behaviours it does not exclude (the findings).
    - Faults and events: a faulting step changes nothing but the logs; a handler is
      transparent to what it interrupted; system calls return exactly their results.
    - Devices: requests are answered exactly once and in order; block reads and
      network frames arrive unchanged.
    - Kernel: the process table is well formed; exit returns and removes exactly the
      descendants; ended incarnations stay ended; blocked processes can be resumed;
      completions reach their submitter; draining terminates; the scheduler stops
      only when nothing can happen.
    - Encodings and arithmetic: decode/encode, ALU results, flags and branches,
      first-fit allocation.
    - MC68000: user code never leaves its capabilities nor reaches supervisor mode
      other than through a vector of the kernel; shifts, comparisons and division are
      exact; a written S-record file parses back to the image, unless the 16-bit count
      of its records overflows in a debug build (a finding); a revoked transaction
      leaves no effect; one instruction form that misplaces its result (a finding).

    ** Bounds and fuel

    Recursion of the source that is not structural carries fuel.
    [terminate_orphans_fuel] gets one more than the number of processes, which
    [exit_takes_descendants] shows to be enough: parents are older than their
    children.  [drain_device] gets one more than the completion count; [drain_terminates]
    shows that it then returns, as it does with any larger bound, while the slots have
    generations left.  The loops [run] and [run_process] are bounded in the source
    (rounds and quantum).  The retry and scan loops of the allocators and tables are
    structural on the list they scan.  The reload loop of the MC68000 timer
    ([Timer.reload]) gets one more than its counter, and each round lowers the counter;
    the trimming and chunking loops of [Srec] get the length of their input and consume
    at least a byte a round.  Running out of fuel anywhere else is a panic in the model,
    so that no theorem about a returned result hides it.

    ** Not modelled

    The optional kernel services (attached compiler, heap application service,
    socket endpoint, callable entries): the kernel is modelled as configured without
    them.  The host side: sockets
    and threads ([host_net.rs]), compilers, linkers and image builders, interactive
    tools and monitors.  Of the MC68000 machine: its assembler ([src/asm]), its C
    compiler ([src/cc]), and the guest operating systems written with them
    ([src/os.rs], [os_protected.rs], [secure_os.rs], [hostile.rs]).  Run traces and [Display] implementations, which no
    behaviour depends on. *)

From stdpp Require Export base tactics option list gmap strings numbers sorting.
From Stdlib Require Export ZArith Lia Bool.

#[export] Set Default Goal Selector "!".

Declare Scope anka_scope.
Delimit Scope anka_scope with anka.
#[global] Open Scope Z_scope.

(** ** Panics and results

    A Rust function may return, or panic (a failed [assert!], [expect],
    out-of-range index, or an arithmetic overflow in a build with overflow
    checks).  [outcome] keeps the two apart; [result] is [std::result::Result]. *)
Inductive outcome (A : Type) : Type :=
| Done (a : A)
| Panic.
Arguments Done {_} _.
Arguments Panic {_}.

Inductive result (E A : Type) : Type :=
| Ok (a : A)
| Err (e : E).
Arguments Ok {_ _} _.
Arguments Err {_ _} _.

#[export] Instance outcome_ret : MRet outcome := λ A a, Done a.
#[export] Instance outcome_bind : MBind outcome := λ A B k m,
  match m with Done a => k a | Panic => Panic end.

#[export] Instance outcome_fmap : FMap outcome := λ A B f m,
  match m with Done a => Done (f a) | Panic => Panic end.

#[export] Instance result_ret {E} : MRet (result E) := λ A a, Ok a.
#[export] Instance result_bind {E} : MBind (result E) := λ A B k m,
  match m with Ok a => k a | Err e => Err e end.

#[export] Instance outcome_eq_dec `{EqDecision A} : EqDecision (outcome A).
Proof. solve_decision. Defined.
#[export] Instance result_eq_dec `{EqDecision E, EqDecision A} : EqDecision (result E A).
Proof. solve_decision. Defined.

(** A function that returns [Result] and may also panic; [x ←? r; k] is the [?]
    operator on a [Result] value and [x ←! m; k] on a call that may panic. *)
Abbreviation fallible E A := (outcome (result E A)) (only parsing).

Definition try_ {E A B} (r : result E A) (k : A → fallible E B) : fallible E B :=
  match r with Ok a => k a | Err e => Done (Err e) end.
Definition try_call {E A B} (m : fallible E A) (k : A → fallible E B) : fallible E B :=
  match m with Done r => try_ r k | Panic => Panic end.
Definition ok {E A} (a : A) : fallible E A := Done (Ok a).
Definition err {E A} (e : E) : fallible E A := Done (Err e).

Notation "x ←? r ; k" := (try_ r (λ x, k))
  (at level 20, r at level 100, k at level 200, only parsing) : stdpp_scope.
Notation "x ←! m ; k" := (try_call m (λ x, k))
  (at level 20, m at level 100, k at level 200, only parsing) : stdpp_scope.
Notation "' p ←! m ; k" := (try_call m (λ x, let 'p := x in k))
  (at level 20, p pattern, m at level 100, k at level 200, only parsing) : stdpp_scope.

(** A loop whose body may return an error or panic. *)
Fixpoint for_each {E A} (f : A → fallible E unit) (l : list A) : fallible E unit :=
  match l with
  | [] => ok tt
  | x :: l => _ ←! f x; for_each f l
  end.

(** [Iterator::collect] of a mapped or filtered sequence whose closure may panic. *)
Fixpoint map_outcome {A B} (f : A → outcome B) (l : list A) : outcome (list B) :=
  match l with
  | [] => Done []
  | x :: l => y ← f x; ys ← map_outcome f l; Done (y :: ys)
  end.
Fixpoint filter_outcome {A} (f : A → outcome bool) (l : list A) : outcome (list A) :=
  match l with
  | [] => Done []
  | x :: l => b ← f x; ys ← filter_outcome f l; Done (if (b : bool) then x :: ys else ys)
  end.

(** [o.ok_or(e)] *)
Definition ok_or {E A} (o : option A) (e : E) : result E A :=
  match o with Some a => Ok a | None => Err e end.

(** [r.map_err(f)] *)
Definition map_err {E F A} (f : E → F) (r : result E A) : result F A :=
  match r with Ok a => Ok a | Err e => Err (f e) end.

(** [o.expect(..)] and [o.unwrap()] *)
Definition unwrap {A} (o : option A) : outcome A :=
  match o with Some a => Done a | None => Panic end.

Definition is_ok {E A} (r : result E A) : bool :=
  match r with Ok _ => true | Err _ => false end.

Definition is_some {A} (o : option A) : bool :=
  match o with Some _ => true | None => false end.

(** [o.is_some_and(p)] and [o.is_none_or(p)] *)
Definition is_some_and {A} (p : A → bool) (o : option A) : bool :=
  match o with Some a => p a | None => false end.
Definition is_none_or {A} (p : A → bool) (o : option A) : bool :=
  match o with Some a => p a | None => true end.

(** ** Machine integers

    A [w]-bit unsigned integer is a [Z] in [[0, 2^w)].  [usize] is 64 bits
    wide: the host is a 64-bit target, where [u64 as usize] and
    [usize::try_from(u64)] lose nothing. *)
Definition U64 : Z := 2 ^ 64.
Definition U32 : Z := 2 ^ 32.
Definition u64_max : Z := U64 - 1.
Definition u32_max : Z := U32 - 1.

Definition is_u64 (x : Z) : Prop := 0 ≤ x < U64.
Definition is_u32 (x : Z) : Prop := 0 ≤ x < U32.
Definition is_byte (x : Z) : Prop := 0 ≤ x < 256.

#[export] Instance is_u64_dec x : Decision (is_u64 x).
Proof. unfold is_u64. apply _. Defined.
#[export] Instance is_u32_dec x : Decision (is_u32 x).
Proof. unfold is_u32. apply _. Defined.
#[export] Instance is_byte_dec x : Decision (is_byte x).
Proof. unfold is_byte. apply _. Defined.

Definition wrap64 (x : Z) : Z := x mod U64.
Definition wrap32 (x : Z) : Z := x mod U32.

(** The two's complement reading of a 64-bit word: [x as i64]. *)
Definition as_i64 (x : Z) : Z := if x <? 2 ^ 63 then x else x - U64.

Definition wrapping_add (a b : Z) : Z := wrap64 (a + b).
Definition wrapping_sub (a b : Z) : Z := wrap64 (a - b).
Definition wrapping_mul (a b : Z) : Z := wrap64 (a * b).

Definition checked_add (a b : Z) : option Z :=
  if a + b <? U64 then Some (a + b) else None.
Definition checked_sub (a b : Z) : option Z :=
  if b <=? a then Some (a - b) else None.
Definition checked_add_signed (a d : Z) : option Z :=
  if (0 <=? a + d) && (a + d <? U64) then Some (a + d) else None.
Definition checked_add32 (a b : Z) : option Z :=
  if a + b <? U32 then Some (a + b) else None.
Definition saturating_sub (a b : Z) : Z := Z.max 0 (a - b).
Definition saturating_add (a b : Z) : Z := Z.min u64_max (a + b).

(** The build profile.  In a debug build ([cargo test]) the plain operators
    panic on overflow and [debug_assert!] is checked; in a release build they
    wrap and it is not.  Every definition is generic in the profile. *)
Class Profile := debug_build : bool.

Definition checked_or_wrap `{Profile} (exact wrapped : Z) : outcome Z :=
  if bool_decide (exact = wrapped) then Done exact
  else if debug_build then Panic else Done wrapped.

(** [a + b] and [a - b] on [u64], [a + b] on [i64]. *)
Definition add_u64 `{Profile} (a b : Z) : outcome Z :=
  checked_or_wrap (a + b) (wrapping_add a b).
Definition sub_u64 `{Profile} (a b : Z) : outcome Z :=
  checked_or_wrap (a - b) (wrapping_sub a b).
Definition add_i64 `{Profile} (a b : Z) : outcome Z :=
  checked_or_wrap (a + b) (as_i64 (wrap64 (a + b))).

(** [a * b] on [u64], [a - b] on [u32]. *)
Definition mul_u64 `{Profile} (a b : Z) : outcome Z :=
  checked_or_wrap (a * b) (wrapping_mul a b).
Definition sub_u32 `{Profile} (a b : Z) : outcome Z :=
  checked_or_wrap (a - b) (wrap32 (a - b)).
Definition add_u32 `{Profile} (a b : Z) : outcome Z :=
  checked_or_wrap (a + b) (wrap32 (a + b)).

Definition debug_assert `{Profile} (b : bool) : outcome unit :=
  if debug_build && negb b then Panic else Done tt.

(** [assert!] *)
Definition assert_ (b : bool) : outcome unit := if b then Done tt else Panic.

#[export] Instance Done_inj {A} : Inj eq eq (@Done A).
Proof. by intros ?? [= ->]. Qed.
#[export] Instance Ok_inj {E A} : Inj eq eq (@Ok E A).
Proof. by intros ?? [= ->]. Qed.
#[export] Instance Err_inj {E A} : Inj eq eq (@Err E A).
Proof. by intros ?? [= ->]. Qed.

Lemma try_Ok {E A B} (r : result E A) (k : A → fallible E B) b :
  try_ r k = Done (Ok b) → ∃ a, r = Ok a ∧ k a = Done (Ok b).
Proof. destruct r; cbn; [eauto|done]. Qed.
Lemma try_call_Ok {E A B} (m : fallible E A) (k : A → fallible E B) b :
  try_call m k = Done (Ok b) → ∃ a, m = Done (Ok a) ∧ k a = Done (Ok b).
Proof. destruct m as [[]|]; cbn; [eauto|done..]. Qed.

(** ** Tactics *)

(** Take a success hypothesis apart: every guard becomes an equation. *)
Ltac guard_step :=
  match goal with
  | H : Some _ = Some _ |- _ => apply (inj Some) in H
  | H : (_, _) = (_, _) |- _ => apply pair_eq in H as [? ?]
  | H : None = Some _ |- _ => discriminate H
  | H : Some _ = None |- _ => discriminate H
  | H : ok _ = Done _ |- _ => unfold ok in H
  | H : err _ = Done _ |- _ => unfold err in H
  | H : mret _ = Done _ |- _ => unfold mret, outcome_ret in H
  | H : Done _ = Done _ |- _ => apply (inj Done) in H
  | H : Panic = Done _ |- _ => discriminate H
  | H : Done _ = Panic |- _ => discriminate H
  | H : Ok _ = Ok _ |- _ => apply (inj Ok) in H
  | H : Err _ = Err _ |- _ => apply (inj Err) in H
  | H : Ok _ = Err _ |- _ => discriminate H
  | H : Err _ = Ok _ |- _ => discriminate H
  | H : false = true |- _ => discriminate H
  | H : true = false |- _ => discriminate H
  end.
Ltac guards := repeat (guard_step; try subst).

(** Split booleans into the propositions they decide. *)
Ltac bool_step :=
  match goal with
  | H : _ && _ = true |- _ => apply andb_true_iff in H as [? ?]
  | H : _ || _ = false |- _ => apply orb_false_iff in H as [? ?]
  | H : _ || _ = true |- _ => apply orb_true_iff in H
  | H : _ && _ = false |- _ => apply andb_false_iff in H
  | H : negb _ = true |- _ => apply negb_true_iff in H
  | H : negb _ = false |- _ => apply negb_false_iff in H
  | H : (_ =? _) = true |- _ => apply Z.eqb_eq in H
  | H : (_ =? _) = false |- _ => apply Z.eqb_neq in H
  | H : (_ <? _) = true |- _ => apply Z.ltb_lt in H
  | H : (_ <? _) = false |- _ => apply Z.ltb_ge in H
  | H : (_ <=? _) = true |- _ => apply Z.leb_le in H
  | H : (_ <=? _) = false |- _ => apply Z.leb_gt in H
  | H : bool_decide _ = true |- _ => apply bool_decide_eq_true in H
  | H : bool_decide _ = false |- _ => apply bool_decide_eq_false in H
  end.
Ltac bools := repeat bool_step.

(** Case split on the scrutinee of a hypothesis until it is a value. *)
Ltac cases_in H :=
  repeat (match type of H with
          | context [match ?x with _ => _ end] => destruct x eqn:?
          end; guards; try discriminate).
Ltac cases_goal :=
  repeat (match goal with
          | |- context [match ?x with _ => _ end] => destruct x eqn:?
          end; try discriminate).

(** Run the binds of a successful call. *)
Ltac run_binds H :=
  repeat (match type of H with
          | (mbind ?k ?m = Done _) => let x := fresh "x" in let E := fresh "E" in
              destruct m as [x|] eqn:E; [cbn [mbind outcome_bind] in H|discriminate H]
          | (match ?m with _ => _ end = Done _) => let E := fresh "E" in destruct m eqn:E
          | ((let '(_, _) := ?m in _) = Done _) => destruct m
          end; try discriminate H).

(** The same through [?]: an error of the callee is an error of the caller. *)
Ltac run_tries H :=
  repeat (match type of H with
          | (try_ ?r _ = Done _) => let x := fresh "x" in let e := fresh "e" in let E := fresh "E" in
              destruct r as [x|e] eqn:E; cbn [try_] in H
          | (try_call ?m _ = Done _) => let x := fresh "x" in let e := fresh "e" in let E := fresh "E" in
              destruct m as [[x|e]|] eqn:E; cbn [try_call] in H
          | _ => progress run_binds H
          end; try discriminate H).

(** The same for any result, options included *)
Ltac walk H :=
  repeat (match type of H with
          | (mbind _ ?m = _) => let E := fresh "E" in destruct m eqn:E; cbn [mbind option_bind outcome_bind] in H
          | (match ?x with _ => _ end = _) => let E := fresh "E" in destruct x eqn:E
          end; try discriminate H).

Create HintDb anka.

(** ** Arithmetic *)

Lemma U64_pos : 0 < U64.
Proof. reflexivity. Qed.

Ltac u64_lia := unfold is_u64, is_u32, is_byte, u64_max, u32_max, U64, U32 in *; lia.

Lemma wrap64_range x : is_u64 (wrap64 x).
Proof. apply Z.mod_pos_bound. reflexivity. Qed.

Lemma wrap64_id x : is_u64 x → wrap64 x = x.
Proof. intros H. apply Z.mod_small, H. Qed.

Lemma checked_add_Some a b c : checked_add a b = Some c ↔ a + b < U64 ∧ c = a + b.
Proof. unfold checked_add. destruct (Z.ltb_spec (a + b) U64); naive_solver lia. Qed.

Lemma checked_add_None a b : checked_add a b = None ↔ U64 ≤ a + b.
Proof. unfold checked_add. destruct (Z.ltb_spec (a + b) U64); naive_solver lia. Qed.

Lemma checked_sub_Some a b c : checked_sub a b = Some c ↔ b ≤ a ∧ c = a - b.
Proof. unfold checked_sub. destruct (Z.leb_spec b a); naive_solver lia. Qed.

Lemma checked_add_signed_Some a d c :
  checked_add_signed a d = Some c ↔ 0 ≤ a + d < U64 ∧ c = a + d.
Proof.
  unfold checked_add_signed.
  destruct (Z.leb_spec 0 (a + d)), (Z.ltb_spec (a + d) U64); naive_solver lia.
Qed.

(** Without overflow the plain operators return the exact value in every
    profile. *)
Lemma checked_or_wrap_exact `{Profile} x y : x = y → checked_or_wrap x y = Done x.
Proof. intros <-. unfold checked_or_wrap. by rewrite bool_decide_eq_true_2. Qed.

Lemma add_u64_exact `{Profile} a b : is_u64 (a + b) → add_u64 a b = Done (a + b).
Proof. intros Hr. apply checked_or_wrap_exact. symmetry. by apply wrap64_id. Qed.

Lemma add_u64_range `{Profile} a b c : add_u64 a b = Done c → is_u64 c.
Proof.
  unfold add_u64, checked_or_wrap, wrapping_add. intros H'.
  destruct (bool_decide_reflect (a + b = wrap64 (a + b))) as [E|].
  - guards. rewrite E. apply wrap64_range.
  - destruct debug_build; guards. apply wrap64_range.
Qed.

Lemma as_i64_range x : is_u64 x → - 2 ^ 63 ≤ as_i64 x < 2 ^ 63.
Proof. unfold as_i64. intros. destruct (Z.ltb_spec x (2 ^ 63)); u64_lia. Qed.

Lemma wrap64_as_i64 x : is_u64 x → wrap64 (as_i64 x) = x.
Proof.
  intros Hx. unfold as_i64, wrap64. destruct (Z.ltb_spec x (2 ^ 63)).
  - by apply Z.mod_small.
  - rewrite <- (Z.mod_small x U64) at 2 by done.
    replace (x - U64) with (x + (-1) * U64) by lia. apply Z.mod_add. done.
Qed.

#[export] Hint Resolve wrap64_range U64_pos : anka.

(** ** Disjoint bit fields *)
Lemma lor_add_disjoint a b n :
  0 ≤ n → a mod 2 ^ n = 0 → 0 ≤ b < 2 ^ n → Z.lor a b = a + b.
Proof.
  intros Hn Ha Hb.
  assert (Hpos : 0 < 2 ^ n) by (apply Z.pow_pos_nonneg; lia).
  assert (Hz : Z.land a b = 0).
  { apply Z.bits_inj'. intros i Hi. rewrite Z.land_spec, Z.bits_0.
    destruct (Z.ltb_spec i n).
    - rewrite <- (Z.mod_pow2_bits_low a n i), Ha, Z.bits_0 by lia. done.
    - rewrite <- (Z.mod_small b (2 ^ n)), Z.mod_pow2_bits_high, andb_false_r by lia. done. }
  rewrite <- Z.lxor_lor by done. symmetry. by apply Z.add_nocarry_lxor.
Qed.

Lemma land_low_mod x n : 0 ≤ n → Z.land x (Z.ones n) = x mod 2 ^ n.
Proof. intros. by apply Z.land_ones. Qed.

(** ** Little-endian bytes: [to_le_bytes] and [from_le_bytes] *)
Fixpoint le_bytes (n : nat) (z : Z) : list Z :=
  match n with
  | O => []
  | S n => z mod 256 :: le_bytes n (z / 256)
  end.

Fixpoint le_value (bs : list Z) : Z :=
  match bs with
  | [] => 0
  | b :: bs => b + 256 * le_value bs
  end.

Lemma length_le_bytes n z : length (le_bytes n z) = n.
Proof. revert z. induction n; intros; simpl; auto. Qed.

Lemma le_bytes_byte n z : Forall is_byte (le_bytes n z).
Proof.
  revert z. induction n; intros; constructor; auto.
  apply Z.mod_pos_bound. lia.
Qed.

Lemma le_value_le_bytes n z : 0 ≤ z < 256 ^ Z.of_nat n → le_value (le_bytes n z) = z.
Proof.
  revert z. induction n as [|n IH]; intros z Hz; simpl.
  - change (256 ^ Z.of_nat 0) with 1 in Hz. lia.
  - rewrite Nat2Z.inj_succ, Z.pow_succ_r in Hz by lia.
    rewrite IH; [|split; [apply Z.div_pos; lia | apply Z.div_lt_upper_bound; lia]].
    pose proof (Z.div_mod z 256). lia.
Qed.

Lemma le_value_range bs : Forall is_byte bs → 0 ≤ le_value bs < 256 ^ Z.of_nat (length bs).
Proof.
  induction 1 as [|b bs Hb _ IH]; simpl le_value; simpl length.
  - done.
  - rewrite Nat2Z.inj_succ, Z.pow_succ_r by lia. unfold is_byte in Hb. lia.
Qed.

Lemma le_bytes_le_value bs : Forall is_byte bs → le_bytes (length bs) (le_value bs) = bs.
Proof.
  induction 1 as [|b bs Hb _ IH]; simpl; [done|]. unfold is_byte in Hb.
  replace (b + 256 * le_value bs) with (b + le_value bs * 256) by lia.
  rewrite Z.mod_add, Z.div_add, Z.mod_small, Z.div_small, Z.add_0_l by lia.
  by rewrite IH.
Qed.

(** ** Byte slices of a memory *)
Definition slice {A} (base len : Z) (l : list A) : list A :=
  take (Z.to_nat len) (drop (Z.to_nat base) l).

(** [l[base..end].to_vec()], which panics on a bad range *)
Definition vec_slice {A} (base end_ : Z) (l : list A) : outcome (list A) :=
  if (base <=? end_) && (end_ <=? Z.of_nat (length l)) then Done (slice base (end_ - base) l) else Panic.

(** [Vec::remove(i)] and [Vec::insert(i, x)] for an index in range; both panic
    otherwise. *)
Definition vec_remove {A} (i : nat) (l : list A) : outcome (list A) :=
  if (i <? length l)%nat then Done (take i l ++ drop (S i) l) else Panic.
Definition vec_insert {A} (i : nat) (x : A) (l : list A) : outcome (list A) :=
  if (i <=? length l)%nat then Done (take i l ++ x :: drop i l) else Panic.
(** [v[i] = x] and [v[i]] *)
Definition vec_set {A} (i : nat) (x : A) (l : list A) : outcome (list A) :=
  if (i <? length l)%nat then Done (<[i := x]> l) else Panic.
Definition vec_get {A} (i : nat) (l : list A) : outcome A := unwrap (l !! i).

Lemma vec_get_lookup {A} i (l : list A) x : l !! i = Some x → vec_get i l = Done x.
Proof. unfold vec_get. by intros ->. Qed.
Lemma vec_get_Done {A} i (l : list A) x : vec_get i l = Done x → l !! i = Some x.
Proof. unfold vec_get. destruct (l !! i); [by intros [= ->]|done]. Qed.
Lemma vec_set_insert {A} i (x : A) l l' : vec_set i x l = Done l' → l' = <[i := x]> l ∧ (i < length l)%nat.
Proof. unfold vec_set. case_match; [|done]. intros [= <-]. split; [done|]. by apply Nat.ltb_lt. Qed.

(** [l[base..base+len(data)].copy_from_slice(data)] *)
Definition splice {A} (base : Z) (data l : list A) : list A :=
  let base := Z.to_nat base in
  take base l ++ take (length l - base) data ++ drop (base + length data) l.

Lemma length_splice {A} base (data l : list A) : length (splice base data l) = length l.
Proof. unfold splice. rewrite !length_app, !length_take, length_drop. lia. Qed.

Lemma length_slice {A} base len (l : list A) :
  0 ≤ base → 0 ≤ len → base + len ≤ Z.of_nat (length l) →
  Z.of_nat (length (slice base len l)) = len.
Proof. intros. unfold slice. rewrite length_take, length_drop. lia. Qed.

Lemma slice_lookup {A} base len (l : list A) (i : nat) :
  (i < Z.to_nat len)%nat → slice base len l !! i = l !! (Z.to_nat base + i)%nat.
Proof. intros. unfold slice. by rewrite lookup_take_lt, lookup_drop by lia. Qed.

Lemma splice_outside {A} base (data l : list A) (i : nat) :
  (i < Z.to_nat base ∨ Z.to_nat base + length data ≤ i)%nat →
  splice base data l !! i = l !! i.
Proof.
  intros H. destruct (decide (i < length l)%nat) as [Hi|Hi].
  2:{ rewrite !(proj2 (lookup_ge_None _ _)); [done|lia|]. rewrite length_splice. lia. }
  unfold splice. destruct H as [H|H].
  - rewrite lookup_app_l by (rewrite length_take; lia). by apply lookup_take_lt.
  - rewrite !lookup_app_r by (rewrite ?length_take; lia). rewrite !length_take, lookup_drop. f_equal. lia.
Qed.

Lemma splice_inside {A} base (data l : list A) (i : nat) :
  (Z.to_nat base + length data ≤ length l)%nat →
  (i < length data)%nat → splice base data l !! (Z.to_nat base + i)%nat = data !! i.
Proof.
  intros Hl Hi. unfold splice. rewrite lookup_app_r, length_take by (rewrite length_take; lia).
  rewrite lookup_app_l by (rewrite length_take; lia). rewrite lookup_take_lt by lia. f_equal. lia.
Qed.

(** Reading back what was written. *)
Lemma slice_splice {A} base (data l : list A) :
  0 ≤ base → base + Z.of_nat (length data) ≤ Z.of_nat (length l) →
  slice base (Z.of_nat (length data)) (splice base data l) = data.
Proof.
  intros Hb Hl. apply list_eq. intros i.
  destruct (decide (i < length data)%nat) as [Hi|Hi].
  - rewrite slice_lookup by lia. apply splice_inside; lia.
  - rewrite !(proj2 (lookup_ge_None _ _)); [done| lia |].
    unfold slice. rewrite length_take. lia.
Qed.

(** A write leaves every disjoint slice alone. *)
Lemma slice_splice_disjoint {A} base base' len (data l : list A) :
  0 ≤ base → 0 ≤ base' → 0 ≤ len →
  base' + len ≤ base ∨ base + Z.of_nat (length data) ≤ base' →
  slice base' len (splice base data l) = slice base' len l.
Proof.
  intros ??? Hd. apply list_eq. intros i.
  destruct (decide (i < Z.to_nat len)%nat) as [Hi|Hi].
  - rewrite !slice_lookup by lia. apply splice_outside. lia.
  - unfold slice. rewrite !lookup_take_ge by lia. done.
Qed.
