(* ===== verification/State.v ===== *)
(** * The architectural state space: [src/anka64/state.rs]

    Identities, permissions, capabilities, objects, domains, requests,
    transactions, faults and events, with the pure operations on them.
    The capability table of the same source file is in [CapTable]. *)

From S2P Require Import Prelude.

(** ** Identities

    [id_type!] newtypes over [u64]; a [Generation] is a [u64] counter. *)
Abbreviation AgentId := Z (only parsing).
Abbreviation CoreId := Z (only parsing).
Abbreviation DomainId := Z (only parsing).
Abbreviation ObjectId := Z (only parsing).
Abbreviation TransactionId := Z (only parsing).
Abbreviation Generation := Z (only parsing).
Abbreviation AuthorityId := Z (only parsing).

(** [Generation::next] *)
Definition gen_next (g : Generation) : Generation := wrapping_add g 1.

(** ** Permissions *)
Abbreviation Permissions := Z (only parsing).

Module Perm.
Definition NONE : Permissions := 0.
Definition READ : Permissions := 1.
Definition WRITE : Permissions := 2.
Definition EXECUTE : Permissions := 4.
Definition ATOMIC : Permissions := 8.
Definition SEAL : Permissions := 16.
Definition RW : Permissions := 3.
Definition RX : Permissions := 5.
Definition RWX : Permissions := 7.
Definition RWS : Permissions := 19.
Definition ALL_BITS : Z := 31.

(** [bits & !ALL_BITS] on [u64]: the bits outside the mask. *)
Definition from_bits_checked (bits : Z) : option Permissions :=
  if negb (Z.ldiff bits ALL_BITS =? 0) then None else Some (bits mod 256).

Definition contains (self required : Permissions) : bool :=
  Z.land self required =? required.

Definition is_subset_of (self superset : Permissions) : bool :=
  contains superset self.
End Perm.

(** ** Device rights *)
Abbreviation DeviceRights := Z (only parsing).

Module DevRights.
Definition NONE : DeviceRights := 0.
Definition SUBMIT_READ : DeviceRights := 1.
Definition EVENT_WAIT : DeviceRights := 4.
Definition NIC_RX : DeviceRights := 8.
Definition NIC_TX : DeviceRights := 16.
Definition ALL_BITS : Z := 29.
Definition BLOCK_ALLOWED : DeviceRights := 5.
Definition NIC_ALLOWED : DeviceRights := 28.

Definition from_bits_checked (bits : Z) : option DeviceRights :=
  if negb (Z.ldiff bits ALL_BITS =? 0) then None else Some (bits mod 256).

Definition contains (self required : DeviceRights) : bool :=
  Z.land self required =? required.

Definition is_subset_of (self superset : DeviceRights) : bool :=
  contains superset self.
End DevRights.

(** ** Capabilities *)
Record Capability64 := mkCap {
  cap_object : ObjectId;
  cap_generation : Generation;
  cap_offset : Z;
  cap_length : Z;
  cap_permissions : Permissions;
}.
#[export] Instance Capability64_eq_dec : EqDecision Capability64.
Proof. solve_decision. Defined.

(** [Capability64::covers]: the subtraction form of the range check. *)
Definition covers (c : Capability64) (object req_offset req_width : Z)
    (required : Permissions) : bool :=
  (cap_object c =? object)
  && (0 <? req_width)
  && Perm.contains (cap_permissions c) required
  && (cap_offset c <=? req_offset)
  && (req_width <=? cap_length c)
  && (req_offset - cap_offset c <=? cap_length c - req_width).

(** ** Objects *)
Inductive ObjectState := Active | Sealed | Revoked | Freed.
Inductive ObjectKind := Memory | Device | Ipc.
#[export] Instance ObjectState_eq_dec : EqDecision ObjectState.
Proof. solve_decision. Defined.
#[export] Instance ObjectKind_eq_dec : EqDecision ObjectKind.
Proof. solve_decision. Defined.

Record Object := mkObject {
  obj_id : ObjectId;
  obj_generation : Generation;
  obj_size : Z;
  obj_state : ObjectState;
  obj_kind : ObjectKind;
  obj_name : string;
}.

(** [matches!(state, Active | Sealed)] *)
Definition alive (s : ObjectState) : bool :=
  match s with Active | Sealed => true | Revoked | Freed => false end.

(** ** Agents and domains *)
Inductive Privilege := User | Supervisor.
#[export] Instance Privilege_eq_dec : EqDecision Privilege.
Proof. solve_decision. Defined.

Inductive AgentKind := Cpu (core : CoreId) | Dma | Gpu | Storage | Network.
#[export] Instance AgentKind_eq_dec : EqDecision AgentKind.
Proof. solve_decision. Defined.

Definition is_cpu (k : AgentKind) : bool :=
  match k with Cpu _ => true | _ => false end.

Record AgentState := mkAgent {
  agent_id : AgentId;
  agent_kind : AgentKind;
  agent_domain : DomainId;
}.

Record CapabilityEntry := mkEntry {
  entry_cap : Capability64;
  entry_authority_id : option AuthorityId;
}.
#[export] Instance CapabilityEntry_eq_dec : EqDecision CapabilityEntry.
Proof. solve_decision. Defined.

Record DeviceAuthorityEntry := mkDevEntry {
  dev_object : ObjectId;
  dev_generation : Generation;
  dev_rights : DeviceRights;
  dev_authority_id : AuthorityId;
}.

Record DomainState := mkDomain {
  dom_id : DomainId;
  dom_capabilities : list CapabilityEntry;
  dom_device_authorities : list DeviceAuthorityEntry;
}.

(** ** Memory requests *)
Inductive AccessKind := Fetch | Read | Write | Atomic.
#[export] Instance AccessKind_eq_dec : EqDecision AccessKind.
Proof. solve_decision. Defined.

Definition required_permission (k : AccessKind) : Permissions :=
  match k with
  | Fetch => Perm.EXECUTE
  | Read => Perm.READ
  | Write => Perm.WRITE
  | Atomic => Perm.ATOMIC
  end.

Inductive Width := WByte | WHalf | WWord | WDouble.
#[export] Instance Width_eq_dec : EqDecision Width.
Proof. solve_decision. Defined.

(** [Width::bytes]: the enum discriminants. *)
Definition width_bytes (w : Width) : Z :=
  match w with WByte => 1 | WHalf => 2 | WWord => 4 | WDouble => 8 end.

Record AccessContext := mkContext {
  ctx_agent : AgentId;
  ctx_domain : DomainId;
  ctx_privilege : Privilege;
}.

Record MemoryRequest := mkRequest {
  req_context : AccessContext;
  req_object : ObjectId;
  req_offset : Z;
  req_width : Width;
  req_length : Z;
  req_kind : AccessKind;
}.

Definition set_req_kind (k : AccessKind) (r : MemoryRequest) : MemoryRequest :=
  mkRequest (req_context r) (req_object r) (req_offset r) (req_width r) (req_length r) k.
Definition set_req_length (n : Z) (r : MemoryRequest) : MemoryRequest :=
  mkRequest (req_context r) (req_object r) (req_offset r) (req_width r) n (req_kind r).

(** ** Faults *)
Inductive FaultReason :=
| NoCapability | StaleGeneration | WrongPermission | InvalidObject
| TranslationFault | AlignmentFault | ControlFlowViolation
| IllegalInstruction | LengthMismatch | InvalidSpan.
#[export] Instance FaultReason_eq_dec : EqDecision FaultReason.
Proof. solve_decision. Defined.

Record FaultRecord := mkFault {
  fault_agent : AgentId;
  fault_domain : DomainId;
  fault_privilege : Privilege;
  fault_transaction : TransactionId;
  fault_object : ObjectId;
  fault_generation : option Generation;
  fault_offset : Z;
  fault_width : Width;
  fault_length : Z;
  fault_kind : AccessKind;
  fault_pc : option Z;
  fault_reason : FaultReason;
}.

(** ** Transactions *)
Inductive TxState := Requested | Authorized | Prepared | Committed | Faulted.
#[export] Instance TxState_eq_dec : EqDecision TxState.
Proof. solve_decision. Defined.

Definition is_terminal (s : TxState) : bool :=
  match s with Committed | Faulted => true | _ => false end.

Record Transaction := mkTx {
  tx_id : TransactionId;
  tx_request : MemoryRequest;
  tx_state : TxState;
  tx_auth_generation : option Generation;
  tx_physical_address : option Z;
  tx_write_data : option (list Z);
  tx_read_data : option (list Z);
  tx_fault : option FaultRecord;
}.

Definition set_tx_state (s : TxState) (t : Transaction) : Transaction :=
  mkTx (tx_id t) (tx_request t) s (tx_auth_generation t) (tx_physical_address t)
    (tx_write_data t) (tx_read_data t) (tx_fault t).
Definition set_tx_auth_generation (g : option Generation) (t : Transaction) : Transaction :=
  mkTx (tx_id t) (tx_request t) (tx_state t) g (tx_physical_address t)
    (tx_write_data t) (tx_read_data t) (tx_fault t).
Definition set_tx_physical_address (p : option Z) (t : Transaction) : Transaction :=
  mkTx (tx_id t) (tx_request t) (tx_state t) (tx_auth_generation t) p
    (tx_write_data t) (tx_read_data t) (tx_fault t).
Definition set_tx_read_data (d : option (list Z)) (t : Transaction) : Transaction :=
  mkTx (tx_id t) (tx_request t) (tx_state t) (tx_auth_generation t) (tx_physical_address t)
    (tx_write_data t) d (tx_fault t).
Definition set_tx_fault (x : option FaultRecord) (t : Transaction) : Transaction :=
  mkTx (tx_id t) (tx_request t) (tx_state t) (tx_auth_generation t) (tx_physical_address t)
    (tx_write_data t) (tx_read_data t) x.

(** ** Control-flow and event authority *)
Record ReturnAuthority := mkReturn {
  ret_code_object : ObjectId;
  ret_generation : Generation;
  ret_target : Z;
}.
#[export] Instance ReturnAuthority_eq_dec : EqDecision ReturnAuthority.
Proof. solve_decision. Defined.

Inductive EventCause := Syscall | TimerInterrupt | DeviceInterrupt.
#[export] Instance EventCause_eq_dec : EqDecision EventCause.
Proof. solve_decision. Defined.

Record EventFrame := mkEventFrame {
  ev_return_pc : Z;
  ev_return_privilege : Privilege;
  ev_interrupts_were_enabled : bool;
  ev_cause : EventCause;
}.
#[export] Instance EventFrame_eq_dec : EqDecision EventFrame.
Proof. solve_decision. Defined.

(** ** Process, delegation and handle identities *)
Record ProcessKey := mkProcessKey { pk_slot : Z; pk_generation : Z }.
#[export] Instance ProcessKey_eq_dec : EqDecision ProcessKey.
Proof. solve_decision. Defined.

Record DelegationId := mkDelegation {
  del_client : ProcessKey;
  del_driver : ProcessKey;
  del_incarnation : Z;
}.
#[export] Instance DelegationId_eq_dec : EqDecision DelegationId.
Proof. solve_decision. Defined.

Record RequesterKey := mkRequester { rk_slot : Z; rk_generation : Z }.
#[export] Instance RequesterKey_eq_dec : EqDecision RequesterKey.
Proof. solve_decision. Defined.

Record DeviceBinding := mkBinding { bind_object : ObjectId; bind_generation : Generation }.
#[export] Instance DeviceBinding_eq_dec : EqDecision DeviceBinding.
Proof. solve_decision. Defined.
Record RequestHandle := mkHandle { rh_slot : Z; rh_generation : Z }.
#[export] Instance RequestHandle_eq_dec : EqDecision RequestHandle.
Proof. solve_decision. Defined.
Inductive DeviceCompletionStatus := Success | DmaFault (reason : FaultReason).
#[export] Instance DeviceCompletionStatus_eq_dec : EqDecision DeviceCompletionStatus.
Proof. solve_decision. Defined.

(** Deterministic scheduler events. *)
Inductive Event :=
| Advance (idx : nat)
| Revoke (id : ObjectId)
| Move (id : ObjectId) (base : Z).

(** ** Permission algebra *)
Section permission_facts.
Implicit Types p q r : Z.

Lemma contains_testbit p q :
  Perm.contains p q = true ↔ ∀ i, Z.testbit q i = true → Z.testbit p i = true.
Proof.
  unfold Perm.contains. rewrite Z.eqb_eq. split.
  - intros H i Hi. rewrite <- H, Z.land_spec in Hi. by apply andb_true_iff in Hi as [? _].
  - intros H. apply Z.bits_inj'. intros i _. rewrite Z.land_spec.
    destruct (Z.testbit q i) eqn:E.
    + by rewrite (H _ E).
    + apply andb_false_r.
Qed.

Lemma contains_refl p : Perm.contains p p = true.
Proof. by apply contains_testbit. Qed.

Lemma contains_trans p q r :
  Perm.contains p q = true → Perm.contains q r = true → Perm.contains p r = true.
Proof. rewrite !contains_testbit. auto. Qed.

(** Attenuation: a right missing from the parent is missing from the child. *)
Lemma subset_lacks child parent right :
  Perm.is_subset_of child parent = true →
  Perm.contains parent right = false → Perm.contains child right = false.
Proof.
  unfold Perm.is_subset_of. intros Hs Hp.
  destruct (Perm.contains child right) eqn:E; [|done].
  by rewrite (contains_trans _ _ _ Hs E) in Hp.
Qed.
End permission_facts.

Lemma from_bits_checked_spec bits :
  is_u64 bits →
  Perm.from_bits_checked bits = if bits <? 32 then Some bits else None.
Proof.
  intros Hb. unfold Perm.from_bits_checked.
  assert (Hl : Z.ldiff bits Perm.ALL_BITS = Z.shiftl (Z.shiftr bits 5) 5).
  { change Perm.ALL_BITS with (Z.ones 5). by rewrite Z.ldiff_ones_r. }
  rewrite Hl, Z.shiftl_mul_pow2, Z.shiftr_div_pow2 by lia. change (2 ^ 5) with 32.
  pose proof (Z.div_mod bits 32). pose proof (Z.mod_pos_bound bits 32).
  destruct (Z.ltb_spec bits 32).
  - rewrite Z.div_small by u64_lia. simpl. rewrite Z.mod_small by u64_lia. done.
  - destruct (Z.eqb_spec (bits / 32 * 32) 0); [u64_lia|done].
Qed.

(** [covers] as interval inclusion, free of the overflow the subtraction form
    guards against. *)
Lemma covers_spec c object off w required :
  covers c object off w required = true ↔
  cap_object c = object ∧ 0 < w ∧ Perm.contains (cap_permissions c) required = true ∧
  cap_offset c ≤ off ∧ off + w ≤ cap_offset c + cap_length c.
Proof.
  unfold covers. rewrite !andb_true_iff, !Z.leb_le, Z.ltb_lt, Z.eqb_eq.
  naive_solver lia.
Qed.
