(* ===== verification/CapTable.v ===== *)
(** * The per-process capability table: [CapabilityTable] of [src/anka64/state.rs]

    A fixed table of 16 generation-qualified slots.  The theorems give the
    install/resolve round trip, the conservation of slots, and the permanence
    of a drop: no later sequence of operations makes a dropped handle resolve
    again. *)

From S2P Require Import Prelude State.

Record CapabilityHandle := mkCapHandle { ch_slot : Z; ch_generation : Z }.
#[export] Instance CapabilityHandle_eq_dec : EqDecision CapabilityHandle.
Proof. solve_decision. Defined.

Inductive CapabilitySlotState :=
| SlotFree
| SlotMemory (object : ObjectId) (object_generation : Generation)
    (offset length : Z) (perms : Permissions)
    (authority_id : AuthorityId) (delegation_id : option DelegationId)
| SlotDevice (object : ObjectId) (object_generation : Generation)
    (rights : DeviceRights)
    (authority_id : AuthorityId) (delegation_id : option DelegationId).
#[export] Instance CapabilitySlotState_eq_dec : EqDecision CapabilitySlotState.
Proof. solve_decision. Defined.

Record CapabilitySlot := mkSlot {
  slot_handle_generation : Z;
  slot_state : CapabilitySlotState;
}.

Definition CAP_TABLE_SIZE : Z := 16.

Record CapabilityTable := mkTable { ct_slots : list CapabilitySlot }.

Inductive ResolvedCapability :=
| ResolvedMemory (object : ObjectId) (object_generation : Generation)
    (offset length : Z) (perms : Permissions)
    (authority_id : AuthorityId) (delegation_id : option DelegationId)
| ResolvedDevice (object : ObjectId) (object_generation : Generation)
    (rights : DeviceRights)
    (authority_id : AuthorityId) (delegation_id : option DelegationId).
#[export] Instance ResolvedCapability_eq_dec : EqDecision ResolvedCapability.
Proof. solve_decision. Defined.

Definition resolved_authority_id (r : ResolvedCapability) : AuthorityId :=
  match r with ResolvedMemory _ _ _ _ _ a _ | ResolvedDevice _ _ _ a _ => a end.
Definition resolved_object (r : ResolvedCapability) : ObjectId :=
  match r with ResolvedMemory o _ _ _ _ _ _ | ResolvedDevice o _ _ _ _ => o end.
Definition resolved_object_generation (r : ResolvedCapability) : Generation :=
  match r with ResolvedMemory _ g _ _ _ _ _ | ResolvedDevice _ g _ _ _ => g end.
Definition resolved_delegation_id (r : ResolvedCapability) : option DelegationId :=
  match r with ResolvedMemory _ _ _ _ _ _ d | ResolvedDevice _ _ _ _ d => d end.
Definition is_memory (r : ResolvedCapability) : bool :=
  match r with ResolvedMemory _ _ _ _ _ _ _ => true | _ => false end.
Definition is_device (r : ResolvedCapability) : bool :=
  match r with ResolvedDevice _ _ _ _ _ => true | _ => false end.
Definition as_memory (r : ResolvedCapability) : outcome (Z * Z * Permissions) :=
  match r with
  | ResolvedMemory _ _ offset length perms _ _ => Done (offset, length, perms)
  | ResolvedDevice _ _ _ _ _ => Panic
  end.
Definition as_device_rights (r : ResolvedCapability) : outcome DeviceRights :=
  match r with
  | ResolvedDevice _ _ rights _ _ => Done rights
  | ResolvedMemory _ _ _ _ _ _ _ => Panic
  end.

(** ** Operations *)

Definition table_new : CapabilityTable :=
  mkTable (replicate (Z.to_nat CAP_TABLE_SIZE) (mkSlot 0 SlotFree)).

Definition slot_is_free (s : CapabilitySlot) : bool :=
  match slot_state s with SlotFree => true | _ => false end.

(** The guard of the install loops: free and with an advanceable generation. *)
Definition slot_allocatable (s : CapabilitySlot) : bool :=
  slot_is_free s && negb (slot_handle_generation s =? u32_max).

(** The loop shared by [install_memory] and [install_device]: the first
    allocatable slot takes the new state. *)
Fixpoint install_loop (i : Z) (slots : list CapabilitySlot) (st : CapabilitySlotState)
    : option (CapabilityHandle * list CapabilitySlot) :=
  match slots with
  | [] => None
  | s :: rest =>
      if slot_allocatable s then
        Some (mkCapHandle i (slot_handle_generation s),
              mkSlot (slot_handle_generation s) st :: rest)
      else
        '(h, rest') ← install_loop (i + 1) rest st;
        Some (h, s :: rest')
  end.

Definition install_memory (t : CapabilityTable) (object : ObjectId)
    (object_generation : Generation) (offset length : Z) (perms : Permissions)
    (authority_id : AuthorityId) (delegation_id : option DelegationId)
    : option (CapabilityHandle * CapabilityTable) :=
  '(h, slots) ← install_loop 0 (ct_slots t)
    (SlotMemory object object_generation offset length perms authority_id delegation_id);
  Some (h, mkTable slots).

Definition install_device (t : CapabilityTable) (object : ObjectId)
    (object_generation : Generation) (rights : DeviceRights)
    (authority_id : AuthorityId) (delegation_id : option DelegationId)
    : option (CapabilityHandle * CapabilityTable) :=
  '(h, slots) ← install_loop 0 (ct_slots t)
    (SlotDevice object object_generation rights authority_id delegation_id);
  Some (h, mkTable slots).

(** [self.slots.get(handle.slot as usize)] *)
Definition get_slot (t : CapabilityTable) (h : CapabilityHandle) : option CapabilitySlot :=
  ct_slots t !! Z.to_nat (ch_slot h).

Definition slot_resolved (s : CapabilitySlotState) : option ResolvedCapability :=
  match s with
  | SlotMemory o g off len p a d => Some (ResolvedMemory o g off len p a d)
  | SlotDevice o g r a d => Some (ResolvedDevice o g r a d)
  | SlotFree => None
  end.

Definition resolve (t : CapabilityTable) (h : CapabilityHandle)
    (current_object_gen : ObjectId → option Generation) : option ResolvedCapability :=
  slot ← get_slot t h;
  if negb (slot_handle_generation slot =? ch_generation h) then None
  else
    resolved ← slot_resolved (slot_state slot);
    current_gen ← current_object_gen (resolved_object resolved);
    if negb (resolved_object_generation resolved =? current_gen) then None
    else Some resolved.

Definition slot_authority_id (s : CapabilitySlotState) : option AuthorityId :=
  match s with
  | SlotMemory _ _ _ _ _ a _ => Some a
  | SlotDevice _ _ _ a _ => Some a
  | SlotFree => None
  end.

Definition drop_handle (t : CapabilityTable) (h : CapabilityHandle)
    : option (AuthorityId * CapabilityTable) :=
  slot ← get_slot t h;
  if negb (slot_handle_generation slot =? ch_generation h) then None
  else
    auth_id ← slot_authority_id (slot_state slot);
    next_gen ← checked_add32 (slot_handle_generation slot) 1;
    Some (auth_id,
          mkTable (<[Z.to_nat (ch_slot h) := mkSlot next_gen SlotFree]> (ct_slots t))).

Definition preflight_drop (t : CapabilityTable) (h : CapabilityHandle) : option AuthorityId :=
  slot ← get_slot t h;
  if negb (slot_handle_generation slot =? ch_generation h) then None
  else
    auth_id ← slot_authority_id (slot_state slot);
    _ ← checked_add32 (slot_handle_generation slot) 1;
    Some auth_id.

Definition count_slots (p : CapabilitySlot → bool) (slots : list CapabilitySlot) : Z :=
  Z.of_nat (length (filter (λ s, p s = true) slots)).

Definition free_count (t : CapabilityTable) : Z := count_slots slot_is_free (ct_slots t).
Definition allocatable_count (t : CapabilityTable) : Z :=
  count_slots slot_allocatable (ct_slots t).
Definition occupied_count (t : CapabilityTable) : Z := CAP_TABLE_SIZE - free_count t.

(** ** Invariant and reachability *)

Definition slot_wf (s : CapabilitySlot) : Prop :=
  is_u32 (slot_handle_generation s) ∧
  (slot_is_free s = false → slot_handle_generation s ≠ u32_max).

Definition table_wf (t : CapabilityTable) : Prop :=
  length (ct_slots t) = Z.to_nat CAP_TABLE_SIZE ∧ Forall slot_wf (ct_slots t).

(** Installation and drop are the only transitions (CAPTAB-6). *)
Inductive table_step : CapabilityTable → CapabilityTable → Prop :=
| step_install_memory t o g off len p a d h t' :
    install_memory t o g off len p a d = Some (h, t') → table_step t t'
| step_install_device t o g r a d h t' :
    install_device t o g r a d = Some (h, t') → table_step t t'
| step_drop t h a t' :
    drop_handle t h = Some (a, t') → table_step t t'.

(** ** Lemmas *)

Lemma install_loop_spec i slots st h slots' :
  install_loop i slots st = Some (h, slots') →
  ∃ k s, slots !! k = Some s ∧ slot_allocatable s = true ∧
    h = mkCapHandle (i + Z.of_nat k) (slot_handle_generation s) ∧
    slots' = <[k := mkSlot (slot_handle_generation s) st]> slots ∧
    (∀ j s', (j < k)%nat → slots !! j = Some s' → slot_allocatable s' = false).
Proof.
  revert i h slots'. induction slots as [|s rest IH]; intros i h slots' H; simpl in H; [done|].
  destruct (slot_allocatable s) eqn:Ea.
  - guards. exists 0%nat, s. rewrite Z.add_0_r. split_and!; try done. intros; lia.
  - destruct (install_loop (i + 1) rest st) as [[h' rest']|] eqn:El; simpl in H; guards.
    destruct (IH _ _ _ El) as (k & s' & Hk & Ha & -> & -> & Hmin).
    exists (S k), s'. split_and!; try done.
    + f_equal. lia.
    + intros [|j] s'' Hj Hs; simpl in Hs; guards; [done|]. apply (Hmin j); [lia|done].
Qed.

Lemma install_loop_none i slots st :
  install_loop i slots st = None ↔ count_slots slot_allocatable slots = 0.
Proof.
  unfold count_slots. revert i. induction slots as [|s rest IH]; intros i; simpl; [done|].
  rewrite filter_cons. destruct (slot_allocatable s) eqn:Ea.
  - rewrite decide_True by done. simpl. split; [done|lia].
  - rewrite decide_False by congruence. rewrite <- (IH (i + 1)).
    destruct (install_loop (i + 1) rest st) as [[??]|]; simpl; naive_solver.
Qed.

Lemma count_slots_insert p slots k s s' :
  slots !! k = Some s →
  count_slots p (<[k := s']> slots) =
  count_slots p slots - (if p s then 1 else 0) + (if p s' then 1 else 0).
Proof.
  unfold count_slots. revert k. induction slots as [|x rest IH]; intros [|k] Hk; simpl in Hk; guards.
  - simpl. rewrite !filter_cons.
    destruct (p s) eqn:?, (p s') eqn:?; repeat case_decide; simpl; try congruence; lia.
  - simpl. rewrite !filter_cons. specialize (IH _ Hk). case_decide; simpl; lia.
Qed.

(** Every operation moves exactly one slot. *)
Lemma table_step_slot t t' :
  table_step t t' →
  ∃ k s s', ct_slots t !! k = Some s ∧ ct_slots t' = <[k := s']> (ct_slots t) ∧
    ((slot_allocatable s = true ∧ slot_is_free s' = false ∧
      slot_handle_generation s' = slot_handle_generation s) ∨
     (slot_is_free s = false ∧ slot_is_free s' = true ∧
      slot_handle_generation s' = slot_handle_generation s + 1 ∧
      slot_handle_generation s' < U32)).
Proof.
  intros [t0 ???????? t1 H|t0 ?????? t1 H|t0 h a t1 H].
  1-2: unfold install_memory, install_device in H;
    destruct (install_loop _ _ _) as [[h' sl]|] eqn:El; simpl in H; guards;
    destruct (install_loop_spec _ _ _ _ _ El) as (k & s & Hk & Ha & _ & -> & _);
    exists k, s; eexists; split_and!; [done|done|left; done].
  unfold drop_handle, get_slot in H.
  destruct (ct_slots t0 !! _) as [s|] eqn:Es; simpl in H; [|done].
  destruct (negb _); [done|].
  destruct (slot_authority_id (slot_state s)) eqn:Ea; simpl in H; [|done].
  unfold checked_add32 in H.
  destruct (Z.ltb_spec (slot_handle_generation s + 1) U32); simpl in H; guards.
  eexists _, s, _; split_and!; [done|done|]. right. simpl. split_and!; try done.
  unfold slot_is_free. by destruct (slot_state s).
Qed.

Lemma table_new_wf : table_wf table_new.
Proof. split; [done|]. by apply Forall_replicate. Qed.

Lemma table_step_wf t t' : table_wf t → table_step t t' → table_wf t'.
Proof.
  intros [Hlen Hall] Hst. destruct (table_step_slot _ _ Hst) as (k & s & s' & Hk & Heq & Hc).
  unfold table_wf. rewrite Heq. split; [by rewrite length_insert|]. apply Forall_insert; [done|].
  destruct (proj1 (Forall_lookup _ _) Hall _ _ Hk) as [Hr Hn].
  destruct Hc as [(Ha & Hf & Hg)|(Hf & Hf' & Hg & Hb)]; split.
  - by rewrite Hg.
  - rewrite Hg. unfold slot_allocatable in Ha. bools. done.
  - rewrite Hg in *. u64_lia.
  - congruence.
Qed.

Lemma table_reach_wf t t' : table_wf t → rtc table_step t t' → table_wf t'.
Proof. intros Hwf H. induction H; eauto using table_step_wf. Qed.

(** A slot's generation never decreases, and a slot that is free at the
    generation [g] never shows the generation [g] occupied unless installed. *)
Definition slot_past (g : Z) (t : CapabilityTable) (k : nat) : Prop :=
  ∀ s, ct_slots t !! k = Some s → g < slot_handle_generation s.

Lemma slot_past_step g t t' k : slot_past g t k → table_step t t' → slot_past g t' k.
Proof.
  intros Hp Hst s Hs. destruct (table_step_slot _ _ Hst) as (k' & s0 & s1 & Hk & Heq & Hc).
  rewrite Heq in Hs. destruct (decide (k' = k)) as [->|Hne].
  - rewrite list_lookup_insert_eq in Hs by (by eapply lookup_lt_Some). guards.
    specialize (Hp _ Hk). naive_solver lia.
  - rewrite list_lookup_insert_ne in Hs by done. by apply Hp.
Qed.

Lemma slot_past_reach g t t' k : slot_past g t k → rtc table_step t t' → slot_past g t' k.
Proof. intros Hp H. induction H; eauto using slot_past_step. Qed.

Lemma drop_handle_past t h a t' :
  drop_handle t h = Some (a, t') → slot_past (ch_generation h) t' (Z.to_nat (ch_slot h)).
Proof.
  unfold drop_handle, get_slot. intros H.
  destruct (ct_slots t !! _) as [s|] eqn:Es; simpl in H; [|done].
  destruct (negb _) eqn:En; [done|]. bools.
  destruct (slot_authority_id (slot_state s)); simpl in H; [|done].
  unfold checked_add32 in H. destruct (_ <? U32); simpl in H; guards.
  intros s1 Hs1. simpl in Hs1.
  rewrite list_lookup_insert_eq in Hs1 by (by eapply lookup_lt_Some). guards. simpl. lia.
Qed.

Lemma slot_past_resolve h t cur :
  slot_past (ch_generation h) t (Z.to_nat (ch_slot h)) → resolve t h cur = None.
Proof.
  intros Hp. unfold resolve, get_slot.
  destruct (ct_slots t !! _) as [s|] eqn:Es; simpl; [|done].
  specialize (Hp _ Es). destruct (Z.eqb_spec (slot_handle_generation s) (ch_generation h)); [lia|done].
Qed.

Section handle_theorems.

(** Both installations take the first allocatable slot, and the handle they
    return resolves to exactly what was installed. *)
Lemma install_loop_resolve slots st h slots' r cur :
  install_loop 0 slots st = Some (h, slots') → slot_resolved st = Some r →
  cur (resolved_object r) = Some (resolved_object_generation r) → resolve (mkTable slots') h cur = Some r.
Proof.
  intros El Hr Hcur. destruct (install_loop_spec _ _ _ _ _ El) as (k & s & Hk & Ha & -> & -> & _).
  unfold resolve, get_slot; cbn [ch_slot ch_generation ct_slots].
  rewrite Z.add_0_l, Nat2Z.id, list_lookup_insert_eq by (by eapply lookup_lt_Some). simpl.
  rewrite Z.eqb_refl, Hr. simpl. rewrite Hcur. simpl. by rewrite Z.eqb_refl.
Qed.
Lemma install_memory_resolve t o g off len p a d h t' cur :
  install_memory t o g off len p a d = Some (h, t') →
  cur o = Some g →
  resolve t' h cur = Some (ResolvedMemory o g off len p a d).
Proof.
  unfold install_memory. intros H Hcur.
  destruct (install_loop _ _ _) as [[h' sl]|] eqn:El; simpl in H; guards. by eapply install_loop_resolve.
Qed.
Lemma install_device_resolve t o g rights a d h t' cur :
  install_device t o g rights a d = Some (h, t') →
  cur o = Some g →
  resolve t' h cur = Some (ResolvedDevice o g rights a d).
Proof.
  unfold install_device. intros H Hcur.
  destruct (install_loop _ _ _) as [[h' sl]|] eqn:El; simpl in H; guards. by eapply install_loop_resolve.
Qed.

(** An installation does not disturb a slot that is occupied. *)
Lemma install_loop_frame i slots st h slots' k s :
  install_loop i slots st = Some (h, slots') →
  slots !! k = Some s → slot_is_free s = false → slots' !! k = Some s.
Proof.
  intros El Hk Hf. destruct (install_loop_spec _ _ _ _ _ El) as (k' & s' & Hk' & Ha & _ & -> & _).
  unfold slot_allocatable in Ha. bools.
  rewrite list_lookup_insert_ne; [done|]. intros ->. congruence.
Qed.

Lemma resolve_Some_slot t h cur r :
  resolve t h cur = Some r →
  ∃ s, get_slot t h = Some s ∧ slot_handle_generation s = ch_generation h ∧
    slot_resolved (slot_state s) = Some r ∧
    cur (resolved_object r) = Some (resolved_object_generation r).
Proof.
  unfold resolve. intros H. destruct (get_slot t h) as [s|]; simpl in H; [|done].
  destruct (negb _) eqn:E1; [done|]. bools.
  destruct (slot_resolved _) as [r0|] eqn:Er; simpl in H; [|done].
  destruct (cur _) as [g|] eqn:Ec; simpl in H; [|done].
  destruct (negb _) eqn:E2; [done|]. bools. guards. eauto.
Qed.

Lemma resolve_ext t t' h cur r :
  resolve t h cur = Some r → (∀ s, get_slot t h = Some s → slot_is_free s = false →
    get_slot t' h = Some s) → resolve t' h cur = Some r.
Proof.
  intros H Hext. pose proof (resolve_Some_slot _ _ _ _ H) as (s & Hs & _ & Hr & _).
  assert (Hf : slot_is_free s = false) by (unfold slot_is_free; by destruct (slot_state s)).
  unfold resolve in *. rewrite Hs in H. by rewrite (Hext _ Hs Hf).
Qed.
End handle_theorems.

(** Install/resolve round trip. A successful [install_memory] returns a
    handle that resolves, while the object keeps its generation, to exactly
    the installed authority; it uses up exactly one free slot; every handle
    that resolved before still resolves to the same capability. *)
Theorem cap_table_install_roundtrip t o g off len p a d h t' cur :
  install_memory t o g off len p a d = Some (h, t') →
  cur o = Some g →
  resolve t' h cur = Some (ResolvedMemory o g off len p a d) ∧
  free_count t' = free_count t - 1 ∧
  (∀ h0 r, resolve t h0 cur = Some r → resolve t' h0 cur = Some r).
Proof.
  intros H Hcur. split; [by eapply install_memory_resolve|].
  unfold install_memory in H.
  destruct (install_loop _ _ _) as [[h' sl]|] eqn:El; simpl in H; guards.
  destruct (install_loop_spec _ _ _ _ _ El) as (k & s & Hk & Ha & _ & -> & _).
  unfold slot_allocatable in Ha. bools. split.
  - unfold free_count; simpl. rewrite (count_slots_insert _ _ _ _ _ Hk).
    rewrite H. simpl. lia.
  - intros h0 r Hr. apply (resolve_ext _ _ _ _ _ Hr). unfold get_slot; simpl.
    intros s0 Hs0 Hf. by apply (install_loop_frame _ _ _ _ _ _ _ El).
Qed.

Lemma cap_table_install_roundtrip_witness :
  ∃ h t', install_memory table_new 1 0 0 4096 Perm.READ 7 None = Some (h, t') ∧
    resolve t' h (λ _, Some 0) = Some (ResolvedMemory 1 0 0 4096 Perm.READ 7 None).
Proof.
  eexists _, _. split; [reflexivity|].
  exact (proj1 (cap_table_install_roundtrip table_new 1 0 0 4096 Perm.READ 7 None _ _
    (λ _, Some 0) eq_refl eq_refl)).
Defined.

(** Installation fails exactly when no slot is allocatable, for memory and
    device authority alike: [allocatable_count] is the preflight the kernel
    may trust. *)
Theorem cap_table_install_full t o g off len p r a d :
  (install_memory t o g off len p a d = None ↔ allocatable_count t = 0) ∧
  (install_device t o g r a d = None ↔ allocatable_count t = 0).
Proof.
  unfold install_memory, install_device, allocatable_count. split.
  - rewrite <- (install_loop_none 0 _ (SlotMemory o g off len p a d)).
    destruct (install_loop 0 _ _) as [[??]|]; naive_solver.
  - rewrite <- (install_loop_none 0 _ (SlotDevice o g r a d)).
    destruct (install_loop 0 _ _) as [[??]|]; naive_solver.
Qed.

(** Drop is permanent. Once [drop_handle] has accepted a handle, no later
    sequence of installs and drops makes that handle resolve or drop again,
    and no later install hands it out a second time. *)
Theorem cap_table_drop_permanent t h a t' t'' cur :
  drop_handle t h = Some (a, t') → rtc table_step t' t'' →
  resolve t'' h cur = None ∧ drop_handle t'' h = None ∧
  (∀ o g off len p b d t3, install_memory t'' o g off len p b d ≠ Some (h, t3)).
Proof.
  intros Hd Hr. pose proof (slot_past_reach _ _ _ _ (drop_handle_past _ _ _ _ Hd) Hr) as Hp.
  split_and!.
  - by apply slot_past_resolve.
  - unfold drop_handle, get_slot. destruct (ct_slots t'' !! _) as [s|] eqn:Es; simpl; [|done].
    specialize (Hp _ Es). destruct (Z.eqb_spec (slot_handle_generation s) (ch_generation h)); [lia|done].
  - intros o g off len p b d t3 Hi. unfold install_memory in Hi.
    destruct (install_loop _ _ _) as [[h' sl]|] eqn:El; simpl in Hi; guards.
    destruct (install_loop_spec _ _ _ _ _ El) as (k & s & Hk & _ & -> & _ & _).
    cbn [ch_slot ch_generation] in Hp. rewrite Z.add_0_l, Nat2Z.id in Hp.
    specialize (Hp _ Hk). lia.
Qed.

Lemma cap_table_drop_permanent_witness :
  ∃ t1 t2, drop_handle t1 (mkCapHandle 0 0) = Some (7, t2) ∧
    resolve t2 (mkCapHandle 0 0) (λ _, Some 0) = None.
Proof.
  eexists (mkTable (<[0%nat := mkSlot 0 (SlotMemory 1 0 0 4096 Perm.READ 7 None)]>
    (ct_slots table_new))), _.
  split; [reflexivity|].
  refine (proj1 (cap_table_drop_permanent (mkTable (<[0%nat :=
    mkSlot 0 (SlotMemory 1 0 0 4096 Perm.READ 7 None)]> (ct_slots table_new)))
    (mkCapHandle 0 0) 7 _ _ (λ _, Some 0) _ _)); [reflexivity|apply rtc_refl].
Defined.

(** In every table reachable from [CapabilityTable::new] the slot count is
    conserved, occupied slots can always advance their generation, and so a
    handle that resolves can be dropped: [preflight_drop] and [drop_handle]
    agree on it and name the same authority. *)
Theorem cap_table_reachable_drop t h cur r :
  rtc table_step table_new t → resolve t h cur = Some r →
  length (ct_slots t) = Z.to_nat CAP_TABLE_SIZE ∧
  occupied_count t = count_slots (negb ∘ slot_is_free) (ct_slots t) ∧
  preflight_drop t h = Some (resolved_authority_id r) ∧
  ∃ t', drop_handle t h = Some (resolved_authority_id r, t').
Proof.
  intros Hreach Hres. pose proof (table_reach_wf _ _ table_new_wf Hreach) as [Hlen Hall].
  split; [done|]. split.
  - unfold occupied_count, free_count.
    assert (∀ l, count_slots slot_is_free l + count_slots (negb ∘ slot_is_free) l
      = Z.of_nat (length l)) as Hc.
    { unfold count_slots. induction l as [|s l IH]; [done|]. rewrite !filter_cons.
      case_decide as H1; case_decide as H2; unfold compose in *; simpl in *;
        destruct (slot_is_free s); simpl in *; try done; lia. }
    specialize (Hc (ct_slots t)). rewrite Hlen in Hc. change CAP_TABLE_SIZE with 16 in *. lia.
  - apply resolve_Some_slot in Hres as (s & Hs & Hg & Hr & _).
    destruct (proj1 (Forall_lookup _ _) Hall _ _ Hs) as [Hu Hn].
    assert (Hf : slot_is_free s = false) by (unfold slot_is_free; by destruct (slot_state s)).
    specialize (Hn Hf).
    assert (Ha : slot_authority_id (slot_state s) = Some (resolved_authority_id r))
      by (destruct (slot_state s); simpl in *; guards; done).
    assert (Hnext : checked_add32 (slot_handle_generation s) 1 = Some (slot_handle_generation s + 1)).
    { unfold checked_add32. destruct (Z.ltb_spec (slot_handle_generation s + 1) U32); [done|u64_lia]. }
    unfold preflight_drop, drop_handle. rewrite Hs. simpl. rewrite Hg, Z.eqb_refl. simpl.
    rewrite Ha, <- Hg, Hnext. simpl. eauto.
Qed.

Lemma cap_table_reachable_drop_witness :
  ∃ t, rtc table_step table_new t ∧
    preflight_drop t (mkCapHandle 0 0) = Some 7.
Proof.
  eexists (mkTable (<[0%nat := mkSlot 0 (SlotMemory 1 0 0 4096 Perm.READ 7 None)]>
    (ct_slots table_new))).
  assert (Hs : rtc table_step table_new (mkTable (<[0%nat :=
    mkSlot 0 (SlotMemory 1 0 0 4096 Perm.READ 7 None)]> (ct_slots table_new)))).
  { apply rtc_once. by apply (step_install_memory _ 1 0 0 4096 Perm.READ 7 None (mkCapHandle 0 0)). }
  split; [exact Hs|].
  exact (proj1 (proj2 (proj2 (cap_table_reachable_drop _ (mkCapHandle 0 0) (λ _, Some 0)
    (ResolvedMemory 1 0 0 4096 Perm.READ 7 None) Hs eq_refl)))).
Defined.
