(* ===== verification/Desc.v ===== *)
(** * The machine description: [src/anka64/desc.rs]

    The instruction table every other consumer of the ISA derives from, and
    its two lookups.  The theorem at the end states what the table promises
    its consumers: opcodes and names identify entries, operands agree with the
    format, and the memory effect agrees with the semantics. *)

From S2P Require Import Prelude.

Inductive Format := FmtR | FmtI | FmtB | FmtS.
#[export] Instance Format_eq_dec : EqDecision Format.
Proof. solve_decision. Defined.

Inductive AluOp :=
| AluAdd | AluSub | AluAnd | AluOr | AluXor | AluShl | AluShr | AluAsr | AluMul.
#[export] Instance AluOp_eq_dec : EqDecision AluOp.
Proof. solve_decision. Defined.

Inductive Sem :=
| PointerMove | PointerAdd | PointerLoad | PointerStore | PointerRead | PointerWrite
| PointerFrame | PointerLocal | PointerUnframe
| Alu (op : AluOp)
| SemCmp | SemMov | SemMovi | SemLoad | SemLoadByte | SemStore | SemStoreByte
| SemXchg | SemLea | SemBranch | SemCall | SemRet | SemTrap | SemEret | SemNop | SemHalt.
#[export] Instance Sem_eq_dec : EqDecision Sem.
Proof. solve_decision. Defined.

Inductive MemEffect := MemNone | MemLoad | MemStore | MemAtomic.
#[export] Instance MemEffect_eq_dec : EqDecision MemEffect.
Proof. solve_decision. Defined.

Inductive FlagEffect := FlagArith | FlagSub | FlagLogic | FlagNone.
#[export] Instance FlagEffect_eq_dec : EqDecision FlagEffect.
Proof. solve_decision. Defined.

Inductive Operands :=
| RdRs1Rs2 | RdRs1 | Rs1Rs2 | RdRs1Imm | Rs1Imm | RdImm | RdBaseDisp | SrcBaseDisp
| CondOff | Off | PointerWidth | ManifestIndex | Imm8 | NoOps.
#[export] Instance Operands_eq_dec : EqDecision Operands.
Proof. solve_decision. Defined.

Record InsnDesc := mkInsn {
  insn_name : string;
  insn_opcode : Z;
  insn_format : Format;
  insn_operands : Operands;
  insn_semantics : Sem;
  insn_mem : MemEffect;
  insn_flags : FlagEffect;
}.
#[export] Instance InsnDesc_eq_dec : EqDecision InsnDesc.
Proof. solve_decision. Defined.


Definition INSNS : list InsnDesc := [
  mkInsn "add" 1 FmtR RdRs1Rs2 (Alu AluAdd) MemNone FlagArith;
  mkInsn "sub" 2 FmtR RdRs1Rs2 (Alu AluSub) MemNone FlagSub;
  mkInsn "and" 3 FmtR RdRs1Rs2 (Alu AluAnd) MemNone FlagLogic;
  mkInsn "or" 4 FmtR RdRs1Rs2 (Alu AluOr) MemNone FlagLogic;
  mkInsn "xor" 5 FmtR RdRs1Rs2 (Alu AluXor) MemNone FlagLogic;
  mkInsn "shl" 6 FmtR RdRs1Rs2 (Alu AluShl) MemNone FlagLogic;
  mkInsn "shr" 7 FmtR RdRs1Rs2 (Alu AluShr) MemNone FlagLogic;
  mkInsn "asr" 8 FmtR RdRs1Rs2 (Alu AluAsr) MemNone FlagLogic;
  mkInsn "mul" 11 FmtR RdRs1Rs2 (Alu AluMul) MemNone FlagLogic;
  mkInsn "cmp" 9 FmtR Rs1Rs2 SemCmp MemNone FlagSub;
  mkInsn "mov" 10 FmtR RdRs1 SemMov MemNone FlagNone;
  mkInsn "addi" 16 FmtI RdRs1Imm (Alu AluAdd) MemNone FlagArith;
  mkInsn "subi" 17 FmtI RdRs1Imm (Alu AluSub) MemNone FlagSub;
  mkInsn "andi" 18 FmtI RdRs1Imm (Alu AluAnd) MemNone FlagLogic;
  mkInsn "ori" 19 FmtI RdRs1Imm (Alu AluOr) MemNone FlagLogic;
  mkInsn "xori" 20 FmtI RdRs1Imm (Alu AluXor) MemNone FlagLogic;
  mkInsn "cmpi" 21 FmtI Rs1Imm SemCmp MemNone FlagSub;
  mkInsn "movi" 22 FmtI RdImm SemMovi MemNone FlagNone;
  mkInsn "ld" 32 FmtI RdBaseDisp SemLoad MemLoad FlagNone;
  mkInsn "st" 33 FmtI SrcBaseDisp SemStore MemStore FlagNone;
  mkInsn "lea" 34 FmtI RdBaseDisp SemLea MemNone FlagNone;
  mkInsn "xchg" 35 FmtI RdBaseDisp SemXchg MemAtomic FlagNone;
  mkInsn "ldb" 36 FmtI RdBaseDisp SemLoadByte MemLoad FlagNone;
  mkInsn "stb" 37 FmtI SrcBaseDisp SemStoreByte MemStore FlagNone;
  mkInsn "pmov" 38 FmtR RdRs1 PointerMove MemNone FlagNone;
  mkInsn "padd" 39 FmtR RdRs1Rs2 PointerAdd MemNone FlagNone;
  mkInsn "pload" 40 FmtI RdBaseDisp PointerLoad MemLoad FlagNone;
  mkInsn "pstore" 41 FmtI SrcBaseDisp PointerStore MemStore FlagNone;
  mkInsn "pread" 42 FmtR PointerWidth PointerRead MemLoad FlagNone;
  mkInsn "pwrite" 43 FmtR PointerWidth PointerWrite MemStore FlagNone;
  mkInsn "pframe" 44 FmtS ManifestIndex PointerFrame MemNone FlagNone;
  mkInsn "plocal" 45 FmtI RdImm PointerLocal MemNone FlagNone;
  mkInsn "punframe" 46 FmtS NoOps PointerUnframe MemNone FlagNone;
  mkInsn "b" 48 FmtB CondOff SemBranch MemNone FlagNone;
  mkInsn "call" 50 FmtB Off SemCall MemNone FlagNone;
  mkInsn "ret" 56 FmtS NoOps SemRet MemNone FlagNone;
  mkInsn "trap" 57 FmtS Imm8 SemTrap MemNone FlagNone;
  mkInsn "eret" 58 FmtS NoOps SemEret MemNone FlagNone;
  mkInsn "nop" 63 FmtS NoOps SemNop MemNone FlagNone;
  mkInsn "halt" 62 FmtS NoOps SemHalt MemNone FlagNone
].

Definition by_opcode (opcode : Z) : option InsnDesc :=
  List.find (λ d, insn_opcode d =? opcode) INSNS.

Definition by_name (name : string) : option InsnDesc :=
  List.find (λ d, bool_decide (insn_name d = name)) INSNS.

(** ** What the table promises *)

Definition operands_match (f : Format) (o : Operands) : bool :=
  match f, o with
  | FmtR, (RdRs1Rs2 | RdRs1 | Rs1Rs2 | PointerWidth) => true
  | FmtI, (RdRs1Imm | Rs1Imm | RdImm | RdBaseDisp | SrcBaseDisp) => true
  | FmtB, (CondOff | Off) => true
  | FmtS, (NoOps | Imm8 | ManifestIndex) => true
  | _, _ => false
  end.

Definition sem_mem_effect (s : Sem) : MemEffect :=
  match s with
  | SemLoad | SemLoadByte | PointerLoad | PointerRead => MemLoad
  | SemStore | SemStoreByte | PointerStore | PointerWrite => MemStore
  | SemXchg => MemAtomic
  | _ => MemNone
  end.

Definition entry_ok (d : InsnDesc) : bool :=
  bool_decide (by_opcode (insn_opcode d) = Some d)
  && bool_decide (by_name (insn_name d) = Some d)
  && (0 <=? insn_opcode d) && (insn_opcode d <? 64)
  && operands_match (insn_format d) (insn_operands d)
  && bool_decide (insn_mem d = sem_mem_effect (insn_semantics d)).

Lemma table_ok : forallb entry_ok INSNS = true.
Proof. vm_compute. reflexivity. Qed.

Lemma entry_in_ok d : d ∈ INSNS → entry_ok d = true.
Proof.
  intros Hd. apply (proj1 (forallb_forall _ _) table_ok). by apply list_elem_of_In.
Qed.

Lemma by_opcode_Some op d : by_opcode op = Some d → d ∈ INSNS ∧ insn_opcode d = op.
Proof.
  intros H. apply find_some in H as [Hin Heq]. bools. split; [by apply list_elem_of_In|done].
Qed.

Lemma by_name_Some n d : by_name n = Some d → d ∈ INSNS ∧ insn_name d = n.
Proof.
  intros H. apply find_some in H as [Hin Heq]. bools. split; [by apply list_elem_of_In|done].
Qed.

Lemma by_opcode_entry d : d ∈ INSNS → by_opcode (insn_opcode d) = Some d.
Proof. intros H. apply entry_in_ok in H. unfold entry_ok in H. bools. done. Qed.

Lemma entry_opcode_range d : d ∈ INSNS → 0 ≤ insn_opcode d < 64.
Proof. intros H. apply entry_in_ok in H. unfold entry_ok in H. bools. lia. Qed.

(** The instruction table is a function of the opcode and of the mnemonic:
    both lookups return the entry itself for every entry, opcodes fit the
    6-bit field, operand patterns agree with the format, and an instruction
    declares a load, store or atomic effect exactly when its semantics is one. *)
Theorem desc_table_consistent d :
  d ∈ INSNS →
  by_opcode (insn_opcode d) = Some d ∧ by_name (insn_name d) = Some d ∧
  0 ≤ insn_opcode d < 64 ∧
  operands_match (insn_format d) (insn_operands d) = true ∧
  insn_mem d = sem_mem_effect (insn_semantics d).
Proof. intros H. apply entry_in_ok in H. unfold entry_ok in H. bools. split_and!; done || lia. Qed.

Lemma desc_table_consistent_witness :
  by_opcode 1 = Some (mkInsn "add" 1 FmtR RdRs1Rs2 (Alu AluAdd) MemNone FlagArith).
Proof.
  refine (proj1 (desc_table_consistent
    (mkInsn "add" 1 FmtR RdRs1Rs2 (Alu AluAdd) MemNone FlagArith) _)).
  apply list_elem_of_In. left. reflexivity.
Defined.
