(* ===== verification/Isa.v ===== *)
(** * Encoder, decoder and assembler: [src/anka64/isa.rs]

    Instruction words are 32-bit.  Register numbers and opcodes are [u8],
    immediates [i32], and a decoded immediate is an [i64]; every cast of the
    source is written out. *)

From S2P Require Import Prelude Desc.

(** ** Registers and immediates *)
Definition FP : Z := 13.
Definition LR : Z := 14.
Definition SP : Z := 15.

Definition IMM18_MIN : Z := - 2 ^ 17.
Definition IMM18_MAX : Z := 2 ^ 17 - 1.
Definition fits_imm18 (v : Z) : bool := (IMM18_MIN <=? v) && (v <=? IMM18_MAX).

(** ** Branch conditions *)
Inductive Cond :=
| CondEq | CondNe | CondLt | CondGe | CondLe | CondGt
| CondUlt | CondUge | CondUle | CondUgt | CondAl.
#[export] Instance Cond_eq_dec : EqDecision Cond.
Proof. solve_decision. Defined.

(** [cond as u8] *)
Definition cond_code (c : Cond) : Z :=
  match c with
  | CondEq => 0 | CondNe => 1 | CondLt => 2 | CondGe => 3 | CondLe => 4 | CondGt => 5
  | CondUlt => 6 | CondUge => 7 | CondUle => 8 | CondUgt => 9 | CondAl => 15
  end.

(** [Cond::from_u8] *)
Definition cond_from_u8 (v : Z) : Cond :=
  match v with
  | 0 => CondEq | 1 => CondNe | 2 => CondLt | 3 => CondGe | 4 => CondLe | 5 => CondGt
  | 6 => CondUlt | 7 => CondUge | 8 => CondUle | 9 => CondUgt | 15 => CondAl
  | _ => CondAl
  end.

(** ** Encoding helpers *)

(** [x as u32] and [x as i32] *)
Definition as_u32 (x : Z) : Z := wrap32 x.
Definition as_i32 (x : Z) : Z := if x <? 2 ^ 31 then x else x - U32.

(** [x << n] on [u32] *)
Definition shl32 (x n : Z) : Z := wrap32 (Z.shiftl x n).

Definition encode_r (opcode rd rs1 rs2 : Z) : Z :=
  Z.lor (Z.lor (Z.lor (shl32 opcode 26)
    (shl32 (Z.land rd 15) 22)) (shl32 (Z.land rs1 15) 18)) (shl32 (Z.land rs2 15) 14).

Definition encode_i (opcode rd rs1 imm : Z) : Z :=
  Z.lor (Z.lor (Z.lor (shl32 opcode 26)
    (shl32 (Z.land rd 15) 22)) (shl32 (Z.land rs1 15) 18)) (Z.land (as_u32 imm) 262143).

Definition encode_b (opcode cond offset : Z) : Z :=
  Z.lor (Z.lor (shl32 opcode 26) (shl32 (Z.land cond 15) 22))
    (Z.land (as_u32 offset) 4194303).

Definition encode_s (opcode imm : Z) : Z :=
  Z.lor (shl32 opcode 26) (Z.land imm 67108863).

(** [(((val << shift) as i32) >> shift) as i64] *)
Definition sign_extend (val bits : Z) : Z :=
  let shift := 32 - bits in
  Z.shiftr (as_i32 (shl32 val shift)) shift.

(** ** Decoder *)
Record DecodedInsn := mkDecoded {
  d_desc : InsnDesc;
  d_rd : Z;
  d_rs1 : Z;
  d_rs2 : Z;
  d_imm : Z;
  d_cond : Cond;
  d_raw : Z;
}.

Definition ILLEGAL_DESC : InsnDesc := mkInsn "???" 255 FmtS NoOps SemHalt MemNone FlagNone.

Definition decode (word : Z) : DecodedInsn :=
  let opcode := Z.land (Z.shiftr word 26) 63 in
  let rd := Z.land (Z.shiftr word 22) 15 in
  let rs1 := Z.land (Z.shiftr word 18) 15 in
  let rs2 := Z.land (Z.shiftr word 14) 15 in
  let imm18 := sign_extend (Z.land word 262143) 18 in
  let off22 := sign_extend (Z.land word 4194303) 22 in
  let imm26 := Z.land word 67108863 in
  match by_opcode opcode with
  | Some d =>
      let '(imm, cond) :=
        match insn_format d with
        | FmtR => (0, CondAl)
        | FmtI => (imm18, CondAl)
        | FmtB => (off22, cond_from_u8 rd)
        | FmtS => (imm26, CondAl)
        end in
      mkDecoded d rd rs1 rs2 imm cond word
  | None => mkDecoded ILLEGAL_DESC 0 0 0 0 CondAl word
  end.

Definition is_pair (v : Z) : bool := (v <=? 10) && (v mod 2 =? 0).

Definition is_illegal (i : DecodedInsn) : bool :=
  if insn_opcode (d_desc i) =? 255 then true
  else
    let func := Z.land (d_raw i) 16383 in
    match insn_semantics (d_desc i) with
    | PointerMove =>
        negb (is_pair (d_rd i)) || negb (is_pair (d_rs1 i))
        || negb (d_rs2 i =? 0) || negb (func =? 0)
    | PointerAdd =>
        negb (is_pair (d_rd i)) || negb (is_pair (d_rs1 i))
        || (12 <? d_rs2 i) || negb (func =? 0)
    | PointerLoad | PointerStore => negb (is_pair (d_rd i)) || negb (is_pair (d_rs1 i))
    | PointerRead | PointerWrite =>
        (12 <? d_rd i) || negb (is_pair (d_rs1 i)) || negb (d_rs2 i =? 0) || (3 <? func)
    | PointerLocal => negb (is_pair (d_rd i)) || negb (d_rs1 i =? 0) || (d_imm i <? 0)
    | PointerUnframe => negb (Z.land (d_raw i) 67108863 =? 0)
    | _ => false
    end.

(** ** Assembler *)
Record Asm64 := mkAsm { asm_words : list Z }.

Definition asm_new : Asm64 := mkAsm [].

(** [words.len() as i32] *)
Definition here (a : Asm64) : Z := as_i32 (wrap32 (Z.of_nat (length (asm_words a)))).

Definition push_word (a : Asm64) (w : Z) : Asm64 := mkAsm (asm_words a ++ [w]).

Section emitters.
Context `{Profile}.

Definition emit_r_named (a : Asm64) (name : string) (rd rs1 rs2 : Z) : outcome Asm64 :=
  d ← unwrap (by_name name);
  _ ← debug_assert (bool_decide (insn_format d = FmtR));
  mret (push_word a (encode_r (insn_opcode d) rd rs1 rs2)).

Definition emit_i_named (a : Asm64) (name : string) (rd rs1 imm : Z) : outcome Asm64 :=
  _ ← assert_ (fits_imm18 imm);
  d ← unwrap (by_name name);
  _ ← debug_assert (bool_decide (insn_format d = FmtI));
  mret (push_word a (encode_i (insn_opcode d) rd rs1 imm)).

Definition emit_b_named (a : Asm64) (name : string) (cond offset : Z) : outcome Asm64 :=
  d ← unwrap (by_name name);
  _ ← debug_assert (bool_decide (insn_format d = FmtB));
  mret (push_word a (encode_b (insn_opcode d) cond offset)).

Definition emit_s_named (a : Asm64) (name : string) (imm : Z) : outcome Asm64 :=
  d ← unwrap (by_name name);
  _ ← debug_assert (bool_decide (insn_format d = FmtS));
  mret (push_word a (encode_s (insn_opcode d) imm)).

Definition asm_add a rd x y := emit_r_named a "add" rd x y.
Definition asm_sub a rd x y := emit_r_named a "sub" rd x y.
Definition asm_and a rd x y := emit_r_named a "and" rd x y.
Definition asm_or a rd x y := emit_r_named a "or" rd x y.
Definition asm_xor a rd x y := emit_r_named a "xor" rd x y.
Definition asm_shl a rd x y := emit_r_named a "shl" rd x y.
Definition asm_shr a rd x y := emit_r_named a "shr" rd x y.
Definition asm_asr a rd x y := emit_r_named a "asr" rd x y.
Definition asm_cmp a x y := emit_r_named a "cmp" 0 x y.
Definition asm_mov a rd rs := emit_r_named a "mov" rd rs 0.
Definition asm_mul a rd x y := emit_r_named a "mul" rd x y.

Definition asm_addi a rd x i := emit_i_named a "addi" rd x i.
Definition asm_subi a rd x i := emit_i_named a "subi" rd x i.
Definition asm_cmpi a x i := emit_i_named a "cmpi" 0 x i.
Definition asm_movi a rd i := emit_i_named a "movi" rd 0 i.

Definition asm_ld a rd base disp := emit_i_named a "ld" rd base disp.
Definition asm_ldb a rd base disp := emit_i_named a "ldb" rd base disp.
Definition asm_stb a src base disp := emit_i_named a "stb" src base disp.
Definition asm_st a src base disp := emit_i_named a "st" src base disp.
Definition asm_lea a rd base disp := emit_i_named a "lea" rd base disp.
Definition asm_xchg a rd base disp := emit_i_named a "xchg" rd base disp.

Definition asm_bcc a (cond : Cond) word_off := emit_b_named a "b" (cond_code cond) word_off.
Definition asm_call a word_off := emit_b_named a "call" 0 word_off.
Definition asm_ret a := emit_s_named a "ret" 0.
Definition asm_trap a v := emit_s_named a "trap" v.
Definition asm_eret a := emit_s_named a "eret" 0.
Definition asm_nop a := emit_s_named a "nop" 0.
Definition asm_halt a := emit_s_named a "halt" 0.

Definition emit_pointer_word (a : Asm64) (word : Z) : outcome Asm64 :=
  _ ← assert_ (negb (is_illegal (decode word)));
  mret (push_word a word).

Definition assert_pair (r : Z) : outcome unit := assert_ (is_pair r).

Definition asm_pmov a d s : outcome Asm64 :=
  _ ← assert_pair d; _ ← assert_pair s;
  emit_pointer_word a (encode_r 38 d s 0).
Definition asm_padd a d s t : outcome Asm64 :=
  _ ← assert_pair d; _ ← assert_pair s; _ ← assert_ (t <=? 12);
  emit_pointer_word a (encode_r 39 d s t).
Definition asm_pload a d s disp : outcome Asm64 :=
  _ ← assert_pair d; _ ← assert_pair s; _ ← assert_ (fits_imm18 disp);
  emit_pointer_word a (encode_i 40 d s disp).
Definition asm_pstore a d s disp : outcome Asm64 :=
  _ ← assert_pair d; _ ← assert_pair s; _ ← assert_ (fits_imm18 disp);
  emit_pointer_word a (encode_i 41 d s disp).

(** [width.trailing_zeros()] for the admitted widths. *)
Definition width_log2 (width : Z) : option Z :=
  match width with 1 => Some 0 | 2 => Some 1 | 4 => Some 2 | 8 => Some 3 | _ => None end.

Definition pointer_width (a : Asm64) (op d s width : Z) : outcome Asm64 :=
  _ ← assert_ (d <=? 12); _ ← assert_pair s;
  tz ← unwrap (width_log2 width);
  emit_pointer_word a (Z.lor (encode_r op d s 0) tz).
Definition asm_pread a d s width := pointer_width a 42 d s width.
Definition asm_pwrite a d s width := pointer_width a 43 d s width.
Definition asm_pframe a index : outcome Asm64 :=
  _ ← assert_ (index <? 2 ^ 26); emit_pointer_word a (encode_s 44 index).
Definition asm_plocal a d index : outcome Asm64 :=
  _ ← assert_pair d; _ ← assert_ (index <? 2 ^ 17);
  emit_pointer_word a (encode_i 45 d 0 index).
Definition asm_punframe a := emit_pointer_word a (encode_s 46 0).
End emitters.

(** [to_bytes]: the little-endian byte stream. *)
Definition to_bytes (a : Asm64) : list Z := asm_words a ≫= le_bytes 4.

(** ** Bit-field lemmas *)

Definition is_reg (r : Z) : Prop := 0 ≤ r < 16.

Ltac norm_bits :=
  change 15 with (Z.ones 4) in *; change 63 with (Z.ones 6) in *;
  change 262143 with (Z.ones 18) in *; change 4194303 with (Z.ones 22) in *;
  change 67108863 with (Z.ones 26) in *; change 16383 with (Z.ones 14) in *;
  rewrite ?land_low_mod, ?Z.shiftr_div_pow2, ?Z.shiftl_mul_pow2 by lia.

Ltac pow_consts :=
  change (2 ^ 4) with 16 in *; change (2 ^ 6) with 64 in *;
  change (2 ^ 14) with 16384 in *; change (2 ^ 17) with 131072 in *;
  change (2 ^ 18) with 262144 in *; change (2 ^ 21) with 2097152 in *;
  change (2 ^ 22) with 4194304 in *; change (2 ^ 26) with 67108864 in *;
  change (2 ^ 10) with 1024 in *; change (2 ^ 31) with 2147483648 in *;
  change U32 with 4294967296 in *.

Ltac fields := norm_bits; pow_consts; Z.div_mod_to_equations; lia.

Lemma shl32_small x n m :
  0 ≤ n → 0 ≤ x < 2 ^ m → n + m ≤ 32 → 0 ≤ m → shl32 x n = x * 2 ^ n.
Proof.
  intros. unfold shl32, wrap32. rewrite Z.shiftl_mul_pow2 by lia. apply Z.mod_small.
  assert (0 < 2 ^ n) by (apply Z.pow_pos_nonneg; lia).
  assert (2 ^ n * 2 ^ m ≤ U32).
  { rewrite <- Z.pow_add_r by lia. apply Z.pow_le_mono_r; lia. }
  nia.
Qed.

Lemma reg_field r n : 0 ≤ n → n + 4 ≤ 32 → is_reg r → shl32 (Z.land r 15) n = r * 2 ^ n.
Proof.
  intros. change 15 with (Z.ones 4). rewrite land_low_mod by lia.
  rewrite (shl32_small _ _ 4) by (try apply Z.mod_pos_bound; lia).
  rewrite Z.mod_small; [done|]. unfold is_reg in *. change (2 ^ 4) with 16. lia.
Qed.

(** The word as a sum of its fields. *)
Lemma head_word op rd rs1 low :
  0 ≤ op < 64 → is_reg rd → is_reg rs1 → 0 ≤ low < 262144 →
  Z.lor (Z.lor (Z.lor (shl32 op 26) (shl32 (Z.land rd 15) 22))
    (shl32 (Z.land rs1 15) 18)) low
  = op * 67108864 + rd * 4194304 + rs1 * 262144 + low.
Proof.
  intros Hop Hrd Hrs Hlow. rewrite !reg_field by (done || lia).
  rewrite (shl32_small _ _ 6) by lia. unfold is_reg in *. pow_consts.
  rewrite (lor_add_disjoint (op * _) _ 26); [|lia|pow_consts; Z.div_mod_to_equations; lia|pow_consts; lia].
  rewrite (lor_add_disjoint (op * _ + _) _ 22); [|lia|pow_consts; Z.div_mod_to_equations; lia|pow_consts; lia].
  rewrite (lor_add_disjoint _ low 18); [|lia|pow_consts; Z.div_mod_to_equations; lia|pow_consts; lia].
  done.
Qed.

Lemma encode_r_sum op rd rs1 rs2 :
  0 ≤ op < 64 → is_reg rd → is_reg rs1 → is_reg rs2 →
  encode_r op rd rs1 rs2 = op * 67108864 + rd * 4194304 + rs1 * 262144 + rs2 * 16384.
Proof.
  intros. unfold encode_r. rewrite (reg_field rs2) by (done || lia).
  unfold is_reg in *. change (2 ^ 14) with 16384. apply head_word; done || lia.
Qed.

Lemma encode_i_sum op rd rs1 imm :
  0 ≤ op < 64 → is_reg rd → is_reg rs1 →
  encode_i op rd rs1 imm = op * 67108864 + rd * 4194304 + rs1 * 262144 + imm mod 262144.
Proof.
  intros. unfold encode_i. change 262143 with (Z.ones 18). rewrite land_low_mod by lia.
  change (2 ^ 18) with 262144.
  assert (as_u32 imm mod 262144 = imm mod 262144) as ->.
  { unfold as_u32, wrap32. pow_consts. Z.div_mod_to_equations. lia. }
  apply head_word; try done. apply Z.mod_pos_bound. lia.
Qed.

Lemma encode_b_sum op cond off :
  0 ≤ op < 64 → is_reg cond →
  encode_b op cond off = op * 67108864 + cond * 4194304 + off mod 4194304.
Proof.
  intros. unfold encode_b. change 4194303 with (Z.ones 22). rewrite land_low_mod by lia.
  change (2 ^ 22) with 4194304.
  assert (as_u32 off mod 4194304 = off mod 4194304) as ->.
  { unfold as_u32, wrap32. pow_consts. Z.div_mod_to_equations. lia. }
  rewrite reg_field by (done || lia). rewrite (shl32_small _ _ 6) by lia.
  unfold is_reg in *. pow_consts. pose proof (Z.mod_pos_bound off 4194304).
  rewrite (lor_add_disjoint (op * _) _ 26); [|lia|pow_consts; Z.div_mod_to_equations; lia|pow_consts; lia].
  rewrite (lor_add_disjoint (op * _ + _) _ 22); [|lia|pow_consts; Z.div_mod_to_equations; lia|pow_consts; lia].
  done.
Qed.

Lemma encode_s_sum op imm :
  0 ≤ op < 64 → 0 ≤ imm < 67108864 → encode_s op imm = op * 67108864 + imm.
Proof.
  intros. unfold encode_s. change 67108863 with (Z.ones 26). rewrite land_low_mod by lia.
  rewrite (shl32_small _ _ 6) by lia. pow_consts. rewrite Z.mod_small by lia.
  rewrite (lor_add_disjoint _ _ 26); [done|lia|pow_consts; Z.div_mod_to_equations; lia|pow_consts; lia].
Qed.

(** Sign extension recovers a signed value from its low bits. *)
Lemma sign_extend_signed v bits :
  0 < bits < 32 → - 2 ^ (bits - 1) ≤ v < 2 ^ (bits - 1) →
  sign_extend (v mod 2 ^ bits) bits = v.
Proof.
  intros Hb Hv. unfold sign_extend, shl32, wrap32.
  assert (Hp : 2 ^ bits = 2 * 2 ^ (bits - 1)) by (rewrite <- Z.pow_succ_r by lia; f_equal; lia).
  assert (Hq : 0 < 2 ^ (bits - 1)) by (apply Z.pow_pos_nonneg; lia).
  assert (Hs : 0 < 2 ^ (32 - bits)) by (apply Z.pow_pos_nonneg; lia).
  assert (Hu : U32 = 2 ^ bits * 2 ^ (32 - bits)) by (rewrite <- Z.pow_add_r by lia; unfold U32; f_equal; lia).
  assert (Hh : 2 ^ 31 = 2 ^ (bits - 1) * 2 ^ (32 - bits)) by (rewrite <- Z.pow_add_r by lia; f_equal; lia).
  pose proof (Z.mod_pos_bound v (2 ^ bits)).
  rewrite Z.shiftl_mul_pow2, Z.shiftr_div_pow2 by lia.
  rewrite Z.mod_small by (rewrite Hu; nia).
  unfold as_i32. rewrite Hh.
  destruct (Z.ltb_spec v 0).
  - assert (v mod 2 ^ bits = v + 2 ^ bits) as ->
      by (symmetry; apply Z.mod_unique with (-1); lia).
    destruct (Z.ltb_spec ((v + 2 ^ bits) * 2 ^ (32 - bits)) (2 ^ (bits - 1) * 2 ^ (32 - bits))); [nia|].
    rewrite Hu. replace ((v + 2 ^ bits) * 2 ^ (32 - bits) - 2 ^ bits * 2 ^ (32 - bits))
      with (v * 2 ^ (32 - bits)) by ring. apply Z.div_mul. lia.
  - rewrite Z.mod_small by lia.
    destruct (Z.ltb_spec (v * 2 ^ (32 - bits)) (2 ^ (bits - 1) * 2 ^ (32 - bits))); [|nia].
    apply Z.div_mul. lia.
Qed.

(** ** Reading the fields of a word back *)

(** A word that is a sum of an opcode and a 26-bit payload. *)
Lemma word_opcode op x :
  0 ≤ op < 64 → 0 ≤ x < 67108864 →
  Z.land (Z.shiftr (op * 67108864 + x) 26) 63 = op.
Proof. intros. fields. Qed.

Lemma word_payload op x :
  0 ≤ op < 64 → 0 ≤ x < 67108864 → Z.land (op * 67108864 + x) 67108863 = x.
Proof. intros. fields. Qed.

Lemma decode_known d x :
  d ∈ INSNS → 0 ≤ x < 67108864 →
  decode (insn_opcode d * 67108864 + x) =
    let rd := Z.land (Z.shiftr x 22) 15 in
    mkDecoded d rd (Z.land (Z.shiftr x 18) 15) (Z.land (Z.shiftr x 14) 15)
      match insn_format d with
      | FmtR => 0
      | FmtI => sign_extend (x mod 2 ^ 18) 18
      | FmtB => sign_extend (x mod 2 ^ 22) 22
      | FmtS => x
      end
      match insn_format d with FmtB => cond_from_u8 rd | _ => CondAl end
      (insn_opcode d * 67108864 + x).
Proof.
  intros Hd Hx. pose proof (entry_opcode_range d Hd) as Hop.
  unfold decode. rewrite word_opcode, word_payload by lia.
  rewrite (by_opcode_entry d Hd).
  assert (Z.land (Z.shiftr (insn_opcode d * 67108864 + x) 22) 15 = Z.land (Z.shiftr x 22) 15)
    as -> by fields.
  assert (Z.land (Z.shiftr (insn_opcode d * 67108864 + x) 18) 15 = Z.land (Z.shiftr x 18) 15)
    as -> by fields.
  assert (Z.land (Z.shiftr (insn_opcode d * 67108864 + x) 14) 15 = Z.land (Z.shiftr x 14) 15)
    as -> by fields.
  assert (Z.land (insn_opcode d * 67108864 + x) 262143 = x mod 2 ^ 18) as -> by fields.
  assert (Z.land (insn_opcode d * 67108864 + x) 4194303 = x mod 2 ^ 22) as -> by fields.
  by destruct (insn_format d).
Qed.

Lemma payload_rd rd x : is_reg rd → 0 ≤ x < 4194304 →
  Z.land (Z.shiftr (rd * 4194304 + x) 22) 15 = rd.
Proof. unfold is_reg. intros. fields. Qed.

Lemma payload_rs1 rd rs1 x : is_reg rd → is_reg rs1 → 0 ≤ x < 262144 →
  Z.land (Z.shiftr (rd * 4194304 + (rs1 * 262144 + x)) 18) 15 = rs1.
Proof. unfold is_reg. intros. fields. Qed.

Lemma payload_rs2 rd rs1 rs2 : is_reg rd → is_reg rs1 → is_reg rs2 →
  Z.land (Z.shiftr (rd * 4194304 + (rs1 * 262144 + rs2 * 16384)) 14) 15 = rs2.
Proof. unfold is_reg. intros. fields. Qed.

Lemma payload_low18 rd rs1 x : is_reg rd → is_reg rs1 → 0 ≤ x < 262144 →
  (rd * 4194304 + (rs1 * 262144 + x)) mod 2 ^ 18 = x.
Proof. unfold is_reg. intros. fields. Qed.

Lemma payload_low22 rd x : 0 ≤ x < 4194304 → (rd * 4194304 + x) mod 2 ^ 22 = x.
Proof. intros. fields. Qed.

Lemma decode_encode_r d rd rs1 rs2 :
  d ∈ INSNS → insn_format d = FmtR → is_reg rd → is_reg rs1 → is_reg rs2 →
  let w := encode_r (insn_opcode d) rd rs1 rs2 in
  decode w = mkDecoded d rd rs1 rs2 0 CondAl w.
Proof.
  intros Hd Hf Hrd Hr1 Hr2 w. pose proof (entry_opcode_range d Hd).
  assert (w = insn_opcode d * 67108864 + (rd * 4194304 + (rs1 * 262144 + rs2 * 16384))) as ->.
  { unfold w. rewrite encode_r_sum by done. lia. }
  rewrite decode_known by (try done; unfold is_reg in *; lia). rewrite Hf. cbn zeta.
  rewrite payload_rd, payload_rs1, payload_rs2 by (try done; unfold is_reg in *; lia). done.
Qed.

Lemma fits_imm18_range imm : fits_imm18 imm = true → - 2 ^ (18 - 1) ≤ imm < 2 ^ (18 - 1).
Proof.
  unfold fits_imm18, IMM18_MIN, IMM18_MAX. intros. bools. change (18 - 1) with 17. lia.
Qed.

Lemma decode_encode_i d rd rs1 imm :
  d ∈ INSNS → insn_format d = FmtI → is_reg rd → is_reg rs1 → fits_imm18 imm = true →
  let w := encode_i (insn_opcode d) rd rs1 imm in
  d_desc (decode w) = d ∧ d_rd (decode w) = rd ∧ d_rs1 (decode w) = rs1 ∧
  d_imm (decode w) = imm ∧ d_raw (decode w) = w.
Proof.
  intros Hd Hf Hrd Hr1 Himm w. pose proof (entry_opcode_range d Hd).
  pose proof (Z.mod_pos_bound imm 262144).
  assert (w = insn_opcode d * 67108864 + (rd * 4194304 + (rs1 * 262144 + imm mod 262144))) as ->.
  { unfold w. rewrite encode_i_sum by done. lia. }
  rewrite decode_known by (try done; unfold is_reg in *; lia). rewrite Hf. cbn -[Z.add Z.mul].
  rewrite payload_rd, payload_rs1, payload_low18 by (try done; unfold is_reg in *; lia).
  change 262144 with (2 ^ 18).
  by rewrite sign_extend_signed by (lia || by apply fits_imm18_range).
Qed.

(** The value a 22-bit offset field denotes. *)
Definition signed22 (off : Z) : Z := (off + 2 ^ 21) mod 2 ^ 22 - 2 ^ 21.

Lemma signed22_mod off : off mod 4194304 = signed22 off mod 2 ^ 22.
Proof. unfold signed22. pow_consts. Z.div_mod_to_equations. lia. Qed.

Lemma signed22_range off : - 2 ^ (22 - 1) ≤ signed22 off < 2 ^ (22 - 1).
Proof. unfold signed22. change (22 - 1) with 21. pow_consts. Z.div_mod_to_equations. lia. Qed.

Lemma signed22_id off : - 2 ^ 21 ≤ off < 2 ^ 21 → signed22 off = off.
Proof. unfold signed22. pow_consts. intros. Z.div_mod_to_equations. lia. Qed.

Lemma decode_encode_b d cond off :
  d ∈ INSNS → insn_format d = FmtB → is_reg cond →
  let w := encode_b (insn_opcode d) cond off in
  d_desc (decode w) = d ∧ d_cond (decode w) = cond_from_u8 cond ∧
  d_imm (decode w) = signed22 off ∧ d_raw (decode w) = w.
Proof.
  intros Hd Hf Hc w. pose proof (entry_opcode_range d Hd).
  pose proof (Z.mod_pos_bound off 4194304).
  assert (w = insn_opcode d * 67108864 + (cond * 4194304 + off mod 4194304)) as ->.
  { unfold w. rewrite encode_b_sum by done. lia. }
  rewrite decode_known by (try done; unfold is_reg in *; lia). rewrite Hf. cbn -[Z.add Z.mul].
  rewrite payload_rd, payload_low22 by (try done; unfold is_reg in *; lia).
  rewrite signed22_mod, sign_extend_signed by (lia || apply signed22_range). done.
Qed.

Lemma decode_encode_s d imm :
  d ∈ INSNS → insn_format d = FmtS → 0 ≤ imm < 2 ^ 26 →
  let w := encode_s (insn_opcode d) imm in
  d_desc (decode w) = d ∧ d_imm (decode w) = imm ∧ d_raw (decode w) = w.
Proof.
  intros Hd Hf Hi w. pose proof (entry_opcode_range d Hd).
  change (2 ^ 26) with 67108864 in Hi.
  assert (w = insn_opcode d * 67108864 + imm) as -> by (by apply encode_s_sum).
  rewrite decode_known by done. by rewrite Hf.
Qed.

Lemma cond_roundtrip c : is_reg (cond_code c) ∧ cond_from_u8 (cond_code c) = c.
Proof. destruct c; (split; [unfold is_reg; simpl; lia | done]). Qed.

(** C37: Every encoder is inverted by the decoder, for every entry of the
    instruction table and every operand in range: the decoder finds the same
    entry, registers, condition and (signed) immediate. *)
Theorem decode_encode d rd rs1 rs2 imm c :
  d ∈ INSNS → is_reg rd → is_reg rs1 → is_reg rs2 →
  match insn_format d with
  | FmtR => decode (encode_r (insn_opcode d) rd rs1 rs2)
      = mkDecoded d rd rs1 rs2 0 CondAl (encode_r (insn_opcode d) rd rs1 rs2)
  | FmtI => fits_imm18 imm = true →
      let i := decode (encode_i (insn_opcode d) rd rs1 imm) in
      d_desc i = d ∧ d_rd i = rd ∧ d_rs1 i = rs1 ∧ d_imm i = imm
  | FmtB => - 2 ^ 21 ≤ imm < 2 ^ 21 →
      let i := decode (encode_b (insn_opcode d) (cond_code c) imm) in
      d_desc i = d ∧ d_cond i = c ∧ d_imm i = imm
  | FmtS => 0 ≤ imm < 2 ^ 26 →
      let i := decode (encode_s (insn_opcode d) imm) in
      d_desc i = d ∧ d_imm i = imm
  end.
Proof.
  intros Hd Hrd Hr1 Hr2. destruct (insn_format d) eqn:Hf.
  - by apply decode_encode_r.
  - intros Hi. destruct (decode_encode_i d rd rs1 imm) as (?&?&?&?&?); done.
  - intros Hi. destruct (cond_roundtrip c) as [Hc Hcc].
    destruct (decode_encode_b d (cond_code c) imm) as (?&Hcond&Himm&?); try done.
    cbn zeta. by rewrite Hcond, Himm, Hcc, signed22_id.
  - intros Hi. destruct (decode_encode_s d imm) as (?&?&?); done.
Qed.

Lemma decode_encode_witness :
  let d := mkInsn "addi" 16 FmtI RdRs1Imm (Alu AluAdd) MemNone FlagArith in
  d_imm (decode (encode_i 16 3 4 (-5))) = -5.
Proof.
  intros d. refine (proj2 (proj2 (proj2 (decode_encode d 3 4 0 (-5) CondAl _ _ _ _ _)))).
  - apply list_elem_of_In. vm_compute. tauto.
  - unfold is_reg; lia.
  - unfold is_reg; lia.
  - unfold is_reg; lia.
  - reflexivity.
Defined.

(** Decoding loses nothing of a legal word: the decoded fields re-encode to
    the word itself (for the register format, to the word without its 14-bit
    function field, which [raw] keeps). *)
Theorem encode_decode w d :
  is_u32 w → by_opcode (Z.land (Z.shiftr w 26) 63) = Some d →
  let i := decode w in
  match insn_format d with
  | FmtR => encode_r (insn_opcode d) (d_rd i) (d_rs1 i) (d_rs2 i) + w mod 2 ^ 14 = w
  | FmtI => encode_i (insn_opcode d) (d_rd i) (d_rs1 i) (d_imm i) = w ∧ fits_imm18 (d_imm i) = true
  | FmtB => encode_b (insn_opcode d) (d_rd i) (d_imm i) = w ∧ - 2 ^ 21 ≤ d_imm i < 2 ^ 21
  | FmtS => encode_s (insn_opcode d) (d_imm i) = w
  end.
Proof.
  intros Hw Hop. apply by_opcode_Some in Hop as [Hd Hop].
  pose proof (entry_opcode_range d Hd) as Hr. unfold is_u32 in Hw.
  assert (Hsum : w = insn_opcode d * 67108864 + w mod 67108864).
  { rewrite Hop. clear -Hw. fields. }
  pose proof (Z.mod_pos_bound w 67108864 ltac:(lia)) as Hx.
  set (x := w mod 67108864) in *. clearbody x. subst w.
  rewrite decode_known by done. cbn -[Z.add Z.mul encode_r encode_i encode_b encode_s].
  destruct (insn_format d).
  - rewrite encode_r_sum by (unfold is_reg; (lia || fields)). fields.
  - set (v := (x mod 2 ^ 18 + 2 ^ 17) mod 2 ^ 18 - 2 ^ 17).
    assert (Hv : - 2 ^ (18 - 1) ≤ v < 2 ^ (18 - 1)) by (unfold v; change (18 - 1) with 17; fields).
    assert (Hxv : x mod 2 ^ 18 = v mod 2 ^ 18) by (unfold v; fields).
    rewrite Hxv, sign_extend_signed by (lia || done). split.
    + rewrite encode_i_sum by (unfold is_reg; (lia || fields)).
      change 262144 with (2 ^ 18) at 2. rewrite <- Hxv. fields.
    + unfold fits_imm18, IMM18_MIN, IMM18_MAX. change (18 - 1) with 17 in Hv.
      apply andb_true_iff. split; apply Z.leb_le; lia.
  - rewrite encode_b_sum by (unfold is_reg; (lia || fields)).
    assert (Hxv : x mod 2 ^ 22 = signed22 x mod 2 ^ 22) by (rewrite <- signed22_mod; done).
    rewrite Hxv, sign_extend_signed by (lia || apply signed22_range).
    split; [|apply signed22_range]. change 4194304 with (2 ^ 22) at 2. rewrite <- Hxv. fields.
  - apply encode_s_sum; lia.
Qed.

Lemma encode_decode_witness :
  let i := decode 1086324742 in encode_i 16 (d_rd i) (d_rs1 i) (d_imm i) = 1086324742.
Proof.
  refine (proj1 (encode_decode 1086324742
    (mkInsn "addi" 16 FmtI RdRs1Imm (Alu AluAdd) MemNone FlagArith) _ _)).
  - unfold is_u32, U32. lia.
  - reflexivity.
Defined.

(** ** The assembler *)
Section assembler.
Context `{Profile}.

(** The I-format emitter never truncates: on a known I-format mnemonic it
    appends one word whose decoded immediate is exactly the argument, and it
    panics when the argument is not representable in 18 signed bits. *)
Theorem emit_i_exact a name d rd rs1 imm :
  by_name name = Some d → insn_format d = FmtI → is_reg rd → is_reg rs1 →
  (fits_imm18 imm = false ∧ emit_i_named a name rd rs1 imm = Panic) ∨
  (∃ w, emit_i_named a name rd rs1 imm = Done (push_word a w) ∧
     d_desc (decode w) = d ∧ d_rd (decode w) = rd ∧ d_rs1 (decode w) = rs1 ∧
     d_imm (decode w) = imm).
Proof.
  intros Hn Hf Hrd Hr1. unfold emit_i_named. destruct (fits_imm18 imm) eqn:Hi; [right|by left].
  pose proof (by_name_Some _ _ Hn) as [Hd _].
  rewrite Hn. cbn. unfold debug_assert. rewrite bool_decide_eq_true_2 by done.
  rewrite andb_false_r. exists (encode_i (insn_opcode d) rd rs1 imm). split; [done|].
  destruct (decode_encode_i d rd rs1 imm) as (?&?&?&?&?); done.
Qed.

(** The branch emitter reduces its offset to 22 signed bits without a range
    check: an offset in range is kept, any other one silently becomes a
    different branch. *)
Theorem emit_branch_offset a c off :
  ∃ w, asm_bcc a c off = Done (push_word a w) ∧
    d_cond (decode w) = c ∧ d_imm (decode w) = signed22 off ∧
    (d_imm (decode w) = off ↔ - 2 ^ 21 ≤ off < 2 ^ 21).
Proof.
  set (d := mkInsn "b" 48 FmtB CondOff SemBranch MemNone FlagNone).
  exists (encode_b 48 (cond_code c) off). split.
  { unfold asm_bcc, emit_b_named. change (by_name "b") with (Some d). cbn.
    unfold debug_assert. rewrite bool_decide_eq_true_2 by done. by rewrite andb_false_r. }
  destruct (cond_roundtrip c) as [Hc Hcc].
  destruct (decode_encode_b d (cond_code c) off) as (?&Hcond&Himm&?); [|done..|].
  { apply list_elem_of_In. vm_compute. tauto. }
  change (insn_opcode d) with 48 in *. rewrite Hcond, Himm, Hcc. split_and!; [done..|].
  split; [|apply signed22_id]. pose proof (signed22_range off) as Hr.
  change (22 - 1) with 21 in Hr. lia.
Qed.

Lemma emit_pointer_word_legal a w : is_illegal (decode w) = false →
  emit_pointer_word a w = Done (push_word a w).
Proof. intros Hl. unfold emit_pointer_word. by rewrite Hl. Qed.

Lemma pair_reg r : 0 ≤ r → is_pair r = true → is_reg r.
Proof. unfold is_pair, is_reg. intros. bools. lia. Qed.

Lemma lor_func op d s tz :
  0 ≤ op < 64 → is_reg d → is_reg s → 0 ≤ tz < 4 →
  Z.lor (encode_r op d s 0) tz = op * 67108864 + (d * 4194304 + (s * 262144 + tz)).
Proof.
  intros. rewrite encode_r_sum by (done || unfold is_reg; lia).
  unfold is_reg in *.
  rewrite (lor_add_disjoint _ _ 2); [lia|lia|change (2 ^ 2) with 4; Z.div_mod_to_equations; lia|lia].
Qed.

Lemma pointer_func_fields d s tz (e : InsnDesc) :
  e ∈ INSNS → insn_format e = FmtR → is_reg d → is_reg s → 0 ≤ tz < 4 →
  let w := insn_opcode e * 67108864 + (d * 4194304 + (s * 262144 + tz)) in
  decode w = mkDecoded e d s 0 0 CondAl w ∧ Z.land w 16383 = tz.
Proof.
  intros He Hf Hd Hs Htz w. pose proof (entry_opcode_range e He). unfold is_reg in *. split.
  - unfold w. rewrite decode_known by (try done; lia). rewrite Hf. cbn zeta.
    rewrite payload_rd, payload_rs1 by (unfold is_reg; lia).
    assert (Z.land (Z.shiftr (d * 4194304 + (s * 262144 + tz)) 14) 15 = 0) as -> by fields.
    done.
  - unfold w. fields.
Qed.

(** The typed access emitters accept exactly a scalar register [r0..r12], an
    even pair [r0..r10] and a power-of-two width up to 8, and then append a
    legal word that carries the operands and the width. *)
Theorem pointer_width_exact a d s width :
  0 ≤ d → 0 ≤ s →
  match width_log2 width with
  | Some tz =>
      if (d <=? 12) && is_pair s then
        ∃ w, asm_pread a d s width = Done (push_word a w) ∧
          is_illegal (decode w) = false ∧ insn_semantics (d_desc (decode w)) = PointerRead ∧
          d_rd (decode w) = d ∧ d_rs1 (decode w) = s ∧ width = 2 ^ Z.land (d_raw (decode w)) 16383
      else asm_pread a d s width = Panic
  | None => asm_pread a d s width = Panic
  end.
Proof.
  intros Hd Hs.
  unfold asm_pread, pointer_width, assert_pair, assert_.
  destruct (width_log2 width) as [tz|] eqn:Hw;
    [|by destruct (d <=? 12), (is_pair s)].
  assert (Htz : 0 ≤ tz < 4 ∧ width = 2 ^ tz).
  { unfold width_log2 in Hw. repeat case_match; simplify_eq; split; (lia || done). }
  destruct (d <=? 12) eqn:Hd12, (is_pair s) eqn:Hsp; try done. cbn.
  assert (Hreg : is_reg d) by (bools; unfold is_reg; lia).
  pose proof (pair_reg s Hs Hsp) as Hsreg.
  set (e := mkInsn "pread" 42 FmtR PointerWidth PointerRead MemLoad FlagNone).
  destruct (pointer_func_fields d s tz e) as [Hdec Hfun];
    [apply list_elem_of_In; vm_compute; tauto|done..|lia|].
  cbn zeta in Hdec, Hfun.
  rewrite lor_func by (done || lia). change (insn_opcode e) with 42 in *.
  set (w := 42 * 67108864 + (d * 4194304 + (s * 262144 + tz))) in *.
  assert (Hleg : is_illegal (decode w) = false).
  { rewrite Hdec. unfold is_illegal. cbn [d_desc d_raw d_rd d_rs1 d_rs2 insn_opcode insn_semantics e].
    rewrite Hfun, Hsp. cbn. bools. rewrite (proj2 (Z.ltb_ge 12 d)), (proj2 (Z.ltb_ge 3 tz)) by lia.
    done. }
  exists w. split; [by apply emit_pointer_word_legal|].
  rewrite Hleg, Hdec. cbn [d_desc d_raw d_rd d_rs1]. rewrite Hfun. tauto.
Qed.
End assembler.

Lemma emit_i_exact_witness :
  let P : Profile := true in
  ∃ w, asm_movi asm_new 3 (-131072) = Done (push_word asm_new w) ∧ d_imm (decode w) = -131072.
Proof.
  intros P.
  destruct (emit_i_exact asm_new "movi"
    (mkInsn "movi" 22 FmtI RdImm SemMovi MemNone FlagNone) 3 0 (-131072)
    eq_refl eq_refl ltac:(unfold is_reg; lia) ltac:(unfold is_reg; lia)) as [[H ?]|(w&Hw&_&_&_&Hi)].
  - discriminate H.
  - exists w. split; [exact Hw|exact Hi].
Defined.

Lemma pointer_width_exact_witness :
  let P : Profile := false in
  ∃ w, asm_pread asm_new 3 4 8 = Done (push_word asm_new w) ∧ is_illegal (decode w) = false.
Proof.
  intros P.
  destruct (pointer_width_exact asm_new 3 4 8 ltac:(lia) ltac:(lia)) as (w&?&?&_).
  exists w. split; assumption.
Defined.

(** ** The byte stream *)
Lemma length_to_bytes a : length (to_bytes a) = (4 * length (asm_words a))%nat.
Proof.
  unfold to_bytes. induction (asm_words a) as [|w ws IH]; [done|].
  cbn [mbind list_bind]. rewrite length_app, length_le_bytes. simpl in *. lia.
Qed.

Lemma to_bytes_word (ws : list Z) (k : nat) w : ws !! k = Some w →
  take 4 (drop (4 * k) (ws ≫= le_bytes 4)) = le_bytes 4 w.
Proof.
  revert k. induction ws as [|v ws IH]; intros k Hk; [done|].
  cbn [mbind list_bind]. destruct k as [|k]; simpl in Hk.
  - guards. rewrite Nat.mul_0_r, drop_0. rewrite take_app_le by (rewrite length_le_bytes; lia).
    apply take_ge. by rewrite length_le_bytes.
  - rewrite drop_app_ge by (rewrite length_le_bytes; lia). rewrite length_le_bytes.
    replace (4 * S k - 4)%nat with (4 * k)%nat by lia. by apply IH.
Qed.

(** The byte stream is the little-endian image of the words: four bytes per
    word, and the 32-bit load at byte offset [4k] is the [k]-th emitted word. *)
Theorem to_bytes_roundtrip a :
  Forall is_u32 (asm_words a) →
  Z.of_nat (length (to_bytes a)) = 4 * Z.of_nat (length (asm_words a)) ∧
  Forall is_byte (to_bytes a) ∧
  ∀ k w, asm_words a !! k = Some w → le_value (slice (4 * Z.of_nat k) 4 (to_bytes a)) = w.
Proof.
  intros Hw. split; [rewrite length_to_bytes; lia|]. split.
  { unfold to_bytes. clear Hw. induction (asm_words a); cbn [mbind list_bind]; [constructor|].
    apply Forall_app. split; [apply le_bytes_byte|done]. }
  intros k w Hk. unfold slice, to_bytes.
  replace (Z.to_nat (4 * Z.of_nat k)) with (4 * k)%nat by lia.
  change (Z.to_nat 4) with 4%nat. rewrite (to_bytes_word _ _ w) by done.
  apply le_value_le_bytes. eapply Forall_lookup_1 in Hw; [|done].
  unfold is_u32, U32 in Hw. change (256 ^ Z.of_nat 4) with (2 ^ 32). done.
Qed.

Lemma to_bytes_roundtrip_witness :
  le_value (slice 4 4 (to_bytes (mkAsm [1; 4160749568]))) = 4160749568.
Proof.
  apply (proj2 (proj2 (to_bytes_roundtrip (mkAsm [1; 4160749568])
    ltac:(repeat constructor; unfold is_u32, U32; lia))) 1%nat). reflexivity.
Defined.
