(* ===== verification/Extents.v ===== *)
(** * Extent allocation: [src/anka64/placement.rs] and [placement/bounded.rs]

    Page-rounded extents, the first-fit free list of [PhysicalPlacementManager],
    the bounded claim tables that both heap profiles share, and the per-process
    [VirtualLayoutBuilder]. *)

From S2P Require Import Prelude State.

(** ** The host

    [Vec::try_reserve_exact] and the layout of the Rust types are not code of
    the repository.  [reserve_exact n] is the capacity an empty vector has
    after reserving [n] elements, or [None] when the host refuses;
    [try_reserve len n] tells whether a vector of [len] elements gets room for
    [n] more; the sizes are [std::mem::size_of] of the named types. *)
Class Host := {
  reserve_exact : Z → option Z;
  try_reserve : Z → Z → bool;
  size_of_opt_claim : Z;
  size_of_extent : Z;
  size_of_registry : Z;
  size_of_slot : Z;
  size_of_opt_scope : Z;
  size_of_opt_account : Z;
  size_of_opt_cleanup : Z;
  size_of_opt_host_storage : Z;
}.

(** Documented behaviour of [try_reserve_exact]: the capacity is at least what
    was asked for. *)
Class HostOk `{Host} := {
  reserve_exact_ge n c : reserve_exact n = Some c → n ≤ c;
}.

(** ** Extents *)
Definition PLACEMENT_PAGE_SIZE : Z := 4096.
Definition PLACEMENT_PAGE_MASK : Z := PLACEMENT_PAGE_SIZE - 1.

Record Extent := mkExtent { ext_base : Z; ext_size : Z }.
#[export] Instance Extent_eq_dec : EqDecision Extent.
Proof. solve_decision. Defined.

(** [PhysicalExtent] and [VirtualExtent] have the same shape. *)
Abbreviation PhysicalExtent := Extent (only parsing).
Abbreviation VirtualExtent := Extent (only parsing).

Definition ext_end (e : Extent) : option Z := checked_add (ext_base e) (ext_size e).

Inductive PlacementError :=
| InvalidPool | ZeroSize | Overflow | OwnerAlreadyAllocated | UnknownOwner
| ComposedReleaseRequiresFabricCheck | ObjectStillPlaced | OutOfMemory
| UnknownObject | ObjectAlreadyPlaced | FabricRejected | InvalidVirtualLayout
| ReservationCapacity | HostAllocation | ReservationMismatch | WrongMode.
#[export] Instance PlacementError_eq_dec : EqDecision PlacementError.
Proof. solve_decision. Defined.

Definition is_page_aligned (value : Z) : bool := Z.land value PLACEMENT_PAGE_MASK =? 0.

(** [v & !PLACEMENT_PAGE_MASK] *)
Definition page_floor (v : Z) : Z := Z.ldiff v PLACEMENT_PAGE_MASK.

Definition page_ceil (size : Z) : result PlacementError Z :=
  if size =? 0 then Err ZeroSize
  else match checked_add size PLACEMENT_PAGE_MASK with
       | Some v => if page_floor v =? 0 then Err Overflow else Ok (page_floor v)
       | None => Err Overflow
       end.

Definition valid_extent (e : Extent) : bool :=
  negb (ext_size e =? 0) && is_page_aligned (ext_base e) && is_page_aligned (ext_size e)
  && is_some (ext_end e).

(** [slice::iter().position(p)] *)
Fixpoint position {A} (p : A → bool) (l : list A) : option nat :=
  match l with
  | [] => None
  | x :: l => if p x then Some O else S <$> position p l
  end.

(** ** Bounded claims *)
Record ReservationKey := mkKey {
  key_owner : Z;
  key_slot : Z;
  key_generation : Z;
  key_job : Z;
}.
#[export] Instance ReservationKey_eq_dec : EqDecision ReservationKey.
Proof. solve_decision. Defined.

Definition key_valid (k : ReservationKey) : bool :=
  negb (key_owner k =? 0) && negb (key_slot k =? 0) && negb (key_generation k =? 0)
  && negb (key_job k =? 0) && negb (key_job k =? u64_max).

Record Claim := mkClaim { claim_key : ReservationKey; claim_extent : Extent }.
#[export] Instance Claim_eq_dec : EqDecision Claim.
Proof. solve_decision. Defined.

Record Claims := mkClaims { cl_rows : list (option Claim); cl_held : Z }.
#[export] Instance Claims_eq_dec : EqDecision Claims.
Proof. solve_decision. Defined.

(** The free vector of a bounded manager with its capacity, which the bounded
    operations check before they insert. *)
Record FreeVec := mkFree { fv_items : list Extent; fv_capacity : Z }.
#[export] Instance FreeVec_eq_dec : EqDecision FreeVec.
Proof. solve_decision. Defined.

Record Take := mkTake {
  take_claim : nat;
  take_hole : nat;
  take_before : Extent;
  take_suffix : option Extent;
  take_key : ReservationKey;
  take_extent : Extent;
  take_revision : Z;
}.

Record Return := mkReturnPlan {
  rp_claim : nat;
  rp_index : nat;
  rp_left : bool;
  rp_right : bool;
  rp_merged : Extent;
  rp_key : ReservationKey;
  rp_extent : Extent;
  rp_revision : Z;
}.

Definition checked_mul (a b : Z) : option Z := if a * b <? U64 then Some (a * b) else None.

Definition storage_bytes (size capacity : Z) : result PlacementError Z :=
  ok_or (checked_mul capacity size) Overflow.

Definition flatten {A} (l : list (option A)) : list A := omap id l.

Section claims.
Context `{Host}.

Definition claims_minimum_bytes (k : Z) : result PlacementError Z :=
  if u32_max <? k then Err ReservationCapacity
  else n ← ok_or (checked_add k 2) Overflow;
       a ← storage_bytes size_of_opt_claim k;
       b ← storage_bytes size_of_extent n;
       ok_or (checked_add a b) Overflow.

Definition claims_new (k : Z) (pool : Extent) : result PlacementError (Claims * FreeVec) :=
  _ ← claims_minimum_bytes k;
  if negb (valid_extent pool) then Err InvalidPool
  else _ ← ok_or (reserve_exact k) HostAllocation;
       c ← ok_or (reserve_exact (k + 2)) HostAllocation;
       mret (mkClaims (replicate (Z.to_nat k) None) 0, mkFree [pool] c).
End claims.

Definition claims_extent (c : Claims) (key : ReservationKey) : option Extent :=
  claim_extent <$> List.find (λ r, bool_decide (claim_key r = key)) (flatten (cl_rows c)).

Definition claims_shape (c : Claims) (free : FreeVec) : result PlacementError unit :=
  let rows := Z.of_nat (length (cl_rows c)) in
  if (rows <? cl_held c) || (cl_held c + 1 <? Z.of_nat (length (fv_items free)))
     || (fv_capacity free <? rows + 2)
  then Err ReservationMismatch else Ok tt.

Definition prepare_take (c : Claims) (free : FreeVec) (key : ReservationKey)
    (logical revision : Z) : fallible PlacementError Take :=
  _ ←? claims_shape c free;
  if negb (key_valid key) || (revision =? u64_max) || is_some (claims_extent c key)
  then err ReservationMismatch
  else if cl_held c =? Z.of_nat (length (cl_rows c)) then err ReservationCapacity
  else
    claim ←? ok_or (position (λ r, negb (is_some r)) (cl_rows c)) ReservationCapacity;
    size ←? page_ceil logical;
    hole ←? ok_or (position (λ e, size <=? ext_size e) (fv_items free)) OutOfMemory;
    before ← vec_get hole (fv_items free);
    end_ ←? ok_or (checked_add (ext_base before) size) Overflow;
    ok (mkTake claim hole before
      (if size <? ext_size before then Some (mkExtent end_ (ext_size before - size)) else None)
      key (mkExtent (ext_base before) size) revision).

(** [slice::partition_point] on a list partitioned by [p]. *)
Fixpoint partition_point {A} (p : A → bool) (l : list A) : nat :=
  match l with
  | [] => O
  | x :: l => if p x then S (partition_point p l) else O
  end.

Definition prepare_return (c : Claims) (free : FreeVec) (pool : Extent)
    (key : ReservationKey) (extent : Extent) (revision : Z) : fallible PlacementError Return :=
  _ ←? claims_shape c free;
  claim ←? ok_or (position (λ r, bool_decide (r = Some (mkClaim key extent))) (cl_rows c))
            ReservationMismatch;
  end_ ←? ok_or (ext_end extent) Overflow;
  if negb (valid_extent extent) || (ext_base extent <? ext_base pool)
  then err ReservationMismatch
  else
  pool_end ← unwrap (ext_end pool);
  if (pool_end <? end_) || (cl_held c =? 0)
     || (Z.of_nat (length (fv_items free)) =? fv_capacity free)
  then err ReservationMismatch
  else
    let items := fv_items free in
    let index := partition_point (λ e, ext_base e <? ext_base extent) items in
    let before := match index with O => None | S i => items !! i end in
    let after := items !! index in
    if is_some_and (λ e, is_none_or (λ n, ext_base extent <? n) (ext_end e)) before
       || is_some_and (λ e, ext_base e <? end_) after
    then err ReservationMismatch
    else
      let left := is_some_and (λ e, bool_decide (ext_end e = Some (ext_base extent))) before in
      let right := is_some_and (λ e, ext_base e =? end_) after in
      base ← (if left then ext_base <$> unwrap before else Done (ext_base extent));
      merged_end ←! (if right then e ← unwrap after; Done (ok_or (ext_end e) Overflow)
                     else ok end_);
      size ←? ok_or (checked_sub merged_end base) Overflow;
      ok (mkReturnPlan claim index left right (mkExtent base size) key extent revision).

Section claims_commit.
Context `{Profile}.

Definition claims_take (c : Claims) (free : FreeVec) (plan : Take) (revision : Z) :
    outcome (Claims * FreeVec) :=
  _ ← debug_assert (take_revision plan =? revision);
  row ← vec_get (take_claim plan) (cl_rows c);
  _ ← debug_assert (negb (is_some row));
  hole ← vec_get (take_hole plan) (fv_items free);
  _ ← debug_assert (bool_decide (hole = take_before plan));
  items ← (match take_suffix plan with
           | Some suffix => vec_set (take_hole plan) suffix (fv_items free)
           | None => vec_remove (take_hole plan) (fv_items free)
           end);
  rows ← vec_set (take_claim plan) (Some (mkClaim (take_key plan) (take_extent plan))) (cl_rows c);
  held ← add_u64 (cl_held c) 1;
  mret (mkClaims rows held, mkFree items (fv_capacity free)).

Definition give_back (c : Claims) (free : FreeVec) (plan : Return) (revision : Z) :
    outcome (Claims * FreeVec) :=
  _ ← debug_assert (rp_revision plan =? revision);
  row ← vec_get (rp_claim plan) (cl_rows c);
  _ ← debug_assert (bool_decide (row = Some (mkClaim (rp_key plan) (rp_extent plan))));
  _ ← debug_assert (Z.of_nat (length (fv_items free)) <? fv_capacity free);
  f1 ← vec_insert (rp_index plan) (rp_extent plan) (fv_items free);
  f2 ← (if rp_right plan then vec_remove (S (rp_index plan)) f1 else Done f1);
  f3 ← (if rp_left plan then
          f ← vec_remove (rp_index plan) f2;
          match rp_index plan with
          | O => Panic
          | S i => vec_set i (rp_merged plan) f
          end
        else vec_set (rp_index plan) (rp_merged plan) f2);
  rows ← vec_set (rp_claim plan) None (cl_rows c);
  held ← sub_u64 (cl_held c) 1;
  mret (mkClaims rows held, mkFree f3 (fv_capacity free)).
End claims_commit.

(** ** The physical manager

    [pm_capacity] is the capacity of [free]; only the bounded profile reads it. *)
Record PhysicalPlacementManager := mkManager {
  pm_pool : Extent;
  pm_free : list Extent;
  pm_allocated : gmap Z Extent;
  pm_committed : gset Z;
  pm_bounded : option Claims;
  pm_capacity : Z;
}.

Definition manager_new (pool_base pool_size : Z) : result PlacementError PhysicalPlacementManager :=
  let pool := mkExtent pool_base pool_size in
  if negb (valid_extent pool) then Err InvalidPool
  else Ok (mkManager pool [pool] ∅ ∅ None 1).

Definition allocated_extent (m : PhysicalPlacementManager) (owner : ObjectId) : option Extent :=
  pm_allocated m !! owner.

Definition set_free (free : list Extent) (m : PhysicalPlacementManager) :=
  mkManager (pm_pool m) free (pm_allocated m) (pm_committed m) (pm_bounded m) (pm_capacity m).
Definition set_allocated (a : gmap Z Extent) (m : PhysicalPlacementManager) :=
  mkManager (pm_pool m) (pm_free m) a (pm_committed m) (pm_bounded m) (pm_capacity m).
Definition set_committed (c : gset Z) (m : PhysicalPlacementManager) :=
  mkManager (pm_pool m) (pm_free m) (pm_allocated m) c (pm_bounded m) (pm_capacity m).

(** [allocate]: first fit.  An error leaves the manager alone. *)
Definition allocate (m : PhysicalPlacementManager) (owner : ObjectId) (requested_size : Z) :
    fallible PlacementError (PhysicalPlacementManager * Extent) :=
  if is_some (pm_bounded m) then err WrongMode
  else if is_some (pm_allocated m !! owner) then err OwnerAlreadyAllocated
  else
    size ←? page_ceil requested_size;
    idx ←? ok_or (position (λ e, size <=? ext_size e) (pm_free m)) OutOfMemory;
    slot ← vec_get idx (pm_free m);
    let candidate := mkExtent (ext_base slot) size in
    candidate_end ←? ok_or (ext_end candidate) Overflow;
    slot_end ←? ok_or (ext_end slot) Overflow;
    if slot_end <? candidate_end then err OutOfMemory
    else
      free ← (if ext_size candidate =? ext_size slot then vec_remove idx (pm_free m)
              else vec_set idx (mkExtent candidate_end (slot_end - candidate_end)) (pm_free m));
      ok (set_allocated (<[owner := candidate]> (pm_allocated m)) (set_free free m), candidate).

(** [sort_by_key(|e| e.base)]: the stable sort. *)
Fixpoint insert_by_base (x : Extent) (l : list Extent) : list Extent :=
  match l with
  | [] => [x]
  | y :: l' => if ext_base x <=? ext_base y then x :: l else y :: insert_by_base x l'
  end.
Definition sort_by_base (l : list Extent) : list Extent := foldr insert_by_base [] l.

Section coalesce.
Context `{Profile}.

(** The merge loop: [merged] is kept as its last element and the rest. *)
Fixpoint merge_loop (merged : list Extent) (last : option Extent) (l : list Extent) :
    outcome (list Extent) :=
  match l with
  | [] => Done (merged ++ option_list last)
  | ext :: l =>
      match last with
      | None => merge_loop merged (Some ext) l
      | Some e =>
          last_end ← unwrap (ext_end e);
          if last_end =? ext_base ext then
            size ← unwrap (checked_add (ext_size e) (ext_size ext));
            merge_loop merged (Some (mkExtent (ext_base e) size)) l
          else
            _ ← debug_assert (last_end <? ext_base ext);
            merge_loop (merged ++ [e]) (Some ext) l
      end
  end.

Definition insert_free_and_coalesce (m : PhysicalPlacementManager) (extent : Extent) :
    outcome PhysicalPlacementManager :=
  _ ← debug_assert (valid_extent extent);
  free ← merge_loop [] None (sort_by_base (pm_free m ++ [extent]));
  mret (set_free free m).

Definition release_reservation (m : PhysicalPlacementManager) (owner : ObjectId) :
    fallible PlacementError (PhysicalPlacementManager * Extent) :=
  if bool_decide (owner ∈ pm_committed m) then err ComposedReleaseRequiresFabricCheck
  else
    extent ←? ok_or (pm_allocated m !! owner) UnknownOwner;
    m' ← insert_free_and_coalesce (set_allocated (delete owner (pm_allocated m)) m) extent;
    ok (m', extent).

Definition free_bytes (m : PhysicalPlacementManager) : outcome Z :=
  foldl (λ acc e, n ← acc; add_u64 n (ext_size e)) (Done 0) (pm_free m).
End coalesce.

(** The bounded profile of the same manager. *)
Definition manager_bounded `{Host} (pool : Extent) (claims : Z) :
    result PlacementError PhysicalPlacementManager :=
  p ← claims_new claims pool;
  mret (mkManager pool (fv_items p.2) ∅ ∅ (Some p.1) (fv_capacity p.2)).

Definition pm_free_vec (m : PhysicalPlacementManager) : FreeVec := mkFree (pm_free m) (pm_capacity m).
Definition set_bounded (p : Claims * FreeVec) (m : PhysicalPlacementManager) :=
  mkManager (pm_pool m) (fv_items p.2) (pm_allocated m) (pm_committed m) (Some p.1) (fv_capacity p.2).

Definition pm_reservation_extent (m : PhysicalPlacementManager) (key : ReservationKey) : option Extent :=
  c ← pm_bounded m; claims_extent c key.
Definition pm_prepare_heap_take (m : PhysicalPlacementManager) (key : ReservationKey)
    (logical revision : Z) : fallible PlacementError Take :=
  c ←? ok_or (pm_bounded m) WrongMode; prepare_take c (pm_free_vec m) key logical revision.
Definition pm_prepare_heap_return (m : PhysicalPlacementManager) (key : ReservationKey)
    (extent : Extent) (revision : Z) : fallible PlacementError Return :=
  c ←? ok_or (pm_bounded m) WrongMode;
  prepare_return c (pm_free_vec m) (pm_pool m) key extent revision.

Section manager_commit.
Context `{Profile}.
Definition pm_commit_heap_take (m : PhysicalPlacementManager) (plan : Take) (revision : Z) :
    outcome PhysicalPlacementManager :=
  c ← unwrap (pm_bounded m);
  p ← claims_take c (pm_free_vec m) plan revision; mret (set_bounded p m).
Definition pm_commit_heap_return (m : PhysicalPlacementManager) (plan : Return) (revision : Z) :
    outcome PhysicalPlacementManager :=
  c ← unwrap (pm_bounded m);
  p ← give_back c (pm_free_vec m) plan revision; mret (set_bounded p m).
End manager_commit.

(** ** Virtual layouts *)
Record VirtualArena := mkArena { va_free : FreeVec; va_claims : Claims; va_owner : option Z }.

Record VirtualLayoutBuilder := mkLayout {
  vl_layout_start : Z;
  vl_next : Z;
  vl_limit : Z;
  vl_regions : list Extent;
  vl_reusable : option VirtualArena;
}.

Definition after_image (code_base code_size limit : Z) : result PlacementError VirtualLayoutBuilder :=
  if code_size =? 0 then Err ZeroSize
  else
    image_end ← ok_or (checked_add code_base code_size) Overflow;
    layout_start ← page_ceil image_end;
    if negb (is_page_aligned layout_start) || (layout_start <? image_end) || (limit <? layout_start)
    then Err InvalidVirtualLayout
    else Ok (mkLayout layout_start layout_start limit [] None).

Definition reserve (v : VirtualLayoutBuilder) (requested_size : Z) :
    result PlacementError (VirtualLayoutBuilder * Extent) :=
  if is_some (vl_reusable v) then Err WrongMode
  else
    size ← page_ceil requested_size;
    end_ ← ok_or (checked_add (vl_next v) size) Overflow;
    if vl_limit v <? end_ then Err OutOfMemory
    else
      let extent := mkExtent (vl_next v) size in
      Ok (mkLayout (vl_layout_start v) end_ (vl_limit v) (vl_regions v ++ [extent]) (vl_reusable v),
          extent).

Section arenas.
Context `{Host}.

Definition vl_minimum_reservation_bytes (pool : Extent) (claims : Z) : result PlacementError Z :=
  if negb (valid_extent pool) then Err InvalidPool else claims_minimum_bytes claims.

Definition reusable (pool : Extent) (claims : Z) : fallible PlacementError VirtualLayoutBuilder :=
  _ ←? vl_minimum_reservation_bytes pool claims;
  p ←? claims_new claims pool;
  limit ← unwrap (ext_end pool);
  ok (mkLayout (ext_base pool) (ext_base pool) limit [] (Some (mkArena p.2 p.1 None))).
End arenas.

Definition vl_window (v : VirtualLayoutBuilder) : Extent :=
  mkExtent (vl_layout_start v) (vl_limit v - vl_layout_start v).

Definition check_binding (v : VirtualLayoutBuilder) (owner : option Z) : result PlacementError unit :=
  a ← ok_or (vl_reusable v) WrongMode;
  if negb (bool_decide (va_owner a = owner)) || negb (cl_held (va_claims a) =? 0)
     || negb (bool_decide (fv_items (va_free a) = [vl_window v]))
  then Err ReservationMismatch else Ok tt.

Definition set_arena (a : VirtualArena) (v : VirtualLayoutBuilder) : VirtualLayoutBuilder :=
  mkLayout (vl_layout_start v) (vl_next v) (vl_limit v) (vl_regions v) (Some a).

Definition bind_owner (v : VirtualLayoutBuilder) (owner : option Z) : outcome VirtualLayoutBuilder :=
  a ← unwrap (vl_reusable v); mret (set_arena (mkArena (va_free a) (va_claims a) owner) v).

Definition vl_reservation_extent (v : VirtualLayoutBuilder) (key : ReservationKey) : option Extent :=
  a ← vl_reusable v;
  if negb (bool_decide (va_owner a = Some (key_owner key))) then None
  else claims_extent (va_claims a) key.

Definition vl_prepare_heap_take (v : VirtualLayoutBuilder) (key : ReservationKey)
    (logical revision : Z) : fallible PlacementError Take :=
  a ←? ok_or (vl_reusable v) WrongMode;
  if negb (bool_decide (va_owner a = Some (key_owner key))) then err ReservationMismatch
  else prepare_take (va_claims a) (va_free a) key logical revision.

Definition vl_prepare_heap_return (v : VirtualLayoutBuilder) (key : ReservationKey)
    (extent : Extent) (revision : Z) : fallible PlacementError Return :=
  a ←? ok_or (vl_reusable v) WrongMode;
  if negb (bool_decide (va_owner a = Some (key_owner key))) then err ReservationMismatch
  else prepare_return (va_claims a) (va_free a) (vl_window v) key extent revision.

Section arena_commit.
Context `{Profile}.
Definition vl_commit_heap_take (v : VirtualLayoutBuilder) (plan : Take) (revision : Z) :
    outcome VirtualLayoutBuilder :=
  a ← unwrap (vl_reusable v);
  p ← claims_take (va_claims a) (va_free a) plan revision;
  mret (set_arena (mkArena p.2 p.1 (va_owner a)) v).
Definition vl_commit_heap_return (v : VirtualLayoutBuilder) (plan : Return) (revision : Z) :
    outcome VirtualLayoutBuilder :=
  a ← unwrap (vl_reusable v);
  p ← give_back (va_claims a) (va_free a) plan revision;
  mret (set_arena (mkArena p.2 p.1 (va_owner a)) v).
End arena_commit.
