(* ===== verification/ExtentsFacts.v ===== *)
(** * Correctness of extent allocation

    The free list of both managers is kept sorted and coalesced; a list of that
    form is determined by the set of addresses it covers ([gapped_canonical]).
    Conservation, disjointness, exact rollback and the agreement of the two
    release algorithms all follow from the sets. *)

From S2P Require Import Prelude State Extents.

(** ** Pages *)
Definition aligned (x : Z) : Prop := x mod 4096 = 0.

Lemma is_page_aligned_spec x : is_page_aligned x = true ↔ aligned x.
Proof.
  unfold is_page_aligned, aligned, PLACEMENT_PAGE_MASK, PLACEMENT_PAGE_SIZE.
  change (4096 - 1) with (Z.ones 12). rewrite land_low_mod by lia.
  change (2 ^ 12) with 4096. apply Z.eqb_eq.
Qed.

Lemma page_floor_spec x : page_floor x = x - x mod 4096.
Proof.
  unfold page_floor, PLACEMENT_PAGE_MASK, PLACEMENT_PAGE_SIZE.
  change (4096 - 1) with (Z.ones 12). rewrite Z.ldiff_ones_r by lia.
  rewrite Z.shiftl_mul_pow2, Z.shiftr_div_pow2 by lia. change (2 ^ 12) with 4096.
  pose proof (Z.div_mod x 4096). lia.
Qed.

Lemma page_ceil_Ok size n :
  is_u64 size → page_ceil size = Ok n →
  0 < size ∧ size ≤ n < size + 4096 ∧ aligned n ∧ is_u64 n ∧ 0 < n.
Proof.
  intros Hs. unfold page_ceil. destruct (Z.eqb_spec size 0); [done|].
  destruct (checked_add size PLACEMENT_PAGE_MASK) as [v|] eqn:Hv; [|done].
  apply checked_add_Some in Hv as [Hlt ->]. rewrite page_floor_spec.
  unfold PLACEMENT_PAGE_MASK, PLACEMENT_PAGE_SIZE in *.
  destruct (Z.eqb_spec (size + (4096 - 1) - (size + (4096 - 1)) mod 4096) 0); [done|].
  intros. guards. unfold is_u64, aligned in *.
  pose proof (Z.mod_pos_bound (size + (4096 - 1)) 4096 ltac:(lia)).
  split_and!; try lia.
  Z.div_mod_to_equations. lia.
Qed.

Lemma page_ceil_Err size e : page_ceil size = Err e → e = ZeroSize ∨ e = Overflow.
Proof. unfold page_ceil. intros Hp. cases_in Hp; auto. Qed.

Lemma page_ceil_total size :
  is_u64 size → 0 < size → size + 4095 < U64 → ∃ n, page_ceil size = Ok n.
Proof.
  intros Hs Hpos Hlt. unfold page_ceil. destruct (Z.eqb_spec size 0); [lia|].
  unfold checked_add, PLACEMENT_PAGE_MASK, PLACEMENT_PAGE_SIZE.
  destruct (Z.ltb_spec (size + (4096 - 1)) U64); [|lia].
  rewrite page_floor_spec.
  destruct (Z.eqb_spec (size + (4096 - 1) - (size + (4096 - 1)) mod 4096) 0); [|eauto].
  pose proof (Z.mod_pos_bound (size + (4096 - 1)) 4096 ltac:(lia)). lia.
Qed.

(** Page rounding is minimal and never wraps: it yields the least multiple of
    the page size that holds the request, fails with [ZeroSize] exactly on zero,
    and with [Overflow] exactly when no such multiple fits in 64 bits. *)
Theorem page_ceil_minimal size :
  is_u64 size →
  match page_ceil size with
  | Ok n => aligned n ∧ size ≤ n ∧ is_u64 n ∧ ∀ k, aligned k → size ≤ k → n ≤ k
  | Err ZeroSize => size = 0
  | Err Overflow => 0 < size ∧ ∀ k, aligned k → size ≤ k → U64 ≤ k
  | Err _ => False
  end.
Proof.
  intros Hs. destruct (page_ceil size) as [n|e] eqn:E.
  - apply page_ceil_Ok in E as (?&?&Ha&?&?); [|done]. split_and!; try (done || lia).
    intros k Hk Hsk. unfold aligned in *. Z.div_mod_to_equations. lia.
  - unfold page_ceil in E. destruct (Z.eqb_spec size 0); [by guards|].
    unfold is_u64 in Hs.
    destruct (decide (size + 4095 < U64)) as [Hlt|Hge].
    { destruct (page_ceil_total size) as [n' Hn]; [done|lia|done|].
      unfold page_ceil in Hn. destruct (Z.eqb_spec size 0); [done|]. congruence. }
    assert (e = Overflow) as ->.
    { unfold checked_add, PLACEMENT_PAGE_MASK, PLACEMENT_PAGE_SIZE in E.
      destruct (Z.ltb_spec (size + (4096 - 1)) U64); [lia|by guards]. }
    split; [lia|]. intros k Hk Hsk. unfold aligned in Hk. unfold U64 in *.
    Z.div_mod_to_equations. lia.
Qed.

Lemma page_ceil_minimal_witness :
  match page_ceil 4097 with Ok n => n = 8192 | Err _ => False end ∧ ∀ k, aligned k → 4097 ≤ k → 8192 ≤ k.
Proof.
  split; [reflexivity|].
  apply (proj2 (proj2 (proj2 (page_ceil_minimal 4097 ltac:(unfold is_u64, U64; lia))))).
Defined.

(** ** Address sets *)
Definition inside (x : Z) (e : Extent) : Prop := ext_base e ≤ x < ext_base e + ext_size e.
Definition pts (l : list Extent) (x : Z) : Prop := ∃ e, e ∈ l ∧ inside x e.
Definition apart (a b : Extent) : Prop :=
  ext_base a + ext_size a ≤ ext_base b ∨ ext_base b + ext_size b ≤ ext_base a.
Definition within (a b : Extent) : Prop :=
  ext_base b ≤ ext_base a ∧ ext_base a + ext_size a ≤ ext_base b + ext_size b.

Record ext_wf (e : Extent) : Prop := {
  ew_base : 0 ≤ ext_base e;
  ew_size : 0 < ext_size e;
  ew_end : ext_base e + ext_size e < U64;
  ew_abase : aligned (ext_base e);
  ew_asize : aligned (ext_size e);
}.

Lemma valid_extent_wf e :
  0 ≤ ext_base e → 0 ≤ ext_size e → valid_extent e = true ↔ ext_wf e.
Proof.
  intros Hb Hs. unfold valid_extent, ext_end, checked_add.
  rewrite !andb_true_iff, negb_true_iff, Z.eqb_neq, !is_page_aligned_spec.
  destruct (Z.ltb_spec (ext_base e + ext_size e) U64); simpl; split.
  - intros [[[? ?] ?] _]. split; done || lia.
  - intros []. split_and!; done || lia.
  - intros [_ Hf]. discriminate.
  - intros []. lia.
Qed.

Lemma ext_end_wf e : ext_wf e → ext_end e = Some (ext_base e + ext_size e).
Proof. intros []. unfold ext_end. by apply checked_add_Some. Qed.

Lemma apart_inside a b x : apart a b → inside x a → inside x b → False.
Proof. unfold apart, inside. lia. Qed.

Lemma inside_apart a b :
  0 < ext_size a → 0 < ext_size b → (∀ x, inside x a → inside x b → False) → apart a b.
Proof.
  intros Ha Hb Hx. unfold apart, inside in *.
  destruct (decide (ext_base a + ext_size a ≤ ext_base b)); [by left|].
  destruct (decide (ext_base b + ext_size b ≤ ext_base a)); [by right|].
  exfalso. apply (Hx (Z.max (ext_base a) (ext_base b))); lia.
Qed.

Lemma pts_nil x : pts [] x ↔ False.
Proof. unfold pts. set_solver. Qed.
Lemma pts_cons e l x : pts (e :: l) x ↔ inside x e ∨ pts l x.
Proof. unfold pts. set_solver. Qed.
Lemma pts_app l k x : pts (l ++ k) x ↔ pts l x ∨ pts k x.
Proof. unfold pts. set_solver. Qed.

(** Sorted with a gap before every extent ([gapped]), or merely without
    overlap ([ordered]). *)
Fixpoint gapped (lo : Z) (l : list Extent) : Prop :=
  match l with
  | [] => True
  | e :: l => lo < ext_base e ∧ ext_wf e ∧ gapped (ext_base e + ext_size e) l
  end.
Fixpoint ordered (lo : Z) (l : list Extent) : Prop :=
  match l with
  | [] => True
  | e :: l => lo ≤ ext_base e ∧ ext_wf e ∧ ordered (ext_base e + ext_size e) l
  end.

Lemma ordered_weaken lo lo' l : lo' ≤ lo → ordered lo l → ordered lo' l.
Proof. destruct l; simpl; naive_solver lia. Qed.
Lemma gapped_weaken lo lo' l : lo' ≤ lo → gapped lo l → gapped lo' l.
Proof. destruct l; simpl; naive_solver lia. Qed.
Lemma gapped_ordered lo l : gapped lo l → ordered lo l.
Proof. revert lo. induction l; simpl; naive_solver lia. Qed.

Lemma ordered_pts lo l x : ordered lo l → pts l x → lo ≤ x.
Proof.
  revert lo. induction l as [|e l IH]; simpl; intros lo Ho Hx.
  - by apply pts_nil in Hx.
  - destruct Ho as (?&Hwf&Ho). apply pts_cons in Hx as [Hx|Hx].
    + unfold inside in Hx. lia.
    + specialize (IH _ Ho Hx). destruct Hwf. lia.
Qed.
Lemma gapped_pts lo l x : gapped lo l → pts l x → lo < x.
Proof.
  intros Hg Hx. destruct l as [|e l]; [by apply pts_nil in Hx|].
  destruct Hg as (?&Hwf&Hg). apply pts_cons in Hx as [Hx|Hx].
  - unfold inside in Hx. lia.
  - apply (ordered_pts (ext_base e + ext_size e)) in Hx; [|by apply gapped_ordered].
    destruct Hwf. lia.
Qed.

Lemma ordered_elem lo l e : ordered lo l → e ∈ l → ext_wf e.
Proof.
  revert lo. induction l as [|a l IH]; simpl; intros lo Ho He; [set_solver|].
  apply elem_of_cons in He as [->|He]; naive_solver.
Qed.

(** A gapped list is determined by its set of addresses. *)
Lemma gapped_head lo lo' a b l k :
  gapped lo (a :: l) → gapped lo' (b :: k) → (∀ x, pts (a :: l) x ↔ pts (b :: k) x) →
  ext_base b ≤ ext_base a.
Proof.
  intros (?&[]&?) (?&Hb&Hk) Hp.
  assert (Hx : pts (b :: k) (ext_base a)).
  { apply Hp, pts_cons. left. unfold inside. lia. }
  apply pts_cons in Hx as [Hx|Hx]; [unfold inside in Hx; lia|].
  apply (gapped_pts (ext_base b + ext_size b)) in Hx; [|done]. destruct Hb. lia.
Qed.

Lemma gapped_head_size lo lo' a b l k :
  gapped lo (a :: l) → gapped lo' (b :: k) → (∀ x, pts (a :: l) x ↔ pts (b :: k) x) →
  ext_base a = ext_base b → ext_size b ≤ ext_size a.
Proof.
  intros (?&[]&Hl) (?&[]&?) Hp Hab. destruct (decide (ext_size b ≤ ext_size a)); [done|].
  assert (Hx : pts (a :: l) (ext_base a + ext_size a)).
  { apply Hp, pts_cons. left. unfold inside. lia. }
  apply pts_cons in Hx as [Hx|Hx]; [unfold inside in Hx; lia|].
  apply (gapped_pts (ext_base a + ext_size a)) in Hx; [lia|done].
Qed.

Lemma gapped_canonical lo lo' l k :
  gapped lo l → gapped lo' k → (∀ x, pts l x ↔ pts k x) → l = k.
Proof.
  revert lo lo' k. induction l as [|a l IH]; intros lo lo' [|b k] Hl Hk Hp; [done|..].
  - destruct Hk as (?&[]&?). exfalso. apply (pts_nil (ext_base b)), Hp, pts_cons.
    left. unfold inside. lia.
  - destruct Hl as (?&[]&?). exfalso. apply (pts_nil (ext_base a)), Hp, pts_cons.
    left. unfold inside. lia.
  - assert (Hp' : ∀ x, pts (b :: k) x ↔ pts (a :: l) x) by (intros; by rewrite Hp).
    pose proof (gapped_head _ _ _ _ _ _ Hl Hk Hp). pose proof (gapped_head _ _ _ _ _ _ Hk Hl Hp').
    assert (Hbase : ext_base a = ext_base b) by lia.
    pose proof (gapped_head_size _ _ _ _ _ _ Hl Hk Hp Hbase).
    pose proof (gapped_head_size _ _ _ _ _ _ Hk Hl Hp' (eq_sym Hbase)).
    assert (a = b) as -> by (destruct a, b; simpl in *; f_equal; lia).
    f_equal. destruct Hl as (?&?&Hl), Hk as (?&?&Hk). apply (IH _ _ k Hl Hk). intros x.
    specialize (Hp x). rewrite !pts_cons in Hp. split; intros Hx.
    + pose proof (gapped_pts _ _ _ Hl Hx). destruct Hp as [[?|?] _]; auto. unfold inside in *. lia.
    + pose proof (gapped_pts _ _ _ Hk Hx). destruct Hp as [_ [?|?]]; auto. unfold inside in *. lia.
Qed.

(** ** Sorting and coalescing *)
Lemma pts_insert x e l : pts (insert_by_base e l) x ↔ inside x e ∨ pts l x.
Proof.
  induction l as [|a l IH]; simpl; [by rewrite pts_cons|].
  destruct (ext_base e <=? ext_base a); rewrite !pts_cons; [done|]. rewrite IH. tauto.
Qed.

Lemma pts_sort l x : pts (sort_by_base l) x ↔ pts l x.
Proof.
  induction l as [|a l IH]; simpl; [done|]. by rewrite pts_insert, pts_cons, IH.
Qed.

Lemma elem_of_insert e a l : e ∈ insert_by_base a l ↔ e = a ∨ e ∈ l.
Proof.
  induction l as [|b l IH]; simpl; [set_solver|].
  destruct (ext_base a <=? ext_base b); set_solver.
Qed.

Lemma ordered_insert lo e l :
  ordered lo l → lo ≤ ext_base e → ext_wf e → (∀ a, a ∈ l → apart e a) →
  ordered lo (insert_by_base e l).
Proof.
  revert lo. induction l as [|a l IH]; simpl; intros lo Ho Hlo He Ha; [done|].
  destruct Ho as (?&Hwa&Ho). assert (Hea : apart e a) by set_solver. unfold apart in Hea.
  pose proof (ew_size _ He). pose proof (ew_size _ Hwa).
  destruct (Z.leb_spec (ext_base e) (ext_base a)); simpl.
  - split_and!; done || lia.
  - split_and!; try done. apply IH; try done; [lia|set_solver].
Qed.

Fixpoint all_apart (l : list Extent) : Prop :=
  match l with
  | [] => True
  | e :: l => (∀ a, a ∈ l → apart e a) ∧ all_apart l
  end.

Lemma ordered_sort lo l :
  all_apart l → (∀ e, e ∈ l → ext_wf e ∧ lo ≤ ext_base e) → ordered lo (sort_by_base l).
Proof.
  induction l as [|a l IH]; simpl; [done|]. intros [Ha Hl] Hwf.
  apply ordered_insert; [apply IH; [done|set_solver]|set_solver|set_solver|].
  intros b Hb. apply Ha. clear -Hb. induction l as [|c l IH]; simpl in *; [done|].
  apply elem_of_insert in Hb. set_solver.
Qed.

Lemma ordered_all_apart lo l : ordered lo l → all_apart l.
Proof.
  revert lo. induction l as [|e l IH]; simpl; [done|]. intros lo (?&Hwf&Ho).
  split; [|eauto]. intros a Ha. pose proof (ordered_elem _ _ _ Ho Ha) as []. left.
  apply (ordered_pts (ext_base e + ext_size e) l); [done|]. exists a. split; [done|].
  unfold inside. lia.
Qed.

Lemma all_apart_snoc l e :
  all_apart l → (∀ a, a ∈ l → apart a e) → all_apart (l ++ [e]).
Proof. induction l; simpl; [set_solver|]. intros [? ?] ?. split; set_solver. Qed.

Section coalesce_facts.
Context `{Profile}.

Lemma merge_ext_wf e b :
  ext_wf e → ext_wf b → ext_base e + ext_size e = ext_base b →
  ext_wf (mkExtent (ext_base e) (ext_size e + ext_size b)).
Proof.
  intros [? ? ? ? Ha] [? ? ? ? Hb] ?. split; simpl; try (done || lia).
  unfold aligned in *. rewrite Z.add_mod, Ha, Hb by lia. done.
Qed.

Lemma inside_merge e b x :
  0 < ext_size e → 0 < ext_size b → ext_base e + ext_size e = ext_base b →
  inside x (mkExtent (ext_base e) (ext_size e + ext_size b)) ↔ inside x e ∨ inside x b.
Proof. unfold inside. simpl. lia. Qed.

(** Snoc form of [gapped]: the list ends below [hi]. *)
Lemma gapped_snoc lo l e :
  gapped lo l → (∀ a, a ∈ l → ext_base a + ext_size a < ext_base e) → lo < ext_base e →
  ext_wf e → gapped lo (l ++ [e]).
Proof.
  revert lo. induction l as [|a l IH]; simpl; [done|]. intros lo (?&?&?) Ha Hlo He.
  split_and!; try done. apply IH; try done; set_solver.
Qed.

Lemma merge_loop_ok lo merged last l :
  gapped lo (merged ++ [last]) →
  (∀ a, a ∈ merged → ext_base a + ext_size a < ext_base last) →
  ordered (ext_base last + ext_size last) l →
  ∃ r, merge_loop merged (Some last) l = Done r ∧ gapped lo r ∧
    ∀ x, pts r x ↔ pts (merged ++ [last]) x ∨ pts l x.
Proof.
  revert merged last. induction l as [|e l IH]; intros merged last Hg Hm Ho; simpl.
  { exists (merged ++ [last]). split_and!; [done..|]. intros x. rewrite pts_nil. tauto. }
  destruct Ho as (Hle&He&Ho).
  assert (Hlast : ext_wf last).
  { apply (ordered_elem lo (merged ++ [last])); [by apply gapped_ordered|set_solver]. }
  assert (Hlo : lo < ext_base last).
  { clear -Hg. destruct merged; [apply Hg|]. destruct Hg as (?&Hw&Hg).
    pose proof Hg as Hg'. apply gapped_ordered in Hg'.
    assert (pts (merged ++ [last]) (ext_base last)) as Hp.
    { exists last. split; [set_solver|].
      apply ordered_elem with (e := last) in Hg'; [|set_solver]. destruct Hg'. unfold inside. lia. }
    apply (gapped_pts _ _ _ Hg) in Hp. destruct Hw. lia. }
  rewrite (ext_end_wf last Hlast). cbn [mbind outcome_bind unwrap].
  destruct (Z.eqb_spec (ext_base last + ext_size last) (ext_base e)) as [Heq|Hne].
  - pose proof (merge_ext_wf last e Hlast He Heq) as Hmw.
    assert (checked_add (ext_size last) (ext_size e) = Some (ext_size last + ext_size e)) as ->.
    { apply checked_add_Some. destruct Hlast, He. lia. }
    cbn [mbind outcome_bind unwrap].
    destruct (IH merged (mkExtent (ext_base last) (ext_size last + ext_size e))) as (r&Hr&Hrg&Hrp).
    + assert (Hgm : gapped lo merged).
      { clear -Hg. revert lo Hg. induction merged; simpl; naive_solver. }
      apply gapped_snoc; done.
    + done.
    + simpl. apply (ordered_weaken (ext_base e + ext_size e)); [lia|done].
    + exists r. split_and!; try done. intros x. rewrite Hrp, !pts_app, !pts_cons, pts_nil.
      rewrite (inside_merge last e) by (done || apply He || apply Hlast). tauto.
  - unfold debug_assert. rewrite (proj2 (Z.ltb_lt _ _)) by lia. rewrite andb_false_r.
    cbn [mbind outcome_bind].
    destruct (IH (merged ++ [last]) e) as (r&Hr&Hrg&Hrp).
    + apply gapped_snoc; [done|..|done].
      * intros a Ha. apply elem_of_app in Ha as [Ha|Ha]; [specialize (Hm a Ha); destruct Hlast; lia|].
        apply list_elem_of_singleton in Ha as ->. lia.
      * destruct Hlast. lia.
    + intros a Ha. apply elem_of_app in Ha as [Ha|Ha]; [specialize (Hm a Ha); destruct Hlast; lia|].
      apply list_elem_of_singleton in Ha as ->. lia.
    + done.
    + exists r. split_and!; try done. intros x. rewrite Hrp, !pts_app, !pts_cons, pts_nil. tauto.
Qed.

(** Inserting an extent that the free list does not cover: no panic in either
    build, a coalesced list, and the union of the addresses. *)
Lemma coalesce_ok lo l e :
  gapped lo l → ext_wf e → lo < ext_base e → (∀ a, a ∈ l → apart a e) →
  ∃ r, merge_loop [] None (sort_by_base (l ++ [e])) = Done r ∧ gapped lo r ∧
    ∀ x, pts r x ↔ pts l x ∨ inside x e.
Proof.
  intros Hg He Hlo Ha.
  assert (Ho : ordered (lo + 1) (sort_by_base (l ++ [e]))).
  { apply ordered_sort.
    - apply all_apart_snoc; [|done]. by eapply ordered_all_apart, gapped_ordered.
    - intros b Hb. apply elem_of_app in Hb as [Hb|Hb].
      + pose proof (ordered_elem _ _ _ (gapped_ordered _ _ Hg) Hb) as Hw. split; [done|].
        assert (lo < ext_base b); [|lia]. apply (gapped_pts lo l); [done|]. exists b.
        split; [done|]. destruct Hw. unfold inside. lia.
      + apply list_elem_of_singleton in Hb as ->. split; [done|lia]. }
  assert (Hp : ∀ x, pts (sort_by_base (l ++ [e])) x ↔ pts l x ∨ inside x e).
  { intros x. rewrite pts_sort, pts_app, pts_cons, pts_nil. tauto. }
  destruct (sort_by_base (l ++ [e])) as [|f k] eqn:Hs.
  { exfalso. apply (pts_nil (ext_base e)), Hp. right. destruct He. unfold inside. lia. }
  destruct Ho as (?&Hf&Ho). destruct (merge_loop_ok lo [] f k) as (r&Hr&Hrg&Hrp).
  - simpl. split_and!; done || lia.
  - set_solver.
  - done.
  - exists r. split_and!; [done..|]. intros x. rewrite Hrp, <- Hp, pts_cons. simpl.
    rewrite pts_cons, pts_nil. tauto.
Qed.
End coalesce_facts.

(** ** First fit *)
Lemma position_Some {A} (p : A → bool) l i :
  position p l = Some i → ∃ x, l !! i = Some x ∧ p x = true.
Proof.
  revert i. induction l as [|a l IH]; simpl; [done|]. intros i.
  destruct (p a) eqn:E; [intros; guards; eauto|].
  destruct (position p l) as [j|]; simpl; [|done]. intros. guards. eauto.
Qed.

Lemma position_None {A} (p : A → bool) l x : position p l = None → x ∈ l → p x = false.
Proof.
  induction l as [|a l IH]; simpl; [set_solver|].
  destruct (p a) eqn:E; [done|]. destruct (position p l); simpl; [done|].
  intros _ Hx. apply elem_of_cons in Hx as [->|]; auto.
Qed.

Lemma gapped_app lo l k :
  gapped lo (l ++ k) → gapped lo l ∧
  ∃ hi, lo ≤ hi ∧ gapped hi k ∧ ∀ e, e ∈ l → ext_base e + ext_size e ≤ hi.
Proof.
  revert lo. induction l as [|a l IH]; simpl; intros lo Hg.
  - split; [done|]. exists lo. split_and!; [lia|done|set_solver].
  - destruct Hg as (?&Ha&Hg). destruct (IH _ Hg) as (?&hi&?&?&Hl).
    pose proof (ew_size _ Ha). split; [done|]. exists hi. split_and!; [lia|done|].
    intros e He. apply elem_of_cons in He as [->|]; [lia|auto].
Qed.

Lemma gapped_app_2 lo hi l k :
  gapped lo l → gapped hi k → lo ≤ hi → (∀ e, e ∈ l → ext_base e + ext_size e ≤ hi) →
  gapped lo (l ++ k).
Proof.
  revert lo. induction l as [|a l IH]; simpl; intros lo Hl Hk Hlo He.
  - by apply (gapped_weaken hi).
  - destruct Hl as (?&?&?). split_and!; [done..|]. apply IH; try done; [apply He|]; set_solver.
Qed.

(** Cutting the first [n] bytes off one hole. *)
Definition cut (l1 : list Extent) (slot : Extent) (l2 : list Extent) (n : Z) : list Extent :=
  if n =? ext_size slot then l1 ++ l2
  else l1 ++ mkExtent (ext_base slot + n) (ext_size slot - n) :: l2.

Lemma aligned_add x y : aligned x → aligned y → aligned (x + y).
Proof. unfold aligned. intros Hx Hy. by rewrite Z.add_mod, Hx, Hy by lia. Qed.
Lemma aligned_sub x y : aligned x → aligned y → aligned (x - y).
Proof. unfold aligned. intros Hx Hy. by rewrite Zminus_mod, Hx, Hy by lia. Qed.

Lemma gapped_cut lo l1 slot l2 n :
  gapped lo (l1 ++ slot :: l2) → 0 < n ≤ ext_size slot → aligned n →
  gapped lo (cut l1 slot l2 n) ∧
  ∀ x, pts (cut l1 slot l2 n) x ↔
    pts (l1 ++ slot :: l2) x ∧ ¬ inside x (mkExtent (ext_base slot) n).
Proof.
  intros Hg Hn Han. destruct (gapped_app _ _ _ Hg) as (H1&hi&Hlo&(Hhi&Hs&H2)&He).
  assert (Hbelow : ∀ x, pts l1 x → x < ext_base slot).
  { intros x (e&Hel&Hx). specialize (He e Hel). unfold inside in Hx. lia. }
  assert (Habove : ∀ x, pts l2 x → ext_base slot + ext_size slot < x).
  { intros x. by apply gapped_pts. }
  pose proof (ew_size _ Hs).
  unfold cut. destruct (Z.eqb_spec n (ext_size slot)) as [->|Hne]; split.
  - apply (gapped_app_2 lo hi); try done.
    apply (gapped_weaken (ext_base slot + ext_size slot)); [lia|done].
  - intros x. rewrite !pts_app, !pts_cons. specialize (Hbelow x). specialize (Habove x).
    unfold inside. simpl. intuition lia.
  - apply (gapped_app_2 lo hi); try done. simpl. destruct Hs. split_and!.
    + lia.
    + split; simpl; try lia; [by apply aligned_add|by apply aligned_sub].
    + by replace (ext_base slot + n + (ext_size slot - n)) with (ext_base slot + ext_size slot) by lia.
  - intros x. rewrite !pts_app, !pts_cons. specialize (Hbelow x). specialize (Habove x).
    unfold inside. simpl. destruct (decide (x < ext_base slot + n)); intuition lia.
Qed.

(** A contiguous free range lies in one hole, so that first fit misses none. *)
Lemma gapped_end lo l e : gapped lo l → e ∈ l → ¬ pts l (ext_base e + ext_size e).
Proof.
  intros Hg He Hp. apply list_elem_of_split in He as (l1&l2&->).
  destruct (gapped_app _ _ _ Hg) as (_&hi&?&(?&Hs&H2)&He).
  rewrite pts_app, pts_cons in Hp. destruct Hs. destruct Hp as [(a&Ha&Hx)|[Hx|Hx]].
  - specialize (He a Ha). unfold inside in Hx. lia.
  - unfold inside in Hx. lia.
  - apply (gapped_pts _ _ _ H2) in Hx. lia.
Qed.

Lemma gapped_contiguous lo l b n :
  gapped lo l → 0 < n → (∀ x, b ≤ x < b + n → pts l x) → ∃ e, e ∈ l ∧ n ≤ ext_size e.
Proof.
  intros Hg Hn Hx. destruct (Hx b ltac:(lia)) as (e&He&Hb). exists e. split; [done|].
  destruct (decide (n ≤ ext_size e)) as [|Hlt]; [done|exfalso]. unfold inside in Hb.
  apply (gapped_end lo l e Hg He), Hx. lia.
Qed.

(** ** The manager's invariant *)
Definition owned (A : gmap Z Extent) (x : Z) : Prop := ∃ o e, A !! o = Some e ∧ inside x e.

(** The free list is coalesced; allocated extents are page-aligned, lie in the
    pool and are pairwise disjoint; every pool address is either free or owned. *)
Record mgr_wf (m : PhysicalPlacementManager) : Prop := {
  mw_mode : pm_bounded m = None;
  mw_pool : ext_wf (pm_pool m);
  mw_gap : gapped (ext_base (pm_pool m) - 1) (pm_free m);
  mw_alloc o e : pm_allocated m !! o = Some e → ext_wf e ∧ within e (pm_pool m);
  mw_apart o o' e e' : o ≠ o' → pm_allocated m !! o = Some e →
    pm_allocated m !! o' = Some e' → apart e e';
  mw_part x : pts (pm_free m) x ↔ inside x (pm_pool m) ∧ ¬ owned (pm_allocated m) x;
  mw_committed o : o ∈ pm_committed m → is_Some (pm_allocated m !! o);
}.

Lemma owned_insert A o e x :
  A !! o = None → owned (<[o := e]> A) x ↔ inside x e ∨ owned A x.
Proof.
  intros Ho. unfold owned. split.
  - intros (o'&e'&Hl&Hx). apply lookup_insert_Some in Hl as [[<- <-]|[? ?]]; eauto.
  - intros [Hx|(o'&e'&Hl&Hx)].
    + exists o, e. by rewrite lookup_insert_eq.
    + exists o', e'. rewrite lookup_insert_ne; [done|]. congruence.
Qed.

Lemma allocate_inv m o req m' e :
  mgr_wf m → is_u64 req → allocate m o req = Done (Ok (m', e)) →
  ∃ l1 slot l2, pm_free m = l1 ++ slot :: l2 ∧ page_ceil req = Ok (ext_size e) ∧
    ext_base e = ext_base slot ∧ 0 < ext_size e ≤ ext_size slot ∧ aligned (ext_size e) ∧
    pm_allocated m !! o = None ∧
    m' = set_allocated (<[o := e]> (pm_allocated m)) (set_free (cut l1 slot l2 (ext_size e)) m).
Proof.
  intros Hwf Hreq Ha. unfold allocate in Ha. rewrite (mw_mode m Hwf) in Ha. simpl in Ha.
  destruct (pm_allocated m !! o) eqn:Ho; [discriminate|]. simpl in Ha.
  destruct (page_ceil req) as [size|] eqn:Hpc; [|discriminate]. simpl in Ha.
  destruct (position _ (pm_free m)) as [i|] eqn:Hi; [|discriminate]. simpl in Ha.
  apply position_Some in Hi as (slot&Hs&Hfit). bools. unfold vec_get in Ha. rewrite Hs in Ha.
  simpl in Ha. apply (page_ceil_Ok req size Hreq) in Hpc as Hsz. destruct Hsz as (?&?&?&?&?).
  pose proof (list_elem_of_split_length _ _ _ Hs) as (l1&l2&Hfree&Hlen).
  assert (Hsw : ext_wf slot).
  { eapply ordered_elem; [by apply gapped_ordered, (mw_gap m Hwf)|]. rewrite Hfree. set_solver. }
  unfold ext_end at 1, checked_add in Ha. simpl in Ha. pose proof (ew_end _ Hsw).
  rewrite (proj2 (Z.ltb_lt _ _)) in Ha by lia. simpl in Ha.
  rewrite (ext_end_wf _ Hsw) in Ha. simpl in Ha.
  rewrite (proj2 (Z.ltb_ge _ _)) in Ha by lia.
  unfold vec_remove, vec_set in Ha. rewrite (proj2 (Nat.ltb_lt _ _)) in Ha
    by (by eapply lookup_lt_Some). subst i.
  exists l1, slot, l2.
  assert (Hcut : (if size =? ext_size slot then Done (take (length l1) (pm_free m) ++ drop (S (length l1)) (pm_free m))
    else Done (<[length l1 := mkExtent (ext_base slot + size)
           (ext_base slot + ext_size slot - (ext_base slot + size))]> (pm_free m)))
    = Done (cut l1 slot l2 size)).
  { unfold cut. rewrite Hfree. destruct (Z.eqb_spec size (ext_size slot)); f_equal.
    - rewrite take_app_length. f_equal. rewrite <- Nat.add_1_r, <- drop_drop, drop_app_length. done.
    - rewrite insert_app_r_alt by lia. rewrite Nat.sub_diag. simpl. do 2 f_equal. f_equal; lia. }
  rewrite Hcut in Ha. simpl in Ha. guards. simpl. split_and!; done || lia.
Qed.

Lemma elem_within lo (l : list Extent) P e :
  gapped lo l → (∀ x, pts l x → P x) → e ∈ l → ∀ x, inside x e → P x.
Proof. intros _ HP He x Hx. apply HP. by exists e. Qed.

Lemma allocate_wf m o req m' e :
  mgr_wf m → is_u64 req → allocate m o req = Done (Ok (m', e)) →
  mgr_wf m' ∧ (∀ x, inside x e → pts (pm_free m) x).
Proof.
  intros Hwf Hreq Ha.
  destruct (allocate_inv _ _ _ _ _ Hwf Hreq Ha) as (l1&slot&l2&Hfree&_&Hb&Hsz&Hal&Ho&->).
  pose proof (mw_gap m Hwf) as Hg. rewrite Hfree in Hg.
  assert (Hslot : ext_wf slot).
  { eapply ordered_elem; [by apply gapped_ordered|]. set_solver. }
  assert (He : ext_wf e).
  { destruct Hslot. split; rewrite ?Hb; try (done || lia). }
  destruct (gapped_cut _ _ _ _ _ Hg Hsz Hal) as [Hcut Hpts].
  assert (Hin : ∀ x, inside x e → pts (pm_free m) x).
  { intros x Hx. exists slot. rewrite Hfree. split; [set_solver|]. unfold inside in *. lia. }
  assert (He' : mkExtent (ext_base slot) (ext_size e) = e) by (destruct e; simpl in *; congruence).
  rewrite He' in Hpts. split; [|done].
  assert (Hwithin : within e (pm_pool m)).
  { assert (H1 : inside (ext_base e) (pm_pool m)).
    { apply (mw_part m Hwf), Hin. unfold inside. lia. }
    assert (H2 : inside (ext_base e + ext_size e - 1) (pm_pool m)).
    { apply (mw_part m Hwf), Hin. unfold inside. lia. }
    unfold within, inside in *. lia. }
  assert (Hfresh : ∀ o' e', pm_allocated m !! o' = Some e' → apart e e').
  { intros o' e' Ho'. apply inside_apart; [lia| |].
    - by apply (mw_alloc m Hwf) in Ho' as [[] _].
    - intros x Hx Hx'. apply Hin, (mw_part m Hwf) in Hx as [_ Hn]. apply Hn. by exists o', e'. }
  split; simpl.
  - apply Hwf.
  - apply Hwf.
  - done.
  - intros o' e' Hl. apply lookup_insert_Some in Hl as [[<- <-]|[_ Hl]]; [done|].
    by apply (mw_alloc m Hwf) in Hl.
  - intros o1 o2 e1 e2 Hne H1 H2.
    apply lookup_insert_Some in H1 as [[<- <-]|[_ H1]], H2 as [[<- <-]|[_ H2]];
      [done|by eapply Hfresh|apply Hfresh in H1; unfold apart in *; lia|].
    by apply (mw_apart m Hwf o1 o2).
  - intros x. rewrite Hpts, <- Hfree, (mw_part m Hwf), owned_insert by done. tauto.
  - intros o' Ho'. apply (mw_committed m Hwf) in Ho'.
    destruct (decide (o = o')) as [->|]; [by rewrite lookup_insert_eq|by rewrite lookup_insert_ne].
Qed.

(** C36: First-fit allocation is total and correct on every well-formed manager:
    it never panics; on success it reserves a page-rounded extent taken from the
    free addresses for a fresh owner and keeps the pool partitioned into
    disjoint extents; and each error has exactly its documented cause, where
    [OutOfMemory] means that no contiguous free range of the rounded size exists
    anywhere in the pool. *)
Theorem allocate_correct m o req :
  mgr_wf m → is_u64 req →
  match allocate m o req with
  | Done (Ok (m', e)) =>
      mgr_wf m' ∧ page_ceil req = Ok (ext_size e) ∧ pm_allocated m !! o = None ∧
      pm_allocated m' = <[o := e]> (pm_allocated m) ∧
      (∀ x, inside x e → pts (pm_free m) x)
  | Done (Err OwnerAlreadyAllocated) => is_Some (pm_allocated m !! o)
  | Done (Err OutOfMemory) => ∃ size, page_ceil req = Ok size ∧
      ∀ b, ¬ (∀ x, b ≤ x < b + size → pts (pm_free m) x)
  | Done (Err e) => page_ceil req = Err e
  | Panic => False
  end.
Proof.
  intros Hwf Hreq. destruct (allocate m o req) as [[[m' e]|er]|] eqn:Ha.
  - destruct (allocate_inv _ _ _ _ _ Hwf Hreq Ha) as (l1&slot&l2&_&?&_&_&_&?&Hm').
    destruct (allocate_wf _ _ _ _ _ Hwf Hreq Ha). split_and!; try done. by rewrite Hm'.
  - unfold allocate in Ha. rewrite (mw_mode m Hwf) in Ha. simpl in Ha.
    destruct (pm_allocated m !! o) eqn:Ho; simpl in Ha; [by guards|].
    destruct (page_ceil req) as [size|e'] eqn:Hpc; simpl in Ha;
      [|apply page_ceil_Err in Hpc as He; guards; by destruct He as [->| ->]].
    pose proof (page_ceil_Ok req size Hreq Hpc) as (?&?&?&?&?).
    destruct (position _ (pm_free m)) as [i|] eqn:Hi; simpl in Ha.
    + apply position_Some in Hi as (slot&Hs&Hfit). bools. unfold vec_get in Ha. rewrite Hs in Ha.
      assert (Hsw : ext_wf slot).
      { eapply ordered_elem; [by apply gapped_ordered, (mw_gap m Hwf)|]. by eapply list_elem_of_lookup_2. }
      pose proof (ew_end _ Hsw). unfold ext_end at 1, checked_add in Ha. simpl in Ha.
      rewrite (proj2 (Z.ltb_lt _ _)) in Ha by lia. simpl in Ha.
      rewrite (ext_end_wf _ Hsw) in Ha. simpl in Ha. rewrite (proj2 (Z.ltb_ge _ _)) in Ha by lia.
      unfold vec_remove, vec_set in Ha. rewrite (proj2 (Nat.ltb_lt _ _)) in Ha
        by (by eapply lookup_lt_Some). by destruct (size =? ext_size slot).
    + guards. exists size. split; [done|]. intros b Hb.
      destruct (gapped_contiguous _ _ b size (mw_gap m Hwf)) as (e&He&Hle); [lia|done|].
      apply (position_None _ _ e) in Hi; [|done]. simpl in Hi. bools. lia.
  - unfold allocate in Ha. rewrite (mw_mode m Hwf) in Ha. simpl in Ha.
    destruct (pm_allocated m !! o); [done|]. simpl in Ha.
    destruct (page_ceil req) as [size|] eqn:Hpc; simpl in Ha; [|done].
    destruct (position _ (pm_free m)) as [i|] eqn:Hi; simpl in Ha; [|done].
    apply position_Some in Hi as (slot&Hs&_). unfold vec_get in Ha. rewrite Hs in Ha. simpl in Ha.
    unfold vec_remove, vec_set in Ha. rewrite (proj2 (Nat.ltb_lt _ _)) in Ha
      by (by eapply lookup_lt_Some). unfold try_, ok_or, err, ok, mbind, outcome_bind in Ha.
    repeat case_match; done.
Qed.

(** ** Release *)
Section release.
Context `{Profile}.

Lemma release_ok m o e :
  mgr_wf m → pm_allocated m !! o = Some e → o ∉ pm_committed m →
  ∃ m', release_reservation m o = Done (Ok (m', e)) ∧ mgr_wf m' ∧
    pm_allocated m' = delete o (pm_allocated m) ∧ pm_pool m' = pm_pool m ∧
    pm_committed m' = pm_committed m ∧ pm_capacity m' = pm_capacity m ∧
    (∀ x, pts (pm_free m') x ↔ pts (pm_free m) x ∨ inside x e).
Proof.
  intros Hwf Ho Hc. unfold release_reservation. rewrite bool_decide_eq_false_2 by done.
  rewrite Ho. simpl. destruct (mw_alloc m Hwf o e Ho) as [He Hin].
  assert (Hapart : ∀ a, a ∈ pm_free m → apart a e).
  { intros a Ha. apply inside_apart.
    - by apply (ordered_elem (ext_base (pm_pool m) - 1) (pm_free m)) in Ha as [];
        [|apply gapped_ordered, Hwf].
    - apply He.
    - intros x Hx Hx'. assert (Hp : pts (pm_free m) x) by (by exists a).
      apply (mw_part m Hwf) in Hp as [_ Hn]. apply Hn. by exists o, e. }
  destruct (coalesce_ok (ext_base (pm_pool m) - 1) (pm_free m) e (mw_gap m Hwf) He)
    as (r&Hr&Hg&Hp); [unfold within in Hin; lia|done|].
  unfold insert_free_and_coalesce. simpl.
  assert (valid_extent e = true) as Hv.
  { apply valid_extent_wf; [apply He|destruct He; lia|done]. }
  unfold debug_assert. rewrite Hv, andb_false_r. simpl. rewrite Hr. simpl.
  eexists. split; [done|]. split_and!; try done.
  split; simpl; try apply Hwf; try done.
  - intros o' e' Hl. apply lookup_delete_Some in Hl as [_ Hl]. by apply (mw_alloc m Hwf) in Hl.
  - intros o1 o2 e1 e2 Hne H1 H2. apply lookup_delete_Some in H1 as [_ H1], H2 as [_ H2].
    by apply (mw_apart m Hwf o1 o2).
  - intros x. rewrite Hp, (mw_part m Hwf). split.
    + intros [[Hx Hn]|Hx].
      * split; [done|]. intros (o'&e'&Hl&Hx'). apply lookup_delete_Some in Hl as [_ Hl].
        apply Hn. by exists o', e'.
      * split; [unfold within, inside in *; lia|]. intros (o'&e'&Hl&Hx').
        apply lookup_delete_Some in Hl as [Hne Hl].
        by apply (apart_inside e e' x); [apply (mw_apart m Hwf o o')|..].
    + intros [Hx Hn]. destruct (decide (inside x e)) as [|Hne]; [by right|left].
      split; [done|]. intros (o'&e'&Hl&Hx'). apply Hn. exists o', e'. split; [|done].
      apply lookup_delete_Some. split; [|done]. intros ->. congruence.
  - intros o' Ho'. destruct (mw_committed m Hwf o' Ho') as [e' He'].
    rewrite lookup_delete_ne; [by exists e'|]. intros ->. done.
Qed.

(** Allocation followed by release of the same uncommitted owner restores the
    manager exactly, including the order and the coalescing of its free list, in
    debug and in release builds: a failed placement leaves no trace. *)
Theorem allocate_release_exact m o req m' e :
  mgr_wf m → is_u64 req → o ∉ pm_committed m →
  allocate m o req = Done (Ok (m', e)) →
  release_reservation m' o = Done (Ok (m, e)).
Proof.
  intros Hwf Hreq Hc Ha. destruct (allocate_wf _ _ _ _ _ Hwf Hreq Ha) as [Hwf' Hfrom].
  destruct (allocate_inv _ _ _ _ _ Hwf Hreq Ha) as (l1&slot&l2&_&_&_&_&_&Ho&Hm').
  destruct (release_ok m' o e Hwf') as (m''&Hr&Hwf''&Halloc&Hpool&Hcomm&Hcap&Hpts).
  { by rewrite Hm'; simpl; rewrite lookup_insert_eq. }
  { by rewrite Hm'. }
  rewrite Hr. do 3 f_equal.
  assert (Hfree : pm_free m'' = pm_free m).
  { eapply gapped_canonical; [apply Hwf''|apply Hwf|]. intros x. rewrite Hpts.
    rewrite (mw_part m' Hwf'), Hm'. simpl. rewrite owned_insert, (mw_part m Hwf) by done.
    specialize (Hfrom x). rewrite (mw_part m Hwf) in Hfrom.
    destruct (decide (inside x e)); tauto. }
  rewrite Hm' in *. simpl in *. rewrite delete_insert_id in Halloc by done.
  pose proof (mw_mode _ Hwf). pose proof (mw_mode _ Hwf'').
  destruct m, m''. simpl in *. congruence.
Qed.
End release.

(** ** A fresh manager *)
Lemma manager_new_wf b n m :
  0 ≤ b → 0 ≤ n → manager_new b n = Ok m → mgr_wf m.
Proof.
  intros Hb Hn. unfold manager_new. destruct (valid_extent (mkExtent b n)) eqn:Hv; [|done].
  apply valid_extent_wf in Hv; [|done..]. simpl. intros [= <-].
  split; simpl; try done.
  - split_and!; done || lia.
  - intros x. rewrite pts_cons, pts_nil. unfold owned. split; [|tauto].
    intros [Hx|[]]. split; [done|]. intros (o&e&Hl&_). by rewrite lookup_empty in Hl.
Qed.

Definition demo_manager : PhysicalPlacementManager :=
  mkManager (mkExtent 4096 16384) [mkExtent 4096 16384] ∅ ∅ None 1.

Lemma demo_manager_wf : mgr_wf demo_manager.
Proof. apply (manager_new_wf 4096 16384); [lia|lia|reflexivity]. Qed.

Lemma allocate_correct_witness :
  page_ceil 5000 = Ok 8192 ∧
  match allocate demo_manager 7 5000 with
  | Done (Ok (m', e)) => mgr_wf m' ∧ page_ceil 5000 = Ok (ext_size e)
  | _ => False
  end.
Proof.
  split; [reflexivity|].
  pose proof (allocate_correct demo_manager 7 5000 demo_manager_wf
    ltac:(unfold is_u64, U64; lia)) as H.
  revert H. vm_compute (allocate demo_manager 7 5000). intros (H1&H2&_). exact (conj H1 H2).
Defined.

Lemma allocate_release_exact_witness :
  let P : Profile := true in
  ∃ m' e, allocate demo_manager 7 5000 = Done (Ok (m', e)) ∧
    release_reservation m' 7 = Done (Ok (demo_manager, e)).
Proof.
  intros P. destruct (allocate demo_manager 7 5000) as [[[m' e]|er]|] eqn:E.
  - exists m', e. split; [reflexivity|].
    apply (allocate_release_exact demo_manager 7 5000 m' e demo_manager_wf
      ltac:(unfold is_u64, U64; lia)); [set_solver|exact E].
  - exfalso. vm_compute in E. discriminate E.
  - exfalso. vm_compute in E. discriminate E.
Defined.
