(* ===== verification/Registry.v ===== *)
(** * The protected pointer registry: [src/anka64/scoped_pointers.rs]

    Slots, scopes and the heap ledger they share, the operations on local
    allocations, and the constructors ([scoped_pointers/heap.rs],
    [RegistryLimits]).  The heap operations on the same state are in
    [HeapLedger]. *)

From S2P Require Import Prelude State Extents.

Inductive PointerError :=
| Exhausted | InvalidScope | InvalidRange | Stale | PDomain | Rights | Bounds.
#[export] Instance PointerError_eq_dec : EqDecision PointerError.
Proof. solve_decision. Defined.

(** [Scope(u64)] *)
Abbreviation Scope := Z (only parsing).

Record ScopedPointer := mkPointer { ptr_slot : nat; ptr_generation : Z; ptr_position : Z }.
#[export] Instance ScopedPointer_eq_dec : EqDecision ScopedPointer.
Proof. solve_decision. Defined.

(** [ScopedPointer::words] *)
Definition words (p : ScopedPointer) : Z * Z :=
  (Z.lor (wrap64 (Z.shiftl (ptr_generation p) 32)) (Z.of_nat (ptr_slot p) + 1), ptr_position p).

Record PointerBacking := mkBacking {
  pb_object : ObjectId;
  pb_generation : Generation;
  pb_offset : Z;
}.
#[export] Instance PointerBacking_eq_dec : EqDecision PointerBacking.
Proof. solve_decision. Defined.

Record LocalAllocation := mkLocal {
  la_scope : Scope;
  la_domain : Z;
  la_base : Z;
  la_length : Z;
  la_writable : bool;
  la_backing : option PointerBacking;
}.

(** ** Heap records ([scoped_pointers/heap.rs] and its submodules) *)
Record AllocationOwner := mkOwner {
  ao_process : ProcessKey;
  ao_context : Z;
  ao_domain : DomainId;
}.
#[export] Instance AllocationOwner_eq_dec : EqDecision AllocationOwner.
Proof. solve_decision. Defined.

Record OwnerAccount := mkAccountToken { oa_index : nat; oa_serial : Z }.
#[export] Instance OwnerAccount_eq_dec : EqDecision OwnerAccount.
Proof. solve_decision. Defined.

Record HeapReservation := mkReservation {
  hr_slot : nat;
  hr_generation : Z;
  hr_job : Z;
  hr_owner : OwnerAccount;
}.
#[export] Instance HeapReservation_eq_dec : EqDecision HeapReservation.
Proof. solve_decision. Defined.

Record HeapExtents := mkHeapExtents { he_physical : Extent; he_virtual : Extent }.
#[export] Instance HeapExtents_eq_dec : EqDecision HeapExtents.
Proof. solve_decision. Defined.

Record HeapRecord := mkHeapRecord {
  hrec_owner : OwnerAccount;
  hrec_logical : Z;
  hrec_rounded : Z;
  hrec_cleanup : nat;
  hrec_published : bool;
  hrec_writable : bool;
  hrec_ever_attached : bool;
  hrec_extents : option HeapExtents;
}.

Record Account := mkAccount {
  acc_token : OwnerAccount;
  acc_owner : AllocationOwner;
  acc_closed : bool;
  acc_limit : Z;
  acc_reserved : Z;
}.

(** ** Slots and scopes *)
Inductive SlotState := SFree | SReserved | SLive | SClosing | SExhausted | SRetired.
#[export] Instance SlotState_eq_dec : EqDecision SlotState.
Proof. solve_decision. Defined.

Inductive SlotRecord :=
| REmpty
| RLocal (a : LocalAllocation)
| RHeap (h : HeapRecord).

Record Slot := mkSlot { slot_generation : Z; slot_state : SlotState; slot_record : SlotRecord }.

(** [Slot::EMPTY] and [Slot::release] *)
Definition slot_empty : Slot := mkSlot 0 SFree REmpty.
Definition slot_release (s : Slot) : Slot :=
  mkSlot (slot_generation s)
    (if slot_generation s =? u32_max then SExhausted else SFree) (slot_record s).

Record LocalFrameBacking := mkFrameBacking { lfb_backing : PointerBacking; lfb_length : Z }.

Record ScopeRecord := mkScope {
  sc_scope : Scope;
  sc_owner : Z;
  sc_frame : option LocalFrameBacking;
}.

(** ** Cleanup, workers and host storage *)
Record CleanupWorkerIdentity := mkWorkerIdentity {
  wi_process : ProcessKey;
  wi_context : Z;
  wi_domain : DomainId;
}.
Record CleanupWorker := mkWorker { cw_row : Z; cw_serial : Z }.
#[export] Instance CleanupWorker_eq_dec : EqDecision CleanupWorker.
Proof. solve_decision. Defined.
Inductive WorkerState := WActive | WFenced.
Record WorkerRecord := mkWorkerRecord {
  wr_handle : CleanupWorker;
  wr_identity : CleanupWorkerIdentity;
  wr_state : WorkerState;
}.
Inductive JobLease :=
| Unowned (epoch : Z)
| Held (epoch : Z) (worker : CleanupWorker)
| Revoking (epoch : Z) (worker : CleanupWorker).
Inductive HeapScrubProgress := Pending | Scrubbing (done : Z) | Clean.

Record CleanupRecord := mkCleanup {
  cr_reservation : HeapReservation;
  cr_queued : bool;
  cr_lease : JobLease;
  cr_version : Z;
  cr_sequence : Z;
  cr_progress : HeapScrubProgress;
}.

Record HostStorageReservation := mkHostReservation {
  hsr_row : nat;
  hsr_identity : Z;
  hsr_account : OwnerAccount;
}.
#[export] Instance HostStorageReservation_eq_dec : EqDecision HostStorageReservation.
Proof. solve_decision. Defined.
Record HostStorageRecord := mkHostStorage {
  hs_token : HostStorageReservation;
  hs_logical : Z;
  hs_rounded : Z;
}.

Record HeapPlacement := mkHeapPlacement {
  hp_physical : PhysicalPlacementManager;
  hp_virtual_arenas : list VirtualLayoutBuilder;
}.

Record HeapLedger := mkLedger {
  hl_accounts : list (option Account);
  hl_cleanup : list (option CleanupRecord);
  hl_workers : list (option WorkerRecord);
  hl_host_storage : list (option HostStorageRecord);
  hl_next_worker : Z;
  hl_next_owner : Z;
  hl_next_job : Z;
  hl_revision : Z;
  hl_fixed_bytes : Z;
  hl_reserved_bytes : Z;
  hl_limit : Z;
  hl_placement : option HeapPlacement;
}.

(** [HeapLedger::advance] *)
Definition ledger_advance (h : HeapLedger) : HeapLedger :=
  mkLedger (hl_accounts h) (hl_cleanup h) (hl_workers h) (hl_host_storage h)
    (hl_next_worker h) (hl_next_owner h) (hl_next_job h)
    (saturating_add (hl_revision h) 1)
    (hl_fixed_bytes h) (hl_reserved_bytes h) (hl_limit h) (hl_placement h).

Inductive Resource :=
| GlobalBytes | OwnerBytes | Slots | Owners | Cleanup | Workers | WorkTickets
| BackendRequests | HostStorage | Identity.
#[export] Instance Resource_eq_dec : EqDecision Resource.
Proof. solve_decision. Defined.

Inductive HeapError :=
| HConfiguration | HHostAllocation | HCapacity (r : Resource) | HSize | HOwner | HClosed
| HStaleReservation | HStaleRevision | HStaleInitialization | HPointer (e : PointerError)
| HMissingKind | HInvalidFree | HBusy | HWorker | HLease | HStaleWork | HWorkState
| HStaleCleanup | HPhysicalPlacement (e : PlacementError) | HVirtualPlacement (e : PlacementError).
#[export] Instance HeapError_eq_dec : EqDecision HeapError.
Proof. solve_decision. Defined.

(** ** The registry *)
Record ScopedPointers := mkRegistry {
  sp_slots : list Slot;
  sp_scopes : list (option ScopeRecord);
  sp_active_slots_end : nat;
  sp_active_scopes_end : nat;
  sp_next_scope : Z;
  sp_heap : HeapLedger;
}.

Definition set_slots (l : list Slot) (r : ScopedPointers) : ScopedPointers :=
  mkRegistry l (sp_scopes r) (sp_active_slots_end r) (sp_active_scopes_end r)
    (sp_next_scope r) (sp_heap r).
Definition set_scopes (l : list (option ScopeRecord)) (r : ScopedPointers) : ScopedPointers :=
  mkRegistry (sp_slots r) l (sp_active_slots_end r) (sp_active_scopes_end r)
    (sp_next_scope r) (sp_heap r).
Definition set_active_slots_end (n : nat) (r : ScopedPointers) : ScopedPointers :=
  mkRegistry (sp_slots r) (sp_scopes r) n (sp_active_scopes_end r) (sp_next_scope r) (sp_heap r).
Definition set_active_scopes_end (n : nat) (r : ScopedPointers) : ScopedPointers :=
  mkRegistry (sp_slots r) (sp_scopes r) (sp_active_slots_end r) n (sp_next_scope r) (sp_heap r).
Definition set_next_scope (n : Z) (r : ScopedPointers) : ScopedPointers :=
  mkRegistry (sp_slots r) (sp_scopes r) (sp_active_slots_end r) (sp_active_scopes_end r) n (sp_heap r).
Definition set_heap (h : HeapLedger) (r : ScopedPointers) : ScopedPointers :=
  mkRegistry (sp_slots r) (sp_scopes r) (sp_active_slots_end r) (sp_active_scopes_end r)
    (sp_next_scope r) h.
Definition heap_advance (r : ScopedPointers) : ScopedPointers :=
  set_heap (ledger_advance (sp_heap r)) r.

(** ** Construction *)
Record RegistryLimits := mkLimits {
  lim_slots : Z;
  lim_scopes : Z;
  lim_owners : Z;
  lim_cleanup : Z;
  lim_global_bytes : Z;
}.

Section construction.
Context `{Host}.

(** [bytes::<T>(count)] *)
Definition heap_bytes (size count : Z) : result HeapError Z :=
  ok_or (checked_mul count size) HConfiguration.

(** [fixed_table]: the contents and the retained capacity. *)
Definition fixed_table {A} (n : Z) (x : A) : result HeapError (list A * Z) :=
  c ← ok_or (reserve_exact n) HHostAllocation;
  mret (replicate (Z.to_nat n) x, c).

(** [try_fold(0, checked_add)] *)
Fixpoint sum_bytes (acc : Z) (l : list Z) : result HeapError Z :=
  match l with
  | [] => Ok acc
  | n :: l => acc' ← ok_or (checked_add acc n) HConfiguration; sum_bytes acc' l
  end.

Definition registry_footprint (slots scopes owners cleanup host : Z) : result HeapError Z :=
  a ← heap_bytes size_of_registry 1;
  b ← heap_bytes size_of_slot slots;
  c ← heap_bytes size_of_opt_scope scopes;
  d ← heap_bytes size_of_opt_account owners;
  e ← heap_bytes size_of_opt_cleanup cleanup;
  f ← heap_bytes size_of_opt_host_storage host;
  sum_bytes 0 [a; b; c; d; e; f].

Definition with_limits (l : RegistryLimits) : result HeapError ScopedPointers :=
  if (u32_max <? lim_slots l) || (u32_max <? lim_cleanup l) then Err HConfiguration
  else
    need ← registry_footprint (lim_slots l) (lim_scopes l) (lim_owners l)
             (lim_cleanup l) (lim_cleanup l);
    if lim_global_bytes l <? need then Err (HCapacity GlobalBytes)
    else
      slots ← fixed_table (lim_slots l) slot_empty;
      scopes ← fixed_table (lim_scopes l) None;
      accounts ← fixed_table (lim_owners l) None;
      cleanup ← fixed_table (lim_cleanup l) None;
      host_storage ← fixed_table (lim_cleanup l) None;
      fixed_bytes ← registry_footprint slots.2 scopes.2 accounts.2 cleanup.2 host_storage.2;
      if lim_global_bytes l <? fixed_bytes then Err (HCapacity GlobalBytes)
      else Ok (mkRegistry slots.1 scopes.1 0 0 1
        (mkLedger accounts.1 cleanup.1 [] host_storage.1 1 1 1 0 fixed_bytes 0
           (lim_global_bytes l) None)).

(** [ScopedPointers::new] *)
Definition registry_new (capacity : Z) : outcome ScopedPointers :=
  let capacity := Z.min capacity u32_max in
  match with_limits (mkLimits capacity capacity 0 0 u64_max) with
  | Ok r => Done r
  | Err _ => Panic
  end.
End construction.

(** ** Scopes *)
Definition active_scopes (r : ScopedPointers) : list ScopeRecord :=
  flatten (take (sp_active_scopes_end r) (sp_scopes r)).

Definition scope_owner (r : ScopedPointers) (scope : Scope) : option Z :=
  sc_owner <$> List.find (λ s, sc_scope s =? scope) (active_scopes r).

Definition is_top (r : ScopedPointers) (scope : Scope) : bool :=
  is_some_and (λ owner,
    negb (existsb (λ s, (sc_owner s =? owner) && (scope <? sc_scope s)) (active_scopes r)))
    (scope_owner r scope).

Definition slot_available (s : Slot) : bool :=
  bool_decide (slot_state s = SFree) && (slot_generation s <? u32_max).

Definition free_slot (r : ScopedPointers) : option nat := position slot_available (sp_slots r).

Definition preflight_frame (r : ScopedPointers) (locals : nat) : result PointerError unit :=
  let mutations := checked_add (Z.of_nat locals) 1 in
  if (sp_next_scope r =? u64_max)
     || negb (existsb (λ s, negb (is_some s)) (sp_scopes r))
     || (length (take locals (List.filter slot_available (sp_slots r))) <? locals)%nat
     || negb (is_some (n ← mutations; checked_add (hl_revision (sp_heap r)) n))
  then Err Exhausted else Ok tt.

Definition enter_scope_for `{Profile} (r : ScopedPointers) (owner : Z) :
    fallible PointerError (ScopedPointers * Scope) :=
  _ ←? preflight_frame r 0;
  index ← unwrap (position (λ s, negb (is_some s)) (sp_scopes r));
  let scope := sp_next_scope r in
  next ← add_u64 (sp_next_scope r) 1;
  scopes ← vec_set index (Some (mkScope scope owner None)) (sp_scopes r);
  ok (heap_advance (set_active_scopes_end (Nat.max (sp_active_scopes_end r) (S index))
        (set_scopes scopes (set_next_scope next r))), scope).

Definition enter_scope `{Profile} (r : ScopedPointers) := enter_scope_for r 0.

(** [scopes.iter_mut().flatten().find(..)] as an update of the first match. *)
Fixpoint update_first {A} (p : A → bool) (f : A → A) (l : list A) : list A :=
  match l with
  | [] => []
  | x :: l => if p x then f x :: l else x :: update_first p f l
  end.

Definition bind_frame (r : ScopedPointers) (scope : Scope) (frame : LocalFrameBacking) :
    outcome ScopedPointers :=
  record ← unwrap (List.find (λ s, sc_scope s =? scope) (flatten (sp_scopes r)));
  _ ← assert_ (negb (is_some (sc_frame record)));
  mret (set_scopes
    (update_first (is_some_and (λ s, sc_scope s =? scope))
       (fmap (λ s, mkScope (sc_scope s) (sc_owner s) (Some frame))) (sp_scopes r)) r).

Definition live_frame_backings (r : ScopedPointers) : list LocalFrameBacking :=
  omap sc_frame (active_scopes r).

Definition live_local_backings (r : ScopedPointers) : list LocalFrameBacking :=
  omap (λ s, if negb (bool_decide (slot_state s = SLive)) then None
             else match slot_record s with
                  | RLocal a => b ← la_backing a; Some (mkFrameBacking b (la_length a))
                  | _ => None
                  end) (take (sp_active_slots_end r) (sp_slots r)).

(** ** Local allocations *)
Definition register (r : ScopedPointers) (scope : Scope) (domain base length : Z)
    (writable : bool) : fallible PointerError (ScopedPointers * ScopedPointer) :=
  if negb (is_top r scope) then err InvalidScope
  else
    _ ←? ok_or (checked_add base length) InvalidRange;
    if hl_revision (sp_heap r) =? u64_max then err Exhausted
    else
      i ←? ok_or (free_slot r) Exhausted;
      s ← vec_get i (sp_slots r);
      let generation := slot_generation s + 1 in
      slots ← vec_set i (mkSlot generation SLive
        (RLocal (mkLocal scope domain base length writable None))) (sp_slots r);
      ok (heap_advance (set_active_slots_end (Nat.max (sp_active_slots_end r) (S i))
            (set_slots slots r)), mkPointer i generation 0).

Definition allocation (r : ScopedPointers) (p : ScopedPointer) (domain : Z) :
    result PointerError LocalAllocation :=
  s ← ok_or (sp_slots r !! ptr_slot p) Stale;
  if negb (bool_decide (slot_state s = SLive)) || negb (slot_generation s =? ptr_generation p)
  then Err Stale
  else match slot_record s with
       | RLocal a => if negb (la_domain a =? domain) then Err PDomain else Ok a
       | _ => Err Stale
       end.

Definition pointer_add (r : ScopedPointers) (p : ScopedPointer) (domain delta : Z) :
    result PointerError ScopedPointer :=
  a ← allocation r p domain;
  position ← ok_or (checked_add_signed (ptr_position p) delta) Bounds;
  if la_length a <? position then Err Bounds
  else Ok (mkPointer (ptr_slot p) (ptr_generation p) position).

Definition pointer_resolve (r : ScopedPointers) (p : ScopedPointer) (domain width : Z)
    (write : bool) : result PointerError Z :=
  a ← allocation r p domain;
  if write && negb (la_writable a) then Err Rights
  else
    end_ ← ok_or (checked_add (ptr_position p) width) Bounds;
    if (width =? 0) || (la_length a <? end_) then Err Bounds
    else ok_or (checked_add (la_base a) (ptr_position p)) Bounds.

Definition read_span (r : ScopedPointers) (p : ScopedPointer) (domain owner length : Z) :
    result PointerError Z :=
  a ← allocation r p domain;
  if negb (bool_decide (scope_owner r (la_scope a) = Some owner)) then Err InvalidScope
  else if (la_length a <? ptr_position p) || (la_length a - ptr_position p <? length)
  then Err Bounds
  else ok_or (checked_add (la_base a) (ptr_position p)) Bounds.

Definition write_span (r : ScopedPointers) (p : ScopedPointer) (domain owner length : Z) :
    result PointerError Z :=
  address ← read_span r p domain owner length;
  a ← allocation r p domain;
  if negb (la_writable a) then Err Rights else Ok address.

(** The local record a pointer's slot and generation select, live or not. *)
Definition slot_local (r : ScopedPointers) (p : ScopedPointer) : option LocalAllocation :=
  s ← sp_slots r !! ptr_slot p;
  if negb (slot_generation s =? ptr_generation p) then None
  else match slot_record s with RLocal a => Some a | _ => None end.

Definition storage_span (r : ScopedPointers) (p : ScopedPointer) : option (Z * Z) :=
  a ← slot_local r p; Some (la_base a, la_length a).

Definition set_la_backing (b : option PointerBacking) (a : LocalAllocation) : LocalAllocation :=
  mkLocal (la_scope a) (la_domain a) (la_base a) (la_length a) (la_writable a) b.

Definition bind_backing (r : ScopedPointers) (p : ScopedPointer) (b : PointerBacking) :
    outcome ScopedPointers :=
  s ← vec_get (ptr_slot p) (sp_slots r);
  _ ← assert_ (slot_generation s =? ptr_generation p);
  _ ← assert_ (bool_decide (slot_state s = SLive));
  match slot_record s with
  | RLocal a =>
      _ ← assert_ (negb (is_some (la_backing a)));
      mret (set_slots (<[ptr_slot p :=
        mkSlot (slot_generation s) (slot_state s) (RLocal (set_la_backing (Some b) a))]>
        (sp_slots r)) r)
  | _ => Panic
  end.

Definition backing (r : ScopedPointers) (p : ScopedPointer) : option PointerBacking :=
  a ← slot_local r p; la_backing a.

Definition take_backing (r : ScopedPointers) (p : ScopedPointer) :
    ScopedPointers * option PointerBacking :=
  match sp_slots r !! ptr_slot p with
  | Some s =>
      if negb (slot_generation s =? ptr_generation p) || bool_decide (slot_state s = SLive)
      then (r, None)
      else match slot_record s with
           | RLocal a =>
               (set_slots (<[ptr_slot p :=
                  mkSlot (slot_generation s) (slot_state s) (RLocal (set_la_backing None a))]>
                  (sp_slots r)) r, la_backing a)
           | _ => (r, None)
           end
  | None => (r, None)
  end.

(** ** Leaving a scope *)

(** [while end > 0 && p(&v[end - 1]) { end -= 1 }] *)
Fixpoint trim_end {A} (p : A → bool) (l : list A) (n : nat) : outcome nat :=
  match n with
  | O => Done O
  | S k => x ← vec_get k l; if p x then trim_end p l k else Done n
  end.

Definition slot_idle (s : Slot) : bool :=
  match slot_state s with SFree | SExhausted => true | _ => false end.

Definition trim_active_slots (r : ScopedPointers) : outcome ScopedPointers :=
  n ← trim_end slot_idle (sp_slots r) (sp_active_slots_end r);
  mret (set_active_slots_end n r).

Definition in_scope (scope : Scope) (s : Slot) : bool :=
  match slot_record s with RLocal a => la_scope a =? scope | _ => false end.

Definition leave_scope (r : ScopedPointers) (scope : Scope) : fallible PointerError ScopedPointers :=
  if negb (is_top r scope) then err InvalidScope
  else
    let n := sp_active_slots_end r in
    let slots := ((λ s, if in_scope scope s then slot_release s else s) <$> take n (sp_slots r))
                   ++ drop n (sp_slots r) in
    index ← unwrap (position (is_some_and (λ s, sc_scope s =? scope)) (sp_scopes r));
    scopes ← vec_set index None (sp_scopes r);
    n' ← trim_end (λ s, negb (is_some s)) scopes (sp_active_scopes_end r);
    r' ← trim_active_slots (set_active_scopes_end n' (set_scopes scopes (set_slots slots r)));
    ok (heap_advance r').
