(* ===== verification/PointerFrames.v ===== *)
(** * Protected frame manifests: [src/anka64/pointer_frames.rs]

    The manifest parser, the structural validator of protected programs and
    the per-context frame state.  [code] and [metadata] are byte lists. *)

From S2P Require Import Prelude State Desc Isa Extents Registry.

Record LocalStorage := mkLocalStorage {
  ls_offset : Z;
  ls_length : Z;
  ls_alignment : Z;
  ls_writable : bool;
  ls_pointer_slot : bool;
}.

Record FrameManifest := mkManifest {
  fm_entry : Z;
  fm_end : Z;
  fm_size : Z;
  fm_exits : list Z;
  fm_locals : list LocalStorage;
}.

Inductive FrameError := FGeometry | FManifest | FContext | FControl | FCapacity.
#[export] Instance FrameError_eq_dec : EqDecision FrameError.
Proof. solve_decision. Defined.

Record ValidatedPointerProgram := mkProgram {
  vp_code : list Z;
  vp_frames : list FrameManifest;
}.

Definition zlen {A} (l : list A) : Z := Z.of_nat (length l).

(** [u32::from_le_bytes(code[at..at + 4])] *)
Definition code_word (code : list Z) (at_ : Z) : outcome Z :=
  if (0 <=? at_) && (at_ + 4 <=? zlen code) then Done (le_value (slice at_ 4 code)) else Panic.

Definition code_sem (code : list Z) (at_ : Z) : outcome Sem :=
  w ← code_word code at_; Done (insn_semantics (d_desc (decode w))).

(** [(entry..end).step_by(4)] *)
Definition pcs (entry end_ : Z) : list Z :=
  (λ i, entry + 4 * i) <$> seqZ 0 ((end_ - entry + 3) / 4).

(** ** Parsing *)

(** [word(bytes, &mut at)] *)
Definition manifest_word (bytes : list Z) (at_ : Z) : result FrameError (Z * Z) :=
  end_ ← ok_or (checked_add at_ 8) FGeometry;
  if end_ <=? zlen bytes then Ok (le_value (slice at_ 8 bytes), end_) else Err FGeometry.

Fixpoint parse_locals (n : nat) (metadata : list Z) (at_ : Z) :
    result FrameError (list LocalStorage * Z) :=
  match n with
  | O => Ok ([], at_)
  | S n =>
      '(offset, at_) ← manifest_word metadata at_;
      '(length, at_) ← manifest_word metadata at_;
      '(alignment, at_) ← manifest_word metadata at_;
      '(flags, at_) ← manifest_word metadata at_;
      if negb (flags =? 1) && negb (flags =? 3) then Err FManifest
      else
        '(rest, at_) ← parse_locals n metadata at_;
        Ok (mkLocalStorage offset length alignment true (flags =? 3) :: rest, at_)
  end.

Fixpoint parse_frames (n : nat) (code metadata : list Z) (at_ : Z) :
    fallible FrameError (list FrameManifest * Z) :=
  match n with
  | O => ok ([], at_)
  | S n =>
      x1 ←? manifest_word metadata at_; let '(entry, at_) := x1 in
      x2 ←? manifest_word metadata at_; let '(end_, at_) := x2 in
      x3 ←? manifest_word metadata at_; let '(size, at_) := x3 in
      x4 ←? manifest_word metadata at_; let '(k, at_) := x4 in
      if 4096 <? k then err FCapacity
      else
        x5 ←? parse_locals (Z.to_nat k) metadata at_; let '(locals, at_) := x5 in
        if negb (entry mod 4 =? 0) || negb (end_ mod 4 =? 0) || (zlen code <? end_) || (end_ <=? entry)
        then err FGeometry
        else
          exits ← filter_outcome
            (λ pc, s ← code_sem code pc; Done (bool_decide (s = PointerUnframe))) (pcs entry end_);
          x6 ←! parse_frames n code metadata at_; let '(rest, at_) := x6 in
          ok (mkManifest entry end_ size exits locals :: rest, at_)
  end.

Definition parse_manifest (code metadata : list Z) : fallible FrameError (list FrameManifest) :=
  if (zlen metadata <? 8) || negb (le_value (slice 0 8 metadata) =? 1345400887) then err FManifest
  else
    x1 ←? manifest_word metadata 8; let '(version, at_) := x1 in
    if negb (version =? 2) then err FGeometry
    else
      x2 ←? manifest_word metadata at_; let '(size, at_) := x2 in
      if negb (size =? zlen code) then err FGeometry
      else
        x3 ←? manifest_word metadata at_; let '(count, at_) := x3 in
        if (count =? 0) || (4096 <? count) then err FCapacity
        else
          x4 ←! parse_frames (Z.to_nat count) code metadata at_; let '(frames, at_) := x4 in
          if negb (at_ =? zlen metadata) then err FGeometry else ok frames.

(** ** Structural validation *)

(** [ranges.sort_unstable()] on pairs. *)
Definition pair_le (a b : Z * Z) : bool :=
  (a.1 <? b.1) || ((a.1 =? b.1) && (a.2 <=? b.2)).
Fixpoint insert_range (x : Z * Z) (l : list (Z * Z)) : list (Z * Z) :=
  match l with
  | [] => [x]
  | y :: l' => if pair_le x y then x :: l else y :: insert_range x l'
  end.
Definition sort_ranges (l : list (Z * Z)) : list (Z * Z) := foldr insert_range [] l.

(** The tiling loop: each range starts where the previous one ended. *)
Fixpoint tiled (prior_end : Z) (l : list (Z * Z)) : option Z :=
  match l with
  | [] => Some prior_end
  | (start, end_) :: l =>
      if negb (start =? prior_end) || (end_ <=? start) then None else tiled end_ l
  end.

Definition locals_overlap (a b : LocalStorage) : bool :=
  (ls_offset a <? ls_offset b + ls_length b) && (ls_offset b <? ls_offset a + ls_length a).

Definition local_ok (size : Z) (l : LocalStorage) : bool :=
  bool_decide (ls_alignment l ∈ [1; 2; 4; 8; 16])
  && (ls_offset l mod ls_alignment l =? 0)
  && negb (ls_length l =? 0)
  && is_some_and (λ e, e <=? size) (checked_add (ls_offset l) (ls_length l))
  && negb (ls_pointer_slot l && (negb (ls_alignment l =? 16) || negb (ls_length l =? 16))).

(** The locals loop, carrying the prefix already checked. *)
Fixpoint locals_ok (size : Z) (seen l : list LocalStorage) : bool :=
  match l with
  | [] => true
  | x :: l =>
      local_ok size x && negb (existsb (locals_overlap x) seen) && locals_ok size (seen ++ [x]) l
  end.

(** The backwards scan over padding from a RET. *)
Fixpoint back_to_exit (code : list Z) (previous : Z) (l : list Z) : outcome Z :=
  match l with
  | [] => Done previous
  | q :: l =>
      s ← code_sem code q;
      if bool_decide (s = SemNop) then back_to_exit code q l else Done q
  end.

Fixpoint skip_trailing_nops (code : list Z) (entry : Z) (l : list Z) : outcome Z :=
  match l with
  | [] => Done entry
  | q :: l =>
      s ← code_sem code q;
      if bool_decide (s = SemNop) then skip_trailing_nops code entry l else Done q
  end.

Definition frame_header_ok (code_len : Z) (f : FrameManifest) : bool :=
  negb ((fm_end f <=? fm_entry f) || (code_len <? fm_end f)
    || negb (fm_entry f mod 4 =? 0) || negb (fm_end f mod 4 =? 0)
    || (fm_size f =? 0) || negb (fm_size f mod 16 =? 0)
    || (4096 <? length (fm_locals f))%nat
    || bool_decide (fm_exits f = [])).

Definition check_insn (code : list Z) (frames : list FrameManifest) (import_calls : gset Z)
    (f : FrameManifest) (pc : Z) : fallible FrameError unit :=
  w ← code_word code pc;
  let insn := decode w in
  if is_illegal insn then err FManifest
  else
    let target := pc + d_imm insn * 4 in
    match insn_semantics (d_desc insn) with
    | SemLoad | SemStore | SemLoadByte | SemStoreByte | SemXchg | SemEret | SemHalt => err FManifest
    | PointerFrame => if negb (pc =? fm_entry f) then err FControl else ok tt
    | PointerLocal =>
        if (d_imm insn <? 0) || (zlen (fm_locals f) <=? d_imm insn) then err FManifest else ok tt
    | PointerUnframe => if negb (bool_decide (pc ∈ fm_exits f)) then err FControl else ok tt
    | SemBranch =>
        if (target <=? fm_entry f) || (fm_end f <=? target) then err FControl else ok tt
    | SemCall =>
        if negb (bool_decide (pc ∈ import_calls))
           && negb (existsb (λ g, fm_entry g =? target) frames) then err FControl else ok tt
    | SemRet =>
        previous ← back_to_exit code pc (reverse (pcs (fm_entry f) pc));
        if negb (bool_decide (previous ∈ fm_exits f)) then err FControl else ok tt
    | _ => ok tt
    end.

Definition check_exit (code : list Z) (f : FrameManifest) (pc : Z) : fallible FrameError unit :=
  if (pc <? fm_entry f) || is_none_or (λ n, fm_end f <=? n) (checked_add pc 4)
     || negb (pc mod 4 =? 0) || negb (zlen (List.filter (λ x, x =? pc) (fm_exits f)) =? 1)
  then err FControl
  else
    s ← code_sem code pc;
    if negb (bool_decide (s = PointerUnframe)) then err FControl else ok tt.

Definition check_frame (code : list Z) (frames : list FrameManifest) (import_calls : gset Z)
    (index : nat) (f : FrameManifest) : fallible FrameError unit :=
  if negb (frame_header_ok (zlen code) f) then err FManifest
  else
    w ← code_word code (fm_entry f);
    let first := decode w in
    if negb (bool_decide (insn_semantics (d_desc first) = PointerFrame))
       || negb (d_imm first =? Z.of_nat index) then err FManifest
    else if negb (locals_ok (fm_size f) [] (fm_locals f)) then err FManifest
    else
      _ ←! for_each (check_insn code frames import_calls f) (pcs (fm_entry f) (fm_end f));
      last_pc ← skip_trailing_nops code (fm_entry f) (reverse (pcs (fm_entry f + 4) (fm_end f)));
      s ← code_sem code last_pc;
      if negb (bool_decide (s = SemRet)) then err FControl
      else for_each (check_exit code f) (fm_exits f).

Definition validate_structure (code : list Z) (frames : list FrameManifest)
    (import_calls : gset Z) : fallible FrameError unit :=
  if bool_decide (code = []) || negb (zlen code mod 4 =? 0) || bool_decide (frames = [])
     || (4096 <? length frames)%nat then err FGeometry
  else
    match tiled 0 (sort_ranges ((λ f, (fm_entry f, fm_end f)) <$> frames)) with
    | None => err FGeometry
    | Some prior_end =>
        if negb (prior_end =? zlen code) then err FGeometry
        else for_each (λ '(i, f), check_frame code frames import_calls i f) (imap pair frames)
    end.

Definition validate_program (code : list Z) (frames : list FrameManifest) :
    fallible FrameError ValidatedPointerProgram :=
  _ ←! validate_structure code frames ∅;
  ok (mkProgram code frames).

Definition from_image (code metadata : list Z) : fallible FrameError (option ValidatedPointerProgram) :=
  if zlen code <? 4 then ok None
  else
    s ← code_sem code 0;
    if negb (bool_decide (s = PointerFrame)) then ok None
    else
      frames ←! parse_manifest code metadata;
      p ←! validate_program code frames;
      ok (Some p).

(** ** Per-context frame state *)
Record ActiveFrame := mkActive {
  af_scope : Scope;
  af_manifest : nat;
  af_call_depth : nat;
  af_parent_cursor : Z;
  af_parent_fp : Z;
  af_return_lr : Z;
  af_locals : list ScopedPointer;
}.

Record FrameState := mkFrameState {
  fs_program : ValidatedPointerProgram;
  fs_context : Z;
  fs_domain : DomainId;
  fs_code_object : ObjectId;
  fs_code_generation : Generation;
  fs_code_offset : Z;
  fs_code_base : Z;
  fs_stack_low : Z;
  fs_stack_high : Z;
  fs_stack_object : ObjectId;
  fs_stack_generation : Generation;
  fs_stack_offset : Z;
  fs_cursor : Z;
  fs_pending_entry : option Z;
  fs_active : list ActiveFrame;
}.
