(* ===== verification/HeapWork.v ===== *)
(** * The CPU work ledger of the heap: [src/anka64/fabric/heap/work.rs]

    [HeapCpuWork]: a bounded table of tickets and a bounded table of queued CPU
    requests, each pinned to the other.  The operations of the fabric on it are in
    [FabricWork]. *)

From S2P Require Import Prelude State Extents Registry PointerFrames.

Definition MAX_CPU_BYTES : Z := 4096.

Record HeapWorkTicket := mkTicket { wt_row : Z; wt_operation : Z }.
#[export] Instance HeapWorkTicket_eq_dec : EqDecision HeapWorkTicket.
Proof. solve_decision. Defined.

Record CpuSourceKey := mkSourceKey { sk_index : nat; sk_generation : Z; sk_request : Z }.
#[export] Instance CpuSourceKey_eq_dec : EqDecision CpuSourceKey.
Proof. solve_decision. Defined.

Inductive CpuAccess := CpuRead | CpuWrite.
#[export] Instance CpuAccess_eq_dec : EqDecision CpuAccess.
Proof. solve_decision. Defined.

Record WorkBinding := mkBindingOf {
  wb_reservation : HeapReservation;
  wb_owner : AllocationOwner;
  wb_object : ObjectId;
  wb_object_generation : Generation;
  wb_logical : Z;
  wb_extents : HeapExtents;
  wb_rights : Permissions;
  wb_agent : AgentId;
  wb_offset : Z;
  wb_length : Z;
  wb_access : CpuAccess;
}.
#[export] Instance WorkBinding_eq_dec : EqDecision WorkBinding.
Proof. solve_decision. Defined.

Record WorkRecord := mkWorkRecord {
  wk_ticket : HeapWorkTicket;
  wk_source : CpuSourceKey;
  wk_binding : WorkBinding;
}.

Inductive CpuRequestState := RqPrepared | RqCommitted | RqCancelled.
#[export] Instance CpuRequestState_eq_dec : EqDecision CpuRequestState.
Proof. solve_decision. Defined.

Record CpuRequest := mkCpuRequest {
  rq_key : CpuSourceKey;
  rq_pin : HeapWorkTicket;
  rq_binding : WorkBinding;
  rq_payload : list Z;
  rq_state : CpuRequestState;
}.

Record CpuSourceSlot := mkSourceSlot { ss_next_generation : option Z; ss_request : option CpuRequest }.

Record HeapCpuWork := mkWork {
  hw_records : list (option WorkRecord);
  hw_sources : list CpuSourceSlot;
  hw_next_operation : Z;
  hw_next_request : option Z;
}.

(** [HeapCpuWork::new] with its two limits; the storage check is the host's. *)
Definition work_new (tickets requests : nat) : HeapCpuWork :=
  mkWork (replicate tickets None) (replicate requests (mkSourceSlot (Some 0) None)) 1 (Some 0).

(** ** Pins *)

(** The row of a one-based number *)
Definition row_index (row : Z) : option nat :=
  if row <? 1 then None else Some (Z.to_nat (row - 1)).

Definition record_at (w : HeapCpuWork) (i : nat) : option WorkRecord :=
  match hw_records w !! i with Some (Some r) => Some r | _ => None end.

Definition checked_record (w : HeapCpuWork) (t : HeapWorkTicket) : result HeapError WorkRecord :=
  index ← ok_or (row_index (wt_row t)) HStaleWork;
  record ← ok_or (record_at w index) HStaleWork;
  if (wt_operation t =? 0) || negb (bool_decide (t = wk_ticket record)) then Err HStaleWork
  else
    slot ← ok_or (hw_sources w !! sk_index (wk_source record)) HStaleWork;
    source ← ok_or (ss_request slot) HStaleWork;
    let b := wk_binding record in
    if negb (bool_decide (rq_key source = wk_source record))
       || negb (bool_decide (rq_pin source = t))
       || negb (bool_decide (rq_binding source = b))
       || negb (bool_decide (ss_next_generation slot = checked_add (sk_generation (rq_key source)) 1))
       || (wb_length b =? 0) || (MAX_CPU_BYTES <? wb_length b)
       || (wb_logical b <? wb_offset b) || (wb_logical b - wb_offset b <? wb_length b)
       || negb (is_some (checked_add (wb_offset b) (wb_length b)))
    then Err HStaleWork else Ok record.

(** The first loop of [check_pins], over the records from row [index] on *)
Fixpoint check_record_pins (w : HeapCpuWork) (index : nat) (l : list (option WorkRecord)) :
    result HeapError unit :=
  match l with
  | [] => Ok tt
  | None :: l => check_record_pins w (S index) l
  | Some record :: l =>
      if negb (wt_row (wk_ticket record) =? Z.of_nat index + 1) then Err HStaleWork
      else _ ← checked_record w (wk_ticket record); check_record_pins w (S index) l
  end.

(** The second loop, over the sources *)
Fixpoint check_source_pins (w : HeapCpuWork) (index : nat) (l : list CpuSourceSlot) :
    result HeapError unit :=
  match l with
  | [] => Ok tt
  | slot :: l =>
      match ss_request slot with
      | None => check_source_pins w (S index) l
      | Some source =>
          if negb (sk_index (rq_key source) =? index)%nat then Err HStaleWork
          else
            record ← checked_record w (rq_pin source);
            if negb (bool_decide (wk_source record = rq_key source)) then Err HStaleWork
            else check_source_pins w (S index) l
      end
  end.

Definition check_pins (w : HeapCpuWork) : result HeapError unit :=
  _ ← check_record_pins w 0 (hw_records w); check_source_pins w 0 (hw_sources w).

(** ** Admission *)
Record PreparedPair := mkPair { pp_record : WorkRecord; pp_request : CpuRequest }.

(** The payload: zeros, with the bytes of a write in front *)
Definition work_payload (access : CpuAccess) (length_ : Z) (write : option (list Z)) :
    result HeapError (list Z) :=
  match access, write with
  | CpuWrite, Some bytes =>
      if (zlen bytes =? length_) && (zlen bytes <=? MAX_CPU_BYTES)
      then Ok (bytes ++ replicate (Z.to_nat MAX_CPU_BYTES - length bytes) 0)
      else Err HConfiguration
  | CpuRead, None => Ok (replicate (Z.to_nat MAX_CPU_BYTES) 0)
  | _, _ => Err HConfiguration
  end.

Definition source_free (s : CpuSourceSlot) : bool :=
  negb (is_some (ss_request s)) && is_some (ss_next_generation s).

Definition work_prepare (w : HeapCpuWork) (b : WorkBinding) (write : option (list Z)) :
    fallible HeapError PreparedPair :=
  _ ←? check_pins w;
  if (hw_next_operation w =? 0) || (hw_next_operation w =? u64_max) then err (HCapacity Identity)
  else
    request ←? ok_or (hw_next_request w) (HCapacity Identity);
    ledger ←? ok_or (position (λ r, negb (is_some r)) (hw_records w)) (HCapacity WorkTickets);
    source ←? ok_or (position source_free (hw_sources w)) (HCapacity BackendRequests);
    let ticket := mkTicket (Z.of_nat ledger + 1) (hw_next_operation w) in
    slot ← vec_get source (hw_sources w);
    generation ← unwrap (ss_next_generation slot);
    let key := mkSourceKey source generation request in
    payload ←? work_payload (wb_access b) (wb_length b) write;
    ok (mkPair (mkWorkRecord ticket key b) (mkCpuRequest key ticket b payload RqPrepared)).

Definition work_commit (w : HeapCpuWork) (plan : PreparedPair) : outcome (HeapCpuWork * HeapWorkTicket) :=
  let ticket := wk_ticket (pp_record plan) in
  let key := wk_source (pp_record plan) in
  index ← unwrap (row_index (wt_row ticket));
  _ ← assert_ (wt_operation ticket =? hw_next_operation w);
  _ ← assert_ (bool_decide (hw_next_request w = Some (sk_request key)));
  row ← vec_get index (hw_records w);
  _ ← assert_ (negb (is_some row));
  source ← vec_get (sk_index key) (hw_sources w);
  _ ← assert_ (negb (is_some (ss_request source)));
  _ ← assert_ (bool_decide (ss_next_generation source = Some (sk_generation key)));
  sources ← vec_set (sk_index key)
    (mkSourceSlot (checked_add (sk_generation key) 1) (Some (pp_request plan))) (hw_sources w);
  records ← vec_set index (Some (pp_record plan)) (hw_records w);
  Done (mkWork records sources (hw_next_operation w + 1) (checked_add (sk_request key) 1), ticket).

(** ** Execution and consumption *)

(** A change of the request in one source row; an empty row panics. *)
Definition with_request (w : HeapCpuWork) (i : nat) (g : CpuRequest → CpuRequest) : outcome HeapCpuWork :=
  slot ← vec_get i (hw_sources w);
  request ← unwrap (ss_request slot);
  sources ← vec_set i (mkSourceSlot (ss_next_generation slot) (Some (g request))) (hw_sources w);
  Done (mkWork (hw_records w) sources (hw_next_operation w) (hw_next_request w)).

Definition work_state (w : HeapCpuWork) (record : WorkRecord) : outcome CpuRequestState :=
  slot ← vec_get (sk_index (wk_source record)) (hw_sources w);
  request ← unwrap (ss_request slot);
  Done (rq_state request).

Definition set_request_state (st : CpuRequestState) (r : CpuRequest) : CpuRequest :=
  mkCpuRequest (rq_key r) (rq_pin r) (rq_binding r) (rq_payload r) st.
(** [payload[..n].copy_from_slice(bytes)] *)
Definition set_request_payload (bytes : list Z) (r : CpuRequest) : CpuRequest :=
  mkCpuRequest (rq_key r) (rq_pin r) (rq_binding r) (bytes ++ drop (length bytes) (rq_payload r)) (rq_state r).
(** [payload.fill(0)] *)
Definition clear_payload (r : CpuRequest) : CpuRequest :=
  mkCpuRequest (rq_key r) (rq_pin r) (rq_binding r) (replicate (length (rq_payload r)) 0) (rq_state r).

(** Both rows of a terminal request, emptied *)
Definition work_remove (w : HeapCpuWork) (record : WorkRecord) : outcome HeapCpuWork :=
  let i := sk_index (wk_source record) in
  slot ← vec_get i (hw_sources w);
  _ ← unwrap (ss_request slot);
  sources ← vec_set i (mkSourceSlot (ss_next_generation slot) None) (hw_sources w);
  row ← unwrap (row_index (wt_row (wk_ticket record)));
  records ← vec_set row None (hw_records w);
  Done (mkWork records sources (hw_next_operation w) (hw_next_request w)).
