(* ===== verification/HeapLedger.v ===== *)
(** * The heap ledger: [src/anka64/scoped_pointers/heap.rs] and its submodules
    [placement.rs], [fabric.rs], [cells.rs], [closure.rs], [host_storage.rs] and
    [application.rs]

    Owner accounts, quota, reservations with their physical and virtual extents,
    private attachment, publication, closure, host-storage charges, and the
    lifetime check behind every heap pointer.  The operations of the cleanup
    workers on the leases it stores are in [HeapWorkers]. *)

From S2P Require Import Prelude State Extents Registry.

Definition set_hl_accounts (v : list (option Account)) (s : HeapLedger) : HeapLedger :=
  mkLedger v (hl_cleanup s) (hl_workers s) (hl_host_storage s) (hl_next_worker s) (hl_next_owner
    s) (hl_next_job s) (hl_revision s) (hl_fixed_bytes s) (hl_reserved_bytes s) (hl_limit s)
    (hl_placement s).
Definition set_hl_cleanup (v : list (option CleanupRecord)) (s : HeapLedger) : HeapLedger :=
  mkLedger (hl_accounts s) v (hl_workers s) (hl_host_storage s) (hl_next_worker s)
    (hl_next_owner s) (hl_next_job s) (hl_revision s) (hl_fixed_bytes s) (hl_reserved_bytes s)
    (hl_limit s) (hl_placement s).
Definition set_hl_host_storage (v : list (option HostStorageRecord)) (s : HeapLedger) : HeapLedger :=
  mkLedger (hl_accounts s) (hl_cleanup s) (hl_workers s) v (hl_next_worker s) (hl_next_owner s)
    (hl_next_job s) (hl_revision s) (hl_fixed_bytes s) (hl_reserved_bytes s) (hl_limit s)
    (hl_placement s).
Definition set_hl_next_owner (v : Z) (s : HeapLedger) : HeapLedger :=
  mkLedger (hl_accounts s) (hl_cleanup s) (hl_workers s) (hl_host_storage s) (hl_next_worker s)
    v (hl_next_job s) (hl_revision s) (hl_fixed_bytes s) (hl_reserved_bytes s) (hl_limit s)
    (hl_placement s).
Definition set_hl_next_job (v : Z) (s : HeapLedger) : HeapLedger :=
  mkLedger (hl_accounts s) (hl_cleanup s) (hl_workers s) (hl_host_storage s) (hl_next_worker s)
    (hl_next_owner s) v (hl_revision s) (hl_fixed_bytes s) (hl_reserved_bytes s) (hl_limit s)
    (hl_placement s).
Definition set_hl_fixed_bytes (v : Z) (s : HeapLedger) : HeapLedger :=
  mkLedger (hl_accounts s) (hl_cleanup s) (hl_workers s) (hl_host_storage s) (hl_next_worker s)
    (hl_next_owner s) (hl_next_job s) (hl_revision s) v (hl_reserved_bytes s) (hl_limit s)
    (hl_placement s).
Definition set_hl_reserved_bytes (v : Z) (s : HeapLedger) : HeapLedger :=
  mkLedger (hl_accounts s) (hl_cleanup s) (hl_workers s) (hl_host_storage s) (hl_next_worker s)
    (hl_next_owner s) (hl_next_job s) (hl_revision s) (hl_fixed_bytes s) v (hl_limit s)
    (hl_placement s).
Definition set_hl_placement (v : option HeapPlacement) (s : HeapLedger) : HeapLedger :=
  mkLedger (hl_accounts s) (hl_cleanup s) (hl_workers s) (hl_host_storage s) (hl_next_worker s)
    (hl_next_owner s) (hl_next_job s) (hl_revision s) (hl_fixed_bytes s) (hl_reserved_bytes s)
    (hl_limit s) v.

(** [JobLease::EMPTY] *)
Definition lease_empty : JobLease := Unowned 0.

Definition i64_max : Z := 2 ^ 63 - 1.

(** [HeapReservation::key].  A reservation's slot is an index of the slot table,
    whose length is at most [u32::MAX], so [slot as u32 + 1] is exact. *)
Definition reservation_key (h : HeapReservation) : ReservationKey :=
  mkKey (oa_serial (hr_owner h)) (Z.of_nat (hr_slot h) + 1) (hr_generation h) (hr_job h).

(** ** Queries *)
Definition account (r : ScopedPointers) (token : OwnerAccount) : result HeapError Account :=
  match hl_accounts (sp_heap r) !! oa_index token with
  | Some (Some a) => if bool_decide (acc_token a = token) then Ok a else Err HOwner
  | _ => Err HOwner
  end.

Definition cleanup_job (r : ScopedPointers) (i : nat) : option CleanupRecord :=
  match hl_cleanup (sp_heap r) !! i with Some (Some j) => Some j | _ => None end.

Definition slot_held (s : SlotState) : bool :=
  match s with SReserved | SLive | SClosing | SRetired => true | _ => false end.

Definition reservation_record (r : ScopedPointers) (h : HeapReservation) :
    result HeapError HeapRecord :=
  _ ← account r (hr_owner h);
  slot ← ok_or (sp_slots r !! hr_slot h) HStaleReservation;
  if negb (slot_generation slot =? hr_generation h) || negb (slot_held (slot_state slot))
  then Err HStaleReservation
  else match slot_record slot with
       | RHeap record =>
           if negb (bool_decide (hrec_owner record = hr_owner h))
              || is_none_or (λ j, negb (bool_decide (cr_reservation j = h)))
                   (cleanup_job r (hrec_cleanup record))
           then Err HStaleReservation else Ok record
       | _ => Err HStaleReservation
       end.

(** Indexing [virtual_arenas] panics out of range. *)
Definition reserved_extents (r : ScopedPointers) (h : HeapReservation) :
    fallible HeapError HeapExtents :=
  record ←? reservation_record r h;
  extents ←? ok_or (hrec_extents record) HConfiguration;
  placement ←? ok_or (hl_placement (sp_heap r)) HConfiguration;
  if negb (bool_decide (pm_reservation_extent (hp_physical placement) (reservation_key h)
                        = Some (he_physical extents)))
  then err HStaleReservation
  else
    arena ← vec_get (oa_index (hr_owner h)) (hp_virtual_arenas placement);
    if negb (bool_decide (vl_reservation_extent arena (reservation_key h)
                          = Some (he_virtual extents)))
    then err HStaleReservation else ok extents.

(** The size, extent and charge checks that attachment, access and closure share. *)
Definition record_consistent (r : ScopedPointers) (a : Account) (record : HeapRecord)
    (e : HeapExtents) : result HeapError unit :=
  if (hrec_logical record =? 0) || (i64_max <? hrec_logical record) then Err HConfiguration
  else
    rounded ← map_err (λ _, HSize) (page_ceil (hrec_logical record));
    if negb (rounded =? hrec_rounded record)
       || negb (ext_size (he_physical e) =? hrec_rounded record)
       || negb (ext_size (he_virtual e) =? hrec_rounded record)
       || (acc_reserved a <? hrec_rounded record)
       || (hl_reserved_bytes (sp_heap r) <? acc_reserved a)
    then Err HConfiguration else Ok tt.

(** ** Accounts *)
Section accounts.
Context `{Profile}.

Definition total_reserved_bytes (r : ScopedPointers) : outcome Z :=
  add_u64 (hl_fixed_bytes (sp_heap r)) (hl_reserved_bytes (sp_heap r)).

(** Rebind the virtual arena of one account row. *)
Definition rebind_arena (r : ScopedPointers) (index : nat) (expected new : option Z) :
    fallible HeapError ScopedPointers :=
  match hl_placement (sp_heap r) with
  | None => ok r
  | Some p =>
      arena ← vec_get index (hp_virtual_arenas p);
      _ ←? map_err HVirtualPlacement (check_binding arena expected);
      arena' ← bind_owner arena new;
      arenas ← vec_set index arena' (hp_virtual_arenas p);
      ok (set_heap (set_hl_placement (Some (mkHeapPlacement (hp_physical p) arenas)) (sp_heap r)) r)
  end.

Definition set_account (index : nat) (a : option Account) (r : ScopedPointers) :
    outcome ScopedPointers :=
  accounts ← vec_set index a (hl_accounts (sp_heap r));
  Done (set_heap (set_hl_accounts accounts (sp_heap r)) r).

Definition admit_owner (r : ScopedPointers) (owner : AllocationOwner) (limit : Z) :
    fallible HeapError (ScopedPointers * OwnerAccount) :=
  if ao_context owner =? 0 then err HOwner
  else if existsb (λ a, bool_decide (ao_process (acc_owner a) = ao_process owner))
            (flatten (hl_accounts (sp_heap r)))
  then err HOwner
  else if (hl_revision (sp_heap r) =? u64_max) || (hl_next_owner (sp_heap r) =? u64_max)
  then err (HCapacity Identity)
  else
    index ←? ok_or (position (λ a, negb (is_some a)) (hl_accounts (sp_heap r))) (HCapacity Owners);
    let token := mkAccountToken index (hl_next_owner (sp_heap r)) in
    r ←! rebind_arena r index None (Some (oa_serial token));
    r ← set_account index (Some (mkAccount token owner false limit 0)) r;
    ok (heap_advance (set_heap (set_hl_next_owner (hl_next_owner (sp_heap r) + 1) (sp_heap r)) r),
        token).

(** [accounts[index].as_mut().unwrap()], updated by an operation that may panic. *)
Definition with_account (index : nat) (f : Account → outcome Account) (r : ScopedPointers) :
    outcome ScopedPointers :=
  row ← vec_get index (hl_accounts (sp_heap r));
  a ← unwrap row; a' ← f a; set_account index (Some a') r.

Definition set_acc_reserved (n : Z) (a : Account) : Account :=
  mkAccount (acc_token a) (acc_owner a) (acc_closed a) (acc_limit a) n.

(** [accounts[i].reserved ± n] and [reserved_bytes ± n] *)
Definition charge_bytes (index : nat) (n : Z) (r : ScopedPointers) : outcome ScopedPointers :=
  r ← with_account index (λ a, m ← add_u64 (acc_reserved a) n; Done (set_acc_reserved m a)) r;
  m ← add_u64 (hl_reserved_bytes (sp_heap r)) n;
  Done (set_heap (set_hl_reserved_bytes m (sp_heap r)) r).
Definition refund_bytes (index : nat) (n : Z) (r : ScopedPointers) : outcome ScopedPointers :=
  r ← with_account index (λ a, m ← sub_u64 (acc_reserved a) n; Done (set_acc_reserved m a)) r;
  m ← sub_u64 (hl_reserved_bytes (sp_heap r)) n;
  Done (set_heap (set_hl_reserved_bytes m (sp_heap r)) r).

(** ** Placement of a reservation *)
Record AdmissionPlacement := mkAdmission { ap_physical : Take; ap_virtual : Take }.
Record ReturnPlacement := mkReturnPlacement { rpl_physical : Return; rpl_virtual : Return }.

Definition admission_extents (p : AdmissionPlacement) : HeapExtents :=
  mkHeapExtents (take_extent (ap_physical p)) (take_extent (ap_virtual p)).

Definition map_err_call {E F A} (f : E → F) (m : fallible E A) : fallible F A :=
  r ← m; Done (map_err f r).

Definition prepare_reserve (p : HeapPlacement) (h : HeapReservation) (rounded revision : Z) :
    fallible HeapError AdmissionPlacement :=
  physical ←! map_err_call HPhysicalPlacement
    (pm_prepare_heap_take (hp_physical p) (reservation_key h) rounded revision);
  arena ← vec_get (oa_index (hr_owner h)) (hp_virtual_arenas p);
  virtual_plan ←! map_err_call HVirtualPlacement
    (vl_prepare_heap_take arena (reservation_key h) rounded revision);
  ok (mkAdmission physical virtual_plan).

Definition commit_reserve (p : HeapPlacement) (owner : OwnerAccount) (plan : AdmissionPlacement)
    (revision : Z) : outcome HeapPlacement :=
  physical ← pm_commit_heap_take (hp_physical p) (ap_physical plan) revision;
  arena ← vec_get (oa_index owner) (hp_virtual_arenas p);
  arena' ← vl_commit_heap_take arena (ap_virtual plan) revision;
  arenas ← vec_set (oa_index owner) arena' (hp_virtual_arenas p);
  Done (mkHeapPlacement physical arenas).

Definition prepare_cancel (p : HeapPlacement) (h : HeapReservation) (e : HeapExtents) (revision : Z) :
    fallible HeapError ReturnPlacement :=
  physical ←! map_err_call HPhysicalPlacement
    (pm_prepare_heap_return (hp_physical p) (reservation_key h) (he_physical e) revision);
  arena ← vec_get (oa_index (hr_owner h)) (hp_virtual_arenas p);
  virtual_plan ←! map_err_call HVirtualPlacement
    (vl_prepare_heap_return arena (reservation_key h) (he_virtual e) revision);
  ok (mkReturnPlacement physical virtual_plan).

Definition commit_cancel (p : HeapPlacement) (owner : OwnerAccount) (plan : ReturnPlacement)
    (revision : Z) : outcome HeapPlacement :=
  physical ← pm_commit_heap_return (hp_physical p) (rpl_physical plan) revision;
  arena ← vec_get (oa_index owner) (hp_virtual_arenas p);
  arena' ← vl_commit_heap_return arena (rpl_virtual plan) revision;
  arenas ← vec_set (oa_index owner) arena' (hp_virtual_arenas p);
  Done (mkHeapPlacement physical arenas).

(** ** Reservation *)
Definition set_cleanup (i : nat) (j : option CleanupRecord) (r : ScopedPointers) :
    outcome ScopedPointers :=
  cleanup ← vec_set i j (hl_cleanup (sp_heap r));
  Done (set_heap (set_hl_cleanup cleanup (sp_heap r)) r).
Definition set_slot (i : nat) (s : Slot) (r : ScopedPointers) : outcome ScopedPointers :=
  slots ← vec_set i s (sp_slots r); Done (set_slots slots r).
Definition set_placement (p : option HeapPlacement) (r : ScopedPointers) : ScopedPointers :=
  set_heap (set_hl_placement p (sp_heap r)) r.

Definition plan_reserve (r : ScopedPointers) (h : HeapReservation) (rounded : Z) :
    fallible HeapError (option AdmissionPlacement) :=
  match hl_placement (sp_heap r) with
  | None => ok None
  | Some p => plan ←! prepare_reserve p h rounded (hl_revision (sp_heap r)); ok (Some plan)
  end.

Definition apply_reserve (r : ScopedPointers) (owner : OwnerAccount)
    (plan : option AdmissionPlacement) : outcome ScopedPointers :=
  match plan with
  | None => Done r
  | Some plan =>
      p ← unwrap (hl_placement (sp_heap r));
      p ← commit_reserve p owner plan (hl_revision (sp_heap r));
      Done (set_placement (Some p) r)
  end.

Definition reserve_heap (r : ScopedPointers) (owner : OwnerAccount) (logical expected_revision : Z) :
    fallible HeapError (ScopedPointers * HeapReservation) :=
  a ←? account r owner;
  if acc_closed a then err HClosed
  else if (logical =? 0) || (i64_max <? logical) then err HSize
  else
    rounded ←? map_err (λ _, HSize) (page_ceil logical);
    if negb (expected_revision =? hl_revision (sp_heap r)) then err HStaleRevision
    else if (hl_revision (sp_heap r) =? u64_max) || (hl_next_job (sp_heap r) =? u64_max)
    then err (HCapacity Identity)
    else
      room ← sub_u64 (acc_limit a) (acc_reserved a);
      if room <? rounded then err (HCapacity OwnerBytes)
      else
        total ← total_reserved_bytes r;
        room ← sub_u64 (hl_limit (sp_heap r)) total;
        if room <? rounded then err (HCapacity GlobalBytes)
        else
          slot ←? ok_or (free_slot r) (HCapacity Slots);
          cleanup ←? ok_or (position (λ j, negb (is_some j)) (hl_cleanup (sp_heap r)))
                      (HCapacity Cleanup);
          s ← vec_get slot (sp_slots r);
          let generation := slot_generation s + 1 in
          let h := mkReservation slot generation (hl_next_job (sp_heap r)) owner in
          plan ←! plan_reserve r h rounded;
          r ← apply_reserve r owner plan;
          r ← set_slot slot (mkSlot generation SReserved (RHeap (mkHeapRecord owner logical rounded
                cleanup false true false (admission_extents <$> plan)))) r;
          let r := set_active_slots_end (Nat.max (sp_active_slots_end r) (S slot)) r in
          r ← set_cleanup cleanup (Some (mkCleanup h false lease_empty 0 0 Pending)) r;
          r ← charge_bytes (oa_index owner) rounded r;
          ok (heap_advance (set_heap (set_hl_next_job (hl_next_job (sp_heap r) + 1) (sp_heap r)) r), h).

Definition plan_cancel (r : ScopedPointers) (h : HeapReservation) (record : HeapRecord) :
    fallible HeapError (option ReturnPlacement) :=
  match hl_placement (sp_heap r), hrec_extents record with
  | None, None => ok None
  | Some p, Some e =>
      if negb (ext_size (he_physical e) =? hrec_rounded record)
         || negb (ext_size (he_virtual e) =? hrec_rounded record)
      then err HStaleReservation
      else plan ←! prepare_cancel p h e (hl_revision (sp_heap r)); ok (Some plan)
  | _, _ => err HConfiguration
  end.

Definition apply_cancel (r : ScopedPointers) (owner : OwnerAccount) (plan : option ReturnPlacement) :
    outcome ScopedPointers :=
  match plan with
  | None => Done r
  | Some plan =>
      p ← unwrap (hl_placement (sp_heap r));
      p ← commit_cancel p owner plan (hl_revision (sp_heap r));
      Done (set_placement (Some p) r)
  end.

Definition abort_heap (r : ScopedPointers) (h : HeapReservation) : fallible HeapError ScopedPointers :=
  record ←? reservation_record r h;
  s ← vec_get (hr_slot h) (sp_slots r);
  if hrec_published record || hrec_ever_attached record
     || negb (match slot_state s with SReserved | SClosing => true | _ => false end)
  then err HBusy
  else
    a ←? account r (hrec_owner record);
    if (acc_reserved a <? hrec_rounded record)
       || (hl_reserved_bytes (sp_heap r) <? acc_reserved a)
    then err HConfiguration
    else
      plan ←! plan_cancel r h record;
      r ← apply_cancel r (hrec_owner record) plan;
      r ← refund_bytes (oa_index (hrec_owner record)) (hrec_rounded record) r;
      r ← set_cleanup (hrec_cleanup record) None r;
      s ← vec_get (hr_slot h) (sp_slots r);
      r ← set_slot (hr_slot h) (slot_release (mkSlot (slot_generation s) (slot_state s) REmpty)) r;
      r ← trim_active_slots r;
      ok (heap_advance r).

(** ** Closing *)
Definition set_slot_state (st : SlotState) (s : Slot) : Slot :=
  mkSlot (slot_generation s) st (slot_record s).
Definition set_cr_queued (j : CleanupRecord) : CleanupRecord :=
  mkCleanup (cr_reservation j) true (cr_lease j) (cr_version j) (cr_sequence j) (cr_progress j).

(** [cleanup[i].as_mut().unwrap().queued = true] *)
Definition queue_job (i : nat) (r : ScopedPointers) : outcome ScopedPointers :=
  row ← vec_get i (hl_cleanup (sp_heap r));
  j ← unwrap row; set_cleanup i (Some (set_cr_queued j)) r.

Definition close_heap (r : ScopedPointers) (owner : OwnerAccount) (p : ScopedPointer) :
    fallible HeapError ScopedPointers :=
  a ←? account r owner;
  if acc_closed a then err HClosed
  else
    s ←? ok_or (sp_slots r !! ptr_slot p) HInvalidFree;
    if negb (ptr_position p =? 0) || negb (slot_generation s =? ptr_generation p)
       || negb (bool_decide (slot_state s = SLive))
    then err HInvalidFree
    else match slot_record s with
         | RHeap record =>
             if negb (bool_decide (hrec_owner record = owner)) || negb (hrec_published record)
             then err HInvalidFree
             else
               r ← set_slot (ptr_slot p) (set_slot_state SClosing s) r;
               r ← queue_job (hrec_cleanup record) r;
               ok (heap_advance r)
         | _ => err HInvalidFree
         end.

Definition close_slot (owner : OwnerAccount) (s : Slot) : Slot :=
  match slot_record s with
  | RHeap record =>
      if bool_decide (hrec_owner record = owner)
         && match slot_state s with SReserved | SLive => true | _ => false end
      then set_slot_state SClosing s else s
  | _ => s
  end.

Definition close_job (owner : OwnerAccount) (j : CleanupRecord) : CleanupRecord :=
  if bool_decide (hr_owner (cr_reservation j) = owner) && negb (cr_queued j)
  then set_cr_queued j else j.

Definition set_acc_closed (a : Account) : Account :=
  mkAccount (acc_token a) (acc_owner a) true (acc_limit a) (acc_reserved a).

Definition close_owner (r : ScopedPointers) (owner : OwnerAccount) :
    fallible HeapError (ScopedPointers * nat) :=
  a ←? account r owner;
  if acc_closed a then ok (r, 0%nat)
  else
    r ← with_account (oa_index owner) (λ a, Done (set_acc_closed a)) r;
    let r := set_slots (map (close_slot owner) (sp_slots r)) r in
    let queued := length (List.filter
      (λ j, bool_decide (hr_owner (cr_reservation j) = owner) && negb (cr_queued j))
      (flatten (hl_cleanup (sp_heap r)))) in
    ok (heap_advance (set_heap (set_hl_cleanup
          (map (option_map (close_job owner)) (hl_cleanup (sp_heap r))) (sp_heap r)) r), queued).

Definition release_owner (r : ScopedPointers) (owner : OwnerAccount) :
    fallible HeapError ScopedPointers :=
  a ←? account r owner;
  if negb (acc_closed a) || negb (acc_reserved a =? 0)
     || existsb (λ j, bool_decide (hr_owner (cr_reservation j) = owner))
          (flatten (hl_cleanup (sp_heap r)))
  then err HBusy
  else
    r ←! rebind_arena r (oa_index owner) (Some (oa_serial owner)) None;
    r ← set_account (oa_index owner) None r;
    ok (heap_advance r).

(** [release_closed_heap_accounts]: errors of single rows are ignored. *)
Fixpoint release_closed_from (r : ScopedPointers) (i n : nat) : outcome ScopedPointers :=
  match n with
  | O => Done r
  | S n =>
      row ← vec_get i (hl_accounts (sp_heap r));
      r ← match row with
          | Some a =>
              if acc_closed a && (acc_reserved a =? 0)
              then x ← release_owner r (acc_token a);
                   Done (match x with Ok r' => r' | Err _ => r end)
              else Done r
          | None => Done r
          end;
      release_closed_from r (S i) n
  end.
Definition release_closed_heap_accounts (r : ScopedPointers) : outcome ScopedPointers :=
  release_closed_from r 0 (length (hl_accounts (sp_heap r))).

(** ** Host storage *)
Definition reserve_host_storage (r : ScopedPointers) (owner : OwnerAccount)
    (logical expected_revision : Z) : fallible HeapError (ScopedPointers * HostStorageReservation) :=
  a ←? account r owner;
  if acc_closed a then err HClosed
  else if (logical =? 0) || (i64_max <? logical) then err HSize
  else
    rounded ←? map_err (λ _, HSize) (page_ceil logical);
    if negb (expected_revision =? hl_revision (sp_heap r)) then err HStaleRevision
    else if (hl_revision (sp_heap r) =? u64_max) || (hl_next_job (sp_heap r) =? u64_max)
    then err (HCapacity Identity)
    else if is_none_or (λ n, n <? rounded) (checked_sub (acc_limit a) (acc_reserved a))
    then err (HCapacity OwnerBytes)
    else
      total ← total_reserved_bytes r;
      if is_none_or (λ n, n <? rounded) (checked_sub (hl_limit (sp_heap r)) total)
      then err (HCapacity GlobalBytes)
      else
        row ←? ok_or (position (λ j, negb (is_some j)) (hl_host_storage (sp_heap r)))
                (HCapacity HostStorage);
        let token := mkHostReservation row (hl_next_job (sp_heap r)) owner in
        rows ← vec_set row (Some (mkHostStorage token logical rounded)) (hl_host_storage (sp_heap r));
        r ← charge_bytes (oa_index owner) rounded
              (set_heap (set_hl_host_storage rows (sp_heap r)) r);
        ok (heap_advance (set_heap (set_hl_next_job (hl_next_job (sp_heap r) + 1) (sp_heap r)) r), token).

Definition host_storage_record (r : ScopedPointers) (token : HostStorageReservation) :
    result HeapError HostStorageRecord :=
  _ ← account r (hsr_account token);
  match hl_host_storage (sp_heap r) !! hsr_row token with
  | Some (Some rec) => if bool_decide (hs_token rec = token) then Ok rec else Err HStaleReservation
  | _ => Err HStaleReservation
  end.

Definition check_host_storage (r : ScopedPointers) (token : HostStorageReservation)
    (owner : AllocationOwner) (expected_revision : Z) : result HeapError Z :=
  a ← account r (hsr_account token);
  if negb (bool_decide (acc_owner a = owner)) then Err HOwner
  else if acc_closed a then Err HClosed
  else if negb (expected_revision =? hl_revision (sp_heap r)) then Err HStaleRevision
  else rec ← host_storage_record r token; Ok (hs_logical rec).

Definition release_host_storage (r : ScopedPointers) (token : HostStorageReservation) :
    fallible HeapError ScopedPointers :=
  record ←? host_storage_record r token;
  a ←? account r (hsr_account token);
  if (acc_reserved a <? hs_rounded record) || (hl_reserved_bytes (sp_heap r) <? acc_reserved a)
  then err HConfiguration
  else
    rows ← vec_set (hsr_row token) None (hl_host_storage (sp_heap r));
    r ← refund_bytes (oa_index (hsr_account token)) (hs_rounded record)
          (set_heap (set_hl_host_storage rows (sp_heap r)) r);
    ok (heap_advance r).
End accounts.

(** ** Attachment and publication *)
Record HeapAttachmentPlan := mkAttachment {
  hap_reservation : HeapReservation;
  hap_owner : AllocationOwner;
  hap_logical : Z;
  hap_extents : HeapExtents;
  hap_revision : Z;
}.

Definition plan_pointer (p : HeapAttachmentPlan) : ScopedPointer :=
  mkPointer (hr_slot (hap_reservation p)) (hr_generation (hap_reservation p)) 0.

Definition prepare_heap_private (r : ScopedPointers) (h : HeapReservation)
    (current_owner : AllocationOwner) (expected_revision : Z) (attached : bool) :
    fallible HeapError HeapAttachmentPlan :=
  a ←? account r (hr_owner h);
  if negb (bool_decide (acc_owner a = current_owner)) then err HOwner
  else if acc_closed a then err HClosed
  else if negb (expected_revision =? hl_revision (sp_heap r)) then err HStaleRevision
  else if hl_revision (sp_heap r) =? u64_max then err (HCapacity Identity)
  else
    record ←? reservation_record r h;
    s ← vec_get (hr_slot h) (sp_slots r);
    row ← vec_get (hrec_cleanup record) (hl_cleanup (sp_heap r));
    if negb (bool_decide (slot_state s = SReserved))
       || negb (Bool.eqb (hrec_ever_attached record) attached)
       || hrec_published record || is_none_or cr_queued row
    then err HBusy
    else
      extents ←! reserved_extents r h;
      _ ←? record_consistent r a record extents;
      ok (mkAttachment h (acc_owner a) (hrec_logical record) extents (hl_revision (sp_heap r))).

Definition prepare_heap_attachment (r : ScopedPointers) h owner revision :=
  prepare_heap_private r h owner revision false.
Definition prepare_heap_initialization (r : ScopedPointers) h owner revision :=
  prepare_heap_private r h owner revision true.

Definition set_attached (h : HeapRecord) : HeapRecord :=
  mkHeapRecord (hrec_owner h) (hrec_logical h) (hrec_rounded h) (hrec_cleanup h)
    (hrec_published h) (hrec_writable h) true (hrec_extents h).
Definition set_published (writable : bool) (h : HeapRecord) : HeapRecord :=
  mkHeapRecord (hrec_owner h) (hrec_logical h) (hrec_rounded h) (hrec_cleanup h)
    true writable (hrec_ever_attached h) (hrec_extents h).

Definition commit_heap_attachment (r : ScopedPointers) (plan : HeapAttachmentPlan) :
    outcome ScopedPointers :=
  _ ← assert_ (hap_revision plan =? hl_revision (sp_heap r));
  s ← vec_get (hr_slot (hap_reservation plan)) (sp_slots r);
  match slot_record s with
  | RHeap record =>
      r ← set_slot (hr_slot (hap_reservation plan))
            (mkSlot (slot_generation s) (slot_state s) (RHeap (set_attached record))) r;
      Done (heap_advance r)
  | _ => Panic
  end.

Definition commit_heap_initialization (r : ScopedPointers) (plan : HeapAttachmentPlan) :
    outcome ScopedPointers :=
  _ ← assert_ (hap_revision plan =? hl_revision (sp_heap r));
  Done (heap_advance r).

Definition commit_heap_image_publication (r : ScopedPointers) (plan : HeapAttachmentPlan)
    (writable : bool) : outcome (ScopedPointers * ScopedPointer) :=
  _ ← assert_ (hap_revision plan =? hl_revision (sp_heap r));
  s ← vec_get (hr_slot (hap_reservation plan)) (sp_slots r);
  _ ← assert_ (bool_decide (slot_state s = SReserved));
  _ ← assert_ (slot_generation s =? hr_generation (hap_reservation plan));
  match slot_record s with
  | RHeap record =>
      _ ← assert_ (hrec_ever_attached record && negb (hrec_published record));
      r ← set_slot (hr_slot (hap_reservation plan))
            (mkSlot (slot_generation s) SLive (RHeap (set_published writable record))) r;
      Done (heap_advance r, plan_pointer plan)
  | _ => Panic
  end.
Definition commit_heap_publication (r : ScopedPointers) (plan : HeapAttachmentPlan) :=
  commit_heap_image_publication r plan true.

(** ** Closure of one attached lifetime *)
Inductive HeapCloseOutcome := CClosed | AlreadyClosing | AlreadyRetired.

Record HeapClosurePlan := mkClosure {
  hcp_reservation : HeapReservation;
  hcp_owner : AllocationOwner;
  hcp_logical : Z;
  hcp_writable : bool;
  hcp_extents : HeapExtents;
  hcp_cleanup : nat;
  hcp_stage : SlotState;
  hcp_revision : Z;
}.

Definition stage_pending (s : SlotState) : bool :=
  match s with SClosing | SRetired => true | _ => false end.

Definition progress_valid (j : CleanupRecord) (stage : SlotState) (rounded : Z) : bool :=
  match cr_progress j with
  | Pending => true
  | Scrubbing done => bool_decide (stage = SRetired) && (done <? rounded) && (done mod 16 =? 0)
  | Clean => bool_decide (stage = SRetired) && negb (cr_version j =? 0) && negb (cr_sequence j =? 0)
  end.

Definition prepare_attached_heap_closure (r : ScopedPointers) (h : HeapReservation)
    (owner : AllocationOwner) : fallible HeapError HeapClosurePlan :=
  a ←? account r (hr_owner h);
  if negb (bool_decide (acc_owner a = owner)) then err HOwner
  else
    record ←? reservation_record r h;
    if negb (hrec_ever_attached record) then err HBusy
    else
      s ← vec_get (hr_slot h) (sp_slots r);
      let stage := slot_state s in
      row ← vec_get (hrec_cleanup record) (hl_cleanup (sp_heap r));
      job ←? ok_or row HStaleReservation;
      if negb (Bool.eqb (cr_queued job) (stage_pending stage))
         || (acc_closed a && negb (stage_pending stage))
         || (bool_decide (stage = SReserved) && hrec_published record)
         || (bool_decide (stage = SLive) && negb (hrec_published record))
      then err HConfiguration
      else if negb (progress_valid job stage (hrec_rounded record)) then err HConfiguration
      else
        extents ←! reserved_extents r h;
        _ ←? record_consistent r a record extents;
        ok (mkClosure h owner (hrec_logical record) (hrec_writable record) extents
              (hrec_cleanup record) stage (hl_revision (sp_heap r))).

Definition commit_attached_heap_closure (r : ScopedPointers) (plan : HeapClosurePlan) :
    outcome (ScopedPointers * HeapCloseOutcome) :=
  _ ← assert_ (hcp_revision plan =? hl_revision (sp_heap r));
  s ← vec_get (hr_slot (hcp_reservation plan)) (sp_slots r);
  row ← vec_get (hcp_cleanup plan) (hl_cleanup (sp_heap r));
  job ← unwrap row;
  _ ← assert_ (slot_generation s =? hr_generation (hcp_reservation plan));
  _ ← assert_ (bool_decide (slot_state s = hcp_stage plan));
  _ ← assert_ (bool_decide (cr_reservation job = hcp_reservation plan));
  _ ← assert_ (Bool.eqb (cr_queued job) (stage_pending (hcp_stage plan)));
  match hcp_stage plan with
  | SRetired => Done (r, AlreadyRetired)
  | SClosing => Done (r, AlreadyClosing)
  | _ =>
      r ← set_slot (hr_slot (hcp_reservation plan)) (set_slot_state SClosing s) r;
      r ← queue_job (hcp_cleanup plan) r;
      Done (heap_advance r, CClosed)
  end.

(** ** Heap pointers *)
Record HeapPointerPlan := mkPointerPlan {
  hpp_reservation : HeapReservation;
  hpp_owner : AllocationOwner;
  hpp_logical : Z;
  hpp_writable : bool;
  hpp_extents : HeapExtents;
  hpp_position : Z;
}.

(** [HeapPointerPlan::rights] and [HeapClosurePlan::rights] *)
Definition heap_rights (writable : bool) : Permissions :=
  if writable then Perm.RW else Perm.READ.

Definition is_heap_pointer (r : ScopedPointers) (p : ScopedPointer) : bool :=
  is_some_and (λ s, match slot_record s with RHeap _ => true | _ => false end)
    (sp_slots r !! ptr_slot p).

Definition prepare_heap_pointer (r : ScopedPointers) (p : ScopedPointer)
    (current_owner : AllocationOwner) : fallible HeapError HeapPointerPlan :=
  s ←? ok_or (sp_slots r !! ptr_slot p) (HPointer Stale);
  if negb (slot_generation s =? ptr_generation p) || negb (bool_decide (slot_state s = SLive))
  then err (HPointer Stale)
  else match slot_record s with
       | RHeap record =>
           a ←? account r (hrec_owner record);
           if negb (bool_decide (acc_owner a = current_owner)) then err HOwner
           else if acc_closed a then err HClosed
           else if negb (hrec_ever_attached record) || negb (hrec_published record)
           then err (HPointer Stale)
           else
             job ←? ok_or (cleanup_job r (hrec_cleanup record)) HStaleReservation;
             let h := cr_reservation job in
             if cr_queued job || negb (hr_slot h =? ptr_slot p)%nat
                || negb (hr_generation h =? ptr_generation p)
                || negb (bool_decide (hr_owner h = hrec_owner record))
             then err HStaleReservation
             else
               extents ←! reserved_extents r h;
               _ ←? record_consistent r a record extents;
               if hrec_logical record <? ptr_position p then err (HPointer Bounds)
               else ok (mkPointerPlan h (acc_owner a) (hrec_logical record) (hrec_writable record)
                          extents (ptr_position p))
       | _ => err (HPointer Stale)
       end.

Definition heap_account (r : ScopedPointers) (owner : AllocationOwner) : option OwnerAccount :=
  acc_token <$> List.find (λ a, bool_decide (acc_owner a = owner)) (flatten (hl_accounts (sp_heap r))).

Definition heap_free_reservation (r : ScopedPointers) (p : ScopedPointer) (owner : AllocationOwner) :
    fallible HeapError HeapReservation :=
  if negb (ptr_position p =? 0) then err HInvalidFree
  else plan ←! prepare_heap_pointer r p owner; ok (hpp_reservation plan).

Definition add_heap_pointer (r : ScopedPointers) (p : ScopedPointer) (owner : AllocationOwner)
    (delta : Z) : fallible HeapError ScopedPointer :=
  plan ←! prepare_heap_pointer r p owner;
  position ←? ok_or (q ← checked_add_signed (ptr_position p) delta;
                     if q <=? hpp_logical plan then Some q else None) (HPointer Bounds);
  ok (mkPointer (ptr_slot p) (ptr_generation p) position).
