(* ===== verification/HeapWorkers.v ===== *)
(** * Cleanup workers and leases: [src/anka64/scoped_pointers/heap/workers.rs] and
    its submodules [cleanup.rs], [recovery.rs] and [retirement.rs];
    [scoped_pointers/heap/work.rs]

    The directory of workers, the leases they hold on queued jobs, fencing and
    recovery, retirement of a closed allocation, the progress of its scrubbing and
    the return of its memory.  These operations change the registry only; the
    fabric pairs them with their effects on memory in [FabricWork]. *)

From S2P Require Import Prelude State Extents Registry HeapLedger.

#[export] Instance WorkerState_eq_dec : EqDecision WorkerState.
Proof. solve_decision. Defined.
#[export] Instance CleanupWorkerIdentity_eq_dec : EqDecision CleanupWorkerIdentity.
Proof. solve_decision. Defined.
#[export] Instance JobLease_eq_dec : EqDecision JobLease.
Proof. solve_decision. Defined.
#[export] Instance HeapScrubProgress_eq_dec : EqDecision HeapScrubProgress.
Proof. solve_decision. Defined.
#[export] Instance CleanupRecord_eq_dec : EqDecision CleanupRecord.
Proof. solve_decision. Defined.

(** [JobLease::refers_to] *)
Definition lease_refers_to (l : JobLease) (w : CleanupWorker) : bool :=
  match l with Held _ x | Revoking _ x => bool_decide (x = w) | Unowned _ => false end.

Record CleanupLease := mkLease { cl_reservation : HeapReservation; cl_worker : CleanupWorker; cl_epoch : Z }.
#[export] Instance CleanupLease_eq_dec : EqDecision CleanupLease.
Proof. solve_decision. Defined.

Definition set_hl_workers (v : list (option WorkerRecord)) (s : HeapLedger) : HeapLedger :=
  mkLedger (hl_accounts s) (hl_cleanup s) v (hl_host_storage s) (hl_next_worker s) (hl_next_owner s)
    (hl_next_job s) (hl_revision s) (hl_fixed_bytes s) (hl_reserved_bytes s) (hl_limit s) (hl_placement s).
Definition set_hl_next_worker (v : Z) (s : HeapLedger) : HeapLedger :=
  mkLedger (hl_accounts s) (hl_cleanup s) (hl_workers s) (hl_host_storage s) v (hl_next_owner s)
    (hl_next_job s) (hl_revision s) (hl_fixed_bytes s) (hl_reserved_bytes s) (hl_limit s) (hl_placement s).
Definition set_workers (l : list (option WorkerRecord)) (r : ScopedPointers) : ScopedPointers :=
  set_heap (set_hl_workers l (sp_heap r)) r.

(** ** The directory of workers *)
Definition worker (r : ScopedPointers) (w : CleanupWorker) : result HeapError WorkerRecord :=
  if cw_row w <? 1 then Err HWorker
  else match hl_workers (sp_heap r) !! Z.to_nat (cw_row w - 1) with
       | Some (Some rec) =>
           if negb (cw_serial w =? 0) && bool_decide (wr_handle rec = w) then Ok rec else Err HWorker
       | _ => Err HWorker
       end.

Definition current_worker (r : ScopedPointers) (w : CleanupWorker) (identity : CleanupWorkerIdentity) :
    result HeapError unit :=
  row ← worker r w;
  if negb (bool_decide (wr_state row = WActive)) || (wi_context identity =? 0)
     || negb (bool_decide (wr_identity row = identity))
  then Err HWorker else Ok tt.

Definition enroll_cleanup_worker_record (r : ScopedPointers) (identity : CleanupWorkerIdentity)
    (expected : Z) : fallible HeapError (ScopedPointers * CleanupWorker) :=
  if negb (expected =? hl_revision (sp_heap r)) || (expected =? u64_max) then err HStaleRevision
  else if (wi_context identity =? 0)
          || existsb (λ x, bool_decide (wi_process (wr_identity x) = wi_process identity))
               (flatten (hl_workers (sp_heap r)))
  then err HWorker
  else if (hl_next_worker (sp_heap r) =? 0) || (hl_next_worker (sp_heap r) =? u64_max)
  then err (HCapacity Identity)
  else
    index ←? ok_or (position (λ x, negb (is_some x)) (hl_workers (sp_heap r))) (HCapacity Workers);
    let handle := mkWorker (Z.of_nat index + 1) (hl_next_worker (sp_heap r)) in
    workers ← vec_set index (Some (mkWorkerRecord handle identity WActive)) (hl_workers (sp_heap r));
    let r := set_workers workers r in
    ok (heap_advance (set_heap (set_hl_next_worker (hl_next_worker (sp_heap r) + 1) (sp_heap r)) r), handle).

(** [workers[row - 1]]: the handle was found, so that the index is in range. *)
Definition set_worker_row (w : CleanupWorker) (x : option WorkerRecord) (r : ScopedPointers) :
    outcome ScopedPointers :=
  workers ← vec_set (Z.to_nat (cw_row w - 1)) x (hl_workers (sp_heap r));
  Done (heap_advance (set_workers workers r)).

Definition fence_cleanup_worker_record (r : ScopedPointers) (w : CleanupWorker) :
    fallible HeapError ScopedPointers :=
  row ←? worker r w;
  if negb (bool_decide (wr_state row = WActive)) then err HWorker
  else r ← set_worker_row w (Some (mkWorkerRecord (wr_handle row) (wr_identity row) WFenced)) r; ok r.

Definition remove_cleanup_worker_record (r : ScopedPointers) (w : CleanupWorker) :
    fallible HeapError ScopedPointers :=
  row ←? worker r w;
  if negb (bool_decide (wr_state row = WFenced)) then err HWorker
  else if existsb (λ j, lease_refers_to (cr_lease j) w) (flatten (hl_cleanup (sp_heap r))) then err HBusy
  else r ← set_worker_row w None r; ok r.

(** ** Jobs *)

(** [self.heap.cleanup[i].ok_or(StaleReservation)], which panics out of range *)
Definition job_at (r : ScopedPointers) (i : nat) : fallible HeapError CleanupRecord :=
  row ← vec_get i (hl_cleanup (sp_heap r)); Done (ok_or row HStaleReservation).

Definition set_cr_lease (l : JobLease) (j : CleanupRecord) : CleanupRecord :=
  mkCleanup (cr_reservation j) (cr_queued j) l (cr_version j) (cr_sequence j) (cr_progress j).

(** Closing or retired, by the slot of the reservation *)
Definition slot_stage (r : ScopedPointers) (h : HeapReservation) : outcome SlotState :=
  s ← vec_get (hr_slot h) (sp_slots r); Done (slot_state s).

Record HeapWorkerClaimPlan := mkClaim {
  wcp_closure : HeapClosurePlan;
  wcp_cleanup : nat;
  wcp_prior : JobLease;
  wcp_lease : CleanupLease;
  wcp_revision : Z;
}.

Definition prepare_heap_worker_claim (r : ScopedPointers) (w : CleanupWorker)
    (identity : CleanupWorkerIdentity) (h : HeapReservation) (owner : AllocationOwner) (expected : Z) :
    fallible HeapError HeapWorkerClaimPlan :=
  if negb (expected =? hl_revision (sp_heap r)) || (expected =? u64_max) then err HStaleRevision
  else
    _ ←? current_worker r w identity;
    closure ←! prepare_attached_heap_closure r h owner;
    record ←? reservation_record r h;
    job ←! job_at r (hrec_cleanup record);
    stage ← slot_stage r h;
    if negb (stage_pending stage) || negb (cr_queued job) || negb (bool_decide (cr_progress job = Pending))
    then err HBusy
    else match cr_lease job with
         | Unowned epoch =>
             epoch ←? ok_or (checked_add epoch 1) (HCapacity Identity);
             ok (mkClaim closure (hrec_cleanup record) (cr_lease job) (mkLease h w epoch) expected)
         | _ => err HLease
         end.

Definition commit_heap_worker_claim (r : ScopedPointers) (plan : HeapWorkerClaimPlan) :
    outcome (ScopedPointers * CleanupLease) :=
  _ ← assert_ (hl_revision (sp_heap r) =? wcp_revision plan);
  row ← vec_get (wcp_cleanup plan) (hl_cleanup (sp_heap r));
  job ← unwrap row;
  _ ← assert_ (bool_decide (cr_reservation job = cl_reservation (wcp_lease plan)));
  _ ← assert_ (cr_queued job);
  _ ← assert_ (bool_decide (cr_lease job = wcp_prior plan));
  r ← set_cleanup (wcp_cleanup plan)
        (Some (set_cr_lease (Held (cl_epoch (wcp_lease plan)) (cl_worker (wcp_lease plan))) job)) r;
  Done (heap_advance r, wcp_lease plan).

Definition prepare_heap_worker_lease (r : ScopedPointers) (l : CleanupLease)
    (identity : CleanupWorkerIdentity) (owner : AllocationOwner) : fallible HeapError HeapClosurePlan :=
  _ ←? current_worker r (cl_worker l) identity;
  plan ←! prepare_attached_heap_closure r (cl_reservation l) owner;
  record ←? reservation_record r (cl_reservation l);
  job ←! job_at r (hrec_cleanup record);
  stage ← slot_stage r (cl_reservation l);
  if negb (stage_pending stage) || negb (cr_queued job) || (cl_epoch l =? 0)
     || negb (bool_decide (cr_lease job = Held (cl_epoch l) (cl_worker l)))
  then err HLease else ok plan.

(** ** Fencing and recovery of one job *)
Record HeapWorkerRecoveryPlan := mkRecovery {
  wrp_closure : HeapClosurePlan;
  wrp_cleanup : nat;
  wrp_prior : CleanupRecord;
  wrp_next_lease : JobLease;
  wrp_next_version : Z;
  wrp_revision : Z;
}.

Definition prepare_worker_transition (r : ScopedPointers) (l : CleanupLease) (owner : AllocationOwner)
    (recover : bool) : fallible HeapError HeapWorkerRecoveryPlan :=
  row ←? worker r (cl_worker l);
  closure ←! prepare_attached_heap_closure r (cl_reservation l) owner;
  record ←? reservation_record r (cl_reservation l);
  job ←! job_at r (hrec_cleanup record);
  stage ← slot_stage r (cl_reservation l);
  if negb (stage_pending stage) || negb (cr_queued job) then err HBusy
  else
    let expected := if recover then Revoking (cl_epoch l) (cl_worker l) else Held (cl_epoch l) (cl_worker l) in
    if (cl_epoch l =? 0) || negb (bool_decide (cr_lease job = expected)) then err HLease
    else
      next ←? (if recover then
                 if negb (bool_decide (wr_state row = WFenced)) then Err HWorker
                 else version ← ok_or (checked_add (cr_version job) 1) (HCapacity Identity);
                      Ok (Unowned (cl_epoch l), version)
               else Ok (Revoking (cl_epoch l) (cl_worker l), cr_version job));
      ok (mkRecovery closure (hrec_cleanup record) job next.1 next.2 (hl_revision (sp_heap r))).

Definition prepare_heap_worker_revoke (r : ScopedPointers) l owner := prepare_worker_transition r l owner false.
Definition prepare_heap_worker_recovery (r : ScopedPointers) l owner := prepare_worker_transition r l owner true.

Definition is_unowned (l : JobLease) : bool := match l with Unowned _ => true | _ => false end.

Definition commit_heap_worker_recovery (r : ScopedPointers) (plan : HeapWorkerRecoveryPlan) :
    outcome ScopedPointers :=
  _ ← assert_ (hl_revision (sp_heap r) =? wrp_revision plan);
  row ← vec_get (wrp_cleanup plan) (hl_cleanup (sp_heap r));
  _ ← assert_ (bool_decide (row = Some (wrp_prior plan)));
  job ← unwrap row;
  r ← set_cleanup (wrp_cleanup plan) (Some (mkCleanup (cr_reservation job) (cr_queued job) (wrp_next_lease plan)
        (wrp_next_version plan) (cr_sequence job)
        (if is_unowned (wrp_next_lease plan) then Pending else cr_progress job))) r;
  Done (heap_advance r).

(** ** Retirement *)
Record HeapRetirementPlan := mkRetirement {
  wtp_closure : HeapClosurePlan;
  wtp_lease : CleanupLease;
  wtp_cleanup : nat;
  wtp_revision : Z;
}.

(** [HeapClosurePlan::is_retired] *)
Definition plan_retired (p : HeapClosurePlan) : bool := bool_decide (hcp_stage p = SRetired).

Definition prepare_heap_retirement (r : ScopedPointers) (l : CleanupLease)
    (identity : CleanupWorkerIdentity) (owner : AllocationOwner) : fallible HeapError HeapRetirementPlan :=
  closure ←! prepare_heap_worker_lease r l identity owner;
  if plan_retired closure then err HLease
  else
    record ←? reservation_record r (cl_reservation l);
    ok (mkRetirement closure l (hrec_cleanup record) (hl_revision (sp_heap r))).

Definition local_backing_references (r : ScopedPointers) (object : ObjectId) : bool :=
  existsb (λ s, match slot_record s with
                | RLocal a => is_some_and (λ b, pb_object b =? object) (la_backing a)
                | _ => false
                end) (sp_slots r).

Definition commit_heap_retirement (r : ScopedPointers) (plan : HeapRetirementPlan) : outcome ScopedPointers :=
  _ ← assert_ (hl_revision (sp_heap r) =? wtp_revision plan);
  row ← vec_get (wtp_cleanup plan) (hl_cleanup (sp_heap r));
  job ← unwrap row;
  _ ← assert_ (bool_decide (cr_reservation job = cl_reservation (wtp_lease plan)));
  _ ← assert_ (cr_queued job);
  _ ← assert_ (bool_decide (cr_lease job = Held (cl_epoch (wtp_lease plan)) (cl_worker (wtp_lease plan))));
  let h := cl_reservation (wtp_lease plan) in
  s ← vec_get (hr_slot h) (sp_slots r);
  _ ← assert_ (slot_generation s =? hr_generation h);
  _ ← assert_ (bool_decide (slot_state s = SClosing));
  r ← set_slot (hr_slot h) (set_slot_state SRetired s) r;
  Done (heap_advance r).

(** ** Scrubbing *)
Record HeapCleanupStatus := mkStatus { cs_lease : CleanupLease; cs_job : CleanupRecord }.
#[export] Instance HeapCleanupStatus_eq_dec : EqDecision HeapCleanupStatus.
Proof. solve_decision. Defined.

(** [HeapCleanupStatus::done] and [is_clean] *)
Definition progress_done (p : HeapScrubProgress) (rounded : Z) : Z :=
  match p with Pending => 0 | Scrubbing done => done | Clean => rounded end.
Definition status_clean (s : HeapCleanupStatus) : bool := bool_decide (cr_progress (cs_job s) = Clean).

Record HeapCleanupPlan := mkCleanupPlan {
  kp_closure : HeapClosurePlan;
  kp_lease : CleanupLease;
  kp_cleanup : nat;
  kp_prior : CleanupRecord;
  kp_next : CleanupRecord;
  kp_revision : Z;
}.

Definition set_kp_next (j : CleanupRecord) (p : HeapCleanupPlan) : HeapCleanupPlan :=
  mkCleanupPlan (kp_closure p) (kp_lease p) (kp_cleanup p) (kp_prior p) j (kp_revision p).

Definition prepare_retired_cleanup (r : ScopedPointers) (l : CleanupLease) (identity : CleanupWorkerIdentity)
    (owner : AllocationOwner) (expected : option HeapCleanupStatus) : fallible HeapError HeapCleanupPlan :=
  closure ←! prepare_heap_worker_lease r l identity owner;
  if negb (plan_retired closure) then err HBusy
  else
    record ←? reservation_record r (cl_reservation l);
    prior ←! job_at r (hrec_cleanup record);
    if is_some_and (λ s, negb (bool_decide (s = mkStatus l prior))) expected then err HStaleCleanup
    else ok (mkCleanupPlan closure l (hrec_cleanup record) prior prior (hl_revision (sp_heap r))).

Definition prepare_heap_scrub_begin (r : ScopedPointers) (l : CleanupLease)
    (identity : CleanupWorkerIdentity) (owner : AllocationOwner) : fallible HeapError HeapCleanupPlan :=
  plan ←! prepare_retired_cleanup r l identity owner None;
  let j := kp_prior plan in
  if negb (bool_decide (cr_progress j = Pending)) then err HBusy
  else ok (set_kp_next (mkCleanup (cr_reservation j) (cr_queued j) (cr_lease j) (cr_version j)
                          (cr_sequence j) (Scrubbing 0)) plan).

Definition prepare_heap_scrub_chunk (r : ScopedPointers) (status : HeapCleanupStatus)
    (identity : CleanupWorkerIdentity) (owner : AllocationOwner) (amount : Z) :
    fallible HeapError HeapCleanupPlan :=
  plan ←! prepare_retired_cleanup r (cs_lease status) identity owner (Some status);
  let j := kp_prior plan in
  match cr_progress j with
  | Scrubbing done =>
      let rounded := ext_size (he_physical (hcp_extents (kp_closure plan))) in
      if (amount =? 0) || (4096 <? amount) || negb (amount mod 16 =? 0) || (rounded - done <? amount)
      then err HSize
      else
        version ←? ok_or (checked_add (cr_version j) 1) (HCapacity Identity);
        sequence ←? ok_or (checked_add (cr_sequence j) 1) (HCapacity Identity);
        ok (set_kp_next (mkCleanup (cr_reservation j) (cr_queued j) (cr_lease j) version sequence
              (if done + amount =? rounded then Clean else Scrubbing (done + amount))) plan)
  | _ => err HBusy
  end.

Definition check_cleanup_commit (r : ScopedPointers) (plan : HeapCleanupPlan) : outcome unit :=
  _ ← assert_ (hl_revision (sp_heap r) =? kp_revision plan);
  row ← vec_get (kp_cleanup plan) (hl_cleanup (sp_heap r));
  _ ← assert_ (bool_decide (row = Some (kp_prior plan)));
  s ← vec_get (hr_slot (cl_reservation (kp_lease plan))) (sp_slots r);
  _ ← assert_ (bool_decide (slot_state s = SRetired));
  assert_ (slot_generation s =? hr_generation (cl_reservation (kp_lease plan))).

Definition commit_heap_scrub (r : ScopedPointers) (plan : HeapCleanupPlan) :
    outcome (ScopedPointers * HeapCleanupStatus) :=
  _ ← check_cleanup_commit r plan;
  r ← set_cleanup (kp_cleanup plan) (Some (kp_next plan)) r;
  Done (heap_advance r, mkStatus (kp_lease plan) (kp_next plan)).

(** ** Release *)
Record HeapReleasePlan := mkRelease {
  rp_cleanup : HeapCleanupPlan;
  rp_placement : ReturnPlacement;
  rp_rounded : Z;
  rp_account_reserved : Z;
}.

Definition prepare_heap_release (r : ScopedPointers) (status : HeapCleanupStatus)
    (identity : CleanupWorkerIdentity) (owner : AllocationOwner) : fallible HeapError HeapReleasePlan :=
  cleanup ←! prepare_retired_cleanup r (cs_lease status) identity owner (Some status);
  if negb (status_clean status) then err HBusy
  else
    let h := hcp_reservation (kp_closure cleanup) in
    record ←? reservation_record r h;
    a ←? account r (hr_owner h);
    p ←? ok_or (hl_placement (sp_heap r)) HConfiguration;
    placement ←! prepare_cancel p h (hcp_extents (kp_closure cleanup)) (kp_revision cleanup);
    ok (mkRelease cleanup placement (hrec_rounded record) (acc_reserved a)).

Definition commit_heap_release `{Profile} (r : ScopedPointers) (plan : HeapReleasePlan) : outcome ScopedPointers :=
  _ ← check_cleanup_commit r (rp_cleanup plan);
  let h := hcp_reservation (kp_closure (rp_cleanup plan)) in
  row ← vec_get (oa_index (hr_owner h)) (hl_accounts (sp_heap r));
  a ← unwrap row;
  _ ← assert_ (acc_reserved a =? rp_account_reserved plan);
  p ← unwrap (hl_placement (sp_heap r));
  p ← commit_cancel p (hr_owner h) (rp_placement plan) (kp_revision (rp_cleanup plan));
  r ← refund_bytes (oa_index (hr_owner h)) (rp_rounded plan) (set_placement (Some p) r);
  r ← set_cleanup (kp_cleanup (rp_cleanup plan)) None r;
  s ← vec_get (hr_slot h) (sp_slots r);
  r ← set_slot (hr_slot h) (slot_release (mkSlot (slot_generation s) (slot_state s) REmpty)) r;
  r ← trim_active_slots r;
  Done (heap_advance r).

(** ** Admission of CPU work ([scoped_pointers/heap/work.rs]) *)
Definition prepare_retained_heap_work (r : ScopedPointers) (h : HeapReservation) (owner : AllocationOwner) :
    fallible HeapError HeapClosurePlan :=
  plan ←! prepare_attached_heap_closure r h owner;
  record ←? reservation_record r h;
  stage ← slot_stage r h;
  if negb (hrec_published record) || negb (match stage with SLive | SClosing => true | _ => false end)
  then err HStaleWork else ok plan.

Definition prepare_heap_work_revision (r : ScopedPointers) (expected : Z) : result HeapError Z :=
  if negb (expected =? hl_revision (sp_heap r)) || (expected =? u64_max) then Err HStaleRevision
  else Ok expected.
Definition commit_heap_work_revision (r : ScopedPointers) (plan : Z) : outcome ScopedPointers :=
  _ ← assert_ (hl_revision (sp_heap r) =? plan);
  _ ← assert_ (negb (plan =? u64_max));
  Done (heap_advance r).
Definition prepare_heap_work_cleanup_revision (r : ScopedPointers) : Z := hl_revision (sp_heap r).
Definition commit_heap_work_cleanup_revision (r : ScopedPointers) (plan : Z) : outcome ScopedPointers :=
  _ ← assert_ (hl_revision (sp_heap r) =? plan);
  Done (heap_advance r).

(** ** The directory as the service scans it ([application.rs]) *)
Record HeapJob := mkJob {
  hj_reservation : HeapReservation;
  hj_owner : AllocationOwner;
  hj_retired : bool;
  hj_lease : option CleanupLease;
  hj_progress : option HeapCleanupStatus;
}.

Definition heap_cleanup_capacity (r : ScopedPointers) : nat := length (hl_cleanup (sp_heap r)).

Definition job_lease (j : CleanupRecord) : option (option CleanupLease) :=
  match cr_lease j with
  | Unowned _ => Some None
  | Held epoch w => Some (Some (mkLease (cr_reservation j) w epoch))
  | Revoking _ _ => None
  end.

Definition heap_job (r : ScopedPointers) (index : nat) : outcome (option HeapJob) :=
  match cleanup_job r index with
  | None => Done None
  | Some job =>
      if negb (cr_queued job) then Done None
      else match account r (hr_owner (cr_reservation job)) with
           | Err _ => Done None
           | Ok a =>
               match job_lease job with
               | None => Done None
               | Some lease =>
                   let progress := l ← lease;
                     if bool_decide (cr_progress job = Pending) then None else Some (mkStatus l job) in
                   stage ← slot_stage r (cr_reservation job);
                   Done (Some (mkJob (cr_reservation job) (acc_owner a) (bool_decide (stage = SRetired))
                                 lease progress))
               end
           end
  end.
