(* ===== verification/RegistrySafety.v ===== *)
(** * Lifetimes in the pointer registry

    The well-formedness of the registry of [Registry.v] and [HeapLedger.v], kept by
    every operation, and the order in which the slots evolve: the generation of a
    slot never goes back, and within one generation its state only moves from
    reserved to live, closing, retired and free.  A pointer whose slot has moved on
    never resolves again. *)

From S2P Require Import Prelude State Extents ExtentsFacts Registry HeapLedger.

(** ** The order of slots *)
Definition rank (s : SlotState) : nat :=
  match s with SReserved => 0 | SLive => 1 | SClosing => 2 | SRetired => 3 | SFree | SExhausted => 4 end.

Definition slot_le (s s' : Slot) : Prop :=
  slot_generation s < slot_generation s' ∨
  slot_generation s = slot_generation s' ∧ (rank (slot_state s) ≤ rank (slot_state s'))%nat.
#[export] Instance slot_le_preorder : PreOrder slot_le.
Proof. split; [intros s; by right|]. intros a b c. unfold slot_le. lia. Qed.

(** The scope a live local allocation belongs to *)
Definition local_scope (s : Slot) : option Scope :=
  match slot_state s, slot_record s with SLive, RLocal a => Some (la_scope a) | _, _ => None end.

(** A slot changes within its lifetime: it advances, an idle slot stays idle, and
    no local allocation appears. *)
Definition slot_step (s s' : Slot) : Prop :=
  slot_le s s' ∧ (slot_idle s = true → slot_idle s' = true) ∧
  (local_scope s' = local_scope s ∨ local_scope s' = None).
#[export] Instance slot_step_refl : Reflexive slot_step.
Proof. intros s. split; [done|]. by split; [|left]. Qed.

Lemma release_record_step s rec : slot_step s (slot_release (mkSlot (slot_generation s) (slot_state s) rec)).
Proof.
  unfold slot_release. repeat split.
  - right. split; [done|]. cbn. destruct (_ =? _); cbn; destruct (slot_state s); cbn; lia.
  - cbn. unfold slot_idle. cbn. by destruct (_ =? _).
  - right. unfold local_scope. cbn. by destruct (_ =? _).
Qed.
Lemma release_step s : slot_step s (slot_release s).
Proof. pose proof (release_record_step s (slot_record s)) as Hs. by destruct s. Qed.
Lemma release_idle s : slot_idle (slot_release s) = true.
Proof. unfold slot_release, slot_idle. cbn. by destruct (_ =? _). Qed.
Lemma idle_local s : slot_idle s = true → local_scope s = None.
Proof. unfold slot_idle, local_scope. by destruct (slot_state s). Qed.

(** ** Well-formed registries *)
Record reg_wf (r : ScopedPointers) : Prop := {
  rw_slots_end : (sp_active_slots_end r ≤ length (sp_slots r))%nat;
  rw_scopes_end : (sp_active_scopes_end r ≤ length (sp_scopes r))%nat;
  rw_slots_idle i s : sp_slots r !! i = Some s → (sp_active_slots_end r ≤ i)%nat → slot_idle s = true;
  rw_scopes_idle i s : sp_scopes r !! i = Some s → (sp_active_scopes_end r ≤ i)%nat → s = None;
  rw_next : is_u64 (sp_next_scope r);
  rw_scope_ids i t : sp_scopes r !! i = Some (Some t) → sc_scope t < sp_next_scope r;
  rw_scope_inj i j t u : sp_scopes r !! i = Some (Some t) → sp_scopes r !! j = Some (Some u) →
    sc_scope t = sc_scope u → i = j;
  rw_locals i s sc : sp_slots r !! i = Some s → local_scope s = Some sc →
    ∃ j t, sp_scopes r !! j = Some (Some t) ∧ sc_scope t = sc;
}.

(** [r] becomes [r']: well-formedness is kept and every slot advances. *)
Definition evolves (r r' : ScopedPointers) : Prop :=
  reg_wf r → reg_wf r' ∧ Forall2 slot_le (sp_slots r) (sp_slots r').
#[export] Instance evolves_preorder : PreOrder evolves.
Proof.
  split; [intros r Hr; split; [done|]; reflexivity|].
  intros a b c Hab Hbc Ha. destruct (Hab Ha) as [Hb L1]. destruct (Hbc Hb) as [Hc L2].
  split; [done|]. by etransitivity.
Qed.

(** *** The ways a registry evolves *)
Lemma evolves_heap r h : evolves r (set_heap h r).
Proof. intros []. split; [by split|]. reflexivity. Qed.
Lemma evolves_advance r : evolves r (heap_advance r).
Proof. apply evolves_heap. Qed.

Lemma evolves_slots r l : Forall2 slot_step (sp_slots r) l → evolves r (set_slots l r).
Proof.
  intros Hl []. split; [|by eapply Forall2_impl; [exact Hl|]; intros ? ? []].
  pose proof (Forall2_length _ _ _ Hl) as Hlen. split; cbn; try done.
  - by rewrite <- Hlen.
  - intros i s' Hi Hle. destruct (Forall2_lookup_r _ _ _ _ _ Hl Hi) as (s&Hs&_&Hidle&_). eauto.
  - intros i s' sc Hi Hsc. destruct (Forall2_lookup_r _ _ _ _ _ Hl Hi) as (s&Hs&_&_&E).
    apply (rw_locals0 i s); [done|]. destruct E; congruence.
Qed.
Lemma evolves_slot r i s s' : sp_slots r !! i = Some s → slot_step s s' →
  evolves r (set_slots (<[i := s']> (sp_slots r)) r).
Proof.
  intros Hs Hst. apply evolves_slots. rewrite <- (list_insert_id (sp_slots r) i s Hs) at 1.
  apply Forall2_insert; [|done]. reflexivity.
Qed.

(** A free slot starts a new generation. *)
Lemma evolves_alloc r i s s' : sp_slots r !! i = Some s → slot_generation s' = slot_generation s + 1 →
  (∀ sc, local_scope s' = Some sc → ∃ j t, sp_scopes r !! j = Some (Some t) ∧ sc_scope t = sc) →
  evolves r (set_active_slots_end (Nat.max (sp_active_slots_end r) (S i)) (set_slots (<[i := s']> (sp_slots r)) r)).
Proof.
  intros Hs Hg Hsc []. pose proof (lookup_lt_Some _ _ _ Hs). split.
  - split; cbn; try done; [rewrite length_insert; lia| |].
    + intros j x Hj Hle. rewrite list_lookup_insert_ne in Hj by lia. eapply rw_slots_idle0; [done|lia].
    + intros j x sc Hj Hx. destruct (decide (i = j)) as [<-|].
      * rewrite list_lookup_insert_eq in Hj by done. injection Hj as <-. eauto.
      * rewrite list_lookup_insert_ne in Hj by done. eauto.
  - cbn. rewrite <- (list_insert_id (sp_slots r) i s Hs) at 1.
    apply Forall2_insert; [reflexivity|]. left. lia.
Qed.

(** [while end > 0 && p(&v[end - 1])]: in range the loop stops without a panic at
    the last entry that fails the test. *)
Lemma trim_end_spec {A} (p : A → bool) l n : (n ≤ length l)%nat →
  ∃ n', trim_end p l n = Done n' ∧ (n' ≤ n)%nat ∧
    ∀ i x, l !! i = Some x → (n' ≤ i < n)%nat → p x = true.
Proof.
  induction n as [|n IH]; intros Hn; cbn; [exists O; split; [done|]; split; [lia|intros; lia]|].
  destruct (lookup_lt_is_Some_2 l n) as [x Hx]; [lia|]. rewrite (vec_get_lookup _ _ _ Hx). cbn.
  destruct (p x) eqn:Hp.
  - destruct IH as (n'&->&?&Hall); [lia|]. exists n'. split; [done|]. split; [lia|].
    intros i y Hy ?. destruct (decide (i = n)) as [->|]; [congruence|]. apply (Hall i); [done|lia].
  - exists (S n). split; [done|]. split; [lia|intros; lia].
Qed.

Lemma evolves_end r n : (n ≤ sp_active_slots_end r)%nat →
  (∀ i s, sp_slots r !! i = Some s → (n ≤ i < sp_active_slots_end r)%nat → slot_idle s = true) →
  evolves r (set_active_slots_end n r).
Proof.
  intros Hn Hi []. split; [|reflexivity]. split; cbn; try done; [lia|].
  intros i s Hs Hle. destruct (decide (sp_active_slots_end r ≤ i)%nat); [eauto|]. apply (Hi i); [done|lia].
Qed.
Lemma trim_evolves r : reg_wf r → ∃ r', trim_active_slots r = Done r' ∧ evolves r r'.
Proof.
  intros Hr. destruct (trim_end_spec slot_idle (sp_slots r) (sp_active_slots_end r)) as (n&E&Hn&Hi); [apply Hr|].
  unfold trim_active_slots. rewrite E. cbn. eexists. split; [done|]. by apply evolves_end.
Qed.
Lemma trim_evolves_inv r r' : trim_active_slots r = Done r' → evolves r r'.
Proof. intros E Hr. destruct (trim_evolves r Hr) as (r1&E1&He). rewrite E in E1. injection E1 as <-. by apply He. Qed.

Lemma evolves_enter r index owner : sp_scopes r !! index = Some None → sp_next_scope r < u64_max →
  evolves r (set_active_scopes_end (Nat.max (sp_active_scopes_end r) (S index))
    (set_scopes (<[index := Some (mkScope (sp_next_scope r) owner None)]> (sp_scopes r))
      (set_next_scope (sp_next_scope r + 1) r))).
Proof.
  intros Hn Hlt []. pose proof (lookup_lt_Some _ _ _ Hn).
  split; [|reflexivity]. split; cbn; try done.
  - rewrite length_insert. lia.
  - intros i s Hs Hle. rewrite list_lookup_insert_ne in Hs by lia. eapply rw_scopes_idle0; [done|lia].
  - unfold is_u64, u64_max in *. lia.
  - intros i t Ht. apply list_lookup_insert_Some in Ht as [(_&[= <-]&_)|[_ Ht]]; cbn; [lia|].
    specialize (rw_scope_ids0 _ _ Ht). lia.
  - intros i j t u Ht Hu. apply list_lookup_insert_Some in Ht as [(<-&[= <-]&_)|[? Ht]];
      apply list_lookup_insert_Some in Hu as [(<-&[= <-]&_)|[? Hu]]; [done| | |eauto]; cbn.
    + specialize (rw_scope_ids0 _ _ Hu). lia.
    + specialize (rw_scope_ids0 _ _ Ht). lia.
  - intros i s sc Hs Hsc. destruct (rw_locals0 i s sc Hs Hsc) as (j&t&Ht&?). exists j, t. split; [|done].
    rewrite list_lookup_insert_ne; [done|]. congruence.
Qed.

Lemma evolves_frame r i t t' : sp_scopes r !! i = Some (Some t) → sc_scope t' = sc_scope t →
  evolves r (set_scopes (<[i := Some t']> (sp_scopes r)) r).
Proof.
  intros Hi Ht []. pose proof (lookup_lt_Some _ _ _ Hi).
  assert (∀ j u, <[i := Some t']> (sp_scopes r) !! j = Some (Some u) →
    ∃ u0, sp_scopes r !! j = Some (Some u0) ∧ sc_scope u = sc_scope u0) as Hback.
  { intros j u Hu. apply list_lookup_insert_Some in Hu as [(<-&[= <-]&_)|[_ ?]]; eauto. }
  split; [|reflexivity]. split; cbn; try done.
  - by rewrite length_insert.
  - intros j s Hs Hle. apply list_lookup_insert_Some in Hs as [(<-&_&_)|[_ Hs]]; [|eauto].
    specialize (rw_scopes_idle0 _ _ Hi Hle). done.
  - intros j u Hu. destruct (Hback j u Hu) as (u0&?&->). eauto.
  - intros j j' u u' Hu Hu' E. destruct (Hback j u Hu) as (?&?&?). destruct (Hback j' u' Hu') as (?&?&?).
    eapply rw_scope_inj0; [done..|congruence].
  - intros j s sc Hs Hsc. destruct (rw_locals0 j s sc Hs Hsc) as (j'&u&Hu&<-).
    destruct (decide (i = j')) as [<-|].
    + exists i, t'. rewrite list_lookup_insert_eq by done. split; congruence.
    + exists j', u. by rewrite list_lookup_insert_ne.
Qed.

(** A scope ends once no live local belongs to it. *)
Lemma evolves_exit r index t n : sp_scopes r !! index = Some (Some t) →
  (∀ i s, sp_slots r !! i = Some s → local_scope s ≠ Some (sc_scope t)) →
  (n ≤ sp_active_scopes_end r)%nat →
  (∀ i s, <[index := None]> (sp_scopes r) !! i = Some s → (n ≤ i < sp_active_scopes_end r)%nat → s = None) →
  evolves r (set_active_scopes_end n (set_scopes (<[index := None]> (sp_scopes r)) r)).
Proof.
  intros Ht Hno Hn Htrim [].
  assert (∀ j u, <[index := None]> (sp_scopes r) !! j = Some (Some u) → sp_scopes r !! j = Some (Some u)) as Hback.
  { intros j u Hu. apply list_lookup_insert_Some in Hu as [(_&?&_)|[_ ?]]; [done|done]. }
  split; [|reflexivity]. split; cbn; try done.
  - rewrite length_insert. lia.
  - intros j s Hs Hle. destruct (decide (sp_active_scopes_end r ≤ j)%nat); [|apply (Htrim j); [done|lia]].
    apply list_lookup_insert_Some in Hs as [(_&?&_)|[_ Hs]]; eauto.
  - eauto.
  - eauto.
  - intros j s sc Hs Hsc. destruct (rw_locals0 j s sc Hs Hsc) as (j'&u&Hu&<-). exists j', u. split; [|done].
    rewrite list_lookup_insert_ne; [done|]. intros <-. simplify_eq. by eapply Hno.
Qed.

(** ** Pointers whose lifetime is over *)
Definition stale (r : ScopedPointers) (p : ScopedPointer) : Prop :=
  ∀ s, sp_slots r !! ptr_slot p = Some s →
    ptr_generation p < slot_generation s ∨
    ptr_generation p = slot_generation s ∧ (2 ≤ rank (slot_state s))%nat.

Lemma stale_evolves r r' p : reg_wf r → evolves r r' → stale r p → stale r' p.
Proof.
  intros Hr He Hp s' Hs'. destruct (He Hr) as [_ Hl].
  destruct (Forall2_lookup_r _ _ _ _ _ Hl Hs') as (s&Hs&Hle). specialize (Hp s Hs). unfold slot_le in Hle. lia.
Qed.

Lemma stale_allocation r p d : stale r p → allocation r p d = Err Stale.
Proof.
  intros Hp. unfold allocation. destruct (sp_slots r !! ptr_slot p) as [s|] eqn:Hs; [|done]. cbn.
  destruct (Hp s Hs) as [?|[? Hr]].
  - rewrite (proj2 (Z.eqb_neq _ _)), orb_true_r by lia. done.
  - rewrite bool_decide_false; [done|]. intros E. rewrite E in Hr. cbn in Hr. lia.
Qed.
Lemma stale_heap r p o : stale r p → prepare_heap_pointer r p o = Done (Err (HPointer Stale)).
Proof.
  intros Hp. unfold prepare_heap_pointer. destruct (sp_slots r !! ptr_slot p) as [s|] eqn:Hs; [|done]. cbn.
  destruct (Hp s Hs) as [?|[? Hr]].
  - rewrite (proj2 (Z.eqb_neq _ _)) by lia. done.
  - rewrite orb_comm, bool_decide_false; [done|]. intros E. rewrite E in Hr. cbn in Hr. lia.
Qed.

(** ** The operations *)

(** Changes of the ledger only *)
Definition ledger_only (r r' : ScopedPointers) : Prop := ∃ h, r' = set_heap h r.
#[export] Instance ledger_only_preorder : PreOrder ledger_only.
Proof. split; [intros r; exists (sp_heap r); by destruct r|]. intros a b c [h ->] [h' ->]. by exists h'. Qed.
Lemma ledger_evolves r r' : ledger_only r r' → evolves r r'.
Proof. intros [h ->]. apply evolves_heap. Qed.
Lemma ledger_set r h : ledger_only r (set_heap h r).
Proof. by exists h. Qed.
Create HintDb ledger.
#[export] Hint Resolve ledger_set ledger_evolves : ledger.

Lemma set_account_ledger i a r r' : set_account i a r = Done r' → ledger_only r r'.
Proof. unfold set_account. intros E. run_binds E. guards. auto with ledger. Qed.
Lemma set_cleanup_ledger i j r r' : set_cleanup i j r = Done r' → ledger_only r r'.
Proof. unfold set_cleanup. intros E. run_binds E. guards. auto with ledger. Qed.
Lemma queue_job_ledger i r r' : queue_job i r = Done r' → ledger_only r r'.
Proof. unfold queue_job. intros E. run_binds E. by eapply set_cleanup_ledger. Qed.
Lemma with_account_ledger i g r r' : with_account i g r = Done r' → ledger_only r r'.
Proof. unfold with_account. intros E. run_binds E. by eapply set_account_ledger. Qed.

Section ledger_ops.
Context `{Profile}.

Lemma charge_ledger i n r r' : charge_bytes i n r = Done r' → ledger_only r r'.
Proof.
  unfold charge_bytes. intros E. run_binds E. guards. etransitivity; [by eapply with_account_ledger|apply ledger_set].
Qed.
Lemma refund_ledger i n r r' : refund_bytes i n r = Done r' → ledger_only r r'.
Proof.
  unfold refund_bytes. intros E. run_binds E. guards. etransitivity; [by eapply with_account_ledger|apply ledger_set].
Qed.
Lemma rebind_ledger r i e n r' : rebind_arena r i e n = Done (Ok r') → ledger_only r r'.
Proof.
  unfold rebind_arena. intros E. destruct (hl_placement _); [|guards; reflexivity].
  run_tries E. guards. apply ledger_set.
Qed.
Lemma admit_ledger r o l r' t : admit_owner r o l = Done (Ok (r', t)) → ledger_only r r'.
Proof.
  unfold admit_owner. intros E. run_tries E. guards. etransitivity; [by eapply rebind_ledger|].
  etransitivity; [by eapply set_account_ledger|]. etransitivity; [|apply ledger_set]. apply ledger_set.
Qed.
Lemma release_owner_ledger r o r' : release_owner r o = Done (Ok r') → ledger_only r r'.
Proof.
  unfold release_owner. intros E. run_tries E. guards. etransitivity; [by eapply rebind_ledger|].
  etransitivity; [by eapply set_account_ledger|]. apply ledger_set.
Qed.
Lemma release_closed_ledger n : ∀ r i r', release_closed_from r i n = Done r' → ledger_only r r'.
Proof.
  induction n as [|n IH]; cbn; intros r i r' E; [guards; reflexivity|].
  destruct (vec_get i _) as [row|]; [cbn in E|done].
  destruct (match row with Some _ => _ | None => _ end) as [r1|] eqn:E1; [cbn in E|done].
  etransitivity; [|by eapply IH]. destruct row as [a|]; [destruct (_ && _)|]; try (guards; reflexivity).
  destruct (release_owner r _) as [[r2|]|] eqn:E2; cbn in E1; guards; [by eapply release_owner_ledger|reflexivity].
Qed.
Lemma reserve_host_ledger r o l rev r' t : reserve_host_storage r o l rev = Done (Ok (r', t)) → ledger_only r r'.
Proof.
  unfold reserve_host_storage. intros E. run_tries E. guards. etransitivity; [apply ledger_set|].
  etransitivity; [by eapply charge_ledger|]. etransitivity; [|apply ledger_set]. apply ledger_set.
Qed.
Lemma release_host_ledger r t r' : release_host_storage r t = Done (Ok r') → ledger_only r r'.
Proof.
  unfold release_host_storage. intros E. run_tries E. guards. etransitivity; [apply ledger_set|].
  etransitivity; [by eapply refund_ledger|apply ledger_set].
Qed.
Lemma apply_reserve_ledger r o p r' : apply_reserve r o p = Done r' → ledger_only r r'.
Proof. unfold apply_reserve. intros E. run_binds E; guards; [apply ledger_set|reflexivity]. Qed.
Lemma apply_cancel_ledger r o p r' : apply_cancel r o p = Done r' → ledger_only r r'.
Proof. unfold apply_cancel. intros E. run_binds E; guards; [apply ledger_set|reflexivity]. Qed.
End ledger_ops.

(** *** Scopes *)
Lemma scope_owner_Some r sc o : scope_owner r sc = Some o →
  ∃ j t, sp_scopes r !! j = Some (Some t) ∧ sc_scope t = sc.
Proof.
  unfold scope_owner, active_scopes. destruct (List.find _ _) as [t|] eqn:E; [|done]. intros _.
  apply find_some in E as [Ht Hs]. bools. apply list_elem_of_In in Ht. unfold flatten in Ht.
  apply list_elem_of_omap in Ht as (x&Hx&?). unfold id in *. subst.
  apply list_elem_of_lookup in Hx as [j Hj]. apply lookup_take_Some in Hj as [Hj _]. eauto.
Qed.
Lemma is_top_Some r sc : is_top r sc = true → ∃ j t, sp_scopes r !! j = Some (Some t) ∧ sc_scope t = sc.
Proof. unfold is_top. destruct (scope_owner r sc) as [o|] eqn:E; [|done]. intros _. by eapply scope_owner_Some. Qed.

Lemma enter_evolves `{Profile} r o r' sc : enter_scope_for r o = Done (Ok (r', sc)) → evolves r r'.
Proof.
  unfold enter_scope_for. intros E. destruct (preflight_frame r 0) eqn:Hp; [cbn [try_] in E|discriminate E].
  unfold preflight_frame in Hp. destruct (_ || _) eqn:Hg in Hp; [done|]. bools.
  destruct (position _ _) as [index|] eqn:Hi; cbn in E; [|done]. apply position_Some in Hi as ([]&Hi&?); [done|].
  intros Hr. assert (sp_next_scope r < u64_max) as Hlt. { destruct (rw_next r Hr). unfold u64_max in *. lia. }
  rewrite add_u64_exact in E. 2: { destruct (rw_next r Hr). unfold is_u64, u64_max in *. lia. }
  cbn in E. destruct (vec_set _ _ _) as [l|] eqn:Hl; cbn in E; [|done]. apply vec_set_insert in Hl as [-> _]. guards.
  revert Hr. change (evolves r (heap_advance (set_active_scopes_end (Nat.max (sp_active_scopes_end r) (S index))
    (set_scopes (<[index := Some (mkScope (sp_next_scope r) o None)]> (sp_scopes r))
      (set_next_scope (sp_next_scope r + 1) r))))).
  etransitivity; [by apply evolves_enter|apply evolves_advance].
Qed.

Lemma update_first_flatten {A} (q : A → bool) (g : A → A) l x : List.find q (flatten l) = Some x →
  ∃ i, l !! i = Some (Some x) ∧ update_first (is_some_and q) (fmap g) l = <[i := Some (g x)]> l.
Proof.
  unfold flatten. induction l as [|[y|] l IH]; cbn; [done| |].
  - destruct (q y) eqn:Hq; [intros [= ->]; by exists O|]. intros E. destruct (IH E) as (i&Hi&->). by exists (S i).
  - intros E. destruct (IH E) as (i&Hi&->). by exists (S i).
Qed.
Lemma bind_frame_evolves r sc fr r' : bind_frame r sc fr = Done r' → evolves r r'.
Proof.
  unfold bind_frame. intros E. destruct (List.find _ _) as [t|] eqn:Hf; [cbn in E|done]. run_binds E. guards.
  destruct (update_first_flatten _ (λ s, mkScope (sc_scope s) (sc_owner s) (Some fr)) _ _ Hf) as (i&Hi&->).
  by eapply evolves_frame.
Qed.

(** *** Local allocations *)
Lemma register_evolves r sc d b n w r' p : register r sc d b n w = Done (Ok (r', p)) → evolves r r'.
Proof.
  unfold register. intros E. destruct (is_top r sc) eqn:Ht; [cbn in E|done]. run_tries E. guards.
  match goal with H : ok_or (free_slot r) _ = Ok ?i |- _ => unfold free_slot in H;
    destruct (position slot_available _) eqn:Hi; [|done] end. cbn in *. guards.
  match goal with H : vec_get _ _ = Done _ |- _ => apply vec_get_Done in H end.
  match goal with H : vec_set _ _ _ = Done _ |- _ => apply vec_set_insert in H as [-> _] end.
  etransitivity; [|apply evolves_advance]. eapply evolves_alloc; [done|done|].
  intros ? [= <-]. by apply is_top_Some.
Qed.
Lemma bind_backing_evolves r p b r' : bind_backing r p b = Done r' → evolves r r'.
Proof.
  unfold bind_backing. intros E. run_binds E. guards.
  match goal with H : vec_get _ _ = Done _ |- _ => apply vec_get_Done in H end.
  eapply evolves_slot; [done|]. split; [by right|]. split; [done|]. left. unfold local_scope. cbn.
  by match goal with H : slot_record _ = _ |- _ => rewrite H end.
Qed.
Lemma take_backing_evolves r p r' b : take_backing r p = (r', b) → evolves r r'.
Proof.
  unfold take_backing. intros E. destruct (sp_slots r !! ptr_slot p) as [s|] eqn:Hs; [|guards; reflexivity].
  destruct (_ || _); [guards; reflexivity|].
  destruct (slot_record s) as [|a|] eqn:Ha; guards; try reflexivity.
  eapply evolves_slot; [done|]. split; [by right|]. split; [done|]. left. unfold local_scope. cbn. by rewrite Ha.
Qed.

(** *** Leaving a scope *)
Definition released (sc : Scope) (r : ScopedPointers) : list Slot :=
  ((λ s, if in_scope sc s then slot_release s else s) <$> take (sp_active_slots_end r) (sp_slots r))
    ++ drop (sp_active_slots_end r) (sp_slots r).
Lemma released_step sc r : Forall2 slot_step (sp_slots r) (released sc r).
Proof.
  unfold released. rewrite <- (take_drop (sp_active_slots_end r) (sp_slots r)) at 1.
  apply Forall2_app; [|reflexivity]. apply Forall2_fmap_r, Forall_Forall2_diag, Forall_forall.
  intros s _. change (slot_step s (if in_scope sc s then slot_release s else s)). destruct (in_scope sc s); [apply release_step|reflexivity].
Qed.
Lemma released_lookup sc r i s' : reg_wf r → released sc r !! i = Some s' →
  ∃ s, sp_slots r !! i = Some s ∧ (s' = s ∧ (in_scope sc s = false ∨ slot_idle s = true) ∨ s' = slot_release s).
Proof.
  intros Hr. unfold released. pose proof (rw_slots_end r Hr).
  destruct (decide (i < sp_active_slots_end r)%nat).
  - rewrite lookup_app_l by (rewrite length_fmap, length_take; lia). rewrite list_lookup_fmap, lookup_take_lt by done.
    destruct (sp_slots r !! i) as [s|]; cbn; [|done]. intros [= <-]. exists s. split; [done|].
    destruct (in_scope sc s); auto.
  - rewrite lookup_app_r by (rewrite length_fmap, length_take; lia). rewrite length_fmap, length_take, Nat.min_l by lia.
    rewrite lookup_drop. replace (_ + _)%nat with i by lia. intros Hs. exists s'. split; [done|]. left.
    split; [done|]. right. apply (rw_slots_idle r Hr i); [done|lia].
Qed.

(** [leave_scope] never panics, and every local of the scope is stale afterwards. *)
Lemma leave_scope_spec r sc : reg_wf r → ∃ x, leave_scope r sc = Done x ∧
  ∀ r', x = Ok r' → evolves r r' ∧ ∀ p s, sp_slots r !! ptr_slot p = Some s → slot_generation s = ptr_generation p →
    local_scope s = Some sc → stale r' p.
Proof.
  intros Hr. unfold leave_scope. destruct (is_top r sc) eqn:Ht; cbn [negb]; [|by eexists].
  apply is_top_Some in Ht as (j&t&Hj&Hsc). fold (released sc r).
  destruct (position _ _) as [index|] eqn:Hi; cbn.
  2: { eapply (position_None _ _ (Some t)) in Hi; [|by eapply list_elem_of_lookup_2]. cbn in Hi. bools. done. }
  apply position_Some in Hi as ([u|]&Hu&Hus); [cbn in Hus; bools|done].
  pose proof (lookup_lt_Some _ _ _ Hu). unfold vec_set. rewrite (proj2 (Nat.ltb_lt _ _)) by done. cbn.
  edestruct (trim_end_spec (λ s : option ScopeRecord, negb (is_some s)) (<[index := None]> (sp_scopes r)) (sp_active_scopes_end r))
    as (n&->&Hn&Htrim); [rewrite length_insert; apply Hr|]. cbn.
  pose proof (evolves_slots r (released sc r) (released_step sc r)) as H1.
  assert (evolves (set_slots (released sc r) r)
    (set_active_scopes_end n (set_scopes (<[index := None]> (sp_scopes r)) (set_slots (released sc r) r)))) as H2.
  { apply (evolves_exit (set_slots (released sc r) r) index u); cbn; [done| |done|].
    - intros i s' Hs' Hl. destruct (released_lookup _ _ _ _ Hr Hs') as (s&Hs&[[-> [Hin|Hid]]| ->]).
      + unfold local_scope, in_scope in *. destruct (slot_state s), (slot_record s); try done. injection Hl as Hl. bools. congruence.
      + by rewrite idle_local in Hl.
      + by rewrite idle_local in Hl by apply release_idle.
    - intros i [] Hs Hle; [|done]. specialize (Htrim i _ Hs Hle). done. }
  destruct (H1 Hr) as [Hr1 _]. destruct (H2 Hr1) as [Hr2 _].
  destruct (trim_evolves _ Hr2) as (r3&E3&H3).
  unfold trim_active_slots in E3. cbn in E3. rewrite E3. cbn. eexists. split; [done|]. intros r' [= <-].
  assert (evolves (set_slots (released sc r) r) (heap_advance r3)) as H4.
  { etransitivity; [exact H2|]. etransitivity; [exact H3|apply evolves_advance]. }
  split; [by etransitivity|]. intros p s Hs Hg Hl. apply (stale_evolves (set_slots (released sc r) r)); [done|done|].
  intros s' Hs'. cbn in Hs'. destruct (released_lookup _ _ _ _ Hr Hs') as (s0&Hs0&Hc). simplify_eq.
  destruct Hc as [[-> [Hin|Hid]]| ->].
  - unfold local_scope, in_scope in *. destruct (slot_state s), (slot_record s); try done. injection Hl as Hl. bools. congruence.
  - by rewrite idle_local in Hl.
  - right. split; [done|]. unfold slot_release. cbn. destruct (_ =? _); cbn; lia.
Qed.

Lemma leave_scope_evolves r sc r' : leave_scope r sc = Done (Ok r') → evolves r r'.
Proof. intros E Hr. destruct (leave_scope_spec r sc Hr) as (x&E1&Hx). rewrite E in E1. injection E1 as <-. by apply Hx. Qed.

(** *** Heap allocations *)
Lemma set_slot_evolves i s s' r r' : set_slot i s' r = Done r' → sp_slots r !! i = Some s → slot_step s s' → evolves r r'.
Proof. unfold set_slot. intros E Hs Hst. run_binds E. apply vec_set_insert in E0 as [-> _]. guards. by eapply evolves_slot. Qed.

(** The state of a heap slot advances. *)
Lemma heap_slot_step s st h h' : slot_record s = RHeap h → (rank (slot_state s) ≤ rank st)%nat →
  (rank (slot_state s) < 4)%nat → slot_step s (mkSlot (slot_generation s) st (RHeap h')).
Proof.
  intros Hh Hr Hlt. split; [by right|]. split; [|right; unfold local_scope; cbn; by destruct st].
  unfold slot_idle. destruct (slot_state s); cbn in Hlt; try done; lia.
Qed.
Lemma heap_state_step s st h : slot_record s = RHeap h → (rank (slot_state s) ≤ rank st)%nat →
  (rank (slot_state s) < 4)%nat → slot_step s (set_slot_state st s).
Proof. intros Hh Hr Hlt. unfold set_slot_state. rewrite Hh. by eapply heap_slot_step. Qed.

Section heap_ops.
Context `{Profile}.

Lemma reserve_heap_evolves r o n rev r' h : reserve_heap r o n rev = Done (Ok (r', h)) → evolves r r'.
Proof.
  unfold reserve_heap. intros E. run_tries E. guards.
  match goal with E1 : apply_reserve _ _ _ = Done _ |- _ => destruct (apply_reserve_ledger _ _ _ _ E1) as [hh ->] end.
  match goal with E1 : charge_bytes _ _ _ = Done _, E2 : set_cleanup _ _ _ = Done _ |- _ =>
    apply charge_ledger, ledger_evolves in E1; apply set_cleanup_ledger, ledger_evolves in E2 end.
  match goal with E1 : vec_get _ _ = Done _ |- _ => apply vec_get_Done in E1 end.
  match goal with E1 : set_slot _ _ _ = Done _ |- _ => unfold set_slot in E1; run_binds E1; guards end.
  match goal with E1 : vec_set _ _ _ = Done _ |- _ => apply vec_set_insert in E1 as [-> _] end.
  etransitivity; [apply (evolves_heap r hh)|]. etransitivity; [|apply evolves_advance]. etransitivity; [|apply evolves_heap].
  etransitivity; [|eassumption]. etransitivity; [|eassumption]. by eapply (evolves_alloc (set_heap hh r)).
Qed.

Lemma abort_heap_evolves r h r' : abort_heap r h = Done (Ok r') → evolves r r'.
Proof.
  unfold abort_heap. intros E. run_tries E. guards.
  match goal with E1 : apply_cancel _ _ _ = Done _, E2 : refund_bytes _ _ _ = Done _, E3 : set_cleanup _ _ _ = Done _ |- _ =>
    apply apply_cancel_ledger, ledger_evolves in E1; apply refund_ledger, ledger_evolves in E2;
    apply set_cleanup_ledger, ledger_evolves in E3 end.
  match goal with E1 : trim_active_slots _ = Done _ |- _ => apply trim_evolves_inv in E1 end.
  do 3 (etransitivity; [eassumption|]). etransitivity; [|etransitivity; [eassumption|apply evolves_advance]].
  match goal with E1 : set_slot _ _ ?r = Done _, E2 : vec_get _ (sp_slots ?r) = Done ?s |- _ =>
    apply vec_get_Done in E2; eapply set_slot_evolves; [exact E1|exact E2|]; apply release_record_step end.
Qed.


Lemma close_heap_evolves r o p r' : close_heap r o p = Done (Ok r') → evolves r r'.
Proof.
  unfold close_heap. intros E. run_tries E. guards. bools.
  match goal with E1 : queue_job _ _ = Done _ |- _ => apply queue_job_ledger, ledger_evolves in E1 end.
  etransitivity; [|etransitivity; [eassumption|apply evolves_advance]].
  match goal with E1 : set_slot _ (set_slot_state _ ?s) r = Done _ |- _ => eapply (set_slot_evolves _ s); [exact E1| |] end.
  - by match goal with E1 : ok_or ?o _ = Ok _ |- _ => destruct o; [cbn in E1; guards|done] end.
  - match goal with E1 : slot_state _ = SLive |- _ => eapply heap_state_step; [done|rewrite E1; cbn; lia..] end.
Qed.

Lemma close_owner_evolves r o r' n : close_owner r o = Done (Ok (r', n)) → evolves r r'.
Proof.
  unfold close_owner. intros E. run_tries E; guards; [reflexivity|].
  match goal with E1 : with_account _ _ _ = Done _ |- _ => apply with_account_ledger, ledger_evolves in E1 end.
  etransitivity; [eassumption|]. etransitivity; [|apply evolves_advance]. etransitivity; [|apply evolves_heap].
  apply evolves_slots, Forall2_fmap_r, Forall_Forall2_diag, Forall_forall.
  intros s _. change (slot_step s (close_slot o s)). unfold close_slot. destruct (slot_record s) eqn:Hs; try reflexivity.
  destruct (_ && _) eqn:Hc; [bools|reflexivity].
  eapply heap_state_step; [done|..]; destruct (slot_state s); cbn; try done; lia.
Qed.
End heap_ops.

Lemma attachment_evolves r plan r' : commit_heap_attachment r plan = Done r' → evolves r r'.
Proof.
  unfold commit_heap_attachment. intros E. run_binds E. guards. etransitivity; [|apply evolves_advance].
  match goal with E1 : vec_get _ _ = Done ?s |- _ => apply vec_get_Done in E1; eapply (set_slot_evolves _ s); [done|done|] end.
  split; [by right|]. split; [done|right]. unfold local_scope. cbn. by destruct (slot_state _).
Qed.
Lemma initialization_evolves r plan r' : commit_heap_initialization r plan = Done r' → evolves r r'.
Proof. unfold commit_heap_initialization. intros E. run_binds E. guards. apply evolves_advance. Qed.
Lemma publication_evolves r plan w r' p : commit_heap_image_publication r plan w = Done (r', p) → evolves r r'.
Proof.
  unfold commit_heap_image_publication. intros E. run_binds E. guards. etransitivity; [|apply evolves_advance].
  match goal with E1 : vec_get _ _ = Done ?s |- _ => apply vec_get_Done in E1; eapply (set_slot_evolves _ s); [done|done|] end.
  match goal with E1 : assert_ (bool_decide (slot_state _ = SReserved)) = _ |- _ =>
    unfold assert_ in E1; case_bool_decide as Hst; [|done] end.
  eapply heap_slot_step; [done|rewrite Hst; cbn; lia..].
Qed.

(** The plan of a closure is of a slot that is still held. *)
Lemma closure_stage r h o plan : prepare_attached_heap_closure r h o = Done (Ok plan) →
  hcp_reservation plan = h ∧ ∃ s record, sp_slots r !! hr_slot h = Some s ∧ slot_record s = RHeap record ∧
    slot_held (slot_state s) = true.
Proof.
  unfold prepare_attached_heap_closure. intros E. run_tries E. guards. cbn. split; [done|].
  match goal with E1 : reservation_record r h = Ok _ |- _ => unfold reservation_record in E1 end.
  destruct (account r (hr_owner h)); [cbn in *|done]. destruct (sp_slots r !! hr_slot h) as [s|] eqn:Hs; [cbn in *|done].
  destruct (_ || _) eqn:Hg in E2; [done|]. bools. destruct (slot_record s) eqn:Hrec; [done|done|]. eauto.
Qed.
Lemma closure_evolves r h o plan r' x : prepare_attached_heap_closure r h o = Done (Ok plan) →
  commit_attached_heap_closure r plan = Done (r', x) → evolves r r'.
Proof.
  intros Hp. apply closure_stage in Hp as (Hh&s&record&Hs&Hrec&Hheld).
  unfold commit_attached_heap_closure. intros E. rewrite Hh, (vec_get_lookup _ _ _ Hs) in E. run_binds E; guards; try reflexivity.
  all: match goal with E1 : queue_job _ _ = Done _ |- _ => apply queue_job_ledger, ledger_evolves in E1 end;
    etransitivity; [|etransitivity; [eassumption|apply evolves_advance]]; eapply set_slot_evolves; [done|done|];
    match goal with E1 : assert_ (bool_decide (slot_state _ = _)) = _ |- _ =>
      unfold assert_ in E1; case_bool_decide as Hst; [|done] end;
    eapply heap_state_step; [done|..]; destruct (slot_state s); cbn; try done; try lia; congruence.
Qed.

(** *** Construction *)
Lemma fresh_registry_wf n m h : reg_wf (mkRegistry (replicate n slot_empty) (replicate m None) 0 0 1 h).
Proof.
  split; cbn; try lia.
  - intros i s [-> _]%lookup_replicate _. done.
  - by intros i s [-> _]%lookup_replicate _.
  - done.
  - by intros i t [? _]%lookup_replicate.
  - by intros i j t u [? _]%lookup_replicate.
  - by intros i s sc [-> _]%lookup_replicate.
Qed.
Lemma with_limits_wf `{Host} l r : with_limits l = Ok r → reg_wf r.
Proof.
  unfold with_limits, fixed_table. intros E. destruct (_ || _); [done|].
  destruct (registry_footprint _ _ _ _ _); [cbn in E|done]. destruct (_ <? _); [done|].
  destruct (reserve_exact (lim_slots l)); [cbn in E|discriminate E].
  destruct (reserve_exact (lim_scopes l)); [cbn in E|discriminate E].
  destruct (reserve_exact (lim_owners l)); [cbn in E|discriminate E].
  destruct (reserve_exact (lim_cleanup l)); [cbn in E|discriminate E].
  destruct (registry_footprint _ _ _ _ _); [cbn in E|discriminate E].
  destruct (_ <? _); [done|]. injection E as <-. apply fresh_registry_wf.
Qed.
Lemma registry_new_wf `{Host} n r : registry_new n = Done r → reg_wf r.
Proof. unfold registry_new. destruct (with_limits _) eqn:E; [|done]. intros [= <-]. by eapply with_limits_wf. Qed.
