(* ===== verification/RegistryOps.v ===== *)
(** * The operations on the pointer registry

    Everything the machine does to the registry, as one relation: the scopes and
    locals of frames, the accounts and reservations of the heap, and the commits of
    the heap service.  Every operation evolves the registry: no slot goes back. *)

From S2P Require Import Prelude State Extents ExtentsFacts Registry PointerFrames HeapLedger HeapWorkers RegistrySafety.

Section ops.
Context `{Profile}.

(** Scopes and their locals *)
Inductive scope_op (r : ScopedPointers) : ScopedPointers → Prop :=
| so_enter o r' sc : enter_scope_for r o = Done (Ok (r', sc)) → scope_op r r'
| so_bind_frame sc fr r' : bind_frame r sc fr = Done r' → scope_op r r'
| so_register sc d b n w r' p : register r sc d b n w = Done (Ok (r', p)) → scope_op r r'
| so_bind_backing p b r' : bind_backing r p b = Done r' → scope_op r r'
| so_take_backing p r' b : take_backing r p = (r', b) → scope_op r r'
| so_leave sc r' : leave_scope r sc = Done (Ok r') → scope_op r r'.

(** Accounts, reservations and workers *)
Inductive ledger_op (r : ScopedPointers) : ScopedPointers → Prop :=
| lo_admit o l r' t : admit_owner r o l = Done (Ok (r', t)) → ledger_op r r'
| lo_release_owner o r' : release_owner r o = Done (Ok r') → ledger_op r r'
| lo_release_closed r' : release_closed_heap_accounts r = Done r' → ledger_op r r'
| lo_reserve_host o l rev r' t : reserve_host_storage r o l rev = Done (Ok (r', t)) → ledger_op r r'
| lo_release_host t r' : release_host_storage r t = Done (Ok r') → ledger_op r r'
| lo_reserve o n rev r' h : reserve_heap r o n rev = Done (Ok (r', h)) → ledger_op r r'
| lo_abort h r' : abort_heap r h = Done (Ok r') → ledger_op r r'
| lo_close o p r' : close_heap r o p = Done (Ok r') → ledger_op r r'
| lo_close_owner o r' n : close_owner r o = Done (Ok (r', n)) → ledger_op r r'
| lo_publish h o rev plan w r' p : prepare_heap_initialization r h o rev = Done (Ok plan) →
    commit_heap_image_publication r plan w = Done (r', p) → ledger_op r r'
| lo_fence w r' : fence_cleanup_worker_record r w = Done (Ok r') → ledger_op r r'
| lo_remove w r' : remove_cleanup_worker_record r w = Done (Ok r') → ledger_op r r'.

(** The commits behind the operations of the fabric on its heap *)
Inductive custody_op (r : ScopedPointers) : ScopedPointers → Prop :=
| co_attach plan r' : commit_heap_attachment r plan = Done r' → custody_op r r'
| co_initialize plan r' : commit_heap_initialization r plan = Done r' → custody_op r r'
| co_close h o plan r' x : prepare_attached_heap_closure r h o = Done (Ok plan) →
    commit_attached_heap_closure r plan = Done (r', x) → custody_op r r'
| co_enroll i rev r' w : enroll_cleanup_worker_record r i rev = Done (Ok (r', w)) → custody_op r r'
| co_claim plan r' l : commit_heap_worker_claim r plan = Done (r', l) → custody_op r r'
| co_recover plan r' : commit_heap_worker_recovery r plan = Done r' → custody_op r r'
| co_retire plan r' : commit_heap_retirement r plan = Done r' → custody_op r r'
| co_scrub plan r' s : commit_heap_scrub r plan = Done (r', s) → custody_op r r'
| co_release plan r' : commit_heap_release r plan = Done r' → custody_op r r'
| co_work plan r' : commit_heap_work_revision r plan = Done r' → custody_op r r'
| co_work_cleanup plan r' : commit_heap_work_cleanup_revision r plan = Done r' → custody_op r r'.

Inductive registry_op (r r' : ScopedPointers) : Prop :=
| ro_scope : scope_op r r' → registry_op r r'
| ro_ledger : ledger_op r r' → registry_op r r'
| ro_custody : custody_op r r' → registry_op r r'.

(** ** Every operation evolves the registry *)
Lemma scope_op_evolves r r' : scope_op r r' → evolves r r'.
Proof.
  destruct 1; [by eapply enter_evolves|by eapply bind_frame_evolves|by eapply register_evolves|by eapply bind_backing_evolves
    |by eapply take_backing_evolves|by eapply leave_scope_evolves].
Qed.

Lemma set_worker_row_ledger w x r r' : set_worker_row w x r = Done r' → ledger_only r r'.
Proof. unfold set_worker_row. intros E. run_binds E. guards. unfold set_workers. by eexists. Qed.
Lemma fence_ledger r w r' : fence_cleanup_worker_record r w = Done (Ok r') → ledger_only r r'.
Proof. unfold fence_cleanup_worker_record. intros E. run_tries E. guards. by eapply set_worker_row_ledger. Qed.
Lemma remove_ledger r w r' : remove_cleanup_worker_record r w = Done (Ok r') → ledger_only r r'.
Proof. unfold remove_cleanup_worker_record. intros E. run_tries E. guards. by eapply set_worker_row_ledger. Qed.
Lemma enroll_ledger r i rev r' w : enroll_cleanup_worker_record r i rev = Done (Ok (r', w)) → ledger_only r r'.
Proof. unfold enroll_cleanup_worker_record. intros E. run_tries E. guards. unfold set_workers. by eexists. Qed.

Lemma ledger_op_evolves r r' : ledger_op r r' → evolves r r'.
Proof.
  destruct 1.
  - by eapply ledger_evolves, admit_ledger.
  - by eapply ledger_evolves, release_owner_ledger.
  - by eapply ledger_evolves, release_closed_ledger.
  - by eapply ledger_evolves, reserve_host_ledger.
  - by eapply ledger_evolves, release_host_ledger.
  - by eapply reserve_heap_evolves.
  - by eapply abort_heap_evolves.
  - by eapply close_heap_evolves.
  - by eapply close_owner_evolves.
  - by eapply publication_evolves.
  - by eapply ledger_evolves, fence_ledger.
  - by eapply ledger_evolves, remove_ledger.
Qed.

(** A job of the directory is replaced. *)
Lemma cleanup_evolves i j r r' : set_cleanup i j r = Done r' → evolves r (heap_advance r').
Proof. intros E. etransitivity; [by eapply ledger_evolves, set_cleanup_ledger|apply evolves_advance]. Qed.

Lemma retirement_evolves r plan r' : commit_heap_retirement r plan = Done r' → evolves r r'.
Proof.
  unfold commit_heap_retirement, assert_. intros E. run_binds E. guards. etransitivity; [|apply evolves_advance].
  match goal with E1 : vec_get _ (sp_slots _) = Done ?s |- _ => apply vec_get_Done in E1; eapply (set_slot_evolves _ s); [done|done|] end.
  match goal with E1 : (if bool_decide (slot_state ?s = SClosing) then _ else _) = _ |- _ => destruct (decide (slot_state s = SClosing)) as [Hst|Hst]; [|by rewrite bool_decide_false in E1] end.
  split; [right; rewrite Hst; cbn; split; [done|lia]|]. split; [unfold slot_idle; by rewrite Hst|]. right. by unfold local_scope.
Qed.
Lemma release_evolves r plan r' : commit_heap_release r plan = Done r' → evolves r r'.
Proof.
  unfold commit_heap_release. intros E. run_binds E. guards.
  match goal with E1 : trim_active_slots _ = Done _ |- _ => apply trim_evolves_inv in E1 end.
  match goal with E1 : refund_bytes _ _ _ = Done _, E2 : set_cleanup _ _ _ = Done _ |- _ =>
    apply refund_ledger, ledger_evolves in E1; apply set_cleanup_ledger, ledger_evolves in E2 end.
  etransitivity; [apply (evolves_heap r)|]. etransitivity; [eassumption|]. etransitivity; [eassumption|].
  etransitivity; [|etransitivity; [eassumption|apply evolves_advance]].
  match goal with E1 : set_slot _ _ ?r = Done _, E2 : vec_get _ (sp_slots ?r) = Done ?s |- _ =>
    apply vec_get_Done in E2; eapply set_slot_evolves; [exact E1|exact E2|]; apply release_record_step end.
Qed.

Lemma custody_op_evolves r r' : custody_op r r' → evolves r r'.
Proof.
  destruct 1 as [? ? E|? ? E|? ? ? ? ? Hp E|? ? ? ? E|? ? ? E|? ? E|? ? E|? ? ? E|? ? E|? ? E|? ? E].
  - by eapply attachment_evolves.
  - by eapply initialization_evolves.
  - by eapply closure_evolves.
  - by eapply ledger_evolves, enroll_ledger.
  - unfold commit_heap_worker_claim in E. run_binds E. guards. by eapply cleanup_evolves.
  - unfold commit_heap_worker_recovery in E. run_binds E. guards. by eapply cleanup_evolves.
  - by eapply retirement_evolves.
  - unfold commit_heap_scrub in E. run_binds E. guards. by eapply cleanup_evolves.
  - by eapply release_evolves.
  - unfold commit_heap_work_revision in E. run_binds E. guards. apply evolves_advance.
  - unfold commit_heap_work_cleanup_revision in E. run_binds E. guards. apply evolves_advance.
Qed.

Lemma registry_op_evolves r r' : registry_op r r' → evolves r r'.
Proof. destruct 1; [by apply scope_op_evolves|by apply ledger_op_evolves|by apply custody_op_evolves]. Qed.

(** Any number of operations *)
Definition registry_run : ScopedPointers → ScopedPointers → Prop := rtc registry_op.
Lemma registry_run_evolves r r' : registry_run r r' → evolves r r'.
Proof. induction 1 as [|a b c Hab _ IH]; [reflexivity|]. etransitivity; [by apply registry_op_evolves|done]. Qed.
Lemma scope_run_registry r r' : rtc scope_op r r' → registry_run r r'.
Proof. apply rtc_subrel. intros ? ?. apply ro_scope. Qed.
#[export] Instance registry_run_preorder : PreOrder registry_run.
Proof. unfold registry_run. apply _. Qed.
End ops.
