(* ===== verification/HeapLives.v ===== *)
(** * The lives of heap allocations

    A heap allocation is a slot of the registry together with a job of the cleanup
    table.  The two tables stay matched; the extent of an attached allocation does
    not change; its lease only moves forward through held, revoked and returned, so
    that a lease that was revoked is never honoured again; and what has been
    scrubbed is only forgotten, never claimed without the work. *)

From S2P Require Import Prelude State Extents ExtentsFacts Registry HeapLedger HeapWorkers RegistrySafety.

(** ** Matched tables *)

(** Slot [i] holds the heap record [rec], and [j] is its job. *)
Record life (r : ScopedPointers) (i : nat) (s : Slot) (rec : HeapRecord) (j : CleanupRecord) : Prop := {
  lf_slot : sp_slots r !! i = Some s;
  lf_held : slot_held (slot_state s) = true;
  lf_rec : slot_record s = RHeap rec;
  lf_job : cleanup_job r (hrec_cleanup rec) = Some j;
  lf_res : hr_slot (cr_reservation j) = i;
  lf_gen : hr_generation (cr_reservation j) = slot_generation s;
  lf_own : hr_owner (cr_reservation j) = hrec_owner rec;
}.

Record heap_wf (r : ScopedPointers) : Prop := {
  hw_slot i s rec : sp_slots r !! i = Some s → slot_held (slot_state s) = true → slot_record s = RHeap rec →
    ∃ j, life r i s rec j;
  hw_job c j : cleanup_job r c = Some j →
    ∃ s rec, life r (hr_slot (cr_reservation j)) s rec j ∧ hrec_cleanup rec = c;
  hw_pending i s rec j : life r i s rec j → slot_state s ≠ SRetired → cr_progress j = Pending;
  hw_next c j : cleanup_job r c = Some j → hr_job (cr_reservation j) < hl_next_job (sp_heap r);
}.

Lemma life_fun r i s rec j s' rec' j' : life r i s rec j → life r i s' rec' j' → s' = s ∧ rec' = rec ∧ j' = j.
Proof. intros [] []. simplify_eq. by rewrite lf_rec0 in lf_rec1; simplify_eq. Qed.

(** ** Leases move forward *)
Definition lease_rank (l : JobLease) : Z :=
  match l with Held e _ => 3 * e | Revoking e _ => 3 * e + 1 | Unowned e => 3 * e + 2 end.

(** Progress is kept or forgotten. *)
Definition progress_le (p p' : HeapScrubProgress) : Prop := p' = p ∨ p' = Pending ∨ p' = Scrubbing 0.

(** The allocation of slot [i] goes on: same lifetime, same extents, same job. *)
Record goes_on (s : Slot) (rec : HeapRecord) (j : CleanupRecord) (s' : Slot) (rec' : HeapRecord) (j' : CleanupRecord) : Prop := {
  go_gen : slot_generation s' = slot_generation s;
  go_attached : hrec_ever_attached rec' = true;
  go_extents : hrec_extents rec' = hrec_extents rec;
  go_cleanup : hrec_cleanup rec' = hrec_cleanup rec;
  go_res : cr_reservation j' = cr_reservation j;
  go_progress : progress_le (cr_progress j) (cr_progress j');
}.
Lemma goes_on_refl s rec j : hrec_ever_attached rec = true → goes_on s rec j s rec j.
Proof. by split; [..|left]. Qed.
Lemma goes_on_trans s rec j s1 rec1 j1 s2 rec2 j2 :
  goes_on s rec j s1 rec1 j1 → goes_on s1 rec1 j1 s2 rec2 j2 → goes_on s rec j s2 rec2 j2.
Proof. intros [? ? ? ? ? P] [? ? ? ? ? Q]. split; try congruence. destruct P as [P|P], Q as [Q|Q]; rewrite ?Q; [by left|by right|by right|by right]. Qed.

(** [r] becomes [r']: every attached allocation outside [X] goes on, and a job is an
    old one with a later lease, or new. *)
Record heap_keep (X : nat → Prop) (r r' : ScopedPointers) : Prop := {
  hk_life i s rec j : ¬ X i → life r i s rec j → hrec_ever_attached rec = true →
    ∃ s' rec' j', life r' i s' rec' j' ∧ goes_on s rec j s' rec' j';
  hk_next : hl_next_job (sp_heap r) ≤ hl_next_job (sp_heap r');
  hk_jobs c j' : cleanup_job r' c = Some j' →
    (∃ j, cleanup_job r c = Some j ∧ cr_reservation j' = cr_reservation j ∧
      lease_rank (cr_lease j) ≤ lease_rank (cr_lease j')) ∨
    hl_next_job (sp_heap r) ≤ hr_job (cr_reservation j');
}.
Definition advances (X : nat → Prop) (r r' : ScopedPointers) : Prop := heap_wf r → heap_wf r' ∧ heap_keep X r r'.
Definition nobody (i : nat) : Prop := False.

#[export] Instance advances_refl X : Reflexive (advances X).
Proof.
  intros r Hr. split; [done|]. split; [|done|].
  - intros i s rec j _ Hl Ha. exists s, rec, j. split; [done|by apply goes_on_refl].
  - intros c j Hj. left. by exists j.
Qed.
#[export] Instance advances_trans X : Transitive (advances X).
Proof.
  intros a b c Hab Hbc Ha. destruct (Hab Ha) as [Hb [L1 N1 J1]]. destruct (Hbc Hb) as [Hc [L2 N2 J2]].
  split; [done|]. split; [|lia|].
  - intros i s rec j HX Hl Hat. destruct (L1 i s rec j HX Hl Hat) as (s1&rec1&j1&Hl1&G1).
    destruct (L2 i s1 rec1 j1 HX Hl1) as (s2&rec2&j2&Hl2&G2); [apply G1|]. exists s2, rec2, j2. split; [done|by eapply goes_on_trans].
  - intros k j2 Hj2. destruct (J2 k j2 Hj2) as [(j1&Hj1&R1&K1)|?]; [|right; lia].
    destruct (J1 k j1 Hj1) as [(j0&Hj0&R0&K0)|?]; [left; exists j0; split_and!; [done|congruence|lia]|right; rewrite R1; lia].
Qed.

(** ** Ways to advance *)

(** Slots that are not of the heap, and the rest of the ledger *)
Lemma advances_same X r r' :
  (∀ i s rec, slot_held (slot_state s) = true → slot_record s = RHeap rec →
     sp_slots r !! i = Some s ↔ sp_slots r' !! i = Some s) →
  hl_cleanup (sp_heap r') = hl_cleanup (sp_heap r) → hl_next_job (sp_heap r) ≤ hl_next_job (sp_heap r') → advances X r r'.
Proof.
  intros Hs Hc Hn [W1 W2 W3 W4]. assert (∀ c, cleanup_job r' c = cleanup_job r c) as Hj by (intros c; unfold cleanup_job; by rewrite Hc).
  assert (∀ i s rec j, life r i s rec j ↔ life r' i s rec j) as Hl.
  { intros i s rec j. split; intros []; split; try done; rewrite ?Hj in *; try done; by eapply Hs. }
  split; split; try done.
  - intros i s rec Hi Hh Hr. destruct (W1 i s rec) as [j ?]; [by eapply Hs|done|done|]. exists j. by apply Hl.
  - intros c j Hcj. rewrite Hj in Hcj. destruct (W2 c j Hcj) as (s&rec&?&?). exists s, rec. split; [by apply Hl|done].
  - intros i s rec j Hlife. apply (W3 i s rec j). by apply Hl.
  - intros c j. rewrite Hj. intros Hcj. specialize (W4 c j Hcj). lia.
  - intros i s rec j _ Hlife Ha. exists s, rec, j. split; [by apply Hl|by apply goes_on_refl].
  - intros c j. rewrite Hj. intros. left. by exists j.
Qed.
Lemma advances_advance X r : advances X r (heap_advance r).
Proof. by apply advances_same. Qed.

Lemma cleanup_job_insert r c j l c' : hl_cleanup l = <[c := j]> (hl_cleanup (sp_heap r)) →
  (c < length (hl_cleanup (sp_heap r)))%nat →
  cleanup_job (set_heap l r) c' = if decide (c' = c) then j else cleanup_job r c'.
Proof.
  intros Hl Hc. unfold cleanup_job. cbn. rewrite Hl. destruct (decide (c' = c)) as [->|].
  - rewrite list_lookup_insert_eq by done. by destruct j.
  - by rewrite list_lookup_insert_ne.
Qed.

Section update.
Context (X : nat → Prop) (r r' : ScopedPointers) (i : nat) (s : Slot) (rec : HeapRecord) (j : CleanupRecord).
Hypothesis Hlife : life r i s rec j.

Lemma job_of_other i2 s2 rec2 j2 : life r i2 s2 rec2 j2 → i2 ≠ i → hrec_cleanup rec2 ≠ hrec_cleanup rec.
Proof. intros [] Hne E. destruct Hlife. rewrite E in *. congruence. Qed.

Lemma life_index : (i < length (sp_slots r))%nat ∧ (hrec_cleanup rec < length (hl_cleanup (sp_heap r)))%nat.
Proof.
  destruct Hlife as [Hs _ _ Hj _ _ _]. split; [by eapply lookup_lt_Some|]. unfold cleanup_job in Hj.
  destruct (hl_cleanup _ !! _) eqn:E; [|done]. by eapply lookup_lt_Some.
Qed.

Context (s' : Slot) (o : option CleanupRecord).
Hypothesis Hslots : sp_slots r' = <[i := s']> (sp_slots r).
Hypothesis Hjobs : hl_cleanup (sp_heap r') = <[hrec_cleanup rec := o]> (hl_cleanup (sp_heap r)).
Hypothesis Hnext : hl_next_job (sp_heap r') = hl_next_job (sp_heap r).

Lemma jobs_after c : cleanup_job r' c = if decide (c = hrec_cleanup rec) then o else cleanup_job r c.
Proof.
  rewrite <- (cleanup_job_insert r (hrec_cleanup rec) o (sp_heap r')) by (done || apply life_index). by destruct r'.
Qed.
Lemma slot_after : sp_slots r' !! i = Some s'.
Proof. rewrite Hslots. apply list_lookup_insert_eq, life_index. Qed.
Lemma slot_other i2 : i2 ≠ i → sp_slots r' !! i2 = sp_slots r !! i2.
Proof. intros ?. rewrite Hslots. by apply list_lookup_insert_ne. Qed.

Lemma life_other i2 s2 rec2 j2 : i2 ≠ i → life r i2 s2 rec2 j2 → life r' i2 s2 rec2 j2.
Proof.
  intros Hne Hl. pose proof (job_of_other _ _ _ _ Hl Hne). destruct Hl. split; try done; [by rewrite slot_other|].
  by rewrite jobs_after, decide_False.
Qed.

(** The allocation moves on. *)
Lemma advances_life rec' j' : o = Some j' →
  slot_generation s' = slot_generation s → slot_held (slot_state s') = true → slot_record s' = RHeap rec' →
  hrec_cleanup rec' = hrec_cleanup rec → hrec_owner rec' = hrec_owner rec → cr_reservation j' = cr_reservation j →
  (slot_state s' ≠ SRetired → cr_progress j' = Pending) → lease_rank (cr_lease j) ≤ lease_rank (cr_lease j') →
  (¬ X i → hrec_ever_attached rec = true → goes_on s rec j s' rec' j') → advances X r r'.
Proof.
  intros Ho Hg Hh Hr Hc Hown Hres Hp Hrank Hon [W1 W2 W3 W4].
  assert (life r' i s' rec' j') as Hl'.
  { destruct Hlife. split; rewrite ?Hc, ?Hres, ?Hg, ?Hown; try done; [apply slot_after|].
    by rewrite jobs_after, decide_True. }
  split; split; try (rewrite Hnext; done).
  - intros i2 s2 rec2 Hi2 Hh2 Hr2. destruct (decide (i2 = i)) as [->|Hne].
    + rewrite slot_after in Hi2. injection Hi2 as <-. rewrite Hr in Hr2. injection Hr2 as <-. eauto.
    + rewrite slot_other in Hi2 by done. destruct (W1 i2 s2 rec2 Hi2 Hh2 Hr2) as [j2 ?]. exists j2. by apply life_other.
  - intros c j2 Hj2. rewrite jobs_after in Hj2. destruct (decide (c = hrec_cleanup rec)) as [->|Hne].
    + rewrite Ho in Hj2. injection Hj2 as <-. rewrite Hres, (lf_res _ _ _ _ _ Hlife). eauto.
    + destruct (W2 c j2 Hj2) as (s2&rec2&Hl2&<-). exists s2, rec2. split; [|done]. apply life_other; [|done].
      intros E. rewrite E in Hl2. by destruct (life_fun _ _ _ _ _ _ _ _ Hlife Hl2) as (_&->&_).
  - intros i2 s2 rec2 j2 Hl2 Hst. destruct (decide (i2 = i)) as [->|Hne].
    + destruct (life_fun _ _ _ _ _ _ _ _ Hl' Hl2) as (->&_&->). auto.
    + eapply W3; [|exact Hst]. destruct Hl2. split; try done; [by rewrite <- slot_other|].
      rewrite jobs_after in lf_job0. destruct (decide _) as [E|]; [|done]. exfalso. rewrite Ho in lf_job0. injection lf_job0 as <-.
      rewrite Hres, (lf_res _ _ _ _ _ Hlife) in lf_res0. done.
  - intros c j2 Hj2. rewrite jobs_after in Hj2. rewrite Hnext. destruct (decide _) as [->|]; [|by eapply W4].
    rewrite Ho in Hj2. injection Hj2 as <-. rewrite Hres. eapply W4, Hlife.
  - intros i2 s2 rec2 j2 HX Hl2 Ha. destruct (decide (i2 = i)) as [->|Hne].
    + destruct (life_fun _ _ _ _ _ _ _ _ Hlife Hl2) as (->&->&->). exists s', rec', j'. auto.
    + exists s2, rec2, j2. split; [by apply life_other|by apply goes_on_refl].
  - intros c j2 Hj2. rewrite jobs_after in Hj2. left. destruct (decide _) as [->|]; [|by exists j2].
    rewrite Ho in Hj2. injection Hj2 as <-. exists j. split_and!; [apply Hlife|done|done].
Qed.

(** The allocation ends. *)
Lemma advances_end : o = None → slot_held (slot_state s') = false → (¬ X i → hrec_ever_attached rec = false) → advances X r r'.
Proof.
  intros Ho Hh Hx [W1 W2 W3 W4]. split; split; try (rewrite Hnext; done).
  - intros i2 s2 rec2 Hi2 Hh2 Hr2. destruct (decide (i2 = i)) as [->|Hne].
    + rewrite slot_after in Hi2. injection Hi2 as <-. congruence.
    + rewrite slot_other in Hi2 by done. destruct (W1 i2 s2 rec2 Hi2 Hh2 Hr2) as [j2 ?]. exists j2. by apply life_other.
  - intros c j2 Hj2. rewrite jobs_after in Hj2. destruct (decide (c = hrec_cleanup rec)) as [->|Hne]; [by rewrite Ho in Hj2|].
    destruct (W2 c j2 Hj2) as (s2&rec2&Hl2&<-). exists s2, rec2. split; [|done]. apply life_other; [|done].
    intros E. rewrite E in Hl2. by destruct (life_fun _ _ _ _ _ _ _ _ Hlife Hl2) as (_&->&_).
  - intros i2 s2 rec2 j2 Hl2 Hst. destruct (decide (i2 = i)) as [->|Hne].
    + destruct Hl2. rewrite slot_after in lf_slot0. injection lf_slot0 as <-. congruence.
    + eapply W3; [|exact Hst]. destruct Hl2. split; try done; [by rewrite <- slot_other|].
      rewrite jobs_after in lf_job0. destruct (decide _); [by rewrite Ho in lf_job0|done].
  - intros c j2 Hj2. rewrite jobs_after in Hj2. rewrite Hnext. destruct (decide _) as [->|]; [by rewrite Ho in Hj2|by eapply W4].
  - intros i2 s2 rec2 j2 HX Hl2 Ha. destruct (decide (i2 = i)) as [->|Hne].
    + destruct (life_fun _ _ _ _ _ _ _ _ Hlife Hl2) as (->&->&->). rewrite Hx in Ha by done. done.
    + exists s2, rec2, j2. split; [by apply life_other|by apply goes_on_refl].
  - intros c j2 Hj2. rewrite jobs_after in Hj2. left. destruct (decide _) as [->|]; [by rewrite Ho in Hj2|by exists j2].
Qed.
End update.

(** A new allocation in a free slot, with a new job *)
Lemma advances_new X r r' i c s s' rec j : sp_slots r !! i = Some s → slot_held (slot_state s) = false →
  hl_cleanup (sp_heap r) !! c = Some None →
  sp_slots r' = <[i := s']> (sp_slots r) → hl_cleanup (sp_heap r') = <[c := Some j]> (hl_cleanup (sp_heap r)) →
  hl_next_job (sp_heap r') = hl_next_job (sp_heap r) + 1 →
  slot_held (slot_state s') = true → slot_record s' = RHeap rec → hrec_cleanup rec = c →
  cr_reservation j = mkReservation i (slot_generation s') (hl_next_job (sp_heap r)) (hrec_owner rec) →
  cr_progress j = Pending → advances X r r'.
Proof.
  intros Hs Hfree Hc Hslots Hjobs Hnext Hh Hr Hrc Hres Hp [W1 W2 W3 W4].
  assert (∀ c', cleanup_job r' c' = if decide (c' = c) then Some j else cleanup_job r c') as Hj.
  { intros c'. rewrite <- (cleanup_job_insert r c (Some j) (sp_heap r')); [by destruct r'|done|by eapply lookup_lt_Some]. }
  assert (cleanup_job r c = None) as Hcn by (unfold cleanup_job; by rewrite Hc).
  assert (sp_slots r' !! i = Some s') as Hi by (rewrite Hslots; apply list_lookup_insert_eq; by eapply lookup_lt_Some).
  assert (∀ k, k ≠ i → sp_slots r' !! k = sp_slots r !! k) as Hk by (intros; rewrite Hslots; by apply list_lookup_insert_ne).
  assert (life r' i s' rec j) as Hl' by (split; rewrite ?Hres; try done; by rewrite Hj, decide_True by done).
  assert (∀ k sk reck jk, life r k sk reck jk → life r' k sk reck jk) as Hmono.
  { intros k sk reck jk []. split; try done; [rewrite Hk; [done|congruence]|]. rewrite Hj. destruct (decide _) as [E|]; [|done]. congruence. }
  split; split; try done.
  - intros k sk reck Hsk Hhk Hrk. destruct (decide (k = i)) as [->|Hne].
    + rewrite Hi in Hsk. injection Hsk as <-. rewrite Hr in Hrk. injection Hrk as <-. eauto.
    + rewrite Hk in Hsk by done. destruct (W1 k sk reck Hsk Hhk Hrk) as [jk ?]. eauto.
  - intros c' j' Hj'. rewrite Hj in Hj'. destruct (decide (c' = c)) as [->|].
    + injection Hj' as <-. rewrite Hres. cbn. eauto.
    + destruct (W2 c' j' Hj') as (sk&reck&?&?). eauto.
  - intros k sk reck jk Hl Hst. destruct (decide (k = i)) as [->|Hne].
    + by destruct (life_fun _ _ _ _ _ _ _ _ Hl' Hl) as (_&_&->).
    + eapply W3; [|exact Hst]. destruct Hl. split; try done; [by rewrite <- Hk|].
      rewrite Hj in lf_job0. destruct (decide _) as [E|]; [|done]. injection lf_job0 as <-. rewrite Hres in lf_res0. done.
  - intros c' j' Hj'. rewrite Hj in Hj'. rewrite Hnext. destruct (decide _); [injection Hj' as <-; rewrite Hres; cbn; lia|].
    specialize (W4 _ _ Hj'). lia.
  - intros k sk reck jk _ Hl Ha. exists sk, reck, jk. split; [by apply Hmono|by apply goes_on_refl].
  - rewrite Hnext. lia.
  - intros c' j' Hj'. rewrite Hj in Hj'. destruct (decide _); [right; injection Hj' as <-; by rewrite Hres|left; by exists j'].
Qed.

(** A change of slots and jobs that leaves reservations, records and progress alone *)
Lemma advances_map X r r' (g : Slot → Slot) (h : CleanupRecord → CleanupRecord) :
  sp_slots r' = g <$> sp_slots r → hl_cleanup (sp_heap r') = option_map h <$> hl_cleanup (sp_heap r) →
  hl_next_job (sp_heap r') = hl_next_job (sp_heap r) →
  (∀ s, slot_generation (g s) = slot_generation s ∧ slot_record (g s) = slot_record s ∧
    slot_held (slot_state (g s)) = slot_held (slot_state s) ∧ (slot_state s = SRetired → slot_state (g s) = SRetired)) →
  (∀ j, cr_reservation (h j) = cr_reservation j ∧ cr_progress (h j) = cr_progress j ∧ cr_lease (h j) = cr_lease j) →
  advances X r r'.
Proof.
  intros Hs Hc Hn Hg Hh [W1 W2 W3 W4].
  assert (∀ c, cleanup_job r' c = h <$> cleanup_job r c) as Hj.
  { intros c. unfold cleanup_job. rewrite Hc, list_lookup_fmap. by destruct (hl_cleanup _ !! c) as [[]|]. }
  assert (∀ i s rec j, life r i s rec j → life r' i (g s) rec (h j)) as Hmono.
  { intros i s rec j []. destruct (Hg s) as (?&?&?&?), (Hh j) as (E1&E2&E3).
    split; rewrite ?E1; try congruence; [by rewrite Hs, list_lookup_fmap, lf_slot0|]. by rewrite Hj, lf_job0. }
  assert (∀ c j', cleanup_job r' c = Some j' → ∃ j, cleanup_job r c = Some j ∧ j' = h j) as Hback.
  { intros c j'. rewrite Hj. destruct (cleanup_job r c) as [j|]; [|done]. intros [= <-]. eauto. }
  assert (∀ i s' rec j', life r' i s' rec j' → ∃ s j, life r i s rec j ∧ s' = g s ∧ j' = h j) as Hinv.
  { intros i s' rec j' []. rewrite Hs, list_lookup_fmap in lf_slot0. destruct (sp_slots r !! i) as [s|] eqn:E; [|done]. injection lf_slot0 as <-.
    destruct (Hback _ _ lf_job0) as (j&?&->). destruct (Hg s) as (?&?&?&?), (Hh j) as (E1&E2&E3). rewrite E1 in *.
    exists s, j. split_and!; try done. split; congruence. }
  split; split; try (rewrite Hn; done).
  - intros i s' rec Hi Hheld Hrec. rewrite Hs, list_lookup_fmap in Hi. destruct (sp_slots r !! i) as [s|] eqn:E; [|done]. injection Hi as <-.
    destruct (Hg s) as (?&?&?&?). destruct (W1 i s rec) as [j ?]; [done|congruence|congruence|]. exists (h j). by apply Hmono.
  - intros c j' Hj'. destruct (Hback _ _ Hj') as (j&Hcj&->). destruct (W2 c j Hcj) as (s&rec&?&?).
    destruct (Hh j) as (->&_). exists (g s), rec. split; [by apply Hmono|done].
  - intros i s' rec j' Hl Hst. destruct (Hinv _ _ _ _ Hl) as (s&j&Hl0&->&->). destruct (Hh j) as (_&->&_).
    eapply W3; [done|]. intros E. destruct (Hg s) as (_&_&_&?). auto.
  - intros c j' Hj'. destruct (Hback _ _ Hj') as (j&Hcj&->). destruct (Hh j) as (->&_). rewrite Hn. by eapply W4.
  - intros i s rec j _ Hl Ha. exists (g s), rec, (h j). split; [by apply Hmono|]. destruct (Hg s) as (?&_), (Hh j) as (?&?&_).
    split; try done. left. congruence.
  - intros c j' Hj'. destruct (Hback _ _ Hj') as (j&Hcj&->). destruct (Hh j) as (?&_&El). left. exists j. rewrite El. by split_and!.
Qed.

(** ** What the checks establish *)
Lemma reservation_life r h rec : reservation_record r h = Ok rec →
  ∃ s j, life r (hr_slot h) s rec j ∧ cr_reservation j = h.
Proof.
  unfold reservation_record. destruct (account r (hr_owner h)); [cbn|done].
  destruct (sp_slots r !! hr_slot h) as [s|] eqn:Hs; cbn; [|done]. destruct (_ || _) eqn:E1; [done|]. bools.
  destruct (slot_record s) as [| |rec0] eqn:Hr; [done|done|]. destruct (_ || _) eqn:E2; [done|]. intros [= ->]. bools.
  destruct (cleanup_job r (hrec_cleanup rec)) as [j|] eqn:Hj; [cbn in *; bools|done]. subst h.
  exists s, j. split; [|done]. split; try done.
Qed.

(** What a closure plan says about the allocation *)
Record planned (r : ScopedPointers) (h : HeapReservation) (o : AllocationOwner) (plan : HeapClosurePlan)
    (s : Slot) (rec : HeapRecord) (j : CleanupRecord) : Prop := {
  pn_life : life r (hr_slot h) s rec j;
  pn_job : cr_reservation j = h;
  pn_plan : plan = mkClosure h o (hrec_logical rec) (hrec_writable rec) (hcp_extents plan) (hrec_cleanup rec)
              (slot_state s) (hl_revision (sp_heap r));
  pn_attached : hrec_ever_attached rec = true;
  pn_extents : hrec_extents rec = Some (hcp_extents plan);
  pn_queued : cr_queued j = stage_pending (slot_state s);
  pn_size : ext_size (he_physical (hcp_extents plan)) = hrec_rounded rec;
  pn_logical : hrec_logical rec ≤ hrec_rounded rec;
  pn_progress : progress_valid j (slot_state s) (hrec_rounded rec) = true;
}.

Lemma page_ceil_ge n m : page_ceil n = Ok m → n ≤ m.
Proof.
  unfold page_ceil. destruct (n =? 0); [done|]. destruct (checked_add _ _) as [v|] eqn:Hv; [|done].
  apply checked_add_Some in Hv as [_ ->]. destruct (_ =? 0); [done|]. intros [= <-]. rewrite page_floor_spec.
  unfold PLACEMENT_PAGE_MASK, PLACEMENT_PAGE_SIZE. pose proof (Z.mod_pos_bound (n + (4096 - 1)) 4096). lia.
Qed.

Lemma consistent_sizes r a rec e : record_consistent r a rec e = Ok tt →
  ext_size (he_physical e) = hrec_rounded rec ∧ hrec_logical rec ≤ hrec_rounded rec.
Proof.
  unfold record_consistent. destruct (_ || _); [done|]. destruct (page_ceil _) as [m|] eqn:E; [cbn|done].
  destruct (_ || _) eqn:Hc; [done|]. intros _. bools. apply page_ceil_ge in E. split; [done|]. congruence || lia.
Qed.
Lemma reserved_extents_record r h e rec : reserved_extents r h = Done (Ok e) → reservation_record r h = Ok rec →
  hrec_extents rec = Some e.
Proof.
  unfold reserved_extents. intros E Hrec. rewrite Hrec in E. cbn [try_] in E. destruct (hrec_extents rec) as [e'|]; [cbn in E|done].
  destruct (hl_placement _); [cbn in E|done]. destruct (negb _); [done|]. destruct (vec_get _ _); [cbn in E|done].
  destruct (negb _); [done|]. by injection E as ->.
Qed.

Lemma closure_planned r h o plan : prepare_attached_heap_closure r h o = Done (Ok plan) → ∃ s rec j, planned r h o plan s rec j.
Proof.
  unfold prepare_attached_heap_closure. intros E.
  destruct (account r (hr_owner h)); cbn [try_] in E; [|done]. destruct (negb _); [done|].
  destruct (reservation_record r h) as [rec|] eqn:Hrec; cbn [try_] in E; [|done].
  destruct (hrec_ever_attached rec) eqn:Ha; cbn [negb] in E; [|done].
  destruct (reservation_life r h rec Hrec) as (s&j&Hl&Hj). rewrite (vec_get_lookup _ _ _ (lf_slot _ _ _ _ _ Hl)) in E.
  cbn [mbind outcome_bind] in E. cbv zeta in E. pose proof (lf_job _ _ _ _ _ Hl) as Hjob. unfold cleanup_job in Hjob.
  destruct (hl_cleanup (sp_heap r) !! hrec_cleanup rec) as [[j0|]|] eqn:Hc; [injection Hjob as ->|done|done].
  rewrite (vec_get_lookup _ _ _ Hc) in E. cbn [mbind outcome_bind ok_or try_] in E.
  destruct (_ || _) eqn:Hq; [done|]. destruct (progress_valid _ _ _) eqn:Hp; cbn [negb] in E; [|done].
  destruct (reserved_extents r h) as [[e|]|] eqn:He; cbn [try_call try_] in E; [|done..].
  destruct (record_consistent _ _ _ _) as [[]|] eqn:Hcons; cbn [try_call try_] in E; [|done].
  injection E as <-. bools. apply consistent_sizes in Hcons as [? ?]. exists s, rec, j. split; try done; cbn.
  - by eapply reserved_extents_record.
  - by match goal with E : Bool.eqb _ _ = true |- _ => apply eqb_prop in E end.
Qed.
