(* ===== verification/HeapMoves.v ===== *)
(** * How the operations of the registry move allocations

    Every operation of [HeapLedger.v], [HeapWorkers.v] and of the local pointers
    advances the lives of [HeapLives.v]: accounts, quota, host storage and workers
    leave them alone; reservation starts one, abortion and release end one; closing,
    retirement, leases and scrubbing move one on. *)

From S2P Require Import Prelude State Extents ExtentsFacts Registry HeapLedger HeapWorkers RegistrySafety RegistryOps HeapLives.

(** ** The rest of the ledger *)
Definition quiet (r r' : ScopedPointers) : Prop :=
  sp_slots r' = sp_slots r ∧ hl_cleanup (sp_heap r') = hl_cleanup (sp_heap r) ∧
  hl_next_job (sp_heap r') = hl_next_job (sp_heap r).
#[export] Instance quiet_preorder : PreOrder quiet.
Proof. split; [by intros r|]. intros a b c (?&?&?) (?&?&?). split_and!; congruence. Qed.
Lemma quiet_advances X r r' : quiet r r' → advances X r r'.
Proof. intros (Hs&Hc&Hn). apply advances_same; [by rewrite Hs|done|lia]. Qed.
Lemma quiet_advance r : quiet r (heap_advance r).
Proof. done. Qed.

Create HintDb quiet.
#[export] Hint Resolve quiet_advance : quiet.

Lemma set_account_quiet i a r r' : set_account i a r = Done r' → quiet r r'.
Proof. unfold set_account. intros E. run_binds E. by guards. Qed.
Lemma with_account_quiet i g r r' : with_account i g r = Done r' → quiet r r'.
Proof. unfold with_account. intros E. run_binds E. by eapply set_account_quiet. Qed.
Lemma set_worker_row_quiet w x r r' : set_worker_row w x r = Done r' → quiet r r'.
Proof. unfold set_worker_row. intros E. run_binds E. by guards. Qed.

Section ledger.
Context `{Profile}.
Lemma charge_quiet i n r r' : charge_bytes i n r = Done r' → quiet r r'.
Proof. unfold charge_bytes. intros E. run_binds E. guards. etransitivity; [by eapply with_account_quiet|done]. Qed.
Lemma refund_quiet i n r r' : refund_bytes i n r = Done r' → quiet r r'.
Proof. unfold refund_bytes. intros E. run_binds E. guards. etransitivity; [by eapply with_account_quiet|done]. Qed.
Lemma rebind_quiet r i e n r' : rebind_arena r i e n = Done (Ok r') → quiet r r'.
Proof. unfold rebind_arena. intros E. destruct (hl_placement _); [|by guards]. run_tries E. by guards. Qed.
Lemma admit_quiet r o l r' t : admit_owner r o l = Done (Ok (r', t)) → quiet r r'.
Proof.
  unfold admit_owner. intros E. run_tries E. guards. etransitivity; [by eapply rebind_quiet|].
  etransitivity; [by eapply set_account_quiet|done].
Qed.
Lemma release_owner_quiet r o r' : release_owner r o = Done (Ok r') → quiet r r'.
Proof.
  unfold release_owner. intros E. run_tries E. guards. etransitivity; [by eapply rebind_quiet|].
  etransitivity; [by eapply set_account_quiet|done].
Qed.
Lemma release_closed_quiet n : ∀ r i r', release_closed_from r i n = Done r' → quiet r r'.
Proof.
  induction n as [|n IH]; cbn; intros r i r' E; [guards; reflexivity|].
  destruct (vec_get i _) as [row|]; [cbn in E|done].
  destruct (match row with Some _ => _ | None => _ end) as [r1|] eqn:E1; [cbn in E|done].
  etransitivity; [|by eapply IH]. destruct row as [a|]; [destruct (_ && _)|]; try (guards; reflexivity).
  destruct (release_owner r _) as [[r2|]|] eqn:E2; cbn in E1; guards; [by eapply release_owner_quiet|reflexivity].
Qed.
Lemma reserve_host_advances X r o l rev r' t : reserve_host_storage r o l rev = Done (Ok (r', t)) → advances X r r'.
Proof.
  unfold reserve_host_storage. intros E. run_tries E. guards.
  match goal with E : charge_bytes _ _ _ = _ |- _ => apply charge_quiet in E as (Hs&Hc&Hn) end. cbn in Hs, Hc, Hn.
  apply advances_same; cbn; [by rewrite Hs|done|lia].
Qed.
Lemma release_host_quiet r t r' : release_host_storage r t = Done (Ok r') → quiet r r'.
Proof. unfold release_host_storage. intros E. run_tries E. guards. 
  match goal with E : refund_bytes _ _ _ = _ |- _ => by apply refund_quiet in E end. Qed.
Lemma apply_reserve_quiet r o p r' : apply_reserve r o p = Done r' → quiet r r'.
Proof. unfold apply_reserve. intros E. run_binds E; by guards. Qed.
Lemma apply_cancel_quiet r o p r' : apply_cancel r o p = Done r' → quiet r r'.
Proof. unfold apply_cancel. intros E. run_binds E; by guards. Qed.
End ledger.

Lemma enroll_quiet r i e r' w : enroll_cleanup_worker_record r i e = Done (Ok (r', w)) → quiet r r'.
Proof. unfold enroll_cleanup_worker_record. intros E. run_tries E. by guards. Qed.
Lemma fence_quiet r w r' : fence_cleanup_worker_record r w = Done (Ok r') → quiet r r'.
Proof. unfold fence_cleanup_worker_record. intros E. run_tries E. guards. by eapply set_worker_row_quiet. Qed.
Lemma remove_quiet r w r' : remove_cleanup_worker_record r w = Done (Ok r') → quiet r r'.
Proof. unfold remove_cleanup_worker_record. intros E. run_tries E. guards. by eapply set_worker_row_quiet. Qed.
Lemma work_revision_quiet r p r' : commit_heap_work_revision r p = Done r' → quiet r r'.
Proof. unfold commit_heap_work_revision. intros E. run_binds E. by guards. Qed.
Lemma work_cleanup_revision_quiet r p r' : commit_heap_work_cleanup_revision r p = Done r' → quiet r r'.
Proof. unfold commit_heap_work_cleanup_revision. intros E. run_binds E. by guards. Qed.
Lemma initialization_quiet r p r' : commit_heap_initialization r p = Done r' → quiet r r'.
Proof. unfold commit_heap_initialization. intros E. run_binds E. by guards. Qed.

(** ** Local pointers *)

(** The slot of a held heap allocation *)
Definition of_heap (s : Slot) : Prop := slot_held (slot_state s) = true ∧ ∃ rec, slot_record s = RHeap rec.

Lemma insert_other (l : list Slot) i s s' : l !! i = Some s → ¬ of_heap s → ¬ of_heap s' →
  ∀ k t rec, slot_held (slot_state t) = true → slot_record t = RHeap rec → l !! k = Some t ↔ <[i := s']> l !! k = Some t.
Proof.
  intros Hi Hs Hs' k t rec Hh Hr. destruct (decide (k = i)) as [->|]; [|by rewrite list_lookup_insert_ne].
  rewrite list_lookup_insert_eq by (by eapply lookup_lt_Some). rewrite Hi.
  split; intros [= ->]; exfalso; [apply Hs|apply Hs']; split; eauto.
Qed.

Lemma trim_slots r r' : trim_active_slots r = Done r' → sp_slots r' = sp_slots r ∧ sp_heap r' = sp_heap r.
Proof. unfold trim_active_slots. intros E. run_binds E. by guards. Qed.

Section locals.
Context (X : nat → Prop).
Lemma enter_advances `{Profile} r o r' sc : enter_scope_for r o = Done (Ok (r', sc)) → advances X r r'.
Proof. unfold enter_scope_for. intros E. run_tries E. guards. by apply quiet_advances. Qed.
Lemma bind_frame_advances r sc fr r' : bind_frame r sc fr = Done r' → advances X r r'.
Proof. unfold bind_frame. intros E. run_binds E. guards. by apply quiet_advances. Qed.
Lemma register_advances r sc d b n w r' p : register r sc d b n w = Done (Ok (r', p)) → advances X r r'.
Proof.
  unfold register. intros E. run_tries E. guards.
  match goal with H : ok_or (free_slot r) _ = Ok ?i |- _ => unfold free_slot in H;
    destruct (position slot_available _) eqn:Hi; [|done] end. cbn in *. guards. apply position_Some in Hi as (s&Hi&Ha).
  match goal with H : vec_get _ _ = Done _ |- _ => apply vec_get_Done in H end. simplify_eq.
  match goal with H : vec_set _ _ _ = Done _ |- _ => apply vec_set_insert in H as [-> _] end.
  apply advances_same; [|done|done]. apply (insert_other _ _ s); [done| |by intros [_ [? [=]]]].
  intros [Hh _]. unfold slot_available in Ha. destruct (slot_state s); done.
Qed.
Lemma bind_backing_advances r p b r' : bind_backing r p b = Done r' → advances X r r'.
Proof.
  unfold bind_backing. intros E. run_binds E. guards.
  match goal with H : vec_get _ _ = Done ?s |- _ => apply vec_get_Done in H; apply advances_same; [|done|done];
    apply (insert_other _ _ s); [done|by intros [_ [? [=]]]; congruence|by intros [_ [? [=]]]] end.
Qed.
Lemma take_backing_advances r p r' b : take_backing r p = (r', b) → advances X r r'.
Proof.
  unfold take_backing. intros E. destruct (sp_slots r !! ptr_slot p) as [s|] eqn:Hs; [|guards; reflexivity].
  destruct (_ || _); [guards; reflexivity|].
  destruct (slot_record s) as [|a|] eqn:Ha; guards; try reflexivity. apply advances_same; [|done|done].
  apply (insert_other _ _ s); [done|intros [_ [? ?]]; congruence|by intros [_ [? [=]]]].
Qed.

Lemma released_other sc r i t rec : slot_held (slot_state t) = true → slot_record t = RHeap rec →
  sp_slots r !! i = Some t ↔ released sc r !! i = Some t.
Proof.
  intros Hh Hr. rewrite <- (take_drop (sp_active_slots_end r) (sp_slots r)) at 1. unfold released.
  destruct (decide (i < length (take (sp_active_slots_end r) (sp_slots r)))%nat).
  2: by rewrite !lookup_app_r, length_fmap by (rewrite ?length_fmap; lia).
  rewrite !lookup_app_l, list_lookup_fmap by (rewrite ?length_fmap; lia). 
  destruct (take _ _ !! i) as [s|]; cbn; [|done]. destruct (in_scope sc s) eqn:Hin; [|done].
  split; intros [= <-]; exfalso.
  - unfold in_scope in Hin. rewrite Hr in Hin. by destruct (slot_state s).
  - revert Hh. unfold slot_release. cbn. by destruct (_ =? _).
Qed.
Lemma leave_scope_advances r sc r' : leave_scope r sc = Done (Ok r') → advances X r r'.
Proof.
  unfold leave_scope. destruct (negb _); [done|]. fold (released sc r). intros E. run_tries E. guards.
  match goal with E : trim_active_slots _ = Done _ |- _ => apply trim_slots in E as [Hs Hh] end.
  apply advances_same; cbn; rewrite ?Hs, ?Hh; [|done|done]. intros i s rec ? ?. cbn. by eapply released_other.
Qed.

Lemma scope_op_advances `{Profile} r r' : scope_op r r' → advances X r r'.
Proof.
  destruct 1; [by eapply enter_advances|by eapply bind_frame_advances|by eapply register_advances|by eapply bind_backing_advances
    |by eapply take_backing_advances|by eapply leave_scope_advances].
Qed.
Lemma scope_run_advances `{Profile} r r' : rtc scope_op r r' → advances X r r'.
Proof. induction 1 as [|a b c Hab _ IH]; [reflexivity|]. etransitivity; [by apply scope_op_advances|done]. Qed.
End locals.

(** ** Allocations *)
Lemma set_slot_spec i s r r' : set_slot i s r = Done r' → sp_slots r' = <[i := s]> (sp_slots r) ∧ sp_heap r' = sp_heap r.
Proof. unfold set_slot. intros E. run_binds E. apply vec_set_insert in E0 as [-> _]. by guards. Qed.
Lemma set_cleanup_spec c j r r' : set_cleanup c j r = Done r' →
  sp_slots r' = sp_slots r ∧ hl_cleanup (sp_heap r') = <[c := j]> (hl_cleanup (sp_heap r)) ∧
  hl_next_job (sp_heap r') = hl_next_job (sp_heap r).
Proof. unfold set_cleanup. intros E. run_binds E. apply vec_set_insert in E0 as [-> _]. by guards. Qed.
Lemma queue_job_spec c r r' : queue_job c r = Done r' → ∃ j, cleanup_job r c = Some j ∧
  sp_slots r' = sp_slots r ∧ hl_cleanup (sp_heap r') = <[c := Some (set_cr_queued j)]> (hl_cleanup (sp_heap r)) ∧
  hl_next_job (sp_heap r') = hl_next_job (sp_heap r).
Proof.
  unfold queue_job. intros E. destruct (vec_get c _) as [[j|]|] eqn:Ej; [cbn in E|done..]. apply vec_get_Done in Ej.
  exists j. unfold cleanup_job. rewrite Ej. split; [done|]. by apply set_cleanup_spec in E.
Qed.
Lemma job_lookup r i s rec j : life r i s rec j → hl_cleanup (sp_heap r) !! hrec_cleanup rec = Some (Some j).
Proof. intros [_ _ _ Hj _ _ _]. unfold cleanup_job in Hj. by destruct (hl_cleanup _ !! _) as [[]|]; simplify_eq. Qed.

(** The record is rewritten within its lifetime. *)
Record rewrites (rec rec' : HeapRecord) : Prop := {
  rw_cleanup : hrec_cleanup rec' = hrec_cleanup rec;
  rw_owner : hrec_owner rec' = hrec_owner rec;
  rw_extents : hrec_extents rec' = hrec_extents rec;
  rw_attached : hrec_ever_attached rec = true → hrec_ever_attached rec' = true;
}.
Lemma rewrites_same rec : rewrites rec rec.
Proof. done. Qed.

Section lives.
Context (X : nat → Prop) (r r' : ScopedPointers) (i : nat) (s : Slot) (rec : HeapRecord) (j : CleanupRecord).
Hypothesis Hlife : life r i s rec j.
Hypothesis Hnext : hl_next_job (sp_heap r') = hl_next_job (sp_heap r).

Lemma advances_on st rec' j' :
  sp_slots r' = <[i := mkSlot (slot_generation s) st (RHeap rec')]> (sp_slots r) →
  hl_cleanup (sp_heap r') = <[hrec_cleanup rec := Some j']> (hl_cleanup (sp_heap r)) →
  rewrites rec rec' → slot_held st = true → cr_reservation j' = cr_reservation j →
  (slot_state s = SRetired → st = SRetired) → lease_rank (cr_lease j) ≤ lease_rank (cr_lease j') →
  cr_progress j' = cr_progress j ∨ st = SRetired ∨ cr_progress j' = Pending →
  (¬ X i → progress_le (cr_progress j) (cr_progress j')) → advances X r r'.
Proof.
  intros Hs Hc [] Hh Hres Hst Hrank Hp Hle Hw. revert Hw.
  intros Hw. eapply (advances_life X r r' i s rec j Hlife); eauto; cbn; try done.
  - intros Hne. destruct Hp as [->|[?|?]]; [|done|done]. eapply (hw_pending r Hw); [exact Hlife|]. auto.
  - intros HX Ha. by split; auto.
Qed.

(** Only the slot, only the job *)
Lemma advances_slot st rec' : sp_slots r' = <[i := mkSlot (slot_generation s) st (RHeap rec')]> (sp_slots r) →
  hl_cleanup (sp_heap r') = hl_cleanup (sp_heap r) → rewrites rec rec' → slot_held st = true →
  (slot_state s = SRetired → st = SRetired) → advances X r r'.
Proof.
  intros Hs Hc Hr Hh Hst. apply (advances_on st rec' j); try done.
  - rewrite list_insert_id by by eapply job_lookup. done.
  - by left.
  - by left.
Qed.
Lemma advances_job j' : sp_slots r' = sp_slots r →
  hl_cleanup (sp_heap r') = <[hrec_cleanup rec := Some j']> (hl_cleanup (sp_heap r)) →
  cr_reservation j' = cr_reservation j → lease_rank (cr_lease j) ≤ lease_rank (cr_lease j') →
  cr_progress j' = cr_progress j ∨ slot_state s = SRetired ∨ cr_progress j' = Pending →
  (¬ X i → progress_le (cr_progress j) (cr_progress j')) → advances X r r'.
Proof.
  intros Hs Hc Hres Hrank Hp Hle. destruct Hlife as [L1 L2 L3 _ _ _ _].
  apply (advances_on (slot_state s) rec j'); try done. rewrite list_insert_id; [done|].
  rewrite L1. destruct s as [g st rc]. cbn in *. by rewrite L3.
Qed.
End lives.

(** What the plan of an attachment or an initialization says *)
Record staged (r : ScopedPointers) (h : HeapReservation) (o : AllocationOwner) (attached : bool)
    (plan : HeapAttachmentPlan) (s : Slot) (rec : HeapRecord) (j : CleanupRecord) : Prop := {
  sg_life : life r (hr_slot h) s rec j;
  sg_job : cr_reservation j = h;
  sg_res : hap_reservation plan = h;
  sg_owner : hap_owner plan = o;
  sg_extents : hrec_extents rec = Some (hap_extents plan);
  sg_state : slot_state s = SReserved;
  sg_attached : hrec_ever_attached rec = attached;
  sg_logical : hap_logical plan = hrec_logical rec;
  sg_size : hrec_logical rec ≤ ext_size (he_physical (hap_extents plan));
}.

Section allocations.
Context `{Profile} (X : nat → Prop).

Lemma reserve_advances r o n rev r' h : reserve_heap r o n rev = Done (Ok (r', h)) → advances X r r'.
Proof.
  unfold reserve_heap. intros E. run_tries E. guards.
  match goal with E : apply_reserve _ _ _ = _ |- _ => apply apply_reserve_quiet in E as (A1&A2&A3) end.
  match goal with E : charge_bytes _ _ _ = _ |- _ => apply charge_quiet in E as (B1&B2&B3) end.
  match goal with E : set_slot _ _ _ = _ |- _ => apply set_slot_spec in E as (C1&C2) end.
  match goal with E : set_cleanup _ _ _ = _ |- _ => apply set_cleanup_spec in E as (D1&D2&D3) end. cbn in D1, D2, D3.
  match goal with E : ok_or (free_slot r) _ = Ok _ |- _ => unfold free_slot in E;
    destruct (position slot_available _) eqn:Hi; [|done]; cbn in E; simplify_eq; apply position_Some in Hi as (s0&Hi&Ha) end.
  match goal with E : ok_or (position _ (hl_cleanup _)) _ = Ok ?c |- _ =>
    destruct (position _ (hl_cleanup _)) as [c0|] eqn:Hc; [|done]; cbn in E; simplify_eq; apply position_Some in Hc as ([]&Hc&?); [done|] end.
  match goal with E : vec_get _ _ = Done _ |- _ => apply vec_get_Done in E end.
  simplify_eq. eapply advances_new; try exact Hi; try exact Hc; cbn.
  - unfold slot_available in Ha. by destruct (slot_state s0).
  - by rewrite B1, D1, C1, A1.
  - by rewrite B2, D2, C2, A2.
  - rewrite B3, D3, C2, A3. done.
  - done.
  - done.
  - done.
  - done.
  - done.
Qed.

(** A slot is emptied and its job dropped. *)
Lemma emptied_advances r r1 r2 r3 r' i s s2 rec j : life r i s rec j → (¬ X i → hrec_ever_attached rec = false) →
  quiet r r1 → set_cleanup (hrec_cleanup rec) None r1 = Done r2 →
  set_slot i (slot_release s2) r2 = Done r3 → trim_active_slots r3 = Done r' → advances X r (heap_advance r').
Proof.
  intros Hl Hx (A1&A2&A3) (B1&B2&B3)%set_cleanup_spec (C1&C2)%set_slot_spec (D1&D2)%trim_slots.
  eapply (advances_end X r _ i s rec j Hl (slot_release s2) None); cbn; rewrite ?D1, ?D2, ?C1, ?C2, ?B1, ?B2, ?B3; try congruence.
  - unfold slot_release. cbn. by destruct (_ =? _).
  - done.
Qed.
Lemma abort_advances r h r' : abort_heap r h = Done (Ok r') → advances X r r'.
Proof.
  unfold abort_heap. intros E. run_tries E. guards. bools.
  match goal with E : reservation_record r h = Ok ?rec |- _ => destruct (reservation_life _ _ _ E) as (s&j&Hl&_) end.
  eapply emptied_advances; [exact Hl|done| |eassumption..].
  etransitivity; [by eapply apply_cancel_quiet|by eapply refund_quiet].
Qed.

Lemma close_heap_advances r o p r' : close_heap r o p = Done (Ok r') → advances X r r'.
Proof.
  unfold close_heap. intros E. run_tries E. guards. bools.
  match goal with E : ok_or ?x _ = Ok ?t |- _ => destruct x as [s|] eqn:Hs; [cbn in E; injection E as <-|done] end.
  match goal with E : queue_job _ _ = _ |- _ => apply queue_job_spec in E as (j&Hj&B1&B2&B3) end.
  match goal with E : set_slot _ _ _ = _ |- _ => apply set_slot_spec in E as (A1&A2) end.
  match goal with E : slot_state s = SLive, Er : slot_record s = RHeap ?rec |- _ => rename rec into record, E into Hst, Er into Hrec end.
  intros Hw. destruct (hw_slot r Hw (ptr_slot p) s record) as [j0 Hl]; [done|by rewrite Hst|done|].
  unfold cleanup_job in Hj. rewrite A2 in Hj, B2, B3. fold (cleanup_job r (hrec_cleanup record)) in Hj.
  rewrite (lf_job _ _ _ _ _ Hl) in Hj. injection Hj as <-.
  revert Hw. eapply advances_on with (st := SClosing) (rec' := record); [exact Hl|done|..]; cbn; [by rewrite B1, A1; unfold set_slot_state; rewrite Hrec|done|..]; try done.
  - by rewrite Hst.
  - by left.
  - by left.
Qed.

Lemma close_owner_advances r o r' n : close_owner r o = Done (Ok (r', n)) → advances X r r'.
Proof.
  unfold close_owner. intros E. run_tries E; guards; [reflexivity|].
  match goal with E : with_account _ _ _ = _ |- _ => apply with_account_quiet in E as (A1&A2&A3) end.
  apply (advances_map X r _ (close_slot o) (close_job o)); cbn; [by rewrite A1|by rewrite A2|done| |].
  - intros s. unfold close_slot. destruct (slot_record s) eqn:Hr; try done.
    destruct (_ && _) eqn:Hc; [|done]. bools. cbn. split_and!; try done; by destruct (slot_state s).
  - intros j. unfold close_job. by destruct (_ && _).
Qed.

Lemma private_planned r h o e a plan : prepare_heap_private r h o e a = Done (Ok plan) →
  ∃ s rec j, staged r h o a plan s rec j.
Proof.
  unfold prepare_heap_private. intros E. run_tries E. guards. bools.
  match goal with E : reservation_record r h = Ok ?rec |- _ => destruct (reservation_life _ _ _ E) as (s&j&Hl&Hj); rename E into Hrec end.
  match goal with E : vec_get _ (sp_slots r) = Done _ |- _ => rewrite (vec_get_lookup _ _ _ (lf_slot _ _ _ _ _ Hl)) in E; injection E as <- end.
  match goal with E : record_consistent _ _ _ _ = Ok ?u |- _ => destruct u; destruct (consistent_sizes _ _ _ _ E) end.
  match goal with E : eqb _ _ = true |- _ => apply eqb_prop in E end.
  eexists s, _, j. split; try done; cbn; [by eapply reserved_extents_record|lia].
Qed.

Lemma attachment_advances r h o e plan r' : prepare_heap_attachment r h o e = Done (Ok plan) →
  commit_heap_attachment r plan = Done r' → advances X r r'.
Proof.
  intros (s&rec&j&[Hl Hj Hres _ _ Hst _ _ _])%private_planned E. unfold commit_heap_attachment in E. subst h.
  rewrite Hres, (vec_get_lookup _ _ _ (lf_slot _ _ _ _ _ Hl)) in E. cbn [mbind outcome_bind] in E.
  rewrite (lf_rec _ _ _ _ _ Hl) in E. run_binds E. guards.
  match goal with E : set_slot _ _ _ = _ |- _ => apply set_slot_spec in E as (A1&A2) end.
  eapply advances_slot with (st := slot_state s) (rec' := set_attached rec); [exact Hl|..]; cbn; rewrite ?A1, ?A2; try done.
  by rewrite Hst.
Qed.
Lemma publication_advances r h o e plan w r' p : prepare_heap_initialization r h o e = Done (Ok plan) →
  commit_heap_image_publication r plan w = Done (r', p) → advances X r r'.
Proof.
  intros (s&rec&j&[Hl Hj Hres _ _ Hst _ _ _])%private_planned E. unfold commit_heap_image_publication in E. subst h.
  rewrite Hres, (vec_get_lookup _ _ _ (lf_slot _ _ _ _ _ Hl)) in E. cbn [mbind outcome_bind] in E.
  rewrite (lf_rec _ _ _ _ _ Hl) in E. run_binds E. guards.
  match goal with E : set_slot _ _ _ = _ |- _ => apply set_slot_spec in E as (A1&A2) end.
  eapply advances_slot with (st := SLive) (rec' := set_published w rec); [exact Hl|..]; cbn; rewrite ?A1, ?A2; try done.
  by rewrite Hst.
Qed.

Lemma closure_advances r h o plan r' x : prepare_attached_heap_closure r h o = Done (Ok plan) →
  commit_attached_heap_closure r plan = Done (r', x) → advances X r r'.
Proof.
  intros (s&rec&j&[Hl Hcj Hp _ _ _ _ _ _])%closure_planned E. unfold commit_attached_heap_closure in E. rewrite Hp in E. cbn in E.
  rewrite (vec_get_lookup _ _ _ (lf_slot _ _ _ _ _ Hl)), (vec_get_lookup _ _ _ (job_lookup _ _ _ _ _ Hl)) in E.
  run_binds E; guards; try reflexivity.
  all: match goal with E : queue_job _ _ = _ |- _ => apply queue_job_spec in E as (j0&Hj&B1&B2&B3) end;
    match goal with E : set_slot _ _ _ = _ |- _ => apply set_slot_spec in E as (A1&A2) end;
    unfold cleanup_job in Hj; rewrite A2, (job_lookup _ _ _ _ _ Hl) in Hj; injection Hj as <-;
    eapply advances_on with (st := SClosing) (rec' := rec); [exact Hl|..]; cbn; rewrite ?B1, ?B2, ?B3, ?A1, ?A2; try done;
    try (unfold set_slot_state; by rewrite (lf_rec _ _ _ _ _ Hl)); try (intros; congruence); by left.
Qed.
End allocations.

(** ** Workers *)
Section workers.
Context (X : nat → Prop).

Section seen.
Context (r : ScopedPointers) (h : HeapReservation) (o : AllocationOwner) (plan : HeapClosurePlan).
Context (s : Slot) (rec : HeapRecord) (j : CleanupRecord).
Hypothesis Hp : planned r h o plan s rec j.
Lemma seen_record rec' : reservation_record r h = Ok rec' → rec' = rec.
Proof.
  intros (s'&j'&Hl&_)%reservation_life. by destruct (life_fun _ _ _ _ _ _ _ _ (pn_life _ _ _ _ _ _ _ Hp) Hl) as (_&?&_).
Qed.
Lemma seen_job : job_at r (hrec_cleanup rec) = Done (Ok j).
Proof. unfold job_at. by rewrite (vec_get_lookup _ _ _ (job_lookup _ _ _ _ _ (pn_life _ _ _ _ _ _ _ Hp))). Qed.
Lemma seen_stage : slot_stage r h = Done (slot_state s).
Proof. unfold slot_stage. by rewrite (vec_get_lookup _ _ _ (lf_slot _ _ _ _ _ (pn_life _ _ _ _ _ _ _ Hp))). Qed.
Lemma seen_reservation : hcp_reservation plan = h.
Proof. by rewrite (pn_plan _ _ _ _ _ _ _ Hp). Qed.
Lemma seen_retired : plan_retired plan = true → slot_state s = SRetired.
Proof. unfold plan_retired. rewrite (pn_plan _ _ _ _ _ _ _ Hp). cbn. by case_bool_decide. Qed.
End seen.

(** The record, the job and the stage of a closure plan, read again *)
Ltac look_again :=
  match goal with Hc : prepare_attached_heap_closure _ _ _ = Done (Ok _) |- _ =>
    apply closure_planned in Hc as (s&rec&j&Hp);
    match goal with Hr : reservation_record _ _ = Ok _ |- _ => apply (seen_record _ _ _ _ _ _ _ Hp) in Hr; subst end;
    match goal with Hj : job_at _ _ = Done (Ok _) |- _ => rewrite (seen_job _ _ _ _ _ _ _ Hp) in Hj; injection Hj as <- end;
    match goal with Hs : slot_stage _ _ = Done _ |- _ => rewrite (seen_stage _ _ _ _ _ _ _ Hp) in Hs; injection Hs as <- end end.

Lemma lease_planned r l id o plan : prepare_heap_worker_lease r l id o = Done (Ok plan) → ∃ s rec j,
  planned r (cl_reservation l) o plan s rec j ∧ cr_lease j = Held (cl_epoch l) (cl_worker l) ∧ stage_pending (slot_state s) = true.
Proof. unfold prepare_heap_worker_lease. intros E. run_tries E. guards. bools. look_again. by exists s, rec, j. Qed.

(** The job a commit finds is the one the plan was made for. *)
Ltac commit_job Hl Hc :=
  rewrite ?(vec_get_lookup _ _ _ (job_lookup _ _ _ _ _ Hl)), ?(vec_get_lookup _ _ _ (lf_slot _ _ _ _ _ Hl)) in Hc; run_binds Hc; guards;
  repeat match goal with E : unwrap (Some _) = Done _ |- _ => injection E as <- end;
  repeat match goal with E : assert_ (bool_decide _) = Done _ |- _ => unfold assert_ in E; case_bool_decide; [clear E|discriminate E] end.

Lemma claim_advances r w id h o e plan r' l : prepare_heap_worker_claim r w id h o e = Done (Ok plan) →
  commit_heap_worker_claim r plan = Done (r', l) → advances X r r'.
Proof.
  unfold prepare_heap_worker_claim. intros E Hc. run_tries E. guards. bools. look_again. pose proof (pn_life _ _ _ _ _ _ _ Hp) as Hl.
  unfold commit_heap_worker_claim in Hc. cbn in Hc. commit_job Hl Hc.
  match goal with E : set_cleanup _ _ _ = _ |- _ => apply set_cleanup_spec in E as (A1&A2&A3) end.
  match goal with E : ok_or (checked_add _ _) _ = Ok _ |- _ => destruct (checked_add _ _) eqn:Hadd in E; [injection E as <-|done];
    apply checked_add_Some in Hadd as [_ ->] end.
  eapply advances_job; [exact Hl|exact A3|exact A1|exact A2|done| |by left|by left]. cbn.
  match goal with E : cr_lease j = Unowned _ |- _ => rewrite E end. cbn. lia.
Qed.

(** Revocation and recovery *)
Lemma transition_planned r l o b plan : prepare_worker_transition r l o b = Done (Ok plan) → ∃ c s rec j v,
  planned r (cl_reservation l) o c s rec j ∧ stage_pending (slot_state s) = true ∧ cl_epoch l ≠ 0 ∧
  cr_lease j = (if b then Revoking (cl_epoch l) (cl_worker l) else Held (cl_epoch l) (cl_worker l)) ∧
  plan = mkRecovery c (hrec_cleanup rec) j
    (if b then Unowned (cl_epoch l) else Revoking (cl_epoch l) (cl_worker l)) v (hl_revision (sp_heap r)).
Proof.
  unfold prepare_worker_transition. intros E. run_tries E. guards. bools. look_again. eexists _, s, rec, j. cbn.
  match goal with E : (if b then _ else _) = Ok ?x |- _ => rename E into Hn; rename x into nx end.
  destruct b; [|injection Hn as <-; by eexists].
  destruct (negb _) in Hn; [done|]. destruct (ok_or _ _) in Hn; [|done]. injection Hn as <-. by eexists.
Qed.
Lemma transition_advances r l o b plan r' : prepare_worker_transition r l o b = Done (Ok plan) →
  commit_heap_worker_recovery r plan = Done r' → advances X r r'.
Proof.
  intros (c&s&rec&j&v&Hp&_&_&Hj&->)%transition_planned Hc. pose proof (pn_life _ _ _ _ _ _ _ Hp) as Hl.
  unfold commit_heap_worker_recovery in Hc. cbn in Hc. commit_job Hl Hc.
  match goal with E : set_cleanup _ _ _ = _ |- _ => apply set_cleanup_spec in E as (A1&A2&A3) end.
  eapply advances_job; [exact Hl|exact A3|exact A1|exact A2|done|..]; cbn.
  - rewrite Hj. destruct b; cbn; lia.
  - destruct b; cbn; auto.
  - intros _. unfold progress_le. destruct b; cbn; auto.
Qed.

(** Retirement *)
Lemma retirement_advances r l id o plan r' : prepare_heap_retirement r l id o = Done (Ok plan) →
  commit_heap_retirement r plan = Done r' → advances X r r'.
Proof.
  unfold prepare_heap_retirement. intros E Hc. run_tries E. guards.
  match goal with E : prepare_heap_worker_lease _ _ _ _ = _ |- _ => apply lease_planned in E as (s&rec&j&Hp&_&_) end.
  match goal with Hr : reservation_record _ _ = Ok _ |- _ => apply (seen_record _ _ _ _ _ _ _ Hp) in Hr; subst end.
  pose proof (pn_life _ _ _ _ _ _ _ Hp) as Hl. unfold commit_heap_retirement in Hc. cbn in Hc. commit_job Hl Hc.
  match goal with E : set_slot _ _ _ = _ |- _ => apply set_slot_spec in E as (A1&A2) end.
  eapply advances_slot with (st := SRetired) (rec' := rec); [exact Hl|..]; cbn; rewrite ?A1, ?A2; try done.
  unfold set_slot_state. by rewrite (lf_rec _ _ _ _ _ Hl).
Qed.

(** Scrubbing *)
Lemma cleanup_planned r l id o e plan : prepare_retired_cleanup r l id o e = Done (Ok plan) → ∃ c s rec j,
  planned r (cl_reservation l) o c s rec j ∧ cr_lease j = Held (cl_epoch l) (cl_worker l) ∧
  slot_state s = SRetired ∧ plan = mkCleanupPlan c l (hrec_cleanup rec) j j (hl_revision (sp_heap r)) ∧
  (∀ st, e = Some st → st = mkStatus l j).
Proof.
  unfold prepare_retired_cleanup. intros E. run_tries E. guards.
  match goal with E : prepare_heap_worker_lease _ _ _ _ = _ |- _ => apply lease_planned in E as (s&rec&j&Hp&?&_) end.
  match goal with Hr : reservation_record _ _ = Ok _ |- _ => apply (seen_record _ _ _ _ _ _ _ Hp) in Hr; subst end.
  match goal with Hj : job_at _ _ = Done (Ok _) |- _ => rewrite (seen_job _ _ _ _ _ _ _ Hp) in Hj; injection Hj as <- end.
  eexists _, s, rec, j. split_and!; try done; [by eapply seen_retired; [|apply negb_false_iff]|]. intros st ->. cbn in *. by bools.
Qed.

Lemma begin_advances r l id o plan r' x : prepare_heap_scrub_begin r l id o = Done (Ok plan) →
  commit_heap_scrub r plan = Done (r', x) → advances X r r'.
Proof.
  unfold prepare_heap_scrub_begin. intros E Hc. run_tries E. guards. bools.
  match goal with E : prepare_retired_cleanup _ _ _ _ _ = Done (Ok ?p) |- _ => apply cleanup_planned in E as (c&s&rec&j&Hp&Hj&Hst&->&_) end.
  cbn in *. pose proof (pn_life _ _ _ _ _ _ _ Hp) as Hl. unfold commit_heap_scrub in Hc. run_binds Hc. guards.
  match goal with E : set_cleanup _ _ _ = _ |- _ => apply set_cleanup_spec in E as (A1&A2&A3) end. cbn in A2.
  eapply advances_job; [exact Hl|exact A3|exact A1|exact A2|done|..]; cbn; auto; [lia|]. by right; right.
Qed.

(** One chunk: the job of this allocation goes on from [done] to [done + amount]. *)
Record scrubs (r : ScopedPointers) (st : HeapCleanupStatus) (o : AllocationOwner) (amount : Z) (plan : HeapCleanupPlan)
    (s : Slot) (rec : HeapRecord) (j : CleanupRecord) (done : Z) : Prop := {
  sb_plan : planned r (cl_reservation (cs_lease st)) o (kp_closure plan) s rec j;
  sb_state : slot_state s = SRetired;
  sb_status : st = mkStatus (cs_lease st) j;
  sb_progress : cr_progress j = Scrubbing done;
  sb_prior : kp_prior plan = j;
  sb_cleanup : kp_cleanup plan = hrec_cleanup rec;
  sb_lease : kp_lease plan = cs_lease st;
  sb_res : cr_reservation (kp_next plan) = cr_reservation j;
  sb_held : cr_lease (kp_next plan) = cr_lease j;
  sb_next : progress_done (cr_progress (kp_next plan)) (hrec_rounded rec) = done + amount;
  sb_amount : amount ≠ 0 ∧ amount ≤ 4096 ∧ amount mod 16 = 0 ∧ done + amount ≤ hrec_rounded rec;
}.
Lemma chunk_planned r st id o amount plan : prepare_heap_scrub_chunk r st id o amount = Done (Ok plan) →
  ∃ s rec j done, scrubs r st o amount plan s rec j done.
Proof.
  unfold prepare_heap_scrub_chunk. intros E. run_tries E. guards. bools.
  match goal with E : prepare_retired_cleanup _ _ _ _ _ = Done (Ok ?p) |- _ => apply cleanup_planned in E as (c&s&rec&j&Hp&Hj&Hst&->&He) end.
  cbn in *. pose proof (pn_size _ _ _ _ _ _ _ Hp) as Hsz. rewrite Hsz in *.
  match goal with E : cr_progress j = Scrubbing ?n |- _ => exists s, rec, j, n end.
  split; cbn; try done; [by apply He| |lia]. destruct (_ =? _) eqn:Heq; [bools; done|done].
Qed.
Lemma chunk_advances r st id o amount plan r' x : prepare_heap_scrub_chunk r st id o amount = Done (Ok plan) →
  commit_heap_scrub r plan = Done (r', x) → X (hr_slot (cl_reservation (cs_lease st))) → advances X r r' ∧
  ∃ s rec j done, scrubs r st o amount plan s rec j done ∧ life r' (hr_slot (cl_reservation (cs_lease st))) s rec (kp_next plan).
Proof.
  intros (s&rec&j&n&Hs)%chunk_planned Hc HX. pose proof (pn_life _ _ _ _ _ _ _ (sb_plan _ _ _ _ _ _ _ _ _ Hs)) as Hl.
  unfold commit_heap_scrub in Hc. run_binds Hc. guards. rewrite (sb_cleanup _ _ _ _ _ _ _ _ _ Hs) in *.
  match goal with E : set_cleanup _ _ _ = _ |- _ => apply set_cleanup_spec in E as (A1&A2&A3) end.
  split; [|exists s, rec, j, n; split; [done|]].
  - eapply advances_job; [exact Hl|exact A3|exact A1|exact A2|..]; try apply Hs; [by rewrite (sb_held _ _ _ _ _ _ _ _ _ Hs)| |done].
    right; left; apply Hs.
  - pose proof (life_index _ _ _ _ _ Hl) as [? ?]. destruct Hl. split; cbn; rewrite ?A1, ?(sb_res _ _ _ _ _ _ _ _ _ Hs); try done.
    unfold cleanup_job. cbn. by rewrite A2, list_lookup_insert_eq.
Qed.

(** Release: the job is complete and the slot is emptied. *)
Lemma release_advances `{Profile} r st id o plan r' : prepare_heap_release r st id o = Done (Ok plan) →
  commit_heap_release r plan = Done r' → X (hr_slot (cl_reservation (cs_lease st))) → advances X r r' ∧
  ∃ s rec j, planned r (cl_reservation (cs_lease st)) o (kp_closure (rp_cleanup plan)) s rec j ∧ cr_progress j = Clean.
Proof.
  unfold prepare_heap_release. intros E Hc HX. run_tries E. guards. bools.
  match goal with E : prepare_retired_cleanup _ _ _ _ _ = Done (Ok ?p) |- _ => apply cleanup_planned in E as (c&s&rec&j&Hp&Hj&Hst&->&He) end.
  cbn in *. rewrite (seen_reservation _ _ _ _ _ _ _ Hp) in *.
  match goal with Hr : reservation_record _ _ = Ok _ |- _ => apply (seen_record _ _ _ _ _ _ _ Hp) in Hr; subst end.
  pose proof (pn_life _ _ _ _ _ _ _ Hp) as Hl. unfold commit_heap_release in Hc. cbn in Hc.
  rewrite (seen_reservation _ _ _ _ _ _ _ Hp) in Hc. run_binds Hc. guards.
  split; [|exists s, rec, j; split; [done|]].
  - eapply emptied_advances; [exact Hl|done| |eassumption..]. 
    match goal with E : refund_bytes _ _ _ = _ |- _ => by apply refund_quiet in E end.
  - match goal with E : status_clean _ = true |- _ => unfold status_clean in E; bools; by rewrite (He _ eq_refl) in E end.
Qed.
End workers.
