(* ===== verification/Fabric.v ===== *)
(** * The memory fabric: [src/anka64/fabric.rs]

    Objects, domains, placement, authority and the three-phase transaction
    pipeline, with every state change of the source as a function on the
    [Fabric] record.  [usize] indices of vectors are [nat]; addresses, lengths
    and identities are [u64] values.  A function that can panic returns an
    [outcome].  The protected pointer cells of the same source file are in
    [FabricCells]. *)

From S2P Require Import Prelude State Extents Registry PointerFrames HeapWork.

Inductive AuthResult :=
| AuthAuthorized (g : Generation)
| AuthDenied (r : FaultReason).
#[export] Instance AuthResult_eq_dec : EqDecision AuthResult.
Proof. solve_decision. Defined.

(** ** The timer *)
Record FabricTimer := mkTimer { tm_period : Z; tm_counter : Z; tm_enabled : bool }.

(** [FabricTimer::new] *)
Definition timer_new (period : Z) : FabricTimer := mkTimer period period true.

Definition tick (t : FabricTimer) : FabricTimer * bool :=
  if negb (tm_enabled t) || (tm_period t =? 0) then (t, false)
  else
    let counter := saturating_sub (tm_counter t) 1 in
    if counter =? 0 then (mkTimer (tm_period t) (tm_period t) (tm_enabled t), true)
    else (mkTimer (tm_period t) counter (tm_enabled t), false).

(** ** Private heap custody ([fabric/heap.rs])

    The row table, its search bound, the shadow tags, the optional CPU work backend
    and the identity floor. *)
Record PrivateHeapRow := mkHeapRow {
  row_reservation : HeapReservation;
  row_owner : AllocationOwner;
  row_object : ObjectId;
  row_object_generation : Generation;
  row_logical : Z;
  row_extents : HeapExtents;
  row_planned_rights : Permissions;
  row_initialized_bytes : Z;
  row_initialization_version : Z;
}.

Record HeapFabric := mkHeapFabric {
  hf_pool : Extent;
  hf_virtual_window : Extent;
  hf_rows : list (option PrivateHeapRow);
  hf_rows_end : nat;
  hf_shadow : list (option ScopedPointer);
  hf_work : option HeapCpuWork;
  hf_object_id_floor : Z;
}.

Definition contains_object (h : HeapFabric) (id : ObjectId) : bool :=
  existsb (λ r, row_object r =? id) (flatten (take (hf_rows_end h) (hf_rows h))).

(** [HeapFabric::end]: the pool is validated at construction, so that its end
    is representable; [overlaps] is the only caller that needs it. *)
Definition heap_end (h : HeapFabric) : Z := ext_base (hf_pool h) + ext_size (hf_pool h).

Definition heap_overlaps (h : HeapFabric) (base length : Z) : bool :=
  if length =? 0 then false
  else is_none_or (λ end_, (base <? heap_end h) && (ext_base (hf_pool h) <? end_))
         (checked_add base length).

(** ** The fabric *)
Record Fabric := mkFabric {
  fab_scoped_pointers : ScopedPointers;
  fab_pointer_stack_objects : gmap Z (Z * Z);
  fab_pointer_cells : gmap (Z * Z * Z) ScopedPointer;
  fab_objects : gmap Z Object;
  fab_domains : gmap Z DomainState;
  fab_agents : gmap Z AgentState;
  fab_placement : gmap Z Z;
  fab_memory : list Z;
  fab_private_heap : option HeapFabric;
  fab_fault_log : list FaultRecord;
  fab_transactions : list Transaction;
  fab_next_object_id : Z;
  fab_next_domain_id : Z;
  fab_next_tx_id : Z;
  fab_next_authority_id : Z;
  fab_timer : option FabricTimer;
}.

Definition set_fab_scoped_pointers (v : ScopedPointers) (s : Fabric) : Fabric :=
  mkFabric v (fab_pointer_stack_objects s) (fab_pointer_cells s) (fab_objects s) (fab_domains s)
    (fab_agents s) (fab_placement s) (fab_memory s) (fab_private_heap s) (fab_fault_log s)
    (fab_transactions s) (fab_next_object_id s) (fab_next_domain_id s) (fab_next_tx_id s)
    (fab_next_authority_id s) (fab_timer s).
Definition set_fab_pointer_stack_objects (v : gmap Z (Z * Z)) (s : Fabric) : Fabric :=
  mkFabric (fab_scoped_pointers s) v (fab_pointer_cells s) (fab_objects s) (fab_domains s)
    (fab_agents s) (fab_placement s) (fab_memory s) (fab_private_heap s) (fab_fault_log s)
    (fab_transactions s) (fab_next_object_id s) (fab_next_domain_id s) (fab_next_tx_id s)
    (fab_next_authority_id s) (fab_timer s).
Definition set_fab_pointer_cells (v : gmap (Z * Z * Z) ScopedPointer) (s : Fabric) : Fabric :=
  mkFabric (fab_scoped_pointers s) (fab_pointer_stack_objects s) v (fab_objects s) (fab_domains
    s) (fab_agents s) (fab_placement s) (fab_memory s) (fab_private_heap s) (fab_fault_log s)
    (fab_transactions s) (fab_next_object_id s) (fab_next_domain_id s) (fab_next_tx_id s)
    (fab_next_authority_id s) (fab_timer s).
Definition set_fab_objects (v : gmap Z Object) (s : Fabric) : Fabric :=
  mkFabric (fab_scoped_pointers s) (fab_pointer_stack_objects s) (fab_pointer_cells s) v
    (fab_domains s) (fab_agents s) (fab_placement s) (fab_memory s) (fab_private_heap s)
    (fab_fault_log s) (fab_transactions s) (fab_next_object_id s) (fab_next_domain_id s)
    (fab_next_tx_id s) (fab_next_authority_id s) (fab_timer s).
Definition set_fab_domains (v : gmap Z DomainState) (s : Fabric) : Fabric :=
  mkFabric (fab_scoped_pointers s) (fab_pointer_stack_objects s) (fab_pointer_cells s)
    (fab_objects s) v (fab_agents s) (fab_placement s) (fab_memory s) (fab_private_heap s)
    (fab_fault_log s) (fab_transactions s) (fab_next_object_id s) (fab_next_domain_id s)
    (fab_next_tx_id s) (fab_next_authority_id s) (fab_timer s).
Definition set_fab_agents (v : gmap Z AgentState) (s : Fabric) : Fabric :=
  mkFabric (fab_scoped_pointers s) (fab_pointer_stack_objects s) (fab_pointer_cells s)
    (fab_objects s) (fab_domains s) v (fab_placement s) (fab_memory s) (fab_private_heap s)
    (fab_fault_log s) (fab_transactions s) (fab_next_object_id s) (fab_next_domain_id s)
    (fab_next_tx_id s) (fab_next_authority_id s) (fab_timer s).
Definition set_fab_placement (v : gmap Z Z) (s : Fabric) : Fabric :=
  mkFabric (fab_scoped_pointers s) (fab_pointer_stack_objects s) (fab_pointer_cells s)
    (fab_objects s) (fab_domains s) (fab_agents s) v (fab_memory s) (fab_private_heap s)
    (fab_fault_log s) (fab_transactions s) (fab_next_object_id s) (fab_next_domain_id s)
    (fab_next_tx_id s) (fab_next_authority_id s) (fab_timer s).
Definition set_fab_memory (v : list Z) (s : Fabric) : Fabric :=
  mkFabric (fab_scoped_pointers s) (fab_pointer_stack_objects s) (fab_pointer_cells s)
    (fab_objects s) (fab_domains s) (fab_agents s) (fab_placement s) v (fab_private_heap s)
    (fab_fault_log s) (fab_transactions s) (fab_next_object_id s) (fab_next_domain_id s)
    (fab_next_tx_id s) (fab_next_authority_id s) (fab_timer s).
Definition set_fab_private_heap (v : option HeapFabric) (s : Fabric) : Fabric :=
  mkFabric (fab_scoped_pointers s) (fab_pointer_stack_objects s) (fab_pointer_cells s)
    (fab_objects s) (fab_domains s) (fab_agents s) (fab_placement s) (fab_memory s) v
    (fab_fault_log s) (fab_transactions s) (fab_next_object_id s) (fab_next_domain_id s)
    (fab_next_tx_id s) (fab_next_authority_id s) (fab_timer s).
Definition set_fab_fault_log (v : list FaultRecord) (s : Fabric) : Fabric :=
  mkFabric (fab_scoped_pointers s) (fab_pointer_stack_objects s) (fab_pointer_cells s)
    (fab_objects s) (fab_domains s) (fab_agents s) (fab_placement s) (fab_memory s)
    (fab_private_heap s) v (fab_transactions s) (fab_next_object_id s) (fab_next_domain_id s)
    (fab_next_tx_id s) (fab_next_authority_id s) (fab_timer s).
Definition set_fab_transactions (v : list Transaction) (s : Fabric) : Fabric :=
  mkFabric (fab_scoped_pointers s) (fab_pointer_stack_objects s) (fab_pointer_cells s)
    (fab_objects s) (fab_domains s) (fab_agents s) (fab_placement s) (fab_memory s)
    (fab_private_heap s) (fab_fault_log s) v (fab_next_object_id s) (fab_next_domain_id s)
    (fab_next_tx_id s) (fab_next_authority_id s) (fab_timer s).
Definition set_fab_next_object_id (v : Z) (s : Fabric) : Fabric :=
  mkFabric (fab_scoped_pointers s) (fab_pointer_stack_objects s) (fab_pointer_cells s)
    (fab_objects s) (fab_domains s) (fab_agents s) (fab_placement s) (fab_memory s)
    (fab_private_heap s) (fab_fault_log s) (fab_transactions s) v (fab_next_domain_id s)
    (fab_next_tx_id s) (fab_next_authority_id s) (fab_timer s).
Definition set_fab_next_domain_id (v : Z) (s : Fabric) : Fabric :=
  mkFabric (fab_scoped_pointers s) (fab_pointer_stack_objects s) (fab_pointer_cells s)
    (fab_objects s) (fab_domains s) (fab_agents s) (fab_placement s) (fab_memory s)
    (fab_private_heap s) (fab_fault_log s) (fab_transactions s) (fab_next_object_id s) v
    (fab_next_tx_id s) (fab_next_authority_id s) (fab_timer s).
Definition set_fab_next_tx_id (v : Z) (s : Fabric) : Fabric :=
  mkFabric (fab_scoped_pointers s) (fab_pointer_stack_objects s) (fab_pointer_cells s)
    (fab_objects s) (fab_domains s) (fab_agents s) (fab_placement s) (fab_memory s)
    (fab_private_heap s) (fab_fault_log s) (fab_transactions s) (fab_next_object_id s)
    (fab_next_domain_id s) v (fab_next_authority_id s) (fab_timer s).
Definition set_fab_next_authority_id (v : Z) (s : Fabric) : Fabric :=
  mkFabric (fab_scoped_pointers s) (fab_pointer_stack_objects s) (fab_pointer_cells s)
    (fab_objects s) (fab_domains s) (fab_agents s) (fab_placement s) (fab_memory s)
    (fab_private_heap s) (fab_fault_log s) (fab_transactions s) (fab_next_object_id s)
    (fab_next_domain_id s) (fab_next_tx_id s) v (fab_timer s).
Definition set_fab_timer (v : option FabricTimer) (s : Fabric) : Fabric :=
  mkFabric (fab_scoped_pointers s) (fab_pointer_stack_objects s) (fab_pointer_cells s)
    (fab_objects s) (fab_domains s) (fab_agents s) (fab_placement s) (fab_memory s)
    (fab_private_heap s) (fab_fault_log s) (fab_transactions s) (fab_next_object_id s)
    (fab_next_domain_id s) (fab_next_tx_id s) (fab_next_authority_id s) v.

(** Iteration over the entries of a [BTreeMap]. *)
Definition map_any {V} (p : Z → V → bool) (m : gmap Z V) : bool :=
  existsb (λ kv, p kv.1 kv.2) (map_to_list m).
Definition map_all {V} (p : Z → V → bool) (m : gmap Z V) : bool :=
  forallb (λ kv, p kv.1 kv.2) (map_to_list m).

(** [Fabric::from_parts] *)
Definition from_parts (memory : list Z) (pointers : ScopedPointers)
    (heap : option HeapFabric) : Fabric :=
  mkFabric pointers ∅ ∅ ∅ ∅ ∅ ∅ memory heap [] [] 0 0 0 0 None.

(** [Fabric::new] *)
Definition fabric_new `{Host} (mem_size : Z) : outcome Fabric :=
  pointers ← registry_new 4096;
  mret (from_parts (replicate (Z.to_nat mem_size) 0) pointers None).

Definition private_heap_object (f : Fabric) (object : ObjectId) : bool :=
  is_some_and (λ h, contains_object h object) (fab_private_heap f).

Definition heap_pool_overlaps (f : Fabric) (base length : Z) : bool :=
  is_some_and (λ h, heap_overlaps h base length) (fab_private_heap f).

Definition mem_len (f : Fabric) : Z := zlen (fab_memory f).

(** [memory[base..end].copy_from_slice(data)], [memory[base..end].fill(0)] and
    [memory[base..end].to_vec()], which panic out of range. *)
Definition mem_write (f : Fabric) (base end_ : Z) (data : list Z) : outcome Fabric :=
  if (0 <=? base) && (base <=? end_) && (end_ <=? mem_len f) && (zlen data =? end_ - base)
  then Done (set_fab_memory (splice base data (fab_memory f)) f) else Panic.
Definition mem_fill (f : Fabric) (base end_ : Z) : outcome Fabric :=
  mem_write f base end_ (replicate (Z.to_nat (end_ - base)) 0).
Definition mem_read (f : Fabric) (base end_ : Z) : outcome (list Z) :=
  if (0 <=? base) && (base <=? end_) && (end_ <=? mem_len f)
  then Done (slice base (end_ - base) (fab_memory f)) else Panic.

(** ** Identities *)
Definition alloc_authority_id (f : Fabric) : option (Fabric * AuthorityId) :=
  next ← checked_add (fab_next_authority_id f) 1;
  Some (set_fab_next_authority_id next f, fab_next_authority_id f).

Definition can_alloc_authority_id (f : Fabric) : bool :=
  is_some (checked_add (fab_next_authority_id f) 1).

Definition configure_timer (f : Fabric) (period : Z) : Fabric :=
  set_fab_timer (Some (timer_new period)) f.

(** ** Objects *)
Definition next_fresh_object_id (f : Fabric) : option ObjectId :=
  _ ← checked_add (fab_next_object_id f) 1;
  let id := fab_next_object_id f in
  if is_some (fab_objects f !! id) || is_some (fab_placement f !! id)
     || is_some_and (λ h, (id <? hf_object_id_floor h) || contains_object h id) (fab_private_heap f)
  then None else Some id.

Definition try_alloc_object (f : Fabric) (name : string) (size : Z) (kind : ObjectKind) :
    outcome (option (Fabric * ObjectId)) :=
  match next_fresh_object_id f with
  | None => Done None
  | Some id =>
      next ← unwrap (checked_add id 1);
      Done (Some (set_fab_next_object_id next
        (set_fab_objects (<[id := mkObject id 0 size Active kind name]> (fab_objects f)) f), id))
  end.

Definition alloc_object (f : Fabric) (name : string) (size : Z) (kind : ObjectKind) :
    outcome (Fabric * ObjectId) :=
  r ← try_alloc_object f name size kind; unwrap r.

(** [pointer_cells.retain(|(object, _, _), _| object != id)] *)
Definition forget_object_cells (f : Fabric) (id : ObjectId) : Fabric :=
  set_fab_pointer_cells (filter (λ kv, kv.1.1.1 ≠ id) (fab_pointer_cells f)) f.

(** The overlap test of [place_object] against one existing placement. *)
Definition placement_conflict (f : Fabric) (id : ObjectId) (physical_base new_end : Z)
    (existing_id : ObjectId) (existing_base : Z) : bool :=
  if existing_id =? id then false
  else match fab_objects f !! existing_id with
       | None => false
       | Some o =>
           if negb (alive (obj_state o)) then false
           else match checked_add existing_base (obj_size o) with
                | None => false
                | Some existing_end => (physical_base <? existing_end) && (existing_base <? new_end)
                end
       end.

Definition place_object (f : Fabric) (id : ObjectId) (physical_base : Z) : Fabric * bool :=
  if private_heap_object f id then (f, false)
  else match fab_objects f !! id with
       | None => (f, false)
       | Some obj =>
           match checked_add physical_base (obj_size obj) with
           | None => (f, false)
           | Some new_end =>
               if heap_pool_overlaps f physical_base (obj_size obj) then (f, false)
               else if map_any (placement_conflict f id physical_base new_end) (fab_placement f)
               then (f, false)
               else
                 let f := if bool_decide (fab_placement f !! id ≠ Some physical_base)
                          then forget_object_cells f id else f in
                 (set_fab_placement (<[id := physical_base]> (fab_placement f)) f, true)
           end
       end.

Definition physical_base (f : Fabric) (id : ObjectId) : option Z :=
  if private_heap_object f id then None else fab_placement f !! id.

Definition move_object (f : Fabric) (id : ObjectId) (new_base : Z) : Fabric * bool :=
  place_object f id new_base.

Definition set_object_state (g : Generation) (s : ObjectState) (o : Object) : Object :=
  mkObject (obj_id o) g (obj_size o) s (obj_kind o) (obj_name o).

Definition revoke (f : Fabric) (id : ObjectId) : Fabric :=
  if private_heap_object f id then f
  else
    let f := forget_object_cells f id in
    match fab_objects f !! id with
    | Some o => set_fab_objects
        (<[id := set_object_state (gen_next (obj_generation o)) Revoked o]> (fab_objects f)) f
    | None => f
    end.

Definition seal_object (f : Fabric) (id : ObjectId) : Fabric * bool :=
  if private_heap_object f id then (f, false)
  else match fab_objects f !! id with
       | Some o =>
           if negb (bool_decide (obj_state o = Active)) then (f, false)
           else (set_fab_objects
             (<[id := set_object_state (gen_next (obj_generation o)) Sealed o]> (fab_objects f)) f,
             true)
       | None => (f, false)
       end.

Definition physical_high_watermark (f : Fabric) : option Z :=
  foldr (λ kv acc, hwm ← acc;
    match fab_objects f !! kv.1 with
    | None => Some hwm
    | Some obj =>
        if negb (alive (obj_state obj)) then Some hwm
        else end_ ← checked_add kv.2 (obj_size obj);
             up ← checked_add end_ 4095;
             Some (Z.max hwm (Z.ldiff up 4095))
    end) (Some (match fab_private_heap f with Some h => heap_end h | None => 0 end))
    (map_to_list (fab_placement f)).

(** ** The write barrier for pointer cells *)
Definition cell_survives (placement : gmap Z Z) (base end_ : Z) (key : Z * Z * Z) : Prop :=
  is_some_and (λ cell, is_some_and (λ cell_end, negb ((base <? cell_end) && (cell <? end_)))
                         (checked_add cell 16))
    (p ← placement !! key.1.1; checked_add p key.2) = true.
#[export] Instance cell_survives_dec p b e k : Decision (cell_survives p b e k).
Proof. unfold cell_survives. apply _. Defined.

Definition clear_pointer_cells_physical (f : Fabric) (base length : Z) : outcome Fabric :=
  if length =? 0 then Done f
  else
    end_ ← unwrap (checked_add base length);
    Done (set_fab_pointer_cells
      (filter (λ kv, cell_survives (fab_placement f) base end_ kv.1) (fab_pointer_cells f)) f).

Definition zero_object_extent (f : Fabric) (id : ObjectId) : outcome (Fabric * bool) :=
  if private_heap_object f id then Done (f, false)
  else match fab_objects f !! id with
       | Some o =>
           if negb (bool_decide (obj_state o = Active)) then Done (f, false)
           else match fab_placement f !! id with
                | None => Done (f, false)
                | Some phys_base =>
                    match checked_add phys_base (obj_size o) with
                    | Some end_ =>
                        if negb (end_ <=? mem_len f) then Done (f, false)
                        else if heap_pool_overlaps f phys_base (obj_size o) then Done (f, false)
                        else
                          f ← clear_pointer_cells_physical f phys_base (obj_size o);
                          f ← mem_fill f phys_base end_;
                          Done (f, true)
                    | None => Done (f, false)
                    end
                end
       | None => Done (f, false)
       end.

(** ** Domains and agents *)
Section domains.
Context `{Profile}.

Definition create_domain (f : Fabric) : outcome (Fabric * DomainId) :=
  let id := fab_next_domain_id f in
  next ← add_u64 (fab_next_domain_id f) 1;
  Done (set_fab_domains (<[id := mkDomain id [] []]> (fab_domains f))
          (set_fab_next_domain_id next f), id).

Definition try_create_compiler_domain (f : Fabric) : outcome (option (Fabric * DomainId)) :=
  match checked_add (fab_next_domain_id f) 1 with
  | None => Done None
  | Some _ =>
      if is_some (fab_domains f !! fab_next_domain_id f) then Done None
      else r ← create_domain f; Done (Some r)
  end.
End domains.

Definition destroy_domain (f : Fabric) (id : DomainId) : Fabric :=
  set_fab_domains (delete id (fab_domains f)) f.

Definition domain_count (f : Fabric) : Z := Z.of_nat (size (fab_domains f)).

Definition destroy_object (f : Fabric) (id : ObjectId) : Fabric :=
  if private_heap_object f id then f
  else set_fab_placement (delete id (fab_placement f))
         (set_fab_objects (delete id (fab_objects f))
           (set_fab_pointer_stack_objects (delete id (fab_pointer_stack_objects f)) f)).

Definition names_object (d : DomainState) (id : ObjectId) : bool :=
  existsb (λ e, cap_object (entry_cap e) =? id) (dom_capabilities d).

Definition rollback_unpublished_object (f : Fabric) (id : ObjectId) : Fabric * bool :=
  if is_some_and (λ h, id <? hf_object_id_floor h) (fab_private_heap f) then (f, false)
  else if negb (bool_decide (checked_add id 1 = Some (fab_next_object_id f))) then (f, false)
  else match fab_objects f !! id with
       | Some obj =>
           if negb (bool_decide (obj_state obj = Active)) then (f, false)
           else if negb (obj_id obj =? id) then (f, false)
           else if map_any (λ _ d, names_object d id) (fab_domains f)
                   || map_any (λ _ d, existsb (λ e, dev_object e =? id) (dom_device_authorities d))
                        (fab_domains f)
                   || existsb (λ tx, req_object (tx_request tx) =? id) (fab_transactions f)
                   || existsb (λ r, fault_object r =? id) (fab_fault_log f)
           then (f, false)
           else (set_fab_next_object_id id
                   (set_fab_objects (delete id (fab_objects f))
                     (set_fab_placement (delete id (fab_placement f)) f)), true)
       | None => (f, false)
       end.

Definition zero_physical (f : Fabric) (base size : Z) : outcome Fabric :=
  if heap_pool_overlaps f base size then Done f
  else match checked_add base size with
       | None => Done f
       | Some end_ =>
           if end_ <=? mem_len f then
             f ← clear_pointer_cells_physical f base size; mem_fill f base end_
           else Done f
       end.

Definition register_agent (f : Fabric) (id : AgentId) (kind : AgentKind) (domain : DomainId) : Fabric :=
  set_fab_agents (<[id := mkAgent id kind domain]> (fab_agents f)) f.

(** ** Authority *)

(** [validate]: alive, current generation, range within the object. *)
Definition validate (f : Fabric) (cap : Capability64) : bool :=
  if private_heap_object f (cap_object cap) then false
  else match fab_objects f !! cap_object cap with
       | Some obj =>
           alive (obj_state obj) && (cap_generation cap =? obj_generation obj)
           && (cap_length cap <=? obj_size obj) && (cap_offset cap <=? obj_size obj - cap_length cap)
       | None => false
       end.

(** A stack object bound to another domain. *)
Definition foreign_stack (f : Fabric) (object domain : Z) : bool :=
  is_some_and (λ b, negb (b.2 =? domain)) (fab_pointer_stack_objects f !! object).

(** [domains.get_mut(&d)?.capabilities.push(..)] *)
Definition push_capability (f : Fabric) (domain : DomainId) (e : CapabilityEntry) : option Fabric :=
  d ← fab_domains f !! domain;
  Some (set_fab_domains (<[domain :=
    mkDomain (dom_id d) (dom_capabilities d ++ [e]) (dom_device_authorities d)]> (fab_domains f)) f).
Definition push_device (f : Fabric) (domain : DomainId) (e : DeviceAuthorityEntry) : option Fabric :=
  d ← fab_domains f !! domain;
  Some (set_fab_domains (<[domain :=
    mkDomain (dom_id d) (dom_capabilities d) (dom_device_authorities d ++ [e])]> (fab_domains f)) f).

(** The W^X guard of both grants. *)
Definition grant_allowed (s : ObjectState) (perms : Permissions) : bool :=
  match s with
  | Active => negb (Perm.contains perms Perm.EXECUTE)
  | Sealed => negb (Perm.contains perms Perm.WRITE || Perm.contains perms Perm.ATOMIC
                    || Perm.contains perms Perm.SEAL)
  | Revoked | Freed => false
  end.

Definition has_authority_id (f : Fabric) (domain : DomainId) (target : AuthorityId) : bool :=
  match fab_domains f !! domain with
  | Some d =>
      existsb (λ e, bool_decide (entry_authority_id e = Some target)) (dom_capabilities d)
      || existsb (λ e, dev_authority_id e =? target) (dom_device_authorities d)
  | None => false
  end.

Definition grant (f : Fabric) (domain object offset length : Z) (perms : Permissions) :
    option (Fabric * Capability64) :=
  if private_heap_object f object then None
  else if foreign_stack f object domain then None
  else
    obj ← fab_objects f !! object;
    if negb (bool_decide (obj_kind obj = Memory)) then None
    else if negb (grant_allowed (obj_state obj) perms) then None
    else if obj_size obj <? length then None
    else if obj_size obj - length <? offset then None
    else
      let cap := mkCap object (obj_generation obj) offset length perms in
      f' ← push_capability f domain (mkEntry cap None);
      Some (f', cap).

Definition grant_with_authority_id (f : Fabric) (domain object offset length : Z)
    (perms : Permissions) (authority_id : AuthorityId) : option (Fabric * Capability64) :=
  if private_heap_object f object then None
  else if foreign_stack f object domain then None
  else
    obj ← fab_objects f !! object;
    if negb (bool_decide (obj_kind obj = Memory)) then None
    else if has_authority_id f domain authority_id then None
    else if negb (grant_allowed (obj_state obj) perms) then None
    else if obj_size obj <? length then None
    else if obj_size obj - length <? offset then None
    else
      let cap := mkCap object (obj_generation obj) offset length perms in
      f' ← push_capability f domain (mkEntry cap (Some authority_id));
      Some (f', cap).

Definition list_remove_at {A} (i : nat) (l : list A) : list A := take i l ++ drop (S i) l.

Definition remove_by_authority_id (f : Fabric) (domain : DomainId) (target : AuthorityId) :
    Fabric * bool :=
  match fab_domains f !! domain with
  | None => (f, false)
  | Some d =>
      match position (λ e, bool_decide (entry_authority_id e = Some target)) (dom_capabilities d) with
      | Some i => (set_fab_domains (<[domain := mkDomain (dom_id d)
          (list_remove_at i (dom_capabilities d)) (dom_device_authorities d)]> (fab_domains f)) f, true)
      | None =>
          match position (λ e, dev_authority_id e =? target) (dom_device_authorities d) with
          | Some i => (set_fab_domains (<[domain := mkDomain (dom_id d) (dom_capabilities d)
              (list_remove_at i (dom_device_authorities d))]> (fab_domains f)) f, true)
          | None => (f, false)
          end
      end
  end.

(** The subset test shared by the derivations. *)
Definition within_parent (parent : Capability64) (child_offset child_length : Z) : bool :=
  (cap_offset parent <=? child_offset) && (child_length <=? cap_length parent)
  && (child_offset - cap_offset parent <=? cap_length parent - child_length).

Definition derive (f : Fabric) (domain : DomainId) (parent : Capability64)
    (child_offset child_length : Z) (child_perms : Permissions) : option (Fabric * Capability64) :=
  if foreign_stack f (cap_object parent) domain then None
  else
    obj ← fab_objects f !! cap_object parent;
    if negb (bool_decide (obj_kind obj = Memory)) then None
    else if negb (validate f parent) then None
    else if negb (Perm.is_subset_of child_perms (cap_permissions parent)) then None
    else if negb (within_parent parent child_offset child_length) then None
    else
      let cap := mkCap (cap_object parent) (cap_generation parent) child_offset child_length child_perms in
      f' ← push_capability f domain (mkEntry cap None);
      Some (f', cap).

(** [capabilities.iter().find(|e| e.authority_id == Some(id))] *)
Definition find_authority (f : Fabric) (domain : DomainId) (id : AuthorityId) : option Capability64 :=
  d ← fab_domains f !! domain;
  e ← List.find (λ e, bool_decide (entry_authority_id e = Some id)) (dom_capabilities d);
  Some (entry_cap e).

Definition derive_from_authority_id (f : Fabric) (src_domain : DomainId)
    (source_authority_id : AuthorityId) (dst_domain : DomainId) (child_offset child_length : Z)
    (child_perms : Permissions) (new_authority_id : AuthorityId) : option (Fabric * Capability64) :=
  parent ← find_authority f src_domain source_authority_id;
  if foreign_stack f (cap_object parent) dst_domain then None
  else
    obj ← fab_objects f !! cap_object parent;
    if negb (bool_decide (obj_kind obj = Memory)) then None
    else if negb (validate f parent) then None
    else if negb (Perm.is_subset_of child_perms (cap_permissions parent)) then None
    else if child_length =? 0 then None
    else if negb (within_parent parent child_offset child_length) then None
    else if has_authority_id f dst_domain new_authority_id then None
    else
      let cap := mkCap (cap_object parent) (cap_generation parent) child_offset child_length child_perms in
      f' ← push_capability f dst_domain (mkEntry cap (Some new_authority_id));
      Some (f', cap).

Definition find_device (f : Fabric) (domain : DomainId) (id : AuthorityId) :
    option DeviceAuthorityEntry :=
  d ← fab_domains f !! domain;
  List.find (λ e, dev_authority_id e =? id) (dom_device_authorities d).

Definition derive_device_from_authority_id (f : Fabric) (src_domain : DomainId)
    (source_authority_id : AuthorityId) (expected_object : ObjectId)
    (expected_generation : Generation) (exact_source_rights : DeviceRights)
    (dst_domain : DomainId) (child_rights : DeviceRights) (new_authority_id : AuthorityId) :
    option (Fabric * (ObjectId * Generation * DeviceRights)) :=
  entry ← find_device f src_domain source_authority_id;
  if negb (dev_object entry =? expected_object) then None
  else if negb (dev_generation entry =? expected_generation) then None
  else if negb (dev_rights entry =? exact_source_rights) then None
  else
    obj ← fab_objects f !! expected_object;
    if negb (bool_decide (obj_kind obj = Device)) then None
    else if negb (bool_decide (obj_state obj = Active)) then None
    else if negb (obj_generation obj =? expected_generation) then None
    else if negb (DevRights.is_subset_of child_rights exact_source_rights) then None
    else if has_authority_id f dst_domain new_authority_id then None
    else
      f' ← push_device f dst_domain
             (mkDevEntry expected_object expected_generation child_rights new_authority_id);
      Some (f', (expected_object, expected_generation, child_rights)).

Definition grant_device_with_authority_id (f : Fabric) (domain object : Z)
    (rights : DeviceRights) (authority_id : AuthorityId) : option Fabric :=
  if private_heap_object f object then None
  else
    obj ← fab_objects f !! object;
    if negb (bool_decide (obj_kind obj = Device)) then None
    else if negb (bool_decide (obj_state obj = Active)) then None
    else if has_authority_id f domain authority_id then None
    else push_device f domain (mkDevEntry object (obj_generation obj) rights authority_id).

Definition validate_device_authority (f : Fabric) (domain : DomainId) (authority_id : AuthorityId)
    (expected_object : ObjectId) (expected_generation : Generation)
    (exact_slot_rights required_rights : DeviceRights) : bool :=
  if private_heap_object f expected_object then false
  else match find_device f domain authority_id with
       | None => false
       | Some entry =>
           (dev_object entry =? expected_object) && (dev_generation entry =? expected_generation)
           && (dev_rights entry =? exact_slot_rights)
           && DevRights.contains exact_slot_rights required_rights
           && match fab_objects f !! expected_object with
              | Some obj => bool_decide (obj_kind obj = Device)
                            && (obj_generation obj =? expected_generation)
              | None => false
              end
       end.

Definition find_authorizing_cap (f : Fabric) (domain object offset length : Z)
    (required : Permissions) : option Capability64 :=
  d ← fab_domains f !! domain;
  List.find (λ cap, validate f cap && covers cap object offset length required)
    (entry_cap <$> dom_capabilities d).

Section delegation.
Context `{Profile}.

(** The common tail: a fresh domain that holds exactly the derived span; on a
    refused derivation the domain is removed again. *)
Definition delegate_into_fresh (f : Fabric) (parent : Capability64) (offset length : Z)
    (perms : Permissions) : outcome (Fabric * option DomainId) :=
  r ← create_domain f;
  let '(f1, dma_domain) := r in
  match derive f1 dma_domain parent offset length perms with
  | Some (f2, _) => Done (f2, Some dma_domain)
  | None => Done (destroy_domain f1 dma_domain, None)
  end.

Definition delegate_dma_span (f : Fabric) (source_domain object offset length : Z)
    (perms : Permissions) : outcome (Fabric * option DomainId) :=
  if is_some (fab_pointer_stack_objects f !! object) then Done (f, None)
  else match fab_objects f !! object with
       | None => Done (f, None)
       | Some obj =>
           if negb (bool_decide (obj_kind obj = Memory)) then Done (f, None)
           else match find_authorizing_cap f source_domain object offset length perms with
                | None => Done (f, None)
                | Some parent => delegate_into_fresh f parent offset length perms
                end
       end.

Definition delegate_dma_span_from_authority_id (f : Fabric) (source_domain : DomainId)
    (source_authority_id : AuthorityId) (object offset length : Z) (perms : Permissions) :
    outcome (Fabric * option DomainId) :=
  if is_some (fab_pointer_stack_objects f !! object) then Done (f, None)
  else match find_authority f source_domain source_authority_id with
       | None => Done (f, None)
       | Some parent =>
           if negb (cap_object parent =? object) then Done (f, None)
           else match fab_objects f !! object with
                | None => Done (f, None)
                | Some obj =>
                    if negb (bool_decide (obj_kind obj = Memory)) then Done (f, None)
                    else if negb (cap_generation parent =? obj_generation obj) then Done (f, None)
                    else if negb (validate f parent) then Done (f, None)
                    else if negb (covers parent object offset length perms) then Done (f, None)
                    else delegate_into_fresh f parent offset length perms
                end
       end.
End delegation.

Definition initialize_object (f : Fabric) (id : ObjectId) (offset : Z) (data : list Z) :
    outcome (Fabric * bool) :=
  if private_heap_object f id then Done (f, false)
  else match fab_objects f !! id with
       | Some obj =>
           if negb (bool_decide (obj_state obj = Active)) then Done (f, false)
           else if obj_size obj <? zlen data then Done (f, false)
           else if obj_size obj - zlen data <? offset then Done (f, false)
           else match fab_placement f !! id with
                | None => Done (f, false)
                | Some phys_base =>
                    match checked_add phys_base offset with
                    | None => Done (f, false)
                    | Some base =>
                        match checked_add base (zlen data) with
                        | None => Done (f, false)
                        | Some end_ =>
                            if negb (end_ <=? mem_len f) then Done (f, false)
                            else if heap_pool_overlaps f base (zlen data) then Done (f, false)
                            else
                              f ← clear_pointer_cells_physical f base (zlen data);
                              f ← mem_write f base end_ data;
                              Done (f, true)
                        end
                    end
                end
       | None => Done (f, false)
       end.

(** ** Authorization *)

(** The scan over the domain's capabilities: the generation of the first valid
    covering one, or whether a covering one was stale. *)
Definition authorize_scan (f : Fabric) (request : MemoryRequest) :
    list CapabilityEntry → bool → Generation + bool :=
  fix scan caps stale :=
    match caps with
    | [] => inr stale
    | entry :: caps =>
        if covers (entry_cap entry) (req_object request) (req_offset request) (req_length request)
             (required_permission (req_kind request))
        then if validate f (entry_cap entry) then inl (cap_generation (entry_cap entry))
             else scan caps true
        else scan caps stale
    end.

(** A protected stack may be touched only by a CPU agent of its owning domain. *)
Definition stack_guard (f : Fabric) (object agent domain : Z) : bool :=
  match fab_pointer_stack_objects f !! object with
  | Some (_, owner) =>
      (owner =? domain)
      && is_some_and (λ a, (agent_domain a =? owner) && is_cpu (agent_kind a)) (fab_agents f !! agent)
  | None => true
  end.

Definition authorize (f : Fabric) (request : MemoryRequest) : AuthResult :=
  let ctx := req_context request in
  if negb (stack_guard f (req_object request) (ctx_agent ctx) (ctx_domain ctx))
  then AuthDenied WrongPermission
  else match fab_domains f !! ctx_domain ctx with
       | None => AuthDenied NoCapability
       | Some domain =>
           match authorize_scan f request (dom_capabilities domain) false with
           | inl g => AuthAuthorized g
           | inr stale => AuthDenied
               (if (stale : bool) then StaleGeneration
                else if existsb (λ e, (cap_object (entry_cap e) =? req_object request)
                                      && validate f (entry_cap e)) (dom_capabilities domain)
                then WrongPermission else NoCapability)
           end
       end.

Definition translate (f : Fabric) (object offset : Z) : option Z :=
  if private_heap_object f object then None
  else
    base ← fab_placement f !! object;
    physical ← checked_add base offset;
    if negb (heap_pool_overlaps f physical 1) then Some physical else None.

(** ** Transactions *)
Definition update_tx (f : Fabric) (idx : nat) (k : Transaction → Transaction) : outcome Fabric :=
  tx ← vec_get idx (fab_transactions f);
  Done (set_fab_transactions (<[idx := k tx]> (fab_transactions f)) f).

(** The record [fault_transaction] builds. *)
Definition tx_fault_record (tx : Transaction) (reason : FaultReason) : FaultRecord :=
  let r := tx_request tx in
  mkFault (ctx_agent (req_context r)) (ctx_domain (req_context r)) (ctx_privilege (req_context r))
    (tx_id tx) (req_object r) (tx_auth_generation tx) (req_offset r) (req_width r) (req_length r)
    (req_kind r) None reason.

Definition fault_tx (f : Fabric) (idx : nat) (reason : FaultReason) : outcome Fabric :=
  tx ← vec_get idx (fab_transactions f);
  let record := tx_fault_record tx reason in
  Done (set_fab_fault_log (fab_fault_log f ++ [record])
    (set_fab_transactions
      (<[idx := set_tx_fault (Some record) (set_tx_state Faulted tx)]> (fab_transactions f)) f)).

Definition submit `{Profile} (f : Fabric) (request : MemoryRequest) (write_data : option (list Z)) :
    outcome (Fabric * nat) :=
  let id := fab_next_tx_id f in
  next ← add_u64 (fab_next_tx_id f) 1;
  let invalid_span := (req_length request =? 0)
                      || negb (is_some (checked_add (req_offset request) (req_length request))) in
  let tx := mkTx id request Requested None None write_data None None in
  let f := set_fab_transactions (fab_transactions f ++ [tx]) (set_fab_next_tx_id next f) in
  let idx := (length (fab_transactions f) - 1)%nat in
  f ← (if invalid_span then fault_tx f idx InvalidSpan else Done f);
  Done (f, idx).

Definition phase_authorize (f : Fabric) (idx : nat) : outcome Fabric :=
  tx ← vec_get idx (fab_transactions f);
  match authorize f (tx_request tx) with
  | AuthAuthorized g =>
      update_tx f idx (λ t, set_tx_state Authorized (set_tx_auth_generation (Some g) t))
  | AuthDenied reason => fault_tx f idx reason
  end.

Definition phase_translate (f : Fabric) (idx : nat) : outcome Fabric :=
  tx ← vec_get idx (fab_transactions f);
  match translate f (req_object (tx_request tx)) (req_offset (tx_request tx)) with
  | Some phys =>
      update_tx f idx (λ t, set_tx_state Prepared (set_tx_physical_address (Some phys) t))
  | None => fault_tx f idx TranslationFault
  end.

Definition is_mutating (k : AccessKind) : bool :=
  match k with Write | Atomic => true | Read | Fetch => false end.

(** The gate: [Some] is the physical span; [None] means that the transaction has
    been faulted. *)
Definition validate_precommit (f : Fabric) (idx : nat) : outcome (Fabric * option (Z * Z)) :=
  tx ← vec_get idx (fab_transactions f);
  let request := tx_request tx in
  let fail reason := f' ← fault_tx f idx reason; Done (f', None) in
  match authorize f request with
  | AuthDenied reason => fail reason
  | AuthAuthorized _ =>
      match tx_physical_address tx with
      | None => fail TranslationFault
      | Some phys =>
          let length := req_length request in
          match checked_add phys length with
          | None => fail InvalidSpan
          | Some phys_end =>
              if negb (phys_end <=? mem_len f) then fail InvalidSpan
              else if heap_pool_overlaps f phys length then fail TranslationFault
              else if is_mutating (req_kind request) then
                match tx_write_data tx with
                | Some data => if zlen data =? length then Done (f, Some (phys, phys_end))
                               else fail LengthMismatch
                | None => fail LengthMismatch
                end
              else Done (f, Some (phys, phys_end))
          end
      end
  end.

(** The effect of a committed write: tags first, then bytes. *)
Definition commit_write (f : Fabric) (idx : nat) (base end_ : Z) : outcome Fabric :=
  f ← clear_pointer_cells_physical f base (end_ - base);
  tx ← vec_get idx (fab_transactions f);
  data ← unwrap (tx_write_data tx);
  mem_write f base end_ data.

Definition phase_commit (f : Fabric) (idx : nat) : outcome Fabric :=
  r ← validate_precommit f idx;
  match r with
  | (f, None) => Done f
  | (f, Some (base, end_)) =>
      tx ← vec_get idx (fab_transactions f);
      f ← (if is_mutating (req_kind (tx_request tx)) then commit_write f idx base end_
           else data ← mem_read f base end_; update_tx f idx (set_tx_read_data (Some data)));
      update_tx f idx (set_tx_state Committed)
  end.

Definition advance (f : Fabric) (idx : nat) : outcome Fabric :=
  tx ← vec_get idx (fab_transactions f);
  match tx_state tx with
  | Requested => phase_authorize f idx
  | Authorized => phase_translate f idx
  | Prepared => phase_commit f idx
  | Committed | Faulted => Done f
  end.

Definition run_event (f : Fabric) (e : Event) : outcome Fabric :=
  match e with
  | Advance idx => advance f idx
  | Revoke id => Done (revoke f id)
  | Move id base => Done (move_object f id base).1
  end.

Fixpoint run_schedule (f : Fabric) (events : list Event) : outcome Fabric :=
  match events with
  | [] => Done f
  | e :: events => f ← run_event f e; run_schedule f events
  end.

(** ** Complete accesses *)
Section execute.
Context `{Profile}.

Definition advance3 (f : Fabric) (idx : nat) : outcome Fabric :=
  f ← advance f idx; f ← advance f idx; advance f idx.

Definition execute_read (f : Fabric) (request : MemoryRequest) :
    outcome (Fabric * result FaultRecord (list Z)) :=
  r ← submit f request None;
  let '(f, idx) := r in
  f ← advance3 f idx;
  tx ← vec_get idx (fab_transactions f);
  match tx_state tx with
  | Committed =>
      data ← unwrap (tx_read_data tx);
      _ ← debug_assert (zlen data =? req_length request);
      Done (f, Ok data)
  | Faulted => record ← unwrap (tx_fault tx); Done (f, Err record)
  | _ => Panic
  end.

Definition execute_write (f : Fabric) (request : MemoryRequest) (data : list Z) :
    outcome (Fabric * result FaultRecord unit) :=
  r ← submit f request (Some data);
  let '(f, idx) := r in
  f ← advance3 f idx;
  tx ← vec_get idx (fab_transactions f);
  match tx_state tx with
  | Committed => Done (f, Ok tt)
  | Faulted => record ← unwrap (tx_fault tx); Done (f, Err record)
  | _ => Panic
  end.

Definition execute_atomic_xchg (f : Fabric) (request : MemoryRequest) (new_value : list Z) :
    outcome (Fabric * result FaultRecord (list Z)) :=
  r ← submit f request (Some new_value);
  let '(f, idx) := r in
  f ← advance f idx;
  f ← advance f idx;
  tx ← vec_get idx (fab_transactions f);
  if bool_decide (tx_state tx = Faulted) then
    record ← unwrap (tx_fault tx); Done (f, Err record)
  else
    r ← validate_precommit f idx;
    match r with
    | (f, None) =>
        tx ← vec_get idx (fab_transactions f);
        record ← unwrap (tx_fault tx); Done (f, Err record)
    | (f, Some (base, end_)) =>
        old_value ← mem_read f base end_;
        f ← commit_write f idx base end_;
        f ← update_tx f idx (set_tx_state Committed);
        Done (f, Ok old_value)
    end.
End execute.

(** ** Observation and bootstrap *)
Definition provenance_quiescent (f : Fabric) : bool :=
  forallb (λ tx, is_terminal (tx_state tx)) (fab_transactions f).

Definition compiler_trace_safe (f : Fabric) (output : ObjectId) : bool :=
  forallb (λ tx, is_terminal (tx_state tx)
    && negb ((req_object (tx_request tx) =? output)
             && bool_decide (req_kind (tx_request tx) = Fetch))) (fab_transactions f).

Definition discard_completed_compiler_trace (f : Fabric) : Fabric * bool :=
  if existsb (λ tx, negb (is_terminal (tx_state tx))) (fab_transactions f) then (f, false)
  else (set_fab_transactions [] f, true).

Definition try_read_physical (f : Fabric) (addr len : Z) : option (list Z) :=
  if heap_pool_overlaps f addr len then None
  else end_ ← checked_add addr len;
       if end_ <=? mem_len f then Some (slice addr len (fab_memory f)) else None.

Definition read_physical (f : Fabric) (addr len : Z) : outcome (list Z) :=
  unwrap (try_read_physical f addr len).

Definition try_write_physical (f : Fabric) (addr : Z) (data : list Z) : outcome (Fabric * bool) :=
  if heap_pool_overlaps f addr (zlen data) then Done (f, false)
  else match checked_add addr (zlen data) with
       | None => Done (f, false)
       | Some end_ =>
           if negb (end_ <=? mem_len f) then Done (f, false)
           else f ← clear_pointer_cells_physical f addr (zlen data);
                f ← mem_write f addr end_ data; Done (f, true)
       end.

Definition write_physical (f : Fabric) (addr : Z) (data : list Z) : outcome Fabric :=
  r ← try_write_physical f addr data; _ ← assert_ r.2; Done r.1.

(** [request] and [dma_request] *)
Definition request_of (agent domain object offset : Z) (width : Width) (kind : AccessKind) : MemoryRequest :=
  mkRequest (mkContext agent domain User) object offset width (width_bytes width) kind.
Definition dma_request (agent domain object offset length : Z) (kind : AccessKind) : MemoryRequest :=
  mkRequest (mkContext agent domain User) object offset WByte length kind.
