(* ===== verification/FabricTx.v ===== *)
(** * The transaction pipeline refines an atomic access

    [access_check] is the abstract decision of one access: which fault it
    raises, or which physical span it touches.  The theorems show that the
    submit / authorize / translate / commit pipeline of [fabric.rs] implements
    it, that it always terminates in a terminal state, and that a fault has no
    effect on memory. *)

From S2P Require Import Prelude State Extents Registry PointerFrames Fabric.

(** ** The abstract access *)
Definition access_check (f : Fabric) (r : MemoryRequest) (data : option (list Z)) :
    result FaultReason (Z * Z) :=
  if (req_length r =? 0) || negb (is_some (checked_add (req_offset r) (req_length r)))
  then Err InvalidSpan
  else match authorize f r with
       | AuthDenied reason => Err reason
       | AuthAuthorized _ =>
           match translate f (req_object r) (req_offset r) with
           | None => Err TranslationFault
           | Some phys =>
               match checked_add phys (req_length r) with
               | None => Err InvalidSpan
               | Some end_ =>
                   if negb (end_ <=? mem_len f) then Err InvalidSpan
                   else if heap_pool_overlaps f phys (req_length r) then Err TranslationFault
                   else if is_mutating (req_kind r)
                           && negb (is_some_and (λ d, zlen d =? req_length r) data)
                   then Err LengthMismatch
                   else Ok (phys, end_)
               end
           end
       end.

(** The abstract write: the bytes, and the tags of every cell they touch. *)
Definition abstract_write (f : Fabric) (base end_ : Z) (data : list Z) : Fabric :=
  set_fab_memory (splice base data (fab_memory f))
    (set_fab_pointer_cells
      (filter (λ kv, cell_survives (fab_placement f) base end_ kv.1) (fab_pointer_cells f)) f).

(** The bookkeeping of a finished transaction. *)
Definition log_tx (f : Fabric) (next : Z) (t : Transaction) : Fabric :=
  set_fab_transactions (fab_transactions f ++ [t]) (set_fab_next_tx_id next f).
Definition log_fault (f : Fabric) (next : Z) (t : Transaction) (record : FaultRecord) : Fabric :=
  set_fab_fault_log (fab_fault_log f ++ [record]) (log_tx f next t).

(** ** Well-formed inputs: every field is a machine integer. *)
Record request_wf (r : MemoryRequest) : Prop := {
  rw_offset : is_u64 (req_offset r);
  rw_length : is_u64 (req_length r);
}.
Definition placement_wf (f : Fabric) : Prop := ∀ o b, fab_placement f !! o = Some b → is_u64 b.

Lemma translate_Some f o off phys :
  placement_wf f → 0 ≤ off → translate f o off = Some phys →
  ∃ b, fab_placement f !! o = Some b ∧ phys = b + off ∧ 0 ≤ phys < U64 ∧
    private_heap_object f o = false.
Proof.
  intros Hp Hoff. unfold translate. destruct (private_heap_object f o); [done|].
  destruct (fab_placement f !! o) as [b|] eqn:Hb; [|done]. simpl.
  destruct (checked_add b off) as [p|] eqn:Hc; [|done]. simpl.
  apply checked_add_Some in Hc as [Hlt ->]. destruct (negb _); [|done].
  intros. guards. exists b. specialize (Hp o b Hb). unfold is_u64 in Hp. split_and!; done || lia.
Qed.

Lemma access_check_span f r data b e :
  placement_wf f → request_wf r → access_check f r data = Ok (b, e) →
  0 ≤ b ∧ e = b + req_length r ∧ 0 < req_length r ∧ e ≤ mem_len f ∧ e < U64 ∧
  translate f (req_object r) (req_offset r) = Some b ∧ (∃ g, authorize f r = AuthAuthorized g) ∧
  heap_pool_overlaps f b (req_length r) = false ∧
  (is_mutating (req_kind r) = true → ∃ d, data = Some d ∧ zlen d = req_length r).
Proof.
  intros Hp [Ho Hl]. unfold access_check.
  destruct (_ || _) eqn:Hs; [done|]. bools.
  destruct (authorize f r) as [g|]; [|done].
  destruct (translate f _ _) as [phys|] eqn:Ht; [|done].
  destruct (checked_add phys (req_length r)) as [en|] eqn:Hc; [|done].
  destruct (negb (en <=? _)) eqn:Hm; [done|].
  destruct (heap_pool_overlaps _ _ _) eqn:Hh; [done|].
  destruct (is_mutating _ && _) eqn:Hd; [done|]. intros. guards. bools.
  apply checked_add_Some in Hc as [? ->].
  pose proof (translate_Some _ _ _ _ Hp (proj1 Ho) Ht) as (?&?&?&?&?).
  unfold is_u64 in *. split_and!; try done; try lia; [eauto|].
  intros Hmut. destruct Hd as [?|Hd]; [congruence|]. bools.
  destruct data as [d|]; [|done]. simpl in Hd. bools. eauto.
Qed.

(** ** The pipeline on the last transaction *)
Definition at_tx (f : Fabric) (txs : list Transaction) (t : Transaction) : Fabric :=
  set_fab_transactions (txs ++ [t]) f.

Lemma vec_get_last {A} (l : list A) x : vec_get (length l) (l ++ [x]) = Done x.
Proof. unfold vec_get. by rewrite list_lookup_middle. Qed.

Lemma insert_last {A} (l : list A) x y : <[length l := y]> (l ++ [x]) = l ++ [y].
Proof. rewrite insert_app_r_alt by lia. by rewrite Nat.sub_diag. Qed.

Lemma get_at_tx f txs t : vec_get (length txs) (fab_transactions (at_tx f txs t)) = Done t.
Proof. apply vec_get_last. Qed.

Lemma update_tx_at f txs t k : update_tx (at_tx f txs t) (length txs) k = Done (at_tx f txs (k t)).
Proof.
  unfold update_tx. rewrite get_at_tx. simpl. f_equal. unfold at_tx, set_fab_transactions. simpl.
  by rewrite insert_last.
Qed.

Definition faulted (t : Transaction) (reason : FaultReason) : Transaction :=
  set_tx_fault (Some (tx_fault_record t reason)) (set_tx_state Faulted t).
Definition fault_at (f : Fabric) (txs : list Transaction) (t : Transaction) (reason : FaultReason) : Fabric :=
  set_fab_fault_log (fab_fault_log f ++ [tx_fault_record t reason]) (at_tx f txs (faulted t reason)).

Lemma fault_tx_at f txs t reason :
  fault_tx (at_tx f txs t) (length txs) reason = Done (fault_at f txs t reason).
Proof.
  unfold fault_tx. rewrite get_at_tx. simpl. f_equal. unfold fault_at, at_tx, faulted. simpl.
  unfold set_fab_transactions, set_fab_fault_log. simpl. by rewrite insert_last.
Qed.

Lemma advance_faulted f txs t reason :
  advance (fault_at f txs t reason) (length txs) = Done (fault_at f txs t reason).
Proof.
  unfold advance. change (fab_transactions (fault_at f txs t reason)) with (txs ++ [faulted t reason]).
  by rewrite vec_get_last.
Qed.

Lemma authorize_at f txs t r : authorize (at_tx f txs t) r = authorize f r.
Proof. reflexivity. Qed.
Lemma translate_at f txs t o off : translate (at_tx f txs t) o off = translate f o off.
Proof. reflexivity. Qed.

(** The transaction after each successful phase. *)
Definition tx1 (t : Transaction) (g : Generation) : Transaction :=
  set_tx_state Authorized (set_tx_auth_generation (Some g) t).
Definition tx2 (t : Transaction) (g phys : Z) : Transaction :=
  set_tx_state Prepared (set_tx_physical_address (Some phys) (tx1 t g)).

Lemma advance_requested f txs t :
  tx_state t = Requested →
  advance (at_tx f txs t) (length txs) = Done
    match authorize f (tx_request t) with
    | AuthAuthorized g => at_tx f txs (tx1 t g)
    | AuthDenied reason => fault_at f txs t reason
    end.
Proof.
  intros Hs. unfold advance. rewrite get_at_tx. cbn [mbind outcome_bind]. rewrite Hs.
  unfold phase_authorize. rewrite get_at_tx. cbn [mbind outcome_bind].
  rewrite authorize_at. destruct (authorize f (tx_request t)).
  - by rewrite update_tx_at.
  - by rewrite fault_tx_at.
Qed.

Lemma advance_authorized f txs t :
  tx_state t = Authorized →
  advance (at_tx f txs t) (length txs) = Done
    match translate f (req_object (tx_request t)) (req_offset (tx_request t)) with
    | Some phys => at_tx f txs (set_tx_state Prepared (set_tx_physical_address (Some phys) t))
    | None => fault_at f txs t TranslationFault
    end.
Proof.
  intros Hs. unfold advance. rewrite get_at_tx. cbn [mbind outcome_bind]. rewrite Hs.
  unfold phase_translate. rewrite get_at_tx. cbn [mbind outcome_bind].
  rewrite translate_at. destruct (translate f _ _).
  - by rewrite update_tx_at.
  - by rewrite fault_tx_at.
Qed.

(** The gate, on a prepared transaction. *)
Lemma precommit_at f txs t phys g :
  tx_physical_address t = Some phys → authorize f (tx_request t) = AuthAuthorized g →
  validate_precommit (at_tx f txs t) (length txs) = Done
    match checked_add phys (req_length (tx_request t)) with
    | None => (fault_at f txs t InvalidSpan, None)
    | Some end_ =>
        if negb (end_ <=? mem_len f) then (fault_at f txs t InvalidSpan, None)
        else if heap_pool_overlaps f phys (req_length (tx_request t))
        then (fault_at f txs t TranslationFault, None)
        else if is_mutating (req_kind (tx_request t))
                && negb (is_some_and (λ d, zlen d =? req_length (tx_request t)) (tx_write_data t))
        then (fault_at f txs t LengthMismatch, None)
        else (at_tx f txs t, Some (phys, end_))
    end.
Proof.
  intros Hp Ha. unfold validate_precommit. rewrite get_at_tx. cbn [mbind outcome_bind].
  rewrite authorize_at, Ha, Hp. rewrite !fault_tx_at. cbn [mbind outcome_bind].
  change (mem_len (at_tx f txs t)) with (mem_len f).
  change (heap_pool_overlaps (at_tx f txs t)) with (heap_pool_overlaps f).
  destruct (checked_add _ _) as [en|]; [|done].
  destruct (negb _); [done|]. destruct (heap_pool_overlaps _ _ _); [done|].
  destruct (is_mutating _); [|done]. destruct (tx_write_data t) as [d|]; [|done]. simpl.
  by destruct (zlen d =? _).
Qed.

Lemma commit_write_at f txs t b e data :
  tx_write_data t = Some data → 0 ≤ b → b < e → e ≤ mem_len f → e < U64 → zlen data = e - b →
  commit_write (at_tx f txs t) (length txs) b e = Done (at_tx (abstract_write f b e data) txs t).
Proof.
  intros Hd Hb Hbe He Hu Hl. unfold commit_write, clear_pointer_cells_physical.
  rewrite (proj2 (Z.eqb_neq _ _)) by lia.
  assert (checked_add b (e - b) = Some e) as ->.
  { apply checked_add_Some. split; lia. }
  cbn [unwrap mbind outcome_bind]. cbn -[vec_get mem_write].
  rewrite vec_get_last. cbn [mbind outcome_bind]. rewrite Hd. cbn [unwrap mbind outcome_bind].
  unfold mem_write. cbn -[mem_len Z.leb Z.eqb].
  change (mem_len _) with (mem_len f).
  rewrite (proj2 (Z.leb_le 0 b)), (proj2 (Z.leb_le b e)), (proj2 (Z.leb_le e (mem_len f))),
    (proj2 (Z.eqb_eq (zlen data) (e - b))) by lia. done.
Qed.

Section pipeline.
Context `{Profile}.

Definition fresh_tx (f : Fabric) (r : MemoryRequest) (d : option (list Z)) : Transaction :=
  mkTx (fab_next_tx_id f) r Requested None None d None None.

Lemma submit_eq f r d n :
  add_u64 (fab_next_tx_id f) 1 = Done n →
  submit f r d = Done
    ((if (req_length r =? 0) || negb (is_some (checked_add (req_offset r) (req_length r)))
      then fault_at (set_fab_next_tx_id n f) (fab_transactions f) (fresh_tx f r d) InvalidSpan
      else at_tx (set_fab_next_tx_id n f) (fab_transactions f) (fresh_tx f r d)),
     length (fab_transactions f)).
Proof.
  intros Hn. unfold submit. rewrite Hn. cbn [mbind outcome_bind].
  change (set_fab_transactions (fab_transactions f ++ [mkTx (fab_next_tx_id f) r Requested None None d None None])
    (set_fab_next_tx_id n f)) with (at_tx (set_fab_next_tx_id n f) (fab_transactions f) (fresh_tx f r d)).
  assert ((length (fab_transactions (at_tx (set_fab_next_tx_id n f) (fab_transactions f) (fresh_tx f r d))) - 1)%nat
    = length (fab_transactions f)) as ->.
  { simpl. rewrite length_app. simpl. lia. }
  destruct (_ || _); [|done]. by rewrite fault_tx_at.
Qed.

(** The first two phases of a fresh transaction: it faults for one of the first
    three reasons of [access_check], or it is prepared. *)
Lemma prepare_eq f r d n :
  add_u64 (fab_next_tx_id f) 1 = Done n →
  let f' := set_fab_next_tx_id n f in
  let txs := fab_transactions f in
  let t := fresh_tx f r d in
  (∃ reason s, access_check f r d = Err reason ∧ tx_request s = r ∧ tx_id s = fab_next_tx_id f ∧
     submit f r d ≫= (λ p, advance p.1 p.2 ≫= λ g, advance g p.2 ≫= λ g, Done (g, p.2))
       = Done (fault_at f' txs s reason, length txs)) ∨
  (∃ g phys, authorize f r = AuthAuthorized g ∧
     translate f (req_object r) (req_offset r) = Some phys ∧
     (req_length r =? 0) || negb (is_some (checked_add (req_offset r) (req_length r))) = false ∧
     submit f r d ≫= (λ p, advance p.1 p.2 ≫= λ g, advance g p.2 ≫= λ g, Done (g, p.2))
       = Done (at_tx f' txs (tx2 t g phys), length txs)).
Proof.
  intros Hn f' txs t. rewrite (submit_eq f r d n Hn). cbn [mbind outcome_bind fst snd].
  fold f' txs t. unfold access_check.
  destruct (_ || _) eqn:Hs.
  { left. exists InvalidSpan, t. rewrite advance_faulted. cbn [mbind outcome_bind].
    rewrite advance_faulted. done. }
  rewrite (advance_requested f' txs t) by done. cbn [mbind outcome_bind].
  change (authorize f' (tx_request t)) with (authorize f r).
  destruct (authorize f r) as [g|reason] eqn:Ha.
  - rewrite (advance_authorized f' txs (tx1 t g)) by done. cbn [mbind outcome_bind].
    change (translate f' (req_object (tx_request (tx1 t g))) (req_offset (tx_request (tx1 t g))))
      with (translate f (req_object r) (req_offset r)).
    destruct (translate f _ _) as [phys|] eqn:Ht.
    + right. exists g, phys. done.
    + left. exists TranslationFault, (tx1 t g). done.
  - left. exists reason, t. rewrite advance_faulted. done.
Qed.

(** The whole pipeline up to the final state, for a mutating access. *)
Lemma advance3_unfold f r d :
  (p ← submit f r d; let '(g, idx) := p in x ← advance3 g idx; Done (x, idx))
  = (q ← (submit f r d ≫= (λ p, advance p.1 p.2 ≫= λ g, advance g p.2 ≫= λ g, Done (g, p.2)));
     x ← advance q.1 q.2; Done (x, q.2)).
Proof.
  unfold advance3. destruct (submit f r d) as [[g idx]|]; [|done]. simpl.
  destruct (advance g idx) as [g1|]; [|done]. simpl. by destruct (advance g1 idx).
Qed.
End pipeline.

(** The final transaction of a committed access. *)
Definition committed_tx (f : Fabric) (r : MemoryRequest) (d : option (list Z)) (g b : Z) : Transaction :=
  let t := tx2 (fresh_tx f r d) g b in
  set_tx_state Committed
    (if is_mutating (req_kind r) then t
     else set_tx_read_data (Some (slice b (req_length r) (fab_memory f))) t).

Section pipeline_result.
Context `{Profile}.

Lemma commit_at f txs t g b e d :
  tx_state t = Prepared → tx_physical_address t = Some b → tx_write_data t = d →
  authorize f (tx_request t) = AuthAuthorized g →
  checked_add b (req_length (tx_request t)) = Some e → e ≤ mem_len f → 0 ≤ b → b < e →
  heap_pool_overlaps f b (req_length (tx_request t)) = false →
  (is_mutating (req_kind (tx_request t)) = true →
     ∃ data, d = Some data ∧ zlen data = req_length (tx_request t)) →
  advance (at_tx f txs t) (length txs) = Done
    (if is_mutating (req_kind (tx_request t))
     then at_tx (abstract_write f b e (default [] d)) txs (set_tx_state Committed t)
     else at_tx f txs (set_tx_state Committed
            (set_tx_read_data (Some (slice b (req_length (tx_request t)) (fab_memory f))) t))).
Proof.
  intros Hs Hp Hd Ha Hc Hm Hb Hbe Hh Hmut. pose proof Hc as Hc'. apply checked_add_Some in Hc' as [Hu He].
  unfold advance. rewrite get_at_tx. cbn [mbind outcome_bind]. rewrite Hs.
  unfold phase_commit. rewrite (precommit_at f txs t b g) by done.
  rewrite Hc, (proj2 (Z.leb_le _ _) Hm), Hh. cbn [negb].
  destruct (is_mutating (req_kind (tx_request t))) eqn:Hk.
  - destruct (Hmut eq_refl) as (data&Hd'&Hlen). rewrite Hd, Hd'. cbn [is_some_and andb].
    rewrite (proj2 (Z.eqb_eq _ _) Hlen). cbn [negb mbind outcome_bind].
    rewrite get_at_tx. cbn [mbind outcome_bind]. rewrite Hk.
    rewrite (commit_write_at f txs t b e data) by (try done; (congruence || lia)).
    cbn [mbind outcome_bind]. by rewrite update_tx_at.
  - cbn [andb mbind outcome_bind]. rewrite get_at_tx. cbn [mbind outcome_bind]. rewrite Hk.
    unfold mem_read. change (mem_len (at_tx f txs t)) with (mem_len f).
    rewrite (proj2 (Z.leb_le 0 b)), (proj2 (Z.leb_le b e)), (proj2 (Z.leb_le e _)) by lia.
    cbn [andb mbind outcome_bind]. rewrite update_tx_at. cbn [mbind outcome_bind].
    rewrite update_tx_at. change (fab_memory (at_tx f txs t)) with (fab_memory f).
    by replace (e - b) with (req_length (tx_request t)) by lia.
Qed.

Lemma run_tx_Ok f r d n b e :
  placement_wf f → request_wf r → add_u64 (fab_next_tx_id f) 1 = Done n →
  access_check f r d = Ok (b, e) →
  ∃ g, authorize f r = AuthAuthorized g ∧
  (p ← submit f r d; let '(h, idx) := p in x ← advance3 h idx; Done (x, idx)) =
  Done (log_tx (if is_mutating (req_kind r) then abstract_write f b e (default [] d) else f) n
          (committed_tx f r d g b), length (fab_transactions f)).
Proof.
  intros Hpw Hrw Hn Hok.
  destruct (access_check_span _ _ _ _ _ Hpw Hrw Hok) as (Hb&He&Hl&Hm&Hu&Ht&[g Ha]&Hh&Hmut).
  exists g. split; [done|]. rewrite advance3_unfold.
  destruct (prepare_eq f r d n Hn) as [(reason&s&Herr&_)|(g'&phys&Ha'&Ht'&_&Hprep)]; [congruence|].
  rewrite Hprep. cbn [mbind outcome_bind fst snd].
  assert (g' = g) as -> by congruence. assert (phys = b) as -> by congruence.
  rewrite (commit_at _ _ _ g b e d); try done.
  - cbn [mbind outcome_bind]. unfold committed_tx, log_tx. cbn -[slice splice].
    by destruct (is_mutating (req_kind r)).
  - cbn. apply checked_add_Some. split; [lia|done].
  - lia.
Qed.

Lemma run_tx_Err f r d n reason :
  placement_wf f → request_wf r → add_u64 (fab_next_tx_id f) 1 = Done n →
  access_check f r d = Err reason →
  ∃ s, tx_request s = r ∧ tx_id s = fab_next_tx_id f ∧
  (p ← submit f r d; let '(h, idx) := p in x ← advance3 h idx; Done (x, idx)) =
  Done (log_fault f n (faulted s reason) (tx_fault_record s reason), length (fab_transactions f)).
Proof.
  intros Hpw [Hro Hrl] Hn Herr. rewrite advance3_unfold.
  destruct (prepare_eq f r d n Hn) as [(reason'&s&Herr'&Hr&Hid&Hprep)|(g&phys&Ha&Ht&Hspan&Hprep)];
    rewrite Hprep; cbn [mbind outcome_bind fst snd].
  { exists s. assert (reason' = reason) as -> by congruence. by rewrite advance_faulted. }
  exists (tx2 (fresh_tx f r d) g phys). split_and!; [done..|].
  unfold access_check in Herr. rewrite Hspan, Ha, Ht in Herr.
  unfold advance. rewrite get_at_tx. cbn [mbind outcome_bind tx_state tx2 set_tx_state].
  unfold phase_commit. rewrite (precommit_at _ _ _ phys g) by done.
  cbn [tx_request tx2 tx1 set_tx_state set_tx_physical_address set_tx_auth_generation fresh_tx
       tx_write_data].
  change (mem_len (set_fab_next_tx_id n f)) with (mem_len f).
  change (heap_pool_overlaps (set_fab_next_tx_id n f)) with (heap_pool_overlaps f).
  destruct (checked_add phys (req_length r)) as [en|]; [|guards; done].
  destruct (negb (en <=? mem_len f)); [guards; done|].
  destruct (heap_pool_overlaps _ _ _); [guards; done|].
  destruct (is_mutating _ && _); [guards; done|discriminate].
Qed.
End pipeline_result.

Section accesses.
Context `{Profile}.

(** The bookkeeping that a finished access adds, whatever its result. *)
Definition tx_fault_ok (f : Fabric) (r : MemoryRequest) (reason : FaultReason) (rec : FaultRecord) : Prop :=
  fault_reason rec = reason ∧ fault_object rec = req_object r ∧ fault_offset rec = req_offset r ∧
  fault_length rec = req_length r ∧ fault_kind rec = req_kind r ∧
  fault_domain rec = ctx_domain (req_context r) ∧ fault_agent rec = ctx_agent (req_context r) ∧
  fault_transaction rec = fab_next_tx_id f ∧ fault_pc rec = None.

Lemma tx_fault_record_ok f r reason s :
  tx_request s = r → tx_id s = fab_next_tx_id f → tx_fault_ok f r reason (tx_fault_record s reason).
Proof. intros <- Hid. unfold tx_fault_ok, tx_fault_record. cbn. tauto. Qed.

Lemma execute_write_unfold f r data :
  execute_write f r data =
  (q ← (p ← submit f r (Some data); let '(h, idx) := p in x ← advance3 h idx; Done (x, idx));
   tx ← vec_get q.2 (fab_transactions q.1);
   match tx_state tx with
   | Committed => Done (q.1, Ok tt)
   | Faulted => record ← unwrap (tx_fault tx); Done (q.1, Err record)
   | _ => Panic
   end).
Proof.
  unfold execute_write. destruct (submit f r (Some data)) as [[h idx]|]; [|done]. simpl.
  by destruct (advance3 h idx).
Qed.

Lemma execute_read_unfold f r :
  execute_read f r =
  (q ← (p ← submit f r None; let '(h, idx) := p in x ← advance3 h idx; Done (x, idx));
   tx ← vec_get q.2 (fab_transactions q.1);
   match tx_state tx with
   | Committed =>
      data ← unwrap (tx_read_data tx);
      _ ← debug_assert (zlen data =? req_length r);
      Done (q.1, Ok data)
   | Faulted => record ← unwrap (tx_fault tx); Done (q.1, Err record)
   | _ => Panic
   end).
Proof.
  unfold execute_read. destruct (submit f r None) as [[h idx]|]; [|done]. simpl.
  by destruct (advance3 h idx).
Qed.

Lemma get_log_tx g f n t :
  fab_transactions g = fab_transactions f →
  vec_get (length (fab_transactions f)) (fab_transactions (log_tx g n t)) = Done t.
Proof. intros Hg. unfold log_tx. cbn. rewrite Hg. apply vec_get_last. Qed.

Lemma execute_write_Ok f r data n b e :
  placement_wf f → request_wf r → is_mutating (req_kind r) = true →
  add_u64 (fab_next_tx_id f) 1 = Done n → access_check f r (Some data) = Ok (b, e) →
  ∃ g, authorize f r = AuthAuthorized g ∧
    execute_write f r data =
    Done (log_tx (abstract_write f b e data) n (committed_tx f r (Some data) g b), Ok tt).
Proof.
  intros Hp Hr Hk Hn Hok. destruct (run_tx_Ok _ _ _ _ _ _ Hp Hr Hn Hok) as (g&Ha&Hrun).
  exists g. split; [done|]. rewrite execute_write_unfold, Hrun. cbn [mbind outcome_bind fst snd].
  rewrite Hk, get_log_tx by done. done.
Qed.

Lemma execute_write_Err f r data n reason :
  placement_wf f → request_wf r → add_u64 (fab_next_tx_id f) 1 = Done n →
  access_check f r (Some data) = Err reason →
  ∃ s rec, tx_fault_ok f r reason rec ∧
    execute_write f r data = Done (log_fault f n (faulted s reason) rec, Err rec).
Proof.
  intros Hp Hr Hn He. destruct (run_tx_Err _ _ _ _ _ Hp Hr Hn He) as (s&Hs&Hid&Hrun).
  exists s, (tx_fault_record s reason). split; [by apply tx_fault_record_ok|].
  rewrite execute_write_unfold, Hrun. cbn [mbind outcome_bind fst snd].
  change (fab_transactions (log_fault f n (faulted s reason) (tx_fault_record s reason)))
    with (fab_transactions f ++ [faulted s reason]). by rewrite vec_get_last.
Qed.

Lemma execute_read_Ok f r n b e :
  placement_wf f → request_wf r → is_mutating (req_kind r) = false →
  add_u64 (fab_next_tx_id f) 1 = Done n → access_check f r None = Ok (b, e) →
  ∃ g, authorize f r = AuthAuthorized g ∧
    execute_read f r =
    Done (log_tx f n (committed_tx f r None g b), Ok (slice b (req_length r) (fab_memory f))).
Proof.
  intros Hp Hr Hk Hn Hok. destruct (run_tx_Ok _ _ _ _ _ _ Hp Hr Hn Hok) as (g&Ha&Hrun).
  destruct (access_check_span _ _ _ _ _ Hp Hr Hok) as (Hb&He&Hl&Hm&_).
  exists g. split; [done|]. rewrite execute_read_unfold, Hrun. cbn [mbind outcome_bind fst snd].
  rewrite Hk, get_log_tx by done. cbn [mbind outcome_bind].
  unfold committed_tx. rewrite Hk. cbn -[slice debug_assert].
  unfold debug_assert, zlen. rewrite length_slice by (unfold mem_len, zlen in *; lia).
  rewrite Z.eqb_refl, andb_false_r. done.
Qed.

Lemma execute_read_Err f r n reason :
  placement_wf f → request_wf r → add_u64 (fab_next_tx_id f) 1 = Done n →
  access_check f r None = Err reason →
  ∃ s rec, tx_fault_ok f r reason rec ∧
    execute_read f r = Done (log_fault f n (faulted s reason) rec, Err rec).
Proof.
  intros Hp Hr Hn He. destruct (run_tx_Err _ _ _ _ _ Hp Hr Hn He) as (s&Hs&Hid&Hrun).
  exists s, (tx_fault_record s reason). split; [by apply tx_fault_record_ok|].
  rewrite execute_read_unfold, Hrun. cbn [mbind outcome_bind fst snd].
  change (fab_transactions (log_fault f n (faulted s reason) (tx_fault_record s reason)))
    with (fab_transactions f ++ [faulted s reason]). by rewrite vec_get_last.
Qed.

(** C33: A complete write refines the abstract access.  The three-phase pipeline
    always reaches a terminal state (the [unreachable!] arm is dead and nothing
    panics); it succeeds exactly when [access_check] grants a span, and then the
    fabric differs only by the bytes of that span, the pointer tags they
    overlap, and the logged transaction; otherwise it returns and logs exactly
    one fault record with the reason, and no byte, tag, object or capability
    changes. *)
Theorem execute_write_refines f r data n :
  placement_wf f → request_wf r → is_mutating (req_kind r) = true →
  add_u64 (fab_next_tx_id f) 1 = Done n →
  match access_check f r (Some data) with
  | Ok (b, e) => ∃ t, tx_state t = Committed ∧ tx_request t = r ∧
      execute_write f r data = Done (log_tx (abstract_write f b e data) n t, Ok tt)
  | Err reason => ∃ t rec, tx_state t = Faulted ∧ tx_fault_ok f r reason rec ∧
      execute_write f r data = Done (log_fault f n t rec, Err rec)
  end.
Proof.
  intros Hp Hr Hk Hn. destruct (access_check f r (Some data)) as [[b e]|reason] eqn:Hc.
  - destruct (execute_write_Ok _ _ _ _ _ _ Hp Hr Hk Hn Hc) as (g&_&He).
    eexists. split_and!; [| |done]; unfold committed_tx; by rewrite Hk.
  - destruct (execute_write_Err _ _ _ _ _ Hp Hr Hn Hc) as (s&rec&Hrec&He).
    exists (faulted s reason), rec. done.
Qed.

(** A complete read refines the abstract access: it returns the bytes of the
    granted span (and exactly [length] of them, so that the debug assertion
    holds), or the fault record, and never changes memory or tags. *)
Theorem execute_read_refines f r n :
  placement_wf f → request_wf r → is_mutating (req_kind r) = false →
  add_u64 (fab_next_tx_id f) 1 = Done n →
  match access_check f r None with
  | Ok (b, e) => ∃ t, tx_state t = Committed ∧ tx_request t = r ∧
      execute_read f r = Done (log_tx f n t, Ok (slice b (req_length r) (fab_memory f)))
  | Err reason => ∃ t rec, tx_state t = Faulted ∧ tx_fault_ok f r reason rec ∧
      execute_read f r = Done (log_fault f n t rec, Err rec)
  end.
Proof.
  intros Hp Hr Hk Hn. destruct (access_check f r None) as [[b e]|reason] eqn:Hc.
  - destruct (execute_read_Ok _ _ _ _ _ Hp Hr Hk Hn Hc) as (g&_&He).
    eexists. split_and!; [| |done]; unfold committed_tx; by rewrite Hk.
  - destruct (execute_read_Err _ _ _ _ Hp Hr Hn Hc) as (s&rec&Hrec&He).
    exists (faulted s reason), rec. done.
Qed.
End accesses.

Section atomic.
Context `{Profile}.

Lemma execute_xchg_unfold f r d :
  execute_atomic_xchg f r d =
  (q ← (submit f r (Some d) ≫= (λ p, advance p.1 p.2 ≫= λ g, advance g p.2 ≫= λ g, Done (g, p.2)));
   tx ← vec_get q.2 (fab_transactions q.1);
   if bool_decide (tx_state tx = Faulted) then
     record ← unwrap (tx_fault tx); Done (q.1, Err record)
   else
     x ← validate_precommit q.1 q.2;
     match x with
     | (g, None) =>
        tx ← vec_get q.2 (fab_transactions g);
        record ← unwrap (tx_fault tx); Done (g, Err record)
     | (g, Some (base, end_)) =>
        old_value ← mem_read g base end_;
        g ← commit_write g q.2 base end_;
        g ← update_tx g q.2 (set_tx_state Committed);
        Done (g, Ok old_value)
     end).
Proof.
  unfold execute_atomic_xchg. destruct (submit f r (Some d)) as [[g idx]|]; [|done]. simpl.
  destruct (advance g idx) as [g1|]; [|done]. simpl. by destruct (advance g1 idx).
Qed.

Lemma get_fault_at f txs s reason :
  vec_get (length txs) (fab_transactions (fault_at f txs s reason)) = Done (faulted s reason).
Proof. change (fab_transactions (fault_at f txs s reason)) with (txs ++ [faulted s reason]). apply vec_get_last. Qed.

Lemma execute_xchg_cases f r data n :
  placement_wf f → request_wf r → is_mutating (req_kind r) = true →
  add_u64 (fab_next_tx_id f) 1 = Done n →
  match access_check f r (Some data) with
  | Ok (b, e) => ∃ t, tx_state t = Committed ∧ tx_request t = r ∧
      execute_atomic_xchg f r data =
      Done (log_tx (abstract_write f b e data) n t, Ok (slice b (req_length r) (fab_memory f)))
  | Err reason => ∃ t rec, tx_state t = Faulted ∧ tx_fault_ok f r reason rec ∧
      execute_atomic_xchg f r data = Done (log_fault f n t rec, Err rec)
  end.
Proof.
  intros Hp Hr Hk Hn. rewrite execute_xchg_unfold.
  destruct (prepare_eq f r (Some data) n Hn) as
    [(reason&s&Herr&Hs&Hid&Hprep)|(g&phys&Ha&Ht&Hspan&Hprep)]; rewrite Hprep; cbn [mbind outcome_bind fst snd].
  { rewrite Herr. exists (faulted s reason), (tx_fault_record s reason).
    split_and!; [done|by apply tx_fault_record_ok|]. by rewrite get_fault_at. }
  rewrite get_at_tx. cbn [mbind outcome_bind].
  rewrite (bool_decide_eq_false_2 (tx_state _ = Faulted)) by done.
  rewrite (precommit_at _ _ _ phys g) by done.
  change (tx_request (tx2 (fresh_tx f r (Some data)) g phys)) with r.
  change (tx_write_data (tx2 (fresh_tx f r (Some data)) g phys)) with (Some data).
  change (mem_len (set_fab_next_tx_id n f)) with (mem_len f).
  change (heap_pool_overlaps (set_fab_next_tx_id n f)) with (heap_pool_overlaps f).
  destruct (access_check f r (Some data)) as [[b e]|reason] eqn:Hc.
  - destruct (access_check_span _ _ _ _ _ Hp Hr Hc) as (Hb&He&Hl&Hm&Hu&Ht'&_&Hh&Hmut).
    assert (phys = b) as -> by congruence. destruct (Hmut Hk) as (d&[= <-]&Hd).
    rewrite (proj2 (checked_add_Some b (req_length r) e)) by (split; [lia|done]).
    rewrite (proj2 (Z.leb_le _ _) Hm), Hh. cbn [is_some_and negb].
    rewrite (proj2 (Z.eqb_eq _ _) Hd), andb_false_r. cbn [mbind outcome_bind].
    unfold mem_read at 1. change (mem_len (at_tx _ _ _)) with (mem_len f).
    rewrite (proj2 (Z.leb_le 0 b)), (proj2 (Z.leb_le b e)), (proj2 (Z.leb_le e _)) by lia.
    cbn [andb mbind outcome_bind].
    rewrite (commit_write_at (set_fab_next_tx_id n f) (fab_transactions f) _ b e data) by (done || lia).
    cbn [mbind outcome_bind]. rewrite update_tx_at. cbn [mbind outcome_bind].
    exists (set_tx_state Committed (tx2 (fresh_tx f r (Some data)) g b)).
    split_and!; [done..|]. replace (e - b) with (req_length r) by lia. done.
  - unfold access_check in Hc. rewrite Hspan, Ha, Ht in Hc.
    set (t := tx2 (fresh_tx f r (Some data)) g phys).
    exists (faulted t reason), (tx_fault_record t reason).
    split_and!; [done|by apply tx_fault_record_ok|].
    destruct (checked_add phys (req_length r)) as [en|]; [|guards; cbn [mbind outcome_bind]; by rewrite get_fault_at].
    destruct (negb (en <=? mem_len f)); [guards; cbn [mbind outcome_bind]; by rewrite get_fault_at|].
    destruct (heap_pool_overlaps _ _ _); [guards; cbn [mbind outcome_bind]; by rewrite get_fault_at|].
    destruct (is_mutating _ && _); [guards; cbn [mbind outcome_bind]; by rewrite get_fault_at|done].
Qed.

(** The atomic exchange is one indivisible access: it reads the old bytes and
    writes the new ones over the same granted span, both behind the same gate,
    or faults without reading or writing anything. *)
Theorem execute_xchg_refines f r data n :
  placement_wf f → request_wf r → is_mutating (req_kind r) = true →
  add_u64 (fab_next_tx_id f) 1 = Done n →
  match access_check f r (Some data) with
  | Ok (b, e) => ∃ t, tx_state t = Committed ∧ tx_request t = r ∧
      execute_atomic_xchg f r data =
      Done (log_tx (abstract_write f b e data) n t, Ok (slice b (req_length r) (fab_memory f)))
  | Err reason => ∃ t rec, tx_state t = Faulted ∧ tx_fault_ok f r reason rec ∧
      execute_atomic_xchg f r data = Done (log_fault f n t rec, Err rec)
  end.
Proof. apply execute_xchg_cases. Qed.

(** What a write stores, a later read of the same span returns, whichever
    domains the two requests come from. *)
Theorem write_read_roundtrip f w r data f' :
  placement_wf f → request_wf w → is_mutating (req_kind w) = true →
  is_mutating (req_kind r) = false →
  req_object r = req_object w → req_offset r = req_offset w → req_length r = req_length w →
  0 ≤ fab_next_tx_id f → fab_next_tx_id f + 2 < U64 →
  (∃ g, authorize f r = AuthAuthorized g) →
  execute_write f w data = Done (f', Ok tt) →
  ∃ f'', execute_read f' r = Done (f'', Ok data).
Proof.
  intros Hp Hw Hkw Hkr Ho Hoff Hl Hid0 Hid [g Ha] Hex.
  assert (Hn : add_u64 (fab_next_tx_id f) 1 = Done (fab_next_tx_id f + 1)).
  { apply add_u64_exact. unfold is_u64. lia. }
  destruct (access_check f w (Some data)) as [[b e]|reason] eqn:Hc.
  2:{ destruct (execute_write_Err _ _ _ _ _ Hp Hw Hn Hc) as (s&rec&_&He). congruence. }
  destruct (execute_write_Ok _ _ _ _ _ _ Hp Hw Hkw Hn Hc) as (gw&_&He).
  assert (f' = log_tx (abstract_write f b e data) (fab_next_tx_id f + 1)
            (committed_tx f w (Some data) gw b)) as -> by congruence.
  destruct (access_check_span _ _ _ _ _ Hp Hw Hc) as (Hb&Hbe&Hlen&Hm&Hu&Ht&_&Hh&Hmut).
  destruct (Hmut Hkw) as (d&[= <-]&Hd).
  set (f1 := log_tx _ _ _).
  assert (Hmem : mem_len f1 = mem_len f).
  { unfold f1, mem_len, zlen. cbn. by rewrite length_splice. }
  assert (Hc1 : access_check f1 r None = Ok (b, e)).
  { unfold access_check in Hc |- *. rewrite Ho, Hoff, Hl, Hkr.
    destruct (_ || _); [done|].
    change (authorize f1 r) with (authorize f r). rewrite Ha.
    change (translate f1) with (translate f). rewrite Ht. rewrite Hmem.
    change (heap_pool_overlaps f1) with (heap_pool_overlaps f).
    destruct (checked_add b (req_length w)) as [en|] eqn:Hen; [|apply checked_add_None in Hen; lia].
    apply checked_add_Some in Hen as [_ ->]. rewrite <- Hbe.
    rewrite (proj2 (Z.leb_le _ _) Hm), Hh. done. }
  destruct (execute_read_Ok f1 r (fab_next_tx_id f + 2) b e) as (g'&_&Hr).
  - exact Hp.
  - split; rewrite ?Hoff, ?Hl; apply Hw.
  - done.
  - replace (fab_next_tx_id f + 2) with (fab_next_tx_id f1 + 1) by (unfold f1; cbn; lia).
    apply add_u64_exact. unfold f1, is_u64. cbn. lia.
  - done.
  - eexists. rewrite Hr. do 3 f_equal. rewrite Hl. unfold f1. cbn.
    replace (req_length w) with (Z.of_nat (length data)) by done.
    apply slice_splice; [done|]. unfold mem_len, zlen in *. lia.
Qed.
End atomic.

(** ** A concrete fabric: one 32-byte object at address 16, readable, writable
    and exchangeable by domain 0 *)
Definition demo_registry : ScopedPointers :=
  mkRegistry (replicate 4 slot_empty) (replicate 4 None) 0 0 1
    (mkLedger [] [] [] [] 1 1 1 0 0 0 0 None).

Definition demo_steps `{Profile} : outcome Fabric :=
  r ← alloc_object (from_parts (replicate 128 7) demo_registry None) "a" 32 Memory;
  let f := (place_object r.1 r.2 16).1 in
  d ← create_domain f;
  g ← unwrap (grant d.1 d.2 r.2 0 32 11);
  Done (register_agent g.1 0 (Cpu 0) d.2).

Definition demo_fabric : Fabric :=
  match demo_steps (H := true) with Done f => f | Panic => from_parts [] demo_registry None end.

Definition demo_write : MemoryRequest := dma_request 0 0 0 8 4 Write.
Definition demo_read : MemoryRequest := dma_request 0 0 0 8 4 Read.
Definition demo_xchg : MemoryRequest := dma_request 0 0 0 8 4 Atomic.

Lemma demo_placement : fab_placement demo_fabric = {[0 := 16]}.
Proof. vm_compute. reflexivity. Qed.

Lemma demo_placement_wf : placement_wf demo_fabric.
Proof.
  unfold placement_wf. rewrite demo_placement. intros o b Hl.
  apply lookup_singleton_Some in Hl as [_ <-]. unfold is_u64, U64. lia.
Qed.

Lemma demo_requests_wf : request_wf demo_write ∧ request_wf demo_read ∧ request_wf demo_xchg.
Proof. repeat split; cbn; unfold U64; lia. Qed.

Lemma execute_write_refines_witness :
  let P : Profile := true in
  access_check demo_fabric demo_write (Some [1; 2; 3; 4]) = Ok (24, 28) ∧
  ∃ t, execute_write demo_fabric demo_write [1; 2; 3; 4]
    = Done (log_tx (abstract_write demo_fabric 24 28 [1; 2; 3; 4]) 1 t, Ok tt).
Proof.
  intros P. split; [vm_compute; reflexivity|].
  assert (Hc : access_check demo_fabric demo_write (Some [1; 2; 3; 4]) = Ok (24, 28))
    by (vm_compute; reflexivity).
  pose proof (execute_write_refines demo_fabric demo_write [1; 2; 3; 4] 1
    demo_placement_wf (proj1 demo_requests_wf) eq_refl ltac:(vm_compute; reflexivity)) as H.
  rewrite Hc in H. destruct H as (t&_&_&He). exists t. exact He.
Defined.

Lemma execute_read_refines_witness :
  let P : Profile := true in
  ∃ t, execute_read demo_fabric demo_read = Done (log_tx demo_fabric 1 t, Ok [7; 7; 7; 7]).
Proof.
  intros P.
  assert (Hc : access_check demo_fabric demo_read None = Ok (24, 28)) by (vm_compute; reflexivity).
  pose proof (execute_read_refines demo_fabric demo_read 1 demo_placement_wf
    (proj1 (proj2 demo_requests_wf)) eq_refl ltac:(vm_compute; reflexivity)) as H.
  rewrite Hc in H. destruct H as (t&_&_&He). exists t. exact He.
Defined.

Lemma execute_xchg_refines_witness :
  let P : Profile := false in
  ∃ t, execute_atomic_xchg demo_fabric demo_xchg [1; 2; 3; 4]
    = Done (log_tx (abstract_write demo_fabric 24 28 [1; 2; 3; 4]) 1 t, Ok [7; 7; 7; 7]).
Proof.
  intros P.
  assert (Hc : access_check demo_fabric demo_xchg (Some [1; 2; 3; 4]) = Ok (24, 28))
    by (vm_compute; reflexivity).
  pose proof (execute_xchg_refines demo_fabric demo_xchg [1; 2; 3; 4] 1 demo_placement_wf
    (proj2 (proj2 demo_requests_wf)) eq_refl ltac:(vm_compute; reflexivity)) as H.
  rewrite Hc in H. destruct H as (t&_&_&He). exists t. exact He.
Defined.

Lemma write_read_roundtrip_witness :
  let P : Profile := true in
  ∃ f' f'', execute_write demo_fabric demo_write [1; 2; 3; 4] = Done (f', Ok tt) ∧
    execute_read f' demo_read = Done (f'', Ok [1; 2; 3; 4]).
Proof.
  intros P.
  destruct (execute_write demo_fabric demo_write [1; 2; 3; 4]) as [[f' [[]|rec]]|] eqn:E.
  - exists f'.
    destruct (write_read_roundtrip demo_fabric demo_write demo_read [1; 2; 3; 4] f'
      demo_placement_wf (proj1 demo_requests_wf) eq_refl eq_refl eq_refl eq_refl eq_refl
      ltac:(vm_compute; discriminate) ltac:(vm_compute; reflexivity)
      ltac:(exists 0; vm_compute; reflexivity) E) as [f'' Hr].
    exists f''. split; [reflexivity|exact Hr].
  - exfalso. vm_compute in E. discriminate E.
  - exfalso. vm_compute in E. discriminate E.
Defined.
