(* ===== verification/FabricAuth.v ===== *)
(** * Authority: authorization, attenuation and delegation

    The authority of a domain is the relation [may_access]; [authorize] decides
    it, and every operation that mints or moves a capability is characterised
    by its effect on it. *)

From S2P Require Import Prelude State Extents Registry PointerFrames Fabric FabricTx.

(** Some valid capability of the domain covers the access. *)
Definition may_access (f : Fabric) (domain object offset length : Z) (perm : Permissions) : Prop :=
  ∃ d e, fab_domains f !! domain = Some d ∧ e ∈ dom_capabilities d ∧
    validate f (entry_cap e) = true ∧ covers (entry_cap e) object offset length perm = true.

(** ** Validity *)
Lemma validate_true f cap :
  validate f cap = true ↔
  private_heap_object f (cap_object cap) = false ∧
  ∃ obj, fab_objects f !! cap_object cap = Some obj ∧ alive (obj_state obj) = true ∧
    cap_generation cap = obj_generation obj ∧ cap_length cap ≤ obj_size obj ∧
    cap_offset cap + cap_length cap ≤ obj_size obj.
Proof.
  unfold validate. destruct (private_heap_object f _); [naive_solver|].
  destruct (fab_objects f !! _) as [obj|]; [|naive_solver].
  rewrite !andb_true_iff, !Z.leb_le, Z.eqb_eq. split.
  - intros [[[? ?] ?] ?]. split; [done|]. exists obj. split_and!; done || lia.
  - intros (_&o&[= <-]&?&?&?&?). split_and!; done || lia.
Qed.

(** A capability with the authority of a valid one of the same object and
    generation, within its range, is valid. *)
Lemma validate_sub f c p :
  cap_object c = cap_object p → cap_generation c = cap_generation p →
  cap_length c ≤ cap_length p →
  cap_offset c + cap_length c ≤ cap_offset p + cap_length p →
  validate f p = true → validate f c = true.
Proof.
  intros Ho Hg Hl He. rewrite !validate_true, Ho, Hg. intros (?&obj&?&?&?&?&?).
  split; [done|]. exists obj. split_and!; done || lia.
Qed.

(** ** The scan *)
Lemma scan_inl f r caps stale g :
  authorize_scan f r caps stale = inl g →
  ∃ e, e ∈ caps ∧ validate f (entry_cap e) = true ∧ g = cap_generation (entry_cap e) ∧
    covers (entry_cap e) (req_object r) (req_offset r) (req_length r)
      (required_permission (req_kind r)) = true.
Proof.
  revert stale. induction caps as [|e caps IH]; simpl; [done|]. intros stale Hs.
  destruct (covers _ _ _ _ _) eqn:Hc.
  - destruct (validate f _) eqn:Hv; [exists e; simplify_eq; set_solver|].
    destruct (IH _ Hs) as (e'&?&?). exists e'. set_solver.
  - destruct (IH _ Hs) as (e'&?&?). exists e'. set_solver.
Qed.

Lemma scan_inr f r caps stale s :
  authorize_scan f r caps stale = inr s →
  (∀ e, e ∈ caps → covers (entry_cap e) (req_object r) (req_offset r) (req_length r)
     (required_permission (req_kind r)) = true → validate f (entry_cap e) = false) ∧
  (s = true ↔ stale = true ∨ ∃ e, e ∈ caps ∧
     covers (entry_cap e) (req_object r) (req_offset r) (req_length r)
       (required_permission (req_kind r)) = true).
Proof.
  revert stale. induction caps as [|e caps IH]; simpl; intros stale Hs.
  { simplify_eq. split; set_solver. }
  destruct (covers _ _ _ _ _) eqn:Hc.
  - destruct (validate f _) eqn:Hv; [done|]. destruct (IH _ Hs) as [H1 H2]. split; [set_solver|].
    rewrite H2. split; [|set_solver]. intros _. right. exists e. set_solver.
  - destruct (IH _ Hs) as [H1 H2]. split.
    + intros e' He'. apply elem_of_cons in He' as [->|]; [congruence|auto].
    + rewrite H2. split; [set_solver|]. intros [?|(e'&He'&?)]; [by left|right].
      apply elem_of_cons in He' as [->|]; [congruence|eauto].
Qed.

(** An authorized request: who authorized it, and where it lies. *)
Lemma authorize_sound f r g :
  authorize f r = AuthAuthorized g →
  stack_guard f (req_object r) (ctx_agent (req_context r)) (ctx_domain (req_context r)) = true ∧
  may_access f (ctx_domain (req_context r)) (req_object r) (req_offset r) (req_length r)
    (required_permission (req_kind r)) ∧
  ∃ obj, fab_objects f !! req_object r = Some obj ∧ alive (obj_state obj) = true ∧
    g = obj_generation obj ∧ req_offset r + req_length r ≤ obj_size obj.
Proof.
  unfold authorize. destruct (stack_guard f _ _ _) eqn:Hg; simpl; [|done].
  destruct (fab_domains f !! _) as [s|] eqn:Hd; [|done].
  destruct (authorize_scan f r (dom_capabilities s) false) as [g'|stale] eqn:Hs; [|done].
  intros [= <-]. apply scan_inl in Hs as (e&He&Hv&->&Hc). split_and!; [done|by exists s, e|].
  apply validate_true in Hv as (_&obj&Ho&?&?&?&?). apply covers_spec in Hc as (Hco&?&?&?&?).
  rewrite Hco in Ho. exists obj. split_and!; done || lia.
Qed.

Lemma authorize_complete f r :
  stack_guard f (req_object r) (ctx_agent (req_context r)) (ctx_domain (req_context r)) = true →
  may_access f (ctx_domain (req_context r)) (req_object r) (req_offset r) (req_length r)
    (required_permission (req_kind r)) →
  ∃ g, authorize f r = AuthAuthorized g.
Proof.
  intros Hg (s&e&Hs&He&Hv&Hc). unfold authorize. rewrite Hg, Hs. cbn [negb].
  destruct (authorize_scan f r (dom_capabilities s) false) as [g|stale] eqn:Hscan; [eauto|].
  apply scan_inr in Hscan as [Hnone _]. by rewrite (Hnone e He Hc) in Hv.
Qed.

(** [e] is one of the capabilities of domain [d]. *)
Definition held_by (f : Fabric) (d : DomainId) (e : CapabilityEntry) : Prop :=
  ∃ s, fab_domains f !! d = Some s ∧ e ∈ dom_capabilities s.

(** C34: Authorization is sound and complete, and its denials are exact.  A request is
    authorized exactly when the stack guard admits it and some valid capability of
    its domain covers the whole span with the required permission; the generation
    returned is the current one of a live object that contains the span.  A request
    the guard admits and no valid capability covers is denied as stale exactly when
    a capability of the domain that is no longer valid covers it, otherwise for its
    permission when the domain has a valid capability on the object, and otherwise
    for want of a capability; one the guard does not admit is denied for its
    permission. *)
Theorem authorize_correct f r :
  let d := ctx_domain (req_context r) in
  let perm := required_permission (req_kind r) in
  let allowed := may_access f d (req_object r) (req_offset r) (req_length r) perm in
  let guard := stack_guard f (req_object r) (ctx_agent (req_context r)) d in
  let stale := ∃ e, held_by f d e ∧ covers (entry_cap e) (req_object r) (req_offset r) (req_length r) perm = true in
  let present := ∃ e, held_by f d e ∧ cap_object (entry_cap e) = req_object r ∧ validate f (entry_cap e) = true in
  match authorize f r with
  | AuthAuthorized g => guard = true ∧ allowed ∧
      ∃ obj, fab_objects f !! req_object r = Some obj ∧ alive (obj_state obj) = true ∧
        g = obj_generation obj ∧ req_offset r + req_length r ≤ obj_size obj
  | AuthDenied StaleGeneration => guard = true ∧ ¬ allowed ∧ stale
  | AuthDenied WrongPermission => guard = false ∨ guard = true ∧ ¬ allowed ∧ ¬ stale ∧ present
  | AuthDenied NoCapability => guard = true ∧ ¬ allowed ∧ ¬ stale ∧ ¬ present
  | AuthDenied _ => False
  end.
Proof.
  intros d perm allowed guard stale present. destruct (authorize f r) as [g|reason] eqn:Ha.
  { by apply authorize_sound in Ha. }
  unfold authorize in Ha. fold d guard in Ha.
  destruct guard eqn:Hg; simpl in Ha; [|simplify_eq; by left].
  destruct (fab_domains f !! d) as [s|] eqn:Hd.
  2:{ simplify_eq. split_and!; [done|..]; [intros (s&e&Hs&_)|intros (e&(s&Hs&_)&_)..]; congruence. }
  assert (∀ e, held_by f d e ↔ e ∈ dom_capabilities s) as Hin.
  { intros e. split; [intros (s'&Hs'&?); congruence|by exists s]. }
  destruct (authorize_scan f r (dom_capabilities s) false) as [g|old] eqn:Hs; [done|].
  apply scan_inr in Hs as [Hnone Hst].
  assert (¬ allowed) as Hnot.
  { intros (s'&e&Hs'&He&Hv&Hc). assert (s' = s) as -> by congruence. by rewrite (Hnone e He Hc) in Hv. }
  assert (stale ↔ old = true) as Hold.
  { rewrite Hst. unfold stale. setoid_rewrite Hin. split; [by right|by intros [|]]. }
  assert (present ↔ existsb (λ e, (cap_object (entry_cap e) =? req_object r) && validate f (entry_cap e)) (dom_capabilities s) = true) as Hpres.
  { unfold present. rewrite existsb_exists. setoid_rewrite Hin. setoid_rewrite list_elem_of_In. setoid_rewrite andb_true_iff.
    by setoid_rewrite Z.eqb_eq. }
  destruct old; [|destruct (existsb _ _)]; simplify_eq; [|right|]; rewrite ?Hold, ?Hpres; split_and!; try done; by apply Hold.
Qed.

(** Authority belongs to the domain, not to the agent: for an object that is
    not a protected stack the decision depends only on the domain, the object,
    the span and the kind of access, never on the agent, the privilege level or
    the instruction width. *)
Theorem authorize_agent_independent f r r' :
  fab_pointer_stack_objects f !! req_object r = None →
  ctx_domain (req_context r) = ctx_domain (req_context r') →
  req_object r = req_object r' → req_offset r = req_offset r' →
  req_length r = req_length r' → req_kind r = req_kind r' →
  authorize f r = authorize f r'.
Proof.
  intros Hn Hd Ho Hf Hl Hk. unfold authorize, stack_guard. rewrite <- Ho, Hn. simpl. rewrite <- Hd.
  destruct (fab_domains f !! _) as [s|]; [|done].
  assert (∀ caps b, authorize_scan f r caps b = authorize_scan f r' caps b) as ->.
  { induction caps as [|e caps IH]; intros b; simpl; [done|]. rewrite Ho, Hf, Hl, Hk.
    by destruct (covers _ _ _ _ _); [destruct (validate f _)|]. }
  by rewrite Ho.
Qed.

(** ** Minting and moving capabilities *)
Lemma push_capability_Some f d e f' :
  push_capability f d e = Some f' → ∃ s, fab_domains f !! d = Some s ∧
    f' = set_fab_domains (<[d := mkDomain (dom_id s) (dom_capabilities s ++ [e])
           (dom_device_authorities s)]> (fab_domains f)) f.
Proof. unfold push_capability. destruct (fab_domains f !! d); [|done]. simpl. intros. guards. eauto. Qed.

Lemma may_access_push f d e f' d' o off len p :
  push_capability f d e = Some f' →
  may_access f' d' o off len p ↔
    may_access f d' o off len p ∨
    (d' = d ∧ validate f (entry_cap e) = true ∧ covers (entry_cap e) o off len p = true).
Proof.
  intros (s&Hs&->)%push_capability_Some. unfold may_access. cbn [fab_domains set_fab_domains].
  change (validate (set_fab_domains ?m f)) with (validate f). split.
  - intros (s'&e'&Hl&He&Hv&Hc). apply lookup_insert_Some in Hl as [[<- <-]|[Hne Hl]].
    + cbn in He. apply elem_of_app in He as [He|He]; [left; eauto 10|right].
      apply list_elem_of_singleton in He as ->. done.
    + left. eauto 10.
  - intros [(s'&e'&Hl&He&Hv&Hc)|(->&Hv&Hc)].
    + destruct (decide (d' = d)) as [->|Hne].
      * eexists _, e'. rewrite lookup_insert_eq. split; [done|]. cbn.
        assert (s' = s) as -> by congruence. split_and!; [|done..]. set_solver.
      * exists s', e'. rewrite lookup_insert_ne by done. done.
    + eexists _, e. rewrite lookup_insert_eq. split; [done|]. cbn. split_and!; [|done..]. set_solver.
Qed.

Lemma within_parent_spec p off len :
  within_parent p off len = true ↔
  cap_offset p ≤ off ∧ len ≤ cap_length p ∧ off + len ≤ cap_offset p + cap_length p.
Proof. unfold within_parent. rewrite !andb_true_iff, !Z.leb_le. lia. Qed.

(** A derived capability covers nothing its parent does not. *)
Lemma covers_attenuated p off len perms o x w q :
  within_parent p off len = true → Perm.is_subset_of perms (cap_permissions p) = true →
  covers (mkCap (cap_object p) (cap_generation p) off len perms) o x w q = true →
  covers p o x w q = true.
Proof.
  rewrite within_parent_spec, !covers_spec. cbn. intros (?&?&?) Hs (?&?&Hq&?&?).
  split_and!; try (done || lia). by apply (contains_trans _ _ _ Hs Hq).
Qed.

Lemma derive_inv f d p off len perms f' c :
  derive f d p off len perms = Some (f', c) →
  c = mkCap (cap_object p) (cap_generation p) off len perms ∧ validate f p = true ∧
  Perm.is_subset_of perms (cap_permissions p) = true ∧ within_parent p off len = true ∧
  push_capability f d (mkEntry c None) = Some f'.
Proof.
  unfold derive. destruct (foreign_stack _ _ _); [done|].
  destruct (fab_objects f !! _) as [obj|]; [|done]. simpl.
  destruct (negb (bool_decide _)); [done|]. destruct (validate f p); [|done]. simpl.
  destruct (Perm.is_subset_of _ _); [|done]. simpl. destruct (within_parent _ _ _); [|done]. simpl.
  destruct (push_capability _ _ _) eqn:Hp; [|done]. simpl. intros. guards. done.
Qed.

Lemma derived_valid f p off len perms :
  within_parent p off len = true → validate f p = true →
  validate f (mkCap (cap_object p) (cap_generation p) off len perms) = true.
Proof. rewrite within_parent_spec. intros (?&?&?). apply validate_sub; cbn; done || lia. Qed.

(** C35: Derivation cannot amplify (invariant I7): the child is valid, and after the
    derivation the target domain may do exactly what it could do before plus
    accesses the parent capability itself covers; no other domain gains or
    loses anything. *)
Theorem derive_no_amplification f d p off len perms f' c :
  derive f d p off len perms = Some (f', c) →
  validate f' c = true ∧
  (∀ o x w q, covers c o x w q = true → covers p o x w q = true) ∧
  (∀ d' o x w q, may_access f' d' o x w q ↔
     may_access f d' o x w q ∨ (d' = d ∧ covers c o x w q = true)).
Proof.
  intros (->&Hv&Hs&Hw&Hp)%derive_inv.
  pose proof (derived_valid f p off len perms Hw Hv) as Hcv. split_and!.
  - apply push_capability_Some in Hp as (s&_&->). exact Hcv.
  - intros o x w q. by apply covers_attenuated.
  - intros d' o x w q. rewrite (may_access_push _ _ _ _ _ _ _ _ _ Hp). cbn. naive_solver.
Qed.

Lemma find_authority_Some f d id c :
  find_authority f d id = Some c → ∃ s e, fab_domains f !! d = Some s ∧ e ∈ dom_capabilities s ∧
    entry_cap e = c ∧ entry_authority_id e = Some id.
Proof.
  unfold find_authority. destruct (fab_domains f !! d) as [s|]; [|done]. simpl.
  destruct (List.find _ _) as [e|] eqn:Hf; [|done]. simpl. intros. guards.
  apply find_some in Hf as [Hin Hb]. bools. exists s, e. by rewrite list_elem_of_In.
Qed.

(** Sending a capability moves authority, it never creates it: after a
    cross-domain derivation every access a domain may perform was already
    allowed to it, or the domain is the destination and the access was allowed
    to the source domain. *)
Theorem derive_from_authority_moves f src sid dst off len perms nid f' c :
  derive_from_authority_id f src sid dst off len perms nid = Some (f', c) →
  has_authority_id f dst nid = false ∧ has_authority_id f' dst nid = true ∧
  ∀ d o x w q, may_access f' d o x w q →
    may_access f d o x w q ∨ (d = dst ∧ may_access f src o x w q).
Proof.
  unfold derive_from_authority_id. intros Hd.
  destruct (find_authority f src sid) as [p|] eqn:Hf; [|done]. simpl in Hd.
  destruct (foreign_stack _ _ _); [done|]. destruct (fab_objects f !! _) as [obj|]; [|done]. simpl in Hd.
  destruct (negb (bool_decide _)); [done|]. destruct (validate f p) eqn:Hv; [|done]. simpl in Hd.
  destruct (Perm.is_subset_of _ _) eqn:Hs; [|done]. simpl in Hd. destruct (len =? 0); [done|].
  destruct (within_parent _ _ _) eqn:Hw; [|done]. simpl in Hd.
  destruct (has_authority_id f dst nid) eqn:Hnid; [done|].
  destruct (push_capability _ _ _) as [g|] eqn:Hp; [|done]. simpl in Hd. guards.
  split_and!; [done| |].
  - apply push_capability_Some in Hp as (s&_&->). unfold has_authority_id. cbn.
    rewrite lookup_insert_eq. cbn. rewrite existsb_app. cbn.
    rewrite bool_decide_eq_true_2 by done. by rewrite orb_true_r.
  - intros d o x w q Hm. apply (may_access_push _ _ _ _ _ _ _ _ _ Hp) in Hm as [?|(->&_&Hc)]; [by left|].
    right. split; [done|]. apply find_authority_Some in Hf as (s&e&Hs'&He&<-&_).
    exists s, e. split_and!; [done..|]. cbn in Hc. by apply covers_attenuated in Hc.
Qed.

(** ** DMA delegation *)
Section dma.
Context `{Profile}.

Lemma create_domain_eq f n :
  add_u64 (fab_next_domain_id f) 1 = Done n →
  create_domain f = Done (set_fab_domains
    (<[fab_next_domain_id f := mkDomain (fab_next_domain_id f) [] []]> (fab_domains f))
    (set_fab_next_domain_id n f), fab_next_domain_id f).
Proof. intros Hn. unfold create_domain. by rewrite Hn. Qed.

(** The span a delegation grants. *)
Definition in_span (o off len : Z) (perms : Permissions) (o' x w q : Z) : Prop :=
  o' = o ∧ 0 < w ∧ off ≤ x ∧ x + w ≤ off + len ∧ Perm.contains perms q = true.

Lemma delegate_into_fresh_exact f p o off len perms obj n :
  fab_domains f !! fab_next_domain_id f = None → add_u64 (fab_next_domain_id f) 1 = Done n →
  fab_objects f !! o = Some obj → obj_kind obj = Memory →
  fab_pointer_stack_objects f !! o = None →
  validate f p = true → covers p o off len perms = true →
  ∃ f', delegate_into_fresh f p off len perms = Done (f', Some (fab_next_domain_id f)) ∧
    (∀ o' x w q, may_access f' (fab_next_domain_id f) o' x w q ↔ in_span o off len perms o' x w q) ∧
    (∀ d o' x w q, d ≠ fab_next_domain_id f → may_access f' d o' x w q ↔ may_access f d o' x w q).
Proof.
  intros Hfresh Hn Ho Hk Hst Hv Hc. set (d := fab_next_domain_id f) in *.
  unfold delegate_into_fresh. rewrite (create_domain_eq f n Hn). cbn [mbind outcome_bind]. fold d.
  set (f1 := set_fab_domains (<[d := mkDomain d [] []]> (fab_domains f)) (set_fab_next_domain_id n f)).
  apply covers_spec in Hc as (Hpo&Hlen&Hperm&Hoff&Hend).
  assert (Hw : within_parent p off len = true) by (apply within_parent_spec; lia).
  assert (Hd1 : fab_domains f1 !! d = Some (mkDomain d [] [])) by (unfold f1; cbn; apply lookup_insert_eq).
  set (c := mkCap (cap_object p) (cap_generation p) off len perms).
  destruct (push_capability f1 d (mkEntry c None)) as [f2|] eqn:Hp;
    [|unfold push_capability in Hp; by rewrite Hd1 in Hp].
  assert (Hder : derive f1 d p off len perms = Some (f2, c)).
  { unfold derive, foreign_stack.
    change (fab_pointer_stack_objects f1) with (fab_pointer_stack_objects f).
    change (fab_objects f1) with (fab_objects f). change (validate f1 p) with (validate f p).
    rewrite Hpo, Hst, Ho, Hv, Hw. unfold Perm.is_subset_of. rewrite Hperm.
    cbn [is_some_and mbind option_bind negb]. rewrite bool_decide_eq_true_2 by done. cbn [negb].
    rewrite <- Hpo. fold c. by rewrite Hp. }
  rewrite Hder. exists f2. split; [done|].
  assert (Hcv : validate f1 c = true) by (by apply derived_valid).
  assert (Hbase : ∀ d' o' x w q, d' ≠ d → may_access f1 d' o' x w q ↔ may_access f d' o' x w q).
  { intros d' o' x w q Hne. unfold may_access, f1. cbn [fab_domains set_fab_domains].
    rewrite lookup_insert_ne by done. done. }
  split.
  - intros o' x w q. rewrite (may_access_push _ _ _ _ _ _ _ _ _ Hp). unfold in_span. cbn [entry_cap].
    rewrite covers_spec. cbn. rewrite Hpo. split; [|naive_solver].
    intros [(s&e&Hs&He&_)|?]; [|naive_solver]. rewrite Hd1 in Hs. simplify_eq. set_solver.
  - intros d' o' x w q Hne. rewrite (may_access_push _ _ _ _ _ _ _ _ _ Hp), (Hbase _ _ _ _ _ Hne). naive_solver.
Qed.

(** DMA delegation hands out exactly the requested span.  The fresh domain may
    access the span with the delegated permissions and nothing else, every other
    domain keeps its authority, the source domain had that authority itself, and
    a refusal changes nothing: it means a protected stack, a non-memory object
    or a source without the authority. *)
Theorem delegate_dma_exact f src o off len perms n :
  fab_domains f !! fab_next_domain_id f = None → add_u64 (fab_next_domain_id f) 1 = Done n →
  match delegate_dma_span f src o off len perms with
  | Done (f', Some d) =>
      d = fab_next_domain_id f ∧ may_access f src o off len perms ∧
      (∀ o' x w q, may_access f' d o' x w q ↔ in_span o off len perms o' x w q) ∧
      (∀ d' o' x w q, d' ≠ d → may_access f' d' o' x w q ↔ may_access f d' o' x w q)
  | Done (f', None) => f' = f ∧
      (is_Some (fab_pointer_stack_objects f !! o) ∨
       (∀ obj, fab_objects f !! o = Some obj → obj_kind obj ≠ Memory) ∨
       ¬ may_access f src o off len perms)
  | Panic => False
  end.
Proof.
  intros Hfresh Hn. unfold delegate_dma_span.
  destruct (fab_pointer_stack_objects f !! o) eqn:Hst; simpl; [eauto|].
  destruct (fab_objects f !! o) as [obj|] eqn:Ho; [|naive_solver].
  destruct (decide (obj_kind obj = Memory)) as [Hk|Hk].
  2:{ rewrite bool_decide_eq_false_2 by done. simpl. naive_solver. }
  rewrite bool_decide_eq_true_2 by done. simpl.
  destruct (find_authorizing_cap f src o off len perms) as [p|] eqn:Hf.
  - unfold find_authorizing_cap in Hf. destruct (fab_domains f !! src) as [s|] eqn:Hs; [|done].
    simpl in Hf. apply find_some in Hf as [Hin Hb]. bools.
    apply list_elem_of_In, list_elem_of_fmap in Hin as (e&->&He).
    destruct (delegate_into_fresh_exact f (entry_cap e) o off len perms obj n) as (f'&->&Hx1&Hx2); try done.
    split_and!; try done. by exists s, e.
  - split; [done|]. do 2 right. intros (s&e&Hs&He&Hv&Hc).
    unfold find_authorizing_cap in Hf. rewrite Hs in Hf. simpl in Hf.
    pose proof (find_none _ _ Hf (entry_cap e)) as Hno. cbn in Hno. rewrite Hv, Hc in Hno.
    discriminate Hno. apply list_elem_of_In, list_elem_of_fmap. eauto.
Qed.
End dma.

(** ** Witnesses on the demonstration fabric *)
Lemma authorize_agent_independent_witness :
  authorize demo_fabric demo_read
  = authorize demo_fabric (mkRequest (mkContext 9 0 Supervisor) 0 8 WDouble 4 Read).
Proof.
  apply (authorize_agent_independent demo_fabric demo_read
    (mkRequest (mkContext 9 0 Supervisor) 0 8 WDouble 4 Read)); try reflexivity.
Defined.

Definition demo_cap : Capability64 := mkCap 0 0 0 32 11.

Lemma derive_no_amplification_witness :
  ∃ f' c, derive demo_fabric 0 demo_cap 8 4 1 = Some (f', c) ∧ validate f' c = true.
Proof.
  destruct (derive demo_fabric 0 demo_cap 8 4 1) as [[f' c]|] eqn:E.
  - exists f', c. split; [reflexivity|].
    exact (proj1 (derive_no_amplification demo_fabric 0 demo_cap 8 4 1 f' c E)).
  - exfalso. vm_compute in E. discriminate E.
Defined.

(** Two more domains: one holds an identified authority, one is empty. *)
Definition demo_two : Fabric :=
  match (r ← create_domain (H := true) demo_fabric;
         s ← create_domain (H := true) r.1;
         unwrap (grant_with_authority_id s.1 1 0 0 16 3 5)) with
  | Done (f, _) => f
  | Panic => demo_fabric
  end.

Lemma derive_from_authority_moves_witness :
  ∃ f' c, derive_from_authority_id demo_two 1 5 2 4 4 1 6 = Some (f', c) ∧
    has_authority_id f' 2 6 = true.
Proof.
  destruct (derive_from_authority_id demo_two 1 5 2 4 4 1 6) as [[f' c]|] eqn:E.
  - exists f', c. split; [reflexivity|].
    exact (proj1 (proj2 (derive_from_authority_moves demo_two 1 5 2 4 4 1 6 f' c E))).
  - exfalso. vm_compute in E. discriminate E.
Defined.

Lemma delegate_dma_exact_witness :
  let P : Profile := true in
  ∃ f', delegate_dma_span demo_fabric 0 0 8 4 1 = Done (f', Some 1) ∧
    (∀ o x w q, may_access f' 1 o x w q ↔ in_span 0 8 4 1 o x w q).
Proof.
  intros P.
  pose proof (delegate_dma_exact demo_fabric 0 0 8 4 1 2
    ltac:(vm_compute; reflexivity) ltac:(vm_compute; reflexivity)) as H.
  destruct (delegate_dma_span demo_fabric 0 0 8 4 1) as [[f' [d|]]|] eqn:E.
  - destruct H as (->&_&H&_). exists f'. split; [reflexivity|exact H].
  - exfalso. vm_compute in E. discriminate E.
  - exfalso. vm_compute in E. discriminate E.
Defined.
