(* ===== verification/FabricInv.v ===== *)
(** * Reachable fabrics

    The operations of [fabric.rs] as a step relation, and what holds of every
    fabric they can produce: identities are fresh, live objects have the
    generation their state dictates, placements are disjoint, and capabilities
    obey W^X.  [M] is the list of capability values the fabric has handed out, by
    minting them or by looking them up in a domain; [derive] takes its parent from
    it, as [Capability64] has no other constructor. *)

From S2P Require Import Prelude State Extents Registry PointerFrames Fabric FabricTx.
From S2P Require Import RegistrySafety RegistryOps FabricAuth.

(** ** Steps that leave authority and placement alone *)
Record same_auth (f f' : Fabric) : Prop := {
  sa_objects : fab_objects f' = fab_objects f;
  sa_domains : fab_domains f' = fab_domains f;
  sa_placement : fab_placement f' = fab_placement f;
  sa_next_object : fab_next_object_id f' = fab_next_object_id f;
  sa_heap : fab_private_heap f' = fab_private_heap f;
  sa_stack : fab_pointer_stack_objects f' = fab_pointer_stack_objects f;
  sa_agents : fab_agents f' = fab_agents f;
  sa_mem_len : mem_len f' = mem_len f;
  sa_registry : fab_scoped_pointers f' = fab_scoped_pointers f;
}.

Lemma same_auth_refl f : same_auth f f.
Proof. by split. Qed.
Lemma same_auth_trans f g h : same_auth f g → same_auth g h → same_auth f h.
Proof. intros [] []. split; congruence. Qed.

Lemma clear_cells_same f b n f' : clear_pointer_cells_physical f b n = Done f' → same_auth f f'.
Proof.
  unfold clear_pointer_cells_physical. intros Hc. destruct (n =? 0); [guards; apply same_auth_refl|].
  destruct (checked_add b n); [|done]. simpl in Hc. guards. by split.
Qed.
Lemma mem_write_same f b e d f' : mem_write f b e d = Done f' → same_auth f f'.
Proof.
  unfold mem_write. destruct (_ && _); [|done]. intros. guards. split; try done.
  unfold mem_len, zlen. cbn. by rewrite length_splice.
Qed.
Lemma update_tx_same f i k f' : update_tx f i k = Done f' → same_auth f f'.
Proof. unfold update_tx. destruct (vec_get _ _); [|done]. simpl. intros. guards. by split. Qed.
Lemma fault_tx_same f i r f' : fault_tx f i r = Done f' → same_auth f f'.
Proof. unfold fault_tx. destruct (vec_get _ _); [|done]. simpl. intros. guards. by split. Qed.
#[export] Hint Resolve same_auth_refl clear_cells_same mem_write_same update_tx_same fault_tx_same : anka.

Lemma commit_write_same f i b e f' : commit_write f i b e = Done f' → same_auth f f'.
Proof.
  unfold commit_write. intros Hc. run_binds Hc.
  eapply same_auth_trans; [by eapply clear_cells_same|by eapply mem_write_same].
Qed.

Lemma precommit_same f i f' s : validate_precommit f i = Done (f', s) → same_auth f f'.
Proof.
  unfold validate_precommit. intros Hc. run_binds Hc; guards; eauto with anka.
Qed.
#[export] Hint Resolve commit_write_same precommit_same : anka.

Lemma phase_commit_same f i f' : phase_commit f i = Done f' → same_auth f f'.
Proof.
  unfold phase_commit. intros Hc. run_binds Hc; guards; eauto with anka.
  eapply same_auth_trans; [by eapply precommit_same|].
  eapply same_auth_trans; [|by eapply update_tx_same].
  match goal with E : (if _ then _ else _) = Done _ |- _ => run_binds E end; eauto with anka.
Qed.

Lemma advance_same f i f' : advance f i = Done f' → same_auth f f'.
Proof.
  unfold advance. intros Ha. run_binds Ha.
  - unfold phase_authorize in Ha. run_binds Ha; eauto with anka.
  - unfold phase_translate in Ha. run_binds Ha; eauto with anka.
  - by eapply phase_commit_same.
  - guards. eauto with anka.
  - guards. eauto with anka.
Qed.
#[export] Hint Resolve advance_same : anka.

Section same_profile.
Context `{Profile}.

Lemma submit_same f r d f' i : submit f r d = Done (f', i) → same_auth f f'.
Proof.
  unfold submit. intros Hs. run_binds Hs. guards.
  match goal with E : (if _ then _ else _) = Done _ |- _ => run_binds E end.
  - eapply same_auth_trans; [|by eapply fault_tx_same]. by split.
  - guards. by split.
Qed.

Lemma advance3_same f i f' : advance3 f i = Done f' → same_auth f f'.
Proof.
  unfold advance3. intros Hs. run_binds Hs.
  eapply same_auth_trans; [by eapply advance_same|].
  eapply same_auth_trans; by eapply advance_same.
Qed.

Lemma execute_write_same f r d f' x : execute_write f r d = Done (f', x) → same_auth f f'.
Proof.
  unfold execute_write. intros Hs. run_binds Hs; guards.
  all: eapply same_auth_trans; [by eapply submit_same|by eapply advance3_same].
Qed.
Lemma execute_read_same f r f' x : execute_read f r = Done (f', x) → same_auth f f'.
Proof.
  unfold execute_read. intros Hs. run_binds Hs; guards.
  all: eapply same_auth_trans; [by eapply submit_same|by eapply advance3_same].
Qed.
Lemma execute_xchg_same f r d f' x : execute_atomic_xchg f r d = Done (f', x) → same_auth f f'.
Proof.
  unfold execute_atomic_xchg. intros Hs. run_binds Hs; guards.
  all: eapply same_auth_trans; [by eapply submit_same|].
  all: eapply same_auth_trans; [by eapply advance_same|].
  all: eapply same_auth_trans; [by eapply advance_same|]; eauto with anka.
  eapply same_auth_trans; [by eapply precommit_same|].
  eapply same_auth_trans; [by eapply commit_write_same|by eapply update_tx_same].
Qed.
End same_profile.

Lemma initialize_object_same f id off d f' b :
  initialize_object f id off d = Done (f', b) → same_auth f f'.
Proof.
  unfold initialize_object. intros Hs. run_binds Hs; guards; eauto with anka.
  eapply same_auth_trans; [by eapply clear_cells_same|by eapply mem_write_same].
Qed.
Lemma zero_object_extent_same f id f' b : zero_object_extent f id = Done (f', b) → same_auth f f'.
Proof.
  unfold zero_object_extent. intros Hs. run_binds Hs; guards; eauto with anka.
  eapply same_auth_trans; [by eapply clear_cells_same|by eapply mem_write_same].
Qed.
Lemma zero_physical_same f base n f' : zero_physical f base n = Done f' → same_auth f f'.
Proof.
  unfold zero_physical. intros Hs. run_binds Hs; guards; eauto with anka.
  eapply same_auth_trans; [by eapply clear_cells_same|by eapply mem_write_same].
Qed.
Lemma try_write_physical_same f a d f' b : try_write_physical f a d = Done (f', b) → same_auth f f'.
Proof.
  unfold try_write_physical. intros Hs. run_binds Hs; guards; eauto with anka.
  eapply same_auth_trans; [by eapply clear_cells_same|by eapply mem_write_same].
Qed.

(** Changes that leave objects, domains and placement alone: memory, logs, pointer
    cells and scopes, heap custody, agents, the timer.  The registry changes by its
    operations only. *)
Record calm `{Profile} (f f' : Fabric) : Prop := {
  cm_objects : fab_objects f' = fab_objects f;
  cm_domains : fab_domains f' = fab_domains f;
  cm_placement : fab_placement f' = fab_placement f;
  cm_next : fab_next_object_id f' = fab_next_object_id f;
  cm_registry : registry_run (fab_scoped_pointers f) (fab_scoped_pointers f');
}.
#[export] Instance calm_preorder `{Profile} : PreOrder calm.
Proof. split; [by intros ?; split|]. intros a b c [] []. split; try congruence. by etransitivity. Qed.

(** [calm] for a change of other fields *)
Ltac calm_split := split; [done|done|done|done|reflexivity].

Lemma same_auth_calm `{Profile} f f' : same_auth f f' → calm f f'.
Proof. intros [? ? ? ? ? ? ? ? E]. split; try done. by rewrite E. Qed.

(** A capability some domain holds *)
Definition held (f : Fabric) (c : Capability64) : Prop :=
  ∃ d s e, fab_domains f !! d = Some s ∧ e ∈ dom_capabilities s ∧ entry_cap e = c.

(** ** The step relation *)
Section steps.
Context `{Profile}.

Inductive fab_step (f : Fabric) (M : list Capability64) : Fabric → list Capability64 → Prop :=
| st_alloc name size kind id f' : is_u64 size →
    alloc_object f name size kind = Done (f', id) → fab_step f M f' M
| st_place id base b f' : is_u64 base → place_object f id base = (f', b) → fab_step f M f' M
| st_revoke id : fab_step f M (revoke f id) M
| st_seal id b f' : seal_object f id = (f', b) → fab_step f M f' M
| st_create_domain d f' : create_domain f = Done (f', d) → fab_step f M f' M
| st_destroy_domain d : fab_step f M (destroy_domain f d) M
| st_destroy_object id : fab_step f M (destroy_object f id) M
| st_rollback id b f' : rollback_unpublished_object f id = (f', b) → fab_step f M f' M
| st_register_agent a k d : fab_step f M (register_agent f a k d) M
| st_grant d o off len p c f' :
    grant f d o off len p = Some (f', c) → fab_step f M f' (c :: M)
| st_grant_id d o off len p id c f' :
    grant_with_authority_id f d o off len p id = Some (f', c) → fab_step f M f' (c :: M)
| st_remove d id b f' : remove_by_authority_id f d id = (f', b) → fab_step f M f' M
| st_derive d p off len q c f' : p ∈ M →
    derive f d p off len q = Some (f', c) → fab_step f M f' (c :: M)
| st_derive_from s sid d off len q id c f' :
    derive_from_authority_id f s sid d off len q id = Some (f', c) → fab_step f M f' (c :: M)
| st_derive_device s sid o g rights d q id x f' :
    derive_device_from_authority_id f s sid o g rights d q id = Some (f', x) → fab_step f M f' M
| st_grant_device d o rights id f' :
    grant_device_with_authority_id f d o rights id = Some f' → fab_step f M f' M
| st_delegate s o off len q f' x :
    delegate_dma_span f s o off len q = Done (f', x) → fab_step f M f' M
| st_delegate_id s sid o off len q f' x :
    delegate_dma_span_from_authority_id f s sid o off len q = Done (f', x) → fab_step f M f' M
| st_alloc_authority id f' : alloc_authority_id f = Some (f', id) → fab_step f M f' M
| st_timer period : fab_step f M (configure_timer f period) M
| st_initialize id off d b f' : initialize_object f id off d = Done (f', b) → fab_step f M f' M
| st_zero_extent id b f' : zero_object_extent f id = Done (f', b) → fab_step f M f' M
| st_zero_physical base n f' : zero_physical f base n = Done f' → fab_step f M f' M
| st_write_physical a d b f' : try_write_physical f a d = Done (f', b) → fab_step f M f' M
| st_submit r d i f' : submit f r d = Done (f', i) → fab_step f M f' M
| st_advance i f' : advance f i = Done f' → fab_step f M f' M
| st_write r d x f' : execute_write f r d = Done (f', x) → fab_step f M f' M
| st_read r x f' : execute_read f r = Done (f', x) → fab_step f M f' M
| st_xchg r d x f' : execute_atomic_xchg f r d = Done (f', x) → fab_step f M f' M
| st_discard b f' : discard_completed_compiler_trace f = (f', b) → fab_step f M f' M
| st_calm f' : calm f f' → fab_step f M f' M
| st_held p : held f p → fab_step f M f (p :: M).

(** From a fabric with any memory, well-formed registry and heap profile, and no
    objects or domains *)
Inductive fab_reach : Fabric → list Capability64 → Prop :=
| reach_init mem reg heap : reg_wf reg → fab_reach (from_parts mem reg heap) []
| reach_step f M f' M' : fab_reach f M → fab_step f M f' M' → fab_reach f' M'.
End steps.

(** ** The invariant *)

(** W^X of one capability: its generation fixes the state it was minted in. *)
Definition cap_wx (c : Capability64) : Prop :=
  (cap_generation c = 0 ∧ grant_allowed Active (cap_permissions c) = true) ∨
  (cap_generation c = 1 ∧ grant_allowed Sealed (cap_permissions c) = true).

Record obj_wf (next k : Z) (o : Object) : Prop := {
  ow_id : obj_id o = k;
  ow_fresh : 0 ≤ k < next;
  ow_size : is_u64 (obj_size o);
  ow_active : obj_state o = Active → obj_generation o = 0;
  ow_sealed : obj_state o = Sealed → obj_generation o = 1;
}.

Definition disjoint_spans (a n b m : Z) : Prop := a + n ≤ b ∨ b + m ≤ a.

Record fab_inv (f : Fabric) (M : list Capability64) : Prop := {
  fi_next : is_u64 (fab_next_object_id f);
  fi_objects k o : fab_objects f !! k = Some o → obj_wf (fab_next_object_id f) k o;
  fi_placed k b : fab_placement f !! k = Some b →
    is_u64 b ∧ ∃ o, fab_objects f !! k = Some o ∧ b + obj_size o < U64;
  fi_disjoint j k a b p q : j ≠ k →
    fab_placement f !! j = Some a → fab_objects f !! j = Some p → alive (obj_state p) = true →
    fab_placement f !! k = Some b → fab_objects f !! k = Some q → alive (obj_state q) = true →
    disjoint_spans a (obj_size p) b (obj_size q);
  fi_caps d s e : fab_domains f !! d = Some s → e ∈ dom_capabilities s → cap_wx (entry_cap e);
  fi_minted c : c ∈ M → cap_wx c;
}.

(** Steps that change only domains. *)
Lemma inv_domains f f' M M' :
  fab_inv f M → fab_objects f' = fab_objects f → fab_placement f' = fab_placement f →
  fab_next_object_id f' = fab_next_object_id f →
  (∀ d s e, fab_domains f' !! d = Some s → e ∈ dom_capabilities s → cap_wx (entry_cap e)) →
  (∀ c, c ∈ M' → cap_wx c) → fab_inv f' M'.
Proof.
  intros Hi Ho Hp Hn Hc Hm. split; rewrite ?Ho, ?Hp, ?Hn; try apply Hi; done.
Qed.

Lemma inv_same f f' M : same_auth f f' → fab_inv f M → fab_inv f' M.
Proof.
  intros [Ho Hd Hp Hn _ _ _ _] Hi. apply (inv_domains f f' M M); try done; rewrite ?Hd; apply Hi.
Qed.

Lemma inv_set_domains f M M' m :
  fab_inv f M →
  (∀ d s e, m !! d = Some s → e ∈ dom_capabilities s → cap_wx (entry_cap e)) →
  (∀ c, c ∈ M' → cap_wx c) → fab_inv (set_fab_domains m f) M'.
Proof. intros Hi Hm Hc. by apply (inv_domains f _ M M'). Qed.

Lemma inv_push_capability f M d e f' M' :
  fab_inv f M → cap_wx (entry_cap e) → push_capability f d e = Some f' →
  (∀ c, c ∈ M' → cap_wx c) → fab_inv f' M'.
Proof.
  intros Hi He (s&Hs&->)%push_capability_Some Hm. apply (inv_set_domains f M); [done| |done].
  intros d' s' e' Hl He'. apply lookup_insert_Some in Hl as [[<- <-]|[_ Hl]]; [|by eapply fi_caps].
  cbn in He'. apply elem_of_app in He' as [He'|He']; [by eapply fi_caps|].
  by apply list_elem_of_singleton in He' as ->.
Qed.

Lemma inv_push_device f M d e f' : fab_inv f M → push_device f d e = Some f' → fab_inv f' M.
Proof.
  intros Hi. unfold push_device. destruct (fab_domains f !! d) as [s|] eqn:Hs; [|done]. simpl.
  intros. guards. apply (inv_set_domains f M); [done| |apply Hi].
  intros d' s' e' Hl He'. apply lookup_insert_Some in Hl as [[<- <-]|[_ Hl]]; by eapply (fi_caps f M Hi).
Qed.

(** Minting keeps W^X. *)
Lemma granted_wx f M o obj off len p :
  fab_inv f M → fab_objects f !! o = Some obj → grant_allowed (obj_state obj) p = true →
  cap_wx (mkCap o (obj_generation obj) off len p).
Proof.
  intros Hi Ho Hg. destruct (fi_objects f M Hi o obj Ho) as [_ _ _ Ha Hs]. unfold cap_wx. cbn.
  destruct (obj_state obj) eqn:E; [left|right|done..]; auto.
Qed.

Lemma attenuated_wx c off len p :
  cap_wx c → Perm.is_subset_of p (cap_permissions c) = true →
  cap_wx (mkCap (cap_object c) (cap_generation c) off len p).
Proof.
  unfold cap_wx. cbn. intros Hc Hs. destruct Hc as [[Hg Ha]|[Hg Ha]]; [left|right]; (split; [done|]).
  - simpl in *. bools. rewrite (subset_lacks _ _ _ Hs) by done. done.
  - simpl in *. bools. by rewrite !(subset_lacks _ _ _ Hs) by done.
Qed.

Lemma grant_inv f d o off len p f' c :
  grant f d o off len p = Some (f', c) →
  ∃ obj, fab_objects f !! o = Some obj ∧ obj_kind obj = Memory ∧
    grant_allowed (obj_state obj) p = true ∧
    c = mkCap o (obj_generation obj) off len p ∧ push_capability f d (mkEntry c None) = Some f' ∧
    len ≤ obj_size obj ∧ off + len ≤ obj_size obj.
Proof.
  unfold grant. destruct (private_heap_object f o); [done|]. destruct (foreign_stack f o d); [done|].
  destruct (fab_objects f !! o) as [obj|]; [|done]. simpl.
  destruct (negb (bool_decide _)) eqn:Hk; [done|]. destruct (grant_allowed _ _) eqn:Hg; [|done]. simpl.
  destruct (obj_size obj <? len) eqn:Hl; [done|]. destruct (obj_size obj - len <? off) eqn:Hf; [done|].
  destruct (push_capability _ _ _) eqn:Hp; [|done]. simpl. intros. guards. bools.
  exists obj. split_and!; done || lia.
Qed.

Lemma grant_id_inv f d o off len p id f' c :
  grant_with_authority_id f d o off len p id = Some (f', c) →
  ∃ obj, fab_objects f !! o = Some obj ∧ grant_allowed (obj_state obj) p = true ∧
    has_authority_id f d id = false ∧
    c = mkCap o (obj_generation obj) off len p ∧ push_capability f d (mkEntry c (Some id)) = Some f'.
Proof.
  unfold grant_with_authority_id.
  destruct (private_heap_object f o); [done|]. destruct (foreign_stack f o d); [done|].
  destruct (fab_objects f !! o) as [obj|]; [|done]. simpl.
  destruct (negb (bool_decide _)); [done|]. destruct (has_authority_id f d id); [done|].
  destruct (grant_allowed _ _) eqn:Hg; [|done]. simpl.
  destruct (obj_size obj <? len); [done|]. destruct (obj_size obj - len <? off); [done|].
  destruct (push_capability _ _ _) eqn:Hp; [|done]. simpl. intros. guards. eauto 10.
Qed.

Lemma derive_from_inv f s sid d off len p id f' c :
  derive_from_authority_id f s sid d off len p id = Some (f', c) →
  ∃ q, find_authority f s sid = Some q ∧ Perm.is_subset_of p (cap_permissions q) = true ∧
    has_authority_id f d id = false ∧
    c = mkCap (cap_object q) (cap_generation q) off len p ∧
    push_capability f d (mkEntry c (Some id)) = Some f'.
Proof.
  unfold derive_from_authority_id. destruct (find_authority f s sid) as [q|]; [|done]. simpl.
  destruct (foreign_stack _ _ _); [done|]. destruct (fab_objects f !! _); [|done]. simpl.
  destruct (negb (bool_decide _)); [done|]. destruct (validate f q); [|done]. simpl.
  destruct (Perm.is_subset_of _ _) eqn:Hs; [|done]. simpl. destruct (len =? 0); [done|].
  destruct (within_parent _ _ _); [|done]. simpl. destruct (has_authority_id f d id); [done|].
  destruct (push_capability _ _ _) eqn:Hp; [|done]. simpl. intros. guards. eauto 10.
Qed.

(** ** Preservation, operation by operation *)

(** Replacing one object by a version that is not alive, or that keeps its size
    and liveness, and has a state-consistent generation. *)
Lemma inv_set_object f M k o o' :
  fab_inv f M → fab_objects f !! k = Some o →
  obj_id o' = obj_id o → obj_size o' = obj_size o →
  (alive (obj_state o') = true → alive (obj_state o) = true) →
  (obj_state o' = Active → obj_generation o' = 0) →
  (obj_state o' = Sealed → obj_generation o' = 1) →
  fab_inv (set_fab_objects (<[k := o']> (fab_objects f)) f) M.
Proof.
  intros Hi Ho Hid Hsz Hal Ha Hs. split; cbn; try apply Hi.
  - intros j p Hl. apply lookup_insert_Some in Hl as [[<- <-]|[_ Hl]]; [|by eapply fi_objects].
    destruct (fi_objects f M Hi k o Ho). split; congruence || done.
  - intros j b Hp. destruct (fi_placed f M Hi j b Hp) as (?&p&Hl&?). split; [done|].
    destruct (decide (j = k)) as [->|]; [exists o'; rewrite lookup_insert_eq|exists p; by rewrite lookup_insert_ne].
    split; [done|]. by rewrite Hsz; simplify_eq.
  - intros j i a b p q Hne Hpj Hoj Haj Hpi Hoi Hai.
    assert (Hback : ∀ x y, <[k := o']> (fab_objects f) !! x = Some y → alive (obj_state y) = true →
      ∃ z, fab_objects f !! x = Some z ∧ obj_size z = obj_size y ∧ alive (obj_state z) = true).
    { intros x y Hl Hy. apply lookup_insert_Some in Hl as [[<- <-]|[_ Hl]]; eauto. }
    destruct (Hback _ _ Hoj Haj) as (pj&?&<-&?). destruct (Hback _ _ Hoi Hai) as (pi&?&<-&?).
    by apply (fi_disjoint f M Hi j i).
Qed.

Lemma inv_forget_cells f M id : fab_inv f M → fab_inv (forget_object_cells f id) M.
Proof. intros Hi. apply (inv_domains f _ M M); try done; apply Hi. Qed.

Lemma alloc_inv f M name size kind id f' :
  fab_inv f M → is_u64 size → alloc_object f name size kind = Done (f', id) → fab_inv f' M.
Proof.
  intros Hi Hsz Ha. unfold alloc_object, try_alloc_object in Ha.
  destruct (next_fresh_object_id f) as [i|] eqn:Hf; [|done]. unfold next_fresh_object_id in Hf.
  destruct (checked_add (fab_next_object_id f) 1) as [n|] eqn:Hn; [|done]. simpl in Hf.
  destruct (_ || _) eqn:Hg; [done|]. guards. rewrite Hn in Ha. simpl in Ha. guards. bools.
  apply checked_add_Some in Hn as [Hlt ->]. pose proof (fi_next f M Hi) as Hnext.
  unfold is_u64 in Hnext. set (i := fab_next_object_id f) in *.
  assert (Hno : fab_objects f !! i = None) by (by destruct (fab_objects f !! i)).
  assert (Hnp : fab_placement f !! i = None) by (by destruct (fab_placement f !! i)).
  split; cbn; try apply Hi.
  - unfold is_u64. lia.
  - intros k o Hl. apply lookup_insert_Some in Hl as [[<- <-]|[_ Hl]].
    + split; cbn; done || lia.
    + destruct (fi_objects f M Hi k o Hl). split; done || (fold i in ow_fresh0; lia).
  - intros k b Hp. destruct (fi_placed f M Hi k b Hp) as (?&o&?&?). split; [done|]. exists o.
    rewrite lookup_insert_ne by congruence. done.
  - intros j k a b p q Hne Hpj Hoj Haj Hpk Hok Hak.
    rewrite lookup_insert_ne in Hoj by congruence. rewrite lookup_insert_ne in Hok by congruence.
    by apply (fi_disjoint f M Hi j k).
Qed.

Lemma map_any_false {V} (p : Z → V → bool) m k v :
  map_any p m = false → m !! k = Some v → p k v = false.
Proof.
  unfold map_any. intros Hf Hl. destruct (p k v) eqn:E; [|done].
  apply not_true_iff_false in Hf. exfalso. apply Hf, existsb_exists. exists (k, v).
  split; [|done]. by apply list_elem_of_In, elem_of_map_to_list.
Qed.

(** A successful placement: what the guards established. *)
Lemma place_inv f id base f' :
  place_object f id base = (f', true) →
  ∃ o, fab_objects f !! id = Some o ∧ base + obj_size o < U64 ∧
    private_heap_object f id = false ∧ heap_pool_overlaps f base (obj_size o) = false ∧
    (∀ k b, fab_placement f !! k = Some b →
       placement_conflict f id base (base + obj_size o) k b = false) ∧
    fab_objects f' = fab_objects f ∧ fab_domains f' = fab_domains f ∧
    fab_placement f' = <[id := base]> (fab_placement f) ∧
    fab_next_object_id f' = fab_next_object_id f ∧ fab_memory f' = fab_memory f ∧
    fab_private_heap f' = fab_private_heap f.
Proof.
  unfold place_object. destruct (private_heap_object f id); [done|].
  destruct (fab_objects f !! id) as [o|] eqn:Ho; [|done].
  destruct (checked_add base (obj_size o)) as [e|] eqn:He; [|done].
  destruct (heap_pool_overlaps _ _ _) eqn:Hh; [done|].
  destruct (map_any _ _) eqn:Hm; [done|]. intros. guards.
  apply checked_add_Some in He as [? ->]. exists o. split_and!; try done.
  - intros k b. by apply map_any_false.
  - by destruct (bool_decide _).
  - by destruct (bool_decide _).
  - by destruct (bool_decide _).
  - by destruct (bool_decide _).
  - by destruct (bool_decide _).
  - by destruct (bool_decide _).
Qed.

Lemma place_false f id base f' : place_object f id base = (f', false) → f' = f.
Proof. unfold place_object. intros Hp. repeat case_match; by guards. Qed.

Lemma no_conflict_disjoint f id base n k b o :
  k ≠ id → placement_conflict f id base n k b = false → fab_objects f !! k = Some o →
  alive (obj_state o) = true → b + obj_size o < U64 → n ≤ b ∨ b + obj_size o ≤ base.
Proof.
  intros Hne Hc Ho Hal Hlt. unfold placement_conflict in Hc.
  rewrite (proj2 (Z.eqb_neq _ _) Hne), Ho, Hal in Hc. simpl in Hc.
  rewrite (proj2 (checked_add_Some b (obj_size o) _) (conj Hlt eq_refl)) in Hc.
  apply andb_false_iff in Hc as [?|?]; bools; lia.
Qed.

Lemma place_inv_preserved f M id base b f' :
  fab_inv f M → is_u64 base → place_object f id base = (f', b) → fab_inv f' M.
Proof.
  intros Hi Hb Hp. destruct b; [|by apply place_false in Hp as ->].
  apply place_inv in Hp as (o&Ho&Hlt&_&_&Hno&HO&HD&HP&HN&_&_).
  split; rewrite ?HO, ?HD, ?HN; try apply Hi.
  - intros k x Hl. rewrite HP in Hl. apply lookup_insert_Some in Hl as [[<- <-]|[_ Hl]]; [eauto|].
    by apply (fi_placed f M Hi).
  - intros j k x y p q Hne Hj Hoj Haj Hk Hok Hak. rewrite HP in Hj, Hk. unfold disjoint_spans.
    apply lookup_insert_Some in Hj as [[<- <-]|[Hnj Hj]], Hk as [[<- <-]|[Hnk Hk]]; [done|..].
    + destruct (fi_placed f M Hi k y Hk) as (_&q'&Hq'&?). simplify_eq.
      destruct (no_conflict_disjoint _ _ _ _ _ _ _ (not_eq_sym Hne) (Hno _ _ Hk) Hok Hak); tauto.
    + destruct (fi_placed f M Hi j x Hj) as (_&q'&Hq'&?). simplify_eq.
      destruct (no_conflict_disjoint _ _ _ _ _ _ _ Hne (Hno _ _ Hj) Hoj Haj); tauto.
    + by apply (fi_disjoint f M Hi j k).
Qed.

Lemma revoke_inv f M id : fab_inv f M → fab_inv (revoke f id) M.
Proof.
  intros Hi. unfold revoke. destruct (private_heap_object f id); [done|].
  apply (inv_forget_cells _ _ id) in Hi. destruct (fab_objects _ !! id) as [o|] eqn:Ho; [|done].
  by apply (inv_set_object _ _ _ o).
Qed.

Lemma seal_inv f M id f' b : fab_inv f M → seal_object f id = (f', b) → fab_inv f' M.
Proof.
  intros Hi. unfold seal_object. destruct (private_heap_object f id); [by intros; guards|].
  destruct (fab_objects f !! id) as [o|] eqn:Ho; [|by intros; guards].
  destruct (decide (obj_state o = Active)) as [Ha|Ha].
  - rewrite bool_decide_eq_true_2 by done. simpl. intros. guards.
    apply (inv_set_object f M id o); try done; cbn; [by rewrite Ha|].
    intros _. by rewrite (ow_active _ _ _ (fi_objects f M Hi id o Ho) Ha).
  - rewrite bool_decide_eq_false_2 by done. simpl. by intros; guards.
Qed.

Lemma delete_object_inv f f' M id n :
  fab_inv f M → fab_objects f' = delete id (fab_objects f) →
  fab_placement f' = delete id (fab_placement f) → fab_domains f' = fab_domains f →
  fab_next_object_id f' = n → is_u64 n → (∀ k o, k ≠ id → fab_objects f !! k = Some o → k < n) →
  fab_inv f' M.
Proof.
  intros Hi HO HP HD HN Hn Hfresh. split; rewrite ?HD, ?HN; try apply Hi; [done|..]; rewrite ?HO, ?HP.
  - intros k o Hl. apply lookup_delete_Some in Hl as [Hne Hl].
    specialize (Hfresh k o (not_eq_sym Hne) Hl). destruct (fi_objects f M Hi k o Hl). split; done || lia.
  - intros k b Hl. apply lookup_delete_Some in Hl as [Hne Hl].
    destruct (fi_placed f M Hi k b Hl) as (?&o&?&?). split; [done|]. exists o.
    by rewrite lookup_delete_ne.
  - intros j k a b p q Hne Hj Hoj Haj Hk Hok Hak. apply lookup_delete_Some in Hj as [_ Hj], Hoj as [_ Hoj], Hk as [_ Hk], Hok as [_ Hok].
    by apply (fi_disjoint f M Hi j k).
Qed.

Lemma destroy_inv f M id : fab_inv f M → fab_inv (destroy_object f id) M.
Proof.
  intros Hi. unfold destroy_object. destruct (private_heap_object f id); [done|].
  apply (delete_object_inv f _ M id (fab_next_object_id f)); try done; [apply Hi|].
  intros k o _ Hl. by destruct (fi_objects f M Hi k o Hl) as [_ [_ ?] _ _ _].
Qed.

(** What a successful rollback established. *)
Lemma rollback_true f id f' :
  rollback_unpublished_object f id = (f', true) →
  id + 1 = fab_next_object_id f ∧
  (∃ o, fab_objects f !! id = Some o ∧ obj_state o = Active) ∧
  (∀ d s e, fab_domains f !! d = Some s → e ∈ dom_capabilities s → cap_object (entry_cap e) ≠ id) ∧
  f' = set_fab_next_object_id id (set_fab_objects (delete id (fab_objects f))
         (set_fab_placement (delete id (fab_placement f)) f)).
Proof.
  unfold rollback_unpublished_object. destruct (is_some_and _ _); [done|].
  destruct (decide (checked_add id 1 = Some (fab_next_object_id f))) as [Hn|Hn];
    [rewrite bool_decide_eq_true_2 by done|by rewrite bool_decide_eq_false_2 by done].
  simpl. destruct (fab_objects f !! id) as [o|] eqn:Ho; [|done].
  destruct (decide (obj_state o = Active)) as [Ha|Ha];
    [rewrite bool_decide_eq_true_2 by done|by rewrite bool_decide_eq_false_2 by done].
  simpl. destruct (negb _); [done|]. destruct (_ || _) eqn:Hex; [done|]. bools. intros. guards.
  apply checked_add_Some in Hn as [_ Hn]. split_and!; [lia|by exists o| |done].
  intros d s e Hd He Hid.
  match goal with E : map_any (λ _ d, names_object d id) _ = false |- _ =>
    pose proof (map_any_false _ _ _ _ E Hd) as Hany end.
  cbn in Hany. apply not_true_iff_false in Hany. apply Hany. unfold names_object.
  apply existsb_exists. exists e. split; [by apply list_elem_of_In|]. by apply Z.eqb_eq.
Qed.

Lemma rollback_false f id f' : rollback_unpublished_object f id = (f', false) → f' = f.
Proof. unfold rollback_unpublished_object. intros Hr. repeat case_match; by guards. Qed.

Lemma rollback_inv f M id f' b :
  fab_inv f M → rollback_unpublished_object f id = (f', b) → fab_inv f' M.
Proof.
  intros Hi Hr. destruct b; [|by apply rollback_false in Hr as ->].
  apply rollback_true in Hr as (Hn&(o&Ho&_)&_&->).
  apply (delete_object_inv f _ M id id); try done.
  - destruct (fi_objects f M Hi id o Ho) as [_ ? _ _ _]. pose proof (fi_next f M Hi).
    unfold is_u64 in *. lia.
  - intros k p Hne Hl. destruct (fi_objects f M Hi k p Hl) as [_ ? _ _ _]. lia.
Qed.

Lemma remove_inv f M d id f' b : fab_inv f M → remove_by_authority_id f d id = (f', b) → fab_inv f' M.
Proof.
  intros Hi. unfold remove_by_authority_id. destruct (fab_domains f !! d) as [s|] eqn:Hs; [|by intros; guards].
  assert (Hrm : ∀ i : nat, ∀ e, e ∈ list_remove_at i (dom_capabilities s) → e ∈ dom_capabilities s).
  { intros i e. unfold list_remove_at. rewrite elem_of_app. intros [He|He].
    - rewrite <- (take_drop i (dom_capabilities s)). set_solver.
    - rewrite <- (take_drop (S i) (dom_capabilities s)). set_solver. }
  destruct (position _ _) as [i|]; [|destruct (position _ _) as [i|]; [|by intros; guards]].
  all: intros; guards; apply (inv_set_domains f M); [done| |apply Hi].
  all: intros d' s' e' Hl He'; apply lookup_insert_Some in Hl as [[<- <-]|[_ Hl]]; [|by eapply fi_caps].
  all: cbn in He'; eapply (fi_caps f M Hi); eauto.
Qed.

Section preservation.
Context `{Profile}.

Lemma create_domain_inv f M f' d : fab_inv f M → create_domain f = Done (f', d) → fab_inv f' M.
Proof.
  intros Hi Hc. unfold create_domain in Hc. run_binds Hc. guards.
  apply (inv_domains f _ M M); try done; [|apply Hi].
  cbn. intros d' s e Hl He. apply lookup_insert_Some in Hl as [[<- <-]|[_ Hl]]; [set_solver|by eapply fi_caps].
Qed.

Lemma destroy_domain_inv f M d : fab_inv f M → fab_inv (destroy_domain f d) M.
Proof.
  intros Hi. apply (inv_set_domains f M); [done| |apply Hi].
  intros d' s e Hl He. apply lookup_delete_Some in Hl as [_ Hl]. by eapply fi_caps.
Qed.

Lemma derive_inv_preserved f M M' d p off len q f' c :
  fab_inv f M → cap_wx p → derive f d p off len q = Some (f', c) →
  (∀ x, x ∈ M' → cap_wx x) → fab_inv f' M' ∧ cap_wx c.
Proof.
  intros Hi Hp (->&_&Hs&_&Hpush)%derive_inv Hm.
  pose proof (attenuated_wx p off len q Hp Hs). split; [|done].
  by apply (inv_push_capability f M _ _ _ M' Hi) in Hpush.
Qed.

Lemma delegate_fresh_inv f M p off len q f' x :
  fab_inv f M → cap_wx p → delegate_into_fresh f p off len q = Done (f', x) → fab_inv f' M.
Proof.
  intros Hi Hp Hd. unfold delegate_into_fresh in Hd.
  destruct (create_domain f) as [[f1 d]|] eqn:Hc; [|done]. cbn [mbind outcome_bind] in Hd.
  pose proof (create_domain_inv _ _ _ _ Hi Hc) as Hi1.
  destruct (derive f1 d p off len q) as [[f2 c]|] eqn:Hder; guards.
  - by destruct (derive_inv_preserved _ _ M _ _ _ _ _ _ _ Hi1 Hp Hder (fi_minted f M Hi)).
  - by apply destroy_domain_inv.
Qed.

Lemma find_cap_wx f M d o off len q p :
  fab_inv f M → find_authorizing_cap f d o off len q = Some p → cap_wx p.
Proof.
  intros Hi Hf. unfold find_authorizing_cap in Hf. destruct (fab_domains f !! d) as [s|] eqn:Hs; [|done].
  simpl in Hf. apply find_some in Hf as [Hin _]. apply list_elem_of_In, list_elem_of_fmap in Hin as (e&->&He).
  by eapply fi_caps.
Qed.

Lemma find_authority_wx f M d id p : fab_inv f M → find_authority f d id = Some p → cap_wx p.
Proof. intros Hi (s&e&Hs&He&<-&_)%find_authority_Some. by eapply fi_caps. Qed.
End preservation.

Section reachable.
Context `{Profile}.

Lemma inv_other f f' M :
  fab_inv f M → fab_objects f' = fab_objects f → fab_placement f' = fab_placement f →
  fab_next_object_id f' = fab_next_object_id f → fab_domains f' = fab_domains f → fab_inv f' M.
Proof. intros Hi Ho Hp Hn Hd. apply (inv_domains f f' M M); try done; rewrite ?Hd; apply Hi. Qed.

Lemma minted_cons M c : (∀ x, x ∈ M → cap_wx x) → cap_wx c → ∀ x, x ∈ c :: M → cap_wx x.
Proof. set_solver. Qed.

Lemma step_grant_inv f M d e f' c :
  fab_inv f M → cap_wx c → entry_cap e = c → push_capability f d e = Some f' → fab_inv f' (c :: M).
Proof.
  intros Hi Hc He Hp. subst c. apply (inv_push_capability f M _ _ _ (entry_cap e :: M) Hi Hc Hp).
  apply minted_cons; [apply Hi|done].
Qed.

Lemma delegate_inv f M s o off len q f' x :
  fab_inv f M → delegate_dma_span f s o off len q = Done (f', x) → fab_inv f' M.
Proof.
  intros Hi Hd. unfold delegate_dma_span in Hd.
  repeat case_match; guards; try done. eapply delegate_fresh_inv; [done| |done].
  by eapply find_cap_wx.
Qed.

Lemma delegate_id_inv f M s sid o off len q f' x :
  fab_inv f M → delegate_dma_span_from_authority_id f s sid o off len q = Done (f', x) → fab_inv f' M.
Proof.
  intros Hi Hd. unfold delegate_dma_span_from_authority_id in Hd.
  repeat case_match; guards; try done. eapply delegate_fresh_inv; [done| |done].
  by eapply find_authority_wx.
Qed.

Lemma device_inv f M s sid o g rights d q id x f' :
  fab_inv f M → derive_device_from_authority_id f s sid o g rights d q id = Some (f', x) → fab_inv f' M.
Proof.
  intros Hi. unfold derive_device_from_authority_id.
  destruct (find_device f s sid) as [e|]; [|done]. simpl.
  destruct (negb _); [done|]. destruct (negb _); [done|]. destruct (negb _); [done|].
  destruct (fab_objects f !! o) as [obj|]; [|done]. simpl.
  destruct (negb _); [done|]. destruct (negb _); [done|]. destruct (negb _); [done|].
  destruct (negb _); [done|]. destruct (has_authority_id _ _ _); [done|].
  destruct (push_device _ _ _) as [g'|] eqn:Hp; [|done]. simpl. intros. guards.
  by eapply inv_push_device.
Qed.

Lemma grant_device_inv f M d o rights id f' :
  fab_inv f M → grant_device_with_authority_id f d o rights id = Some f' → fab_inv f' M.
Proof.
  intros Hi. unfold grant_device_with_authority_id. destruct (private_heap_object f o); [done|].
  destruct (fab_objects f !! o) as [obj|]; [|done]. simpl.
  destruct (negb _); [done|]. destruct (negb _); [done|]. destruct (has_authority_id _ _ _); [done|].
  intros Hp. by eapply inv_push_device.
Qed.

Lemma step_inv f M f' M' : fab_inv f M → fab_step f M f' M' → fab_inv f' M'.
Proof.
  intros Hi Hs. pose proof (fi_minted f M Hi) as Hm. destruct Hs.
  - by eapply alloc_inv.
  - by eapply place_inv_preserved.
  - by apply revoke_inv.
  - by eapply seal_inv.
  - by eapply create_domain_inv.
  - by apply destroy_domain_inv.
  - by apply destroy_inv.
  - by eapply rollback_inv.
  - by apply (inv_other f).
  - match goal with E : grant _ _ _ _ _ _ = _ |- _ => apply grant_inv in E as (obj&Ho&_&Hg&->&Hp&_) end.
    refine (step_grant_inv f M _ _ _ _ Hi _ eq_refl Hp). by eapply granted_wx.
  - match goal with E : grant_with_authority_id _ _ _ _ _ _ _ = _ |- _ =>
      apply grant_id_inv in E as (obj&Ho&Hg&_&->&Hp) end.
    refine (step_grant_inv f M _ _ _ _ Hi _ eq_refl Hp). by eapply granted_wx.
  - by eapply remove_inv.
  - match goal with E : derive _ _ _ _ _ _ = _ |- _ => apply derive_inv in E as (->&_&Hs&_&Hp) end.
    refine (step_grant_inv f M _ _ _ _ Hi _ eq_refl Hp). apply attenuated_wx; [|done].
    by auto.
  - match goal with E : derive_from_authority_id _ _ _ _ _ _ _ _ = _ |- _ =>
      apply derive_from_inv in E as (q'&Hf&Hs&_&->&Hp) end.
    refine (step_grant_inv f M _ _ _ _ Hi _ eq_refl Hp). apply attenuated_wx; [by eapply find_authority_wx|done].
  - by eapply device_inv.
  - by eapply grant_device_inv.
  - by eapply delegate_inv.
  - by eapply delegate_id_inv.
  - match goal with E : alloc_authority_id _ = _ |- _ => unfold alloc_authority_id in E end.
    destruct (checked_add _ _); [|done]. simpl in *. guards. by apply (inv_other f).
  - by apply (inv_other f).
  - eapply inv_same; [by eapply initialize_object_same|done].
  - eapply inv_same; [by eapply zero_object_extent_same|done].
  - eapply inv_same; [by eapply zero_physical_same|done].
  - eapply inv_same; [by eapply try_write_physical_same|done].
  - eapply inv_same; [by eapply submit_same|done].
  - eapply inv_same; [by eapply advance_same|done].
  - eapply inv_same; [by eapply execute_write_same|done].
  - eapply inv_same; [by eapply execute_read_same|done].
  - eapply inv_same; [by eapply execute_xchg_same|done].
  - match goal with E : discard_completed_compiler_trace _ = _ |- _ =>
      unfold discard_completed_compiler_trace in E end.
    destruct (existsb _ _); guards; [done|]. by apply (inv_other f).
  - match goal with E : calm _ _ |- _ => destruct E end. by apply (inv_other f).
  - match goal with E : held _ _ |- _ => destruct E as (d&s&e&Hd&He&<-) end.
    pose proof (fi_caps f M Hi d s e Hd He). destruct Hi. split; try done. intros c [->|]%elem_of_cons; auto.
Qed.

(** ** The registry along the steps *)
Abbreviation same_registry f f' := (fab_scoped_pointers f' = fab_scoped_pointers f).

Lemma push_registry f d e f' : push_capability f d e = Some f' → same_registry f f'.
Proof. unfold push_capability. intros E. walk E. by guards. Qed.
Lemma push_device_registry f d e f' : push_device f d e = Some f' → same_registry f f'.
Proof. unfold push_device. intros E. walk E. by guards. Qed.
Lemma create_registry f f' d : create_domain f = Done (f', d) → same_registry f f'.
Proof. unfold create_domain. intros E. walk E. by guards. Qed.
Lemma delegate_fresh_registry f p off len q f' x : delegate_into_fresh f p off len q = Done (f', x) → same_registry f f'.
Proof.
  unfold delegate_into_fresh. intros E. destruct (create_domain f) as [[f1 d]|] eqn:Ec; [cbn in E|done].
  apply create_registry in Ec. destruct (derive f1 _ _ _ _ _) as [[f2 c]|] eqn:Ed; guards; [|done].
  apply derive_inv in Ed as (_&_&_&_&Hp). apply push_registry in Hp. congruence.
Qed.

Lemma step_registry f M f' M' : fab_step f M f' M' → evolves (fab_scoped_pointers f) (fab_scoped_pointers f').
Proof.
  assert (∀ g g', same_registry g g' → evolves (fab_scoped_pointers g) (fab_scoped_pointers g')) as Hsame.
  { intros g g' E. by rewrite E. }
  destruct 1.
  all: try (match goal with E : calm _ _ |- _ => apply registry_run_evolves, E end).
  all: try (apply registry_run_evolves, cm_registry, same_auth_calm;
    first [by eapply initialize_object_same|by eapply zero_object_extent_same|by eapply zero_physical_same
          |by eapply try_write_physical_same|by eapply submit_same|by eapply advance_same|by eapply execute_write_same
          |by eapply execute_read_same|by eapply execute_xchg_same]).
  all: apply Hsame; try done.
  all: match goal with
    | E : alloc_object _ _ _ _ = _ |- _ => unfold alloc_object, try_alloc_object in E; walk E; guards; unfold unwrap in E; walk E
    | E : place_object _ _ _ = _ |- _ => unfold place_object in E; walk E
    | E : seal_object _ _ = _ |- _ => unfold seal_object in E; walk E
    | E : rollback_unpublished_object _ _ = _ |- _ => unfold rollback_unpublished_object in E; walk E
    | E : remove_by_authority_id _ _ _ = _ |- _ => unfold remove_by_authority_id in E; walk E
    | E : create_domain _ = _ |- _ => apply create_registry in E
    | E : grant _ _ _ _ _ _ = _ |- _ => apply grant_inv in E as (?&_&_&_&_&E&_); apply push_registry in E
    | E : grant_with_authority_id _ _ _ _ _ _ _ = _ |- _ => apply grant_id_inv in E as (?&_&_&_&_&E); apply push_registry in E
    | E : derive _ _ _ _ _ _ = _ |- _ => apply derive_inv in E as (_&_&_&_&E); apply push_registry in E
    | E : derive_from_authority_id _ _ _ _ _ _ _ _ = _ |- _ =>
        apply derive_from_inv in E as (?&_&_&_&_&E); apply push_registry in E
    | E : derive_device_from_authority_id _ _ _ _ _ _ _ _ _ = _ |- _ => unfold derive_device_from_authority_id in E; walk E
    | E : grant_device_with_authority_id _ _ _ _ _ = _ |- _ => unfold grant_device_with_authority_id in E; walk E
    | E : delegate_dma_span _ _ _ _ _ _ = _ |- _ => unfold delegate_dma_span in E; walk E
    | E : delegate_dma_span_from_authority_id _ _ _ _ _ _ _ = _ |- _ => unfold delegate_dma_span_from_authority_id in E; walk E
    | E : alloc_authority_id _ = _ |- _ => unfold alloc_authority_id in E; walk E
    | E : discard_completed_compiler_trace _ = _ |- _ => unfold discard_completed_compiler_trace in E; walk E
    | |- _ => unfold revoke, destroy_object; cases_goal
    end; guards; try done.
  all: try by eapply push_device_registry.
  all: try by eapply delegate_fresh_registry.
  - match goal with E : _ = Done (Some _) |- _ => walk E; guards end. done.
  - by destruct (bool_decide _).
Qed.

Lemma init_inv mem reg heap : fab_inv (from_parts mem reg heap) [].
Proof. split; cbn; try (set_solver || done). Qed.

Lemma reach_inv f M : fab_reach f M → fab_inv f M.
Proof. induction 1; [apply init_inv|by eapply step_inv]. Qed.
Lemma reach_registry f M : fab_reach f M → reg_wf (fab_scoped_pointers f).
Proof. induction 1 as [|f M f' M' _ IH Hs]; [done|]. by apply step_registry in Hs as []. Qed.
End reachable.
