(* ===== verification/FabricSafety.v ===== *)
(** * Safety of reachable fabrics

    W^X across all domains, isolation of objects under complete accesses,
    immutability of sealed objects, permanence of revocation, and what the
    commit gate does and does not recheck when the phases of a transaction
    are interleaved with moves. *)

From S2P Require Import Prelude State Extents Registry PointerFrames Fabric FabricTx.
From S2P Require Import RegistrySafety FabricAuth FabricInv.

(** ** W^X *)
Lemma authorized_cap f r g :
  authorize f r = AuthAuthorized g →
  ∃ d s e, fab_domains f !! d = Some s ∧ e ∈ dom_capabilities s ∧
    validate f (entry_cap e) = true ∧
    covers (entry_cap e) (req_object r) (req_offset r) (req_length r)
      (required_permission (req_kind r)) = true.
Proof.
  intros (_&(s&e&?&?&?&?)&_)%authorize_sound. by exists (ctx_domain (req_context r)), s, e.
Qed.

Lemma valid_cap_allowed f M d s e :
  fab_inv f M → fab_domains f !! d = Some s → e ∈ dom_capabilities s →
  validate f (entry_cap e) = true →
  ∃ o, fab_objects f !! cap_object (entry_cap e) = Some o ∧ alive (obj_state o) = true ∧
    grant_allowed (obj_state o) (cap_permissions (entry_cap e)) = true.
Proof.
  intros Hi Hd He (_&o&Ho&Hal&Hg&_)%validate_true. exists o. split_and!; [done..|].
  destruct (fi_objects f M Hi _ o Ho) as [_ _ _ Ha Hs].
  destruct (fi_caps f M Hi d s e Hd He) as [[Hz Hp]|[Hz Hp]];
    destruct (obj_state o); try done; (specialize (Ha eq_refl) || specialize (Hs eq_refl)); lia.
Qed.

Lemma authorized_allowed f M r g :
  fab_inv f M → authorize f r = AuthAuthorized g →
  ∃ o p, fab_objects f !! req_object r = Some o ∧ grant_allowed (obj_state o) p = true ∧
    Perm.contains p (required_permission (req_kind r)) = true.
Proof.
  intros Hi (d&s&e&Hd&He&Hv&Hc)%authorized_cap.
  destruct (valid_cap_allowed f M d s e Hi Hd He Hv) as (o&Ho&_&Hg).
  apply covers_spec in Hc as (Hco&_&Hp&_). rewrite Hco in Ho.
  by exists o, (cap_permissions (entry_cap e)).
Qed.

Section safety.
Context `{Profile}.

(** C1: W^X holds across the whole machine: in every reachable fabric no object is
    at the same time fetchable by some request and writable or exchangeable by
    another, whatever the two domains, agents and spans are. *)
Theorem wx_exclusive f M rx rw gx gw :
  fab_reach f M → req_object rx = req_object rw → req_kind rx = Fetch →
  is_mutating (req_kind rw) = true →
  authorize f rx = AuthAuthorized gx → authorize f rw ≠ AuthAuthorized gw.
Proof.
  intros Hr Ho Hx Hw Hax Haw. apply reach_inv in Hr as Hi.
  destruct (authorized_allowed f M rx gx Hi Hax) as (o&p&Hop&Hg&Hp).
  destruct (authorized_allowed f M rw gw Hi Haw) as (o'&p'&Hop'&Hg'&Hp').
  rewrite Ho, Hop' in Hop. simplify_eq. rewrite Hx in Hp. simpl in Hp.
  destruct (obj_state o); simpl in Hg, Hg'; try done.
  - by rewrite Hp in Hg.
  - bools. destruct (req_kind rw); simpl in *; congruence.
Qed.

(** ** Isolation *)

(** The bytes of a placed object. *)
Definition obj_bytes (f : Fabric) (k : ObjectId) : option (list Z) :=
  b ← fab_placement f !! k; o ← fab_objects f !! k; Some (slice b (obj_size o) (fab_memory f)).

Lemma inv_placement_wf f M : fab_inv f M → placement_wf f.
Proof. intros Hi o b Hb. by destruct (fi_placed f M Hi o b Hb). Qed.

(** The span of a granted access lies inside the named object. *)
Lemma access_span_inside f M r d b e :
  fab_inv f M → request_wf r → access_check f r d = Ok (b, e) →
  ∃ base o, fab_placement f !! req_object r = Some base ∧ fab_objects f !! req_object r = Some o ∧
    alive (obj_state o) = true ∧ base ≤ b ∧ b < e ∧ e ≤ base + obj_size o.
Proof.
  intros Hi Hr Hok. pose proof (inv_placement_wf f M Hi) as Hp.
  destruct (access_check_span _ _ _ _ _ Hp Hr Hok) as (?&?&?&?&?&Ht&[g Ha]&_).
  apply translate_Some in Ht as (base&Hb&->&_); [|done|apply Hr].
  apply authorize_sound in Ha as (_&_&o&Ho&?&_&?). exists base, o.
  destruct Hr as [Hoff _]. unfold is_u64 in Hoff. split_and!; done || lia.
Qed.

Lemma obj_bytes_splice f M k j b e d base o :
  fab_inv f M → k ≠ j → fab_placement f !! j = Some base → fab_objects f !! j = Some o →
  alive (obj_state o) = true → base ≤ b → e ≤ base + obj_size o → zlen d = e - b →
  (∃ q, fab_objects f !! k = Some q ∧ alive (obj_state q) = true) →
  obj_bytes (abstract_write f b e d) k = obj_bytes f k.
Proof.
  intros Hi Hne Hb Ho Hal Hlo Hhi Hlen (q&Hq&Hqa). unfold obj_bytes. cbn.
  destruct (fab_placement f !! k) as [c|] eqn:Hc; [|done]. rewrite Hq. simpl. f_equal.
  destruct (fi_placed f M Hi k c Hc) as ([??]&_). destruct (fi_placed f M Hi j base Hb) as ([??]&_).
  pose proof (ow_size _ _ _ (fi_objects f M Hi k q Hq)) as [??].
  pose proof (fi_disjoint f M Hi k j c base q o Hne Hc Hq Hqa Hb Ho Hal) as Hd.
  apply slice_splice_disjoint; [lia..|]. unfold disjoint_spans in Hd. unfold zlen in Hlen. lia.
Qed.

(** The memory effect of any complete access, in one form. *)
Lemma execute_write_memory f M r d f' x :
  fab_inv f M → request_wf r → execute_write f r d = Done (f', x) →
  (fab_memory f' = fab_memory f ∧ same_auth f f') ∨
  (same_auth f f' ∧ is_mutating (req_kind r) = true ∧
   ∃ b e, access_check f r (Some d) = Ok (b, e) ∧ zlen d = e - b ∧
     fab_memory f' = fab_memory (abstract_write f b e d)).
Proof.
  intros Hi Hr Hx. pose proof (inv_placement_wf f M Hi) as Hp.
  pose proof (execute_write_same _ _ _ _ _ Hx) as Hsame.
  destruct (add_u64 (fab_next_tx_id f) 1) as [n|] eqn:Hn.
  2:{ unfold execute_write, submit in Hx. by rewrite Hn in Hx. }
  destruct (access_check f r (Some d)) as [[b e]|reason] eqn:Hc.
  - destruct (is_mutating (req_kind r)) eqn:Hk.
    + right. destruct (execute_write_Ok _ _ _ _ _ _ Hp Hr Hk Hn Hc) as (g&_&He).
      destruct (access_check_span _ _ _ _ _ Hp Hr Hc) as (?&?&?&?&?&_&_&_&Hm).
      destruct (Hm Hk) as (d'&[= <-]&?). split_and!; [done..|]. exists b, e.
      split_and!; [done|lia|]. by replace f' with (log_tx (abstract_write f b e d) n (committed_tx f r (Some d) g b)) by congruence.
    + left. split; [|done]. destruct (run_tx_Ok _ _ _ _ _ _ Hp Hr Hn Hc) as (g&_&Hrun).
      rewrite execute_write_unfold, Hrun, Hk in Hx. cbn [mbind outcome_bind fst snd] in Hx.
      rewrite get_log_tx in Hx by done. unfold committed_tx in Hx. rewrite Hk in Hx. cbn in Hx. by guards.
  - left. split; [|done]. destruct (execute_write_Err _ _ _ _ _ Hp Hr Hn Hc) as (s&rec&_&He).
    by replace f' with (log_fault f n (faulted s reason) rec) by congruence.
Qed.

Lemma execute_xchg_memory f M r d f' x :
  fab_inv f M → request_wf r → is_mutating (req_kind r) = true →
  execute_atomic_xchg f r d = Done (f', x) →
  (fab_memory f' = fab_memory f ∧ same_auth f f') ∨
  (same_auth f f' ∧ is_mutating (req_kind r) = true ∧
   ∃ b e, access_check f r (Some d) = Ok (b, e) ∧ zlen d = e - b ∧
     fab_memory f' = fab_memory (abstract_write f b e d)).
Proof.
  intros Hi Hr Hk Hx. pose proof (inv_placement_wf f M Hi) as Hp.
  pose proof (execute_xchg_same _ _ _ _ _ Hx) as Hsame.
  destruct (add_u64 (fab_next_tx_id f) 1) as [n|] eqn:Hn.
  2:{ unfold execute_atomic_xchg, submit in Hx. by rewrite Hn in Hx. }
  pose proof (execute_xchg_cases f r d n Hp Hr Hk Hn) as Hcases.
  destruct (access_check f r (Some d)) as [[b e]|reason] eqn:Hc.
  - right. destruct Hcases as (t&_&_&He).
    destruct (access_check_span _ _ _ _ _ Hp Hr Hc) as (?&?&?&?&?&_&_&_&Hm).
    destruct (Hm Hk) as (d'&[= <-]&?). split_and!; [done..|]. exists b, e.
    split_and!; [done|lia|]. by replace f' with (log_tx (abstract_write f b e d) n t) by congruence.
  - left. split; [|done]. destruct Hcases as (t&rec&_&_&He).
    by replace f' with (log_fault f n t rec) by congruence.
Qed.

(** A complete mutating access, by either entry point. *)
Definition accesses (f : Fabric) (r : MemoryRequest) (d : list Z) (f' : Fabric) : Prop :=
  (∃ x, execute_write f r d = Done (f', x)) ∨
  (is_mutating (req_kind r) = true ∧ ∃ x, execute_atomic_xchg f r d = Done (f', x)).

Lemma accesses_memory f M r d f' :
  fab_inv f M → request_wf r → accesses f r d f' →
  (fab_memory f' = fab_memory f ∧ same_auth f f') ∨
  (same_auth f f' ∧ is_mutating (req_kind r) = true ∧
   ∃ b e, access_check f r (Some d) = Ok (b, e) ∧ zlen d = e - b ∧
     fab_memory f' = fab_memory (abstract_write f b e d)).
Proof.
  intros Hi Hr [[x Hx]|[Hk [x Hx]]];
    [by eapply execute_write_memory|by eapply execute_xchg_memory].
Qed.

Lemma obj_bytes_same f f' k :
  same_auth f f' → fab_memory f' = fab_memory f → obj_bytes f' k = obj_bytes f k.
Proof. intros [] Hm. destruct f, f'. cbn in *. by subst. Qed.

Lemma obj_bytes_memory f f' g k :
  same_auth f f' → fab_memory f' = fab_memory g → fab_placement g = fab_placement f →
  fab_objects g = fab_objects f → obj_bytes f' k = obj_bytes g k.
Proof. intros [] Hm Hp Ho. destruct f, f', g. cbn in *. by subst. Qed.

(** C6: Objects are isolated: in every reachable fabric a complete write or exchange
    that names one object leaves the bytes of every other live object unchanged,
    whether it succeeds or faults. *)
Theorem access_isolated f M r d f' k q :
  fab_reach f M → request_wf r → accesses f r d f' → k ≠ req_object r →
  fab_objects f !! k = Some q → alive (obj_state q) = true → obj_bytes f' k = obj_bytes f k.
Proof.
  intros Hreach Hr Hx Hne Hq Hal. apply reach_inv in Hreach as Hi.
  destruct (accesses_memory f M r d f' Hi Hr Hx) as [[Hm Hs]|(Hs&_&b&e&Hc&Hlen&Hm)].
  { by apply obj_bytes_same. }
  rewrite (obj_bytes_memory f f' (abstract_write f b e d)) by done.
  destruct (access_span_inside f M r _ b e Hi Hr Hc) as (base&o&Hb&Ho&Hoa&?&?&?).
  eapply (obj_bytes_splice f M k (req_object r)); eauto.
Qed.

Lemma mutating_not_sealed f M r d b e o :
  fab_inv f M → request_wf r → is_mutating (req_kind r) = true →
  access_check f r (Some d) = Ok (b, e) → fab_objects f !! req_object r = Some o →
  obj_state o ≠ Sealed.
Proof.
  intros Hi Hr Hk Hc Ho Hse.
  destruct (access_check_span _ _ _ _ _ (inv_placement_wf f M Hi) Hr Hc) as (_&_&_&_&_&_&[g Ha]&_).
  destruct (authorized_allowed f M r g Hi Ha) as (o'&p&Ho'&Hg&Hp). simplify_eq.
  rewrite Hse in Hg. simpl in Hg. bools. destruct (req_kind r); simpl in *; congruence.
Qed.

(** The loader's writers touch only the named Active object. *)
Lemma initialize_memory f M id off d f' b :
  fab_inv f M → 0 ≤ off → initialize_object f id off d = Done (f', b) →
  fab_memory f' = fab_memory f ∨
  ∃ base o, fab_placement f !! id = Some base ∧ fab_objects f !! id = Some o ∧
    obj_state o = Active ∧ off + zlen d ≤ obj_size o ∧ base + off + zlen d ≤ mem_len f ∧ b = true ∧
    fab_memory f' = splice (base + off) d (fab_memory f).
Proof.
  intros Hi Hoff Hx. unfold initialize_object in Hx.
  destruct (private_heap_object f id); [guards; by left|].
  destruct (fab_objects f !! id) as [o|] eqn:Ho; [|guards; by left].
  destruct (decide (obj_state o = Active)) as [Ha|Ha];
    [rewrite bool_decide_eq_true_2 in Hx by done|rewrite bool_decide_eq_false_2 in Hx by done];
    simpl in Hx; [|guards; by left].
  destruct (obj_size o <? zlen d) eqn:H1; [guards; by left|].
  destruct (obj_size o - zlen d <? off) eqn:H2; [guards; by left|].
  destruct (fab_placement f !! id) as [base|] eqn:Hb; [|guards; by left].
  destruct (checked_add base off) as [st|] eqn:Hst; [|guards; by left].
  destruct (checked_add st (zlen d)) as [en|] eqn:Hen; [|guards; by left].
  destruct (negb (en <=? mem_len f)) eqn:Hm; [guards; by left|].
  destruct (heap_pool_overlaps _ _ _); [guards; by left|].
  apply checked_add_Some in Hst as [_ ->], Hen as [_ ->].
  destruct (clear_pointer_cells_physical _ _ _) as [f1|] eqn:Hcl; [|done]. cbn [mbind outcome_bind] in Hx.
  destruct (mem_write _ _ _ _) as [f2|] eqn:Hw; [|done]. cbn [mbind outcome_bind] in Hx. guards. bools.
  right. exists base, o. split_and!; try (done || lia).
  unfold mem_write in Hw. destruct (_ && _); [|done]. guards. cbn.
  unfold clear_pointer_cells_physical in Hcl. destruct (zlen d =? 0); [by guards|].
  destruct (checked_add _ _); [|done]. simpl in Hcl. by guards.
Qed.

Lemma zero_extent_memory f id f' b :
  zero_object_extent f id = Done (f', b) →
  (b = false ∧ f' = f) ∨
  ∃ base o, fab_placement f !! id = Some base ∧ fab_objects f !! id = Some o ∧
    obj_state o = Active ∧ base + obj_size o ≤ mem_len f ∧ b = true ∧
    fab_memory f' = splice base (replicate (Z.to_nat (obj_size o)) 0) (fab_memory f).
Proof.
  intros Hx. unfold zero_object_extent in Hx.
  destruct (private_heap_object f id); [guards; by left|].
  destruct (fab_objects f !! id) as [o|] eqn:Ho; [|guards; by left].
  destruct (decide (obj_state o = Active)) as [Ha|Ha];
    [rewrite bool_decide_eq_true_2 in Hx by done|rewrite bool_decide_eq_false_2 in Hx by done];
    simpl in Hx; [|guards; by left].
  destruct (fab_placement f !! id) as [base|] eqn:Hb; [|guards; by left].
  destruct (checked_add base (obj_size o)) as [en|] eqn:Hen; [|guards; by left].
  destruct (negb (en <=? mem_len f)) eqn:Hm; [guards; by left|].
  destruct (heap_pool_overlaps _ _ _); [guards; by left|].
  apply checked_add_Some in Hen as [_ ->].
  destruct (clear_pointer_cells_physical _ _ _) as [f1|] eqn:Hcl; [|done]. cbn [mbind outcome_bind] in Hx.
  destruct (mem_fill _ _ _) as [f2|] eqn:Hw; [|done]. cbn [mbind outcome_bind] in Hx. guards. bools.
  right. exists base, o. split_and!; try (done || lia).
  unfold mem_fill, mem_write in Hw. destruct (_ && _); [|done]. guards. cbn.
  replace (base + obj_size o - base) with (obj_size o) by lia.
  unfold clear_pointer_cells_physical in Hcl. destruct (obj_size o =? 0); [by guards|].
  destruct (checked_add _ _); [|done]. simpl in Hcl. by guards.
Qed.

(** Every writer of object contents: guest accesses and the loader's two. *)
Inductive object_writer (f : Fabric) : Fabric → Prop :=
| ow_access r d f' : request_wf r → accesses f r d f' → object_writer f f'
| ow_initialize id off d b f' : 0 ≤ off → initialize_object f id off d = Done (f', b) → object_writer f f'
| ow_zero id b f' : zero_object_extent f id = Done (f', b) → object_writer f f'.

(** C4: Sealing freezes contents: in every reachable fabric no guest write, exchange,
    loader initialization or loader zeroing, through any domain and naming any
    object, changes a byte of a sealed object. *)
Theorem sealed_immutable f M k q f' :
  fab_reach f M → fab_objects f !! k = Some q → obj_state q = Sealed →
  object_writer f f' → obj_bytes f' k = obj_bytes f k.
Proof.
  intros Hreach Hq Hse Hw. apply reach_inv in Hreach as Hi.
  assert (Hqa : ∃ q, fab_objects f !! k = Some q ∧ alive (obj_state q) = true).
  { exists q. by rewrite Hse. }
  destruct Hw as [r d f' Hr Hx|id off d b f' Hoff Hx|id b f' Hx].
  - destruct (accesses_memory f M r d f' Hi Hr Hx) as [[Hm Hs]|(Hs&Hk&b&e&Hc&Hlen&Hm)].
    { by apply obj_bytes_same. }
    rewrite (obj_bytes_memory f f' (abstract_write f b e d)) by done.
    destruct (access_span_inside f M r _ b e Hi Hr Hc) as (base&o&Hb&Ho&Hoa&?&?&?).
    eapply (obj_bytes_splice f M k (req_object r)); eauto.
    intros ->. by apply (mutating_not_sealed f M r d b e q).
  - pose proof (initialize_object_same _ _ _ _ _ _ Hx) as Hs.
    destruct (initialize_memory f M id off d f' b Hi Hoff Hx) as [Hm|(base&o&Hb&Ho&Ha&?&?&_&Hm)].
    { by apply obj_bytes_same. }
    rewrite (obj_bytes_memory f f' (abstract_write f (base + off) (base + off + zlen d) d)) by done.
    eapply (obj_bytes_splice f M k id _ _ _ base o); eauto; try lia; [congruence|by rewrite Ha].
  - pose proof (zero_object_extent_same _ _ _ _ Hx) as Hs.
    destruct (zero_extent_memory f id f' b Hx) as [[_ ->]|(base&o&Hb&Ho&Ha&?&_&Hm)]; [done|].
    pose proof (ow_size _ _ _ (fi_objects f M Hi id o Ho)) as [? _].
    rewrite (obj_bytes_memory f f' (abstract_write f base (base + obj_size o)
      (replicate (Z.to_nat (obj_size o)) 0))) by done.
    eapply (obj_bytes_splice f M k id _ _ _ base o); eauto; [congruence|by rewrite Ha|lia..|].
    unfold zlen. rewrite length_replicate. lia.
Qed.

(** ** Revocation *)

(** An identity that was used and no longer names a live object. *)
Definition dead (f : Fabric) (k : ObjectId) : Prop :=
  0 ≤ k < fab_next_object_id f ∧ ∀ o, fab_objects f !! k = Some o → alive (obj_state o) = false.

Lemma dead_denied f k r g : dead f k → req_object r = k → authorize f r ≠ AuthAuthorized g.
Proof.
  intros [_ Hd] Hr Ha. apply authorize_sound in Ha as (_&_&o&Ho&Hal&_).
  rewrite Hr in Ho. rewrite (Hd o Ho) in Hal. done.
Qed.

Lemma dead_other f f' k :
  fab_objects f' = fab_objects f → fab_next_object_id f' = fab_next_object_id f →
  dead f k → dead f' k.
Proof. unfold dead. intros -> ->. done. Qed.

Lemma dead_insert f k j o' n :
  dead f k → fab_next_object_id f ≤ n → (k = j → alive (obj_state o') = false) →
  dead (set_fab_next_object_id n (set_fab_objects (<[j := o']> (fab_objects f)) f)) k.
Proof.
  intros [Hk Hd] Hn Ho. split; cbn; [lia|]. intros o Hl.
  apply lookup_insert_Some in Hl as [[<- <-]|[_ Hl]]; auto.
Qed.

Lemma dead_alloc f k name size kind id f' :
  dead f k → alloc_object f name size kind = Done (f', id) → dead f' k.
Proof.
  intros Hk Ha. unfold alloc_object, try_alloc_object in Ha.
  destruct (next_fresh_object_id f) as [i|] eqn:Hf; [|done]. unfold next_fresh_object_id in Hf.
  destruct (checked_add (fab_next_object_id f) 1) as [n|] eqn:Hn; [|done]. simpl in Hf.
  destruct (_ || _); [done|]. guards. rewrite Hn in Ha. simpl in Ha. guards.
  apply checked_add_Some in Hn as [_ ->]. apply dead_insert; [done|lia|].
  intros ->. destruct Hk as [? _]. lia.
Qed.

Lemma dead_rollback f k id f' b :
  dead f k → rollback_unpublished_object f id = (f', b) → dead f' k.
Proof.
  intros Hk Hr. destruct b; [|by apply rollback_false in Hr as ->].
  apply rollback_true in Hr as (Hn&(o&Ho&Ha)&_&->). destruct Hk as [Hr Hd].
  assert (k ≠ id). { intros ->. specialize (Hd o Ho). by rewrite Ha in Hd. }
  split; cbn; [lia|]. intros o' Hl. apply lookup_delete_Some in Hl as [_ Hl]. auto.
Qed.

Lemma dead_set_object f k j o g st :
  dead f k → fab_objects f !! j = Some o → (alive st = true → alive (obj_state o) = true) →
  dead (set_fab_objects (<[j := set_object_state g st o]> (fab_objects f)) f) k.
Proof.
  intros [Hk Hd] Ho Hs. split; cbn; [done|]. intros o' Hl.
  apply lookup_insert_Some in Hl as [[<- <-]|[_ Hl]]; [|auto].
  cbn. destruct (alive st) eqn:E; [|done]. specialize (Hd o Ho). rewrite Hs in Hd; done.
Qed.

(** Domain and bookkeeping steps leave objects and their counter alone. *)
Lemma push_capability_objects f d e f' :
  push_capability f d e = Some f' →
  fab_objects f' = fab_objects f ∧ fab_next_object_id f' = fab_next_object_id f.
Proof. by intros (s&_&->)%push_capability_Some. Qed.
Lemma push_device_objects f d e f' :
  push_device f d e = Some f' →
  fab_objects f' = fab_objects f ∧ fab_next_object_id f' = fab_next_object_id f.
Proof. unfold push_device. destruct (fab_domains f !! d); [|done]. simpl. intros. by guards. Qed.

Lemma delegate_fresh_objects f p off len q f' x :
  delegate_into_fresh f p off len q = Done (f', x) →
  fab_objects f' = fab_objects f ∧ fab_next_object_id f' = fab_next_object_id f.
Proof.
  unfold delegate_into_fresh, create_domain. destruct (add_u64 _ _); [|done]. cbn [mbind outcome_bind].
  destruct (derive _ _ _ _ _ _) as [[f2 c]|] eqn:Hd; intros; guards; [|done].
  apply derive_inv in Hd as (_&_&_&_&Hp). by apply push_capability_objects in Hp.
Qed.

Lemma device_objects f s sid o g rights d q id x f' :
  derive_device_from_authority_id f s sid o g rights d q id = Some (f', x) →
  fab_objects f' = fab_objects f ∧ fab_next_object_id f' = fab_next_object_id f.
Proof.
  unfold derive_device_from_authority_id. destruct (find_device f s sid) as [e|]; [|done]. simpl.
  destruct (negb _); [done|]. destruct (negb _); [done|]. destruct (negb _); [done|].
  destruct (fab_objects f !! o) as [obj|]; [|done]. simpl.
  destruct (negb _); [done|]. destruct (negb _); [done|]. destruct (negb _); [done|].
  destruct (negb _); [done|]. destruct (has_authority_id _ _ _); [done|].
  destruct (push_device _ _ _) as [g'|] eqn:Hp; [|done]. simpl. intros. guards.
  by apply push_device_objects in Hp.
Qed.

Lemma grant_device_objects f d o rights id f' :
  grant_device_with_authority_id f d o rights id = Some f' →
  fab_objects f' = fab_objects f ∧ fab_next_object_id f' = fab_next_object_id f.
Proof.
  unfold grant_device_with_authority_id. destruct (private_heap_object f o); [done|].
  destruct (fab_objects f !! o) as [obj|]; [|done]. simpl.
  destruct (negb _); [done|]. destruct (negb _); [done|]. destruct (has_authority_id _ _ _); [done|].
  apply push_device_objects.
Qed.

Lemma dead_same f f' k : same_auth f f' → dead f k → dead f' k.
Proof. intros []. by apply dead_other. Qed.

Lemma dead_step f M f' M' k : dead f k → fab_step f M f' M' → dead f' k.
Proof.
  intros Hk Hs. destruct Hs.
  - by eapply dead_alloc.
  - destruct b.
    + match goal with E : place_object _ _ _ = _ |- _ =>
        apply place_inv in E as (o&_&_&_&_&_&?&_&_&?&_) end. by apply (dead_other f).
    + match goal with E : place_object _ _ _ = _ |- _ => by apply place_false in E as -> end.
  - unfold revoke. destruct (private_heap_object f id); [done|].
    destruct (fab_objects _ !! id) as [o|] eqn:Ho; [|done].
    by apply (dead_set_object (forget_object_cells f id)).
  - match goal with E : seal_object _ _ = _ |- _ => unfold seal_object in E; rename E into Hx end.
    destruct (private_heap_object f id); [by guards|].
    destruct (fab_objects f !! id) as [o|] eqn:Ho; [|by guards].
    destruct (bool_decide_reflect (obj_state o = Active)) as [Ha|]; simpl in Hx; guards; [|done].
    apply dead_set_object; [done..|]. by rewrite Ha.
  - match goal with E : create_domain _ = _ |- _ => unfold create_domain in E; rename E into Hx end.
    run_binds Hx. guards. by apply (dead_other f).
  - by apply (dead_other f).
  - unfold destroy_object. destruct (private_heap_object f id); [done|]. destruct Hk as [? Hd].
    split; cbn; [done|]. intros o Hl. apply lookup_delete_Some in Hl as [_ Hl]. auto.
  - by eapply dead_rollback.
  - by apply (dead_other f).
  - match goal with E : grant _ _ _ _ _ _ = _ |- _ => apply grant_inv in E as (?&_&_&_&_&Hp&_) end.
    apply push_capability_objects in Hp as []. by apply (dead_other f).
  - match goal with E : grant_with_authority_id _ _ _ _ _ _ _ = _ |- _ =>
      apply grant_id_inv in E as (?&_&_&_&_&Hp) end.
    apply push_capability_objects in Hp as []. by apply (dead_other f).
  - match goal with E : remove_by_authority_id _ _ _ = _ |- _ => unfold remove_by_authority_id in E end.
    repeat case_match; guards; try done; by apply (dead_other f).
  - match goal with E : derive _ _ _ _ _ _ = _ |- _ => apply derive_inv in E as (_&_&_&_&Hp) end.
    apply push_capability_objects in Hp as []. by apply (dead_other f).
  - match goal with E : derive_from_authority_id _ _ _ _ _ _ _ _ = _ |- _ =>
      apply derive_from_inv in E as (?&_&_&_&_&Hp) end.
    apply push_capability_objects in Hp as []. by apply (dead_other f).
  - match goal with E : derive_device_from_authority_id _ _ _ _ _ _ _ _ _ = _ |- _ =>
      apply device_objects in E as [] end. by apply (dead_other f).
  - match goal with E : grant_device_with_authority_id _ _ _ _ _ = _ |- _ =>
      apply grant_device_objects in E as [] end. by apply (dead_other f).
  - match goal with E : delegate_dma_span _ _ _ _ _ _ = _ |- _ => unfold delegate_dma_span in E end.
    repeat case_match; guards; try done.
    match goal with E : delegate_into_fresh _ _ _ _ _ = _ |- _ => apply delegate_fresh_objects in E as [] end.
    by apply (dead_other f).
  - match goal with E : delegate_dma_span_from_authority_id _ _ _ _ _ _ _ = _ |- _ =>
      unfold delegate_dma_span_from_authority_id in E end.
    repeat case_match; guards; try done.
    match goal with E : delegate_into_fresh _ _ _ _ _ = _ |- _ => apply delegate_fresh_objects in E as [] end.
    by apply (dead_other f).
  - match goal with E : alloc_authority_id _ = _ |- _ => unfold alloc_authority_id in E end.
    destruct (checked_add _ _); [|done]. simpl in *. guards. by apply (dead_other f).
  - by apply (dead_other f).
  - eapply dead_same; [by eapply initialize_object_same|done].
  - eapply dead_same; [by eapply zero_object_extent_same|done].
  - eapply dead_same; [by eapply zero_physical_same|done].
  - eapply dead_same; [by eapply try_write_physical_same|done].
  - eapply dead_same; [by eapply submit_same|done].
  - eapply dead_same; [by eapply advance_same|done].
  - eapply dead_same; [by eapply execute_write_same|done].
  - eapply dead_same; [by eapply execute_read_same|done].
  - eapply dead_same; [by eapply execute_xchg_same|done].
  - match goal with E : discard_completed_compiler_trace _ = _ |- _ =>
      unfold discard_completed_compiler_trace in E end.
    destruct (existsb _ _); guards; [done|]. by apply (dead_other f).
  - match goal with E : calm _ _ |- _ => destruct E end. by apply (dead_other f).
  - done.
Qed.

(** Any number of further steps. *)
Inductive fab_steps : Fabric → list Capability64 → Fabric → list Capability64 → Prop :=
| steps_refl f M : fab_steps f M f M
| steps_next f M f' M' f'' M'' :
    fab_step f M f' M' → fab_steps f' M' f'' M'' → fab_steps f M f'' M''.

Lemma dead_steps f M f' M' k : fab_steps f M f' M' → dead f k → dead f' k.
Proof. induction 1; intros Hk; [done|]. by eauto using dead_step. Qed.

Lemma revoke_dead f M id o :
  fab_inv f M → fab_objects f !! id = Some o → private_heap_object f id = false →
  dead (revoke f id) id.
Proof.
  intros Hi Ho Hh. unfold revoke. rewrite Hh. cbn. rewrite Ho. split; cbn.
  - apply (fi_objects f M Hi id o Ho).
  - intros o' Hl. rewrite lookup_insert_eq in Hl. by simplify_eq.
Qed.

(** ** The commit gate under interleaving *)
Lemma fault_tx_inv f i reason f' tx :
  fab_transactions f !! i = Some tx → fault_tx f i reason = Done f' →
  fab_transactions f' = <[i := faulted tx reason]> (fab_transactions f) ∧
  fab_memory f' = fab_memory f.
Proof. intros Ht. unfold fault_tx. rewrite (vec_get_lookup _ _ _ Ht). simpl. intros. by guards. Qed.

(** What the gate has rechecked when it lets a span through. *)
Record gate_passed (f : Fabric) (tx : Transaction) (phys : Z) : Prop := {
  gp_authorized : ∃ g, authorize f (tx_request tx) = AuthAuthorized g;
  gp_captured : tx_physical_address tx = Some phys;
  gp_bounds : phys + req_length (tx_request tx) ≤ mem_len f;
  gp_not_heap : heap_pool_overlaps f phys (req_length (tx_request tx)) = false;
  gp_data : is_mutating (req_kind (tx_request tx)) = true →
    ∃ data, tx_write_data tx = Some data ∧ zlen data = req_length (tx_request tx);
}.

Lemma precommit_cases f i tx f' s :
  fab_transactions f !! i = Some tx → validate_precommit f i = Done (f', s) →
  (s = None ∧ ∃ reason, fault_tx f i reason = Done f') ∨
  (f' = f ∧ ∃ phys, s = Some (phys, phys + req_length (tx_request tx)) ∧ gate_passed f tx phys).
Proof.
  intros Ht. unfold validate_precommit. rewrite (vec_get_lookup _ _ _ Ht). simpl. intros Hv.
  destruct (authorize f (tx_request tx)) as [g|] eqn:Ha; [|run_binds Hv; guards; eauto].
  destruct (tx_physical_address tx) as [phys|] eqn:Hp; [|run_binds Hv; guards; eauto].
  destruct (checked_add _ _) as [e|] eqn:He; [|run_binds Hv; guards; eauto].
  apply checked_add_Some in He as [_ ->].
  destruct (Z.leb_spec (phys + req_length (tx_request tx)) (mem_len f)); simpl in Hv;
    [|run_binds Hv; guards; eauto].
  destruct (heap_pool_overlaps _ _ _) eqn:Hh; [run_binds Hv; guards; eauto|].
  destruct (is_mutating _) eqn:Hm.
  - destruct (tx_write_data tx) as [d|] eqn:Hd; [|run_binds Hv; guards; eauto].
    destruct (Z.eqb_spec (zlen d) (req_length (tx_request tx))); [|run_binds Hv; guards; eauto].
    guards. right. split; [done|]. eexists. split; [done|]. split; eauto.
  - guards. right. split; [done|]. eexists. split; [done|]. split; eauto. by rewrite Hm.
Qed.

Lemma clear_cells_rest f b n f' :
  clear_pointer_cells_physical f b n = Done f' →
  fab_transactions f' = fab_transactions f ∧ fab_memory f' = fab_memory f.
Proof.
  unfold clear_pointer_cells_physical. destruct (n =? 0); [intros; by guards|].
  destruct (checked_add b n); [|done]. simpl. intros. by guards.
Qed.

Lemma commit_write_inv f i tx b e d f' :
  fab_transactions f !! i = Some tx → tx_write_data tx = Some d → commit_write f i b e = Done f' →
  fab_transactions f' = fab_transactions f ∧ fab_memory f' = splice b d (fab_memory f).
Proof.
  intros Ht Hd. unfold commit_write. intros Hc. run_binds Hc.
  match goal with E : clear_pointer_cells_physical _ _ _ = _ |- _ => apply clear_cells_rest in E as [Hx Hm] end.
  match goal with E : vec_get _ _ = _ |- _ =>
    rewrite Hx, (vec_get_lookup _ _ _ Ht) in E; apply (inj Done) in E; subst end.
  rewrite Hd in *. simpl in *. guards. unfold mem_write in Hc.
  destruct (_ && _); [|done]. guards. cbn. by rewrite Hx, Hm.
Qed.

Lemma prepared_denied f i tx f' :
  fab_transactions f !! i = Some tx → tx_state tx = Prepared →
  (∀ g, authorize f (tx_request tx) ≠ AuthAuthorized g) → advance f i = Done f' →
  fab_memory f' = fab_memory f ∧
  ∃ tx', fab_transactions f' = <[i := tx']> (fab_transactions f) ∧ tx_state tx' = Faulted.
Proof.
  intros Ht Hs Hno Ha. unfold advance in Ha. rewrite (vec_get_lookup _ _ _ Ht) in Ha. simpl in Ha.
  rewrite Hs in Ha. unfold phase_commit in Ha.
  destruct (validate_precommit f i) as [[g s]|] eqn:Hv; [|done]. simpl in Ha.
  apply (precommit_cases _ _ _ _ _ Ht) in Hv as [[-> [reason Hf]]|(_&phys&_&Hg)].
  - guards. apply (fault_tx_inv _ _ _ _ _ Ht) in Hf as [-> ->]. eauto.
  - destruct (gp_authorized _ _ _ Hg) as [g' Hg']. by apply Hno in Hg'.
Qed.

Lemma advance_commit f i tx f' :
  fab_transactions f !! i = Some tx → tx_state tx = Prepared → advance f i = Done f' →
  same_auth f f' ∧ ∃ tx', fab_transactions f' = <[i := tx']> (fab_transactions f) ∧
    ((tx_state tx' = Faulted ∧ fab_memory f' = fab_memory f) ∨
     (tx_state tx' = Committed ∧ ∃ phys, gate_passed f tx phys ∧
        if is_mutating (req_kind (tx_request tx))
        then ∃ d, tx_write_data tx = Some d ∧ fab_memory f' = splice phys d (fab_memory f)
        else fab_memory f' = fab_memory f ∧
             tx_read_data tx' = Some (slice phys (req_length (tx_request tx)) (fab_memory f)))).
Proof.
  intros Ht Hs Ha. split; [by eapply advance_same|].
  unfold advance in Ha. rewrite (vec_get_lookup _ _ _ Ht) in Ha. simpl in Ha. rewrite Hs in Ha.
  unfold phase_commit in Ha. destruct (validate_precommit f i) as [[g s]|] eqn:Hv; [|done].
  simpl in Ha. apply (precommit_cases _ _ _ _ _ Ht) in Hv as [[-> [reason Hf]]|(->&phys&->&Hg)].
  - guards. apply (fault_tx_inv _ _ _ _ _ Ht) in Hf as [-> ->]. eexists. split; [done|]. by left.
  - rewrite (vec_get_lookup _ _ _ Ht) in Ha. cbn [mbind outcome_bind] in Ha.
    destruct (is_mutating _) eqn:Hm.
    + destruct (gp_data _ _ _ Hg Hm) as (d&Hd&_). run_binds Ha.
      match goal with E : commit_write _ _ _ _ = _ |- _ =>
        apply (commit_write_inv _ _ _ _ _ _ _ Ht Hd) in E as [Ht' Hmem] end.
      unfold update_tx in Ha. rewrite Ht', (vec_get_lookup _ _ _ Ht) in Ha. simpl in Ha. guards.
      eexists. split; [done|]. right. split; [done|]. by eauto.
    + unfold mem_read in Ha. destruct (_ && _); [|done]. cbn in Ha. unfold update_tx in Ha.
      rewrite (vec_get_lookup _ _ _ Ht) in Ha. cbn in Ha.
      rewrite (vec_get_lookup _ _ (set_tx_read_data _ tx)) in Ha
        by (apply list_lookup_insert_eq; by eapply lookup_lt_Some).
      cbn in Ha. guards. eexists. split; [by rewrite list_insert_insert_eq|]. right.
      split; [done|]. exists phys. split_and!; [done..|]. cbn. do 2 f_equal. lia.
Qed.

(** C25: The commit gate.  However the phases of a transaction are interleaved with
    other fabric operations, advancing a prepared transaction either faults it and
    leaves memory alone, or commits it; it commits only if the request is
    authorized in the CURRENT fabric, the span captured at translation lies in
    memory and outside the private heap pool, and a mutating request carries
    exactly as many bytes as it names.  The commit then writes exactly those bytes
    at the captured address, or reads them.  Nothing else of the authority state
    changes. *)
Theorem commit_gate f i tx f' :
  fab_transactions f !! i = Some tx → tx_state tx = Prepared → advance f i = Done f' →
  same_auth f f' ∧ ∃ tx', fab_transactions f' = <[i := tx']> (fab_transactions f) ∧
    ((tx_state tx' = Faulted ∧ fab_memory f' = fab_memory f) ∨
     (tx_state tx' = Committed ∧ ∃ phys, gate_passed f tx phys ∧
        if is_mutating (req_kind (tx_request tx))
        then ∃ d, tx_write_data tx = Some d ∧ fab_memory f' = splice phys d (fab_memory f)
        else fab_memory f' = fab_memory f ∧
             tx_read_data tx' = Some (slice phys (req_length (tx_request tx)) (fab_memory f)))).
Proof. apply advance_commit. Qed.

(** C26: A commit stays inside its object as long as the captured translation is the
    current one: in a reachable fabric, advancing a prepared transaction whose
    captured address is what [translate] still returns leaves the bytes of every
    other live object unchanged.  (Theorem [move_redirects_commit] below shows that
    the hypothesis cannot be dropped.) *)
Theorem commit_isolated f M i tx f' k q :
  fab_reach f M → fab_transactions f !! i = Some tx → tx_state tx = Prepared →
  request_wf (tx_request tx) →
  translate f (req_object (tx_request tx)) (req_offset (tx_request tx)) = tx_physical_address tx →
  advance f i = Done f' → k ≠ req_object (tx_request tx) →
  fab_objects f !! k = Some q → alive (obj_state q) = true → obj_bytes f' k = obj_bytes f k.
Proof.
  intros Hr Ht Hs Hw Htr Ha Hne Hq Hal. apply reach_inv in Hr as Hi.
  destruct (advance_commit f i tx f' Ht Hs Ha) as (Hsame&tx'&_&[[_ Hm]|(_&phys&Hg&Hm)]).
  { by apply obj_bytes_same. }
  destruct (is_mutating _) eqn:Hk; [|destruct Hm; by apply obj_bytes_same].
  destruct Hm as (d&Hd&Hm). destruct (gp_data _ _ _ Hg Hk) as (d'&Hd'&Hlen). simplify_eq.
  rewrite (gp_captured _ _ _ Hg) in Htr.
  apply translate_Some in Htr as (base&Hb&->&_); [|by eapply inv_placement_wf|apply Hw].
  destruct (gp_authorized _ _ _ Hg) as [g Hg'].
  apply authorize_sound in Hg' as (_&_&o&Ho&Hoa&_&Hle).
  rewrite (obj_bytes_memory f f' (abstract_write f (base + req_offset (tx_request tx))
    (base + req_offset (tx_request tx) + req_length (tx_request tx)) d)) by done.
  destruct Hw as [Hoff _]. unfold is_u64 in Hoff.
  eapply (obj_bytes_splice f M k (req_object (tx_request tx)) _ _ _ base o); eauto; lia.
Qed.

(** C24: Revocation is permanent.  Once an object has been revoked in a reachable
    fabric, no sequence of fabric operations whatsoever (fresh allocations,
    grants, derivations, moves, sealing, destruction, rollback, transactions in
    flight) ever lets a request on that identity be authorized again; since the
    commit gate asks for authorization in the current fabric, no transaction on it
    that was still pending commits either.  There is no bound on the number of
    steps and no assumption on generation wrap-around. *)
Theorem revocation_permanent f M id o f' M' r g :
  fab_reach f M → fab_objects f !! id = Some o → private_heap_object f id = false →
  fab_steps (revoke f id) M f' M' →
  (req_object r = id → authorize f' r ≠ AuthAuthorized g) ∧
  (∀ i tx f'', fab_transactions f' !! i = Some tx → req_object (tx_request tx) = id →
     tx_state tx = Prepared → advance f' i = Done f'' →
     fab_memory f'' = fab_memory f' ∧ ∃ tx', fab_transactions f'' !! i = Some tx' ∧ tx_state tx' = Faulted).
Proof.
  intros Hr Ho Hh Hs. apply reach_inv in Hr as Hi.
  assert (dead f' id) as Hd by (eapply dead_steps; [exact Hs|]; by eapply revoke_dead).
  split; [intros; by eapply dead_denied|]. intros i tx f'' Ht Hreq Hst Ha.
  destruct (prepared_denied f' i tx f'' Ht Hst) as [? Htx]; [|done|].
  - intros g'. by eapply dead_denied.
  - split; [done|]. destruct Htx as (tx'&->&?). exists tx'. split; [|done].
    apply list_lookup_insert_eq. by eapply lookup_lt_Some.
Qed.
End safety.

(** ** A concrete reachable history

    Two 32-byte objects: object 0 at 16, readable and writable by domain 0, and
    object 1 at 64, on which nobody holds authority. *)
Section history.
#[local] Instance checked_profile : Profile := true.

Definition start_fabric : Fabric := from_parts (replicate 128 7) demo_registry None.
Definition fabric_of {A} (x : outcome (Fabric * A)) : Fabric :=
  match x with Done (f, _) => f | Panic => start_fabric end.
Definition fabric_of_option {A} (x : option (Fabric * A)) : Fabric :=
  match x with Some (f, _) => f | None => start_fabric end.

Definition hist1 : Fabric := fabric_of (alloc_object start_fabric "a" 32 Memory).
Definition hist2 : Fabric := (place_object hist1 0 16).1.
Definition hist3 : Fabric := fabric_of (alloc_object hist2 "b" 32 Memory).
Definition hist4 : Fabric := (place_object hist3 1 64).1.
Definition hist5 : Fabric := fabric_of (create_domain hist4).
Definition hist6 : Fabric := fabric_of_option (grant hist5 0 0 0 32 (Z.lor Perm.READ Perm.WRITE)).
Definition two_objects : Fabric := register_agent hist6 0 (Cpu 0) 0.
Definition rw_cap : Capability64 := mkCap 0 0 0 32 (Z.lor Perm.READ Perm.WRITE).

Lemma two_objects_reach : fab_reach two_objects [rw_cap].
Proof.
  eapply reach_step; [|apply (st_register_agent hist6 _ 0 (Cpu 0) 0)].
  eapply reach_step; [|apply (st_grant hist5 [] 0 0 0 32 (Z.lor Perm.READ Perm.WRITE)); [lia..|vm_compute; reflexivity]].
  eapply reach_step; [|apply (st_create_domain hist4 _ 0); vm_compute; reflexivity].
  eapply reach_step; [|apply (st_place hist3 _ 1 64 true); [unfold is_u64, U64; lia|vm_compute; reflexivity]].
  eapply reach_step; [|apply (st_alloc hist2 _ "b" 32 Memory 1); [unfold is_u64, U64; lia|vm_compute; reflexivity]].
  eapply reach_step; [|apply (st_place hist1 _ 0 16 true); [unfold is_u64, U64; lia|vm_compute; reflexivity]].
  eapply reach_step; [|apply (st_alloc start_fabric _ "a" 32 Memory 0); [unfold is_u64, U64; lia|vm_compute; reflexivity]].
  apply reach_init, (fresh_registry_wf 4 4).
Qed.

(** Object 0 sealed, and granted again for execution. *)
Definition hist8 : Fabric := (seal_object two_objects 0).1.
Definition sealed_code : Fabric := fabric_of_option (grant hist8 0 0 0 32 (Z.lor Perm.READ Perm.EXECUTE)).
Definition rx_cap : Capability64 := mkCap 0 1 0 32 (Z.lor Perm.READ Perm.EXECUTE).

Lemma sealed_code_reach : fab_reach sealed_code [rx_cap; rw_cap].
Proof.
  eapply reach_step; [|apply (st_grant hist8 [rw_cap] 0 0 0 32 (Z.lor Perm.READ Perm.EXECUTE)); [lia..|vm_compute; reflexivity]].
  eapply reach_step; [exact two_objects_reach|].
  apply (st_seal two_objects _ 0 true). vm_compute. reflexivity.
Qed.

Definition demo_fetch : MemoryRequest := dma_request 0 0 0 8 4 Fetch.

Lemma wx_exclusive_witness :
  authorize sealed_code demo_fetch = AuthAuthorized 1 ∧
  authorize sealed_code demo_write ≠ AuthAuthorized 0.
Proof.
  split; [vm_compute; reflexivity|].
  apply (wx_exclusive sealed_code [rx_cap; rw_cap] demo_fetch demo_write 1 0 sealed_code_reach);
    vm_compute; reflexivity.
Defined.

(** The writable capability is stale once the object is sealed. *)
Lemma authorize_correct_witness : authorize sealed_code demo_write = AuthDenied StaleGeneration ∧
  ∃ e, held_by sealed_code 0 e ∧ validate sealed_code (entry_cap e) = false.
Proof.
  assert (authorize sealed_code demo_write = AuthDenied StaleGeneration) as E by (vm_compute; reflexivity).
  split; [exact E|]. pose proof (authorize_correct sealed_code demo_write) as Hc. rewrite E in Hc.
  destruct Hc as (_&Hn&e&He&Hcov). exists e. split; [exact He|].
  destruct (validate sealed_code (entry_cap e)) eqn:Hv; [|reflexivity].
  exfalso. apply Hn. destruct He as (s&Hs&Hin). exists s, e. auto.
Defined.

Definition written : Fabric := fabric_of (execute_write two_objects demo_write [1; 2; 3; 4]).

Lemma written_eq : execute_write two_objects demo_write [1; 2; 3; 4] = Done (written, Ok tt).
Proof. vm_compute. reflexivity. Qed.

Lemma access_isolated_witness : obj_bytes written 1 = obj_bytes two_objects 1.
Proof.
  apply (access_isolated two_objects [rw_cap] demo_write [1; 2; 3; 4] written 1
    (mkObject 1 0 32 Active Memory "b") two_objects_reach (proj1 demo_requests_wf)).
  - left. exists (Ok tt). exact written_eq.
  - vm_compute. discriminate.
  - vm_compute. reflexivity.
  - reflexivity.
Defined.

Lemma sealed_immutable_witness :
  obj_bytes (fabric_of (execute_write sealed_code demo_write [1; 2; 3; 4])) 0 = Some (replicate 32 7).
Proof.
  rewrite (sealed_immutable sealed_code [rx_cap; rw_cap] 0 (mkObject 0 1 32 Sealed Memory "a")
    (fabric_of (execute_write sealed_code demo_write [1; 2; 3; 4])) sealed_code_reach).
  - vm_compute. reflexivity.
  - vm_compute. reflexivity.
  - reflexivity.
  - apply (ow_access _ demo_write [1; 2; 3; 4]); [apply demo_requests_wf|].
    left. eexists. vm_compute. reflexivity.
Defined.

(** Transaction 0 of this history has been authorized and translated. *)
Definition submitted : Fabric := fabric_of (submit two_objects demo_write (Some [1; 2; 3; 4])).
Definition run_or_start (f : Fabric) (es : list Event) : Fabric :=
  match run_schedule f es with Done g => g | Panic => start_fabric end.
Definition prepared : Fabric := run_or_start submitted [Advance 0; Advance 0].

Lemma prepared_reach : fab_reach prepared [rw_cap].
Proof.
  eapply reach_step; [|apply (st_advance (run_or_start submitted [Advance 0]) _ 0); vm_compute; reflexivity].
  eapply reach_step; [|apply (st_advance submitted _ 0); vm_compute; reflexivity].
  eapply reach_step; [exact two_objects_reach|].
  apply (st_submit two_objects _ demo_write (Some [1; 2; 3; 4]) 0). vm_compute. reflexivity.
Qed.

Definition prepared_tx : Transaction :=
  mkTx 0 demo_write Prepared (Some 0) (Some 24) (Some [1; 2; 3; 4]) None None.

Lemma commit_gate_witness :
  ∃ f', advance prepared 0 = Done f' ∧ same_auth prepared f'.
Proof.
  eexists. split; [vm_compute; reflexivity|].
  eapply (commit_gate prepared 0 prepared_tx); vm_compute; reflexivity.
Defined.

Lemma commit_isolated_witness :
  ∃ f', advance prepared 0 = Done f' ∧ obj_bytes f' 1 = Some (replicate 32 7).
Proof.
  eexists. split; [vm_compute; reflexivity|].
  etransitivity; [eapply (commit_isolated prepared [rw_cap] 0 prepared_tx _ 1
    (mkObject 1 0 32 Active Memory "b") prepared_reach)|].
  all: try (vm_compute; reflexivity).
  - apply demo_requests_wf.
  - vm_compute. discriminate.
Defined.

Lemma revocation_permanent_witness :
  authorize (revoke prepared 0) demo_read ≠ AuthAuthorized 0 ∧
  ∃ f'', advance (revoke prepared 0) 0 = Done f'' ∧ fab_memory f'' = fab_memory (revoke prepared 0).
Proof.
  destruct (revocation_permanent prepared [rw_cap] 0 (mkObject 0 0 32 Active Memory "a")
    (revoke prepared 0) [rw_cap] demo_read 0 prepared_reach) as [Hn Hc].
  - vm_compute. reflexivity.
  - vm_compute. reflexivity.
  - apply steps_refl.
  - split; [by apply Hn|]. eexists. split; [vm_compute; reflexivity|].
    eapply (Hc 0%nat prepared_tx); vm_compute; reflexivity.
Defined.

(** Between translation and commit, object 0 moves away and object 1 onto its place. *)
Definition moved : Fabric := run_or_start prepared [Move 0 96; Move 1 16].

(** C27: The gate does not recompute the translation.  Here transaction 0, a write of
    domain 0 to object 0, is authorized and translated; then object 0 moves away and
    object 1 moves onto the old address; the commit is accepted (object 0 is still
    writable by domain 0) and overwrites four bytes of object 1, on which domain 0
    holds no authority at all, while object 0 keeps its contents. *)
Theorem move_redirects_commit :
  fab_reach moved [rw_cap] ∧
  ∃ f', advance moved 0 = Done f' ∧
    (tx_state <$> fab_transactions f' !! 0%nat) = Some Committed ∧
    authorize moved (dma_request 0 0 1 8 4 Write) = AuthDenied NoCapability ∧
    obj_bytes moved 1 = Some (replicate 32 7) ∧
    obj_bytes f' 1 = Some (replicate 8 7 ++ [1; 2; 3; 4] ++ replicate 20 7) ∧
    obj_bytes f' 0 = obj_bytes moved 0.
Proof.
  split.
  - eapply reach_step; [|apply (st_place (run_or_start prepared [Move 0 96]) _ 1 16 true);
      [unfold is_u64, U64; lia|vm_compute; reflexivity]].
    eapply reach_step; [exact prepared_reach|].
    apply (st_place prepared _ 0 96 true); [unfold is_u64, U64; lia|vm_compute; reflexivity].
  - eexists. split; [vm_compute; reflexivity|]. split_and!; vm_compute; reflexivity.
Qed.

(** A translated read, and the object sealed and granted again since. *)
Definition reading : Fabric :=
  run_or_start (fabric_of (submit two_objects demo_read None)) [Advance 0; Advance 0].
Definition regranted : Fabric :=
  fabric_of_option (grant (seal_object reading 0).1 0 0 0 32 (Z.lor Perm.READ Perm.EXECUTE)).

(** The gate does not compare generations: a read authorized at generation 0 commits after
    the object was sealed (generation 1) and granted again, although the capability
    that authorized it is stale by then. *)
Theorem commit_at_newer_generation :
  validate regranted rw_cap = false ∧ authorize regranted demo_read = AuthAuthorized 1 ∧
  ∃ f', advance regranted 0 = Done f' ∧
    (tx_state <$> fab_transactions f' !! 0%nat) = Some Committed ∧
    (tx_auth_generation <$> fab_transactions f' !! 0%nat) = Some (Some 0).
Proof.
  split_and!; [vm_compute; reflexivity..|].
  eexists. split; [vm_compute; reflexivity|]. split; vm_compute; reflexivity.
Qed.
End history.
