(* ===== verification/FabricCells.v ===== *)
(** * Protected pointers in the fabric: [src/anka64/fabric.rs] (pointer cells and
    stacks) and [src/anka64/fabric/local_frames.rs]

    Registration of local pointers against their backing object, coherent stores
    and loads of pointer cells, and the all-or-nothing issue of a local frame. A
    method that borrows the fabric mutably returns the fabric beside its result;
    on an error the returned fabric is the one the error leaves behind. *)

From S2P Require Import Prelude State Extents Registry PointerFrames HeapLedger Fabric.

(** [core.rs], [PointerMachineError] *)
Inductive PointerMachineError :=
| PInvalidPair | PMissingKind | PUnmapped | PUnaligned
| PFrame (e : FrameError) | PContextMode | PPointer (e : PointerError)
| PHeap (e : HeapError) | PFabric (f : FaultRecord).

(** ** Stacks *)
Definition holds_object (object : ObjectId) (d : DomainState) : bool :=
  existsb (λ e, cap_object (entry_cap e) =? object) (dom_capabilities d).

Definition cpu_of_domain (f : Fabric) (d : DomainId) : bool :=
  map_any (λ _ a, (agent_domain a =? d) && is_cpu (agent_kind a)) (fab_agents f).

Definition protect_pointer_stack (f : Fabric) (object : ObjectId) (owner : Z) (domain : DomainId) :
    Fabric * bool :=
  if is_some_and (λ b, negb (bool_decide (b = (owner, domain)))) (fab_pointer_stack_objects f !! object)
  then (f, false)
  else if map_any (λ _ d, negb (dom_id d =? domain) && holds_object object d) (fab_domains f)
  then (f, false)
  else if map_any (λ _ a, negb (is_cpu (agent_kind a))
                  && is_some_and (holds_object object) (fab_domains f !! agent_domain a)) (fab_agents f)
  then (f, false)
  else if map_any (λ _ d, holds_object object d && negb (cpu_of_domain f (dom_id d))) (fab_domains f)
  then (f, false)
  else (set_fab_pointer_stack_objects (<[object := (owner, domain)]> (fab_pointer_stack_objects f)) f,
        true).

(** ** Faults *)
Definition pointer_cell_fault (f : Fabric) (r : MemoryRequest) (reason : FaultReason) : FaultRecord :=
  mkFault (ctx_agent (req_context r)) (ctx_domain (req_context r)) (ctx_privilege (req_context r))
    0 (req_object r) (obj_generation <$> fab_objects f !! req_object r) (req_offset r)
    (req_width r) (req_length r) (req_kind r) None reason.

(** ** Local pointers *)
Definition checked_local_backing (f : Fabric) (r : MemoryRequest) (writable : bool) :
    result PointerMachineError PointerBacking :=
  if req_length r =? 0 then Err (PPointer InvalidRange)
  else match authorize f (set_req_kind Read r) with
       | AuthDenied reason => Err (PFabric (pointer_cell_fault f (set_req_kind Read r) reason))
       | AuthAuthorized generation =>
           let backing :=
             phys ← ok_or (translate f (req_object r) (req_offset r)) PUnmapped;
             if is_none_or (λ e, mem_len f <? e) (checked_add phys (req_length r)) then Err PUnmapped
             else Ok (mkBacking (req_object r) generation (req_offset r)) in
           if writable then
             match authorize f (set_req_kind Write r) with
             | AuthDenied reason => Err (PFabric (pointer_cell_fault f (set_req_kind Write r) reason))
             | AuthAuthorized _ => backing
             end
           else backing
       end.

Definition with_registry (f : Fabric) (r : ScopedPointers) : Fabric := set_fab_scoped_pointers r f.

(** [Scope] and lifetime first, then the binding of the backing. *)
Definition register_scoped_pointer (f : Fabric) (scope : Scope) (r : MemoryRequest)
    (address : Z) (writable : bool) : fallible PointerMachineError (Fabric * ScopedPointer) :=
  b ←? checked_local_backing f r writable;
  x ← register (fab_scoped_pointers f) scope (ctx_domain (req_context r)) address (req_length r) writable;
  match x with
  | Err e => err (PPointer e)
  | Ok (reg, p) => reg ← bind_backing reg p b; ok (with_registry f reg, p)
  end.

Definition scoped_pointer_backing (f : Fabric) (p : ScopedPointer) (domain : DomainId) :
    result PointerMachineError (ObjectId * Z) :=
  _ ← map_err PPointer (pointer_add (fab_scoped_pointers f) p domain 0);
  b ← ok_or (backing (fab_scoped_pointers f) p) PMissingKind;
  if is_none_or (λ o, negb (obj_generation o =? pb_generation b) || negb (alive (obj_state o)))
       (fab_objects f !! pb_object b)
  then Err (PPointer Stale)
  else off ← ok_or (checked_add (pb_offset b) (words p).2) PUnmapped; Ok (pb_object b, off).

(** Authority over a whole span, the empty one at its point. *)
Definition authorize_pointer_span (f : Fabric) (agent domain object offset length : Z)
    (kind : AccessKind) : bool :=
  if negb (is_some_and (λ a, (agent_domain a =? domain) && is_cpu (agent_kind a)) (fab_agents f !! agent))
  then false
  else if is_some_and (λ b, negb (b.2 =? domain)) (fab_pointer_stack_objects f !! object) then false
  else if negb (length =? 0) then
    match authorize f (mkRequest (mkContext agent domain Supervisor) object offset WByte length kind) with
    | AuthAuthorized _ => true
    | AuthDenied _ => false
    end
  else match fab_objects f !! object with
       | None => false
       | Some o =>
           if obj_size o <? offset then false
           else is_some_and (λ d, existsb (λ e,
                  let c := entry_cap e in
                  (cap_object c =? object) && validate f c
                  && Perm.contains (cap_permissions c) (required_permission kind)
                  && (cap_offset c <=? offset) && (offset - cap_offset c <=? cap_length c))
                  (dom_capabilities d)) (fab_domains f !! domain)
       end.

Definition authorize_pointer_output f agent domain object offset length :=
  authorize_pointer_span f agent domain object offset length Read.
Definition authorize_pointer_input f agent domain object offset length :=
  authorize_pointer_span f agent domain object offset length Write.

(** ** Pointer cells *)
Definition pointer_bytes (p : option ScopedPointer) : list Z :=
  let w := match p with Some p => words p | None => (0, 0) end in
  le_bytes 8 w.1 ++ le_bytes 8 w.2.

Definition checked_pointer_cell (f : Fabric) (r : MemoryRequest) (kind : AccessKind) :
    result FaultRecord (Z * Z * Z) :=
  if negb (bool_decide (req_kind r = kind)) || negb (req_length r =? 16)
     || negb (req_offset r mod 16 =? 0)
  then Err (pointer_cell_fault f r InvalidSpan)
  else
    o ← ok_or (fab_objects f !! req_object r) (pointer_cell_fault f r InvalidObject);
    Ok (req_object r, obj_generation o, req_offset r).

Section cells.
Context `{Profile}.

(** Write the payload through the pipeline, then the kind. *)
Definition write_tagged_cell (f : Fabric) (key : Z * Z * Z) (r : MemoryRequest)
    (p : option ScopedPointer) : outcome (Fabric * result FaultRecord unit) :=
  x ← execute_write f r (pointer_bytes p);
  match x with
  | (f, Err e) => Done (f, Err e)
  | (f, Ok _) =>
      Done (match p with
            | Some p => set_fab_pointer_cells (<[key := p]> (fab_pointer_cells f)) f
            | None => f
            end, Ok tt)
  end.

Definition store_pointer_cell (f : Fabric) (r : MemoryRequest) (p : option ScopedPointer) :
    outcome (Fabric * result FaultRecord unit) :=
  let backed := match p with
                | Some p => is_ok (scoped_pointer_backing f p (ctx_domain (req_context r)))
                | None => true
                end in
  if negb backed then Done (f, Err (pointer_cell_fault f r NoCapability))
  else match checked_pointer_cell f r Write with
       | Err e => Done (f, Err e)
       | Ok key => write_tagged_cell f key r p
       end.

Definition load_pointer_cell (f : Fabric) (r : MemoryRequest) :
    outcome (Fabric * result FaultRecord (option ScopedPointer)) :=
  match checked_pointer_cell f r Read with
  | Err e => Done (f, Err e)
  | Ok key =>
      x ← execute_read f r;
      match x with
      | (f, Err e) => Done (f, Err e)
      | (f, Ok bytes) =>
          Done (f, match fab_pointer_cells f !! key with
                   | Some p => if bool_decide (bytes = pointer_bytes (Some p)) then Ok (Some p)
                               else Err (pointer_cell_fault f r NoCapability)
                   | None => if forallb (λ b, b =? 0) bytes then Ok None
                             else Err (pointer_cell_fault f r NoCapability)
                   end)
      end
  end.
End cells.

(** ** Retiring and issuing frames *)
Definition in_span (object g offset length : Z) (key : Z * Z * Z) : bool :=
  (key.1.1 =? object) && (key.1.2 =? g) && (offset <=? key.2) && (key.2 - offset <? length).

Fixpoint retire_locals (f : Fabric) (locals : list ScopedPointer) : Fabric :=
  match locals with
  | [] => f
  | p :: locals =>
      let length := match storage_span (fab_scoped_pointers f) p with Some (_, n) => n | None => 0 end in
      let '(reg, b) := take_backing (fab_scoped_pointers f) p in
      let f := with_registry f reg in
      let f := match b with
               | Some b => set_fab_pointer_cells
                   (filter (λ kv, in_span (pb_object b) (pb_generation b) (pb_offset b) length kv.1 = false)
                      (fab_pointer_cells f)) f
               | None => f
               end in
      retire_locals f locals
  end.

Definition retire_pointer_frame (f : Fabric) (scope : Scope) (locals : list ScopedPointer) :
    fallible PointerMachineError Fabric :=
  x ← leave_scope (fab_scoped_pointers f) scope;
  match x with
  | Err e => err (PPointer e)
  | Ok reg => ok (retire_locals (with_registry f reg) locals)
  end.

(** [local_frames.rs], [overlaps]: an unrepresentable range overlaps everything. *)
Definition spans_overlap (a n b m : Z) : bool :=
  if (n =? 0) || (m =? 0) then false
  else match checked_add a n, checked_add b m with
       | Some end_a, Some end_b => (a <? end_b) && (b <? end_a)
       | _, _ => true
       end.

Definition placed_at (f : Fabric) (object offset : Z) : option Z :=
  base ← fab_placement f !! object; checked_add base offset.

Definition preflight_local_frame_exclusion (f : Fabric) (frame : MemoryRequest) (physical : Z) :
    result PointerMachineError unit :=
  let ctx := req_context frame in
  let hit off n := spans_overlap (req_offset frame) (req_length frame) off n in
  let hit_phys at_ n := spans_overlap physical (req_length frame) at_ n in
  if map_any (λ id a, negb (id =? ctx_agent ctx) && (agent_domain a =? ctx_domain ctx)) (fab_agents f)
     || map_any (λ _ d, negb (dom_id d =? ctx_domain ctx)
          && existsb (λ e, let c := entry_cap e in (cap_object c =? req_object frame)
               && validate f c && hit (cap_offset c) (cap_length c)) (dom_capabilities d)) (fab_domains f)
  then Err (PPointer Rights)
  else if map_any (λ _ o, negb (obj_id o =? req_object frame) && alive (obj_state o)
            && is_some_and (λ base, hit_phys base (obj_size o)) (fab_placement f !! obj_id o)) (fab_objects f)
  then Err (PPointer Rights)
  else if existsb (λ live,
            let b := lfb_backing live in
            ((pb_object b =? req_object frame) && hit (pb_offset b) (lfb_length live))
            || is_some_and (λ at_, hit_phys at_ (lfb_length live)) (placed_at f (pb_object b) (pb_offset b)))
            (live_frame_backings (fab_scoped_pointers f) ++ live_local_backings (fab_scoped_pointers f))
  then Err (PPointer Rights)
  else if existsb (λ tx,
            let r := tx_request tx in
            ((req_object r =? req_object frame) && hit (req_offset r) (req_length r))
            || is_some_and (λ at_, hit_phys at_ (req_length r)) (tx_physical_address tx)
            || is_some_and (λ at_, hit_phys at_ (req_length r)) (placed_at f (req_object r) (req_offset r)))
            (List.filter (λ tx, negb (is_terminal (tx_state tx))) (fab_transactions f))
  then Err (PPointer Rights)
  else Ok tt.

Record Registration := mkRegistration { rg_request : MemoryRequest; rg_address : Z; rg_writable : bool }.

(** [registrations.windows(2).all(..)] *)
Fixpoint ordered_disjoint (l : list Registration) : bool :=
  match l with
  | a :: (b :: _) as l' =>
      is_some_and (λ e, e <=? rg_address b) (checked_add (rg_address a) (req_length (rg_request a)))
      && ordered_disjoint l'
  | _ => true
  end.

#[export] Instance AccessContext_eq_dec : EqDecision AccessContext.
Proof. solve_decision. Defined.

Definition registration_ok (frame : MemoryRequest) (address end_ : Z) (x : Registration) : bool :=
  let local := rg_request x in
  bool_decide (req_context local = req_context frame)
  && bool_decide (req_kind local = Read) && (req_object local =? req_object frame)
  && (address <=? rg_address x)
  && is_some_and (λ n, n <=? end_) (checked_add (rg_address x) (req_length local))
  && bool_decide (checked_add (req_offset frame) (rg_address x - address) = Some (req_offset local)).

(** The registration loop: [prior] is [registrations[..i]]. *)
Fixpoint check_registrations (f : Fabric) (frame : MemoryRequest) (address end_ : Z) (g : Generation)
    (ordered : bool) (prior l : list Registration) : result PointerMachineError unit :=
  match l with
  | [] => Ok tt
  | x :: l =>
      if negb (registration_ok frame address end_ x) then Err (PPointer InvalidRange)
      else
        current ← checked_local_backing f (rg_request x) (rg_writable x);
        if negb (pb_generation current =? g) then Err (PPointer InvalidRange)
        else if negb ordered && existsb (λ y, spans_overlap (rg_address x) (req_length (rg_request x))
                                   (rg_address y) (req_length (rg_request y))) prior
        then Err (PPointer InvalidRange)
        else check_registrations f frame address end_ g ordered (prior ++ [x]) l
  end.

(** The serialized commit loop over the registry. *)
Fixpoint issue_locals (r : ScopedPointers) (scope : Scope) (domain : DomainId) (g : Generation)
    (l : list Registration) : outcome (ScopedPointers * list ScopedPointer) :=
  match l with
  | [] => Done (r, [])
  | x :: l =>
      y ← register r scope domain (rg_address x) (req_length (rg_request x)) (rg_writable x);
      match y with
      | Err _ => Panic
      | Ok (r, p) =>
          r ← bind_backing r p (mkBacking (req_object (rg_request x)) g (req_offset (rg_request x)));
          z ← issue_locals r scope domain g l;
          Done (z.1, p :: z.2)
      end
  end.

(** The cells of the frame's physical extent lose their kind; unplaced cells stay. *)
Definition frame_cell_survives (placement : gmap Z Z) (physical length : Z) (key : Z * Z * Z) : bool :=
  match (base ← placement !! key.1.1; checked_add base key.2) with
  | Some cell => negb (spans_overlap physical length cell 16)
  | None => true
  end.

Definition frame_profile_ok (f : Fabric) (owner : Z) (frame : MemoryRequest) : bool :=
  let ctx := req_context frame in
  negb (owner =? 0) && bool_decide (ctx_privilege ctx = User) && bool_decide (req_kind frame = Read)
  && bool_decide (fab_pointer_stack_objects f !! req_object frame = Some (owner, ctx_domain ctx))
  && is_some_and (λ a, (agent_domain a =? ctx_domain ctx) && is_cpu (agent_kind a))
       (fab_agents f !! ctx_agent ctx).

Section issue.
Context `{Profile} `{Host}.

(** Every check of [issue_pointer_frame]; the result is the backing and the
    physical extent. *)
Definition preflight_issue (f : Fabric) (owner : Z) (frame : MemoryRequest) (address : Z)
    (regs : list Registration) : result PointerMachineError (PointerBacking * Z * Z) :=
  let invalid := PPointer InvalidRange in
  if negb (frame_profile_ok f owner frame) then Err (PPointer PDomain)
  else if negb (address mod 16 =? 0) || negb (req_offset frame mod 16 =? 0)
          || (req_length frame =? 0) || negb (req_length frame mod 16 =? 0)
          || (4096 <? length regs)%nat
  then Err invalid
  else
    end_ ← ok_or (checked_add address (req_length frame)) invalid;
    _ ← ok_or (checked_add (req_offset frame) (req_length frame)) invalid;
    backing ← checked_local_backing f frame true;
    physical ← ok_or (translate f (req_object frame) (req_offset frame)) PUnmapped;
    physical_end ← ok_or (checked_add physical (req_length frame)) invalid;
    if negb (physical mod 16 =? 0) || (mem_len f <? physical_end)
       || heap_pool_overlaps f physical (req_length frame)
    then Err invalid
    else
      _ ← map_err PPointer (preflight_frame (fab_scoped_pointers f) (length regs));
      _ ← check_registrations f frame address end_ (pb_generation backing) (ordered_disjoint regs) [] regs;
      _ ← preflight_local_frame_exclusion f frame physical;
      _ ← ok_or (reserve_exact (zlen regs)) (PPointer Exhausted);
      Ok (backing, physical, physical_end).

Definition issue_pointer_frame (f : Fabric) (owner : Z) (frame : MemoryRequest) (address : Z)
    (regs : list Registration) :
    fallible PointerMachineError (Fabric * (Scope * list ScopedPointer)) :=
  x ←? preflight_issue f owner frame address regs;
  let '(backing, physical, physical_end) := x in
  f ← mem_fill f physical physical_end;
  let f := set_fab_pointer_cells
    (filter (λ kv, frame_cell_survives (fab_placement f) physical (req_length frame) kv.1 = true)
       (fab_pointer_cells f)) f in
  y ← enter_scope_for (fab_scoped_pointers f) owner;
  match y with
  | Err _ => Panic
  | Ok (r, scope) =>
      r ← bind_frame r scope (mkFrameBacking backing (req_length frame));
      z ← issue_locals r scope (ctx_domain (req_context frame)) (pb_generation backing) regs;
      ok (with_registry f z.1, (scope, z.2))
  end.
End issue.
