(* ===== verification/FabricHeap.v ===== *)
(** * The private heap of the fabric: [src/anka64/fabric/heap.rs] and its
    submodules [initialization.rs], [cells.rs], [closure.rs] and [application.rs]

    Attachment of a reservation to private custody, chunked initialization,
    checked byte and pointer-cell access to a live heap, and closure.  Heap rows
    never enter the public object and placement maps. *)

From S2P Require Import Prelude State Extents Registry PointerFrames HeapLedger Fabric.
From S2P Require Import HeapWork FabricCells.

#[export] Instance PrivateHeapRow_eq_dec : EqDecision PrivateHeapRow.
Proof. solve_decision. Defined.

(** ** Row table and shadow *)
Definition set_hf_rows (rows : list (option PrivateHeapRow)) (n : nat) (h : HeapFabric) : HeapFabric :=
  mkHeapFabric (hf_pool h) (hf_virtual_window h) rows n (hf_shadow h) (hf_work h) (hf_object_id_floor h).
Definition set_hf_shadow (l : list (option ScopedPointer)) (h : HeapFabric) : HeapFabric :=
  mkHeapFabric (hf_pool h) (hf_virtual_window h) (hf_rows h) (hf_rows_end h) l (hf_work h) (hf_object_id_floor h).
Definition set_hf_work (w : option HeapCpuWork) (h : HeapFabric) : HeapFabric :=
  mkHeapFabric (hf_pool h) (hf_virtual_window h) (hf_rows h) (hf_rows_end h) (hf_shadow h) w (hf_object_id_floor h).
Definition set_hf_floor (n : Z) (h : HeapFabric) : HeapFabric :=
  mkHeapFabric (hf_pool h) (hf_virtual_window h) (hf_rows h) (hf_rows_end h) (hf_shadow h) (hf_work h) n.

Definition set_row (h : HeapFabric) (slot : nat) (row : PrivateHeapRow) : outcome HeapFabric :=
  rows ← vec_set slot (Some row) (hf_rows h);
  Done (set_hf_rows rows (Nat.max (hf_rows_end h) (S slot)) h).

Definition remove_row (h : HeapFabric) (slot : nat) : outcome HeapFabric :=
  rows ← vec_set slot None (hf_rows h);
  n ← trim_end (λ r, negb (is_some r)) rows (hf_rows_end h);
  Done (set_hf_rows rows n h).

Definition heap_row (h : HeapFabric) (slot : nat) : option PrivateHeapRow :=
  match hf_rows h !! slot with Some (Some r) => Some r | _ => None end.

Definition shadow_index (h : HeapFabric) (physical : Z) : option nat :=
  offset ← checked_sub physical (ext_base (hf_pool h));
  past ← checked_add offset 16;
  if negb (physical mod 16 =? 0) || (ext_size (hf_pool h) <? past) then None
  else
    let index := Z.to_nat (offset / 16) in
    if (index <? length (hf_shadow h))%nat then Some index else None.

(** The virtual window is validated at construction. *)
Definition window_end (h : HeapFabric) : Z :=
  ext_base (hf_virtual_window h) + ext_size (hf_virtual_window h).

Definition check_extents (h : HeapFabric) (e : HeapExtents) : result HeapError unit :=
  let p := he_physical e in let v := he_virtual e in
  if (ext_base p <? ext_base (hf_pool h)) || is_none_or (λ n, heap_end h <? n) (ext_end p)
     || (ext_base v <? ext_base (hf_virtual_window h))
     || is_none_or (λ n, window_end h <? n) (ext_end v)
     || negb (is_some (shadow_index h (ext_base p)))
     || negb (is_some (end_ ← ext_end p; last ← checked_sub end_ 16; shadow_index h last))
  then Err HConfiguration else Ok tt.

(** [a.base < b.end().unwrap() && b.base < a.end().unwrap()], the second [unwrap]
    only when the first comparison holds. *)
Definition extents_meet (a b : Extent) : outcome bool :=
  b_end ← unwrap (ext_end b);
  if ext_base a <? b_end then a_end ← unwrap (ext_end a); Done (ext_base b <? a_end)
  else Done false.

Fixpoint check_census (e : HeapExtents) (owner : AllocationOwner) (rows : list PrivateHeapRow) :
    fallible HeapError unit :=
  match rows with
  | [] => ok tt
  | held :: rows =>
      meet ← extents_meet (he_physical e) (he_physical (row_extents held));
      meet ← (if (meet : bool) then Done true
              else if bool_decide (row_owner held = owner)
              then extents_meet (he_virtual e) (he_virtual (row_extents held))
              else Done false);
      if (meet : bool) then err HBusy else check_census e owner rows
  end.

Definition check_plan (h : HeapFabric) (plan : HeapAttachmentPlan) : fallible HeapError unit :=
  match hf_rows h !! hr_slot (hap_reservation plan) with
  | None => err HConfiguration
  | Some (Some _) => err HBusy
  | Some None =>
      _ ←? check_extents h (hap_extents plan);
      check_census (hap_extents plan) (hap_owner plan) (flatten (hf_rows h))
  end.

(** ** Exclusion *)
Definition heap_pool_is_private (f : Fabric) : bool :=
  map_all (λ id base, is_some_and (λ o, negb (heap_pool_overlaps f base (obj_size o)))
             (fab_objects f !! id)) (fab_placement f)
  && forallb (λ tx, is_terminal (tx_state tx)
       || negb (private_heap_object f (req_object (tx_request tx))
                || is_some_and (λ p, heap_pool_overlaps f p (req_length (tx_request tx)))
                     (tx_physical_address tx))) (fab_transactions f)
  && forallb (λ kv, is_some_and (λ base, negb (heap_pool_overlaps f base 16))
       (placed_at f kv.1.1.1 kv.1.2)) (map_to_list (fab_pointer_cells f)).

Definition update_heap (f : Fabric) (k : HeapFabric → outcome HeapFabric) : outcome Fabric :=
  h ← unwrap (fab_private_heap f); h ← k h; Done (set_fab_private_heap (Some h) f).

Definition attach_private_heap (f : Fabric) (h : HeapReservation) (owner : AllocationOwner)
    (expected_revision : Z) : fallible HeapError (Fabric * ObjectId) :=
  if negb (is_some (fab_domains f !! ao_domain owner)) then err HOwner
  else
    plan ←! prepare_heap_attachment (fab_scoped_pointers f) h owner expected_revision;
    heap ←? ok_or (fab_private_heap f) HConfiguration;
    _ ←! check_plan heap plan;
    if negb (heap_pool_is_private f) then err HBusy
    else
      object ←? ok_or (next_fresh_object_id f) (HCapacity Identity);
      next ←? ok_or (checked_add object 1) (HCapacity Identity);
      let row := mkHeapRow (hap_reservation plan) (hap_owner plan) object 0 (hap_logical plan)
                   (hap_extents plan) Perm.RW 0 0 in
      reg ← commit_heap_attachment (fab_scoped_pointers f) plan;
      f ← update_heap (with_registry f reg)
            (λ h, h ← set_row h (hr_slot (hap_reservation plan)) row; Done (set_hf_floor next h));
      ok (set_fab_next_object_id next f, object).

(** ** Initialization *)
Definition CHUNK_LIMIT : Z := 4096.

Record HeapSpan := mkSpan { sp_bytes : Z * Z; sp_shadow : nat * nat }.

(** Byte and shadow ranges of a checked physical span. *)
Definition span_indices (f : Fabric) (base offset amount : Z) : result HeapError HeapSpan :=
  start ← ok_or (checked_add base offset) HSize;
  end_ ← ok_or (checked_add start amount) HSize;
  if mem_len f <? end_ then Err HConfiguration
  else
    heap ← ok_or (fab_private_heap f) HConfiguration;
    first ← ok_or (shadow_index heap (Z.ldiff start 15)) HConfiguration;
    last ← ok_or (shadow_index heap (Z.ldiff (end_ - 1) 15)) HConfiguration;
    if (length (hf_shadow heap) <? S last)%nat || (S last <? first)%nat then Err HConfiguration
    else Ok (mkSpan (start, end_) (first, S last)).

Record InitializationPlan := mkInitPlan { ip_registry : HeapAttachmentPlan; ip_row : PrivateHeapRow }.

Definition prepare_private_initialization (f : Fabric) (h : HeapReservation)
    (owner : AllocationOwner) (object : ObjectId) (expected_revision : Z) :
    fallible HeapError InitializationPlan :=
  if negb (is_some (fab_domains f !! ao_domain owner)) then err HOwner
  else
    registry ←! prepare_heap_initialization (fab_scoped_pointers f) h owner expected_revision;
    heap ←? ok_or (fab_private_heap f) HConfiguration;
    row ←? ok_or (heap_row heap (hr_slot (hap_reservation registry))) HStaleInitialization;
    if negb (bool_decide (row_reservation row = h)) || negb (bool_decide (row_owner row = hap_owner registry))
       || negb (row_object row =? object) || negb (row_object_generation row =? 0)
       || negb (row_logical row =? hap_logical registry)
       || negb (bool_decide (row_extents row = hap_extents registry))
       || negb (row_planned_rights row =? Perm.RW)
    then err HStaleInitialization
    else
      _ ←? check_extents heap (hap_extents registry);
      end_ ←? ok_or (ext_end (he_physical (row_extents row))) HConfiguration;
      if (mem_len f <? end_) || (ext_size (he_physical (row_extents row)) <? row_initialized_bytes row)
         || negb (row_initialized_bytes row mod 16 =? 0)
      then err HConfiguration
      else if negb (heap_pool_is_private f) then err HBusy
      else ok (mkInitPlan registry row).

(** [HeapInitialization] wraps the row it observed. *)
Definition check_initialization_snapshot (f : Fabric) (snapshot : PrivateHeapRow)
    (owner : AllocationOwner) (expected_revision : Z) : fallible HeapError InitializationPlan :=
  plan ←! prepare_private_initialization f (row_reservation snapshot) owner (row_object snapshot)
            expected_revision;
  if negb (bool_decide (ip_row plan = snapshot)) then err HStaleInitialization else ok plan.

Definition private_heap_initialization (f : Fabric) h owner object expected_revision :
    fallible HeapError PrivateHeapRow :=
  plan ←! prepare_private_initialization f h owner object expected_revision; ok (ip_row plan).

Definition private_initialization_span (f : Fabric) (row : PrivateHeapRow) (offset amount : Z) :
    result HeapError HeapSpan :=
  let p := he_physical (row_extents row) in
  if (amount =? 0) || (CHUNK_LIMIT <? amount) || (ext_size p <? offset)
     || (ext_size p - offset <? amount)
  then Err HSize else span_indices f (ext_base p) offset amount.

(** [shadow[first..past].fill(None)] *)
Definition clear_shadow (range : nat * nat) (h : HeapFabric) : HeapFabric :=
  set_hf_shadow (take range.1 (hf_shadow h) ++ replicate (range.2 - range.1) None
                   ++ drop range.2 (hf_shadow h)) h.

Definition set_row_progress (version bytes : Z) (r : PrivateHeapRow) : PrivateHeapRow :=
  mkHeapRow (row_reservation r) (row_owner r) (row_object r) (row_object_generation r)
    (row_logical r) (row_extents r) (row_planned_rights r) bytes version.

Definition commit_private_initialization (f : Fabric) (plan : InitializationPlan)
    (row : PrivateHeapRow) (span : HeapSpan) (data : option (list Z)) :
    outcome (Fabric * PrivateHeapRow) :=
  f ← match data with
      | Some bytes => mem_write f (sp_bytes span).1 (sp_bytes span).2 bytes
      | None => mem_fill f (sp_bytes span).1 (sp_bytes span).2
      end;
  f ← update_heap f (λ h, set_row (clear_shadow (sp_shadow span) h)
                            (hr_slot (hap_reservation (ip_registry plan))) row);
  reg ← commit_heap_initialization (fab_scoped_pointers f) (ip_registry plan);
  Done (with_registry f reg, row).

Definition initialize_private_heap_chunk (f : Fabric) (snapshot : PrivateHeapRow)
    (owner : AllocationOwner) (amount expected_revision : Z) :
    fallible HeapError (Fabric * PrivateHeapRow) :=
  plan ←! check_initialization_snapshot f snapshot owner expected_revision;
  if negb (amount mod 16 =? 0) then err HSize
  else
    let row := ip_row plan in
    span ←? private_initialization_span f row (row_initialized_bytes row) amount;
    version ←? ok_or (checked_add (row_initialization_version row) 1) (HCapacity Identity);
    x ← commit_private_initialization f plan
          (set_row_progress version (row_initialized_bytes row + amount) row) span None;
    ok x.

Definition write_private_heap (f : Fabric) (snapshot : PrivateHeapRow) (owner : AllocationOwner)
    (offset : Z) (data : list Z) (expected_revision : Z) : fallible HeapError (Fabric * PrivateHeapRow) :=
  plan ←! check_initialization_snapshot f snapshot owner expected_revision;
  let row := ip_row plan in
  span ←? private_initialization_span f row offset (zlen data);
  version ←? ok_or (checked_add (row_initialization_version row) 1) (HCapacity Identity);
  x ← commit_private_initialization f plan (set_row_progress version 0 row) span (Some data);
  ok x.

Definition validate_private_heap_initialization (f : Fabric) (snapshot : PrivateHeapRow)
    (owner : AllocationOwner) (expected_revision : Z) : fallible HeapError unit :=
  plan ←! check_initialization_snapshot f snapshot owner expected_revision;
  if negb (row_initialized_bytes (ip_row plan) =? ext_size (he_physical (row_extents (ip_row plan))))
  then err HBusy else ok tt.

(** ** Live access *)
Record LiveHeap := mkLive { lv_pointer : HeapPointerPlan; lv_row : PrivateHeapRow }.

Definition cpu_agent (f : Fabric) (agent domain : Z) : bool :=
  is_some_and (λ a, (agent_domain a =? domain) && is_cpu (agent_kind a)) (fab_agents f !! agent).

Definition checked_live_heap (f : Fabric) (owner : AllocationOwner) (agent : Z) (p : ScopedPointer) :
    fallible HeapError LiveHeap :=
  if negb (is_some (fab_domains f !! ao_domain owner)) || negb (cpu_agent f agent (ao_domain owner))
  then err HOwner
  else
    plan ←! prepare_heap_pointer (fab_scoped_pointers f) p owner;
    heap ←? ok_or (fab_private_heap f) HConfiguration;
    row ←? ok_or (heap_row heap (hr_slot (hpp_reservation plan))) HStaleReservation;
    if negb (bool_decide (row_reservation row = hpp_reservation plan))
       || negb (bool_decide (row_owner row = hpp_owner plan))
       || negb (row_logical row =? hpp_logical plan)
       || negb (bool_decide (row_extents row = hpp_extents plan))
       || negb (row_object_generation row =? 0)
       || (hf_object_id_floor heap <=? row_object row)
    then err HStaleReservation
    else if negb (row_planned_rights row =? heap_rights (hpp_writable plan))
    then err (HPointer Rights)
    else if negb (row_initialized_bytes row =? ext_size (he_physical (row_extents row)))
            || (row_initialization_version row =? 0)
    then err HBusy
    else
      _ ←? check_extents heap (row_extents row);
      end_ ←? ok_or (ext_end (he_physical (row_extents row))) HConfiguration;
      if mem_len f <? end_ then err HConfiguration
      else if is_some (fab_objects f !! row_object row) || is_some (fab_placement f !! row_object row)
              || negb (heap_pool_is_private f)
      then err HBusy
      else ok (mkLive plan row).

Definition checked_heap_backing_span (f : Fabric) (logical : Z) (e : HeapExtents)
    (offset length : Z) (cell : bool) : result HeapError HeapSpan :=
  if (length =? 0) || (4096 <? length) || (logical <? offset) || (logical - offset <? length)
  then Err (HPointer Bounds)
  else if cell && (negb (length =? 16) || negb (offset mod 16 =? 0)) then Err HSize
  else span_indices f (ext_base (he_physical e)) offset length.

Definition checked_heap_span (f : Fabric) (live : LiveHeap) (length : Z) (cell : bool) :
    result HeapError HeapSpan :=
  checked_heap_backing_span f (row_logical (lv_row live)) (row_extents (lv_row live))
    (hpp_position (lv_pointer live)) length cell.

Definition authenticate_heap_cell_source (f : Fabric) (owner : AllocationOwner) (agent : Z)
    (p : ScopedPointer) : fallible HeapError unit :=
  if is_heap_pointer (fab_scoped_pointers f) p then
    _ ←! checked_live_heap f owner agent p; ok tt
  else
    _ ←? map_err HPointer (read_span (fab_scoped_pointers f) p (ao_domain owner) (ao_context owner) 0);
    b ←? map_err (λ _, HPointer Stale) (scoped_pointer_backing f p (ao_domain owner));
    if negb (authorize_pointer_output f agent (ao_domain owner) b.1 b.2 0)
    then err (HPointer Rights) else ok tt.

Definition authenticate_source (f : Fabric) (owner : AllocationOwner) (agent : Z)
    (p : option ScopedPointer) : fallible HeapError unit :=
  match p with Some p => authenticate_heap_cell_source f owner agent p | None => ok tt end.

Definition store_heap_pointer_cell (f : Fabric) (owner : AllocationOwner) (agent : Z)
    (destination : ScopedPointer) (source : option ScopedPointer) : fallible HeapError Fabric :=
  live ←! checked_live_heap f owner agent destination;
  if negb (row_planned_rights (lv_row live) =? Perm.RW) then err (HPointer Rights)
  else
    span ←? checked_heap_span f live 16 true;
    _ ←! authenticate_source f owner agent source;
    f ← mem_write f (sp_bytes span).1 (sp_bytes span).2 (pointer_bytes source);
    f ← update_heap f (λ h, shadow ← vec_set (sp_shadow span).1 source (hf_shadow h);
                            Done (set_hf_shadow shadow h));
    ok f.

Definition load_heap_pointer_cell (f : Fabric) (owner : AllocationOwner) (agent : Z)
    (source_cell : ScopedPointer) : fallible HeapError (option ScopedPointer) :=
  live ←! checked_live_heap f owner agent source_cell;
  span ←? checked_heap_span f live 16 true;
  heap ← unwrap (fab_private_heap f);
  pointer ← vec_get (sp_shadow span).1 (hf_shadow heap);
  bytes ← mem_read f (sp_bytes span).1 (sp_bytes span).2;
  if negb (bool_decide (bytes = pointer_bytes pointer)) then err HMissingKind
  else
    _ ←! authenticate_source f owner agent pointer;
    ok pointer.

Definition write_heap_bytes (f : Fabric) (owner : AllocationOwner) (agent : Z)
    (destination : ScopedPointer) (bytes : list Z) : fallible HeapError Fabric :=
  live ←! checked_live_heap f owner agent destination;
  if negb (row_planned_rights (lv_row live) =? Perm.RW) then err (HPointer Rights)
  else
    span ←? checked_heap_span f live (zlen bytes) false;
    f ← mem_write f (sp_bytes span).1 (sp_bytes span).2 bytes;
    f ← update_heap f (λ h, Done (clear_shadow (sp_shadow span) h));
    ok f.

(** [read_heap_bytes] into a buffer of [n] bytes *)
Definition read_heap_bytes (f : Fabric) (owner : AllocationOwner) (agent : Z) (p : ScopedPointer)
    (n : Z) : fallible HeapError (list Z) :=
  live ←! checked_live_heap f owner agent p;
  if n =? 0 then ok []
  else
    span ←? checked_heap_span f live n false;
    bytes ← mem_read f (sp_bytes span).1 (sp_bytes span).2;
    ok bytes.

(** ** Application and closure *)
Definition heap_object_for_pointer (f : Fabric) owner agent p : fallible HeapError ObjectId :=
  live ←! checked_live_heap f owner agent p; ok (row_object (lv_row live)).
Definition authenticate_heap_token (f : Fabric) owner agent p : fallible HeapError unit :=
  _ ←! checked_live_heap f owner agent p; ok tt.

Definition check_heap_application_span `{Profile} (f : Fabric) (owner : AllocationOwner) (agent : Z)
    (p : ScopedPointer) (length : Z) (write : bool) : fallible HeapError unit :=
  live ←! checked_live_heap f owner agent p;
  if write && negb (row_planned_rights (lv_row live) =? Perm.RW) then err (HPointer Rights)
  else if 4096 <? length then err HSize
  else
    room ← sub_u64 (row_logical (lv_row live)) (hpp_position (lv_pointer live));
    if room <? length then err HSize else ok tt.

Definition store_heap_token_in_local `{Profile} (f : Fabric) (r : MemoryRequest)
    (owner : AllocationOwner) (p : ScopedPointer) : outcome (Fabric * result FaultRecord unit) :=
  let denied := Done (f, Err (pointer_cell_fault f r NoCapability)) in
  if negb (ctx_domain (req_context r) =? ao_domain owner) then denied
  else
    a ← authenticate_heap_token f owner (ctx_agent (req_context r)) p;
    if negb (is_ok a) then denied
    else match checked_pointer_cell f r Write with
         | Err e => Done (f, Err e)
         | Ok key => write_tagged_cell f key r (Some p)
         end.

Definition compiler_heap_owner_released (f : Fabric) (owner : AllocationOwner) : bool :=
  is_some_and (λ h, forallb (λ r, negb (bool_decide (row_owner r = owner))) (flatten (hf_rows h)))
    (fab_private_heap f)
  && negb (is_some (heap_account (fab_scoped_pointers f) owner)).

Definition check_attached_heap_custody (f : Fabric) (plan : HeapClosurePlan) (object : ObjectId) :
    result HeapError unit :=
  heap ← ok_or (fab_private_heap f) HConfiguration;
  row ← ok_or (heap_row heap (hr_slot (hcp_reservation plan))) HStaleReservation;
  if negb (bool_decide (row_reservation row = hcp_reservation plan))
     || negb (bool_decide (row_owner row = hcp_owner plan))
     || negb (row_object row =? object) || negb (row_object_generation row =? 0)
     || (hf_object_id_floor heap <=? row_object row)
     || negb (row_logical row =? hcp_logical plan)
     || negb (bool_decide (row_extents row = hcp_extents plan))
     || negb (row_planned_rights row =? heap_rights (hcp_writable plan))
  then Err HStaleReservation
  else
    _ ← check_extents heap (row_extents row);
    if is_none_or (λ n, mem_len f <? n) (ext_end (he_physical (row_extents row)))
    then Err HConfiguration else Ok tt.

Definition close_attached_heap (f : Fabric) (h : HeapReservation) (owner : AllocationOwner)
    (object : ObjectId) : fallible HeapError (Fabric * HeapCloseOutcome) :=
  plan ←! prepare_attached_heap_closure (fab_scoped_pointers f) h owner;
  _ ←? check_attached_heap_custody f plan object;
  x ← commit_attached_heap_closure (fab_scoped_pointers f) plan;
  ok (with_registry f x.1, x.2).
