(* ===== verification/FabricWork.v ===== *)
(** * CPU work and cleanup workers in the fabric: [src/anka64/fabric/heap/work.rs],
    [work/runtime.rs], [workers.rs] and its submodules [cleanup.rs], [recovery.rs]
    and [retirement.rs]

    Admission, execution, cancellation and consumption of queued CPU requests; the
    operations of a cleanup worker on a closed allocation, each under the lease it
    holds: retirement after a complete drain check, scrubbing in chunks, release. *)

From S2P Require Import Prelude State Extents Registry PointerFrames HeapWork HeapLedger HeapWorkers Fabric.
From S2P Require Import FabricCells FabricHeap.

(** [CurrentHeapProcess]: the descriptor of a running process, as the kernel found it *)
Record CurrentHeapProcess := mkCurrent { cp_owner : AllocationOwner; cp_agent : AgentId }.
(** [CurrentHeapProcess::identity] *)
Definition cp_identity (c : CurrentHeapProcess) : CleanupWorkerIdentity :=
  mkWorkerIdentity (ao_process (cp_owner c)) (ao_context (cp_owner c)) (ao_domain (cp_owner c)).

(** [CurrentHeapRetirement], bound to an object no process refers to *)
Record CurrentHeapRetirement := mkCurrentRetirement { crt_worker : CurrentHeapProcess; crt_object : ObjectId }.

(** The domain and CPU agent of a descriptor are current. *)
Definition current_cpu (f : Fabric) (domain : DomainId) (agent : AgentId) : bool :=
  is_some_and (λ d, dom_id d =? domain) (fab_domains f !! domain)
  && is_some_and (λ a, (agent_id a =? agent) && (agent_domain a =? domain) && is_cpu (agent_kind a))
       (fab_agents f !! agent).

(** ** CPU work *)
Definition heap_work (f : Fabric) : option HeapCpuWork := h ← fab_private_heap f; hf_work h.

(** [self.private_heap.as_mut().unwrap().work.as_mut().unwrap()] *)
Definition update_work (f : Fabric) (k : HeapCpuWork → outcome HeapCpuWork) : outcome Fabric :=
  update_heap f (λ h, w ← unwrap (hf_work h); w ← k w; Done (set_hf_work (Some w) h)).

Record Admission := mkAdmitted { ad_revision : Z; ad_pair : PreparedPair }.

Definition prepare_heap_cpu_work (f : Fabric) (current : CurrentHeapProcess) (pointer : option ScopedPointer)
    (length : Z) (write : option (list Z)) (expected : Z) : fallible HeapError Admission :=
  work ←? ok_or (heap_work f) HConfiguration;
  revision ←? prepare_heap_work_revision (fab_scoped_pointers f) expected;
  let owner := cp_owner current in
  let agent := cp_agent current in
  if (ao_context owner =? 0) || negb (current_cpu f (ao_domain owner) agent) then err HOwner
  else
    p ←? ok_or pointer HMissingKind;
    live ←! checked_live_heap f owner agent p;
    if is_some write && negb (row_planned_rights (lv_row live) =? Perm.RW) then err (HPointer Rights)
    else
      _ ←? checked_heap_span f live length false;
      let row := lv_row live in
      let binding := mkBindingOf (hpp_reservation (lv_pointer live)) owner (row_object row)
        (row_object_generation row) (row_logical row) (row_extents row) (row_planned_rights row) agent
        (hpp_position (lv_pointer live)) length (if is_some write then CpuWrite else CpuRead) in
      pair ←! work_prepare work binding write;
      ok (mkAdmitted revision pair).

Definition commit_heap_cpu_work (f : Fabric) (plan : Admission) : outcome (Fabric * HeapWorkTicket) :=
  heap ← unwrap (fab_private_heap f);
  work ← unwrap (hf_work heap);
  x ← work_commit work (ad_pair plan);
  let f := set_fab_private_heap (Some (set_hf_work (Some x.1) heap)) f in
  reg ← commit_heap_work_revision (fab_scoped_pointers f) (ad_revision plan);
  Done (with_registry f reg, x.2).

Definition register_heap_cpu_work (f : Fabric) (current : CurrentHeapProcess) (pointer : option ScopedPointer)
    (length : Z) (write : option (list Z)) (expected : Z) : fallible HeapError (Fabric * HeapWorkTicket) :=
  plan ←! prepare_heap_cpu_work f current pointer length write expected;
  x ← commit_heap_cpu_work f plan; ok x.
Definition register_heap_cpu_read (f : Fabric) (current : CurrentHeapProcess) (pointer : option ScopedPointer)
    (length expected : Z) : fallible HeapError (Fabric * HeapWorkTicket) :=
  register_heap_cpu_work f current pointer length None expected.
Definition register_heap_cpu_write (f : Fabric) (current : CurrentHeapProcess) (pointer : option ScopedPointer)
    (bytes : list Z) (expected : Z) : fallible HeapError (Fabric * HeapWorkTicket) :=
  register_heap_cpu_work f current pointer (zlen bytes) (Some bytes) expected.

Definition check_retained_work_record (f : Fabric) (record : WorkRecord) : fallible HeapError unit :=
  let b := wk_binding record in
  plan ←! prepare_retained_heap_work (fab_scoped_pointers f) (wb_reservation b) (wb_owner b);
  _ ←? check_attached_heap_custody f plan (wb_object b);
  if negb (wb_object_generation b =? 0) || negb (wb_rights b =? heap_rights (hcp_writable plan))
     || (bool_decide (wb_access b = CpuWrite) && negb (wb_rights b =? Perm.RW))
     || negb (wb_logical b =? hcp_logical plan) || negb (bool_decide (wb_extents b = hcp_extents plan))
  then err HStaleWork else ok tt.

(** [checked_work_record]; [validate_heap_work_ticket] is the same checks. *)
Definition checked_work_record (f : Fabric) (ticket : HeapWorkTicket) :
    fallible HeapError (HeapCpuWork * WorkRecord) :=
  work ←? ok_or (heap_work f) HConfiguration;
  _ ←? check_pins work;
  record ←? checked_record work ticket;
  _ ←! check_retained_work_record f record;
  ok (work, record).

Definition execute_heap_cpu_work (f : Fabric) (ticket : HeapWorkTicket) : fallible HeapError Fabric :=
  x ←! checked_work_record f ticket;
  let '(work, record) := x in
  state ← work_state work record;
  if negb (bool_decide (state = RqPrepared)) then err HWorkState
  else if negb (heap_pool_is_private f) then err HBusy
  else
    let b := wk_binding record in
    span ←? checked_heap_backing_span f (wb_logical b) (wb_extents b) (wb_offset b) (wb_length b) false;
    let revision := prepare_heap_work_cleanup_revision (fab_scoped_pointers f) in
    let source := sk_index (wk_source record) in
    f ← match wb_access b with
        | CpuRead =>
            bytes ← mem_read f (sp_bytes span).1 (sp_bytes span).2;
            update_work f (λ w, with_request w source (λ r, set_request_state RqCommitted (set_request_payload bytes r)))
        | CpuWrite =>
            slot ← vec_get source (hw_sources work);
            request ← unwrap (ss_request slot);
            f ← mem_write f (sp_bytes span).1 (sp_bytes span).2 (take (Z.to_nat (wb_length b)) (rq_payload request));
            f ← update_heap f (λ h, Done (clear_shadow (sp_shadow span) h));
            update_work f (λ w, with_request w source (set_request_state RqCommitted))
        end;
    reg ← commit_heap_work_cleanup_revision (fab_scoped_pointers f) revision;
    ok (with_registry f reg).

Definition cancel_heap_cpu_work (f : Fabric) (ticket : HeapWorkTicket) : fallible HeapError Fabric :=
  x ←! checked_work_record f ticket;
  let '(work, record) := x in
  state ← work_state work record;
  if negb (bool_decide (state = RqPrepared)) then err HWorkState
  else
    let revision := prepare_heap_work_cleanup_revision (fab_scoped_pointers f) in
    f ← update_work f (λ w, with_request w (sk_index (wk_source record))
          (λ r, set_request_state RqCancelled (clear_payload r)));
    reg ← commit_heap_work_cleanup_revision (fab_scoped_pointers f) revision;
    ok (with_registry f reg).

(** The census of [current_work_census]: the unconsumed records of one reservation,
    after every record was checked.  Its [dma] count is always zero. *)
Fixpoint count_work (f : Fabric) (selected : HeapReservation) (cpu : Z) (l : list WorkRecord) :
    fallible HeapError Z :=
  match l with
  | [] => ok cpu
  | record :: l =>
      _ ←! check_retained_work_record f record;
      if bool_decide (wb_reservation (wk_binding record) = selected)
      then cpu ←? ok_or (checked_add cpu 1) HConfiguration; count_work f selected cpu l
      else count_work f selected cpu l
  end.

Definition current_work_census (f : Fabric) (selected : HeapReservation) : fallible HeapError Z :=
  heap ←? ok_or (fab_private_heap f) HConfiguration;
  match hf_work heap with
  | None => ok 0
  | Some work => _ ←? check_pins work; count_work f selected 0 (flatten (hw_records work))
  end.

Definition heap_work_census (f : Fabric) (h : HeapReservation) (owner : AllocationOwner) (object : ObjectId) :
    fallible HeapError Z :=
  plan ←! prepare_attached_heap_closure (fab_scoped_pointers f) h owner;
  _ ←? check_attached_heap_custody f plan object;
  current_work_census f h.

Inductive HeapWorkOutcome := WorkCommitted | WorkCancelled.

Definition finish_heap_cpu_work (f : Fabric) (ticket : HeapWorkTicket) :
    fallible HeapError (Fabric * HeapWorkOutcome) :=
  x ←! checked_work_record f ticket;
  let '(work, record) := x in
  state ← work_state work record;
  result ←? match state with
            | RqPrepared => Err HWorkState
            | RqCommitted => Ok WorkCommitted
            | RqCancelled => Ok WorkCancelled
            end;
  census ←! current_work_census f (wb_reservation (wk_binding record));
  if census =? 0 then err HStaleWork
  else
    let revision := prepare_heap_work_cleanup_revision (fab_scoped_pointers f) in
    f ← update_work f (λ w, work_remove w record);
    reg ← commit_heap_work_cleanup_revision (fab_scoped_pointers f) revision;
    ok (with_registry f reg, result).

(** ** Workers *)
Definition checked_cleanup_descriptor (f : Fabric) (current : CurrentHeapProcess) :
    result HeapError CleanupWorkerIdentity :=
  let identity := cp_identity current in
  if negb (is_some (fab_private_heap f)) || (wi_context identity =? 0)
     || negb (current_cpu f (wi_domain identity) (cp_agent current))
  then Err HWorker else Ok identity.

Definition enroll_heap_cleanup_worker (f : Fabric) (current : CurrentHeapProcess) (expected : Z) :
    fallible HeapError (Fabric * CleanupWorker) :=
  identity ←? checked_cleanup_descriptor f current;
  x ←! enroll_cleanup_worker_record (fab_scoped_pointers f) identity expected;
  ok (with_registry f x.1, x.2).

Definition claim_heap_cleanup_job (f : Fabric) (current : CurrentHeapProcess) (w : CleanupWorker)
    (h : HeapReservation) (owner : AllocationOwner) (object : ObjectId) (expected : Z) :
    fallible HeapError (Fabric * CleanupLease) :=
  identity ←? checked_cleanup_descriptor f current;
  plan ←! prepare_heap_worker_claim (fab_scoped_pointers f) w identity h owner expected;
  _ ←? check_attached_heap_custody f (wcp_closure plan) object;
  x ← commit_heap_worker_claim (fab_scoped_pointers f) plan;
  ok (with_registry f x.1, x.2).

Definition authenticate_heap_cleanup_job (f : Fabric) (current : CurrentHeapProcess) (l : CleanupLease)
    (owner : AllocationOwner) (object : ObjectId) : fallible HeapError unit :=
  identity ←? checked_cleanup_descriptor f current;
  plan ←! prepare_heap_worker_lease (fab_scoped_pointers f) l identity owner;
  _ ←? check_attached_heap_custody f plan object;
  ok tt.

Definition check_heap_service_worker (f : Fabric) (current : CurrentHeapProcess) (role : CleanupWorker) :
    result HeapError unit :=
  identity ← checked_cleanup_descriptor f current;
  current_worker (fab_scoped_pointers f) role identity.

Definition heap_cleanup_ready (f : Fabric) (current : CurrentHeapProcess) (l : CleanupLease)
    (owner : AllocationOwner) (object : ObjectId) : fallible HeapError bool :=
  identity ←? checked_cleanup_descriptor f current;
  plan ←! prepare_heap_worker_lease (fab_scoped_pointers f) l identity owner;
  _ ←? check_attached_heap_custody f plan object;
  census ←! current_work_census f (hcp_reservation plan);
  ok ((census =? 0) && heap_pool_is_private f).

(** The names of an object that would let anyone reach it outside the heap *)
Definition object_named (f : Fabric) (object : ObjectId) : bool :=
  is_some (fab_objects f !! object) || is_some (fab_placement f !! object)
  || is_some (fab_pointer_stack_objects f !! object)
  || local_backing_references (fab_scoped_pointers f) object
  || negb (map_all (λ _ d, negb (existsb (λ e, cap_object (entry_cap e) =? object) (dom_capabilities d)
                             || existsb (λ e, dev_object e =? object) (dom_device_authorities d)))
             (fab_domains f)).

Definition check_heap_cleanup_drain (f : Fabric) (plan : HeapClosurePlan) (object : ObjectId) :
    fallible HeapError unit :=
  _ ←? check_attached_heap_custody f plan object;
  census ←! heap_work_census f (hcp_reservation plan) (hcp_owner plan) object;
  if negb (census =? 0) || negb (heap_pool_is_private f) || object_named f object then err HBusy else ok tt.

Definition retire_heap_authority (f : Fabric) (current : CurrentHeapRetirement) (l : CleanupLease)
    (owner : AllocationOwner) : fallible HeapError Fabric :=
  identity ←? checked_cleanup_descriptor f (crt_worker current);
  plan ←! prepare_heap_retirement (fab_scoped_pointers f) l identity owner;
  _ ←! check_heap_cleanup_drain f (wtp_closure plan) (crt_object current);
  reg ← commit_heap_retirement (fab_scoped_pointers f) plan;
  ok (with_registry f reg).

Definition revoke_heap_cleanup_job (f : Fabric) (l : CleanupLease) (owner : AllocationOwner) (object : ObjectId) :
    fallible HeapError Fabric :=
  plan ←! prepare_heap_worker_revoke (fab_scoped_pointers f) l owner;
  _ ←? check_attached_heap_custody f (wrp_closure plan) object;
  reg ← commit_heap_worker_recovery (fab_scoped_pointers f) plan;
  ok (with_registry f reg).

Definition recover_heap_cleanup_job (f : Fabric) (l : CleanupLease) (owner : AllocationOwner) (object : ObjectId) :
    fallible HeapError Fabric :=
  plan ←! prepare_heap_worker_recovery (fab_scoped_pointers f) l owner;
  let closure := wrp_closure plan in
  _ ←? check_attached_heap_custody f closure object;
  _ ←! (if plan_retired closure then check_heap_cleanup_drain f closure object
        else _ ←! heap_work_census f (hcp_reservation closure) owner object; ok tt);
  if negb (heap_pool_is_private f) then err HBusy
  else
    reg ← commit_heap_worker_recovery (fab_scoped_pointers f) plan;
    ok (with_registry f reg).

(** ** Scrubbing and release *)
Record HeapCleanupSnapshot := mkSnapshot { sn_row : PrivateHeapRow; sn_status : HeapCleanupStatus }.

Definition snapshot_rounded (s : HeapCleanupSnapshot) : Z := ext_size (he_physical (row_extents (sn_row s))).
Definition snapshot_completed (s : HeapCleanupSnapshot) : Z :=
  progress_done (cr_progress (cs_job (sn_status s))) (snapshot_rounded s).

(** [private_heap.as_ref().unwrap().rows[slot]] *)
Definition custody_row (f : Fabric) (slot : nat) : outcome (option PrivateHeapRow) :=
  heap ← unwrap (fab_private_heap f); vec_get slot (hf_rows heap).

Definition begin_heap_scrub (f : Fabric) (current : CurrentHeapRetirement) (l : CleanupLease)
    (owner : AllocationOwner) : fallible HeapError (Fabric * HeapCleanupSnapshot) :=
  identity ←? checked_cleanup_descriptor f (crt_worker current);
  plan ←! prepare_heap_scrub_begin (fab_scoped_pointers f) l identity owner;
  _ ←! check_heap_cleanup_drain f (kp_closure plan) (crt_object current);
  row ← custody_row f (hr_slot (hcp_reservation (kp_closure plan)));
  row ← unwrap row;
  x ← commit_heap_scrub (fab_scoped_pointers f) plan;
  ok (with_registry f x.1, mkSnapshot row x.2).

Definition check_cleanup_snapshot_row (f : Fabric) (current : CurrentHeapRetirement)
    (snapshot : HeapCleanupSnapshot) (plan : HeapClosurePlan) : fallible HeapError unit :=
  if negb (crt_object current =? row_object (sn_row snapshot)) then err HStaleCleanup
  else
    _ ←! check_heap_cleanup_drain f plan (crt_object current);
    row ← custody_row f (hr_slot (hcp_reservation plan));
    if negb (bool_decide (row = Some (sn_row snapshot))) then err HStaleCleanup else ok tt.

Definition scrub_heap_chunk (f : Fabric) (current : CurrentHeapRetirement) (snapshot : HeapCleanupSnapshot)
    (amount : Z) : fallible HeapError (Fabric * HeapCleanupSnapshot) :=
  identity ←? checked_cleanup_descriptor f (crt_worker current);
  plan ←! prepare_heap_scrub_chunk (fab_scoped_pointers f) (sn_status snapshot) identity
            (row_owner (sn_row snapshot)) amount;
  _ ←! check_cleanup_snapshot_row f current snapshot (kp_closure plan);
  let e := hcp_extents (kp_closure plan) in
  let size := ext_size (he_physical e) in
  let offset := progress_done (cr_progress (kp_prior plan)) size in
  span ←? checked_heap_backing_span f size e offset amount false;
  f ← mem_fill f (sp_bytes span).1 (sp_bytes span).2;
  f ← update_heap f (λ h, Done (clear_shadow (sp_shadow span) h));
  x ← commit_heap_scrub (fab_scoped_pointers f) plan;
  ok (with_registry f x.1, mkSnapshot (sn_row snapshot) x.2).

Definition release_clean_heap `{Profile} (f : Fabric) (current : CurrentHeapRetirement)
    (snapshot : HeapCleanupSnapshot) : fallible HeapError Fabric :=
  identity ←? checked_cleanup_descriptor f (crt_worker current);
  plan ←! prepare_heap_release (fab_scoped_pointers f) (sn_status snapshot) identity (row_owner (sn_row snapshot));
  let closure := kp_closure (rp_cleanup plan) in
  _ ←! check_cleanup_snapshot_row f current snapshot closure;
  reg ← commit_heap_release (fab_scoped_pointers f) plan;
  f ← update_heap (with_registry f reg) (λ h, remove_row h (hr_slot (hcp_reservation closure)));
  ok f.

(** ** The directory *)
Definition row_of_job (f : Fabric) (job : HeapJob) : option PrivateHeapRow :=
  heap ← fab_private_heap f;
  List.find (λ r, bool_decide (row_reservation r = hj_reservation job)
                  && bool_decide (row_owner r = hj_owner job)) (flatten (hf_rows heap)).
Definition heap_job_object (f : Fabric) (job : HeapJob) : option ObjectId := row_object <$> row_of_job f job.
Definition heap_cleanup_snapshot (f : Fabric) (job : HeapJob) : option HeapCleanupSnapshot :=
  row ← row_of_job f job; status ← hj_progress job; Some (mkSnapshot row status).
