(* ===== verification/HeapCustody.v ===== *)
(** * Custody of the heap pool

    The memory of the pool belongs to the rows of the private heap.  The invariant
    [custody] relates the rows to the allocations of the registry: extents agree and
    never meet, and as much of a retired allocation is zero and free of pointers as
    its job claims.  Everything that happens outside the heap leaves the pool alone. *)

From S2P Require Import Prelude State Extents ExtentsFacts Registry PointerFrames HeapWork HeapLedger HeapWorkers RegistrySafety RegistryOps.
From S2P Require Import HeapLives HeapMoves Fabric FabricCells FabricHeap FabricWork.

(** ** Bytes and cells of the pool *)
Definition byte_at (f : Fabric) (a : Z) : option Z := fab_memory f !! Z.to_nat a.
Definition in_pool (h : HeapFabric) (a : Z) : Prop := 0 ≤ a ∧ ext_base (hf_pool h) ≤ a < heap_end h.
(** The shadow cell of an aligned address *)
Definition cell_of (h : HeapFabric) (a : Z) : nat := Z.to_nat ((a - ext_base (hf_pool h)) / 16).

(** The first [n] bytes from [base] on are zero, and no cell among them holds a pointer. *)
Record scrubbed (f : Fabric) (h : HeapFabric) (base n : Z) : Prop := {
  sc_bytes a : base ≤ a < base + n → byte_at f a = Some 0;
  sc_cells a : base ≤ a < base + n → a mod 16 = 0 → hf_shadow h !! cell_of h a = Some None;
}.

(** From [f] to [f'] the pool changes only between [lo] and [hi]; elsewhere a cell may
    only lose its pointer. *)
Record near (f f' : Fabric) (h h' : HeapFabric) (lo hi : Z) : Prop := {
  nr_heap : fab_private_heap f' = Some h';
  nr_pool : hf_pool h' = hf_pool h;
  nr_window : hf_virtual_window h' = hf_virtual_window h;
  nr_length : length (hf_shadow h') = length (hf_shadow h);
  nr_bytes a : in_pool h a → ¬ lo ≤ a < hi → byte_at f' a = byte_at f a;
  nr_cells k : hf_shadow h' !! k = hf_shadow h !! k ∨ hf_shadow h' !! k = Some None ∨
    ∃ a, a mod 16 = 0 ∧ lo ≤ a < hi ∧ k = cell_of h a;
}.

Lemma cell_of_inj h a b : ext_base (hf_pool h) ≤ a → ext_base (hf_pool h) ≤ b → a mod 16 = 0 → b mod 16 = 0 →
  cell_of h a = cell_of h b → a = b.
Proof.
  unfold cell_of. intros Ha Hb Hma Hmb E. set (p := ext_base (hf_pool h)) in *.
  assert ((a - p) / 16 = (b - p) / 16) as E'.
  { pose proof (Z.div_pos (a - p) 16). pose proof (Z.div_pos (b - p) 16). lia. }
  pose proof (Z.div_mod a 16). pose proof (Z.div_mod b 16).
  pose proof (Z.div_mod (a - p) 16). pose proof (Z.div_mod (b - p) 16).
  pose proof (Z.mod_pos_bound (a - p) 16). pose proof (Z.mod_pos_bound (b - p) 16). lia.
Qed.

Lemma scrubbed_near f f' h h' lo hi base n : near f f' h h' lo hi → scrubbed f h base n →
  0 ≤ base → ext_base (hf_pool h) ≤ base → base + n ≤ heap_end h → base + n ≤ lo ∨ hi ≤ base ∨ n ≤ 0 →
  (lo < hi → ext_base (hf_pool h) ≤ lo) → scrubbed f' h' base n.
Proof.
  intros [N1 N2 N3 N4 N5 N6] [S1 S2] H0 Hb He Hap Hlo. split.
  - intros a Ha. rewrite N5; [by apply S1|split; lia|lia].
  - intros a Ha Hm. assert (cell_of h' a = cell_of h a) as -> by (unfold cell_of; by rewrite N2).
    destruct (N6 (cell_of h a)) as [->|[?|(b&Hbm&Hb2&E)]]; [by apply S2|done|].
    apply cell_of_inj in E; [lia|lia|lia|done|done].
Qed.

(** ** The invariant *)
Definition apart (a b : Extent) : Prop := ext_base a + ext_size a ≤ ext_base b ∨ ext_base b + ext_size b ≤ ext_base a.

Record row_ok (f : Fabric) (h : HeapFabric) (i : nat) (row : PrivateHeapRow) (s : Slot) (rec : HeapRecord) (j : CleanupRecord) : Prop := {
  ro_life : life (fab_scoped_pointers f) i s rec j;
  ro_attached : hrec_ever_attached rec = true;
  ro_extents : hrec_extents rec = Some (row_extents row);
  ro_res : cr_reservation j = row_reservation row;
  ro_fits : check_extents h (row_extents row) = Ok tt;
  ro_scrubbed : scrubbed f h (ext_base (he_physical (row_extents row)))
    (progress_done (cr_progress j) (ext_size (he_physical (row_extents row))));
  ro_done : 0 ≤ progress_done (cr_progress j) (ext_size (he_physical (row_extents row))) ≤ Z.max 0 (ext_size (he_physical (row_extents row)));
}.

Record custody (f : Fabric) (h : HeapFabric) : Prop := {
  cu_heap : fab_private_heap f = Some h;
  cu_pool : 0 ≤ ext_base (hf_pool h);
  cu_wf : heap_wf (fab_scoped_pointers f);
  cu_rows i row : heap_row h i = Some row → ∃ s rec j, row_ok f h i row s rec j;
  cu_apart i1 i2 row1 row2 : i1 ≠ i2 → heap_row h i1 = Some row1 → heap_row h i2 = Some row2 →
    apart (he_physical (row_extents row1)) (he_physical (row_extents row2));
  cu_init i row : heap_row h i = Some row → 0 ≤ row_initialized_bytes row;
  cu_work w k rec : hf_work h = Some w → record_at w k = Some rec → 0 ≤ wb_offset (wk_binding rec);
}.

(** What the checks of an extent say *)
Lemma shadow_index_Some h a k : shadow_index h a = Some k →
  a mod 16 = 0 ∧ ext_base (hf_pool h) ≤ a ∧ a + 16 ≤ heap_end h ∧ k = cell_of h a ∧ (k < length (hf_shadow h))%nat.
Proof.
  unfold shadow_index, cell_of, heap_end. intros E.
  destruct (checked_sub _ _) as [o|] eqn:Ho; [|done]. apply checked_sub_Some in Ho as [? ->]. cbn [mbind option_bind] in E.
  destruct (checked_add _ _) as [q|] eqn:Hq; [|done]. apply checked_add_Some in Hq as [? ->]. cbn [mbind option_bind] in E.
  destruct (_ || _) eqn:Hc; [done|]. bools. cbv zeta in E. destruct (_ <? _)%nat eqn:Hl; [|done]. injection E as <-.
  apply Nat.ltb_lt in Hl. split_and!; try done; lia.
Qed.
Record fits (h : HeapFabric) (e : Extent) : Prop := {
  ft_base : 0 ≤ ext_base e ∧ ext_base (hf_pool h) ≤ ext_base e ∧ ext_base e ≤ heap_end h;
  ft_end : ext_base e + ext_size e ≤ heap_end h;
  ft_aligned : ext_base e mod 16 = 0;
}.
Lemma check_extents_fits h e : check_extents h e = Ok tt → 0 ≤ ext_base (hf_pool h) → fits h (he_physical e).
Proof.
  unfold check_extents. intros E. destruct (_ || _) eqn:Hc; [done|]. bools. unfold ext_end in *.
  destruct (checked_add (ext_base (he_physical e)) _) as [q|] eqn:Hq; [|done]. apply checked_add_Some in Hq as [? ->].
  destruct (shadow_index h (ext_base (he_physical e))) as [k|] eqn:Hk; [|done]. apply shadow_index_Some in Hk as (?&?&?&?&?).
  cbn in *. bools. split; try lia; done.
Qed.
Lemma check_extents_layout h h' e : hf_pool h' = hf_pool h → hf_virtual_window h' = hf_virtual_window h →
  length (hf_shadow h') = length (hf_shadow h) → check_extents h' e = check_extents h e.
Proof.
  intros Hp Hw Hs. unfold check_extents, shadow_index, heap_end, window_end. by rewrite Hp, Hw, Hs.
Qed.

(** ** Steps *)
Lemma heap_keep_at X f f' i s rec j : advances X (fab_scoped_pointers f) (fab_scoped_pointers f') →
  heap_wf (fab_scoped_pointers f) → ¬ X i → life (fab_scoped_pointers f) i s rec j → hrec_ever_attached rec = true →
  ∃ s' rec' j', life (fab_scoped_pointers f') i s' rec' j' ∧ goes_on s rec j s' rec' j'.
Proof. intros Ha Hw. destruct (Ha Hw) as [_ [Hk _ _]]. apply Hk. Qed.

Lemma progress_le_done p p' n : progress_le p p' → progress_done p' n = progress_done p n ∨ progress_done p' n = 0.
Proof. intros [->|[->| ->]]; auto. Qed.
Lemma scrubbed_le f h base n m : scrubbed f h base n → m ≤ n → scrubbed f h base m.
Proof. intros [S1 S2] ?. split; intros; [apply S1|apply S2]; try done; lia. Qed.
Lemma scrubbed_none f h base n : n ≤ 0 → scrubbed f h base n.
Proof. split; intros; lia. Qed.

(** [row'] is [row] with other progress of initialization. *)
Definition same_place (row row' : PrivateHeapRow) : Prop :=
  row_extents row' = row_extents row ∧ row_reservation row' = row_reservation row.

Section near.
Context (f f' : Fabric) (h h' : HeapFabric) (lo hi : Z) (X : nat → Prop).
Hypothesis Hcu : custody f h.
Hypothesis Hnear : near f f' h h' lo hi.
Hypothesis Hreg : advances X (fab_scoped_pointers f) (fab_scoped_pointers f').
Hypothesis Hlo : lo < hi → ext_base (hf_pool h) ≤ lo.

Lemma row_near i row row' s rec j : row_ok f h i row s rec j → same_place row row' → ¬ X i →
  ext_base (he_physical (row_extents row)) + progress_done (cr_progress j) (ext_size (he_physical (row_extents row))) ≤ lo ∨
    hi ≤ ext_base (he_physical (row_extents row)) ∨
    progress_done (cr_progress j) (ext_size (he_physical (row_extents row))) ≤ 0 →
  ∃ s' rec' j', row_ok f' h' i row' s' rec' j'.
Proof.
  intros [] [He Hr] HX Hap. destruct (heap_keep_at X f f' i s rec j) as (s'&rec'&j'&Hl&[]); [done|apply Hcu|done..|].
  exists s', rec', j'. pose proof Hnear as [N1 N2 N3 N4 _ _].
  pose proof (check_extents_fits _ _ ro_fits0 (cu_pool _ _ Hcu)) as [[? [? ?]] Hend _]. split; rewrite ?He, ?Hr; try congruence.
  - by rewrite (check_extents_layout h h').
  - apply (progress_le_done _ _ (ext_size (he_physical (row_extents row)))) in go_progress as [->| ->]; [|by apply scrubbed_none].
    apply (scrubbed_near f f' h h' lo hi); try done. lia.
  - apply (progress_le_done _ _ (ext_size (he_physical (row_extents row)))) in go_progress as [->| ->]; [done|lia].
Qed.

(** The region is apart from what has been scrubbed of the allocation. *)
Definition clear_of (row : PrivateHeapRow) (j : CleanupRecord) : Prop :=
  let e := he_physical (row_extents row) in
  ext_base e + progress_done (cr_progress j) (ext_size e) ≤ lo ∨ hi ≤ ext_base e ∨ progress_done (cr_progress j) (ext_size e) ≤ 0.

Lemma custody_near :
  (∀ i row', heap_row h' i = Some row' →
     (∃ s rec j, row_ok f' h' i row' s rec j) ∨
     (¬ X i ∧ ∃ row, heap_row h i = Some row ∧ same_place row row' ∧
        ∀ s rec j, row_ok f h i row s rec j → clear_of row j)) →
  (∀ i1 i2 row1 row2, i1 ≠ i2 → heap_row h' i1 = Some row1 → heap_row h' i2 = Some row2 →
    apart (he_physical (row_extents row1)) (he_physical (row_extents row2))) →
  (∀ i row, heap_row h' i = Some row → 0 ≤ row_initialized_bytes row) →
  (∀ w k rec, hf_work h' = Some w → record_at w k = Some rec → 0 ≤ wb_offset (wk_binding rec)) →
  custody f' h'.
Proof.
  intros Hrows Hapart Hinit Hwork. split; try done.
  - apply Hnear.
  - rewrite (nr_pool _ _ _ _ _ _ Hnear). apply Hcu.
  - apply Hreg, Hcu.
  - intros i row' Hi. destruct (Hrows i row' Hi) as [?|(HX&row&Hrow&Hsame&Hc)]; [done|].
    destruct (cu_rows _ _ Hcu i row Hrow) as (s&rec&j&Hok). by eapply row_near; [exact Hok|exact Hsame|exact HX|eapply Hc].
Qed.

(** The same rows *)
Lemma custody_rows :
  (∀ i, ¬ X i) → (∀ i row', heap_row h' i = Some row' → ∃ row, heap_row h i = Some row ∧ same_place row row' ∧
     ∀ s rec j, row_ok f h i row s rec j → clear_of row j) →
  (∀ i row, heap_row h' i = Some row → 0 ≤ row_initialized_bytes row) →
  (∀ w k rec, hf_work h' = Some w → record_at w k = Some rec → 0 ≤ wb_offset (wk_binding rec)) →
  custody f' h'.
Proof.
  intros HX Hrows Hinit Hwork. apply custody_near; [| |done|done].
  - intros i row' Hi. right. split; [apply HX|by apply Hrows].
  - intros i1 i2 row1 row2 Hne H1 H2. destruct (Hrows _ _ H1) as (r1&E1&[-> _]&_), (Hrows _ _ H2) as (r2&E2&[-> _]&_).
    by eapply cu_apart.
Qed.

(** A change inside one row whose allocation has not been scrubbed *)
Lemma clear_inside i0 row0 : heap_row h i0 = Some row0 → (∀ s rec j, row_ok f h i0 row0 s rec j → cr_progress j = Pending) →
  ext_base (he_physical (row_extents row0)) ≤ lo →
  hi ≤ ext_base (he_physical (row_extents row0)) + ext_size (he_physical (row_extents row0)) →
  ∀ i row s rec j, heap_row h i = Some row → row_ok f h i row s rec j → clear_of row j.
Proof.
  intros H0 Hp Hl Hh i row s rec j Hi Hok. unfold clear_of. destruct (decide (i = i0)) as [->|Hne].
  - simplify_eq. rewrite (Hp _ _ _ Hok). cbn. lia.
  - pose proof (ro_done _ _ _ _ _ _ _ Hok). destruct (cu_apart _ _ Hcu i i0 row row0); try done; lia.
Qed.
End near.

(** ** What leaves the pool alone *)
Record undisturbed (f f' : Fabric) : Prop := {
  ud_heap : fab_private_heap f' = fab_private_heap f;
  ud_bytes h a : fab_private_heap f = Some h → in_pool h a → byte_at f' a = byte_at f a;
  ud_registry X : advances X (fab_scoped_pointers f) (fab_scoped_pointers f');
}.
Lemma registry_undisturbed f r : (∀ X, advances X (fab_scoped_pointers f) r) → undisturbed f (with_registry f r).
Proof. by split. Qed.

Lemma undisturbed_custody f f' h : undisturbed f f' → custody f h → custody f' h.
Proof.
  intros [O1 O2 O3] Hc. assert (near f f' h h 0 0) as Hn.
  { pose proof (cu_heap _ _ Hc) as Hh. split; try done; [by rewrite O1| |auto]. intros a Ha _. by apply (O2 h). }
  apply (custody_rows f f' h h 0 0 nobody Hc Hn); [apply O3|lia|by intros i []| |apply Hc|apply Hc].
  intros i row Hi. exists row. split; [done|]. split; [done|]. intros s rec j Hok.
  pose proof (check_extents_fits _ _ (ro_fits _ _ _ _ _ _ _ Hok) (cu_pool _ _ Hc)) as [[? _] _ _]. right; left. lia.
Qed.

(** ** What happens outside the heap

    The rest of the machine does not touch the pool, and uses the registry for the
    scopes and locals of its frames. *)
Record outside `{Profile} (f f' : Fabric) : Prop := {
  os_heap : fab_private_heap f' = fab_private_heap f;
  os_bytes h a : fab_private_heap f = Some h → in_pool h a → byte_at f' a = byte_at f a;
  os_registry : rtc scope_op (fab_scoped_pointers f) (fab_scoped_pointers f');
}.
#[export] Instance outside_preorder `{Profile} : PreOrder outside.
Proof.
  split; [intros f; split; [done|done|reflexivity]|]. intros a b c [A1 A2 A3] [B1 B2 B3]. split.
  - congruence.
  - intros h x Hh Hx. rewrite (B2 h), (A2 h); [done..|congruence|done].
  - by etransitivity.
Qed.
Lemma outside_undisturbed `{Profile} f f' : outside f f' → undisturbed f f'.
Proof. intros [O1 O2 O3]. split; [done|done|]. intros X. by eapply scope_run_advances. Qed.

(** Writes *)
Lemma mem_write_spec f b e d f' : mem_write f b e d = Done f' →
  fab_private_heap f' = fab_private_heap f ∧ fab_scoped_pointers f' = fab_scoped_pointers f ∧ 0 ≤ b ≤ e ∧ e ≤ mem_len f ∧
  (∀ a, 0 ≤ a → ¬ b ≤ a < e → byte_at f' a = byte_at f a) ∧ (∀ a, b ≤ a < e → byte_at f' a = d !! Z.to_nat (a - b)).
Proof.
  unfold mem_write, mem_len, zlen. intros E. destruct (_ && _) eqn:Hc; [|done]. injection E as <-. bools.
  split_and!; try done; unfold byte_at; cbn.
  - intros a Ha Hn. apply splice_outside. lia.
  - intros a Ha. replace (Z.to_nat a) with (Z.to_nat b + Z.to_nat (a - b))%nat by lia. apply splice_inside; lia.
Qed.
Lemma mem_fill_zero f b e f' a : mem_fill f b e = Done f' → b ≤ a < e → byte_at f' a = Some 0.
Proof.
  unfold mem_fill. intros (_&_&_&_&_&Hb)%mem_write_spec Ha. rewrite Hb by done. apply lookup_replicate. split; [done|lia].
Qed.

Lemma pool_free f b n h a : heap_pool_overlaps f b n = false → fab_private_heap f = Some h → in_pool h a → ¬ b ≤ a < b + n.
Proof.
  unfold heap_pool_overlaps, heap_overlaps. intros E Hh [? [? ?]] Ha. rewrite Hh in E. cbn in E. destruct (n =? 0) eqn:Hn; [bools; lia|].
  destruct (checked_add b n) as [e|] eqn:He; [|done]. apply checked_add_Some in He as [_ ->]. cbn in E. bools; lia.
Qed.
Lemma mem_write_outside `{Profile} f b e d f' : mem_write f b e d = Done f' → heap_pool_overlaps f b (e - b) = false → outside f f'.
Proof.
  intros (H1&H2&H3&_&H4&_)%mem_write_spec Ho. split; [done| |by rewrite H2].
  intros h a Hh Ha. apply H4; [apply Ha|]. pose proof (pool_free f b (e - b) h a Ho Hh Ha). lia.
Qed.

(** Everything but memory, heap and registry *)
Definition apart_from_heap (f f' : Fabric) : Prop :=
  fab_private_heap f' = fab_private_heap f ∧ fab_memory f' = fab_memory f ∧ fab_scoped_pointers f' = fab_scoped_pointers f.
#[export] Instance apart_from_heap_preorder : PreOrder apart_from_heap.
Proof. split; [done|]. intros a b c (?&?&?) (?&?&?). split_and!; congruence. Qed.
Lemma apart_outside `{Profile} f f' : apart_from_heap f f' → outside f f'.
Proof. intros (H1&H2&H3). split; [done| |by rewrite H3]. intros. unfold byte_at. by rewrite H2. Qed.
Lemma registry_outside `{Profile} f r : rtc scope_op (fab_scoped_pointers f) r → outside f (with_registry f r).
Proof. by split. Qed.
