(* ===== verification/HeapOutside.v ===== *)
(** * The rest of the machine stays out of the pool

    Every fabric operation that is not one of the private heap - transactions,
    initialization and erasure of objects, the bookkeeping of objects, domains and
    authorities, pointer frames and tagged cells - leaves the memory of the pool, the
    rows and shadow, and the lives of allocations alone. *)

From S2P Require Import Prelude State Extents Registry PointerFrames HeapLedger RegistrySafety RegistryOps HeapLives HeapMoves.
From S2P Require Import Fabric FabricTx FabricAuth FabricInv FabricCells FabricHeap FabricWork HeapCustody.

Create HintDb pool.
#[export] Hint Resolve apart_outside mem_write_outside : pool.

Lemma clear_cells_apart f b n f' : clear_pointer_cells_physical f b n = Done f' → apart_from_heap f f'.
Proof.
  unfold clear_pointer_cells_physical. intros Hc. destruct (n =? 0); [by guards|].
  destruct (checked_add b n); [|done]. cbn in Hc. by guards.
Qed.
Lemma update_tx_apart f i k f' : update_tx f i k = Done f' → apart_from_heap f f'.
Proof. unfold update_tx. destruct (vec_get _ _); [|done]. cbn. intros. by guards. Qed.
Lemma fault_tx_apart f i r f' : fault_tx f i r = Done f' → apart_from_heap f f'.
Proof. unfold fault_tx. destruct (vec_get _ _); [|done]. cbn. intros. by guards. Qed.
#[export] Hint Resolve clear_cells_apart update_tx_apart fault_tx_apart : pool.

(** Cells lose their kind, then the bytes are written; the caller has checked the pool. *)
Lemma cells_then_write `{Profile} f b n e d g f' : clear_pointer_cells_physical f b n = Done g → mem_write g b e d = Done f' →
  heap_pool_overlaps f b (e - b) = false → outside f f'.
Proof.
  intros Hc%clear_cells_apart Hw Ho. etransitivity; [by apply apart_outside|]. eapply mem_write_outside; [done|].
  unfold heap_pool_overlaps in *. by destruct Hc as [-> _].
Qed.
Lemma precommit_span f i g b e : validate_precommit f i = Done (g, Some (b, e)) → g = f ∧ heap_pool_overlaps f b (e - b) = false.
Proof.
  unfold validate_precommit. intros Hv. run_binds Hv; guards; (split; [done|]).
  all: match goal with E : checked_add _ _ = Some _ |- _ => apply checked_add_Some in E as [_ ->] end.
  all: by replace (b + _ - b) with (req_length (tx_request x)) by lia.
Qed.
Lemma precommit_apart f i g s : validate_precommit f i = Done (g, s) → apart_from_heap f g.
Proof. unfold validate_precommit. intros Hc. run_binds Hc; guards; eauto with pool; reflexivity. Qed.
Lemma commit_write_outside `{Profile} f i b e f' : commit_write f i b e = Done f' → heap_pool_overlaps f b (e - b) = false → outside f f'.
Proof. unfold commit_write. intros Hc Ho. run_binds Hc. by eapply cells_then_write. Qed.

Lemma phase_commit_outside `{Profile} f i f' : phase_commit f i = Done f' → outside f f'.
Proof.
  unfold phase_commit. intros Hc. run_binds Hc; guards; [|by eapply apart_outside, precommit_apart].
  match goal with E : validate_precommit _ _ = _ |- _ => apply precommit_span in E as [-> Ho] end.
  etransitivity; [|by eapply apart_outside, update_tx_apart].
  match goal with E : (if _ then _ else _) = Done _ |- _ => run_binds E end; [by eapply commit_write_outside|].
  by eapply apart_outside, update_tx_apart.
Qed.
Lemma advance_outside `{Profile} f i f' : advance f i = Done f' → outside f f'.
Proof.
  unfold advance. intros Ha. run_binds Ha; try (guards; reflexivity).
  - unfold phase_authorize in Ha. run_binds Ha; eauto with pool.
  - unfold phase_translate in Ha. run_binds Ha; eauto with pool.
  - by eapply phase_commit_outside.
Qed.

Section profile.
Context `{Profile}.
Lemma submit_outside f r d f' i : submit f r d = Done (f', i) → outside f f'.
Proof.
  unfold submit. intros Hs. run_binds Hs. guards. apply apart_outside.
  match goal with E : (if _ then _ else _) = Done _ |- _ => run_binds E end; [|by guards].
  by match goal with E : fault_tx _ _ _ = Done _ |- _ => apply fault_tx_apart in E end.
Qed.
Lemma advance3_outside f i f' : advance3 f i = Done f' → outside f f'.
Proof. unfold advance3. intros Hs. run_binds Hs. do 2 (etransitivity; [by eapply advance_outside|]). by eapply advance_outside. Qed.
Lemma execute_write_outside f r d f' x : execute_write f r d = Done (f', x) → outside f f'.
Proof.
  unfold execute_write. intros Hs. run_binds Hs; guards.
  all: etransitivity; [by eapply submit_outside|by eapply advance3_outside].
Qed.
Lemma execute_read_outside f r f' x : execute_read f r = Done (f', x) → outside f f'.
Proof.
  unfold execute_read. intros Hs. run_binds Hs; guards.
  all: etransitivity; [by eapply submit_outside|by eapply advance3_outside].
Qed.
Lemma execute_xchg_outside f r d f' x : execute_atomic_xchg f r d = Done (f', x) → outside f f'.
Proof.
  unfold execute_atomic_xchg. intros Hs. run_binds Hs; guards.
  all: etransitivity; [by eapply submit_outside|].
  all: do 2 (etransitivity; [by eapply advance_outside|]); try reflexivity.
  - match goal with E : validate_precommit _ _ = _ |- _ => apply precommit_span in E as [-> Ho] end.
    etransitivity; [by eapply commit_write_outside|]. by eapply apart_outside, update_tx_apart.
  - by eapply apart_outside, precommit_apart.
Qed.
End profile.

(** ** Other writers *)
Ltac span_length := match goal with E : checked_add _ _ = Some ?e |- heap_pool_overlaps _ ?b (?e - ?b) = false =>
  apply checked_add_Some in E as [_ ->]; match goal with |- heap_pool_overlaps _ ?b (?b + ?n - ?b) = _ => by replace (b + n - b) with n by lia end end.

Lemma initialize_object_outside `{Profile} f id off d f' b : initialize_object f id off d = Done (f', b) → outside f f'.
Proof.
  unfold initialize_object. intros Hs. run_binds Hs; guards; try reflexivity. eapply cells_then_write; [done|done|]. span_length.
Qed.
Lemma zero_object_extent_outside `{Profile} f id f' b : zero_object_extent f id = Done (f', b) → outside f f'.
Proof.
  unfold zero_object_extent. intros Hs. run_binds Hs; guards; try reflexivity. eapply cells_then_write; [done|done|]. span_length.
Qed.
Lemma zero_physical_outside `{Profile} f base n f' : zero_physical f base n = Done f' → outside f f'.
Proof.
  unfold zero_physical. intros Hs. run_binds Hs; guards; try reflexivity. eapply cells_then_write; [done|done|]. span_length.
Qed.
Lemma try_write_physical_outside `{Profile} f a d f' b : try_write_physical f a d = Done (f', b) → outside f f'.
Proof.
  unfold try_write_physical. intros Hs. run_binds Hs; guards; try reflexivity. eapply cells_then_write; [done|done|]. span_length.
Qed.

(** ** Objects, domains and authorities *)
Lemma push_capability_apart f d e f' : push_capability f d e = Some f' → apart_from_heap f f'.
Proof. intros (s&Hs&->)%push_capability_Some. done. Qed.
Lemma push_device_apart f d e f' : push_device f d e = Some f' → apart_from_heap f f'.
Proof. unfold push_device. intros E. walk E. by guards. Qed.
Lemma create_apart `{Profile} f f' d : create_domain f = Done (f', d) → apart_from_heap f f'.
Proof. unfold create_domain. intros E. walk E. by guards. Qed.
Lemma delegate_apart `{Profile} f p off len q f' x : delegate_into_fresh f p off len q = Done (f', x) → apart_from_heap f f'.
Proof.
  unfold delegate_into_fresh. intros E. destruct (create_domain f) as [[f1 d]|] eqn:Ec; [cbn in E|done].
  apply create_apart in Ec. destruct (derive f1 _ _ _ _ _) as [[f2 c]|] eqn:Ed; guards; [|done].
  apply derive_inv in Ed as (_&_&_&_&Hp). apply push_capability_apart in Hp. by etransitivity.
Qed.

(** A step of the fabric is a calm one, which the heap operations are, or stays out of the pool. *)
Lemma step_outside `{Profile} f M f' M' : fab_step f M f' M' → calm f f' ∨ outside f f'.
Proof.
  destruct 1.
  all: try (left; match goal with E : calm _ _ |- _ => exact E end).
  all: right.
  all: try first [by eapply initialize_object_outside|by eapply zero_object_extent_outside|by eapply zero_physical_outside
          |by eapply try_write_physical_outside|by eapply submit_outside|by eapply advance_outside|by eapply execute_write_outside
          |by eapply execute_read_outside|by eapply execute_xchg_outside].
  all: apply apart_outside; try done.
  all: match goal with
    | E : alloc_object _ _ _ _ = _ |- _ => unfold alloc_object, try_alloc_object in E; walk E; guards; unfold unwrap in E; walk E
    | E : place_object _ _ _ = _ |- _ => unfold place_object in E; walk E
    | E : seal_object _ _ = _ |- _ => unfold seal_object in E; walk E
    | E : rollback_unpublished_object _ _ = _ |- _ => unfold rollback_unpublished_object in E; walk E
    | E : remove_by_authority_id _ _ _ = _ |- _ => unfold remove_by_authority_id in E; walk E
    | E : create_domain _ = _ |- _ => apply create_apart in E
    | E : grant _ _ _ _ _ _ = _ |- _ => apply grant_inv in E as (?&_&_&_&_&E&_); apply push_capability_apart in E
    | E : grant_with_authority_id _ _ _ _ _ _ _ = _ |- _ => apply grant_id_inv in E as (?&_&_&_&_&E); apply push_capability_apart in E
    | E : derive _ _ _ _ _ _ = _ |- _ => apply derive_inv in E as (_&_&_&_&E); apply push_capability_apart in E
    | E : derive_from_authority_id _ _ _ _ _ _ _ _ = _ |- _ =>
        apply derive_from_inv in E as (?&_&_&_&_&E); apply push_capability_apart in E
    | E : derive_device_from_authority_id _ _ _ _ _ _ _ _ _ = _ |- _ => unfold derive_device_from_authority_id in E; walk E
    | E : grant_device_with_authority_id _ _ _ _ _ = _ |- _ => unfold grant_device_with_authority_id in E; walk E
    | E : delegate_dma_span _ _ _ _ _ _ = _ |- _ => unfold delegate_dma_span in E; walk E
    | E : delegate_dma_span_from_authority_id _ _ _ _ _ _ _ = _ |- _ => unfold delegate_dma_span_from_authority_id in E; walk E
    | E : alloc_authority_id _ = _ |- _ => unfold alloc_authority_id in E; walk E
    | E : discard_completed_compiler_trace _ = _ |- _ => unfold discard_completed_compiler_trace in E; walk E
    | |- _ => unfold revoke, destroy_object; cases_goal
    end; guards; try done.
  all: try by eapply push_device_apart.
  all: try by eapply delegate_apart.
  - match goal with E : _ = Done (Some _) |- _ => walk E; guards end. done.
  - by destruct (bool_decide _).
Qed.

(** ** Frames and tagged cells *)
Section frames.
Context `{Profile} `{Host}.
Lemma write_tagged_outside f key r p f' x : write_tagged_cell f key r p = Done (f', x) → outside f f'.
Proof.
  unfold write_tagged_cell. intros Hs. destruct (execute_write f r _) as [[g y]|] eqn:E; [|done].
  apply execute_write_outside in E. cbn in Hs. destruct y; guards; [|done].
  etransitivity; [exact E|]. apply apart_outside. by destruct p.
Qed.
Lemma store_cell_outside f r p f' x : store_pointer_cell f r p = Done (f', x) → outside f f'.
Proof.
  unfold store_pointer_cell. destruct (negb _); [intros; guards; reflexivity|].
  destruct (checked_pointer_cell f r Write); [apply write_tagged_outside|intros; guards; reflexivity].
Qed.
Lemma store_token_outside f r o p f' x : store_heap_token_in_local f r o p = Done (f', x) → outside f f'.
Proof.
  unfold store_heap_token_in_local. destruct (negb _); [intros; guards; reflexivity|].
  destruct (authenticate_heap_token _ _ _ _) as [a|]; [|done]. cbn [mbind outcome_bind].
  destruct (negb (is_ok a)); [intros; guards; reflexivity|].
  destruct (checked_pointer_cell f r Write); [apply write_tagged_outside|intros; guards; reflexivity].
Qed.
Lemma protect_outside f o w d f' b : protect_pointer_stack f o w d = (f', b) → outside f f'.
Proof. unfold protect_pointer_stack. intros E. apply apart_outside. repeat case_match; simplify_eq; done. Qed.

Lemma retire_locals_outside f l : outside f (retire_locals f l).
Proof.
  revert f. induction l as [|p l IH]; intros f; cbn; [reflexivity|].
  destruct (take_backing _ _) as [reg b] eqn:E. etransitivity; [|apply IH].
  etransitivity; [by eapply registry_outside, rtc_once, so_take_backing|]. apply apart_outside. by destruct b.
Qed.
Lemma retire_frame_outside f s l f' : retire_pointer_frame f s l = Done (Ok f') → outside f f'.
Proof.
  unfold retire_pointer_frame. destruct (leave_scope _ _) as [[reg|]|] eqn:E; [|done..]. cbn. intros. guards.
  etransitivity; [|apply retire_locals_outside]. by eapply registry_outside, rtc_once, so_leave.
Qed.
Lemma issue_locals_run sc d g l : ∀ r r' ps, issue_locals r sc d g l = Done (r', ps) → rtc scope_op r r'.
Proof.
  induction l as [|x l IH]; cbn; intros r r' ps E; [guards; reflexivity|].
  destruct (register _ _ _ _ _ _) as [[[r1 p]|]|] eqn:E1; cbn in E; [|done..].
  destruct (bind_backing _ _ _) as [r2|] eqn:E2; cbn in E; [|done].
  destruct (issue_locals _ _ _ _ _) as [[r3 qs]|] eqn:E3; cbn in E; [|done]. guards.
  eapply rtc_l; [by eapply so_register|]. eapply rtc_l; [by eapply so_bind_backing|]. by eapply IH.
Qed.
Lemma preflight_issue_pool f o r a regs b ph pe : preflight_issue f o r a regs = Ok (b, ph, pe) →
  heap_pool_overlaps f ph (pe - ph) = false.
Proof.
  unfold preflight_issue. intros Hp. destruct (negb _); [done|]. destruct (_ || _); [done|].
  destruct (ok_or (checked_add a _) _); [cbn in Hp|done]. destruct (ok_or (checked_add (req_offset r) _) _); [cbn in Hp|done].
  destruct (checked_local_backing _ _ _); [cbn in Hp|done]. destruct (ok_or (translate _ _ _) _) as [p|]; [cbn in Hp|done].
  destruct (checked_add p _) as [e|] eqn:He; [cbn in Hp|done]. apply checked_add_Some in He as [_ ->].
  destruct (_ || _) eqn:Hc; [done|]. bools. destruct (map_err _ _); [cbn in Hp|done].
  destruct (check_registrations _ _ _ _ _ _ _ _); [cbn in Hp|done]. destruct (preflight_local_frame_exclusion _ _ _); [cbn in Hp|done].
  destruct (ok_or (reserve_exact _) _); [cbn in Hp|done]. injection Hp as <- <- <-. by replace (p + _ - p) with (req_length r) by lia.
Qed.
Lemma issue_frame_outside f o r a regs f' x : issue_pointer_frame f o r a regs = Done (Ok (f', x)) → outside f f'.
Proof.
  unfold issue_pointer_frame. intros ([[b ph] pe]&Hp%preflight_issue_pool&Hs)%try_Ok.
  destruct (mem_fill _ _ _) as [g|] eqn:Eg; [cbn in Hs|done]. etransitivity; [by eapply mem_write_outside|].
  destruct (enter_scope_for _ _) as [[[r1 sc]|]|] eqn:E1; cbn in Hs; [|done..].
  destruct (bind_frame _ _ _) as [r2|] eqn:E2; cbn in Hs; [|done].
  destruct (issue_locals _ _ _ _ _) as [[r3 ps]|] eqn:E3; cbn in Hs; [|done]. guards. split; [done|done|]. cbn.
  eapply rtc_l; [by eapply so_enter|]. eapply rtc_l; [by eapply so_bind_frame|by eapply issue_locals_run].
Qed.
End frames.
