(* ===== verification/HeapScrub.v ===== *)
(** * Heap operations keep custody

    Attachment, initialization, live stores, queued CPU work, scrubbing and release,
    each with its effect on memory, rows and shadow: all keep the invariant of
    [HeapCustody.v].  So an allocation that is released has been scrubbed whole. *)

From S2P Require Import Prelude State Extents ExtentsFacts Registry PointerFrames HeapWork HeapLedger HeapWorkers RegistrySafety RegistryOps.
From S2P Require Import HeapLives HeapMoves Fabric FabricCells FabricHeap FabricWork HeapCustody.

(** ** Spans *)
Lemma floor16 a : Z.ldiff a 15 = a - a mod 16.
Proof.
  change 15 with (Z.ones 4). rewrite Z.ldiff_ones_r by lia. rewrite Z.shiftl_mul_pow2, Z.shiftr_div_pow2 by lia.
  change (2 ^ 4) with 16. pose proof (Z.div_mod a 16). lia.
Qed.

(** A span of [amount] bytes from [base + offset] on *)
Record spans (f : Fabric) (h : HeapFabric) (base offset amount : Z) (span : HeapSpan) : Prop := {
  sn_bytes : sp_bytes span = (base + offset, base + offset + amount);
  sn_first : shadow_index h (Z.ldiff (base + offset) 15) = Some (sp_shadow span).1;
  sn_past : ∃ last, shadow_index h (Z.ldiff (base + offset + amount - 1) 15) = Some last ∧ (sp_shadow span).2 = S last;
  sn_order : ((sp_shadow span).1 ≤ (sp_shadow span).2 ≤ length (hf_shadow h))%nat;
}.
Lemma span_indices_spec f h base offset amount span : fab_private_heap f = Some h →
  span_indices f base offset amount = Ok span → spans f h base offset amount span.
Proof.
  unfold span_indices. intros Hh E.
  destruct (checked_add base offset) as [st|] eqn:Hs; [cbn [ok_or mbind result_bind] in E|done]. apply checked_add_Some in Hs as [_ ->].
  destruct (checked_add _ amount) as [en|] eqn:He; [cbn [ok_or mbind result_bind] in E|done]. apply checked_add_Some in He as [_ ->].
  destruct (_ <? _); [done|]. rewrite Hh in E. cbn [ok_or mbind result_bind] in E.
  destruct (shadow_index h (Z.ldiff (base + offset) 15)) as [i|] eqn:Hi; [cbn [ok_or mbind result_bind] in E|done].
  destruct (shadow_index h (Z.ldiff (base + offset + amount - 1) 15)) as [k|] eqn:Hk; [cbn [ok_or mbind result_bind] in E|done].
  destruct (_ || _) eqn:Hc; [done|]. injection E as <-. apply orb_false_iff in Hc as [C1%Nat.ltb_ge C2%Nat.ltb_ge].
  split; cbn; try done; eauto.
Qed.

Lemma clear_lookup h rng k : (rng.1 ≤ rng.2 ≤ length (hf_shadow h))%nat →
  hf_shadow (clear_shadow rng h) !! k = if decide (rng.1 ≤ k < rng.2)%nat then Some None else hf_shadow h !! k.
Proof.
  intros Hr. unfold clear_shadow. cbn. destruct (decide (k < rng.1)%nat).
  { rewrite lookup_app_l, lookup_take_lt, decide_False by (rewrite ?length_take; lia). done. }
  rewrite lookup_app_r by (rewrite length_take; lia). rewrite length_take, Nat.min_l by lia.
  destruct (decide (k < rng.2)%nat).
  - rewrite decide_True, lookup_app_l by (rewrite ?length_replicate; lia). apply lookup_replicate. split; [done|lia].
  - rewrite decide_False, lookup_app_r, length_replicate, lookup_drop by (rewrite ?length_replicate; lia). f_equal. lia.
Qed.
Lemma clear_length h rng : (rng.1 ≤ rng.2 ≤ length (hf_shadow h))%nat → length (hf_shadow (clear_shadow rng h)) = length (hf_shadow h).
Proof. intros. unfold clear_shadow. cbn. rewrite !length_app, length_take, length_replicate, length_drop. lia. Qed.

(** Bytes written, cells cleared *)
Lemma write_near f g f' h h' base offset amount span d : custody f h → spans f h base offset amount span →
  mem_write f (sp_bytes span).1 (sp_bytes span).2 d = Done g → fab_memory f' = fab_memory g → fab_private_heap f' = Some h' →
  hf_pool h' = hf_pool h → hf_virtual_window h' = hf_virtual_window h → hf_shadow h' = hf_shadow (clear_shadow (sp_shadow span) h) →
  near f f' h h' (base + offset) (base + offset + amount).
Proof.
  intros Hc [S1 S2 S3 S4] (H1&H2&H3&_&H4&_)%mem_write_spec Hm Hh Hp Hw Hs. rewrite S1 in H3, H4. cbn in H3, H4. split; try done.
  - by rewrite Hs, clear_length.
  - intros a Ha Hn. unfold byte_at. rewrite Hm. apply H4; [apply Ha|done].
  - intros k. rewrite Hs, clear_lookup by done. destruct (decide _); auto.
Qed.

Section inside.
Context (f f' : Fabric) (h h' : HeapFabric) (lo hi : Z).
Hypothesis Hcu : custody f h.
Hypothesis Hnear : near f f' h h' lo hi.
Hypothesis Hreg : advances nobody (fab_scoped_pointers f) (fab_scoped_pointers f').

(** A change within the extent of a row that has not been scrubbed *)
Lemma custody_inside i0 row0 : heap_row h i0 = Some row0 →
  (∀ s rec j, row_ok f h i0 row0 s rec j → cr_progress j = Pending) →
  ext_base (he_physical (row_extents row0)) ≤ lo →
  hi ≤ ext_base (he_physical (row_extents row0)) + ext_size (he_physical (row_extents row0)) →
  (∀ i row', heap_row h' i = Some row' → ∃ row, heap_row h i = Some row ∧ same_place row row') →
  (∀ i row, heap_row h' i = Some row → 0 ≤ row_initialized_bytes row) →
  (∀ w k rec, hf_work h' = Some w → record_at w k = Some rec → 0 ≤ wb_offset (wk_binding rec)) → custody f' h'.
Proof.
  intros Hi Hp Hl Hh Hrows Hinit Hw. destruct (cu_rows _ _ Hcu _ _ Hi) as (s&rec&j&Hok).
  pose proof (check_extents_fits _ _ (ro_fits _ _ _ _ _ _ _ Hok) (cu_pool _ _ Hcu)) as [[? [? ?]] _ _].
  apply (custody_rows f f' h h' lo hi nobody); try done; [lia|by intros i []|].
  intros i row' Hi'. destruct (Hrows i row' Hi') as (row&Hrow&Hs). exists row. split; [done|]. split; [done|].
  intros s1 rec1 j1 Hok1. by eapply (clear_inside f h lo hi Hcu i0 row0).
Qed.
End inside.

(** ** Rows behind the checks *)

(** The row of an allocation that is not retired has not been scrubbed. *)
Lemma row_pending f h i row s rec j : custody f h → life (fab_scoped_pointers f) i s rec j → slot_state s ≠ SRetired →
  ∀ s' rec' j', row_ok f h i row s' rec' j' → cr_progress j' = Pending.
Proof.
  intros Hc Hl Hst s' rec' j' Hok. destruct (life_fun _ _ _ _ _ _ _ _ Hl (ro_life _ _ _ _ _ _ _ Hok)) as (->&->&->).
  by eapply (hw_pending _ (cu_wf _ _ Hc)).
Qed.

Lemma update_heap_Done f k f' : update_heap f k = Done f' → ∃ h h', fab_private_heap f = Some h ∧ k h = Done h' ∧
  f' = set_fab_private_heap (Some h') f.
Proof.
  unfold update_heap. intros E. destruct (fab_private_heap f) as [h|]; [cbn in E|done]. destruct (k h) as [h'|] eqn:Hk; [cbn in E|done].
  injection E as <-. eauto.
Qed.
Lemma set_row_Done h i row h' : set_row h i row = Done h' → (i < length (hf_rows h))%nat ∧
  h' = set_hf_rows (<[i := Some row]> (hf_rows h)) (Nat.max (hf_rows_end h) (S i)) h.
Proof. unfold set_row. intros E. run_binds E. apply vec_set_insert in E0 as [-> ?]. by guards. Qed.
Lemma heap_row_insert h i row n k : (i < length (hf_rows h))%nat →
  heap_row (set_hf_rows (<[i := row]> (hf_rows h)) n h) k = if decide (k = i) then row else heap_row h k.
Proof.
  intros Hi. unfold heap_row. cbn. destruct (decide (k = i)) as [->|]; [|by rewrite list_lookup_insert_ne].
  rewrite list_lookup_insert_eq by done. by destruct row.
Qed.

Lemma ok_or_Ok {E A} (o : option A) (e : E) x : ok_or o e = Ok x → o = Some x.
Proof. destruct o; [by intros [= ->]|done]. Qed.
Ltac oks := repeat match goal with E : ok_or _ _ = Ok _ |- _ => apply ok_or_Ok in E end; simplify_eq.

(** *** Initialization *)
Lemma initialization_row f h hr o obj rev plan : fab_private_heap f = Some h →
  prepare_private_initialization f hr o obj rev = Done (Ok plan) → ∃ s rec j,
  staged (fab_scoped_pointers f) hr o true (ip_registry plan) s rec j ∧ heap_row h (hr_slot hr) = Some (ip_row plan).
Proof.
  unfold prepare_private_initialization. intros Hh E. rewrite Hh in E. run_tries E. guards. cbn.
  match goal with E : prepare_heap_initialization _ _ _ _ = _ |- _ => apply private_planned in E as (s&rec&j&Hs) end.
  exists s, rec, j. split; [done|]. rewrite (sg_res _ _ _ _ _ _ _ _ Hs) in *.
  by oks.
Qed.
Definition in_custody (f : Fabric) : Prop := ∃ h, custody f h.

Lemma mem_write_nonneg f b n d g : mem_write f b (b + n) d = Done g → 0 ≤ n.
Proof. intros (_&_&?&_)%mem_write_spec. lia. Qed.

Lemma commit_initialization_custody f h hr o obj rev plan row' offset amount span data f' x :
  custody f h → prepare_private_initialization f hr o obj rev = Done (Ok plan) →
  private_initialization_span f (ip_row plan) offset amount = Ok span → 0 ≤ offset →
  same_place (ip_row plan) row' → 0 ≤ row_initialized_bytes row' →
  commit_private_initialization f plan row' span data = Done (f', x) → in_custody f'.
Proof.
  intros Hc Hp Hs Ho Hsame Hinit E. destruct (initialization_row f h _ _ _ _ _ (cu_heap _ _ Hc) Hp) as (s&rec&j&Hst&Hrow).
  unfold private_initialization_span in Hs. destruct (_ || _) eqn:Hb; [done|]. bools.
  apply (span_indices_spec f h) in Hs; [|apply Hc].
  unfold commit_private_initialization in E.
  assert (∃ g d, mem_write f (sp_bytes span).1 (sp_bytes span).2 d = Done g ∧
    (f1 ← update_heap g (λ h, set_row (clear_shadow (sp_shadow span) h) (hr_slot (hap_reservation (ip_registry plan))) row');
     reg ← commit_heap_initialization (fab_scoped_pointers f1) (ip_registry plan); Done (with_registry f1 reg, row')) = Done (f', x))
    as (g&d&Hw&E'). { unfold mem_fill in E. destruct data; run_binds E; eexists _, _; (split; [done|]); cbn; by rewrite E1; cbn; rewrite E2. }
  clear E. run_binds E'. guards. rewrite (sg_res _ _ _ _ _ _ _ _ Hst) in *.
  match goal with E : update_heap _ _ = _ |- _ => apply update_heap_Done in E as (h1&h2&Hh1&Hk&->) end.
  match goal with E : commit_heap_initialization _ _ = Done ?r |- _ => apply initialization_quiet in E; rename E into Hq end. cbn in Hq.
  pose proof (mem_write_spec _ _ _ _ _ Hw) as (W1&W2&_). rewrite W1, (cu_heap _ _ Hc) in Hh1. injection Hh1 as <-. rewrite W2 in Hq.
  apply set_row_Done in Hk as [Hlen ->]. cbn in Hlen. pose proof (sn_bytes _ _ _ _ _ _ Hs) as Hsb.
  eexists. eapply custody_inside; [exact Hc|by apply (write_near _ _ _ _ _ _ _ _ _ _ Hc Hs Hw)|by apply quiet_advances|exact Hrow|..].
  - eapply row_pending; [done|apply Hst|by rewrite (sg_state _ _ _ _ _ _ _ _ Hst)].
  - lia.
  - lia.
  - intros i row. rewrite heap_row_insert by done. destruct (decide _) as [->|]; [|by exists row]. intros [= <-]. eauto.
  - intros i row. rewrite heap_row_insert by done. destruct (decide _); [by intros [= <-]|]. apply Hc.
  - apply Hc.
Qed.

Lemma snapshot_plan f snap o rev plan : check_initialization_snapshot f snap o rev = Done (Ok plan) →
  prepare_private_initialization f (row_reservation snap) o (row_object snap) rev = Done (Ok plan) ∧ ip_row plan = snap.
Proof. unfold check_initialization_snapshot. intros E. run_tries E. guards. by bools. Qed.

Lemma initialize_chunk_custody f snap o amount rev f' x :
  initialize_private_heap_chunk f snap o amount rev = Done (Ok (f', x)) → 0 ≤ amount → in_custody f → in_custody f'.
Proof.
  unfold initialize_private_heap_chunk. intros E Ham [h Hc]. run_tries E. guards.
  match goal with E : check_initialization_snapshot _ _ _ _ = _ |- _ => apply snapshot_plan in E as [Hp _] end.
  destruct (initialization_row f h _ _ _ _ _ (cu_heap _ _ Hc) Hp) as (s&rec&j&_&Hrow).
  pose proof (cu_init _ _ Hc _ _ Hrow). eapply commit_initialization_custody; [exact Hc|exact Hp|eassumption|done| | |eassumption]; [done|cbn; lia].
Qed.
Lemma write_private_custody f snap o offset data rev f' x :
  write_private_heap f snap o offset data rev = Done (Ok (f', x)) → 0 ≤ offset → in_custody f → in_custody f'.
Proof.
  unfold write_private_heap. intros E Ho [h Hc]. run_tries E. guards.
  match goal with E : check_initialization_snapshot _ _ _ _ = _ |- _ => apply snapshot_plan in E as [Hp _] end.
  eapply commit_initialization_custody; [exact Hc|exact Hp|eassumption|done| | |eassumption]; done.
Qed.

(** *** Live stores *)
Record live_row (f : Fabric) (h : HeapFabric) (p : ScopedPointer) (live : LiveHeap) (s : Slot) (rec : HeapRecord) (j : CleanupRecord) : Prop := {
  lr_life : life (fab_scoped_pointers f) (ptr_slot p) s rec j;
  lr_state : slot_state s = SLive;
  lr_row : heap_row h (ptr_slot p) = Some (lv_row live);
  lr_position : hpp_position (lv_pointer live) = ptr_position p;
  lr_logical : row_logical (lv_row live) ≤ ext_size (he_physical (row_extents (lv_row live)));
}.
Lemma checked_live_row f h o a p live : custody f h → checked_live_heap f o a p = Done (Ok live) →
  ∃ s rec j, live_row f h p live s rec j.
Proof.
  unfold checked_live_heap. intros Hc E. rewrite (cu_heap _ _ Hc) in E. run_tries E. guards. oks. bools. cbn in *.
  match goal with E : prepare_heap_pointer _ _ _ = _ |- _ => unfold prepare_heap_pointer in E; run_tries E; guards end. oks. bools. cbn in *.
  match goal with Hs : sp_slots _ !! ptr_slot p = Some ?s, Hst : slot_state ?s = SLive, Hr : slot_record ?s = RHeap ?rec |- _ =>
    destruct (hw_slot _ (cu_wf _ _ Hc) _ s rec Hs) as [j Hl]; [by rewrite Hst|done|] end.
  match goal with E : cleanup_job _ _ = Some _ |- _ => rewrite (lf_job _ _ _ _ _ Hl) in E; simplify_eq end.
  match goal with E : heap_row _ _ = Some _ |- _ => rewrite (lf_res _ _ _ _ _ Hl) in E end.
  match goal with E : record_consistent _ _ _ _ = Ok ?u |- _ => destruct u; apply consistent_sizes in E as [? ?] end.
  eexists _, _, _. split; [exact Hl|..]; cbn; try done. congruence || lia.
Qed.
Lemma live_span f h o a p live n cell span : custody f h → checked_live_heap f o a p = Done (Ok live) →
  checked_heap_span f live n cell = Ok span → 0 ≤ ptr_position p →
  let e := he_physical (row_extents (lv_row live)) in
  (∀ s rec j, row_ok f h (ptr_slot p) (lv_row live) s rec j → cr_progress j = Pending) ∧ heap_row h (ptr_slot p) = Some (lv_row live) ∧
  spans f h (ext_base e) (ptr_position p) n span ∧ ptr_position p + n ≤ ext_size e.
Proof.
  intros Hc Hl Hs Hp e. destruct (checked_live_row _ _ _ _ _ _ Hc Hl) as (s&rec&j&[L1 L2 L3 L4 L5]).
  unfold checked_heap_span, checked_heap_backing_span in Hs. rewrite L4 in Hs. destruct (_ || _) eqn:Hb; [done|].
  destruct (_ && _); [done|]. apply (span_indices_spec f h) in Hs; [|apply Hc]. bools. split_and!; try done; [|subst e; lia].
  eapply row_pending; [done|exact L1|by rewrite L2].
Qed.

Lemma write_heap_custody f o a p d f' : write_heap_bytes f o a p d = Done (Ok f') → 0 ≤ ptr_position p → in_custody f → in_custody f'.
Proof.
  unfold write_heap_bytes. intros E Hp [h Hc]. run_tries E. guards.
  match goal with E1 : checked_live_heap _ _ _ _ = _, E2 : checked_heap_span _ _ _ _ = _ |- _ =>
    destruct (live_span _ _ _ _ _ _ _ _ _ Hc E1 E2 Hp) as (Hpend&Hrow&Hs&Hsz) end.
  match goal with E : update_heap _ _ = _ |- _ => apply update_heap_Done in E as (h1&h2&Hh1&Hk&->) end. injection Hk as <-.
  match goal with E : mem_write _ _ _ _ = _ |- _ => rename E into Hw end. pose proof (mem_write_spec _ _ _ _ _ Hw) as (W1&W2&_).
  rewrite W1, (cu_heap _ _ Hc) in Hh1. injection Hh1 as <-.
  eexists. eapply custody_inside; [exact Hc|by apply (write_near _ _ _ _ _ _ _ _ _ _ Hc Hs Hw)| |exact Hrow|..]; try done; try lia; cbn.
  - rewrite W2. reflexivity.
  - intros i row Hi. by exists row.
  - apply Hc.
  - apply Hc.
Qed.

(** A pointer cell: the bytes of the token, and its kind in the shadow *)
Lemma store_cell_near f g f' h h' base offset span d v : custody f h → spans f h base offset 16 span → (base + offset) mod 16 = 0 →
  mem_write f (sp_bytes span).1 (sp_bytes span).2 d = Done g → fab_memory f' = fab_memory g → fab_private_heap f' = Some h' →
  h' = set_hf_shadow (<[(sp_shadow span).1 := v]> (hf_shadow h)) h → near f f' h h' (base + offset) (base + offset + 16).
Proof.
  intros Hc [S1 S2 S3 S4] Hal (H1&H2&H3&_&H4&_)%mem_write_spec Hm Hh ->. rewrite S1 in H3, H4. cbn in H3, H4. split; try done; cbn.
  - apply length_insert.
  - intros a Ha Hn. unfold byte_at. rewrite Hm. apply H4; [apply Ha|done].
  - intros k. destruct (decide (k = (sp_shadow span).1)) as [->|]; [|left; by apply list_lookup_insert_ne].
    right; right. exists (base + offset). split; [done|]. split; [lia|].
    rewrite floor16, Hal, Z.sub_0_r in S2. by apply shadow_index_Some in S2 as (_&_&_&?&_).
Qed.
Lemma store_cell_custody f o a p src f' : store_heap_pointer_cell f o a p src = Done (Ok f') → 0 ≤ ptr_position p →
  in_custody f → in_custody f'.
Proof.
  unfold store_heap_pointer_cell. intros E Hp [h Hc]. run_tries E. guards.
  match goal with E1 : checked_live_heap _ _ _ p = _, E2 : checked_heap_span _ _ _ _ = _ |- _ =>
    destruct (live_span _ _ _ _ _ _ _ _ _ Hc E1 E2 Hp) as (Hpend&Hrow&Hs&Hsz);
    destruct (checked_live_row _ _ _ _ _ _ Hc E1) as (s&rec&j&HL); rename E2 into Hsp end.
  match goal with E : update_heap _ _ = _ |- _ => apply update_heap_Done in E as (h1&h2&Hh1&Hk&->) end. run_binds Hk. guards.
  match goal with E : mem_write _ _ _ _ = _ |- _ => rename E into Hw end. pose proof (mem_write_spec _ _ _ _ _ Hw) as (W1&W2&_).
  rewrite W1, (cu_heap _ _ Hc) in Hh1. injection Hh1 as <-.
  match goal with E : vec_set _ _ _ = _ |- _ => apply vec_set_insert in E as [-> _] end.
  assert ((ext_base (he_physical (row_extents (lv_row x0))) + ptr_position p) mod 16 = 0) as Hal.
  { unfold checked_heap_span, checked_heap_backing_span in Hsp. rewrite (lr_position _ _ _ _ _ _ _ HL) in Hsp.
    destruct (_ || _) in Hsp; [done|]. destruct (_ && _) eqn:Hm; [done|]. cbn in Hm. bools.
    destruct (cu_rows _ _ Hc _ _ Hrow) as (?&?&?&Hok). pose proof (check_extents_fits _ _ (ro_fits _ _ _ _ _ _ _ Hok) (cu_pool _ _ Hc)) as [_ _ Hb].
    rewrite Z.add_mod, Hb, Hm by lia. done. }
  eexists. eapply custody_inside; [exact Hc|by apply (store_cell_near _ _ _ _ _ _ _ _ _ src Hc Hs Hal Hw)| |exact Hrow|..]; try done; try lia; cbn.
  - rewrite W2. reflexivity.
  - intros i row Hi. by exists row.
  - apply Hc.
  - apply Hc.
Qed.

(** *** Queued CPU work *)
Definition work_offsets (w : HeapCpuWork) : Prop := ∀ k rec, record_at w k = Some rec → 0 ≤ wb_offset (wk_binding rec).

Lemma custody_same f f' h h' : custody f h → fab_memory f' = fab_memory f → fab_private_heap f' = Some h' →
  hf_pool h' = hf_pool h → hf_virtual_window h' = hf_virtual_window h → hf_shadow h' = hf_shadow h → hf_rows h' = hf_rows h →
  advances nobody (fab_scoped_pointers f) (fab_scoped_pointers f') → (∀ w, hf_work h' = Some w → work_offsets w) → custody f' h'.
Proof.
  intros Hc Hm Hh Hp Hw Hs Hr Ha Hk. assert (near f f' h h' 0 0) as Hn.
  { split; try done; [by rewrite Hs|intros; unfold byte_at; by rewrite Hm|left; by rewrite Hs]. }
  assert (∀ i, heap_row h' i = heap_row h i) as Hrow by (intros; unfold heap_row; by rewrite Hr).
  apply (custody_rows f f' h h' 0 0 nobody Hc Hn); [done|lia|by intros i []| |setoid_rewrite Hrow; apply Hc|intros w k rec Hw'; by apply Hk].
  intros i row Hi. rewrite Hrow in Hi. exists row. split; [done|]. split; [done|]. intros s rec j Hok.
  pose proof (check_extents_fits _ _ (ro_fits _ _ _ _ _ _ _ Hok) (cu_pool _ _ Hc)) as [[? _] _ _]. right; left. lia.
Qed.

Lemma update_work_Done f k f' : update_work f k = Done f' → ∃ h w w', fab_private_heap f = Some h ∧ hf_work h = Some w ∧
  k w = Done w' ∧ f' = set_fab_private_heap (Some (set_hf_work (Some w') h)) f.
Proof.
  unfold update_work. intros (h&h'&Hh&Hk&->)%update_heap_Done. destruct (hf_work h) as [w|] eqn:Hw; [cbn in Hk|done].
  destruct (k w) as [w'|] eqn:E; [cbn in Hk|done]. injection Hk as <-. eauto 10.
Qed.
Lemma with_request_offsets w i g w' : with_request w i g = Done w' → work_offsets w → work_offsets w'.
Proof. unfold with_request. intros E. run_binds E. by guards. Qed.
Lemma record_at_insert w i x s o n k : (i < length (hw_records w))%nat →
  record_at (mkWork (<[i := x]> (hw_records w)) s o n) k = if decide (k = i) then x else record_at w k.
Proof.
  intros Hi. unfold record_at. cbn. destruct (decide (k = i)) as [->|]; [|by rewrite list_lookup_insert_ne].
  rewrite list_lookup_insert_eq by done. by destruct x.
Qed.
Lemma work_remove_offsets w rec w' : work_remove w rec = Done w' → work_offsets w → work_offsets w'.
Proof.
  unfold work_remove. intros E Hw. run_binds E. guards. match goal with E : vec_set _ None _ = _ |- _ => apply vec_set_insert in E as [-> ?] end.
  intros k r. rewrite record_at_insert by done. destruct (decide _); [done|apply Hw].
Qed.
Lemma work_commit_offsets w p w' t : work_commit w p = Done (w', t) → 0 ≤ wb_offset (wk_binding (pp_record p)) →
  work_offsets w → work_offsets w'.
Proof.
  unfold work_commit. intros E Hp Hw. run_binds E. guards. match goal with E : vec_set _ (Some _) _ = _ |- _ => apply vec_set_insert in E as [-> ?] end.
  intros k r. rewrite record_at_insert by done. destruct (decide _); [by intros [= <-]|apply Hw].
Qed.
Lemma custody_offsets f h w : custody f h → hf_work h = Some w → work_offsets w.
Proof. intros Hc Hw k rec. by apply Hc. Qed.

(** A change of the ledger of work, then of the revision *)
Lemma update_work_custody f k f1 r : in_custody f → update_work f k = Done f1 → quiet (fab_scoped_pointers f1) r →
  (∀ w w', k w = Done w' → work_offsets w → work_offsets w') → in_custody (with_registry f1 r).
Proof.
  intros [h Hc] (h0&w&w'&Hh&Hw&Hk&->)%update_work_Done Hq Ho. rewrite (cu_heap _ _ Hc) in Hh. injection Hh as <-.
  eexists. eapply custody_same; try done; [by apply quiet_advances|]. cbn. intros ? [= <-]. eapply Ho; [done|by eapply custody_offsets].
Qed.

Lemma cancel_work_custody f t f' : cancel_heap_cpu_work f t = Done (Ok f') → in_custody f → in_custody f'.
Proof.
  unfold cancel_heap_cpu_work. intros E Hc. run_tries E. guards.
  match goal with E : commit_heap_work_cleanup_revision _ _ = _ |- _ => apply work_cleanup_revision_quiet in E end.
  eapply update_work_custody; [done|eassumption|done|]. intros ? ?. apply with_request_offsets.
Qed.
Lemma finish_work_custody f t f' x : finish_heap_cpu_work f t = Done (Ok (f', x)) → in_custody f → in_custody f'.
Proof.
  unfold finish_heap_cpu_work. intros E Hc. run_tries E. guards.
  match goal with E : commit_heap_work_cleanup_revision _ _ = _ |- _ => apply work_cleanup_revision_quiet in E end.
  eapply update_work_custody; [done|eassumption|done|]. intros ? ?. apply work_remove_offsets.
Qed.
Lemma work_prepare_record w b wr p : work_prepare w b wr = Done (Ok p) → wk_binding (pp_record p) = b.
Proof. unfold work_prepare. intros E. run_tries E. by guards. Qed.
Lemma register_work_custody f c p n wr rev f' t : register_heap_cpu_work f c p n wr rev = Done (Ok (f', t)) →
  (∀ q, p = Some q → 0 ≤ ptr_position q) → in_custody f → in_custody f'.
Proof.
  unfold register_heap_cpu_work. intros E Hp [h Hc]. run_tries E. guards.
  match goal with E : prepare_heap_cpu_work _ _ _ _ _ _ = _ |- _ => unfold prepare_heap_cpu_work in E; run_tries E; guards end. oks.
  match goal with E : checked_live_heap _ _ _ _ = _ |- _ => destruct (checked_live_row _ _ _ _ _ _ Hc E) as (s&rec&j&HL) end.
  match goal with E : work_prepare _ _ _ = _ |- _ => apply work_prepare_record in E; rename E into Hb end.
  match goal with E : commit_heap_cpu_work _ _ = _ |- _ => rename E into Hm end.
  unfold commit_heap_cpu_work in Hm. rewrite (cu_heap _ _ Hc) in Hm. cbn in Hm.
  destruct (hf_work h) as [w|] eqn:Hw; [cbn in Hm|done]. run_binds Hm. guards.
  match goal with E : commit_heap_work_revision _ _ = _ |- _ => apply work_revision_quiet in E; rename E into Hq end. cbn in *.
  eexists. eapply custody_same; try done; [by apply quiet_advances|]. cbn. intros ? [= <-].
  match goal with E : work_commit _ _ = Done ?x |- _ => destruct x as [w' t']; cbn in *; eapply work_commit_offsets; [exact E| |by eapply custody_offsets] end.
  rewrite Hb. cbn. rewrite (lr_position _ _ _ _ _ _ _ HL). auto.
Qed.

(** The row behind a closure plan *)
Lemma custody_row_of f h plan obj : fab_private_heap f = Some h → check_attached_heap_custody f plan obj = Ok tt →
  ∃ row, heap_row h (hr_slot (hcp_reservation plan)) = Some row ∧ row_extents row = hcp_extents plan ∧ row_object row = obj ∧
    row_reservation row = hcp_reservation plan.
Proof.
  unfold check_attached_heap_custody. intros Hh E. rewrite Hh in E. cbn [ok_or mbind result_bind] in E.
  destruct (heap_row h _) as [row|]; [cbn [ok_or mbind result_bind] in E|done]. destruct (_ || _) eqn:Hc; [done|]. bools. exists row. done.
Qed.
Lemma retained_row f h rec : custody f h → check_retained_work_record f rec = Done (Ok tt) →
  let b := wk_binding rec in let e := he_physical (wb_extents b) in ∃ row,
  heap_row h (hr_slot (wb_reservation b)) = Some row ∧ row_extents row = wb_extents b ∧ wb_logical b ≤ ext_size e ∧
  ∀ s rec j, row_ok f h (hr_slot (wb_reservation b)) row s rec j → cr_progress j = Pending.
Proof.
  intros Hc E b e. unfold check_retained_work_record in E. run_tries E. guards. bools.
  match goal with E : prepare_retained_heap_work _ _ _ = _ |- _ => unfold prepare_retained_heap_work in E; run_tries E; guards; bools end.
  match goal with E : prepare_attached_heap_closure _ _ _ = _ |- _ => apply closure_planned in E as (s&rc&j&Hp) end.
  match goal with E : check_attached_heap_custody _ _ _ = Ok ?u |- _ => destruct u;
    destruct (custody_row_of _ _ _ _ (cu_heap _ _ Hc) E) as (row&Hrow&He&_) end.
  rewrite (seen_reservation _ _ _ _ _ _ _ Hp) in Hrow. exists row. subst b e.
  pose proof (pn_size _ _ _ _ _ _ _ Hp). pose proof (pn_logical _ _ _ _ _ _ _ Hp).
  match goal with E : wb_extents _ = _ |- _ => rewrite E in * end.
  match goal with E : wb_logical _ = _ |- _ => rewrite E in * end.
  split_and!; try done; [rewrite (pn_plan _ _ _ _ _ _ _ Hp); cbn; lia|].
  eapply row_pending; [done|apply Hp|].
  match goal with E : slot_stage _ _ = Done _ |- _ => rewrite (seen_stage _ _ _ _ _ _ _ Hp) in E; injection E as <- end.
  intros E1. by rewrite E1 in *.
Qed.

Lemma checked_work_spec f h t w rec : custody f h → checked_work_record f t = Done (Ok (w, rec)) →
  hf_work h = Some w ∧ checked_record w t = Ok rec ∧ check_retained_work_record f rec = Done (Ok tt).
Proof.
  unfold checked_work_record, heap_work. intros Hc E. rewrite (cu_heap _ _ Hc) in E. cbn in E. run_tries E. guards. oks.
  match goal with E : check_retained_work_record _ _ = Done (Ok ?u) |- _ => by destruct u end.
Qed.
Lemma checked_record_at w t rec : checked_record w t = Ok rec → ∃ k, record_at w k = Some rec ∧ wk_ticket rec = t ∧
  row_index (wt_row t) = Some k ∧ wb_length (wk_binding rec) ≠ 0.
Proof.
  unfold checked_record. intros E. destruct (row_index _) as [k|]; [cbn [ok_or mbind result_bind] in E|done].
  destruct (record_at w k) as [r|] eqn:Hr; [cbn [ok_or mbind result_bind] in E|done]. destruct (_ || _) eqn:Hc1; [done|].
  destruct (hw_sources w !! _) as [sl|]; [cbn [ok_or mbind result_bind] in E|done].
  destruct (ss_request sl); [cbn [ok_or mbind result_bind] in E|done]. cbv zeta in E. destruct (_ || _) eqn:Hc2 in E; [done|]. injection E as <-. bools.
  exists k. by split_and!.
Qed.

Lemma execute_work_custody f t f' : execute_heap_cpu_work f t = Done (Ok f') → in_custody f → in_custody f'.
Proof.
  unfold execute_heap_cpu_work. intros E [h Hc].
  apply try_call_Ok in E as ([w rec]&Hw&E). apply (checked_work_spec f h) in Hw as (Hw&Hrec&Hret); [|done].
  destruct (checked_record_at _ _ _ Hrec) as (k&Hk&_). pose proof (cu_work _ _ Hc _ _ _ Hw Hk) as Hoff.
  destruct (retained_row _ _ _ Hc Hret) as (row&Hrow&He&Hlog&Hpend).
  run_tries E. guards.
  match goal with E : checked_heap_backing_span _ _ _ _ _ _ = Ok ?sp |- _ => rename E into Hs, sp into span end.
  match goal with E : commit_heap_work_cleanup_revision _ _ = _ |- _ => apply work_cleanup_revision_quiet in E; rename E into Hq end.
  match goal with E : match wb_access _ with _ => _ end = Done _ |- _ => rename E into Ha end.
  destruct (wb_access (wk_binding rec)).
  { run_binds Ha. eapply update_work_custody; [by exists h|exact Ha|done|]. intros ? ?. apply with_request_offsets. }
  run_binds Ha. apply update_work_Done in Ha as (h0&w0&w1&Hh0&Hw0&Hk0&->).
  match goal with E : update_heap _ _ = _ |- _ => apply update_heap_Done in E as (h1&h2&Hh1&Hk1&->) end. injection Hk1 as <-.
  cbn in Hh0. injection Hh0 as <-. cbn in Hw0.
  match goal with E : mem_write _ _ _ _ = _ |- _ => rename E into Hm end. pose proof (mem_write_spec _ _ _ _ _ Hm) as (W1&W2&_).
  rewrite W1, (cu_heap _ _ Hc) in Hh1. injection Hh1 as <-. cbn in Hq. rewrite W2 in Hq.
  unfold checked_heap_backing_span in Hs. destruct (_ || _) eqn:Hb; [done|]. cbn in Hs. apply (span_indices_spec f h) in Hs; [|apply Hc]. bools.
  eexists. eapply custody_inside; [exact Hc|by apply (write_near _ _ _ _ _ _ _ _ _ _ Hc Hs Hm)|by apply quiet_advances|exact Hrow|..];
    try done; rewrite ?He; try lia; cbn.
  - intros i r Hi. by exists r.
  - apply Hc.
  - intros ? k' r [= <-]. eapply with_request_offsets; [exact Hk0|]. by eapply custody_offsets.
Qed.

(** *** Attachment *)
Lemma extents_meet_apart a b : extents_meet a b = Done false → apart a b.
Proof.
  unfold extents_meet, ext_end, apart. intros E. destruct (checked_add (ext_base b) _) as [n|] eqn:Hn; [cbn in E|done].
  apply checked_add_Some in Hn as [_ ->]. destruct (_ <? _) eqn:Hlt; bools; [|lia].
  destruct (checked_add (ext_base a) _) as [m|] eqn:Hm; [cbn in E|done]. apply checked_add_Some in Hm as [_ ->]. guards. bools. lia.
Qed.
Lemma check_census_apart e o rows : check_census e o rows = Done (Ok tt) →
  ∀ row, row ∈ rows → apart (he_physical e) (he_physical (row_extents row)).
Proof.
  induction rows as [|r rows IH]; cbn; intros E row; [by intros ?%elem_of_nil|]. intros Hin.
  destruct (extents_meet _ (he_physical (row_extents r))) as [m|] eqn:Hm; [cbn in E|done].
  destruct m; [cbn in E; done|]. destruct (if bool_decide _ then _ else _) as [v|]; [cbn in E|done]. destruct v; [done|].
  apply elem_of_cons in Hin as [->|Hin]; [by apply extents_meet_apart|by apply IH].
Qed.
Lemma heap_row_flatten h i row : heap_row h i = Some row → row ∈ flatten (hf_rows h).
Proof.
  unfold heap_row, flatten. intros E. destruct (hf_rows h !! i) as [[r|]|] eqn:Hi; [|done..]. injection E as <-.
  apply list_elem_of_omap. exists (Some r). split; [|done]. by eapply list_elem_of_lookup_2.
Qed.
Lemma attachment_life r h o plan r' s rec j : staged r h o false plan s rec j → commit_heap_attachment r plan = Done r' →
  life r' (hr_slot h) (mkSlot (slot_generation s) (slot_state s) (RHeap (set_attached rec))) (set_attached rec) j.
Proof.
  intros [Hl Hj Hres _ _ Hst _ _ _] E. unfold commit_heap_attachment in E. rewrite Hres, (vec_get_lookup _ _ _ (lf_slot _ _ _ _ _ Hl)) in E.
  cbn [mbind outcome_bind] in E. rewrite (lf_rec _ _ _ _ _ Hl) in E. run_binds E. guards.
  match goal with E : set_slot _ _ _ = _ |- _ => apply set_slot_spec in E as (A1&A2) end.
  pose proof (life_index _ _ _ _ _ Hl) as [? _]. destruct Hl. split; cbn; try done.
  - rewrite A1. by apply list_lookup_insert_eq.
  - unfold cleanup_job. cbn. by rewrite A2.
Qed.

Lemma attach_custody f hr o rev f' obj : attach_private_heap f hr o rev = Done (Ok (f', obj)) → in_custody f → in_custody f'.
Proof.
  unfold attach_private_heap. intros E [h Hc]. rewrite (cu_heap _ _ Hc) in E. run_tries E. guards. oks.
  match type of Hc with custody _ ?x => rename x into h end.
  match goal with E : prepare_heap_attachment _ _ _ _ = Done (Ok ?p) |- _ => rename E into Hp, p into plan end.
  match goal with E : commit_heap_attachment _ _ = Done ?r |- _ => rename E into Hcm, r into reg end.
  pose proof Hp as (s&rec&j&Hst)%private_planned. pose proof (attachment_life _ _ _ _ _ _ _ _ Hst Hcm) as Hl.
  match goal with E : update_heap _ _ = _ |- _ => apply update_heap_Done in E as (h1&h2&Hh1&Hk&->) end. cbn in Hh1.
  rewrite (cu_heap _ _ Hc) in Hh1. injection Hh1 as <-. run_binds Hk. guards.
  match goal with E : set_row _ _ _ = _ |- _ => apply set_row_Done in E as [Hlen ->] end.
  rewrite (sg_res _ _ _ _ _ _ _ _ Hst) in *.
  match goal with E : check_plan _ _ = Done (Ok ?u) |- _ => destruct u; rename E into Hcp end. unfold check_plan in Hcp.
  rewrite (sg_res _ _ _ _ _ _ _ _ Hst) in Hcp. destruct (hf_rows h !! hr_slot hr) as [[|]|] eqn:Hfree; [done| |done].
  apply try_Ok in Hcp as ([]&Hfits&Hcen). pose proof (check_census_apart _ _ _ Hcen) as Hap.
  match goal with |- in_custody ?g => set (f' := g) end. set (h2 := set_hf_floor _ _) in f'. set (row0 := mkHeapRow _ _ _ _ _ _ _ _ _) in h2.
  assert (∀ k, heap_row h2 k = if decide (k = hr_slot hr) then Some row0 else heap_row h k) as Hrows.
  { intros k. by apply (heap_row_insert h (hr_slot hr) (Some row0)). }
  assert (near f f' h h2 0 0) as Hn by (split; try done; auto).
  exists h2. eapply (custody_near _ _ h h2 0 0 nobody Hc Hn); [by eapply attachment_advances|lia|..].
  - intros i row. rewrite Hrows. destruct (decide _) as [->|Hne]; [intros [= <-]; left|].
    + assert (cr_progress j = Pending) as Hpend.
      { eapply (hw_pending _ (cu_wf _ _ Hc)); [apply Hst|by rewrite (sg_state _ _ _ _ _ _ _ _ Hst)]. }
      eexists _, _, _. split; [exact Hl|..]; cbn; try done; [apply Hst|by rewrite (sg_job _ _ _ _ _ _ _ _ Hst)| |]; rewrite Hpend; cbn; [|lia].
      by apply scrubbed_none.
    + intros Hi. right. split; [by intros []|]. exists row. split; [done|]. split; [done|]. intros s1 rec1 j1 Hok.
      pose proof (check_extents_fits _ _ (ro_fits _ _ _ _ _ _ _ Hok) (cu_pool _ _ Hc)) as [[? _] _ _]. right; left. lia.
  - intros i1 i2 row1 row2 Hne. rewrite !Hrows. destruct (decide (i1 = _)) as [->|], (decide (i2 = _)) as [->|]; [done|..].
    + intros [= <-] H2%heap_row_flatten. by apply Hap.
    + intros H1%heap_row_flatten [= <-]. destruct (Hap _ H1); [by right|by left].
    + by apply Hc.
  - intros i row. rewrite Hrows. destruct (decide _); [by intros [= <-]|apply Hc].
  - apply Hc.
Qed.

(** *** Scrubbing *)

(** A chunk extends what has been scrubbed. *)
Lemma scrubbed_chunk f g f' h h' base n amount span : custody f h → spans f h base n amount span → near f f' h h' (base + n) (base + n + amount) →
  mem_fill f (sp_bytes span).1 (sp_bytes span).2 = Done g → fab_memory f' = fab_memory g →
  hf_shadow h' = hf_shadow (clear_shadow (sp_shadow span) h) → fits h (mkExtent base (n + amount)) →
  0 ≤ n → 0 ≤ amount → n mod 16 = 0 → amount mod 16 = 0 → scrubbed f h base n → scrubbed f' h' base (n + amount).
Proof.
  intros Hc [S1 S2 (last&S3&S3') S4] [N1 N2 N3 N4 N5 N6] Hf Hm Hs [[? [? ?]] He Hal] Hn Ha Hn16 Ha16 [B C]. cbn [ext_base ext_size] in *.
  rewrite S1 in Hf. cbn in Hf. assert ((base + n) mod 16 = 0) as Hst by (rewrite Z.add_mod, Hal, Hn16 by lia; done).
  assert ((base + n + amount) mod 16 = 0) as Hend by (rewrite Z.add_mod, Hst, Ha16 by lia; done).
  rewrite floor16, Hst, Z.sub_0_r in S2. apply shadow_index_Some in S2 as (_&_&_&Ef&_).
  rewrite floor16 in S3. apply shadow_index_Some in S3 as (_&_&_&El&_). split.
  - intros a Hr. destruct (decide (a < base + n)).
    + rewrite N5; [apply B; lia|split; unfold heap_end in *; lia|lia].
    + unfold byte_at. rewrite Hm. by apply (mem_fill_zero _ _ _ _ a Hf); lia.
  - intros a Hr Ham. assert (cell_of h' a = cell_of h a) as -> by (unfold cell_of; by rewrite N2).
    destruct (decide (a < base + n)).
    { destruct (N6 (cell_of h a)) as [->|[?|(b&Hbm&Hb2&E)]]; [apply C; [lia|done]|done|].
      apply cell_of_inj in E; [lia|lia|lia|done|done]. }
    rewrite Hs, clear_lookup, decide_True; [done| |done]. rewrite S3', Ef, El. unfold cell_of.
    set (p := ext_base (hf_pool h)) in *. assert (a ≤ base + n + amount - 16) as Hle by (Z.div_mod_to_equations; lia).
    assert ((base + n + amount - 1) mod 16 = 15) as H15 by (Z.div_mod_to_equations; lia). rewrite H15.
    pose proof (Z.div_le_mono (base + n - p) (a - p) 16). pose proof (Z.div_le_mono (a - p) (base + n + amount - 1 - 15 - p) 16). lia.
Qed.

Lemma drain_custody f plan obj : check_heap_cleanup_drain f plan obj = Done (Ok tt) → check_attached_heap_custody f plan obj = Ok tt.
Proof. unfold check_heap_cleanup_drain. intros ([]&?&_)%try_Ok. done. Qed.
Lemma snapshot_row f h c snap plan : fab_private_heap f = Some h → check_cleanup_snapshot_row f c snap plan = Done (Ok tt) →
  heap_row h (hr_slot (hcp_reservation plan)) = Some (sn_row snap) ∧ row_extents (sn_row snap) = hcp_extents plan ∧
  row_reservation (sn_row snap) = hcp_reservation plan.
Proof.
  unfold check_cleanup_snapshot_row. intros Hh E. destruct (negb _); [done|]. apply try_call_Ok in E as ([]&Hd&E).
  apply drain_custody in Hd. destruct (custody_row_of _ _ _ _ Hh Hd) as (row&Hrow&He&_&Hr).
  unfold custody_row in E. rewrite Hh in E. cbn in E. run_binds E. guards. bools.
  match goal with E : vec_get _ _ = Done _ |- _ => apply vec_get_Done in E; subst; unfold heap_row in *; rewrite E in * end.
  by injection Hrow as <-.
Qed.

Lemma scrub_chunk_custody f c snap amount f' x : scrub_heap_chunk f c snap amount = Done (Ok (f', x)) → in_custody f → in_custody f'.
Proof.
  unfold scrub_heap_chunk. intros E [h Hc]. run_tries E. guards.
  match goal with E : prepare_heap_scrub_chunk _ _ _ _ _ = Done (Ok ?p) |- _ => rename E into Hp, p into plan end.
  match goal with E : check_cleanup_snapshot_row _ _ _ _ = Done (Ok ?u) |- _ => destruct u; rename E into Hr end.
  match goal with E : update_heap _ _ = _ |- _ => apply update_heap_Done in E as (h1&h2&Hh1&Hk&->) end. injection Hk as <-.
  match goal with E : mem_fill _ _ _ = _ |- _ => rename E into Hf end. pose proof (mem_write_spec _ _ _ _ _ Hf) as (W1&W2&W3&_).
  rewrite W1, (cu_heap _ _ Hc) in Hh1. injection Hh1 as <-.
  match goal with E : commit_heap_scrub _ _ = Done ?p |- _ => destruct p as [reg st]; cbn in E; rewrite W2 in E; rename E into Hcm end.
  set (i0 := hr_slot (cl_reservation (cs_lease (sn_status snap)))).
  destruct (chunk_advances (λ i, i = i0) _ _ _ _ _ _ _ _ Hp Hcm eq_refl) as (Hadv&s&rec&j&n&Hsb&Hl').
  pose proof (sb_plan _ _ _ _ _ _ _ _ _ Hsb) as Hpl.
  apply (snapshot_row f h) in Hr as (Hrow&Hext&Hres); [|apply Hc]. rewrite (seen_reservation _ _ _ _ _ _ _ Hpl) in Hrow, Hres. fold i0 in Hrow.
  match goal with E : checked_heap_backing_span _ _ _ _ _ _ = Ok ?sp |- _ => rename E into Hs, sp into span end.
  rewrite (sb_prior _ _ _ _ _ _ _ _ _ Hsb), (sb_progress _ _ _ _ _ _ _ _ _ Hsb) in Hs. cbn [progress_done] in Hs.
  unfold checked_heap_backing_span in Hs. destruct (_ || _) eqn:Hb; [done|]. cbn in Hs. apply (span_indices_spec f h) in Hs; [|apply Hc]. bools.
  destruct (cu_rows _ _ Hc _ _ Hrow) as (s1&rec1&j1&Hok). destruct (life_fun _ _ _ _ _ _ _ _ (pn_life _ _ _ _ _ _ _ Hpl) (ro_life _ _ _ _ _ _ _ Hok)) as (->&->&->).
  rewrite <- Hext in *. set (e := he_physical (row_extents (sn_row snap))) in *.
  pose proof (check_extents_fits _ _ (ro_fits _ _ _ _ _ _ _ Hok) (cu_pool _ _ Hc)) as Hfit. fold e in Hfit.
  pose proof (ro_scrubbed _ _ _ _ _ _ _ Hok) as Hold. pose proof (ro_done _ _ _ _ _ _ _ Hok) as Hdone. fold e in Hold, Hdone.
  rewrite (sb_progress _ _ _ _ _ _ _ _ _ Hsb) in Hold, Hdone. cbn [progress_done] in Hold, Hdone.
  assert (ext_size e = hrec_rounded rec) as Hsz by (subst e; rewrite Hext; apply Hpl).
  pose proof (sb_next _ _ _ _ _ _ _ _ _ Hsb) as Hnext. pose proof (sb_amount _ _ _ _ _ _ _ _ _ Hsb) as (_&_&Ham&Hle).
  pose proof (sn_bytes _ _ _ _ _ _ Hs) as Hsb2. rewrite Hsb2 in W3. cbn in W3.
  match goal with |- in_custody ?g => set (f' := g) end. set (h' := clear_shadow _ _) in f'.
  assert (near f f' h h' (ext_base e + n) (ext_base e + n + amount)) as Hn by (by apply (write_near _ _ _ _ _ _ _ _ _ _ Hc Hs Hf)).
  assert (scrubbed f' h' (ext_base e) (n + amount)) as Hnew.
  { eapply scrubbed_chunk; try done; [|lia|lia|]. 
    - destruct Hfit. split; cbn; [done|lia|done].
    - pose proof (pn_progress _ _ _ _ _ _ _ Hpl) as Hv. unfold progress_valid in Hv. rewrite (sb_progress _ _ _ _ _ _ _ _ _ Hsb) in Hv. by bools. }
  exists h'. apply (custody_near f f' h h' _ _ (λ i, i = i0) Hc Hn); [exact Hadv|destruct Hfit; lia|..].
  - intros i row Hi. destruct (decide (i = i0)) as [->|Hne].
    + left. change (heap_row h i0 = Some row) in Hi. rewrite Hrow in Hi. injection Hi as <-. exists s, rec, (kp_next plan).
      split; [exact Hl'|apply Hok|apply Hok|rewrite (sb_res _ _ _ _ _ _ _ _ _ Hsb); apply Hok| | |]; fold e; rewrite ?Hsz, ?Hnext; [|done|lia].
      rewrite (check_extents_layout h h'); [apply Hok|done|done|apply Hn].
    + right. split; [done|]. exists row. split; [done|]. split; [done|]. intros s1 rec1 j1 Hok1.
      pose proof (ro_done _ _ _ _ _ _ _ Hok1). unfold clear_of. destruct (cu_apart _ _ Hc i i0 row _ Hne Hi Hrow); subst e; lia.
  - apply Hc.
  - apply Hc.
  - apply Hc.
Qed.

(** *** Release *)
Lemma remove_row_Done h i h' : remove_row h i = Done h' → (i < length (hf_rows h))%nat ∧ ∃ n, h' = set_hf_rows (<[i := None]> (hf_rows h)) n h.
Proof. unfold remove_row. intros E. run_binds E. apply vec_set_insert in E0 as [-> ?]. guards. eauto. Qed.

Lemma clean_release_spec `{Profile} f c snap f' : release_clean_heap f c snap = Done (Ok f') → in_custody f → in_custody f' ∧
  let e := he_physical (row_extents (sn_row snap)) in
  ∃ h', fab_private_heap f' = Some h' ∧ heap_row h' (hr_slot (row_reservation (sn_row snap))) = None ∧ scrubbed f' h' (ext_base e) (ext_size e).
Proof.
  unfold release_clean_heap. intros E [h Hc]. run_tries E. guards.
  match goal with E : prepare_heap_release _ _ _ _ = Done (Ok ?p) |- _ => rename E into Hp, p into plan end.
  match goal with E : check_cleanup_snapshot_row _ _ _ _ = Done (Ok ?u) |- _ => destruct u; rename E into Hr end.
  match goal with E : commit_heap_release _ _ = Done ?r |- _ => rename E into Hcm, r into reg end.
  set (i0 := hr_slot (cl_reservation (cs_lease (sn_status snap)))).
  destruct (release_advances (λ i, i = i0) _ _ _ _ _ _ Hp Hcm eq_refl) as (Hadv&s&rec&j&Hpl&Hclean).
  apply (snapshot_row f h) in Hr as (Hrow&Hext&Hres); [|apply Hc]. rewrite (seen_reservation _ _ _ _ _ _ _ Hpl) in *. fold i0 in Hrow.
  destruct (cu_rows _ _ Hc _ _ Hrow) as (s1&rec1&j1&Hok). destruct (life_fun _ _ _ _ _ _ _ _ (pn_life _ _ _ _ _ _ _ Hpl) (ro_life _ _ _ _ _ _ _ Hok)) as (->&->&->).
  match goal with E : update_heap _ _ = _ |- _ => apply update_heap_Done in E as (h1&h2&Hh1&Hk&->) end. cbn in Hh1.
  rewrite (cu_heap _ _ Hc) in Hh1. injection Hh1 as <-. fold i0 in Hk. apply remove_row_Done in Hk as [Hlen [n ->]].
  match goal with |- in_custody ?g ∧ _ => set (f' := g) end. set (h' := set_hf_rows _ _ _) in f'.
  assert (∀ k, heap_row h' k = if decide (k = i0) then None else heap_row h k) as Hrows by (intros k; by apply (heap_row_insert h)).
  assert (near f f' h h' 0 0) as Hn by (split; try done; auto). split.
  - exists h'. apply (custody_near f f' h h' 0 0 (λ i, i = i0) Hc Hn); [exact Hadv|lia|..].
    + intros i row. rewrite Hrows. destruct (decide _) as [|Hne]; [done|]. intros Hi. right. split; [done|]. exists row. split; [done|].
      split; [done|]. intros s1 rec1 j1 Hok1.
      pose proof (check_extents_fits _ _ (ro_fits _ _ _ _ _ _ _ Hok1) (cu_pool _ _ Hc)) as [[? _] _ _]. right; left. lia.
    + intros i1 i2 row1 row2. rewrite !Hrows. destruct (decide (i1 = _)), (decide (i2 = _)); try done. apply Hc.
    + intros i row. rewrite Hrows. destruct (decide _); [done|apply Hc].
    + apply Hc.
  - exists h'. split; [done|]. split; [by rewrite Hres, Hrows, decide_True|].
    pose proof (ro_scrubbed _ _ _ _ _ _ _ Hok) as Hs. rewrite Hclean in Hs. by destruct Hs; split.
Qed.
