(* ===== verification/HeapSteps.v ===== *)
(** * Runs of the private heap

    The operations on a fabric with a private heap as a step relation, the states
    they reach from an empty heap, and what every step keeps: custody of the pool,
    the order of leases, and the ledger of CPU work. *)

From S2P Require Import Prelude State Extents ExtentsFacts Registry PointerFrames HeapWork HeapLedger HeapWorkers RegistrySafety RegistryOps.
From S2P Require Import HeapLives HeapMoves Fabric FabricCells FabricHeap FabricWork HeapCustody HeapOutside HeapScrub.

(** ** Steps *)

Inductive heap_step `{Profile} (f : Fabric) : Fabric → Prop :=
| hs_outside f' : outside f f' → heap_step f f'
| hs_ledger r : ledger_op (fab_scoped_pointers f) r → heap_step f (with_registry f r)
| hs_attach h o rev f' x : attach_private_heap f h o rev = Done (Ok (f', x)) → heap_step f f'
| hs_initialize s o n rev f' x : 0 ≤ n → initialize_private_heap_chunk f s o n rev = Done (Ok (f', x)) → heap_step f f'
| hs_write_private s o off d rev f' x : 0 ≤ off → write_private_heap f s o off d rev = Done (Ok (f', x)) → heap_step f f'
| hs_store_cell o a p s f' : 0 ≤ ptr_position p → store_heap_pointer_cell f o a p s = Done (Ok f') → heap_step f f'
| hs_write_bytes o a p d f' : 0 ≤ ptr_position p → write_heap_bytes f o a p d = Done (Ok f') → heap_step f f'
| hs_register c p n w rev f' t : 0 ≤ ptr_position p →
    register_heap_cpu_work f c (Some p) n w rev = Done (Ok (f', t)) → heap_step f f'
| hs_execute t f' : execute_heap_cpu_work f t = Done (Ok f') → heap_step f f'
| hs_cancel t f' : cancel_heap_cpu_work f t = Done (Ok f') → heap_step f f'
| hs_finish t f' x : finish_heap_cpu_work f t = Done (Ok (f', x)) → heap_step f f'
| hs_close h o obj f' x : close_attached_heap f h o obj = Done (Ok (f', x)) → heap_step f f'
| hs_enroll c rev f' w : enroll_heap_cleanup_worker f c rev = Done (Ok (f', w)) → heap_step f f'
| hs_claim c w h o obj rev f' l : claim_heap_cleanup_job f c w h o obj rev = Done (Ok (f', l)) → heap_step f f'
| hs_revoke l o obj f' : revoke_heap_cleanup_job f l o obj = Done (Ok f') → heap_step f f'
| hs_recover l o obj f' : recover_heap_cleanup_job f l o obj = Done (Ok f') → heap_step f f'
| hs_retire c l o f' : retire_heap_authority f c l o = Done (Ok f') → heap_step f f'
| hs_begin c l o f' x : begin_heap_scrub f c l o = Done (Ok (f', x)) → heap_step f f'
| hs_scrub c s n f' x : scrub_heap_chunk f c s n = Done (Ok (f', x)) → heap_step f f'
| hs_release c s f' : release_clean_heap f c s = Done (Ok f') → heap_step f f'.

Definition heap_steps `{Profile} : Fabric → Fabric → Prop := rtc heap_step.

(** An empty heap: no rows, no allocations, no jobs, no work *)
Record empty_heap (f : Fabric) (h : HeapFabric) : Prop := {
  eh_heap : fab_private_heap f = Some h;
  eh_pool : 0 ≤ ext_base (hf_pool h);
  eh_rows i : heap_row h i = None;
  eh_slots i s rec : sp_slots (fab_scoped_pointers f) !! i = Some s → slot_record s ≠ RHeap rec;
  eh_jobs c : cleanup_job (fab_scoped_pointers f) c = None;
  eh_work w k : hf_work h = Some w → record_at w k = None;
  eh_sources w i s : hf_work h = Some w → hw_sources w !! i = Some s → ss_request s = None;
}.
Definition heap_reach `{Profile} (f : Fabric) : Prop := ∃ f0 h, empty_heap f0 h ∧ heap_steps f0 f.

(** ** Custody *)
Section steps.
Context `{Profile}.

Lemma ledger_op_advances X r r' : ledger_op r r' → advances X r r'.
Proof.
  destruct 1.
  - by eapply quiet_advances, admit_quiet.
  - by eapply quiet_advances, release_owner_quiet.
  - by eapply quiet_advances, release_closed_quiet.
  - by eapply reserve_host_advances.
  - by eapply quiet_advances, release_host_quiet.
  - by eapply reserve_advances.
  - by eapply abort_advances.
  - by eapply close_heap_advances.
  - by eapply close_owner_advances.
  - by eapply publication_advances.
  - by eapply quiet_advances, fence_quiet.
  - by eapply quiet_advances, remove_quiet.
Qed.

(** The steps that change the registry only *)
Lemma close_attached_undisturbed f h o obj f' x : close_attached_heap f h o obj = Done (Ok (f', x)) → undisturbed f f'.
Proof.
  unfold close_attached_heap. intros E. run_tries E. guards. apply registry_undisturbed. intros X.
  match goal with E : commit_attached_heap_closure _ _ = Done ?y |- _ => destruct y; by eapply closure_advances end.
Qed.
Lemma enroll_undisturbed f c rev f' w : enroll_heap_cleanup_worker f c rev = Done (Ok (f', w)) → undisturbed f f'.
Proof.
  unfold enroll_heap_cleanup_worker. intros E. run_tries E. guards. apply registry_undisturbed. intros X.
  match goal with E : enroll_cleanup_worker_record _ _ _ = Done (Ok ?y) |- _ => destruct y; by eapply quiet_advances, enroll_quiet end.
Qed.
Lemma claim_undisturbed f c w h o obj rev f' l : claim_heap_cleanup_job f c w h o obj rev = Done (Ok (f', l)) → undisturbed f f'.
Proof.
  unfold claim_heap_cleanup_job. intros E. run_tries E. guards. apply registry_undisturbed. intros X.
  match goal with E : commit_heap_worker_claim _ _ = Done ?y |- _ => destruct y; by eapply claim_advances end.
Qed.
Lemma revoke_undisturbed f l o obj f' : revoke_heap_cleanup_job f l o obj = Done (Ok f') → undisturbed f f'.
Proof.
  unfold revoke_heap_cleanup_job. intros E. run_tries E. guards. apply registry_undisturbed. intros X. by eapply transition_advances.
Qed.
Lemma recover_undisturbed f l o obj f' : recover_heap_cleanup_job f l o obj = Done (Ok f') → undisturbed f f'.
Proof.
  unfold recover_heap_cleanup_job. intros E. run_tries E; guards; apply registry_undisturbed; intros X; by eapply transition_advances.
Qed.
Lemma retire_undisturbed f c l o f' : retire_heap_authority f c l o = Done (Ok f') → undisturbed f f'.
Proof.
  unfold retire_heap_authority. intros E. run_tries E. guards. apply registry_undisturbed. intros X. by eapply retirement_advances.
Qed.
Lemma begin_undisturbed f c l o f' x : begin_heap_scrub f c l o = Done (Ok (f', x)) → undisturbed f f'.
Proof.
  unfold begin_heap_scrub. intros E. run_tries E. guards. apply registry_undisturbed. intros X.
  match goal with E : commit_heap_scrub _ _ = Done ?y |- _ => destruct y; by eapply begin_advances end.
Qed.

Lemma step_custody f f' : heap_step f f' → in_custody f → in_custody f'.
Proof.
  assert (∀ f f', undisturbed f f' → in_custody f → in_custody f') as Hout by (intros ? ? ? [h ?]; exists h; by eapply undisturbed_custody).
  destruct 1.
  - by apply Hout, outside_undisturbed.
  - apply Hout, registry_undisturbed. intros X. by apply ledger_op_advances.
  - by eapply attach_custody.
  - by eapply initialize_chunk_custody.
  - by eapply write_private_custody.
  - by eapply store_cell_custody.
  - by eapply write_heap_custody.
  - eapply register_work_custody; [done|]. by intros ? [= <-].
  - by eapply execute_work_custody.
  - by eapply cancel_work_custody.
  - by eapply finish_work_custody.
  - by eapply Hout, close_attached_undisturbed.
  - by eapply Hout, enroll_undisturbed.
  - by eapply Hout, claim_undisturbed.
  - by eapply Hout, revoke_undisturbed.
  - by eapply Hout, recover_undisturbed.
  - by eapply Hout, retire_undisturbed.
  - by eapply Hout, begin_undisturbed.
  - by eapply scrub_chunk_custody.
  - intros. by eapply clean_release_spec.
Qed.
Lemma empty_custody f h : empty_heap f h → custody f h.
Proof.
  intros []. split; try done.
  - split; intros.
    + exfalso. by eapply eh_slots0.
    + by rewrite eh_jobs0 in *.
    + match goal with L : life _ _ _ _ _ |- _ => destruct L end. exfalso. by eapply eh_slots0.
    + by rewrite eh_jobs0 in *.
  - intros i row. by rewrite eh_rows0.
  - intros i1 i2 row1 row2 _. by rewrite eh_rows0.
  - intros i row. by rewrite eh_rows0.
  - intros w k rec Hw. by rewrite (eh_work0 w k Hw).
Qed.
Lemma steps_custody f f' : heap_steps f f' → in_custody f → in_custody f'.
Proof. induction 1; [done|]. intros. by eapply IHrtc, step_custody. Qed.
Lemma reach_custody f : heap_reach f → in_custody f.
Proof. intros (f0&h&He&Hs). eapply steps_custody; [done|]. exists h. by apply empty_custody. Qed.

(** ** Leases *)
Definition anybody (i : nat) : Prop := True.
Lemma mem_write_registry f b e d f' : mem_write f b e d = Done f' → fab_scoped_pointers f' = fab_scoped_pointers f.
Proof. by intros (_&?&_)%mem_write_spec. Qed.
Lemma update_heap_registry f k f' : update_heap f k = Done f' → fab_scoped_pointers f' = fab_scoped_pointers f.
Proof. by intros (h&h'&_&_&->)%update_heap_Done. Qed.
Lemma update_work_registry f k f' : update_work f k = Done f' → fab_scoped_pointers f' = fab_scoped_pointers f.
Proof. by intros (h&w&w'&_&_&_&->)%update_work_Done. Qed.

(** Rewrite the registry back through the changes of memory, rows, shadow and work. *)
Ltac registries := cbn [fab_scoped_pointers with_registry set_fab_scoped_pointers] in *;
  repeat match goal with
  | E : mem_write _ _ _ _ = Done _ |- _ => apply mem_write_registry in E
  | E : mem_fill _ _ _ = Done _ |- _ => apply mem_write_registry in E
  | E : update_heap _ _ = Done _ |- _ => apply update_heap_registry in E
  | E : update_work _ _ = Done _ |- _ => apply update_work_registry in E
  end; cbn [fab_scoped_pointers with_registry set_fab_scoped_pointers] in *;
  repeat match goal with E : fab_scoped_pointers ?g = _ |- _ => progress rewrite !E in * end.

Lemma commit_initialization_forward f plan row span data f' x : commit_private_initialization f plan row span data = Done (f', x) →
  quiet (fab_scoped_pointers f) (fab_scoped_pointers f').
Proof.
  unfold commit_private_initialization. intros E. run_binds E. guards.
  match goal with E : commit_heap_initialization _ _ = _ |- _ => apply initialization_quiet in E; rename E into Hq end.
  match goal with E : match data with _ => _ end = _ |- _ => destruct data end; by registries.
Qed.
Lemma step_forward f f' : heap_step f f' → advances anybody (fab_scoped_pointers f) (fab_scoped_pointers f').
Proof.
  destruct 1 as [f' Ho|r Ho|? ? ? ? ? E|? ? ? ? ? ? _ E|? ? ? ? ? ? ? _ E|? ? ? ? ? _ E|? ? ? ? ? _ E|? ? ? ? ? ? ? _ E|? ? E|? ? E|? ? ? E|? ? ? ? ? E|? ? ? ? E
    |? ? ? ? ? ? ? ? E|? ? ? ? E|? ? ? ? E|? ? ? ? E|? ? ? ? ? E|? ? ? ? ? E|? ? ? E].
  - by apply outside_undisturbed in Ho as [].
  - by apply ledger_op_advances.
  - unfold attach_private_heap in E. run_tries E. guards. cbn. registries. by eapply attachment_advances.
  - unfold initialize_private_heap_chunk in E. run_tries E. guards. by eapply quiet_advances, commit_initialization_forward.
  - unfold write_private_heap in E. run_tries E. guards. by eapply quiet_advances, commit_initialization_forward.
  - unfold store_heap_pointer_cell in E. run_tries E. guards. registries. reflexivity.
  - unfold write_heap_bytes in E. run_tries E. guards. registries. reflexivity.
  - unfold register_heap_cpu_work in E. run_tries E. guards.
    match goal with E : commit_heap_cpu_work _ _ = _ |- _ => unfold commit_heap_cpu_work in E; run_binds E; guards end.
    by eapply quiet_advances, work_revision_quiet.
  - unfold execute_heap_cpu_work in E. run_tries E; guards. cbn.
    match goal with E : match wb_access _ with _ => _ end = _ |- _ => run_binds E end; registries; by eapply quiet_advances, work_cleanup_revision_quiet.
  - unfold cancel_heap_cpu_work in E. run_tries E. guards. registries. by eapply quiet_advances, work_cleanup_revision_quiet.
  - unfold finish_heap_cpu_work in E. run_tries E; guards; registries; by eapply quiet_advances, work_cleanup_revision_quiet.
  - by apply close_attached_undisturbed in E as [].
  - by apply enroll_undisturbed in E as [].
  - by apply claim_undisturbed in E as [].
  - by apply revoke_undisturbed in E as [].
  - by apply recover_undisturbed in E as [].
  - by apply retire_undisturbed in E as [].
  - by apply begin_undisturbed in E as [].
  - unfold scrub_heap_chunk in E. run_tries E. guards. registries.
    match goal with E : commit_heap_scrub _ _ = Done ?y |- _ => destruct y; by eapply chunk_advances end.
  - unfold release_clean_heap in E. run_tries E. guards. registries. by eapply release_advances.
Qed.
Lemma steps_forward f f' : heap_steps f f' → advances anybody (fab_scoped_pointers f) (fab_scoped_pointers f').
Proof. induction 1; [reflexivity|]. etransitivity; [by apply step_forward|done]. Qed.

(** *** The registry changes by its operations only *)
Lemma commit_initialization_run f plan row span data f' x : commit_private_initialization f plan row span data = Done (f', x) →
  custody_op (fab_scoped_pointers f) (fab_scoped_pointers f').
Proof.
  unfold commit_private_initialization. intros E. run_binds E. guards.
  match goal with E : commit_heap_initialization _ _ = _ |- _ => apply co_initialize in E; rename E into Hq end.
  match goal with E : match data with _ => _ end = _ |- _ => destruct data end; by registries.
Qed.
Lemma heap_step_run f f' : heap_step f f' → registry_run (fab_scoped_pointers f) (fab_scoped_pointers f').
Proof.
  assert (∀ r r', custody_op r r' → registry_run r r') as Hcu by (intros; by apply rtc_once, ro_custody).
  destruct 1 as [f' Ho|r Ho|? ? ? ? ? E|? ? ? ? ? ? _ E|? ? ? ? ? ? ? _ E|? ? ? ? ? _ E|? ? ? ? ? _ E|? ? ? ? ? ? ? _ E|? ? E|? ? E|? ? ? E|? ? ? ? ? E|? ? ? ? E
    |? ? ? ? ? ? ? ? E|? ? ? ? E|? ? ? ? E|? ? ? ? E|? ? ? ? ? E|? ? ? ? ? E|? ? ? E].
  - by apply scope_run_registry, Ho.
  - by apply rtc_once, ro_ledger.
  - unfold attach_private_heap in E. run_tries E. guards. cbn. registries. by eapply Hcu, co_attach.
  - unfold initialize_private_heap_chunk in E. run_tries E. guards. by eapply Hcu, commit_initialization_run.
  - unfold write_private_heap in E. run_tries E. guards. by eapply Hcu, commit_initialization_run.
  - unfold store_heap_pointer_cell in E. run_tries E. guards. registries. reflexivity.
  - unfold write_heap_bytes in E. run_tries E. guards. registries. reflexivity.
  - unfold register_heap_cpu_work in E. run_tries E. guards.
    match goal with E : commit_heap_cpu_work _ _ = _ |- _ => unfold commit_heap_cpu_work in E; run_binds E; guards end.
    by eapply Hcu, co_work.
  - unfold execute_heap_cpu_work in E. run_tries E; guards. cbn.
    match goal with E : match wb_access _ with _ => _ end = _ |- _ => run_binds E end; registries; by eapply Hcu, co_work_cleanup.
  - unfold cancel_heap_cpu_work in E. run_tries E. guards. registries. by eapply Hcu, co_work_cleanup.
  - unfold finish_heap_cpu_work in E. run_tries E; guards; registries; by eapply Hcu, co_work_cleanup.
  - unfold close_attached_heap in E. run_tries E. guards.
    match goal with E : commit_attached_heap_closure _ _ = Done ?y |- _ => destruct y; by eapply Hcu, co_close end.
  - unfold enroll_heap_cleanup_worker in E. run_tries E. guards.
    match goal with E : enroll_cleanup_worker_record _ _ _ = Done (Ok ?y) |- _ => destruct y; by eapply Hcu, co_enroll end.
  - unfold claim_heap_cleanup_job in E. run_tries E. guards.
    match goal with E : commit_heap_worker_claim _ _ = Done ?y |- _ => destruct y; by eapply Hcu, co_claim end.
  - unfold revoke_heap_cleanup_job in E. run_tries E. guards. by eapply Hcu, co_recover.
  - unfold recover_heap_cleanup_job in E. run_tries E; guards; by eapply Hcu, co_recover.
  - unfold retire_heap_authority in E. run_tries E. guards. by eapply Hcu, co_retire.
  - unfold begin_heap_scrub in E. run_tries E. guards.
    match goal with E : commit_heap_scrub _ _ = Done ?y |- _ => destruct y; by eapply Hcu, co_scrub end.
  - unfold scrub_heap_chunk in E. run_tries E. guards. registries.
    match goal with E : commit_heap_scrub _ _ = Done ?y |- _ => destruct y; by eapply Hcu, co_scrub end.
  - unfold release_clean_heap in E. run_tries E. guards. registries. by eapply Hcu, co_release.
Qed.
Lemma heap_steps_evolve f f' : heap_steps f f' → evolves (fab_scoped_pointers f) (fab_scoped_pointers f').
Proof. induction 1 as [|a b c Hab _ IH]; [reflexivity|]. etransitivity; [by apply registry_run_evolves, heap_step_run|done]. Qed.
End steps.
