(* ===== verification/HeapTickets.v ===== *)
(** * Tickets and requests of CPU work

    Every ticket of the ledger of [HeapWork.v] is pinned to one queued request and
    back, and the operation numbers of tickets are never used again. *)

From S2P Require Import Prelude State Extents ExtentsFacts Registry PointerFrames HeapWork HeapLedger HeapWorkers RegistrySafety RegistryOps.
From S2P Require Import HeapLives HeapMoves Fabric FabricCells FabricHeap FabricWork HeapCustody HeapOutside HeapScrub HeapSteps.

(** ** Pins *)

(** What the checks of a record establish about its binding *)
Definition binding_ok (b : WorkBinding) : Prop :=
  wb_length b ≠ 0 ∧ wb_length b ≤ MAX_CPU_BYTES ∧ wb_offset b ≤ wb_logical b ∧ wb_length b ≤ wb_logical b - wb_offset b ∧
  wb_offset b + wb_length b < U64.

(** The record [r] and the request [q] of a source slot are pinned to each other. *)
Record linked (r : WorkRecord) (sl : CpuSourceSlot) (q : CpuRequest) : Prop := {
  lk_request : ss_request sl = Some q;
  lk_key : rq_key q = wk_source r;
  lk_pin : rq_pin q = wk_ticket r;
  lk_binding : rq_binding q = wk_binding r;
  lk_generation : ss_next_generation sl = checked_add (sk_generation (rq_key q)) 1;
  lk_bounds : binding_ok (wk_binding r);
  lk_operation : wt_operation (wk_ticket r) ≠ 0;
}.

Record work_wf (w : HeapCpuWork) : Prop := {
  ww_record k r : record_at w k = Some r → wt_row (wk_ticket r) = Z.of_nat k + 1 ∧
    wt_operation (wk_ticket r) < hw_next_operation w ∧
    ∃ sl q, hw_sources w !! sk_index (wk_source r) = Some sl ∧ linked r sl q;
  ww_source i sl q : hw_sources w !! i = Some sl → ss_request sl = Some q → sk_index (rq_key q) = i ∧
    ∃ k r, record_at w k = Some r ∧ wk_source r = rq_key q ∧ wk_ticket r = rq_pin q;
}.

Lemma row_index_of k : row_index (Z.of_nat k + 1) = Some k.
Proof. unfold row_index. destruct (_ <? _) eqn:E; bools; [lia|]. f_equal. lia. Qed.
Lemma row_index_Some z k : row_index z = Some k → z = Z.of_nat k + 1.
Proof. unfold row_index. destruct (_ <? _) eqn:E; bools; [done|]. intros [= <-]. lia. Qed.

Lemma record_checked w k r : work_wf w → record_at w k = Some r → checked_record w (wk_ticket r) = Ok r.
Proof.
  intros Hw Hr. destruct (ww_record w Hw k r Hr) as (Hrow&_&sl&q&Hsl&[L1 L2 L3 L4 L5 (B1&B2&B3&B4&B5) L7]). unfold checked_record.
  rewrite Hrow, row_index_of. cbn [ok_or mbind result_bind]. rewrite Hr. cbn [ok_or mbind result_bind].
  rewrite (proj2 (Z.eqb_neq _ _) L7), bool_decide_true by done. cbn [negb orb]. rewrite Hsl. cbn [ok_or mbind result_bind]. rewrite L1.
  cbn [ok_or mbind result_bind]. rewrite !bool_decide_true by done. cbv zeta. cbn [negb orb].
  rewrite (proj2 (Z.eqb_neq _ _) B1), (proj2 (Z.ltb_ge _ _) B2), (proj2 (Z.ltb_ge _ _) B3), (proj2 (Z.ltb_ge _ _) B4). cbn [orb].
  unfold checked_add. rewrite (proj2 (Z.ltb_lt _ _) B5). done.
Qed.

(** Both loops of [check_pins] pass. *)
Lemma pins_ok w : work_wf w → check_pins w = Ok tt.
Proof.
  intros Hw. unfold check_pins.
  assert (∀ l n, (∀ k r, l !! k = Some (Some r) → record_at w (n + k) = Some r) → check_record_pins w n l = Ok tt) as H1.
  { induction l as [|[r|] l IH]; intros n Hl; cbn [check_record_pins]; [done| |].
    - pose proof (Hl 0%nat r eq_refl) as Hr. rewrite Nat.add_0_r in Hr. destruct (ww_record w Hw n r Hr) as (Hrow&_).
      rewrite Hrow, Z.eqb_refl. cbn [negb]. rewrite (record_checked w n r Hw Hr). cbn. apply IH. intros k r' Hk.
      replace (S n + k)%nat with (n + S k)%nat by lia. by apply Hl.
    - apply IH. intros k r' Hk. replace (S n + k)%nat with (n + S k)%nat by lia. by apply Hl. }
  rewrite H1 by (intros k r Hk; unfold record_at; cbn; by rewrite Hk). cbn [mbind result_bind].
  assert (∀ l n, (∀ k sl, l !! k = Some sl → hw_sources w !! (n + k)%nat = Some sl) → check_source_pins w n l = Ok tt) as H2.
  { induction l as [|sl l IH]; intros n Hl; cbn [check_source_pins]; [done|].
    assert (check_source_pins w (S n) l = Ok tt) as Hrest.
    { apply IH. intros k s' Hk. replace (S n + k)%nat with (n + S k)%nat by lia. by apply Hl. }
    destruct (ss_request sl) as [q|] eqn:Hq; [|done]. pose proof (Hl 0%nat sl eq_refl) as Hs. rewrite Nat.add_0_r in Hs.
    destruct (ww_source w Hw n sl q Hs Hq) as (Hi&k&r&Hr&Hsrc&Hpin). rewrite Hi, Nat.eqb_refl, <- Hpin, (record_checked w k r Hw Hr).
    cbn. by rewrite bool_decide_true. }
  by apply H2.
Qed.

(** ** Operations *)

(** Tickets of [w'] are tickets of [w] in the same row, or new. *)
Record work_le (w w' : HeapCpuWork) : Prop := {
  wl_next : hw_next_operation w ≤ hw_next_operation w';
  wl_record k r : record_at w' k = Some r →
    (∃ r0, record_at w k = Some r0 ∧ wk_ticket r0 = wk_ticket r) ∨ hw_next_operation w ≤ wt_operation (wk_ticket r);
}.
#[export] Instance work_le_preorder : PreOrder work_le.
Proof.
  split; [intros w; split; [done|eauto]|]. intros a b c [N1 R1] [N2 R2]. split; [lia|]. intros k r Hr.
  destruct (R2 k r Hr) as [(r1&Hr1&E1)|?]; [|right; lia]. destruct (R1 k r1 Hr1) as [(r0&Hr0&E0)|?]; [left; exists r0; split; congruence|right; congruence].
Qed.

Lemma with_request_wf w i g w' : with_request w i g = Done w' →
  (∀ q, rq_key (g q) = rq_key q ∧ rq_pin (g q) = rq_pin q ∧ rq_binding (g q) = rq_binding q) → work_wf w → work_wf w' ∧ work_le w w'.
Proof.
  unfold with_request. intros E Hg Hw. destruct (vec_get i (hw_sources w)) as [sl|] eqn:Hs; [cbn in E|done]. apply vec_get_Done in Hs.
  destruct (ss_request sl) as [q|] eqn:Hq; [cbn in E|done]. run_binds E. guards. apply vec_set_insert in E0 as [-> Hlen].
  set (w' := mkWork _ _ _ _). assert (∀ k, record_at w' k = record_at w k) as Hrec by done.
  split; [|split; [done|intros k r; rewrite Hrec; eauto]]. destruct (Hg q) as (G1&G2&G3). split.
  - intros k r Hr. rewrite Hrec in Hr. destruct (ww_record w Hw k r Hr) as (Hrow&Hop&sl1&q1&Hs1&[]). split; [done|]. split; [done|].
    cbn. destruct (decide (sk_index (wk_source r) = i)) as [Ei|].
    + rewrite Ei, list_lookup_insert_eq by done. rewrite Ei, Hs in Hs1. simplify_eq. eexists _, (g q). split; [done|].
      split; cbn; try congruence; try done.
    + rewrite list_lookup_insert_ne by done. eexists _, _. split; [done|]. by split.
  - intros k sl1 q1 Hk Hq1. cbn in Hk. destruct (decide (k = i)) as [->|].
    + rewrite list_lookup_insert_eq in Hk by done. injection Hk as <-. cbn in Hq1. injection Hq1 as <-. rewrite G1, G2.
      by apply (ww_source w Hw i sl q).
    + rewrite list_lookup_insert_ne in Hk by done. by apply (ww_source w Hw k sl1 q1).
Qed.

Lemma work_remove_wf w rec w' k : work_remove w rec = Done w' → record_at w k = Some rec → work_wf w →
  work_wf w' ∧ work_le w w' ∧ record_at w' k = None.
Proof.
  unfold work_remove. intros E Hrec Hw. destruct (ww_record w Hw k rec Hrec) as (Hrow&_&sl&q&Hsl&Hlk).
  rewrite (vec_get_lookup _ _ _ Hsl) in E. cbn [mbind outcome_bind] in E. rewrite (lk_request _ _ _ Hlk), Hrow, row_index_of in E. cbn in E. run_binds E. guards.
  apply vec_set_insert in E0 as [-> Hi]. apply vec_set_insert in E1 as [-> Hk]. set (w' := mkWork _ _ _ _).
  assert (∀ n, record_at w' n = if decide (n = k) then None else record_at w n) as Hat by (intros; by apply record_at_insert).
  split; [|split; [split; [done|intros n r; rewrite Hat; destruct (decide _); [done|eauto]]|by rewrite Hat, decide_True]]. split.
  - intros n r. rewrite Hat. destruct (decide _) as [|Hne]; [done|]. intros Hr. destruct (ww_record w Hw n r Hr) as (Hrow1&Hop&sl1&q1&Hs1&Hl1).
    split; [done|]. split; [done|]. cbn. rewrite list_lookup_insert_ne; [eauto|]. intros Ei. rewrite <- Ei, Hsl in Hs1. injection Hs1 as <-.
    destruct Hlk, Hl1. simplify_eq. assert (wk_ticket r = wk_ticket rec) as Et by congruence. rewrite Et in Hrow1. lia.
  - intros n sl1 q1 Hn Hq1. cbn in Hn. destruct (decide (n = sk_index (wk_source rec))) as [->|Hne].
    + rewrite list_lookup_insert_eq in Hn by done. injection Hn as <-. done.
    + rewrite list_lookup_insert_ne in Hn by done. destruct (ww_source w Hw n sl1 q1 Hn Hq1) as (Hx&m&r&Hr&Hsrc&Hpin).
      split; [done|]. exists m, r. rewrite Hat, decide_False; [done|]. intros ->. rewrite Hrec in Hr. injection Hr as <-. congruence.
Qed.

(** A linked pair enters two free rows. *)
Lemma work_admit_wf w k0 r sl0 sl q nr : work_wf w → hw_records w !! k0 = Some None →
  hw_sources w !! sk_index (wk_source r) = Some sl0 → ss_request sl0 = None → linked r sl q →
  wt_row (wk_ticket r) = Z.of_nat k0 + 1 → wt_operation (wk_ticket r) = hw_next_operation w →
  let w' := mkWork (<[k0 := Some r]> (hw_records w)) (<[sk_index (wk_source r) := sl]> (hw_sources w)) (hw_next_operation w + 1) nr in
  work_wf w' ∧ work_le w w'.
Proof.
  intros Hw Hk Hs Hfree Hlk Hrow Hop w'.
  assert (∀ n, record_at w' n = if decide (n = k0) then Some r else record_at w n) as Hat.
  { intros n. apply record_at_insert. by eapply lookup_lt_Some. }
  assert (record_at w k0 = None) as Hnone by (unfold record_at; by rewrite Hk).
  assert (sk_index (wk_source r) < length (hw_sources w))%nat as Hlen by (by eapply lookup_lt_Some).
  split; [split|split].
  - intros n r1. rewrite Hat. destruct (decide (n = k0)) as [->|].
    + intros [= <-]. split; [done|]. split; [cbn; lia|]. exists sl, q. cbn. by rewrite list_lookup_insert_eq.
    + intros Hr1. destruct (ww_record w Hw n r1 Hr1) as (?&?&sl1&q1&Hs1&Hl1). split; [done|]. split; [cbn; lia|].
      exists sl1, q1. split; [|done]. cbn. rewrite list_lookup_insert_ne; [done|]. intros Ei. rewrite <- Ei, Hs in Hs1. injection Hs1 as <-.
      pose proof (lk_request _ _ _ Hl1). congruence.
  - intros n sl1 q1 Hn Hq1. cbn in Hn. destruct (decide (n = sk_index (wk_source r))) as [->|].
    + rewrite list_lookup_insert_eq in Hn by done. injection Hn as <-. rewrite (lk_request _ _ _ Hlk) in Hq1. injection Hq1 as <-.
      split; [by rewrite (lk_key _ _ _ Hlk)|]. exists k0, r. rewrite Hat, decide_True by done. split; [done|]. by destruct Hlk.
    + rewrite list_lookup_insert_ne in Hn by done. destruct (ww_source w Hw n sl1 q1 Hn Hq1) as (?&m&r1&Hr1&?&?). split; [done|].
      exists m, r1. rewrite Hat, decide_False; [done|]. intros ->. congruence.
  - cbn. lia.
  - intros n r1. rewrite Hat. destruct (decide _); [intros [= <-]; right; lia|eauto].
Qed.

Lemma work_commit_wf w b wr p w' t : work_prepare w b wr = Done (Ok p) → work_commit w p = Done (w', t) → binding_ok b →
  work_wf w → work_wf w' ∧ work_le w w'.
Proof.
  unfold work_prepare. intros E Hc Hb Hw. run_tries E. guards. oks. bools.
  unfold work_commit in Hc. cbn in Hc. rewrite row_index_of in Hc. cbn in Hc. run_binds Hc. guards.
  repeat match goal with E : vec_set _ _ _ = Done _ |- _ => apply vec_set_insert in E as [-> _] end.
  repeat match goal with E : vec_get _ _ = Done _ |- _ => apply vec_get_Done in E end. simplify_eq.
  repeat match goal with E : assert_ (negb (is_some ?o)) = Done _ |- _ => destruct o eqn:?; [done|clear E] end.
  match goal with E : hw_sources w !! ?i = Some ?sl, F : hw_records w !! ?k = Some None, G : ss_request ?sl = None,
      Hr : hw_next_request w = Some ?n, Hg : unwrap (ss_next_generation ?sl) = Done ?g, Hp : work_payload _ _ _ = Ok ?pl |- _ =>
    pose (t := mkTicket (Z.of_nat k + 1) (hw_next_operation w)); pose (key := mkSourceKey i g n);
    refine (work_admit_wf w k (mkWorkRecord t key b) sl (mkSourceSlot (checked_add g 1) (Some (mkCpuRequest key t b pl RqPrepared))) _
      (checked_add n 1) Hw F E G _ eq_refl eq_refl) end.
  by split.
Qed.

(** ** Along the steps *)

(** The ledger of work stays there, keeps its pins, and its tickets are old or new. *)
Definition tickets (f f' : Fabric) : Prop :=
  (heap_work f = None → heap_work f' = None) ∧
  ∀ w, heap_work f = Some w → work_wf w → ∃ w', heap_work f' = Some w' ∧ work_wf w' ∧ work_le w w'.
#[export] Instance tickets_preorder : PreOrder tickets.
Proof.
  split; [intros f; split; [done|]; intros w ? ?; by exists w|]. intros a b c [Nab Hab] [Nbc Hbc]. split; [auto|]. intros w Hw Hwf. destruct (Hab w Hw Hwf) as (w1&H1&W1&L1).
  destruct (Hbc w1 H1 W1) as (w2&H2&W2&L2). exists w2. split; [done|]. split; [done|]. by etransitivity.
Qed.
Lemma same_tickets f f' : heap_work f' = heap_work f → tickets f f'.
Proof. intros E. split; [by rewrite E|]. intros w Hw Hwf. exists w. by rewrite E. Qed.
Lemma undisturbed_tickets f f' : undisturbed f f' → tickets f f'.
Proof. intros [O _ _]. apply same_tickets. unfold heap_work. by rewrite O. Qed.
Lemma registry_work f r : heap_work (with_registry f r) = heap_work f.
Proof. done. Qed.
Lemma mem_write_work f b e d f' : mem_write f b e d = Done f' → heap_work f' = heap_work f.
Proof. intros (E&_)%mem_write_spec. unfold heap_work. by rewrite E. Qed.
Lemma update_heap_work f k f' : update_heap f k = Done f' → (∀ h h', k h = Done h' → hf_work h' = hf_work h) → heap_work f' = heap_work f.
Proof. intros (h&h'&Hh&Hk&->)%update_heap_Done Hw. unfold heap_work. rewrite Hh. cbn. by apply Hw. Qed.
Lemma set_row_work h i row h' : set_row h i row = Done h' → hf_work h' = hf_work h.
Proof. by intros [_ ->]%set_row_Done. Qed.
Lemma update_work_tickets f k f1 r : update_work f k = Done f1 →
  (∀ w w', heap_work f = Some w → k w = Done w' → work_wf w → work_wf w' ∧ work_le w w') → tickets f (with_registry f1 r).
Proof.
  intros (h&w&w'&Hh&Hw&Hk&->)%update_work_Done Hwf. unfold tickets, heap_work in *. rewrite Hh in *. cbn in *. rewrite Hw in *. split; [done|].
  intros v Hv Hvf. injection Hv as <-.
  exists w'. destruct (Hwf w w' eq_refl Hk Hvf). done.
Qed.

Section tickets.
Context `{Profile}.
Lemma attach_tickets f h o rev f' x : attach_private_heap f h o rev = Done (Ok (f', x)) → tickets f f'.
Proof.
  unfold attach_private_heap. intros E. run_tries E. guards. apply same_tickets.
  match goal with E : update_heap _ _ = _ |- _ => apply update_heap_work in E end; [done|].
  intros h1 h2 Hk. run_binds Hk. guards. cbn. by eapply set_row_work.
Qed.
Lemma commit_initialization_tickets f plan row span data f' x : commit_private_initialization f plan row span data = Done (f', x) → tickets f f'.
Proof.
  unfold commit_private_initialization. intros E. run_binds E. guards. apply same_tickets. rewrite registry_work.
  match goal with E : update_heap _ _ = _ |- _ => apply update_heap_work in E as ->; [|intros h1 h2 Hk%set_row_work; done] end.
  match goal with E : match data with _ => _ end = _ |- _ => destruct data; by eapply mem_write_work in E end.
Qed.
Lemma store_cell_tickets f o a p s f' : store_heap_pointer_cell f o a p s = Done (Ok f') → tickets f f'.
Proof.
  unfold store_heap_pointer_cell. intros E. run_tries E. guards. apply same_tickets.
  match goal with E : update_heap _ _ = _ |- _ => apply update_heap_work in E as ->; [|intros h1 h2 Hk; run_binds Hk; by guards] end.
  by eapply mem_write_work.
Qed.
Lemma write_bytes_tickets f o a p d f' : write_heap_bytes f o a p d = Done (Ok f') → tickets f f'.
Proof.
  unfold write_heap_bytes. intros E. run_tries E. guards. apply same_tickets.
  match goal with E : update_heap _ _ = _ |- _ => apply update_heap_work in E as ->; [|intros h1 h2 [= <-]; done] end.
  by eapply mem_write_work.
Qed.
Lemma scrub_tickets f c s n f' x : scrub_heap_chunk f c s n = Done (Ok (f', x)) → tickets f f'.
Proof.
  unfold scrub_heap_chunk. intros E. run_tries E. guards. apply same_tickets. rewrite registry_work.
  match goal with E : update_heap _ _ = _ |- _ => apply update_heap_work in E as ->; [|intros h1 h2 [= <-]; done] end.
  by eapply mem_write_work.
Qed.
Lemma release_tickets f c s f' : release_clean_heap f c s = Done (Ok f') → tickets f f'.
Proof.
  unfold release_clean_heap. intros E. run_tries E. guards. apply same_tickets.
  match goal with E : update_heap _ _ = _ |- _ => apply update_heap_work in E as ->; [done|] end.
  intros h1 h2 [_ [? ->]]%remove_row_Done. done.
Qed.
Lemma register_tickets f c p n wr rev f' t : register_heap_cpu_work f c p n wr rev = Done (Ok (f', t)) → in_custody f → tickets f f'.
Proof.
  unfold register_heap_cpu_work. intros E [h Hc]. run_tries E. guards.
  match goal with E : prepare_heap_cpu_work _ _ _ _ _ _ = _ |- _ => unfold prepare_heap_cpu_work in E; run_tries E; guards end. oks.
  match goal with E : checked_live_heap _ _ _ _ = _ |- _ => destruct (checked_live_row _ _ _ _ _ _ Hc E) as (s&rec&j&HL) end.
  match goal with E : commit_heap_cpu_work _ _ = _ |- _ => rename E into Hm end.
  match goal with E : heap_work f = Some _ |- _ => rename E into Hw end.
  unfold heap_work in Hw. rewrite (cu_heap _ _ Hc) in Hw. cbn in Hw. unfold commit_heap_cpu_work in Hm. rewrite (cu_heap _ _ Hc) in Hm. cbn in Hm.
  rewrite Hw in Hm. cbn in Hm. run_binds Hm. guards. split; [unfold heap_work; rewrite (cu_heap _ _ Hc); cbn; by rewrite Hw|].
  intros w0 Hw0 Hwf. unfold heap_work in Hw0. rewrite (cu_heap _ _ Hc) in Hw0. cbn in Hw0. rewrite Hw in Hw0. injection Hw0 as <-. cbn in *.
  match goal with E : work_commit _ _ = Done ?y, E1 : work_prepare _ ?b _ = _ |- _ => destruct y as [w1 t1]; cbn in *; exists w1; split; [done|];
    eapply (work_commit_wf _ b); [exact E1|exact E| |exact Hwf] end.
  match goal with E : checked_heap_span _ _ _ _ = _ |- _ => unfold checked_heap_span, checked_heap_backing_span in E; rename E into Hs end.
  destruct (_ || _) eqn:Hb in Hs; [done|]. cbn in Hs. bools. unfold binding_ok, MAX_CPU_BYTES. cbn. split_and!; try lia.
  destruct (cu_rows _ _ Hc _ _ (lr_row _ _ _ _ _ _ _ HL)) as (?&?&?&Hok).
  pose proof (check_extents_fits _ _ (ro_fits _ _ _ _ _ _ _ Hok) (cu_pool _ _ Hc)) as [[? _] _ _].
  unfold span_indices in Hs. destruct (checked_add _ _) as [a|] eqn:Ha; [cbn [ok_or mbind result_bind] in Hs|done]. apply checked_add_Some in Ha as [_ ->].
  destruct (checked_add _ _) as [a|] eqn:Ha in Hs; [|done]. apply checked_add_Some in Ha as [? _]. lia.
Qed.
Lemma cancel_tickets f t f' : cancel_heap_cpu_work f t = Done (Ok f') → tickets f f'.
Proof.
  unfold cancel_heap_cpu_work. intros E. run_tries E. guards. eapply update_work_tickets; [done|].
  intros ? ? _. cbv beta. intros Hk. by eapply with_request_wf.
Qed.
Lemma execute_tickets f t f' : execute_heap_cpu_work f t = Done (Ok f') → tickets f f'.
Proof.
  unfold execute_heap_cpu_work. intros E. run_tries E; guards.
  match goal with E : match wb_access _ with _ => _ end = Done _ |- _ => run_binds E end.
  - eapply update_work_tickets; [done|]. intros ? ? _. cbv beta. intros Hk. by eapply with_request_wf.
  - match goal with E1 : mem_write f _ _ _ = Done ?g, E2 : update_heap ?g _ = Done ?g' |- _ => transitivity g' end.
    + apply same_tickets. match goal with E : update_heap _ _ = _ |- _ => apply update_heap_work in E as ->; [|intros h1 h2 [= <-]; done] end.
      by eapply mem_write_work.
    + eapply update_work_tickets; [done|]. intros ? ? _. cbv beta. intros Hk. by eapply with_request_wf.
Qed.

(** Consumption empties the row of the ticket. *)
Lemma finish_work_spec f t f' x : finish_heap_cpu_work f t = Done (Ok (f', x)) → in_custody f → ∃ w rec k, heap_work f = Some w ∧
  record_at w k = Some rec ∧ wk_ticket rec = t ∧ row_index (wt_row t) = Some k ∧
  ∃ w', heap_work f' = Some w' ∧ (work_wf w → work_wf w' ∧ work_le w w' ∧ record_at w' k = None).
Proof.
  unfold finish_heap_cpu_work. intros E [h Hc]. apply try_call_Ok in E as ([w rec]&Hw&E).
  apply (checked_work_spec f h) in Hw as (Hw&Hrec&_); [|done]. destruct (checked_record_at _ _ _ Hrec) as (k&Hk&Ht&Hrow&_).
  assert (heap_work f = Some w) as Hhw by (unfold heap_work; by rewrite (cu_heap _ _ Hc)).
  run_tries E; guards. all: match goal with E : update_work _ _ = _ |- _ => apply update_work_Done in E as (h1&w1&w2&Hh1&Hw1&Hk1&->) end.
  all: rewrite (cu_heap _ _ Hc) in Hh1; injection Hh1 as <-; rewrite Hw in Hw1; injection Hw1 as <-.
  all: exists w, rec, k; split_and!; try done; exists w2; split; [done|]; intros Hwf; by eapply work_remove_wf.
Qed.
Lemma finish_tickets f t f' x : finish_heap_cpu_work f t = Done (Ok (f', x)) → in_custody f → tickets f f'.
Proof.
  intros E Hc. destruct (finish_work_spec _ _ _ _ E Hc) as (w&rec&k&Hw&_&_&_&w'&Hw'&Hwf). split; [by rewrite Hw|]. intros w0 Hw0 Hwf0. rewrite Hw in Hw0. injection Hw0 as <-.
  exists w'. destruct (Hwf Hwf0) as (?&?&_). done.
Qed.

Lemma step_tickets f f' : heap_step f f' → in_custody f → tickets f f'.
Proof.
  destruct 1 as [f' Ho|r Ho|? ? ? ? ? E|? ? ? ? ? ? _ E|? ? ? ? ? ? ? _ E|? ? ? ? ? _ E|? ? ? ? ? _ E|? ? ? ? ? ? ? _ E|? ? E|? ? E|? ? ? E|? ? ? ? ? E|? ? ? ? E
    |? ? ? ? ? ? ? ? E|? ? ? ? E|? ? ? ? E|? ? ? ? E|? ? ? ? ? E|? ? ? ? ? E|? ? ? E]; intros Hc.
  - by apply undisturbed_tickets, outside_undisturbed.
  - by apply same_tickets.
  - by eapply attach_tickets.
  - unfold initialize_private_heap_chunk in E. run_tries E. guards. by eapply commit_initialization_tickets.
  - unfold write_private_heap in E. run_tries E. guards. by eapply commit_initialization_tickets.
  - by eapply store_cell_tickets.
  - by eapply write_bytes_tickets.
  - by eapply register_tickets.
  - by eapply execute_tickets.
  - by eapply cancel_tickets.
  - by eapply finish_tickets.
  - by eapply undisturbed_tickets, close_attached_undisturbed.
  - by eapply undisturbed_tickets, enroll_undisturbed.
  - by eapply undisturbed_tickets, claim_undisturbed.
  - by eapply undisturbed_tickets, revoke_undisturbed.
  - by eapply undisturbed_tickets, recover_undisturbed.
  - by eapply undisturbed_tickets, retire_undisturbed.
  - by eapply undisturbed_tickets, begin_undisturbed.
  - by eapply scrub_tickets.
  - by eapply release_tickets.
Qed.
Lemma steps_tickets f f' : heap_steps f f' → in_custody f → tickets f f'.
Proof.
  induction 1 as [|a b c Hab Hbc IH]; [intros; reflexivity|]. intros Hc. etransitivity; [by eapply step_tickets|]. by eapply IH, step_custody.
Qed.

Lemma empty_work_wf f h w : empty_heap f h → heap_work f = Some w → work_wf w.
Proof.
  intros [] Hw. unfold heap_work in Hw. rewrite eh_heap in Hw. cbn in Hw. split.
  - intros k r. by rewrite (eh_work w k Hw).
  - intros i sl q Hi. by rewrite (eh_sources w i sl Hw Hi).
Qed.
Lemma reach_work_wf f w : heap_reach f → heap_work f = Some w → work_wf w.
Proof.
  intros (f0&h&He&Hs) Hw. pose proof (empty_custody _ _ He) as Hc.
  destruct (steps_tickets f0 f Hs) as [Hnone Hsome]; [by exists h|]. destruct (heap_work f0) as [w0|] eqn:Hw0; [|by rewrite Hnone in Hw].
  destruct (Hsome w0 eq_refl) as (w1&Hw1&Hwf&_); [by eapply empty_work_wf|]. rewrite Hw in Hw1. by injection Hw1 as ->.
Qed.
End tickets.
