(* ===== verification/HeapDemo.v ===== *)
(** * One page of heap, from reservation to release

    A concrete run of the private heap: the owner reserves, attaches, initializes and
    publishes a page, writes to it, reads it through queued work and frees it; a worker
    claims the job, retires the allocation, scrubs it and releases it; the owner
    reserves again. *)

From S2P Require Import Prelude State Extents Registry PointerFrames HeapWork HeapLedger HeapWorkers RegistrySafety RegistryOps Fabric FabricCells FabricHeap FabricWork.
From S2P Require Import HeapCustody HeapOutside HeapSteps.

#[local] Instance demo_profile : Profile := true.

Definition demo_claims : Claims := mkClaims [None] 0.
Definition demo_ledger : HeapLedger :=
  mkLedger [None] [None] [None] [] 1 1 1 0 0 0 65536
    (Some (mkHeapPlacement (mkManager (mkExtent 0 4096) [mkExtent 0 4096] ∅ ∅ (Some demo_claims) 3)
       [mkLayout 65536 65536 69632 [] (Some (mkArena (mkFree [mkExtent 65536 4096] 3) demo_claims None))])).
Definition demo_heap : HeapFabric :=
  mkHeapFabric (mkExtent 0 4096) (mkExtent 65536 4096) [None] 0 (replicate 256 None) (Some (work_new 1 1)) 0.
(** A domain, a processor, and memory that was used before *)
Definition page0 : Fabric :=
  register_agent (set_fab_domains {[ 0 := mkDomain 0 [] [] ]}
    (from_parts (replicate 4096 255) (mkRegistry [slot_empty] [] 0 0 1 demo_ledger) (Some demo_heap))) 5 (Cpu 0) 0.

Definition owner0 : AllocationOwner := mkOwner (mkProcessKey 0 1) 7 0.
Definition token0 : OwnerAccount := mkAccountToken 0 1.
Definition job0 : HeapReservation := mkReservation 0 1 1 token0.
Definition client : CurrentHeapProcess := mkCurrent owner0 5.
Definition janitor : CurrentHeapProcess := mkCurrent (mkOwner (mkProcessKey 1 1) 9 0) 5.
Definition revision (f : Fabric) : Z := hl_revision (sp_heap (fab_scoped_pointers f)).

(** The state an operation returns, and its result *)
Definition then_ {A} (f : Fabric) (m : fallible HeapError (Fabric * A)) : Fabric := match m with Done (Ok x) => x.1 | _ => f end.
Definition then_registry {A} (f : Fabric) (m : fallible HeapError (ScopedPointers * A)) : Fabric :=
  match m with Done (Ok x) => with_registry f x.1 | _ => f end.
Definition then_only (f : Fabric) (m : fallible HeapError Fabric) : Fabric := match m with Done (Ok g) => g | _ => f end.

Definition page1 : Fabric := then_registry page0 (admit_owner (fab_scoped_pointers page0) owner0 8192).
Definition page2 : Fabric := then_registry page1 (reserve_heap (fab_scoped_pointers page1) token0 64 (revision page1)).
Definition page3 : Fabric := then_ page2 (attach_private_heap page2 job0 owner0 (revision page2)).
Definition object0 : ObjectId := 0.
Definition no_row : PrivateHeapRow := mkHeapRow job0 owner0 0 0 0 (mkHeapExtents (mkExtent 0 0) (mkExtent 0 0)) 0 0 0.
Definition row_at (f : Fabric) : PrivateHeapRow := default no_row (h ← fab_private_heap f; heap_row h 0).
Definition page4 : Fabric := then_ page3 (initialize_private_heap_chunk page3 (row_at page3) owner0 4096 (revision page3)).
Definition publish (r : ScopedPointers) : fallible HeapError (ScopedPointers * ScopedPointer) :=
  plan ←! prepare_heap_initialization r job0 owner0 (hl_revision (sp_heap r));
  x ← commit_heap_publication r plan; ok x.
Definition page5 : Fabric := then_registry page4 (publish (fab_scoped_pointers page4)).
(** The client writes, and reads through queued work. *)
Definition pointer0 : ScopedPointer := mkPointer 0 1 8.
Definition page6 : Fabric := then_only page5 (write_heap_bytes page5 owner0 5 pointer0 [1; 2; 3]).
Definition page7 : Fabric := then_ page6 (register_heap_cpu_read page6 client (Some pointer0) 3 (revision page6)).
Definition ticket0 : HeapWorkTicket := mkTicket 1 1.
Definition page8 : Fabric := then_only page7 (execute_heap_cpu_work page7 ticket0).
Definition page9 : Fabric := then_ page8 (finish_heap_cpu_work page8 ticket0).
(** The client frees, and a worker cleans up. *)
Definition page10 : Fabric := then_ page9 (close_attached_heap page9 job0 owner0 object0).
Definition page11 : Fabric := then_ page10 (enroll_heap_cleanup_worker page10 janitor (revision page10)).
Definition worker0 : CleanupWorker := mkWorker 1 1.
Definition lease0 : CleanupLease := mkLease job0 worker0 1.
Definition page12 : Fabric := then_ page11 (claim_heap_cleanup_job page11 janitor worker0 job0 owner0 object0 (revision page11)).
Definition census0 : CurrentHeapRetirement := mkCurrentRetirement janitor object0.
Definition page13 : Fabric := then_only page12 (retire_heap_authority page12 census0 lease0 owner0).
Definition page14 : Fabric := then_ page13 (begin_heap_scrub page13 census0 lease0 owner0).
Definition snapshot_of (f : Fabric) : HeapCleanupSnapshot :=
  mkSnapshot (row_at f) (mkStatus lease0 (default (mkCleanup job0 false lease_empty 0 0 Pending) (cleanup_job (fab_scoped_pointers f) 0))).
Definition page15 : Fabric := then_ page14 (scrub_heap_chunk page14 census0 (snapshot_of page14) 4096).
Definition page16 : Fabric := then_only page15 (release_clean_heap page15 census0 (snapshot_of page15)).
(** The client reserves again. *)
Definition page17 : Fabric := then_registry page16 (reserve_heap (fab_scoped_pointers page16) token0 64 (revision page16)).
(** Or the supervisor revokes the lease. *)
Definition page13' : Fabric := then_only page12 (revoke_heap_cleanup_job page12 lease0 owner0 object0).

(** ** The run *)
Definition succeeded {A} (m : fallible HeapError A) : bool := match m with Done (Ok _) => true | _ => false end.
Lemma then_step {A} f (m : fallible HeapError (Fabric * A)) : (∀ g x, m = Done (Ok (g, x)) → heap_step f g) → succeeded m = true →
  heap_step f (then_ f m).
Proof. intros Hs E. destruct m as [[[g x]|]|]; try done. by eapply Hs. Qed.
Lemma then_only_step f (m : fallible HeapError Fabric) : (∀ g, m = Done (Ok g) → heap_step f g) → succeeded m = true →
  heap_step f (then_only f m).
Proof. intros Hs E. destruct m as [[g|]|]; try done. by eapply Hs. Qed.
Lemma then_registry_step {A} f (m : fallible HeapError (ScopedPointers * A)) :
  (∀ r x, m = Done (Ok (r, x)) → ledger_op (fab_scoped_pointers f) r) → succeeded m = true → heap_step f (then_registry f m).
Proof. intros Hs E. destruct m as [[[r x]|]|]; try done. by eapply hs_ledger, Hs. Qed.

Lemma then_ok {A} f (m : fallible HeapError (Fabric * A)) : succeeded m = true → ∃ x, m = Done (Ok (then_ f m, x)).
Proof. destruct m as [[[g x]|]|]; try done. by exists x. Qed.
Lemma then_only_ok f (m : fallible HeapError Fabric) : succeeded m = true → m = Done (Ok (then_only f m)).
Proof. by destruct m as [[]|]. Qed.

(** Every operation of the run succeeds: one evaluation for the whole of it. *)
Definition checks : list bool :=
  [succeeded (admit_owner (fab_scoped_pointers page0) owner0 8192);
   succeeded (reserve_heap (fab_scoped_pointers page1) token0 64 (revision page1));
   succeeded (attach_private_heap page2 job0 owner0 (revision page2));
   succeeded (initialize_private_heap_chunk page3 (row_at page3) owner0 4096 (revision page3));
   succeeded (publish (fab_scoped_pointers page4));
   succeeded (write_heap_bytes page5 owner0 5 pointer0 [1; 2; 3]);
   succeeded (register_heap_cpu_read page6 client (Some pointer0) 3 (revision page6));
   succeeded (execute_heap_cpu_work page7 ticket0);
   succeeded (finish_heap_cpu_work page8 ticket0);
   succeeded (close_attached_heap page9 job0 owner0 object0);
   succeeded (enroll_heap_cleanup_worker page10 janitor (revision page10));
   succeeded (claim_heap_cleanup_job page11 janitor worker0 job0 owner0 object0 (revision page11));
   succeeded (retire_heap_authority page12 census0 lease0 owner0);
   succeeded (begin_heap_scrub page13 census0 lease0 owner0);
   succeeded (scrub_heap_chunk page14 census0 (snapshot_of page14) 4096);
   succeeded (release_clean_heap page15 census0 (snapshot_of page15));
   succeeded (revoke_heap_cleanup_job page12 lease0 owner0 object0);
   succeeded (reserve_heap (fab_scoped_pointers page16) token0 64 (revision page16))].
Lemma checks_true : forallb id checks = true.
Proof. vm_compute. reflexivity. Qed.
Lemma checked i b : checks !! i = Some b → b = true.
Proof.
  intros Hi. assert (Hc := checks_true). rewrite forallb_forall in Hc.
  apply (Hc b), list_elem_of_In. by eapply list_elem_of_lookup_2.
Qed.

Lemma publish_op r r' p : publish r = Done (Ok (r', p)) → ledger_op r r'.
Proof. unfold publish. intros E. run_tries E. guards. by eapply lo_publish. Qed.

Lemma page0_empty : empty_heap page0 demo_heap.
Proof.
  split.
  - reflexivity.
  - done.
  - by intros [|[]].
  - intros [|i] s rec; [by intros [= <-]|done].
  - by intros [|[]].
  - by intros w [|[]] [= <-].
  - intros w [|i] sl [= <-]; [by intros [= <-]|by destruct i].
Qed.

Lemma reach_next f f' : heap_reach f → heap_step f f' → heap_reach f'.
Proof. intros (f0&h&He&Hs) Hst. exists f0, h. split; [exact He|]. by eapply rtc_r. Qed.
Lemma page1_step : heap_step page0 page1.
Proof. apply then_registry_step; [intros r x E; exact (lo_admit _ _ _ _ _ E)|exact (checked 0 _ eq_refl)]. Qed.
Lemma page2_step : heap_step page1 page2.
Proof. apply then_registry_step; [intros r x E; exact (lo_reserve _ _ _ _ _ _ E)|exact (checked 1 _ eq_refl)]. Qed.
Lemma page3_step : heap_step page2 page3.
Proof. apply then_step; [intros g x E; exact (hs_attach _ _ _ _ _ _ E)|exact (checked 2 _ eq_refl)]. Qed.
Lemma page4_step : heap_step page3 page4.
Proof. apply then_step; [intros g x E; refine (hs_initialize _ _ _ _ _ _ _ _ E); lia|exact (checked 3 _ eq_refl)]. Qed.
Lemma page5_step : heap_step page4 page5.
Proof. apply then_registry_step; [intros r x E; exact (publish_op _ _ _ E)|exact (checked 4 _ eq_refl)]. Qed.
Lemma page6_step : heap_step page5 page6.
Proof. apply then_only_step; [intros g E; refine (hs_write_bytes _ _ _ _ _ _ _ E); cbn; lia|exact (checked 5 _ eq_refl)]. Qed.
Lemma page7_step : heap_step page6 page7.
Proof. apply then_step; [intros g x E; refine (hs_register _ _ _ _ _ _ _ _ _ E); cbn; lia|exact (checked 6 _ eq_refl)]. Qed.
Lemma page8_step : heap_step page7 page8.
Proof. apply then_only_step; [intros g E; exact (hs_execute _ _ _ E)|exact (checked 7 _ eq_refl)]. Qed.
Lemma page9_step : heap_step page8 page9.
Proof. apply then_step; [intros g x E; exact (hs_finish _ _ _ _ E)|exact (checked 8 _ eq_refl)]. Qed.
Lemma page10_step : heap_step page9 page10.
Proof. apply then_step; [intros g x E; exact (hs_close _ _ _ _ _ _ E)|exact (checked 9 _ eq_refl)]. Qed.
Lemma page11_step : heap_step page10 page11.
Proof. apply then_step; [intros g x E; exact (hs_enroll _ _ _ _ _ E)|exact (checked 10 _ eq_refl)]. Qed.
Lemma page12_step : heap_step page11 page12.
Proof. apply then_step; [intros g x E; exact (hs_claim _ _ _ _ _ _ _ _ _ E)|exact (checked 11 _ eq_refl)]. Qed.
Lemma page13_step : heap_step page12 page13.
Proof. apply then_only_step; [intros g E; exact (hs_retire _ _ _ _ _ E)|exact (checked 12 _ eq_refl)]. Qed.
Lemma page14_step : heap_step page13 page14.
Proof. apply then_step; [intros g x E; exact (hs_begin _ _ _ _ _ _ E)|exact (checked 13 _ eq_refl)]. Qed.
Lemma page15_step : heap_step page14 page15.
Proof. apply then_step; [intros g x E; exact (hs_scrub _ _ _ _ _ _ E)|exact (checked 14 _ eq_refl)]. Qed.

Lemma page16_step : heap_step page15 page16.
Proof. apply then_only_step; [intros g E; exact (hs_release _ _ _ _ E)|exact (checked 15 _ eq_refl)]. Qed.
Lemma page17_step : heap_step page16 page17.
Proof. apply then_registry_step; [intros r x E; exact (lo_reserve _ _ _ _ _ _ E)|exact (checked 17 _ eq_refl)]. Qed.

(** The states the witnesses start from *)
Lemma page0_registry : reg_wf (fab_scoped_pointers page0).
Proof. exact (fresh_registry_wf 1 0 demo_ledger). Qed.
Lemma page7_steps : heap_steps page0 page7.
Proof.
  refine (rtc_l _ _ _ _ page1_step _). refine (rtc_l _ _ _ _ page2_step _). refine (rtc_l _ _ _ _ page3_step _).
  refine (rtc_l _ _ _ _ page4_step _). refine (rtc_l _ _ _ _ page5_step _). refine (rtc_l _ _ _ _ page6_step _).
  exact (rtc_once _ _ page7_step).
Qed.
Lemma page7_reach : heap_reach page7.
Proof. exists page0, demo_heap. split; [exact page0_empty|exact page7_steps]. Qed.
Lemma page9_steps : heap_steps page0 page9.
Proof. refine (rtc_r _ _ _ _ page9_step). exact (rtc_r _ _ _ page7_steps page8_step). Qed.
Lemma page17_steps : heap_steps page10 page17.
Proof.
  refine (rtc_l _ _ _ _ page11_step _). refine (rtc_l _ _ _ _ page12_step _). refine (rtc_l _ _ _ _ page13_step _).
  refine (rtc_l _ _ _ _ page14_step _). refine (rtc_l _ _ _ _ page15_step _). refine (rtc_l _ _ _ _ page16_step _).
  exact (rtc_once _ _ page17_step).
Qed.
Lemma page8_reach : heap_reach page8.
Proof. exact (reach_next _ _ page7_reach page8_step). Qed.
Lemma page12_steps : heap_steps page9 page12.
Proof.
  refine (rtc_l _ _ _ _ page10_step _). refine (rtc_l _ _ _ _ page11_step _). exact (rtc_once _ _ page12_step).
Qed.
Lemma page12_reach : heap_reach page12.
Proof.
  refine (reach_next _ _ _ page12_step). refine (reach_next _ _ _ page11_step). refine (reach_next _ _ _ page10_step).
  exact (reach_next _ _ page8_reach page9_step).
Qed.
Lemma page15_reach : heap_reach page15.
Proof.
  refine (reach_next _ _ _ page15_step). refine (reach_next _ _ _ page14_step). exact (reach_next _ _ page12_reach page13_step).
Qed.
