(* ===== verification/HeapSafety.v ===== *)
(** * Safety of the private heap

    A pointer to freed memory is never honoured again; memory that is released has
    been scrubbed; a revoked lease is never honoured again; a ticket of CPU work is
    honoured once, and its pins always hold. *)

From S2P Require Import Prelude State Extents ExtentsFacts Registry PointerFrames HeapWork HeapLedger HeapWorkers RegistrySafety RegistryOps.
From S2P Require Import HeapLives HeapMoves Fabric FabricCells FabricHeap FabricWork HeapCustody HeapOutside HeapScrub HeapSteps HeapTickets HeapDemo.

(** ** Use after free *)

(** What the commit of a closure does to the slot it finds *)
Lemma commit_closure_slot r plan s r' x : commit_attached_heap_closure r plan = Done (r', x) →
  sp_slots r !! hr_slot (hcp_reservation plan) = Some s →
  slot_generation s = hr_generation (hcp_reservation plan) ∧
  (sp_slots r' = sp_slots r ∧ (2 ≤ rank (slot_state s))%nat ∨
   sp_slots r' = <[hr_slot (hcp_reservation plan) := set_slot_state SClosing s]> (sp_slots r)).
Proof.
  unfold commit_attached_heap_closure, assert_. intros Hc Hs. rewrite (vec_get_lookup _ _ _ Hs) in Hc.
  run_binds Hc; guards.
  all: repeat match goal with E : (if ?b then _ else _) = Done _ |- _ => destruct b eqn:?; [|discriminate E] end; bools.
  all: split; [done|]; try (left; split; [done|]; match goal with E : slot_state _ = _ |- _ => rewrite E end; cbn; lia).
  all: match goal with E : set_slot _ _ _ = Done _, E' : queue_job _ _ = Done _ |- _ =>
    apply queue_job_ledger in E' as [hh ->]; unfold set_slot in E; run_binds E; guards end.
  all: match goal with E : vec_set _ _ _ = Done _ |- _ => apply vec_set_insert in E as [-> _] end; by right.
Qed.

(** Whatever stage the closure finds, the allocation is past its live stage. *)
Lemma closure_stale r h o plan r' x p : prepare_attached_heap_closure r h o = Done (Ok plan) →
  commit_attached_heap_closure r plan = Done (r', x) → ptr_slot p = hr_slot h → ptr_generation p = hr_generation h →
  stale r' p.
Proof.
  intros Hp Hc Hslot Hgen. apply closure_stage in Hp as (<-&s&record&Hs&_).
  destruct (commit_closure_slot _ _ _ _ _ Hc Hs) as [Hg Hcase]. intros s' Hs'. rewrite Hslot in Hs'.
  right. rewrite Hgen, <- Hg. destruct Hcase as [[E Hr]|E]; rewrite E in Hs'.
  - by simplify_eq.
  - rewrite list_lookup_insert_eq in Hs' by (by eapply lookup_lt_Some). injection Hs' as <-. cbn. split; [done|lia].
Qed.

Lemma close_attached_stale `{Profile} f lease owner object f' x p : close_attached_heap f lease owner object = Done (Ok (f', x)) →
  ptr_slot p = hr_slot lease → ptr_generation p = hr_generation lease → stale (fab_scoped_pointers f') p.
Proof.
  unfold close_attached_heap. intros E Hs Hg. run_tries E. guards.
  match goal with E : commit_attached_heap_closure _ _ = Done ?y |- _ => destruct y; by eapply closure_stale end.
Qed.

(** C18: No use after free.  From an empty heap with a well-formed registry, run any
    heap operations.  Once the closure of an attached allocation has succeeded,
    whatever stage it found it in, no pointer to its slot and generation passes the heap's
    pointer check again, for any owner and after any further operations, among them
    the retirement, scrubbing and release of the allocation and new reservations of
    its slot. *)
Theorem heap_use_after_free `{Profile} f0 h0 f lease owner object f1 x f2 p owner' :
  empty_heap f0 h0 → reg_wf (fab_scoped_pointers f0) → heap_steps f0 f →
  close_attached_heap f lease owner object = Done (Ok (f1, x)) → heap_steps f1 f2 →
  ptr_slot p = hr_slot lease → ptr_generation p = hr_generation lease →
  prepare_heap_pointer (fab_scoped_pointers f2) p owner' = Done (Err (HPointer Stale)).
Proof.
  intros _ Hw Hs Hc Hs2 Hslot Hgen.
  assert (heap_steps f0 f1) as Hs1 by (eapply rtc_r; [exact Hs|by eapply hs_close]).
  apply stale_heap, (stale_evolves (fab_scoped_pointers f1)); [|by apply heap_steps_evolve|by eapply close_attached_stale].
  by apply (heap_steps_evolve _ _ Hs1).
Qed.
(** The client's pointer worked until the page was freed; its slot serves the next
    generation. *)
Lemma heap_use_after_free_witness :
  (∃ plan, prepare_heap_pointer (fab_scoped_pointers page9) pointer0 owner0 = Done (Ok plan)) ∧
  slot_generation <$> sp_slots (fab_scoped_pointers page17) !! 0%nat = Some 2 ∧
  prepare_heap_pointer (fab_scoped_pointers page17) pointer0 owner0 = Done (Err (HPointer Stale)).
Proof.
  split; [eexists; vm_compute; reflexivity|]. split; [vm_compute; reflexivity|].
  assert (∃ x, close_attached_heap page9 job0 owner0 object0 = Done (Ok (page10, x))) as [x E].
  { exact (then_ok page9 _ (checked 9 _ eq_refl)). }
  exact (heap_use_after_free page0 demo_heap page9 job0 owner0 object0 page10 x page17 pointer0 owner0
    page0_empty page0_registry page9_steps E page17_steps eq_refl eq_refl).
Defined.

(** ** Release *)

(** C19: Released heap memory carries nothing over.  In every state the heap operations
    reach from an empty heap, if the release of a retired allocation succeeds, then
    each byte of its extent is zero, no cell of the extent holds a pointer, and its row
    is gone - whatever was written, stored or queued there in between. *)
Theorem release_is_scrubbed `{Profile} f current snapshot f' :
  heap_reach f → release_clean_heap f current snapshot = Done (Ok f') →
  let e := he_physical (row_extents (sn_row snapshot)) in
  (∀ a, ext_base e ≤ a < ext_base e + ext_size e → fab_memory f' !! Z.to_nat a = Some 0) ∧
  ∃ h, fab_private_heap f' = Some h ∧ heap_row h (hr_slot (row_reservation (sn_row snapshot))) = None ∧
    ∀ a, ext_base e ≤ a < ext_base e + ext_size e → a mod 16 = 0 → hf_shadow h !! cell_of h a = Some None.
Proof.
  intros Hr Hrel e. apply reach_custody in Hr. destruct (clean_release_spec f current snapshot f' Hrel Hr) as (_&h&Hh&Hrow&[Hb Hc]).
  split; [exact Hb|]. exists h. done.
Qed.
(** The page of the run, once full of old bytes, is released. *)
Lemma release_is_scrubbed_witness : (fab_memory page0 !! 5%nat = Some 255 ∧ fab_memory page6 !! 9%nat = Some 2) ∧
  fab_memory page16 !! 5%nat = Some 0 ∧ fab_memory page16 !! 9%nat = Some 0.
Proof.
  split; [split; vm_compute; reflexivity|].
  assert (release_clean_heap page15 census0 (snapshot_of page15) = Done (Ok page16)) as E by exact (then_only_ok page15 _ (checked 15 _ eq_refl)).
  destruct (release_is_scrubbed page15 census0 (snapshot_of page15) page16 page15_reach E) as [Hb _].
  split; [refine (Hb 5 _)|refine (Hb 9 _)]; vm_compute; split; congruence.
Defined.

(** ** Leases *)
Lemma lease_job r l id o plan : prepare_heap_worker_lease r l id o = Done (Ok plan) → ∃ c j, cleanup_job r c = Some j ∧
  cr_reservation j = cl_reservation l ∧ cr_lease j = Held (cl_epoch l) (cl_worker l).
Proof.
  intros (s&rec&j&Hp&Hl&_)%lease_planned. exists (hrec_cleanup rec), j. split; [apply Hp|]. split; [apply Hp|done].
Qed.
(** The job of the lease has moved past it. *)
Definition lease_past (r : ScopedPointers) (l : CleanupLease) : Prop :=
  ∃ c j, cleanup_job r c = Some j ∧ cr_reservation j = cl_reservation l ∧ 3 * cl_epoch l < lease_rank (cr_lease j).

Lemma lease_past_dead r r' l id o plan : heap_wf r → lease_past r l → advances anybody r r' →
  ¬ prepare_heap_worker_lease r' l id o = Done (Ok plan).
Proof.
  intros Hw (c&j&Hc&Hres&Hrank) Ha (c'&j'&Hc'&Hres'&Hheld)%lease_job. destruct (Ha Hw) as [_ [_ _ Hjobs]].
  destruct (Hjobs c' j' Hc') as [(j0&Hj0&Hr0&Hle)|Hnew].
  - destruct (hw_job r Hw c' j0 Hj0) as (s0&rec0&Hl0&<-). destruct (hw_job r Hw c j Hc) as (s&rec&Hl&<-).
    replace (hr_slot (cr_reservation j0)) with (hr_slot (cr_reservation j)) in Hl0 by congruence.
    destruct (life_fun _ _ _ _ _ _ _ _ Hl Hl0) as (_&_&->). rewrite Hheld in Hle. cbn in Hle. lia.
  - pose proof (hw_next r Hw c j Hc). rewrite Hres', <- Hres in Hnew. lia.
Qed.
Lemma revoke_past f l o obj f' : revoke_heap_cleanup_job f l o obj = Done (Ok f') → lease_past (fab_scoped_pointers f') l.
Proof.
  unfold revoke_heap_cleanup_job. intros E. run_tries E. guards.
  match goal with E : prepare_heap_worker_revoke _ _ _ = _ |- _ => apply transition_planned in E as (c&s&rec&j&v&Hp&_&_&Hj&->) end.
  pose proof (pn_life _ _ _ _ _ _ _ Hp) as Hl. pose proof (life_index _ _ _ _ _ Hl) as [_ ?].
  match goal with E : commit_heap_worker_recovery _ _ = _ |- _ => unfold commit_heap_worker_recovery in E; cbn in E;
    rewrite (vec_get_lookup _ _ _ (job_lookup _ _ _ _ _ Hl)) in E; run_binds E; guards end.
  match goal with E : unwrap (Some _) = Done _ |- _ => injection E as <- end.
  match goal with E : set_cleanup _ _ _ = _ |- _ => apply set_cleanup_spec in E as (A1&A2&A3) end.
  eexists (hrec_cleanup rec), _. split; [unfold cleanup_job; cbn; by rewrite A2, list_lookup_insert_eq|].
  split; [exact (pn_job _ _ _ _ _ _ _ Hp)|cbn; lia].
Qed.

(** Every operation under a lease authenticates it first. *)
Section uses.
Context `{Profile}.
Lemma authenticate_lease f c l o obj u : authenticate_heap_cleanup_job f c l o obj = Done (Ok u) →
  ∃ id plan, prepare_heap_worker_lease (fab_scoped_pointers f) l id o = Done (Ok plan).
Proof. unfold authenticate_heap_cleanup_job. intros E. run_tries E. eauto. Qed.
Lemma retire_lease f c l o f' : retire_heap_authority f c l o = Done (Ok f') →
  ∃ id plan, prepare_heap_worker_lease (fab_scoped_pointers f) l id o = Done (Ok plan).
Proof.
  unfold retire_heap_authority. intros E. run_tries E.
  match goal with E : prepare_heap_retirement _ _ _ _ = _ |- _ => unfold prepare_heap_retirement in E; run_tries E end. eauto.
Qed.
Lemma cleanup_lease r l id o e plan : prepare_retired_cleanup r l id o e = Done (Ok plan) →
  ∃ plan, prepare_heap_worker_lease r l id o = Done (Ok plan).
Proof. unfold prepare_retired_cleanup. intros E. run_tries E. eauto. Qed.
Lemma begin_lease f c l o x : begin_heap_scrub f c l o = Done (Ok x) →
  ∃ id plan, prepare_heap_worker_lease (fab_scoped_pointers f) l id o = Done (Ok plan).
Proof.
  unfold begin_heap_scrub. intros E. run_tries E.
  match goal with E : prepare_heap_scrub_begin _ _ _ _ = _ |- _ => unfold prepare_heap_scrub_begin in E; run_tries E end.
  eexists. by eapply cleanup_lease.
Qed.
Lemma scrub_lease f c s n x : scrub_heap_chunk f c s n = Done (Ok x) →
  ∃ id plan, prepare_heap_worker_lease (fab_scoped_pointers f) (cs_lease (sn_status s)) id (row_owner (sn_row s)) = Done (Ok plan).
Proof.
  unfold scrub_heap_chunk. intros E. run_tries E.
  match goal with E : prepare_heap_scrub_chunk _ _ _ _ _ = _ |- _ => unfold prepare_heap_scrub_chunk in E; run_tries E end.
  all: eexists; by eapply cleanup_lease.
Qed.
Lemma release_lease f c s f' : release_clean_heap f c s = Done (Ok f') →
  ∃ id plan, prepare_heap_worker_lease (fab_scoped_pointers f) (cs_lease (sn_status s)) id (row_owner (sn_row s)) = Done (Ok plan).
Proof.
  unfold release_clean_heap. intros E. run_tries E.
  match goal with E : prepare_heap_release _ _ _ _ = _ |- _ => unfold prepare_heap_release in E; run_tries E end.
  eexists. by eapply cleanup_lease.
Qed.
End uses.

(** C20: A revoked lease is dead.  Once the lease of a cleanup job has been revoked, no
    later sequence of operations - recovery of the job, a new claim by the same worker,
    release and reuse of its slot - makes the fabric accept that lease again: it does
    not authenticate, retire, begin, scrub or release anything. *)
Theorem revoked_lease_dead `{Profile} f l owner object f1 f2 current o :
  heap_reach f → revoke_heap_cleanup_job f l owner object = Done (Ok f1) → heap_steps f1 f2 →
  (∀ obj u, authenticate_heap_cleanup_job f2 (crt_worker current) l o obj ≠ Done (Ok u)) ∧
  (∀ f', retire_heap_authority f2 current l o ≠ Done (Ok f')) ∧
  (∀ x, begin_heap_scrub f2 current l o ≠ Done (Ok x)) ∧
  (∀ s n x, cs_lease (sn_status s) = l → scrub_heap_chunk f2 current s n ≠ Done (Ok x)) ∧
  (∀ s f', cs_lease (sn_status s) = l → release_clean_heap f2 current s ≠ Done (Ok f')).
Proof.
  intros Hr Hrev Hs. assert (in_custody f1) as [h1 Hc1].
  { eapply step_custody; [by eapply hs_revoke|by apply reach_custody]. }
  assert (∀ id o plan, ¬ prepare_heap_worker_lease (fab_scoped_pointers f2) l id o = Done (Ok plan)) as Hdead.
  { intros. eapply lease_past_dead; [apply Hc1|by eapply revoke_past|by apply steps_forward]. }
  split_and!; intros *.
  - intros (?&?&?)%authenticate_lease. by eapply Hdead.
  - intros (?&?&?)%retire_lease. by eapply Hdead.
  - intros (?&?&?)%begin_lease. by eapply Hdead.
  - intros <- (?&?&?)%scrub_lease. by eapply Hdead.
  - intros <- (?&?&?)%release_lease. by eapply Hdead.
Qed.
(** The lease worked before it was revoked. *)
Lemma revoked_lease_dead_witness : succeeded (retire_heap_authority page12 census0 lease0 owner0) = true ∧
  ∀ f', retire_heap_authority page13' census0 lease0 owner0 ≠ Done (Ok f').
Proof.
  split; [exact (checked 12 _ eq_refl)|].
  assert (revoke_heap_cleanup_job page12 lease0 owner0 object0 = Done (Ok page13')) as E by exact (then_only_ok page12 _ (checked 16 _ eq_refl)).
  exact (proj1 (proj2 (revoked_lease_dead page12 lease0 owner0 object0 page13' page13' census0 owner0 page12_reach E (rtc_refl _ _)))).
Defined.

(** ** Tickets *)

(** The pins of queued work always hold.  In every state the heap operations reach,
    the check of both directions - every ticket to its request, every request back to
    its ticket - passes: a request is never orphaned by an admission, an execution, a
    cancellation or a consumption, and no operation is refused for a broken pin. *)
Theorem work_pins_hold `{Profile} f w : heap_reach f → heap_work f = Some w → check_pins w = Ok tt.
Proof. intros Hr Hw. by eapply pins_ok, reach_work_wf. Qed.
Lemma work_pins_hold_witness : ∃ w, heap_work page7 = Some w ∧ check_pins w = Ok tt.
Proof.
  assert (is_Some (heap_work page7)) as [w Hw] by (eexists; vm_compute; reflexivity).
  exists w. split; [exact Hw|exact (work_pins_hold page7 w page7_reach Hw)].
Defined.

(** C21: A ticket is honoured once.  After the completion of queued work has been
    consumed, no later sequence of heap operations, with whatever tickets it issues in
    the same rows, makes the fabric accept that ticket again: it cannot be executed,
    cancelled or consumed a second time. *)
Theorem ticket_honoured_once `{Profile} f ticket f1 result f2 :
  heap_reach f → finish_heap_cpu_work f ticket = Done (Ok (f1, result)) → heap_steps f1 f2 →
  (∀ f', execute_heap_cpu_work f2 ticket ≠ Done (Ok f')) ∧
  (∀ f', cancel_heap_cpu_work f2 ticket ≠ Done (Ok f')) ∧
  (∀ x, finish_heap_cpu_work f2 ticket ≠ Done (Ok x)).
Proof.
  intros Hr Hf Hs. pose proof (reach_custody f Hr) as Hc.
  destruct (finish_work_spec f ticket f1 result Hf Hc) as (w&rec&k&Hw&Hrec&<-&Hrow&w1&Hw1&Hwf1). pose proof (reach_work_wf f w Hr Hw) as Hwf.
  destruct (Hwf1 Hwf) as (Hwf'&Hle&Hnone). assert (in_custody f1) as Hc1 by (eapply step_custody; [by eapply hs_finish|done]).
  destruct (steps_tickets f1 f2 Hs Hc1) as [_ Ht]. destruct (Ht w1 Hw1 Hwf') as (w2&Hw2&_&Hle2).
  pose proof (steps_custody f1 f2 Hs Hc1) as [h2 Hc2].
  assert (∀ x, checked_work_record f2 (wk_ticket rec) ≠ Done (Ok x)) as Hdead.
  { intros [v r] Hv. destruct (checked_work_spec _ _ _ _ _ Hc2 Hv) as (Hv2&Hr2&_).
    unfold heap_work in Hw2. rewrite (cu_heap _ _ Hc2) in Hw2. cbn in Hw2. rewrite Hv2 in Hw2. injection Hw2 as ->.
    destruct (checked_record_at _ _ _ Hr2) as (k2&Hk2&Htk&Hrow2&_). rewrite Hrow in Hrow2. injection Hrow2 as <-.
    destruct (wl_record _ _ Hle2 k r Hk2) as [(r0&Hr0&_)|Hnew]; [congruence|].
    pose proof (wl_next _ _ Hle). destruct (ww_record w Hwf k rec Hrec) as (_&?&_). rewrite Htk in Hnew. lia. }
  split_and!; intros x E; apply try_call_Ok in E as (y&Hy&_); by eapply Hdead.
Qed.
(** The bytes that the client wrote come back, once. *)
Lemma ticket_honoured_once_witness : succeeded (finish_heap_cpu_work page8 ticket0) = true ∧
  ∀ x, finish_heap_cpu_work page12 ticket0 ≠ Done (Ok x).
Proof.
  split; [exact (checked 8 _ eq_refl)|].
  assert (∃ x, finish_heap_cpu_work page8 ticket0 = Done (Ok (page9, x))) as [x E].
  { exact (then_ok page8 _ (checked 8 _ eq_refl)). }
  exact (proj2 (proj2 (ticket_honoured_once page8 ticket0 page9 x page12 page8_reach E page12_steps))).
Defined.
