(* ===== verification/Block.v ===== *)
(** * The block device: [src/anka64/block.rs]

    Backing storage and the two-slot controller: submission with a narrow DMA
    delegation, the three phases of a tick against the fabric, and the consumption
    of completions.  The source's arrays of two slots and generations are lists of
    length two; a [VecDeque] is a list with its front first. *)

From S2P Require Import Prelude State Extents Registry PointerFrames Fabric.

(** ** Storage *)
Record BlockStorage := mkStorage { bs_data : list Z; bs_block_size : Z; bs_num_blocks : Z }.

Section storage.
Context `{Profile}.

Definition storage_new (num_blocks block_size : Z) : outcome BlockStorage :=
  n ← mul_u64 num_blocks block_size;
  Done (mkStorage (replicate (Z.to_nat n) 0) block_size num_blocks).

Definition read_block (s : BlockStorage) (block_number : Z) : outcome (option (list Z)) :=
  if bs_num_blocks s <=? block_number then Done None
  else
    offset ← mul_u64 block_number (bs_block_size s);
    end_ ← add_u64 offset (bs_block_size s);
    data ← vec_slice offset end_ (bs_data s);
    Done (Some data).

Definition write_block (s : BlockStorage) (block_number : Z) (data : list Z) :
    outcome (BlockStorage * bool) :=
  if (bs_num_blocks s <=? block_number) || negb (zlen data =? bs_block_size s) then Done (s, false)
  else
    offset ← mul_u64 block_number (bs_block_size s);
    end_ ← add_u64 offset (zlen data);
    _ ← vec_slice offset end_ (bs_data s);
    Done (mkStorage (splice offset data (bs_data s)) (bs_block_size s) (bs_num_blocks s), true).
End storage.

(** ** Requests *)
Record BlockRequest := mkBlockRequest {
  br_block_number : Z;
  br_requester : RequesterKey;
  br_target_object : ObjectId;
  br_target_offset : Z;
  br_source_domain : DomainId;
  br_source_authority_id : option AuthorityId;
  br_delegation_id : option DelegationId;
}.

Record BlockCompletion := mkBlockCompletion {
  bcp_handle : RequestHandle;
  bcp_requester : RequesterKey;
  bcp_block_number : Z;
  bcp_status : DeviceCompletionStatus;
  bcp_delegation_id : option DelegationId;
}.

Inductive SubmitResult := Accepted (h : RequestHandle) | DeviceBusy | InvalidBlock | DelegationFailed.

(** ** Slots *)
Inductive BlockSlot :=
| BFree
| BWaiting (request : BlockRequest) (remaining_ticks : Z) (dma_domain : DomainId)
| BDmaReady (request : BlockRequest) (dma_domain : DomainId)
| BDmaInFlight (request : BlockRequest) (dma_domain : DomainId) (tx_idx : nat)
| BCompleted (completion : BlockCompletion).

Definition b_is_free (s : BlockSlot) : bool := match s with BFree => true | _ => false end.
Definition b_is_completed (s : BlockSlot) : bool := match s with BCompleted _ => true | _ => false end.
Definition b_is_waiting (s : BlockSlot) : bool := match s with BWaiting _ _ _ => true | _ => false end.
Definition b_is_odma (s : BlockSlot) : bool :=
  match s with BDmaReady _ _ | BDmaInFlight _ _ _ => true | _ => false end.

(** The request of a nonterminal slot *)
Definition b_request (s : BlockSlot) : option BlockRequest :=
  match s with
  | BWaiting r _ _ | BDmaReady r _ | BDmaInFlight r _ _ => Some r
  | BFree | BCompleted _ => None
  end.

Definition NUM_SLOTS : nat := 2.

Record BlockController := mkBlock {
  bc_slots : list BlockSlot;
  bc_slot_generations : list Z;
  bc_completion_order : list nat;
  bc_storage : BlockStorage;
  bc_latency : Z;
  bc_storage_agent : AgentId;
  bc_event_sequence : Z;
}.

Definition set_bc_slot (i : nat) (s : BlockSlot) (c : BlockController) : BlockController :=
  mkBlock (<[i := s]> (bc_slots c)) (bc_slot_generations c) (bc_completion_order c) (bc_storage c)
    (bc_latency c) (bc_storage_agent c) (bc_event_sequence c).
Definition set_bc_order (o : list nat) (c : BlockController) : BlockController :=
  mkBlock (bc_slots c) (bc_slot_generations c) o (bc_storage c) (bc_latency c) (bc_storage_agent c)
    (bc_event_sequence c).
Definition set_bc_generations (g : list Z) (c : BlockController) : BlockController :=
  mkBlock (bc_slots c) g (bc_completion_order c) (bc_storage c) (bc_latency c) (bc_storage_agent c)
    (bc_event_sequence c).
Definition set_bc_event_sequence (n : Z) (c : BlockController) : BlockController :=
  mkBlock (bc_slots c) (bc_slot_generations c) (bc_completion_order c) (bc_storage c) (bc_latency c)
    (bc_storage_agent c) n.

Definition block_new (storage : BlockStorage) (latency : Z) (agent : AgentId) : BlockController :=
  mkBlock (replicate NUM_SLOTS BFree) (replicate NUM_SLOTS 0) [] storage latency agent 0.

(** ** Observers *)
Definition count {A} (p : A → bool) (l : list A) : nat := length (List.filter p l).

Definition block_completion_count (c : BlockController) : nat := count b_is_completed (bc_slots c).
Definition block_free_slot_count (c : BlockController) : nat := count b_is_free (bc_slots c).
Definition block_requires_attention (c : BlockController) : bool :=
  (0 <? block_completion_count c)%nat.
Definition block_has_autonomous_work (c : BlockController) : bool :=
  existsb (λ s, b_is_waiting s || b_is_odma s) (bc_slots c).

Definition same_pair (client driver : ProcessKey) (d : option DelegationId) : bool :=
  is_some_and (λ d, bool_decide (del_client d = client) && bool_decide (del_driver d = driver)) d.

Definition block_pair_request_count (c : BlockController) (client driver : ProcessKey) : nat :=
  count (λ s, is_some_and (λ r, same_pair client driver (br_delegation_id r)) (b_request s)) (bc_slots c).
Definition block_has_pair_request (c : BlockController) (client driver : ProcessKey) : bool :=
  negb (block_pair_request_count c client driver =? 0)%nat.
Definition block_in_flight_requests (c : BlockController) : list BlockRequest :=
  omap b_request (bc_slots c).

(** ** Operations *)
Section controller.
Context `{Profile}.

(** The queue part of [assert_conservation]: every entry a distinct completed slot. *)
Fixpoint check_order (slots : list BlockSlot) (seen : list bool) (order : list nat) : outcome unit :=
  match order with
  | [] => Done tt
  | i :: order =>
      _ ← (if debug_build then
             s ← vec_get i slots; _ ← assert_ (b_is_completed s);
             b ← vec_get i seen; assert_ (negb b)
           else Done tt);
      seen ← vec_set i true seen;
      check_order slots seen order
  end.

Definition block_assert_conservation (c : BlockController) : outcome unit :=
  let f := count b_is_free (bc_slots c) in
  let ow := count b_is_waiting (bc_slots c) in
  let od := count b_is_odma (bc_slots c) in
  let n := count b_is_completed (bc_slots c) in
  _ ← debug_assert (f + ow + od + n =? NUM_SLOTS)%nat;
  _ ← debug_assert (length (bc_completion_order c) =? n)%nat;
  check_order (bc_slots c) (replicate NUM_SLOTS false) (bc_completion_order c).

Definition block_submit (c : BlockController) (request : BlockRequest) (f : Fabric) :
    outcome (BlockController * Fabric * SubmitResult) :=
  if negb (is_some (br_source_authority_id request)) && is_some (br_delegation_id request)
  then Done (c, f, DelegationFailed)
  else if bs_num_blocks (bc_storage c) <=? br_block_number request then Done (c, f, InvalidBlock)
  else match position b_is_free (bc_slots c) with
       | None => Done (c, f, DeviceBusy)
       | Some idx =>
           let block_size := bs_block_size (bc_storage c) in
           x ← match br_source_authority_id request with
               | Some aid => delegate_dma_span_from_authority_id f (br_source_domain request) aid
                   (br_target_object request) (br_target_offset request) block_size Perm.WRITE
               | None => delegate_dma_span f (br_source_domain request)
                   (br_target_object request) (br_target_offset request) block_size Perm.WRITE
               end;
           match x with
           | (f, None) => Done (c, f, DelegationFailed)
           | (f, Some dma_domain) =>
               g ← vec_get idx (bc_slot_generations c);
               let handle := mkHandle (Z.of_nat idx) g in
               let remaining := Z.max (bc_latency c) 1 in
               let c := set_bc_slot idx (BWaiting request remaining dma_domain) c in
               _ ← block_assert_conservation c;
               Done (c, f, Accepted handle)
           end
       end.

(** The three phases of a tick, each on one slot. *)
Definition tick_waiting (i : nat) (c : BlockController) : outcome BlockController :=
  s ← vec_get i (bc_slots c);
  match s with
  | BWaiting r n d =>
      n ← sub_u32 n 1;
      Done (set_bc_slot i (if n =? 0 then BDmaReady r d else BWaiting r n d) c)
  | _ => Done c
  end.

Definition tick_start (i : nat) (x : BlockController * Fabric) : outcome (BlockController * Fabric) :=
  let '(c, f) := x in
  s ← vec_get i (bc_slots c);
  match s with
  | BDmaReady r d =>
      b ← read_block (bc_storage c) (br_block_number r);
      data ← unwrap b;
      y ← submit f (dma_request (bc_storage_agent c) d (br_target_object r) (br_target_offset r)
                      (bs_block_size (bc_storage c)) Write) (Some data);
      Done (set_bc_slot i (BDmaInFlight r d y.2) c, y.1)
  | _ => Done (c, f)
  end.

(** The status of a terminal transaction; [unreachable!] otherwise *)
Definition terminal_status (tx : Transaction) : outcome DeviceCompletionStatus :=
  match tx_state tx with
  | Committed => Done Success
  | Faulted => Done (DmaFault (default TranslationFault (fault_reason <$> tx_fault tx)))
  | _ => Panic
  end.

(** [fabric.advance(idx)] unless the transaction is terminal *)
Definition advance_if_live (f : Fabric) (idx : nat) : outcome Fabric :=
  tx ← vec_get idx (fab_transactions f);
  if is_terminal (tx_state tx) then Done f else advance f idx.

Definition tick_flight (i : nat) (x : BlockController * Fabric) : outcome (BlockController * Fabric) :=
  let '(c, f) := x in
  s ← vec_get i (bc_slots c);
  match s with
  | BDmaInFlight r d idx =>
      f ← advance_if_live f idx;
      tx ← vec_get idx (fab_transactions f);
      if is_terminal (tx_state tx) then
        status ← terminal_status tx;
        let f := destroy_domain f d in
        g ← vec_get i (bc_slot_generations c);
        let completion := mkBlockCompletion (mkHandle (Z.of_nat i) g) (br_requester r)
                            (br_block_number r) status (br_delegation_id r) in
        let c := set_bc_slot i (BCompleted completion) c in
        let c := set_bc_order (bc_completion_order c ++ [i]) c in
        n ← unwrap (checked_add (bc_event_sequence c) 1);
        Done (set_bc_event_sequence n c, f)
      else Done (c, f)
  | _ => Done (c, f)
  end.

Definition block_tick (c : BlockController) (f : Fabric) : outcome (BlockController * Fabric) :=
  c ← tick_waiting 0 c;
  c ← tick_waiting 1 c;
  x ← tick_start 0 (c, f);
  x ← tick_start 1 x;
  x ← tick_flight 0 x;
  x ← tick_flight 1 x;
  _ ← block_assert_conservation x.1;
  Done x.

Definition block_consume_completion (c : BlockController) :
    outcome (BlockController * option BlockCompletion) :=
  match bc_completion_order c with
  | [] => Done (c, None)
  | i :: rest =>
      let c := set_bc_order rest c in
      s ← vec_get i (bc_slots c);
      match s with
      | BCompleted completion =>
          let c := set_bc_slot i BFree c in
          g ← vec_get i (bc_slot_generations c);
          g ← add_u64 g 1;
          let c := set_bc_generations (<[i := g]> (bc_slot_generations c)) c in
          _ ← block_assert_conservation c;
          Done (c, Some completion)
      | _ => Done (c, None)
      end
  end.
End controller.
