(* ===== verification/Nic.v ===== *)
(** * The network device: [src/anka64/nic.rs]

    The bounded private receive queue, the transmit sink and the two finite DMA
    slots.  The layout conventions are those of [Block]. *)

From S2P Require Import Prelude State Extents Registry PointerFrames Fabric Block.

Definition NIC_MAX_FRAME_SIZE : Z := 1514.
Definition NIC_RX_QUEUE_CAPACITY : nat := 16.

Inductive NicOperation := OpRx | OpTx.
#[export] Instance NicOperation_eq_dec : EqDecision NicOperation.
Proof. solve_decision. Defined.

Record NicRxRequest := mkRxRequest {
  rxr_requester : RequesterKey;
  rxr_target_object : ObjectId;
  rxr_target_offset : Z;
  rxr_source_domain : DomainId;
  rxr_source_authority_id : AuthorityId;
  rxr_delegation_id : option DelegationId;
}.

Record NicTxRequest := mkTxRequest {
  txr_requester : RequesterKey;
  txr_source_object : ObjectId;
  txr_source_offset : Z;
  txr_source_domain : DomainId;
  txr_source_authority_id : AuthorityId;
  txr_frame_len : Z;
  txr_delegation_id : option DelegationId;
}.

Record NicCompletion := mkNicCompletion {
  ncp_handle : RequestHandle;
  ncp_requester : RequesterKey;
  ncp_operation : NicOperation;
  ncp_status : DeviceCompletionStatus;
  ncp_transferred_len : Z;
  ncp_delegation_id : option DelegationId;
}.

Inductive NicRxSubmitResult := RxAccepted (h : RequestHandle) | RxNoPacket | RxDeviceBusy | RxDelegationFailed.
Inductive NicTxSubmitResult := TxAccepted (h : RequestHandle) | TxDeviceBusy | TxDelegationFailed.

Inductive NicSlot :=
| NFree
| NRxDmaReady (request : NicRxRequest) (frame : list Z) (dma_domain : DomainId)
| NTxDmaReady (request : NicTxRequest) (dma_domain : DomainId)
| NDmaInFlight (requester : RequesterKey) (operation : NicOperation) (frame_len : Z)
    (delegation_id : option DelegationId) (dma_domain : DomainId) (tx_idx : nat)
| NCompleted (completion : NicCompletion).

Definition n_is_free (s : NicSlot) : bool := match s with NFree => true | _ => false end.
Definition n_is_completed (s : NicSlot) : bool := match s with NCompleted _ => true | _ => false end.
Definition n_is_nonterminal (s : NicSlot) : bool :=
  match s with NRxDmaReady _ _ _ | NTxDmaReady _ _ | NDmaInFlight _ _ _ _ _ _ => true | _ => false end.
Definition n_delegation_id (s : NicSlot) : option DelegationId :=
  match s with
  | NRxDmaReady r _ _ => rxr_delegation_id r
  | NTxDmaReady r _ => txr_delegation_id r
  | NDmaInFlight _ _ _ d _ _ => d
  | NFree | NCompleted _ => None
  end.

Record NicController := mkNic {
  nc_rx_queue : list (list Z);
  nc_tx_sink : list (list Z);
  nc_event_sequence : Z;
  nc_attention_pending : bool;
  nc_slots : list NicSlot;
  nc_slot_generations : list Z;
  nc_completion_order : list nat;
  nc_dma_agent : AgentId;
}.

Definition set_nc_rx (q : list (list Z)) (c : NicController) : NicController :=
  mkNic q (nc_tx_sink c) (nc_event_sequence c) (nc_attention_pending c) (nc_slots c)
    (nc_slot_generations c) (nc_completion_order c) (nc_dma_agent c).
Definition set_nc_tx (q : list (list Z)) (c : NicController) : NicController :=
  mkNic (nc_rx_queue c) q (nc_event_sequence c) (nc_attention_pending c) (nc_slots c)
    (nc_slot_generations c) (nc_completion_order c) (nc_dma_agent c).
Definition set_nc_slot (i : nat) (s : NicSlot) (c : NicController) : NicController :=
  mkNic (nc_rx_queue c) (nc_tx_sink c) (nc_event_sequence c) (nc_attention_pending c)
    (<[i := s]> (nc_slots c)) (nc_slot_generations c) (nc_completion_order c) (nc_dma_agent c).
Definition set_nc_order (o : list nat) (c : NicController) : NicController :=
  mkNic (nc_rx_queue c) (nc_tx_sink c) (nc_event_sequence c) (nc_attention_pending c) (nc_slots c)
    (nc_slot_generations c) o (nc_dma_agent c).
Definition set_nc_generations (g : list Z) (c : NicController) : NicController :=
  mkNic (nc_rx_queue c) (nc_tx_sink c) (nc_event_sequence c) (nc_attention_pending c) (nc_slots c)
    g (nc_completion_order c) (nc_dma_agent c).

Definition nic_new (agent : AgentId) : NicController :=
  mkNic [] [] 0 false (replicate NUM_SLOTS NFree) (replicate NUM_SLOTS 0) [] agent.

(** ** Observers and queues *)
Definition nic_completion_count (c : NicController) : nat := count n_is_completed (nc_slots c).
Definition nic_free_slot_count (c : NicController) : nat := count n_is_free (nc_slots c).
Definition nic_requires_attention (c : NicController) : bool :=
  nc_attention_pending c || negb (nic_completion_count c =? 0)%nat.
Definition nic_has_autonomous_work (c : NicController) : bool := existsb n_is_nonterminal (nc_slots c).
Definition nic_pair_request_count (c : NicController) (client peer : ProcessKey) : nat :=
  count (λ s, n_is_nonterminal s && same_pair client peer (n_delegation_id s)) (nc_slots c).
Definition nic_acknowledge_attention (c : NicController) : NicController :=
  mkNic (nc_rx_queue c) (nc_tx_sink c) (nc_event_sequence c) false (nc_slots c)
    (nc_slot_generations c) (nc_completion_order c) (nc_dma_agent c).
Definition take_tx (c : NicController) : NicController * option (list Z) :=
  match nc_tx_sink c with
  | [] => (c, None)
  | frame :: rest => (set_nc_tx rest c, Some frame)
  end.

(** [inject_rx]: every refusal leaves the controller alone. *)
Definition inject_rx (c : NicController) (frame : list Z) : NicController * bool :=
  if NIC_MAX_FRAME_SIZE <? zlen frame then (c, false)
  else if (NIC_RX_QUEUE_CAPACITY <=? length (nc_rx_queue c))%nat then (c, false)
  else match checked_add (nc_event_sequence c) 1 with
       | None => (c, false)
       | Some epoch =>
           (mkNic (nc_rx_queue c ++ [frame]) (nc_tx_sink c) epoch true (nc_slots c)
              (nc_slot_generations c) (nc_completion_order c) (nc_dma_agent c), true)
       end.

(** ** Operations *)
Section controller.
Context `{Profile}.

Fixpoint nic_check_order (slots : list NicSlot) (seen : list bool) (order : list nat) : outcome unit :=
  match order with
  | [] => Done tt
  | i :: order =>
      _ ← (if debug_build then
             _ ← assert_ (i <? NUM_SLOTS)%nat;
             s ← vec_get i slots; _ ← assert_ (n_is_completed s);
             b ← vec_get i seen; assert_ (negb b)
           else Done tt);
      seen ← vec_set i true seen;
      nic_check_order slots seen order
  end.

Definition nic_assert_conservation (c : NicController) : outcome unit :=
  let free := count n_is_free (nc_slots c) in
  let active := count n_is_nonterminal (nc_slots c) in
  let completed := count n_is_completed (nc_slots c) in
  _ ← debug_assert (free + active + completed =? NUM_SLOTS)%nat;
  _ ← debug_assert (length (nc_completion_order c) =? completed)%nat;
  nic_check_order (nc_slots c) (replicate NUM_SLOTS false) (nc_completion_order c).

(** Put a completion in slot [i] and at the end of the order. *)
Definition nic_complete (i : nat) (completion : NicCompletion) (c : NicController) : NicController :=
  let c := set_nc_slot i (NCompleted completion) c in
  set_nc_order (nc_completion_order c ++ [i]) c.

Definition submit_rx (c : NicController) (request : NicRxRequest) (f : Fabric) :
    outcome (NicController * Fabric * NicRxSubmitResult) :=
  match position n_is_free (nc_slots c) with
  | None => Done (c, f, RxDeviceBusy)
  | Some idx =>
      match nc_rx_queue c with
      | [] => Done (c, f, RxNoPacket)
      | frame :: rest =>
          let frame_len := zlen frame in
          g ← vec_get idx (nc_slot_generations c);
          let handle := mkHandle (Z.of_nat idx) g in
          if frame_len =? 0 then
            let c := nic_complete idx (mkNicCompletion handle (rxr_requester request) OpRx Success 0
                                         (rxr_delegation_id request)) (set_nc_rx rest c) in
            _ ← nic_assert_conservation c;
            Done (c, f, RxAccepted handle)
          else
            x ← delegate_dma_span_from_authority_id f (rxr_source_domain request)
                  (rxr_source_authority_id request) (rxr_target_object request)
                  (rxr_target_offset request) frame_len Perm.WRITE;
            match x with
            | (f, None) => Done (c, f, RxDelegationFailed)
            | (f, Some domain) =>
                let c := set_nc_slot idx (NRxDmaReady request frame domain) (set_nc_rx rest c) in
                _ ← nic_assert_conservation c;
                Done (c, f, RxAccepted handle)
            end
      end
  end.

Definition submit_tx (c : NicController) (request : NicTxRequest) (f : Fabric) :
    outcome (NicController * Fabric * NicTxSubmitResult) :=
  match position n_is_free (nc_slots c) with
  | None => Done (c, f, TxDeviceBusy)
  | Some idx =>
      x ← delegate_dma_span_from_authority_id f (txr_source_domain request)
            (txr_source_authority_id request) (txr_source_object request)
            (txr_source_offset request) (txr_frame_len request) Perm.READ;
      match x with
      | (f, None) => Done (c, f, TxDelegationFailed)
      | (f, Some domain) =>
          g ← vec_get idx (nc_slot_generations c);
          let c := set_nc_slot idx (NTxDmaReady request domain) c in
          _ ← nic_assert_conservation c;
          Done (c, f, TxAccepted (mkHandle (Z.of_nat idx) g))
      end
  end.

Definition nic_tick_start (i : nat) (x : NicController * Fabric) : outcome (NicController * Fabric) :=
  let '(c, f) := x in
  s ← vec_get i (nc_slots c);
  match s with
  | NRxDmaReady r frame d =>
      let frame_len := zlen frame in
      y ← submit f (dma_request (nc_dma_agent c) d (rxr_target_object r) (rxr_target_offset r)
                      frame_len Write) (Some frame);
      Done (set_nc_slot i (NDmaInFlight (rxr_requester r) OpRx frame_len (rxr_delegation_id r) d y.2) c, y.1)
  | NTxDmaReady r d =>
      y ← submit f (dma_request (nc_dma_agent c) d (txr_source_object r) (txr_source_offset r)
                      (txr_frame_len r) Read) None;
      Done (set_nc_slot i (NDmaInFlight (txr_requester r) OpTx (txr_frame_len r) (txr_delegation_id r) d y.2) c, y.1)
  | _ => Done (c, f)
  end.

(** What a terminal transaction yields: the status, the length, and for a
    committed transmission the frame for the sink. *)
Definition nic_outcome (tx : Transaction) (op : NicOperation) (frame_len : Z) :
    outcome (DeviceCompletionStatus * Z * option (list Z)) :=
  status ← terminal_status tx;
  match status with
  | Success =>
      if bool_decide (op = OpTx) then
        bytes ← unwrap (tx_read_data tx);
        _ ← debug_assert (zlen bytes =? frame_len);
        Done (Success, frame_len, Some bytes)
      else Done (Success, frame_len, None)
  | DmaFault _ => Done (status, 0, None)
  end.

Definition nic_tick_flight (i : nat) (x : NicController * Fabric) : outcome (NicController * Fabric) :=
  let '(c, f) := x in
  s ← vec_get i (nc_slots c);
  match s with
  | NDmaInFlight requester op frame_len delegation d idx =>
      f ← advance_if_live f idx;
      tx ← vec_get idx (fab_transactions f);
      if is_terminal (tx_state tx) then
        o ← nic_outcome tx op frame_len;
        let '(status, len, sent) := o in
        let c := match sent with Some b => set_nc_tx (nc_tx_sink c ++ [b]) c | None => c end in
        let f := destroy_domain f d in
        g ← vec_get i (nc_slot_generations c);
        Done (nic_complete i (mkNicCompletion (mkHandle (Z.of_nat i) g) requester op status len delegation) c, f)
      else Done (c, f)
  | _ => Done (c, f)
  end.

Definition nic_tick (c : NicController) (f : Fabric) : outcome (NicController * Fabric) :=
  x ← nic_tick_start 0 (c, f);
  x ← nic_tick_start 1 x;
  x ← nic_tick_flight 0 x;
  x ← nic_tick_flight 1 x;
  _ ← nic_assert_conservation x.1;
  Done x.

Definition nic_consume_completion (c : NicController) : outcome (NicController * option NicCompletion) :=
  match nc_completion_order c with
  | [] => Done (c, None)
  | i :: rest =>
      let c := set_nc_order rest c in
      s ← vec_get i (nc_slots c);
      match s with
      | NCompleted completion =>
          let c := set_nc_slot i NFree c in
          g ← vec_get i (nc_slot_generations c);
          g ← unwrap (checked_add g 1);
          let c := set_nc_generations (<[i := g]> (nc_slot_generations c)) c in
          _ ← nic_assert_conservation c;
          Done (c, Some completion)
      | _ => Done (c, None)
      end
  end.
End controller.
