(* ===== verification/SlotMachine.v ===== *)
(** * What a device promises about its requests

    The abstract request machine behind both controllers: slots that are free,
    busy or done, a generation per slot and the order of completions.  An
    execution is a log of issued, finished and retired requests.  [SlotDevice] is
    the interface through which the kernel sees a controller: every operation of
    the implementation is a run of the machine. *)

From S2P Require Import Prelude State Extents.

Inductive SlotView := VFree | VBusy (q : RequesterKey) | VDone (h : RequestHandle) (q : RequesterKey).

Record SlotMachine := mkSlots {
  sm_slots : list SlotView;
  sm_gens : list Z;
  sm_order : list nat;
}.

Inductive SlotEvent :=
| Issue (h : RequestHandle) (q : RequesterKey)
| Finish (h : RequestHandle) (q : RequesterKey)
| Retire (h : RequestHandle) (q : RequesterKey).

Definition handle_at (i : nat) (g : Z) : RequestHandle := mkHandle (Z.of_nat i) g.

(** ** Steps and runs *)
Inductive sm_step (m : SlotMachine) : SlotEvent → SlotMachine → Prop :=
| sm_accept i g q : sm_slots m !! i = Some VFree → sm_gens m !! i = Some g →
    sm_step m (Issue (handle_at i g) q)
      (mkSlots (<[i := VBusy q]> (sm_slots m)) (sm_gens m) (sm_order m))
| sm_finish i g q : sm_slots m !! i = Some (VBusy q) → sm_gens m !! i = Some g →
    sm_step m (Finish (handle_at i g) q)
      (mkSlots (<[i := VDone (handle_at i g) q]> (sm_slots m)) (sm_gens m) (sm_order m ++ [i]))
| sm_retire i rest g h q : sm_order m = i :: rest → sm_slots m !! i = Some (VDone h q) →
    sm_gens m !! i = Some g →
    sm_step m (Retire h q) (mkSlots (<[i := VFree]> (sm_slots m)) (<[i := g + 1]> (sm_gens m)) rest).

Inductive sm_run : SlotMachine → list SlotEvent → SlotMachine → Prop :=
| sm_nil m : sm_run m [] m
| sm_cons m e m' es m'' : sm_step m e m' → sm_run m' es m'' → sm_run m (e :: es) m''.

Lemma sm_run_app m es m' es' m'' : sm_run m es m' → sm_run m' es' m'' → sm_run m (es ++ es') m''.
Proof. induction 1; [done|]. intros. cbn. econstructor; eauto. Qed.
Lemma sm_run_one m e m' : sm_step m e m' → sm_run m [e] m'.
Proof. intros. econstructor; [done|constructor]. Qed.

Definition sm_new (n : nat) : SlotMachine := mkSlots (replicate n VFree) (replicate n 0) [].

(** ** The log *)
Definition issued (l : list SlotEvent) : list (RequestHandle * RequesterKey) :=
  omap (λ e, match e with Issue h q => Some (h, q) | _ => None end) l.
Definition finished (l : list SlotEvent) : list (RequestHandle * RequesterKey) :=
  omap (λ e, match e with Finish h q => Some (h, q) | _ => None end) l.
Definition retired (l : list SlotEvent) : list (RequestHandle * RequesterKey) :=
  omap (λ e, match e with Retire h q => Some (h, q) | _ => None end) l.

Definition done_at (m : SlotMachine) (i : nat) : option (RequestHandle * RequesterKey) :=
  match sm_slots m !! i with Some (VDone h q) => Some (h, q) | _ => None end.

(** The request a slot stands for *)
Definition slot_request (m : SlotMachine) (i : nat) : option (RequestHandle * RequesterKey) :=
  match sm_slots m !! i, sm_gens m !! i with
  | Some (VBusy q), Some g => Some (handle_at i g, q)
  | Some (VDone h q), _ => Some (h, q)
  | _, _ => None
  end.

Record sm_inv (m : SlotMachine) (l : list SlotEvent) : Prop := {
  si_len : length (sm_slots m) = length (sm_gens m);
  si_nodup : NoDup (sm_order m);
  si_order i : i ∈ sm_order m ↔ is_Some (done_at m i);
  si_done i h q : sm_slots m !! i = Some (VDone h q) →
    ∃ g, sm_gens m !! i = Some g ∧ h = handle_at i g;
  si_live i x : slot_request m i = Some x → x ∈ issued l;
  si_old h q : (h, q) ∈ issued l → ∃ (i : nat) g, sm_gens m !! i = Some g ∧ rh_slot h = Z.of_nat i ∧
    (rh_generation h < g ∨ slot_request m i = Some (h, q));
  si_issued : NoDup (issued l).*1;
  si_finished : finished l ⊆ issued l;
  si_past h q : (h, q) ∈ finished l → ∃ (i : nat) g, sm_gens m !! i = Some g ∧ rh_slot h = Z.of_nat i ∧
    (rh_generation h < g ∨ done_at m i = Some (h, q));
  si_finished_once : NoDup (finished l).*1;
  si_fifo : finished l = retired l ++ omap (done_at m) (sm_order m);
  si_kept x : x ∈ issued l → x ∈ finished l ∨ ∃ i, slot_request m i = Some x;
}.

Section preservation.
Implicit Types (m : SlotMachine) (l : list SlotEvent).

Lemma issued_app l l' : issued (l ++ l') = issued l ++ issued l'.
Proof. apply omap_app. Qed.
Lemma finished_app l l' : finished (l ++ l') = finished l ++ finished l'.
Proof. apply omap_app. Qed.
Lemma retired_app l l' : retired (l ++ l') = retired l ++ retired l'.
Proof. apply omap_app. Qed.

(** Updating one slot changes what one index stands for. *)
Lemma done_at_other m m' i j v :
  sm_slots m' = <[i := v]> (sm_slots m) → i ≠ j → done_at m' j = done_at m j.
Proof. intros Hs Hne. unfold done_at. by rewrite Hs, list_lookup_insert_ne. Qed.
Lemma done_at_same m m' i v u :
  sm_slots m' = <[i := v]> (sm_slots m) → sm_slots m !! i = Some u →
  done_at m' i = match v with VDone h q => Some (h, q) | _ => None end.
Proof.
  intros Hs Hu. unfold done_at. by rewrite Hs, list_lookup_insert_eq by (by eapply lookup_lt_Some).
Qed.
Lemma slot_request_other m m' i j v :
  sm_slots m' = <[i := v]> (sm_slots m) → (∀ k, k ≠ i → sm_gens m' !! k = sm_gens m !! k) → i ≠ j →
  slot_request m' j = slot_request m j.
Proof. intros Hs Hg Hne. unfold slot_request. by rewrite Hs, list_lookup_insert_ne, Hg by done. Qed.

Lemma omap_same {A B} (f g : A → option B) (l : list A) :
  (∀ x, x ∈ l → f x = g x) → omap f l = omap g l.
Proof.
  induction l as [|x l IH]; intros Hx; [done|]. cbn. rewrite Hx, IH by set_solver. done.
Qed.

Lemma sm_new_inv n : sm_inv (sm_new n) [].
Proof.
  assert (∀ i, done_at (sm_new n) i = None) as Hd.
  { intros i. unfold done_at. cbn. destruct (replicate n VFree !! i) eqn:E; [|done].
    by apply lookup_replicate in E as [-> _]. }
  split; cbn; rewrite ?length_replicate; try done; try (by constructor).
  - intros i. rewrite Hd. split; [set_solver|by intros []].
  - intros i h q E. by apply lookup_replicate in E as [E _].
  - intros i x. unfold slot_request. cbn. destruct (replicate n VFree !! i) eqn:E; [|done].
    by apply lookup_replicate in E as [-> _].
  - set_solver.
  - set_solver.
Qed.

(** Handles of the current generation belong to the slot that holds them. *)
Lemma fresh_handle m l i g q :
  sm_inv m l → sm_gens m !! i = Some g → slot_request m i = None → (handle_at i g, q) ∉ issued l.
Proof.
  intros Hi Hg Hn Hin. destruct (si_old _ _ Hi _ _ Hin) as (j&g'&Hg'&Hj&Hor). cbn in Hj.
  assert (j = i) as -> by lia. rewrite Hg in Hg'. simplify_eq. cbn in Hor. destruct Hor; [lia|congruence].
Qed.

(** A slot that leaves or enters neither [VDone] nor the order. *)
Lemma order_same m m' l i v u :
  sm_inv m l → sm_slots m' = <[i := v]> (sm_slots m) → sm_order m' = sm_order m →
  sm_slots m !! i = Some u → done_at m i = None → done_at m' i = None →
  (∀ j, done_at m' j = done_at m j) ∧ (∀ j, j ∈ sm_order m' ↔ is_Some (done_at m' j)) ∧
  omap (done_at m') (sm_order m') = omap (done_at m) (sm_order m).
Proof.
  intros Hi Hs Ho Hu Hd Hd'.
  assert (∀ j, done_at m' j = done_at m j) as Heq.
  { intros j. destruct (decide (i = j)) as [<-|]; [congruence|by eapply done_at_other]. }
  split_and!; [done| |].
  - intros j. rewrite Ho, Heq. apply Hi.
  - rewrite Ho. by apply omap_same.
Qed.

Lemma accept_slot_inv m l i g q :
  sm_inv m l → sm_slots m !! i = Some VFree → sm_gens m !! i = Some g →
  sm_inv (mkSlots (<[i := VBusy q]> (sm_slots m)) (sm_gens m) (sm_order m)) (l ++ [Issue (handle_at i g) q]).
Proof.
  intros Hi Hf Hg. set (m' := mkSlots _ _ _).
  assert (done_at m i = None) as Hd by (unfold done_at; by rewrite Hf).
  assert (slot_request m i = None) as Hn by (unfold slot_request; by rewrite Hf).
  assert (done_at m' i = None) as Hd' by (by rewrite (done_at_same m m' i (VBusy q) VFree)).
  assert (slot_request m' i = Some (handle_at i g, q)) as Hn'.
  { unfold slot_request. cbn. by rewrite list_lookup_insert_eq, Hg by (by eapply lookup_lt_Some). }
  destruct (order_same m m' l i (VBusy q) VFree) as (Heq&Hord&Hom); [done..|].
  assert (∀ j, j ≠ i → slot_request m' j = slot_request m j) as Hoth
    by (intros; by eapply (slot_request_other m m' i j)).
  split; rewrite ?issued_app, ?finished_app, ?retired_app; cbn [issued finished retired omap list_omap app];
    rewrite ?app_nil_r; [cbn; rewrite length_insert; apply Hi|apply Hi|done|..].
  - intros j h q' Hj. cbn in Hj. apply list_lookup_insert_Some in Hj as [(_&[=]&_)|[_ Hj]]. by eapply Hi.
  - intros j x Hx. apply elem_of_app. destruct (decide (j = i)) as [->|].
    + right. rewrite Hn' in Hx. simplify_eq. set_solver.
    + left. rewrite Hoth in Hx by done. by eapply Hi.
  - intros h q' [Hin|Hin]%elem_of_app.
    + destruct (si_old _ _ Hi _ _ Hin) as (j&g'&Hg'&Hj&Hor). exists j, g'. split_and!; [done..|].
      destruct Hor as [?|Hr]; [by left|right]. rewrite Hoth; [done|]. congruence.
    + apply list_elem_of_singleton in Hin. simplify_eq. exists i, g. split_and!; try done. by right.
  - rewrite fmap_app. apply NoDup_app. split_and!; [apply Hi| |apply NoDup_singleton].
    cbn. intros h [[h' q'] [Hh Hin]]%list_elem_of_fmap Hs%list_elem_of_singleton. cbn in Hh. simplify_eq.
    by eapply fresh_handle in Hin.
  - intros x Hx. apply elem_of_app. left. by apply Hi.
  - intros h q' Hin. destruct (si_past _ _ Hi _ _ Hin) as (j&g'&Hg'&Hj&Hor). exists j, g'.
    rewrite Heq. done.
  - apply Hi.
  - rewrite Hom. apply Hi.
  - intros x [Hx|Hx]%elem_of_app.
    + destruct (si_kept _ _ Hi x Hx) as [?|[j Hj]]; [by left|right]. exists j. rewrite Hoth; [done|]. congruence.
    + apply list_elem_of_singleton in Hx as ->. right. by exists i.
Qed.

Lemma finish_slot_inv m l i g q :
  sm_inv m l → sm_slots m !! i = Some (VBusy q) → sm_gens m !! i = Some g →
  sm_inv (mkSlots (<[i := VDone (handle_at i g) q]> (sm_slots m)) (sm_gens m) (sm_order m ++ [i]))
    (l ++ [Finish (handle_at i g) q]).
Proof.
  intros Hi Hb Hg. set (m' := mkSlots _ _ _). set (h := handle_at i g).
  assert (done_at m i = None) as Hd by (unfold done_at; by rewrite Hb).
  assert (slot_request m i = Some (h, q)) as Hn by (unfold slot_request; by rewrite Hb, Hg).
  assert (done_at m' i = Some (h, q)) as Hd' by (by rewrite (done_at_same m m' i (VDone h q) (VBusy q))).
  assert (∀ j, j ≠ i → done_at m' j = done_at m j) as Hoth by (intros; by eapply done_at_other).
  assert (∀ j, slot_request m' j = slot_request m j) as Hreq.
  { intros j. destruct (decide (j = i)) as [->|]; [|by eapply (slot_request_other m m' i j)].
    rewrite Hn. unfold slot_request. cbn. by rewrite list_lookup_insert_eq by (by eapply lookup_lt_Some). }
  assert (i ∉ sm_order m) as Hni by (rewrite (si_order _ _ Hi), Hd; by intros []).
  split; rewrite ?issued_app, ?finished_app, ?retired_app; cbn [issued finished retired omap list_omap app];
    rewrite ?app_nil_r; [cbn; rewrite length_insert; apply Hi| | | | | |apply Hi| | | | |].
  - cbn. apply NoDup_app. split_and!; [apply Hi|set_solver|apply NoDup_singleton].
  - intros j. cbn. rewrite elem_of_app, list_elem_of_singleton. destruct (decide (j = i)) as [->|Hne].
    + rewrite Hd'. split; [by eauto|by right].
    + rewrite Hoth by done. rewrite <- (si_order _ _ Hi). naive_solver.
  - intros j h' q' Hj. cbn in Hj. apply list_lookup_insert_Some in Hj as [(->&[= <- <-]&_)|[_ Hj]].
    + by exists g.
    + by eapply Hi.
  - intros j x. rewrite Hreq. apply Hi.
  - intros h' q' Hin. destruct (si_old _ _ Hi _ _ Hin) as (j&g'&?&?&?). exists j, g'. by rewrite Hreq.
  - intros x [Hx|Hx]%elem_of_app; [by apply Hi|]. apply list_elem_of_singleton in Hx as ->.
    by eapply Hi.
  - intros h' q' [Hin|Hin]%elem_of_app.
    + destruct (si_past _ _ Hi _ _ Hin) as (j&g'&Hg'&Hj&Hor). exists j, g'. split_and!; [done..|].
      destruct Hor as [?|Hr]; [by left|right]. rewrite Hoth; [done|]. congruence.
    + apply list_elem_of_singleton in Hin. simplify_eq. exists i, g. split_and!; try done. by right.
  - rewrite fmap_app. apply NoDup_app. split_and!; [apply Hi| |apply NoDup_singleton].
    cbn. intros h' [[h2 q'] [Hh Hin]]%list_elem_of_fmap Hs%list_elem_of_singleton. cbn in Hh. subst h' h2.
    destruct (si_past _ _ Hi _ _ Hin) as (j&g'&Hg'&Hj&Hor). cbn in Hj. assert (j = i) as -> by lia.
    rewrite Hg in Hg'. simplify_eq. destruct Hor as [Hlt|?]; [cbn in Hlt; lia|congruence].
  - cbn. rewrite omap_app. cbn. rewrite Hd', app_assoc. f_equal. rewrite (si_fifo _ _ Hi). f_equal.
    apply omap_same. intros j Hj. symmetry. apply Hoth. by intros ->.
  - intros x Hx. destruct (si_kept _ _ Hi x Hx) as [?|[j Hj]]; [left; set_solver|right].
    exists j. by rewrite Hreq.
Qed.

Lemma retire_slot_inv m l i rest g h q :
  sm_inv m l → sm_order m = i :: rest → sm_slots m !! i = Some (VDone h q) → sm_gens m !! i = Some g →
  sm_inv (mkSlots (<[i := VFree]> (sm_slots m)) (<[i := g + 1]> (sm_gens m)) rest) (l ++ [Retire h q]).
Proof.
  intros Hi Ho Hb Hg. set (m' := mkSlots _ _ _).
  destruct (si_done _ _ Hi _ _ _ Hb) as (g0&Hg0&->). rewrite Hg in Hg0. simplify_eq.
  assert (done_at m i = Some (handle_at i g0, q)) as Hd by (unfold done_at; by rewrite Hb).
  assert (slot_request m i = Some (handle_at i g0, q)) as Hn by (unfold slot_request; by rewrite Hb).
  assert (done_at m' i = None) as Hd' by (by erewrite (done_at_same m m' i VFree)).
  assert (slot_request m' i = None) as Hn'.
  { unfold slot_request. cbn. by rewrite list_lookup_insert_eq by (by eapply lookup_lt_Some). }
  assert (∀ j, j ≠ i → done_at m' j = done_at m j) as Hoth by (intros; by eapply done_at_other).
  assert (∀ j, j ≠ i → sm_gens m' !! j = sm_gens m !! j) as Hgen
    by (intros; cbn; by rewrite list_lookup_insert_ne).
  assert (∀ j, j ≠ i → slot_request m' j = slot_request m j) as Hreq
    by (intros; by eapply (slot_request_other m m' i j)).
  assert (sm_gens m' !! i = Some (g0 + 1)) as Hgi
    by (cbn; by rewrite list_lookup_insert_eq by (by eapply lookup_lt_Some)).
  pose proof (si_nodup _ _ Hi) as Hnd. rewrite Ho in Hnd. apply NoDup_cons in Hnd as [Hni Hnd].
  (* an old request moves below the new generation or keeps its slot *)
  assert (∀ (P Q : nat → Prop) h' (j : nat) g', sm_gens m !! j = Some g' → rh_slot h' = Z.of_nat j →
    (rh_generation h' < g' ∨ P j) → (P i → rh_generation h' = g0) → (j ≠ i → P j → Q j) →
    ∃ (k : nat) g2, sm_gens m' !! k = Some g2 ∧ rh_slot h' = Z.of_nat k ∧ (rh_generation h' < g2 ∨ Q k)) as Hmove.
  { intros P Q h' j g' Hg' Hj Hor Hp Hq. destruct (decide (j = i)) as [->|Hne].
    - rewrite Hg in Hg'. simplify_eq. exists i, (g' + 1). split_and!; [done..|left].
      destruct Hor as [?|?]; [lia|]. rewrite Hp by done. lia.
    - exists j, g'. rewrite Hgen by done. split_and!; [done..|]. destruct Hor; auto. }
  split; rewrite ?issued_app, ?finished_app, ?retired_app; cbn [issued finished retired omap list_omap app];
    rewrite ?app_nil_r; [cbn; rewrite !length_insert; apply Hi|exact Hnd| | | | |apply Hi|apply Hi| |apply Hi| |].
  - intros j. cbn. destruct (decide (j = i)) as [->|Hne].
    + rewrite Hd'. split; [done|by intros []].
    + rewrite Hoth by done. rewrite <- (si_order _ _ Hi), Ho. set_solver.
  - intros j h' q' Hj. cbn in Hj. apply list_lookup_insert_Some in Hj as [(_&[=]&_)|[Hne Hj]].
    rewrite Hgen by done. by eapply Hi.
  - intros j x Hx. destruct (decide (j = i)) as [->|]; [congruence|]. rewrite Hreq in Hx by done. by eapply Hi.
  - intros h' q' Hin. destruct (si_old _ _ Hi _ _ Hin) as (j&g'&Hg'&Hj&Hor).
    apply (Hmove (λ j, slot_request m j = Some (h', q')) _ h' j g'); [done..| |].
    + rewrite Hn. by intros [= <- _].
    + intros Hne Hr. by rewrite Hreq.
  - intros h' q' Hin. destruct (si_past _ _ Hi _ _ Hin) as (j&g'&Hg'&Hj&Hor).
    apply (Hmove (λ j, done_at m j = Some (h', q')) _ h' j g'); [done..| |].
    + rewrite Hd. by intros [= <- _].
    + intros Hne Hr. by rewrite Hoth.
  - rewrite (si_fifo _ _ Hi), Ho. cbn. rewrite Hd. cbn. rewrite <- app_assoc. cbn. do 2 f_equal.
    apply omap_same. intros j Hj. symmetry. apply Hoth. by intros ->.
  - intros x Hx. destruct (si_kept _ _ Hi x Hx) as [?|[j Hj]]; [by left|].
    destruct (decide (j = i)) as [->|]; [left|right; exists j; by rewrite Hreq].
    rewrite Hn in Hj. simplify_eq. rewrite (si_fifo _ _ Hi), Ho. cbn. rewrite Hd. set_solver.
Qed.

Lemma sm_step_inv m l e m' : sm_inv m l → sm_step m e m' → sm_inv m' (l ++ [e]).
Proof. intros Hi []; [by apply accept_slot_inv|by apply finish_slot_inv|by eapply retire_slot_inv]. Qed.

Lemma sm_run_inv m l es m' : sm_inv m l → sm_run m es m' → sm_inv m' (l ++ es).
Proof.
  intros Hi Hr. revert l Hi. induction Hr as [m|m e m1 es m2 Hs _ IH]; intros l Hi; [by rewrite app_nil_r|].
  rewrite cons_middle, app_assoc. apply IH. by eapply sm_step_inv.
Qed.

(** Every request is answered at most once, to the requester it was issued to, and
    answers come in the order the requests finished; a request that is not yet
    answered holds a slot. *)
Definition answers_ok (m : SlotMachine) (l : list SlotEvent) : Prop :=
  NoDup (issued l).*1 ∧ NoDup (retired l).*1 ∧ retired l ⊆ issued l ∧
  retired l `prefix_of` finished l ∧
  ∀ x, x ∈ issued l → x ∈ retired l ∨ ∃ i, slot_request m i = Some x.

Lemma done_slot_request m i x : done_at m i = Some x → slot_request m i = Some x.
Proof. unfold done_at, slot_request. by destruct (sm_slots m !! i) as [[]|]. Qed.

Lemma sm_answers m l : sm_inv m l → answers_ok m l.
Proof.
  intros Hi. pose proof (si_fifo _ _ Hi) as Hf. split_and!; [apply Hi| | |by eexists|].
  - pose proof (si_finished_once _ _ Hi) as Hn. rewrite Hf, fmap_app in Hn. by apply NoDup_app in Hn as [? _].
  - intros x Hx. apply (si_finished _ _ Hi). rewrite Hf. set_solver.
  - intros x Hx. destruct (si_kept _ _ Hi x Hx) as [Hx'|]; [|by right].
    rewrite Hf in Hx'. apply elem_of_app in Hx' as [?|Hx']; [by left|right].
    apply list_elem_of_omap in Hx' as (i&_&Hx'). exists i. by apply done_slot_request.
Qed.
End preservation.

(** ** Completions of one operation

    The requests that entered the completion order between two states. *)
Definition new_finishes (m m' : SlotMachine) : list SlotEvent :=
  omap (λ i, (λ x, Finish x.1 x.2) <$> done_at m' i) (drop (length (sm_order m)) (sm_order m')).

Definition is_finish (e : SlotEvent) : Prop := match e with Finish _ _ => True | _ => False end.

Lemma finish_run_order m es m' :
  sm_run m es m' → Forall is_finish es →
  ∃ js, sm_order m' = sm_order m ++ js ∧
    es = omap (λ i, (λ x, Finish x.1 x.2) <$> done_at m' i) js ∧
    ∀ j x, done_at m j = Some x → done_at m' j = Some x.
Proof.
  induction 1 as [m|m e m1 es m2 Hs _ IH]; intros Hf.
  { exists []. rewrite app_nil_r. done. }
  apply Forall_cons in Hf as [He Hf]. destruct (IH Hf) as (js&Ho&Hes&Hd).
  destruct Hs as [|i g q Hb Hg|]; [done| |done]. cbn in Ho.
  assert (done_at (mkSlots (<[i := VDone (handle_at i g) q]> (sm_slots m)) (sm_gens m) (sm_order m ++ [i])) i
    = Some (handle_at i g, q)) as Hi.
  { unfold done_at. cbn. by rewrite list_lookup_insert_eq by (by eapply lookup_lt_Some). }
  exists (i :: js). split_and!.
  - by rewrite Ho, <- app_assoc.
  - cbn. rewrite (Hd _ _ Hi). cbn. by rewrite <- Hes.
  - intros j x Hx. apply Hd. destruct (decide (i = j)) as [<-|Hne].
    + unfold done_at in Hx. by rewrite Hb in Hx.
    + unfold done_at in *. cbn. by rewrite list_lookup_insert_ne.
Qed.

Lemma new_finishes_run m es m' : sm_run m es m' → Forall is_finish es → new_finishes m m' = es.
Proof.
  intros Hr Hf. destruct (finish_run_order m es m' Hr Hf) as (js&Ho&->&_).
  unfold new_finishes. by rewrite Ho, drop_app_length.
Qed.

(** ** The interface *)
Class SlotDevice (D : Type) := {
  sd_view : D → SlotMachine;
  sd_ready : D → Prop;
  sd_step : D → list SlotEvent → D → Prop;
  sd_new : D → Prop;
  sd_new_view d : sd_new d → sd_view d = sm_new 2 ∧ sd_ready d;
  sd_refines d es d' : sd_ready d → sd_step d es d' → sm_run (sd_view d) es (sd_view d') ∧ sd_ready d';
}.

Inductive sd_history `{SlotDevice D} : D → list SlotEvent → Prop :=
| sd_start d : sd_new d → sd_history d []
| sd_next d l es d' : sd_history d l → sd_step d es d' → sd_history d' (l ++ es).

Lemma sd_history_inv `{SlotDevice D} (d : D) l :
  sd_history d l → sd_ready d ∧ sm_inv (sd_view d) l.
Proof.
  induction 1 as [d Hn|d l es d' _ [Hrd Hi] Hs].
  - destruct (sd_new_view d Hn) as [-> ?]. split; [done|apply sm_new_inv].
  - destruct (sd_refines d es d' Hrd Hs) as [Hr ?]. split; [done|by eapply sm_run_inv].
Qed.

Lemma sd_history_answers `{SlotDevice D} (d : D) l : sd_history d l → answers_ok (sd_view d) l.
Proof. intros Hh. by apply sm_answers, sd_history_inv. Qed.
