(* ===== verification/Dma.v ===== *)
(** * The life of one DMA transaction

    What both controllers share: the narrow domain a delegation leaves behind,
    and the fabric after each of the three phases of the transaction that is
    submitted under it. *)

From S2P Require Import Prelude State Extents Registry PointerFrames Fabric FabricTx FabricAuth.
From S2P Require Import FabricInv FabricSafety Block.

Section delegation_facts.
Context `{Profile}.

(** A delegation adds one domain, which may access the span, and nothing else. *)
Definition delegated (f : Fabric) (o off len : Z) (perms : Permissions) (d : DomainId) (f' : Fabric) : Prop :=
  d = fab_next_domain_id f ∧ (∃ s n, f' = set_fab_domains (<[d := s]> (fab_domains f)) (set_fab_next_domain_id n f)) ∧
  fab_pointer_stack_objects f !! o = None ∧ may_access f' d o off len perms.

Lemma delegate_fresh_delegated f p o off len perms d f' :
  cap_object p = o → fab_pointer_stack_objects f !! o = None →
  covers p o off len perms = true →
  delegate_into_fresh f p off len perms = Done (f', Some d) → delegated f o off len perms d f'.
Proof.
  intros Ho Hst Hcov. unfold delegate_into_fresh. destruct (create_domain f) as [[f1 d1]|] eqn:Ec; [|done].
  cbn [mbind outcome_bind]. destruct (derive f1 d1 p off len perms) as [[f2 c]|] eqn:Ed; [|done].
  intros [= <- <-]. unfold create_domain in Ec. destruct (add_u64 _ 1) as [n|]; [|done]. cbn in Ec.
  apply (inj Done), pair_eq in Ec as [<- <-]. apply derive_inv in Ed as (->&Hv&Hs&Hw&Hp).
  pose proof (derived_valid _ _ _ _ perms Hw Hv) as Hcv. pose proof (may_access_push _ _ _ _
    (fab_next_domain_id f) o off len perms Hp) as Hm.
  apply push_capability_Some in Hp as (s&Hl&->). cbn in Hl. rewrite lookup_insert_eq in Hl. simplify_eq.
  split_and!; [done| |done|].
  - eexists _, n. cbn. by rewrite insert_insert_eq.
  - apply Hm. right. split_and!; [done|done|]. apply covers_spec in Hcov as (?&?&?&?&?).
    apply covers_spec. cbn. split_and!; try done; try lia. apply contains_refl.
Qed.

Lemma delegate_id_delegated f src aid o off len perms d f' :
  delegate_dma_span_from_authority_id f src aid o off len perms = Done (f', Some d) →
  delegated f o off len perms d f'.
Proof.
  unfold delegate_dma_span_from_authority_id.
  destruct (fab_pointer_stack_objects f !! o) eqn:Hst; cbn [is_some]; [done|].
  destruct (find_authority f src aid) as [p|]; [|done]. destruct (Z.eqb_spec (cap_object p) o); cbn [negb]; [|done].
  destruct (fab_objects f !! o); [|done]. destruct (negb _); [done|]. destruct (negb _); [done|].
  destruct (negb (validate f p)); [done|]. destruct (covers p o off len perms) eqn:Hc; [|done]. cbn [negb].
  by apply delegate_fresh_delegated.
Qed.

Lemma delegate_span_delegated f src o off len perms d f' :
  delegate_dma_span f src o off len perms = Done (f', Some d) → delegated f o off len perms d f'.
Proof.
  unfold delegate_dma_span.
  destruct (fab_pointer_stack_objects f !! o) eqn:Hst; cbn [is_some]; [done|].
  destruct (fab_objects f !! o); [|done]. destruct (negb _); [done|].
  destruct (find_authorizing_cap f src o off len perms) as [p|] eqn:Hf; [|done].
  unfold find_authorizing_cap in Hf. destruct (fab_domains f !! src); [|done]. cbn in Hf.
  apply find_some in Hf as [_ Hb]. bools. apply delegate_fresh_delegated; try done.
  by apply covers_spec in H1 as [? _].
Qed.
End delegation_facts.

(** ** The target of a transfer *)
Record dma_placed (f : Fabric) (o off len base : Z) : Prop := {
  dp_base : fab_placement f !! o = Some base;
  dp_private : private_heap_object f o = false;
  dp_bounds : 0 ≤ off ∧ 0 ≤ base ∧ 0 < len ∧ base + off + len < U64;
  dp_memory : base + off + len ≤ mem_len f;
  dp_start : heap_pool_overlaps f (base + off) 1 = false;
  dp_pool : heap_pool_overlaps f (base + off) len = false;
}.

Lemma dma_access_check f f' o off len perms d agent kind data base :
  delegated f o off len perms d f' → dma_placed f o off len base → required_permission kind = perms →
  (is_mutating kind = true → ∃ x, data = Some x ∧ zlen x = len) →
  access_check f' (dma_request agent d o off len kind) data = Ok (base + off, base + off + len).
Proof.
  intros (_&(s&n&->)&Hst&Hm) [Hb Hpr (?&?&?&?) Hmem Hs1 Hs2] Hk Hdata. unfold access_check.
  set (f1 := set_fab_domains _ _) in *. cbn -[authorize translate mem_len heap_pool_overlaps].
  rewrite (proj2 (Z.eqb_neq len 0)), (proj2 (checked_add_Some off len (off + len)) ltac:(split; lia)) by lia.
  cbn [is_some negb orb]. destruct (authorize_complete f1 (dma_request agent d o off len kind)) as [g ->].
  { unfold stack_guard. cbn. by rewrite Hst. }
  { cbn. by rewrite Hk. }
  assert (translate f1 o off = Some (base + off)) as ->.
  { unfold translate. change (private_heap_object f1 o) with (private_heap_object f o).
    change (fab_placement f1) with (fab_placement f). rewrite Hpr, Hb. cbn [mbind option_bind].
    rewrite (proj2 (checked_add_Some base off (base + off))) by (split; lia). cbn [mbind option_bind].
    change (heap_pool_overlaps f1) with (heap_pool_overlaps f). by rewrite Hs1. }
  rewrite (proj2 (checked_add_Some (base + off) len (base + off + len))) by (split; lia).
  change (mem_len f1) with (mem_len f). change (heap_pool_overlaps f1) with (heap_pool_overlaps f).
  rewrite (proj2 (Z.leb_le _ _) Hmem), Hs2. cbn [negb].
  destruct (is_mutating kind); [|done]. destruct (Hdata eq_refl) as (x&->&Hx). cbn [andb is_some_and].
  by rewrite (proj2 (Z.eqb_eq _ _) Hx).
Qed.

(** ** The three phases *)
Section stages.
Context `{Profile}.

Lemma dma_stages f r d n b e :
  placement_wf f → request_wf r → add_u64 (fab_next_tx_id f) 1 = Done n →
  access_check f r d = Ok (b, e) →
  let f' := set_fab_next_tx_id n f in
  let txs := fab_transactions f in
  let t := fresh_tx f r d in
  ∃ g, submit f r d = Done (at_tx f' txs t, length txs) ∧
    advance_if_live (at_tx f' txs t) (length txs) = Done (at_tx f' txs (tx1 t g)) ∧
    advance_if_live (at_tx f' txs (tx1 t g)) (length txs) = Done (at_tx f' txs (tx2 t g b)) ∧
    advance_if_live (at_tx f' txs (tx2 t g b)) (length txs) = Done
      (log_tx (if is_mutating (req_kind r) then abstract_write f b e (default [] d) else f) n
         (committed_tx f r d g b)).
Proof.
  intros Hpw Hrw Hn Hok f' txs t.
  destruct (access_check_span _ _ _ _ _ Hpw Hrw Hok) as (Hb&He&Hl&Hm&Hu&Ht&[g Ha]&Hh&Hmut).
  exists g. split_and!.
  - rewrite (submit_eq f r d n Hn). unfold access_check in Hok. by destruct (_ || _).
  - unfold advance_if_live. rewrite get_at_tx. cbn [mbind outcome_bind is_terminal tx_state t fresh_tx].
    rewrite advance_requested by done. change (authorize f' (tx_request t)) with (authorize f r). by rewrite Ha.
  - unfold advance_if_live. rewrite get_at_tx. cbn [mbind outcome_bind is_terminal tx_state tx1 set_tx_state].
    rewrite advance_authorized by done.
    change (translate f' (req_object (tx_request (tx1 t g))) (req_offset (tx_request (tx1 t g))))
      with (translate f (req_object r) (req_offset r)). by rewrite Ht.
  - unfold advance_if_live. rewrite get_at_tx. cbn [mbind outcome_bind is_terminal tx_state tx2 set_tx_state].
    rewrite (commit_at _ _ _ g b e d); try done; [|cbn; apply checked_add_Some; split; [lia|done]|lia].
    unfold committed_tx, log_tx. cbn -[slice splice]. by destruct (is_mutating (req_kind r)).
Qed.
End stages.

(** ** A transfer seen from a controller *)

(** The address space of two fabrics is the same. *)
Record same_space (f g : Fabric) : Prop := {
  ss_placement : fab_placement g = fab_placement f;
  ss_private o : private_heap_object g o = private_heap_object f o;
  ss_pool b n : heap_pool_overlaps g b n = heap_pool_overlaps f b n;
}.

Lemma same_space_placed f g o off len base :
  same_space f g → mem_len g = mem_len f → dma_placed f o off len base → dma_placed g o off len base.
Proof. intros [Hp Hh Ho] Hm []. split; rewrite ?Hp, ?Hh, ?Ho, ?Hm; done. Qed.

(** What a controller observes of an accepted transfer that it advances three
    times: the fabric between the phases, with memory untouched until the last. *)
Record dma_flow `{Profile} (f f1 : Fabric) (r : MemoryRequest) (data : option (list Z)) (b : Z)
    (idx : nat) (fs fa fb fc : Fabric) (ta tb tc : Transaction) : Prop := {
  df_submit : submit f1 r data = Done (fs, idx);
  df_authorize : advance_if_live fs idx = Done fa;
  df_authorized : vec_get idx (fab_transactions fa) = Done ta;
  df_authorized_live : is_terminal (tx_state ta) = false;
  df_prepare : advance_if_live fa idx = Done fb;
  df_prepared : vec_get idx (fab_transactions fb) = Done tb;
  df_prepared_live : is_terminal (tx_state tb) = false;
  df_untouched : fab_memory fb = fab_memory f;
  df_commit : advance_if_live fb idx = Done fc;
  df_committed : vec_get idx (fab_transactions fc) = Done tc;
  df_state : tx_state tc = Committed;
  df_memory : fab_memory fc = if is_mutating (req_kind r) then splice b (default [] data) (fab_memory f)
                              else fab_memory f;
  df_read : tx_read_data tc = if is_mutating (req_kind r) then None
                              else Some (slice b (req_length r) (fab_memory f));
  df_domains : fab_domains fc = fab_domains f1;
  df_space : same_space f fc;
}.

Lemma dma_run `{Profile} f f1 o off len d agent kind data n base :
  placement_wf f → add_u64 (fab_next_tx_id f) 1 = Done n →
  delegated f o off len (required_permission kind) d f1 → dma_placed f o off len base →
  (is_mutating kind = true → ∃ x, data = Some x ∧ zlen x = len) →
  ∃ idx fs fa fb fc ta tb tc,
    dma_flow f f1 (dma_request agent d o off len kind) data (base + off) idx fs fa fb fc ta tb tc.
Proof.
  intros Hpw Hn Hdel Hpl Hdata.
  pose proof (dma_access_check _ _ _ _ _ _ _ agent kind data _ Hdel Hpl eq_refl Hdata) as Hok.
  destruct Hdel as (_&(s&m&Hf1)&_). destruct Hpl as [_ _ Hb _ _ _].
  destruct (dma_stages f1 (dma_request agent d o off len kind) data n (base + off) (base + off + len)) as (g&Hs&Ha&Hp&Hc); try done.
  { by subst f1. }
  { split; cbn; unfold is_u64; lia. }
  { by subst f1. }
  eexists _, _, _, _, _, _, _, _. split; [exact Hs|exact Ha|apply get_at_tx|done|exact Hp|apply get_at_tx|done| |exact Hc|..].
  - by subst f1.
  - unfold log_tx. cbn [fab_transactions set_fab_transactions set_fab_next_tx_id].
    cbn [req_kind dma_request]. destruct (is_mutating kind); apply vec_get_last.
  - done.
  - subst f1. cbn -[slice splice]. by destruct (is_mutating kind).
  - subst f1. unfold committed_tx. cbn -[slice splice]. by destruct (is_mutating kind).
  - cbn. by destruct (is_mutating kind).
  - subst f1. cbn [req_kind dma_request]. by destruct (is_mutating kind).
Qed.
