(* ===== verification/BlockFacts.v ===== *)
(** * Correctness of the block device *)

From S2P Require Import Prelude State Extents ExtentsFacts Registry PointerFrames Fabric FabricTx.
From S2P Require Import FabricAuth FabricInv FabricSafety Block SlotMachine Dma.

(** ** The controller as a request machine *)
Definition block_slot_view (s : BlockSlot) : SlotView :=
  match s with
  | BFree => VFree
  | BWaiting r _ _ | BDmaReady r _ | BDmaInFlight r _ _ => VBusy (br_requester r)
  | BCompleted k => VDone (bcp_handle k) (bcp_requester k)
  end.
Definition block_view (c : BlockController) : SlotMachine :=
  mkSlots (map block_slot_view (bc_slots c)) (bc_slot_generations c) (bc_completion_order c).

Record block_ready (c : BlockController) : Prop := {
  bd_slots : length (bc_slots c) = 2%nat;
  bd_gens : length (bc_slot_generations c) = 2%nat;
  bd_nodup : NoDup (bc_completion_order c);
  bd_order i : i ∈ bc_completion_order c → ∃ k, bc_slots c !! i = Some (BCompleted k);
}.

(** One operation of the controller, against whatever fabric, with the requests it
    issues, finishes and retires.  Generations are below exhaustion. *)
Inductive block_step `{Profile} (c : BlockController) : list SlotEvent → BlockController → Prop :=
| bstep_submit r f c' f' res : block_submit c r f = Done (c', f', res) →
    block_step c (match res with Accepted h => [Issue h (br_requester r)] | _ => [] end) c'
| bstep_tick f c' f' : block_tick c f = Done (c', f') →
    block_step c (new_finishes (block_view c) (block_view c')) c'
| bstep_consume c' x : Forall (λ g, 0 ≤ g < u64_max) (bc_slot_generations c) →
    block_consume_completion c = Done (c', x) →
    block_step c (match x with Some k => [Retire (bcp_handle k) (bcp_requester k)] | None => [] end) c'.

Section refinement.
Context `{Profile}.

Lemma view_lookup c i s : bc_slots c !! i = Some s → sm_slots (block_view c) !! i = Some (block_slot_view s).
Proof. intros Hs. cbn. change (map block_slot_view) with (fmap (M := list) block_slot_view). by rewrite list_lookup_fmap, Hs. Qed.
Lemma view_insert c i s : map block_slot_view (<[i := s]> (bc_slots c)) = <[i := block_slot_view s]> (map block_slot_view (bc_slots c)).
Proof. apply list_fmap_insert. Qed.

(** Replacing a slot with another that looks the same. *)
Lemma set_slot_same c i s s' :
  block_ready c → bc_slots c !! i = Some s → block_slot_view s' = block_slot_view s →
  (∀ k, s ≠ BCompleted k) → block_view (set_bc_slot i s' c) = block_view c ∧ block_ready (set_bc_slot i s' c).
Proof.
  intros [Hl Hg Hn Ho] Hs Hv Hk. split.
  - unfold block_view. cbn. rewrite view_insert, Hv. f_equal. apply list_insert_id. by apply view_lookup.
  - split; cbn; rewrite ?length_insert; try done. intros j Hj. destruct (Ho j Hj) as [k Hjk].
    exists k. destruct (decide (i = j)) as [->|]; [congruence|by rewrite list_lookup_insert_ne].
Qed.

Lemma tick_waiting_view i c c' :
  block_ready c → tick_waiting i c = Done c' → block_view c' = block_view c ∧ block_ready c'.
Proof.
  intros Hr Ht. unfold tick_waiting in Ht. destruct (vec_get i (bc_slots c)) as [s|] eqn:E; [|done].
  apply vec_get_Done in E. cbn in Ht. destruct s; guards; try done.
  destruct (sub_u32 _ _) as [n|]; [|done]. cbn in Ht. guards.
  by destruct (n =? 0); (eapply set_slot_same; [done|exact E|done|done]).
Qed.

Lemma tick_start_view i c f c' f' :
  block_ready c → tick_start i (c, f) = Done (c', f') → block_view c' = block_view c ∧ block_ready c'.
Proof.
  intros Hr Ht. unfold tick_start in Ht. destruct (vec_get i (bc_slots c)) as [s|] eqn:E; [|done].
  apply vec_get_Done in E. cbn [mbind outcome_bind] in Ht. destruct s; guards; try done.
  run_binds Ht. guards. by eapply set_slot_same.
Qed.

Lemma finish_slot c i r d idx k :
  block_ready c → bc_slots c !! i = Some (BDmaInFlight r d idx) →
  (∃ g, bc_slot_generations c !! i = Some g ∧ bcp_handle k = handle_at i g) → bcp_requester k = br_requester r →
  let c' := set_bc_order (bc_completion_order c ++ [i]) (set_bc_slot i (BCompleted k) c) in
  sm_run (block_view c) [Finish (bcp_handle k) (bcp_requester k)] (block_view c') ∧ block_ready c'.
Proof.
  intros [Hl Hg Hn Ho] Hs (g&Hgi&Hh) Hq c'. apply view_lookup in Hs as Hv. split.
  - rewrite Hh, Hq. apply sm_run_one. unfold block_view at 2. cbn. rewrite view_insert. cbn. rewrite Hh, Hq.
    by apply (sm_finish (block_view c)).
  - split; cbn; rewrite ?length_insert; try done.
    + apply NoDup_app. split_and!; [done| |apply NoDup_singleton].
      intros j Hj ->%list_elem_of_singleton. destruct (Ho i Hj). congruence.
    + intros j [Hj|Hj]%elem_of_app.
      * destruct (Ho j Hj) as [k' Hjk]. exists k'. destruct (decide (i = j)) as [->|]; [congruence|].
        by rewrite list_lookup_insert_ne.
      * apply list_elem_of_singleton in Hj as ->. exists k.
        by rewrite list_lookup_insert_eq by (by eapply lookup_lt_Some).
Qed.

Lemma tick_flight_view i c f c' f' :
  block_ready c → tick_flight i (c, f) = Done (c', f') →
  ∃ es, sm_run (block_view c) es (block_view c') ∧ Forall is_finish es ∧ block_ready c'.
Proof.
  intros Hr Ht. unfold tick_flight in Ht. destruct (vec_get i (bc_slots c)) as [s|] eqn:E; [|done].
  apply vec_get_Done in E. cbn [mbind outcome_bind] in Ht.
  destruct s; try (guards; exists []; split_and!; [constructor|constructor|done]).
  run_binds Ht; guards; try (exists []; split_and!; [constructor|constructor|done]).
  match goal with E : vec_get i (bc_slot_generations c) = Done ?g |- _ => apply vec_get_Done in E; rename E into Hg; rename g into gen end.
  match goal with |- context [BCompleted ?k] => destruct (finish_slot c i request dma_domain tx_idx k Hr E) as [Hrun [? ? ? ?]];
    [by exists gen|done|] end.
  eexists. split_and!; [exact Hrun|by repeat constructor|]. by split.
Qed.

Lemma tick_view c f c' f' :
  block_ready c → block_tick c f = Done (c', f') →
  sm_run (block_view c) (new_finishes (block_view c) (block_view c')) (block_view c') ∧ block_ready c'.
Proof.
  intros Hr Ht. unfold block_tick in Ht.
  destruct (tick_waiting 0 c) as [c1|] eqn:E1; [|done]. cbn [mbind outcome_bind] in Ht.
  destruct (tick_waiting 1 c1) as [c2|] eqn:E2; [|done]. cbn [mbind outcome_bind] in Ht.
  destruct (tick_start 0 (c2, f)) as [[c3 f3]|] eqn:E3; [|done]. cbn [mbind outcome_bind] in Ht.
  destruct (tick_start 1 (c3, f3)) as [[c4 f4]|] eqn:E4; [|done]. cbn [mbind outcome_bind] in Ht.
  destruct (tick_flight 0 (c4, f4)) as [[c5 f5]|] eqn:E5; [|done]. cbn [mbind outcome_bind] in Ht.
  destruct (tick_flight 1 (c5, f5)) as [[c6 f6]|] eqn:E6; [|done]. cbn [mbind outcome_bind] in Ht.
  run_binds Ht. guards.
  apply tick_waiting_view in E1 as [V1 R1]; [|done]. apply tick_waiting_view in E2 as [V2 R2]; [|done].
  apply tick_start_view in E3 as [V3 R3]; [|done]. apply tick_start_view in E4 as [V4 R4]; [|done].
  apply tick_flight_view in E5 as (es&Hrun&Hes&R5); [|done].
  apply tick_flight_view in E6 as (es'&Hrun'&Hes'&R6); [|done]. split; [|done].
  rewrite V4, V3, V2, V1 in Hrun. pose proof (sm_run_app _ _ _ _ _ Hrun Hrun') as Hall.
  erewrite new_finishes_run; [exact Hall|exact Hall|by apply Forall_app].
Qed.

Lemma submit_view c r f c' f' res :
  block_ready c → block_submit c r f = Done (c', f', res) →
  sm_run (block_view c) (match res with Accepted h => [Issue h (br_requester r)] | _ => [] end) (block_view c') ∧
  block_ready c'.
Proof.
  intros Hr Hs. unfold block_submit in Hs.
  destruct (_ && _); [guards; split; [constructor|done]|].
  destruct (_ <=? _); [guards; split; [constructor|done]|].
  destruct (position _ _) as [i|] eqn:Ep; [|guards; split; [constructor|done]].
  apply position_Some in Ep as (s&Hi&Hfree). destruct s; try discriminate Hfree.
  destruct (match br_source_authority_id r with Some _ => _ | None => _ end) as [[f1 [d|]]|]; [| |done];
    cbn [mbind outcome_bind] in Hs; [|guards; split; [constructor|done]].
  destruct (vec_get i (bc_slot_generations c)) as [g|] eqn:Eg; [|done]. apply vec_get_Done in Eg.
  cbn [mbind outcome_bind] in Hs. run_binds Hs. guards. destruct Hr as [Hl Hg Hn Ho]. split.
  - apply sm_run_one. unfold block_view at 2. cbn. rewrite view_insert. cbn.
    apply (sm_accept (block_view c) i g); [|done]. by apply (view_lookup c i BFree).
  - split; cbn; rewrite ?length_insert; try done. intros j Hj. destruct (Ho j Hj) as [k Hk]. exists k.
    destruct (decide (i = j)) as [->|]; [congruence|by rewrite list_lookup_insert_ne].
Qed.

Lemma consume_view c c' x :
  block_ready c → Forall (λ g, 0 ≤ g < u64_max) (bc_slot_generations c) →
  block_consume_completion c = Done (c', x) →
  sm_run (block_view c)
    (match x with Some k => [Retire (bcp_handle k) (bcp_requester k)] | None => [] end) (block_view c') ∧
  block_ready c'.
Proof.
  intros Hr Hmax Hs. unfold block_consume_completion in Hs.
  destruct (bc_completion_order c) as [|i rest] eqn:Eo; [guards; split; [constructor|done]|].
  destruct Hr as [Hl Hg Hn Ho]. destruct (Ho i) as [k Hk]; [rewrite Eo; set_solver|].
  cbn [bc_slots set_bc_order] in Hs. rewrite (vec_get_lookup _ _ _ Hk) in Hs.
  cbn [mbind outcome_bind] in Hs.
  destruct (vec_get i _) as [g|] eqn:Eg; [|done]. apply vec_get_Done in Eg. cbn [mbind outcome_bind] in Hs.
  cbn in Eg. pose proof (Forall_lookup_1 _ _ _ _ Hmax Eg) as Hb. cbn in Hb.
  rewrite add_u64_exact in Hs by (unfold is_u64, u64_max in *; lia). cbn [mbind outcome_bind] in Hs.
  run_binds Hs. guards. rewrite Eo in Hn. apply NoDup_cons in Hn as [Hni Hn]. split.
  - apply sm_run_one. unfold block_view at 2. cbn. rewrite view_insert. cbn.
    apply (sm_retire (block_view c) i rest g); [done| |done]. by apply (view_lookup c i (BCompleted k)).
  - split; cbn; rewrite ?length_insert; try done. intros j Hj.
    destruct (Ho j) as [k' Hk']; [rewrite Eo; set_solver|]. exists k'.
    destruct (decide (i = j)) as [->|]; [done|by rewrite list_lookup_insert_ne].
Qed.
End refinement.

#[export] Program Instance block_device `{Profile} : SlotDevice BlockController := {|
  sd_view := block_view;
  sd_ready := block_ready;
  sd_step := block_step;
  sd_new c := ∃ storage latency agent, c = block_new storage latency agent;
|}.
Next Obligation.
  intros ? c (?&?&?&->). split; [done|]. split; cbn; try done; [constructor|set_solver].
Qed.
Next Obligation.
  intros ? c es c' Hr []; [by eapply submit_view|by eapply tick_view|by eapply consume_view].
Qed.

(** ** One read, from submission to completion *)

(** A controller with slot 1 free, and slot 0, the order and the epoch given. *)
Definition busy_with (c : BlockController) (s : BlockSlot) (order : list nat) (epoch : Z) : BlockController :=
  mkBlock [s; BFree] (bc_slot_generations c) order (bc_storage c) (bc_latency c) (bc_storage_agent c) epoch.

Record block_idle (c : BlockController) : Prop := {
  bi_slots : bc_slots c = [BFree; BFree];
  bi_order : bc_completion_order c = [];
  bi_gens : ∃ g0 g1, bc_slot_generations c = [g0; g1] ∧ 0 ≤ g0 < u64_max;
  bi_latency : 0 ≤ bc_latency c < U32;
  bi_epoch : 0 ≤ bc_event_sequence c < u64_max;
}.

Section end_to_end.
Context `{Profile}.

Fixpoint block_ticks (n : nat) (c : BlockController) (f : Fabric) : outcome (BlockController * Fabric) :=
  match n with
  | O => Done (c, f)
  | S n => x ← block_tick c f; block_ticks n x.1 x.2
  end.

Lemma block_ticks_app m n c f c1 f1 :
  block_ticks m c f = Done (c1, f1) → block_ticks (m + n) c f = block_ticks n c1 f1.
Proof.
  revert c f. induction m as [|m IH]; intros c f Ht; cbn in Ht |- *; [by simplify_eq|].
  destruct (block_tick c f) as [[c2 f2]|]; [|done]. cbn [mbind outcome_bind] in *. by apply IH.
Qed.

Lemma debug_assert_true b : b = true → debug_assert b = Done tt.
Proof. intros ->. unfold debug_assert. by rewrite andb_false_r. Qed.

Lemma busy_conserved c s epoch :
  b_is_completed s = false → block_assert_conservation (busy_with c s [] epoch) = Done tt.
Proof. intros Hs. unfold block_assert_conservation. destruct s; try discriminate Hs; cbn; unfold debug_assert; by destruct debug_build. Qed.
Lemma done_conserved c k epoch : block_assert_conservation (busy_with c (BCompleted k) [0%nat] epoch) = Done tt.
Proof. unfold block_assert_conservation, debug_assert. cbn. by destruct debug_build. Qed.

Lemma sub_u32_exact a : 1 ≤ a < U32 → sub_u32 a 1 = Done (a - 1).
Proof.
  intros Ha. unfold sub_u32. apply checked_or_wrap_exact. unfold wrap32. symmetry. apply Z.mod_small.
  unfold U32 in *. lia.
Qed.

(** Slot 1 stays idle, so that a tick is the three phases on slot 0. *)
Lemma tick_busy c s s1 s2 s3 o e o' e' f f2 f3 :
  tick_waiting 0 (busy_with c s o e) = Done (busy_with c s1 o e) →
  tick_start 0 (busy_with c s1 o e, f) = Done (busy_with c s2 o e, f2) →
  tick_flight 0 (busy_with c s2 o e, f2) = Done (busy_with c s3 o' e', f3) →
  block_assert_conservation (busy_with c s3 o' e') = Done tt →
  block_tick (busy_with c s o e) f = Done (busy_with c s3 o' e', f3).
Proof.
  intros H1 H2 H3 H4. unfold block_tick. rewrite H1. cbn [mbind outcome_bind].
  change (tick_waiting 1 (busy_with c s1 o e)) with (Done (busy_with c s1 o e)). cbn [mbind outcome_bind].
  rewrite H2. cbn [mbind outcome_bind].
  change (tick_start 1 (busy_with c s2 o e, f2)) with (Done (busy_with c s2 o e, f2)). cbn [mbind outcome_bind].
  rewrite H3. cbn [mbind outcome_bind].
  change (tick_flight 1 (busy_with c s3 o' e', f3)) with (Done (busy_with c s3 o' e', f3)).
  cbn [mbind outcome_bind fst]. by rewrite H4.
Qed.

Lemma waiting_step c r k d o e :
  1 ≤ k < U32 → tick_waiting 0 (busy_with c (BWaiting r k d) o e)
  = Done (busy_with c (if k - 1 =? 0 then BDmaReady r d else BWaiting r (k - 1) d) o e).
Proof. intros Hk. unfold tick_waiting. cbn [vec_get]. cbn -[sub_u32 Z.sub Z.eqb]. by rewrite sub_u32_exact. Qed.

Lemma tick_wait c r k d e f :
  1 < k < U32 →
  block_tick (busy_with c (BWaiting r k d) [] e) f = Done (busy_with c (BWaiting r (k - 1) d) [] e, f).
Proof.
  intros Hk. apply (tick_busy c _ (BWaiting r (k - 1) d) (BWaiting r (k - 1) d) _ _ _ _ _ f f);
    [|reflexivity|reflexivity|by apply busy_conserved].
  rewrite waiting_step by lia. by rewrite (proj2 (Z.eqb_neq _ _)) by lia.
Qed.

Lemma ticks_wait c r d e f (n : nat) k :
  Z.of_nat n < k < U32 →
  block_ticks n (busy_with c (BWaiting r k d) [] e) f = Done (busy_with c (BWaiting r (k - Z.of_nat n) d) [] e, f).
Proof.
  revert k. induction n as [|n IH]; intros k Hk; cbn [block_ticks].
  - by rewrite Z.sub_0_r.
  - rewrite tick_wait by lia. cbn [mbind outcome_bind fst snd]. rewrite IH by lia. do 4 f_equal. lia.
Qed.

(** The transaction starts and is authorized in the tick in which the latency ends. *)
Lemma tick_launch c r d e f data f0 idx f1 tx :
  read_block (bc_storage c) (br_block_number r) = Done (Some data) →
  submit f (dma_request (bc_storage_agent c) d (br_target_object r) (br_target_offset r)
    (bs_block_size (bc_storage c)) Write) (Some data) = Done (f0, idx) →
  advance_if_live f0 idx = Done f1 → vec_get idx (fab_transactions f1) = Done tx →
  is_terminal (tx_state tx) = false →
  block_tick (busy_with c (BWaiting r 1 d) [] e) f = Done (busy_with c (BDmaInFlight r d idx) [] e, f1).
Proof.
  intros Hb Hs Ha Ht Hn. apply (tick_busy c _ (BDmaReady r d) (BDmaInFlight r d idx) _ _ _ _ _ f f0);
    [by apply waiting_step| | |by apply busy_conserved].
  - unfold tick_start. cbn -[read_block submit dma_request]. rewrite Hb.
    cbn -[submit dma_request]. rewrite Hs. reflexivity.
  - unfold tick_flight. cbn [snd]. change (vec_get 0 (bc_slots (busy_with c (BDmaInFlight r d idx) [] e)))
      with (Done (BDmaInFlight r d idx)). cbn [mbind outcome_bind]. rewrite Ha. cbn [mbind outcome_bind].
    rewrite Ht. cbn [mbind outcome_bind]. by rewrite Hn.
Qed.

Lemma tick_fly c r d idx e f f1 tx :
  advance_if_live f idx = Done f1 → vec_get idx (fab_transactions f1) = Done tx →
  is_terminal (tx_state tx) = false →
  block_tick (busy_with c (BDmaInFlight r d idx) [] e) f = Done (busy_with c (BDmaInFlight r d idx) [] e, f1).
Proof.
  intros Ha Ht Hn. apply (tick_busy c _ (BDmaInFlight r d idx) (BDmaInFlight r d idx) _ _ _ _ _ f f);
    [reflexivity|reflexivity| |by apply busy_conserved].
  unfold tick_flight. change (vec_get 0 (bc_slots (busy_with c (BDmaInFlight r d idx) [] e)))
    with (Done (BDmaInFlight r d idx)). cbn [mbind outcome_bind]. rewrite Ha. cbn [mbind outcome_bind].
  rewrite Ht. cbn [mbind outcome_bind]. by rewrite Hn.
Qed.

Lemma tick_land c r d idx e f f1 tx g0 g1 :
  advance_if_live f idx = Done f1 → vec_get idx (fab_transactions f1) = Done tx →
  tx_state tx = Committed → bc_slot_generations c = [g0; g1] → 0 ≤ e < u64_max →
  block_tick (busy_with c (BDmaInFlight r d idx) [] e) f
  = Done (busy_with c (BCompleted (mkBlockCompletion (mkHandle 0 g0) (br_requester r) (br_block_number r) Success
      (br_delegation_id r))) [0%nat] (e + 1), destroy_domain f1 d).
Proof.
  intros Ha Ht Hn Hg He. apply (tick_busy c _ (BDmaInFlight r d idx) (BDmaInFlight r d idx) _ _ _ _ _ f f);
    [reflexivity|reflexivity| |by apply done_conserved].
  unfold tick_flight. change (vec_get 0 (bc_slots (busy_with c (BDmaInFlight r d idx) [] e)))
    with (Done (BDmaInFlight r d idx)). cbn [mbind outcome_bind]. rewrite Ha. cbn [mbind outcome_bind].
  rewrite Ht. cbn [mbind outcome_bind]. unfold terminal_status. rewrite Hn.
  cbn [is_terminal mbind outcome_bind]. change (bc_slot_generations (busy_with c _ _ _)) with (bc_slot_generations c).
  rewrite Hg. cbn [vec_get unwrap lookup list_lookup mbind outcome_bind].
  change (bc_event_sequence _) with e.
  rewrite (proj2 (checked_add_Some e 1 (e + 1))) by (unfold u64_max in *; split; lia). reflexivity.
Qed.

Lemma consume_done c k e g0 g1 :
  bc_slot_generations c = [g0; g1] → 0 ≤ g0 < u64_max →
  block_consume_completion (busy_with c (BCompleted k) [0%nat] e)
  = Done (mkBlock [BFree; BFree] [g0 + 1; g1] [] (bc_storage c) (bc_latency c) (bc_storage_agent c) e, Some k).
Proof.
  intros Hg Hb. unfold block_consume_completion, busy_with. rewrite Hg.
  cbn -[add_u64 block_assert_conservation]. rewrite add_u64_exact by (unfold is_u64, u64_max in *; lia).
  cbn [mbind outcome_bind]. unfold block_assert_conservation, debug_assert. cbn. by destruct debug_build.
Qed.

(** ** Storage *)
Record storage_wf (s : BlockStorage) : Prop := {
  sw_size : 0 < bs_block_size s;
  sw_count : 0 ≤ bs_num_blocks s;
  sw_length : zlen (bs_data s) = bs_num_blocks s * bs_block_size s;
  sw_range : bs_num_blocks s * bs_block_size s < U64;
}.

Definition block_contents (s : BlockStorage) (k : Z) : list Z :=
  slice (k * bs_block_size s) (bs_block_size s) (bs_data s).

Lemma block_end s k : storage_wf s → 0 ≤ k < bs_num_blocks s →
  0 ≤ k * bs_block_size s ∧ k * bs_block_size s + bs_block_size s ≤ bs_num_blocks s * bs_block_size s.
Proof. intros [] Hk. nia. Qed.

Lemma block_range s k : storage_wf s → 0 ≤ k < bs_num_blocks s →
  mul_u64 k (bs_block_size s) = Done (k * bs_block_size s) ∧
  add_u64 (k * bs_block_size s) (bs_block_size s) = Done (k * bs_block_size s + bs_block_size s) ∧
  vec_slice (k * bs_block_size s) (k * bs_block_size s + bs_block_size s) (bs_data s)
    = Done (block_contents s k).
Proof.
  intros Hs Hk. destruct (block_end s k Hs Hk). destruct Hs as [Hz Hc Hl Hr]. split_and!.
  - unfold mul_u64. apply checked_or_wrap_exact. symmetry. apply wrap64_id. unfold is_u64. lia.
  - apply add_u64_exact. unfold is_u64. lia.
  - unfold vec_slice, zlen in *. rewrite (proj2 (Z.leb_le _ _)), (proj2 (Z.leb_le _ _)) by lia.
    cbn [andb]. unfold block_contents. do 2 f_equal. lia.
Qed.

Lemma read_block_Ok s k :
  storage_wf s → 0 ≤ k < bs_num_blocks s → read_block s k = Done (Some (block_contents s k)).
Proof.
  intros Hs Hk. destruct (block_range s k Hs Hk) as (H1&H2&H3). unfold read_block.
  rewrite (proj2 (Z.leb_gt _ _)) by lia. rewrite H1. cbn [mbind outcome_bind]. rewrite H2.
  cbn [mbind outcome_bind]. by rewrite H3.
Qed.

Lemma block_contents_length s k :
  storage_wf s → 0 ≤ k < bs_num_blocks s → zlen (block_contents s k) = bs_block_size s.
Proof.
  intros Hs Hk. destruct (block_end s k Hs Hk). destruct Hs as [Hz Hc Hl Hr].
  apply length_slice; unfold zlen in *; lia.
Qed.

Lemma submit_accepted c r f c1 f1 h :
  block_idle c → block_submit c r f = Done (c1, f1, Accepted h) →
  ∃ d g0 g1, delegated f (br_target_object r) (br_target_offset r) (bs_block_size (bc_storage c)) Perm.WRITE d f1 ∧
    c1 = busy_with c (BWaiting r (Z.max (bc_latency c) 1) d) [] (bc_event_sequence c) ∧
    bc_slot_generations c = [g0; g1] ∧ h = mkHandle 0 g0 ∧ br_block_number r < bs_num_blocks (bc_storage c).
Proof.
  intros [Hs Ho (g0&g1&Hg&_) _ _] Hsub. unfold block_submit in Hsub. destruct (_ && _); [done|].
  destruct (Z.leb_spec (bs_num_blocks (bc_storage c)) (br_block_number r)); [done|]. rewrite Hs in Hsub.
  cbn [position b_is_free] in Hsub.
  destruct (match br_source_authority_id r with Some _ => _ | None => _ end) as [[f2 [d|]]|] eqn:Ed; [|done..].
  cbn [mbind outcome_bind] in Hsub. rewrite Hg in Hsub. cbn [vec_get unwrap lookup list_lookup mbind outcome_bind] in Hsub.
  run_binds Hsub. guards. exists d, g0, g1. simplify_eq. split; [|split; [|done]].
  - destruct (br_source_authority_id r); [by eapply delegate_id_delegated|by eapply delegate_span_delegated].
  - unfold busy_with, set_bc_slot. by rewrite Hs, Ho, Hg.
Qed.

(** C29: A block read is end-to-end correct.  Take an idle controller on well-formed
    storage, and a fabric of well-formed placement that has placed the target span
    and has a transaction identity left.  An accepted request completes after exactly max(latency, 1) + 2
    ticks: one tick earlier no byte of memory has changed and nothing is ready; then
    the target span holds the contents of the block, the rest of memory is
    untouched, the DMA domain is gone, and consuming the completion yields the
    handle of the acceptance with status success and frees the slot. *)
Theorem block_read_end_to_end c r f c1 f1 h n base :
  block_idle c → storage_wf (bc_storage c) → 0 ≤ br_block_number r → placement_wf f →
  add_u64 (fab_next_tx_id f) 1 = Done n →
  dma_placed f (br_target_object r) (br_target_offset r) (bs_block_size (bc_storage c)) base →
  block_submit c r f = Done (c1, f1, Accepted h) →
  let l := Z.to_nat (Z.max (bc_latency c) 1) in
  (∃ c' f', block_ticks (l + 1) c1 f1 = Done (c', f') ∧ block_completion_count c' = 0%nat ∧
     fab_memory f' = fab_memory f) ∧
  ∃ c' f' c'', block_ticks (l + 2) c1 f1 = Done (c', f') ∧
    fab_memory f' = splice (base + br_target_offset r)
                      (block_contents (bc_storage c) (br_block_number r)) (fab_memory f) ∧
    fab_domains f' !! fab_next_domain_id f = None ∧
    block_consume_completion c' = Done (c'', Some (mkBlockCompletion h (br_requester r)
      (br_block_number r) Success (br_delegation_id r))) ∧
    bc_slots c'' = [BFree; BFree] ∧ bc_completion_order c'' = [].
Proof.
  intros Hidle Hst Hk Hpw Hn Hpl Hsub l.
  destruct (submit_accepted _ _ _ _ _ _ Hidle Hsub) as (d&g0&g1&Hdel&->&Hg&->&Hlt).
  pose proof (read_block_Ok _ _ Hst (conj Hk Hlt)) as Hrd.
  destruct (dma_run f f1 _ _ _ d (bc_storage_agent c) Write
    (Some (block_contents (bc_storage c) (br_block_number r))) n base Hpw Hn Hdel Hpl) as
    (idx&fs&fa&fb&fc&ta&tb&tc&[Dsub Dau Dat Dal Dpr Dpt Dpl Dun Dco Dct Dst Dme _ Ddo _]); [intros _; eexists; split; [done|by apply block_contents_length]|].
  destruct Hidle as [_ _ (?&?&Hg'&Hg0) Hlat Hep]. rewrite Hg in Hg'. injection Hg' as <- <-.
  set (k := Z.max (bc_latency c) 1) in *. assert (1 ≤ k < U32) as Hkr by (unfold k, U32 in *; lia).
  pose proof (ticks_wait c r d (bc_event_sequence c) f1 (Z.to_nat (k - 1)) k ltac:(lia)) as Hw.
  replace (k - Z.of_nat (Z.to_nat (k - 1))) with 1 in Hw by lia.
  pose proof (tick_launch c r d (bc_event_sequence c) f1 _ _ _ _ _ Hrd Dsub Dau Dat Dal) as H1.
  pose proof (tick_fly c r d idx (bc_event_sequence c) _ _ _ Dpr Dpt Dpl) as H2.
  pose proof (tick_land c r d idx (bc_event_sequence c) _ _ _ _ _ Dco Dct Dst Hg Hep) as H3.
  assert (block_ticks (l + 1) (busy_with c (BWaiting r k d) [] (bc_event_sequence c)) f1
    = Done (busy_with c (BDmaInFlight r d idx) [] (bc_event_sequence c), fb)) as H4.
  { replace (l + 1)%nat with (Z.to_nat (k - 1) + 2)%nat by (unfold l; lia).
    rewrite (block_ticks_app _ _ _ _ _ _ Hw). cbn [block_ticks]. rewrite H1. cbn [mbind outcome_bind fst snd].
    by rewrite H2. }
  split; [by eexists _, _|]. eexists _, _, _. split_and!.
  - replace (l + 2)%nat with (l + 1 + 1)%nat by lia. rewrite (block_ticks_app _ _ _ _ _ _ H4).
    cbn [block_ticks]. by rewrite H3.
  - exact Dme.
  - destruct Hdel as (<-&_). cbn. apply lookup_delete_eq.
  - by apply (consume_done c _ _ g0 g1).
  - done.
  - done.
Qed.
End end_to_end.

(** C31: Over every history of the block controller, whatever the fabric does between
    operations, each accepted request is answered at most once, under the handle
    and to the requester it was accepted with, completions are consumed in the
    order they finished, and a request that has not been answered holds a slot. *)
Theorem block_requests_answered `{Profile} (c : BlockController) l :
  sd_history c l → answers_ok (block_view c) l.
Proof. intros Hh. exact (sd_history_answers c l Hh). Qed.

(** ** A concrete read

    Block 1 of a store of two four-byte blocks is read into object 0 at offset 8. *)
Section demo.
#[local] Instance checked_build : Profile := true.

Definition demo_storage : BlockStorage := mkStorage [1; 2; 3; 4; 5; 6; 7; 8] 4 2.
Definition demo_controller : BlockController := block_new demo_storage 2 7.
Definition demo_block_request : BlockRequest := mkBlockRequest 1 (mkRequester 3 0) 0 8 0 None None.

Definition demo_submitted : BlockController * Fabric :=
  match block_submit demo_controller demo_block_request two_objects with
  | Done (c, f, _) => (c, f)
  | Panic => (demo_controller, two_objects)
  end.
Definition demo_ticked (n : nat) : BlockController * Fabric :=
  match block_ticks n demo_submitted.1 demo_submitted.2 with Done x => x | Panic => demo_submitted end.

Lemma demo_placed : dma_placed two_objects 0 8 4 16.
Proof. split; try (vm_compute; reflexivity). - unfold U64. lia. - vm_compute. discriminate. Qed.

Lemma demo_idle : block_idle demo_controller.
Proof. split; try reflexivity; [by exists 0, 0|done..]. Qed.

Lemma block_read_end_to_end_witness :
  ∃ c' f', block_ticks 4 demo_submitted.1 demo_submitted.2 = Done (c', f') ∧
    slice 24 4 (fab_memory f') = [5; 6; 7; 8].
Proof.
  destruct (block_read_end_to_end demo_controller demo_block_request two_objects demo_submitted.1
    demo_submitted.2 (mkHandle 0 0) 1 16) as [_ (c'&f'&c''&Ht&Hm&_)].
  - exact demo_idle.
  - split; vm_compute; congruence.
  - vm_compute. discriminate.
  - intros o b. apply (reach_inv _ _ two_objects_reach).
  - vm_compute. reflexivity.
  - exact demo_placed.
  - vm_compute. reflexivity.
  - exists c', f'. split; [exact Ht|]. rewrite Hm. vm_compute. reflexivity.
Defined.

Definition demo_issue : SlotEvent := Issue (mkHandle 0 0) (mkRequester 3 0).
Definition demo_finish : SlotEvent := Finish (mkHandle 0 0) (mkRequester 3 0).

Lemma demo_tick_step n l es :
  sd_history (demo_ticked n).1 l →
  block_tick (demo_ticked n).1 (demo_ticked n).2 = Done ((demo_ticked (S n)).1, (demo_ticked (S n)).2) →
  new_finishes (block_view (demo_ticked n).1) (block_view (demo_ticked (S n)).1) = es →
  sd_history (demo_ticked (S n)).1 (l ++ es).
Proof.
  intros Hh Ht <-. apply (sd_next _ _ _ _ Hh). exact (bstep_tick _ _ _ _ Ht).
Qed.

Lemma demo_history0 : sd_history (demo_ticked 0).1 ([] ++ [demo_issue]).
Proof.
  apply (sd_next demo_controller); [by apply sd_start; exists demo_storage, 2, 7|].
  apply (bstep_submit demo_controller demo_block_request two_objects (demo_ticked 0).1 (demo_ticked 0).2
    (Accepted (mkHandle 0 0))). vm_compute. reflexivity.
Qed.

Lemma demo_history : sd_history (demo_ticked 4).1 [demo_issue; demo_finish].
Proof.
  apply (demo_tick_step 3 [demo_issue] [demo_finish]); [|vm_compute; reflexivity..].
  apply (demo_tick_step 2 [demo_issue] []); [|vm_compute; reflexivity..].
  apply (demo_tick_step 1 [demo_issue] []); [|vm_compute; reflexivity..].
  apply (demo_tick_step 0 [demo_issue] []); [|vm_compute; reflexivity..].
  exact demo_history0.
Qed.

Lemma block_requests_answered_witness :
  retired [demo_issue; demo_finish] = [] ∧
  ∃ i, slot_request (block_view (demo_ticked 4).1) i = Some (mkHandle 0 0, mkRequester 3 0).
Proof.
  split; [reflexivity|].
  destruct (block_requests_answered (demo_ticked 4).1 _ demo_history) as (_&_&_&_&Hk).
  destruct (Hk (mkHandle 0 0, mkRequester 3 0)) as [Hr|Hs]; [left|inversion Hr|exact Hs].
Defined.
End demo.
