(* ===== verification/NicFacts.v ===== *)
(** * Correctness of the network device

    The controller implements the same request machine as the block device;
    frames travel unchanged between the queues and memory; the receive queue is
    bounded. *)

From S2P Require Import Prelude State Extents ExtentsFacts Registry PointerFrames Fabric FabricTx.
From S2P Require Import FabricAuth FabricInv FabricSafety Block Nic SlotMachine Dma BlockFacts.

(** ** The controller as a request machine *)
Definition nic_slot_view (s : NicSlot) : SlotView :=
  match s with
  | NFree => VFree
  | NRxDmaReady r _ _ => VBusy (rxr_requester r)
  | NTxDmaReady r _ => VBusy (txr_requester r)
  | NDmaInFlight q _ _ _ _ _ => VBusy q
  | NCompleted k => VDone (ncp_handle k) (ncp_requester k)
  end.
Definition nic_view (c : NicController) : SlotMachine :=
  mkSlots (map nic_slot_view (nc_slots c)) (nc_slot_generations c) (nc_completion_order c).

Record nic_ready (c : NicController) : Prop := {
  nd_slots : length (nc_slots c) = 2%nat;
  nd_gens : length (nc_slot_generations c) = 2%nat;
  nd_nodup : NoDup (nc_completion_order c);
  nd_order i : i ∈ nc_completion_order c → ∃ k, nc_slots c !! i = Some (NCompleted k);
}.

(** An empty frame completes in the submission itself. *)
Inductive nic_step `{Profile} (c : NicController) : list SlotEvent → NicController → Prop :=
| nstep_inject frame c' ok : inject_rx c frame = (c', ok) → nic_step c [] c'
| nstep_take c' frame : take_tx c = (c', frame) → nic_step c [] c'
| nstep_ack : nic_step c [] (nic_acknowledge_attention c)
| nstep_rx r f c' f' res : submit_rx c r f = Done (c', f', res) →
    nic_step c (match res with
                | RxAccepted h => Issue h (rxr_requester r) :: new_finishes (nic_view c) (nic_view c')
                | _ => []
                end) c'
| nstep_tx r f c' f' res : submit_tx c r f = Done (c', f', res) →
    nic_step c (match res with TxAccepted h => [Issue h (txr_requester r)] | _ => [] end) c'
| nstep_tick f c' f' : nic_tick c f = Done (c', f') →
    nic_step c (new_finishes (nic_view c) (nic_view c')) c'
| nstep_consume c' x : nic_consume_completion c = Done (c', x) →
    nic_step c (match x with Some k => [Retire (ncp_handle k) (ncp_requester k)] | None => [] end) c'.

Section refinement.
Context `{Profile}.

Lemma nic_view_lookup c i s :
  nc_slots c !! i = Some s → sm_slots (nic_view c) !! i = Some (nic_slot_view s).
Proof.
  intros Hs. cbn. change (map nic_slot_view) with (fmap (M := list) nic_slot_view).
  by rewrite list_lookup_fmap, Hs.
Qed.
Lemma nic_view_insert i s slots :
  map nic_slot_view (<[i := s]> slots) = <[i := nic_slot_view s]> (map nic_slot_view slots).
Proof. apply list_fmap_insert. Qed.

(** Only slots, generations and the order matter. *)
Lemma nic_view_same c c' :
  nc_slots c' = nc_slots c → nc_slot_generations c' = nc_slot_generations c →
  nc_completion_order c' = nc_completion_order c → nic_ready c →
  nic_view c' = nic_view c ∧ nic_ready c'.
Proof.
  intros Hs Hg Ho [? ? ? Hor]. split; [unfold nic_view; by rewrite Hs, Hg, Ho|].
  split; rewrite ?Hs, ?Hg, ?Ho; try done.
Qed.

Lemma nic_set_slot c i s s' :
  nic_ready c → nc_slots c !! i = Some s → (∀ k, s ≠ NCompleted k) → nic_ready (set_nc_slot i s' c).
Proof.
  intros [Hl Hg Hn Ho] Hs Hk. split; cbn; rewrite ?length_insert; try done.
  intros j Hj. destruct (Ho j Hj) as [k Hjk].
  exists k. destruct (decide (i = j)) as [->|]; [congruence|by rewrite list_lookup_insert_ne].
Qed.

Lemma nic_set_slot_same c i s s' :
  nic_ready c → nc_slots c !! i = Some s → nic_slot_view s' = nic_slot_view s →
  (∀ k, s ≠ NCompleted k) → nic_view (set_nc_slot i s' c) = nic_view c ∧ nic_ready (set_nc_slot i s' c).
Proof.
  intros Hr Hs Hv Hk. split; [|by eapply nic_set_slot].
  unfold nic_view. cbn. rewrite nic_view_insert, Hv. f_equal. apply list_insert_id. by apply nic_view_lookup.
Qed.

Lemma nic_tick_start_view i c f c' f' :
  nic_ready c → nic_tick_start i (c, f) = Done (c', f') → nic_view c' = nic_view c ∧ nic_ready c'.
Proof.
  intros Hr Ht. unfold nic_tick_start in Ht. destruct (vec_get i (nc_slots c)) as [s|] eqn:E; [|done].
  apply vec_get_Done in E. cbn [mbind outcome_bind] in Ht. destruct s; guards; try done;
    run_binds Ht; guards; by eapply nic_set_slot_same.
Qed.

Lemma nic_complete_view c i q k :
  nic_ready c → sm_slots (nic_view c) !! i = Some (VBusy q) →
  (∃ g, nc_slot_generations c !! i = Some g ∧ ncp_handle k = handle_at i g) → ncp_requester k = q →
  sm_run (nic_view c) [Finish (ncp_handle k) (ncp_requester k)] (nic_view (nic_complete i k c)) ∧
  nic_ready (nic_complete i k c).
Proof.
  intros Hr Hv (g&Hgi&Hh) <-.
  assert (∃ s, nc_slots c !! i = Some s ∧ ∀ k, s ≠ NCompleted k) as (s&Hs&Hsk).
  { cbn in Hv. change (map nic_slot_view) with (fmap (M := list) nic_slot_view) in Hv.
    rewrite list_lookup_fmap in Hv. destruct (nc_slots c !! i) as [s|]; [|done]. exists s.
    split; [done|]. intros ? ->. done. }
  pose proof (nic_set_slot c i s (NCompleted k) Hr Hs Hsk) as [Hl Hg Hn Ho]. split.
  - rewrite Hh. apply sm_run_one. unfold nic_view at 2. cbn. rewrite nic_view_insert. cbn. rewrite Hh.
    by apply (sm_finish (nic_view c)).
  - split; cbn; try done.
    + apply NoDup_app. split_and!; [done| |apply NoDup_singleton].
      intros j Hj ->%list_elem_of_singleton. destruct (nd_order _ Hr i Hj). naive_solver.
    + intros j [Hj|Hj]%elem_of_app; [by apply Ho|].
      apply list_elem_of_singleton in Hj as ->. exists k.
      by rewrite list_lookup_insert_eq by (by eapply lookup_lt_Some).
Qed.

Lemma nic_tick_flight_view i c f c' f' :
  nic_ready c → nic_tick_flight i (c, f) = Done (c', f') →
  ∃ es, sm_run (nic_view c) es (nic_view c') ∧ Forall is_finish es ∧ nic_ready c'.
Proof.
  intros Hr Ht. unfold nic_tick_flight in Ht. destruct (vec_get i (nc_slots c)) as [s|] eqn:E; [|done].
  apply vec_get_Done in E. cbn [mbind outcome_bind] in Ht.
  destruct s as [| | |q op len dlg d idx|]; try (guards; exists []; split_and!; [constructor|constructor|done]).
  destruct (advance_if_live f idx) as [f1|]; [|done]. cbn [mbind outcome_bind] in Ht.
  destruct (vec_get idx (fab_transactions f1)) as [tx|]; [|done]. cbn [mbind outcome_bind] in Ht.
  destruct (is_terminal (tx_state tx)); [|guards; exists []; split_and!; [constructor|constructor|done]].
  destruct (nic_outcome tx op len) as [[[st n] sent]|]; [|done]. cbn [mbind outcome_bind] in Ht.
  set (c1 := match sent with Some b => _ | None => c end) in Ht.
  destruct (nic_view_same c c1) as [Hv Hr1]; [by destruct sent..|done|].
  destruct (vec_get i (nc_slot_generations c1)) as [g|] eqn:Eg; [|done]. apply vec_get_Done in Eg.
  cbn [mbind outcome_bind] in Ht. guards.
  match goal with |- context [nic_complete i ?k c1] =>
    destruct (nic_complete_view c1 i q k) as [Hrun Hr2]; [done| |by exists g|done|] end.
  { rewrite Hv. by apply nic_view_lookup in E. }
  rewrite Hv in Hrun. eexists. split_and!; [exact Hrun|by repeat constructor|done].
Qed.

Lemma nic_tick_view c f c' f' :
  nic_ready c → nic_tick c f = Done (c', f') →
  sm_run (nic_view c) (new_finishes (nic_view c) (nic_view c')) (nic_view c') ∧ nic_ready c'.
Proof.
  intros Hr Ht. unfold nic_tick in Ht.
  destruct (nic_tick_start 0 (c, f)) as [[c3 f3]|] eqn:E3; [|done]. cbn [mbind outcome_bind] in Ht.
  destruct (nic_tick_start 1 (c3, f3)) as [[c4 f4]|] eqn:E4; [|done]. cbn [mbind outcome_bind] in Ht.
  destruct (nic_tick_flight 0 (c4, f4)) as [[c5 f5]|] eqn:E5; [|done]. cbn [mbind outcome_bind] in Ht.
  destruct (nic_tick_flight 1 (c5, f5)) as [[c6 f6]|] eqn:E6; [|done]. cbn [mbind outcome_bind] in Ht.
  run_binds Ht. guards.
  apply nic_tick_start_view in E3 as [V3 R3]; [|done]. apply nic_tick_start_view in E4 as [V4 R4]; [|done].
  apply nic_tick_flight_view in E5 as (es&Hrun&Hes&R5); [|done].
  apply nic_tick_flight_view in E6 as (es'&Hrun'&Hes'&R6); [|done]. split; [|done].
  rewrite V4, V3 in Hrun. pose proof (sm_run_app _ _ _ _ _ Hrun Hrun') as Hall.
  erewrite new_finishes_run; [exact Hall|exact Hall|by apply Forall_app].
Qed.

(** A free slot that becomes busy. *)
Lemma nic_issue_view c c1 i g s :
  nic_ready c → nc_slots c !! i = Some NFree → nc_slot_generations c !! i = Some g →
  nic_view c1 = nic_view c → (∃ q, nic_slot_view s = VBusy q) →
  ∀ q, nic_slot_view s = VBusy q →
  sm_run (nic_view c) [Issue (handle_at i g) q] (nic_view (set_nc_slot i s c1)).
Proof.
  intros Hr Hs Hg Hv _ q Hq. apply sm_run_one.
  unfold nic_view at 2. cbn. rewrite nic_view_insert, Hq. unfold nic_view in Hv. injection Hv as Hv1 -> ->.
  rewrite Hv1. apply (sm_accept (nic_view c)); [by apply (nic_view_lookup c i NFree)|done].
Qed.

Lemma new_finishes_none m m' : sm_order m' = sm_order m → new_finishes m m' = [].
Proof. intros Ho. unfold new_finishes. by rewrite Ho, drop_all. Qed.

Lemma submit_tx_view c r f c' f' res :
  nic_ready c → submit_tx c r f = Done (c', f', res) →
  sm_run (nic_view c) (match res with TxAccepted h => [Issue h (txr_requester r)] | _ => [] end) (nic_view c') ∧
  nic_ready c'.
Proof.
  intros Hr Hs. unfold submit_tx in Hs.
  destruct (position _ _) as [i|] eqn:Ep; [|guards; split; [constructor|done]].
  apply position_Some in Ep as (s&Hi&Hfree). destruct s; try discriminate Hfree.
  destruct (delegate_dma_span_from_authority_id _ _ _ _ _ _ _) as [[f1 [d|]]|]; [| |done];
    cbn [mbind outcome_bind] in Hs; [|guards; split; [constructor|done]].
  destruct (vec_get i (nc_slot_generations c)) as [g|] eqn:Eg; [|done]. apply vec_get_Done in Eg.
  cbn [mbind outcome_bind] in Hs. run_binds Hs. guards.
  split; [by eapply nic_issue_view; eauto|by eapply nic_set_slot].
Qed.

Lemma submit_rx_view c r f c' f' res :
  nic_ready c → submit_rx c r f = Done (c', f', res) →
  sm_run (nic_view c)
    (match res with
     | RxAccepted h => Issue h (rxr_requester r) :: new_finishes (nic_view c) (nic_view c')
     | _ => []
     end) (nic_view c') ∧ nic_ready c'.
Proof.
  intros Hr Hs. unfold submit_rx in Hs.
  destruct (position _ _) as [i|] eqn:Ep; [|guards; split; [constructor|done]].
  apply position_Some in Ep as (s&Hi&Hfree). destruct s; try discriminate Hfree.
  destruct (nc_rx_queue c) as [|frame rest]; [guards; split; [constructor|done]|].
  destruct (vec_get i (nc_slot_generations c)) as [g|] eqn:Eg; [|done]. apply vec_get_Done in Eg.
  cbn [mbind outcome_bind] in Hs. destruct (nic_view_same c (set_nc_rx rest c)) as [Hv Hr1]; [done..|].
  destruct (zlen frame =? 0).
  - set (k := mkNicCompletion _ _ _ _ _ _) in Hs. run_binds Hs. guards.
    (* the request is busy only in between *)
    set (c2 := set_nc_slot i (NDmaInFlight (rxr_requester r) OpRx 0 None 0 0) (set_nc_rx rest c)).
    assert (nic_ready c2) as Hr2 by (by eapply nic_set_slot).
    assert (sm_run (nic_view c) [Issue (handle_at i g) (rxr_requester r)] (nic_view c2)) as Hrun
      by (by eapply nic_issue_view; eauto).
    destruct (nic_complete_view c2 i (rxr_requester r) k) as [Hrun2 Hr3]; [done| |by exists g|done|].
    { apply (nic_view_lookup c2 i (NDmaInFlight (rxr_requester r) OpRx 0 None 0 0)). cbn.
      by rewrite list_lookup_insert_eq by (by eapply lookup_lt_Some). }
    assert (nic_complete i k c2 = nic_complete i k (set_nc_rx rest c)) as Heq.
    { unfold nic_complete, c2, set_nc_slot. cbn. by rewrite list_insert_insert_eq. }
    rewrite Heq in Hrun2, Hr3. split; [|done].
    assert (new_finishes (nic_view c2) (nic_view (nic_complete i k (set_nc_rx rest c)))
      = [Finish (ncp_handle k) (ncp_requester k)]) as Hf by (apply new_finishes_run; [done|by repeat constructor]).
    unfold new_finishes in Hf |- *. change (sm_order (nic_view c)) with (sm_order (nic_view c2)).
    rewrite Hf. by apply (sm_run_app _ _ _ _ _ Hrun).
  - destruct (delegate_dma_span_from_authority_id _ _ _ _ _ _ _) as [[f1 [d|]]|]; [| |done];
      cbn [mbind outcome_bind] in Hs; [|guards; split; [constructor|done]].
    run_binds Hs. guards. rewrite new_finishes_none by done.
    split; [by eapply nic_issue_view; eauto|by eapply nic_set_slot].
Qed.

Lemma nic_consume_view c c' x :
  nic_ready c → nic_consume_completion c = Done (c', x) →
  sm_run (nic_view c)
    (match x with Some k => [Retire (ncp_handle k) (ncp_requester k)] | None => [] end) (nic_view c') ∧
  nic_ready c'.
Proof.
  intros Hr Hs. unfold nic_consume_completion in Hs.
  destruct (nc_completion_order c) as [|i rest] eqn:Eo; [guards; split; [constructor|done]|].
  destruct Hr as [Hl Hg Hn Ho]. destruct (Ho i) as [k Hk]; [rewrite Eo; set_solver|].
  cbn [nc_slots set_nc_order] in Hs. rewrite (vec_get_lookup _ _ _ Hk) in Hs.
  cbn [mbind outcome_bind] in Hs.
  destruct (vec_get i _) as [g|] eqn:Eg; [|done]. apply vec_get_Done in Eg. cbn [mbind outcome_bind] in Hs.
  destruct (checked_add g 1) as [g'|] eqn:Eg'; [|done]. apply checked_add_Some in Eg' as [_ ->].
  cbn [mbind outcome_bind unwrap] in Hs.
  run_binds Hs. guards. rewrite Eo in Hn. apply NoDup_cons in Hn as [Hni Hn]. split.
  - apply sm_run_one. unfold nic_view at 2. cbn. rewrite nic_view_insert. cbn.
    apply (sm_retire (nic_view c) i rest g); [done| |done]. by apply (nic_view_lookup c i (NCompleted k)).
  - split; cbn; rewrite ?length_insert; try done. intros j Hj.
    destruct (Ho j) as [k' Hk']; [rewrite Eo; set_solver|]. exists k'.
    destruct (decide (i = j)) as [->|]; [done|by rewrite list_lookup_insert_ne].
Qed.

Lemma nic_queue_view c c' :
  nic_ready c →
  (∃ frame ok, inject_rx c frame = (c', ok)) ∨ (∃ frame, take_tx c = (c', frame)) ∨
    c' = nic_acknowledge_attention c →
  sm_run (nic_view c) [] (nic_view c') ∧ nic_ready c'.
Proof.
  intros Hr Hq. destruct (nic_view_same c c') as [-> ?]; try done; try (split; [constructor|done]).
  all: destruct Hq as [(frame&ok&Hi)|[(frame&Ht)| ->]]; [unfold inject_rx in Hi|unfold take_tx in Ht|done];
    repeat case_match; by simplify_eq.
Qed.

Lemma nic_step_view c es c' :
  nic_ready c → nic_step c es c' → sm_run (nic_view c) es (nic_view c') ∧ nic_ready c'.
Proof.
  intros Hr []; [apply nic_queue_view; eauto..|by eapply submit_rx_view|by eapply submit_tx_view|
    by eapply nic_tick_view|by eapply nic_consume_view].
Qed.
End refinement.

#[export] Program Instance nic_device `{Profile} : SlotDevice NicController := {|
  sd_view := nic_view;
  sd_ready := nic_ready;
  sd_step := nic_step;
  sd_new c := ∃ agent, c = nic_new agent;
  sd_refines := nic_step_view;
|}.
Next Obligation.
  intros ? c (?&->). split; [done|]. split; cbn; try done; [constructor|set_solver].
Qed.

(** An accepted empty frame leaves the queue and is answered with the acceptance: its
    slot holds the completion, which joins the order, and the fabric is not used. *)
Definition answered_at_once (c : NicController) (r : NicRxRequest) (f : Fabric) (c' : NicController) (f' : Fabric)
    (h : RequestHandle) : Prop :=
  ∃ i, nc_slots c !! i = Some NFree ∧ rh_slot h = Z.of_nat i ∧ f' = f ∧ nc_rx_queue c' = tail (nc_rx_queue c) ∧
    nc_slots c' = <[i := NCompleted (mkNicCompletion h (rxr_requester r) OpRx Success 0 (rxr_delegation_id r))]> (nc_slots c) ∧
    nc_completion_order c' = nc_completion_order c ++ [i].

Lemma submit_rx_empty `{Profile} c r f c' f' h : head (nc_rx_queue c) = Some [] →
  submit_rx c r f = Done (c', f', RxAccepted h) → answered_at_once c r f c' f' h.
Proof.
  unfold submit_rx. intros Hq. destruct (position n_is_free (nc_slots c)) as [i|] eqn:Hp; [|done].
  destruct (nc_rx_queue c) as [|[|] rest] eqn:Eq; [done| |done].
  destruct (vec_get i _) as [g|]; [|done]. cbn [mbind outcome_bind zlen length Z.eqb Z.of_nat].
  destruct (nic_assert_conservation _); [|done]. cbn [mbind outcome_bind]. intros [= <- <- <-].
  apply position_Some in Hp as (s&Hs&Hf). exists i. rewrite Eq. by destruct s.
Qed.

(** C32: Over every history of the network controller each accepted request is
    answered at most once, under the handle and to the requester it was accepted
    with, completions are consumed in the order they finished, and a request that
    has not been answered holds a slot; and a reception accepted while the first
    frame queued is empty completes with its acceptance, successfully and with
    length zero, without touching the fabric. *)
Theorem nic_requests_answered `{Profile} (c : NicController) l :
  sd_history c l → answers_ok (nic_view c) l ∧
  ∀ r f c' f' h, head (nc_rx_queue c) = Some [] → submit_rx c r f = Done (c', f', RxAccepted h) →
    answered_at_once c r f c' f' h.
Proof. intros Hh. split; [exact (sd_history_answers c l Hh)|]. intros. by apply submit_rx_empty. Qed.

(** ** One transfer, from submission to completion *)

(** A controller with slot 1 free, and the sink, slot 0 and the order given. *)
Definition nic_with (c : NicController) (sink : list (list Z)) (s : NicSlot) (order : list nat) : NicController :=
  mkNic (nc_rx_queue c) sink (nc_event_sequence c) (nc_attention_pending c) [s; NFree]
    (nc_slot_generations c) order (nc_dma_agent c).

Record nic_idle (c : NicController) (g : Z) : Prop := {
  ni_slots : nc_slots c = [NFree; NFree];
  ni_order : nc_completion_order c = [];
  ni_gens : ∃ g1, nc_slot_generations c = [g; g1];
  ni_gen : 0 ≤ g < u64_max;
}.

Section end_to_end.
Context `{Profile}.

Fixpoint nic_ticks (n : nat) (c : NicController) (f : Fabric) : outcome (NicController * Fabric) :=
  match n with
  | O => Done (c, f)
  | S n => x ← nic_tick c f; nic_ticks n x.1 x.2
  end.

Lemma nic_conserved c sink s :
  n_is_completed s = false → nic_assert_conservation (nic_with c sink s []) = Done tt.
Proof.
  intros Hs. unfold nic_assert_conservation. destruct s; try discriminate Hs; cbn; unfold debug_assert;
    by destruct debug_build.
Qed.
Lemma nic_done_conserved c sink k : nic_assert_conservation (nic_with c sink (NCompleted k) [0%nat]) = Done tt.
Proof. unfold nic_assert_conservation, debug_assert. cbn. by destruct debug_build. Qed.

Lemma nic_tick_with c k s s2 s3 o k' o' f f2 f3 :
  nic_tick_start 0 (nic_with c k s o, f) = Done (nic_with c k s2 o, f2) →
  nic_tick_flight 0 (nic_with c k s2 o, f2) = Done (nic_with c k' s3 o', f3) →
  nic_assert_conservation (nic_with c k' s3 o') = Done tt →
  nic_tick (nic_with c k s o) f = Done (nic_with c k' s3 o', f3).
Proof.
  intros H2 H3 H4. unfold nic_tick. rewrite H2. cbn [mbind outcome_bind].
  change (nic_tick_start 1 (nic_with c k s2 o, f2)) with (Done (nic_with c k s2 o, f2)). cbn [mbind outcome_bind].
  rewrite H3. cbn [mbind outcome_bind].
  change (nic_tick_flight 1 (nic_with c k' s3 o', f3)) with (Done (nic_with c k' s3 o', f3)).
  cbn [mbind outcome_bind fst]. by rewrite H4.
Qed.

(** One phase of a transfer in flight *)
Lemma nic_fly c k q op len dlg d idx f f1 tx :
  advance_if_live f idx = Done f1 → vec_get idx (fab_transactions f1) = Done tx →
  is_terminal (tx_state tx) = false →
  let s := NDmaInFlight q op len dlg d idx in
  nic_tick_flight 0 (nic_with c k s [], f) = Done (nic_with c k s [], f1).
Proof.
  intros Ha Ht Hn s. unfold nic_tick_flight. change (vec_get 0 (nc_slots (nic_with c k s []))) with (Done s).
  cbn [mbind outcome_bind s]. rewrite Ha. cbn [mbind outcome_bind]. rewrite Ht. cbn [mbind outcome_bind].
  by rewrite Hn.
Qed.

Lemma nic_land c k q op len dlg d idx f f1 tx g g1 st n sent :
  advance_if_live f idx = Done f1 → vec_get idx (fab_transactions f1) = Done tx →
  is_terminal (tx_state tx) = true → nic_outcome tx op len = Done (st, n, sent) →
  nc_slot_generations c = [g; g1] →
  nic_tick_flight 0 (nic_with c k (NDmaInFlight q op len dlg d idx) [], f)
  = Done (nic_with c (k ++ from_option (λ b, [b]) [] sent)
            (NCompleted (mkNicCompletion (mkHandle 0 g) q op st n dlg)) [0%nat], destroy_domain f1 d).
Proof.
  intros Ha Ht Hn Ho Hg. unfold nic_tick_flight.
  change (vec_get 0 (nc_slots (nic_with c k (NDmaInFlight q op len dlg d idx) [])))
    with (Done (NDmaInFlight q op len dlg d idx)).
  cbn [mbind outcome_bind]. rewrite Ha. cbn [mbind outcome_bind]. rewrite Ht. cbn [mbind outcome_bind].
  rewrite Hn, Ho. cbn [mbind outcome_bind].
  destruct sent; cbn -[app]; rewrite Hg; cbn -[app]; unfold nic_complete, nic_with; cbn -[app];
    rewrite ?app_nil_r, ?Hg; done.
Qed.

Lemma nic_consume_done c sink k g g1 :
  nc_slot_generations c = [g; g1] → 0 ≤ g < u64_max →
  nic_consume_completion (nic_with c sink (NCompleted k) [0%nat])
  = Done (mkNic (nc_rx_queue c) sink (nc_event_sequence c) (nc_attention_pending c) [NFree; NFree]
            [g + 1; g1] [] (nc_dma_agent c), Some k).
Proof.
  intros Hg Hb. unfold nic_consume_completion, nic_with. rewrite Hg.
  cbn -[checked_add nic_assert_conservation].
  rewrite (proj2 (checked_add_Some g 1 (g + 1))) by (unfold u64_max in *; split; lia).
  cbn -[nic_assert_conservation].
  unfold nic_assert_conservation, debug_assert. cbn. by destruct debug_build.
Qed.

(** A transfer of either direction that sits ready in slot 0: two ticks leave
    memory alone and complete nothing, the third one commits and completes. *)
Lemma nic_transfer f f1 r data b idx fs fa fb fc ta tb tc c k s q op len dlg d g g1 sent :
  dma_flow f f1 r data b idx fs fa fb fc ta tb tc →
  nic_tick_start 0 (nic_with c k s [], f1) = Done (nic_with c k (NDmaInFlight q op len dlg d idx) [], fs) →
  nic_outcome tc op len = Done (Success, len, sent) → nc_slot_generations c = [g; g1] →
  nic_ticks 2 (nic_with c k s []) f1 = Done (nic_with c k (NDmaInFlight q op len dlg d idx) [], fb) ∧
  nic_ticks 3 (nic_with c k s []) f1
  = Done (nic_with c (k ++ from_option (λ b, [b]) [] sent)
            (NCompleted (mkNicCompletion (mkHandle 0 g) q op Success len dlg)) [0%nat], destroy_domain fc d).
Proof.
  intros [Dsub Dau Dat Dal Dpr Dpt Dpl Dun Dco Dct Dst _ _ _ _] Hstart Hout Hg.
  set (fl := NDmaInFlight q op len dlg d idx) in *.
  assert (nic_tick (nic_with c k s []) f1 = Done (nic_with c k fl [], fa)) as H1.
  { apply (nic_tick_with _ _ _ fl _ _ _ _ _ fs); [done|by eapply nic_fly|by apply nic_conserved]. }
  assert (nic_tick (nic_with c k fl []) fa = Done (nic_with c k fl [], fb)) as H2.
  { apply (nic_tick_with _ _ _ fl _ _ _ _ _ fa); [done|by eapply nic_fly|by apply nic_conserved]. }
  split; cbn [nic_ticks]; rewrite H1; cbn [mbind outcome_bind fst snd]; rewrite H2;
    cbn [mbind outcome_bind fst snd]; [done|].
  rewrite (nic_tick_with c k fl fl (NCompleted (mkNicCompletion (mkHandle 0 g) q op Success len dlg)) []
    (k ++ from_option (λ b, [b]) [] sent) [0%nat] fb fb (destroy_domain fc d)); [done|done| |apply nic_done_conserved].
  apply (nic_land c k q op len dlg d idx fb fc tc g g1 Success len sent); try done. by rewrite Dst.
Qed.

(** ** Reception *)
Lemma submit_rx_accepted c g r f c1 f1 h frame rest :
  nic_idle c g → nc_rx_queue c = frame :: rest → frame ≠ [] →
  submit_rx c r f = Done (c1, f1, RxAccepted h) →
  h = mkHandle 0 g ∧ ∃ d,
    delegated f (rxr_target_object r) (rxr_target_offset r) (zlen frame) Perm.WRITE d f1 ∧
    c1 = nic_with (set_nc_rx rest c) (nc_tx_sink c) (NRxDmaReady r frame d) [].
Proof.
  intros [Hs Ho (g1&Hg) _] Hq Hne Hsub. unfold submit_rx in Hsub. rewrite Hs in Hsub.
  cbn [position n_is_free] in Hsub. rewrite Hq in Hsub. rewrite Hg in Hsub.
  cbn [vec_get unwrap lookup list_lookup mbind outcome_bind] in Hsub.
  rewrite (proj2 (Z.eqb_neq (zlen frame) 0)) in Hsub by (destruct frame; [done|unfold zlen; cbn; lia]).
  destruct (delegate_dma_span_from_authority_id _ _ _ _ _ _ _) as [[f2 [d|]]|] eqn:Ed; [|done..].
  cbn [mbind outcome_bind] in Hsub. run_binds Hsub. injection Hsub as <- <- <-.
  split; [done|]. exists d. split; [by eapply delegate_id_delegated|].
  unfold nic_with, set_nc_slot. cbn. by rewrite Hs, Ho.
Qed.

(** The controller after one request has been served: slot 0 is free again under
    the next generation. *)
Definition nic_served (c : NicController) (rx tx : list (list Z)) (g g1 : Z) : NicController :=
  mkNic rx tx (nc_event_sequence c) (nc_attention_pending c) [NFree; NFree] [g + 1; g1] [] (nc_dma_agent c).

Lemma rx_run c g r f c1 f1 h frame rest n base :
  nic_idle c g → nc_rx_queue c = frame :: rest → frame ≠ [] → placement_wf f →
  add_u64 (fab_next_tx_id f) 1 = Done n →
  dma_placed f (rxr_target_object r) (rxr_target_offset r) (zlen frame) base →
  submit_rx c r f = Done (c1, f1, RxAccepted h) →
  (∃ c' f', nic_ticks 2 c1 f1 = Done (c', f') ∧ nic_completion_count c' = 0%nat ∧ fab_memory f' = fab_memory f) ∧
  ∃ c' f' g1, nic_ticks 3 c1 f1 = Done (c', f') ∧
    fab_memory f' = splice (base + rxr_target_offset r) frame (fab_memory f) ∧ same_space f f' ∧
    fab_domains f' !! fab_next_domain_id f = None ∧
    nic_consume_completion c' = Done (nic_served c rest (nc_tx_sink c) g g1,
      Some (mkNicCompletion h (rxr_requester r) OpRx Success (zlen frame) (rxr_delegation_id r))).
Proof.
  intros Hi Hq Hne Hpw Hn Hpl Hsub.
  destruct (submit_rx_accepted _ _ _ _ _ _ _ _ _ Hi Hq Hne Hsub) as (->&d&Hdel&->).
  destruct Hi as [Hs Ho (g1&Hg) Hgr].
  destruct (dma_run f f1 _ _ _ d (nc_dma_agent c) Write (Some frame) n base Hpw Hn Hdel Hpl)
    as (idx&fs&fa&fb&fc&ta&tb&tc&Hflow); [intros _; by exists frame|].
  destruct (nic_transfer _ _ _ _ _ _ _ _ _ _ _ _ _ (set_nc_rx rest c) (nc_tx_sink c) (NRxDmaReady r frame d)
    (rxr_requester r) OpRx (zlen frame) (rxr_delegation_id r) d g g1 None Hflow) as [H2 H3].
  { unfold nic_tick_start. cbn -[submit dma_request]. by rewrite (df_submit _ _ _ _ _ _ _ _ _ _ _ _ _ Hflow). }
  { unfold nic_outcome, terminal_status. by rewrite (df_state _ _ _ _ _ _ _ _ _ _ _ _ _ Hflow). }
  { done. }
  split; [eexists _, _; split_and!; [exact H2|done|apply Hflow]|].
  eexists _, _, g1. split; [exact H3|]. split_and!.
  - apply Hflow.
  - split; apply Hflow.
  - destruct Hdel as (<-&_). cbn. apply lookup_delete_eq.
  - rewrite (nic_consume_done _ _ _ g g1) by done. cbn [from_option]. by rewrite app_nil_r.
Qed.

(** ** Transmission *)
Lemma submit_tx_accepted c g r f c1 f1 h :
  nic_idle c g → submit_tx c r f = Done (c1, f1, TxAccepted h) →
  h = mkHandle 0 g ∧ ∃ d,
    delegated f (txr_source_object r) (txr_source_offset r) (txr_frame_len r) Perm.READ d f1 ∧
    c1 = nic_with c (nc_tx_sink c) (NTxDmaReady r d) [].
Proof.
  intros [Hs Ho (g1&Hg) _] Hsub. unfold submit_tx in Hsub. rewrite Hs in Hsub.
  cbn [position n_is_free] in Hsub.
  destruct (delegate_dma_span_from_authority_id _ _ _ _ _ _ _) as [[f2 [d|]]|] eqn:Ed; [|done..].
  cbn [mbind outcome_bind] in Hsub. rewrite Hg in Hsub.
  cbn [vec_get unwrap lookup list_lookup mbind outcome_bind] in Hsub. run_binds Hsub. injection Hsub as <- <- <-.
  split; [done|]. exists d. split; [by eapply delegate_id_delegated|].
  unfold nic_with, set_nc_slot. cbn. by rewrite Hs, Ho.
Qed.

Lemma tx_run c g r f c1 f1 h n base :
  nic_idle c g → placement_wf f → add_u64 (fab_next_tx_id f) 1 = Done n →
  dma_placed f (txr_source_object r) (txr_source_offset r) (txr_frame_len r) base →
  submit_tx c r f = Done (c1, f1, TxAccepted h) →
  ∃ c' f' g1, nic_ticks 3 c1 f1 = Done (c', f') ∧ fab_memory f' = fab_memory f ∧
    fab_domains f' !! fab_next_domain_id f = None ∧
    nic_consume_completion c' = Done (nic_served c (nc_rx_queue c)
        (nc_tx_sink c ++ [slice (base + txr_source_offset r) (txr_frame_len r) (fab_memory f)]) g g1,
      Some (mkNicCompletion h (txr_requester r) OpTx Success (txr_frame_len r) (txr_delegation_id r))).
Proof.
  intros Hi Hpw Hn Hpl Hsub.
  destruct (submit_tx_accepted _ _ _ _ _ _ _ Hi Hsub) as (->&d&Hdel&->).
  destruct Hi as [Hs Ho (g1&Hg) Hgr].
  destruct (dma_run f f1 _ _ _ d (nc_dma_agent c) Read None n base Hpw Hn Hdel Hpl)
    as (idx&fs&fa&fb&fc&ta&tb&tc&Hflow); [done|].
  set (bytes := slice (base + txr_source_offset r) (txr_frame_len r) (fab_memory f)).
  assert (zlen bytes = txr_frame_len r) as Hlen.
  { destruct Hpl as [_ _ ? ? _ _]. apply length_slice; unfold mem_len, zlen in *; lia. }
  destruct (nic_transfer _ _ _ _ _ _ _ _ _ _ _ _ _ c (nc_tx_sink c) (NTxDmaReady r d)
    (txr_requester r) OpTx (txr_frame_len r) (txr_delegation_id r) d g g1 (Some bytes) Hflow) as [_ H3].
  { unfold nic_tick_start. cbn -[submit dma_request]. by rewrite (df_submit _ _ _ _ _ _ _ _ _ _ _ _ _ Hflow). }
  { unfold nic_outcome, terminal_status. rewrite (df_state _ _ _ _ _ _ _ _ _ _ _ _ _ Hflow).
    cbn [mbind outcome_bind]. rewrite bool_decide_eq_true_2 by done.
    rewrite (df_read _ _ _ _ _ _ _ _ _ _ _ _ _ Hflow). change (req_length (dma_request _ _ _ _ ?l _)) with l.
    cbn -[slice debug_assert]. fold bytes. rewrite debug_assert_true by (by apply Z.eqb_eq). done. }
  { done. }
  eexists _, _, g1. split; [exact H3|]. split_and!.
  - apply Hflow.
  - destruct Hdel as (<-&_). cbn. apply lookup_delete_eq.
  - by rewrite (nic_consume_done _ _ _ g g1).
Qed.

(** C30: A frame survives the network device unchanged.  Take an idle controller whose
    first slot has two generations left, a non-empty frame at the head of its queue,
    and a fabric of well-formed placement that has placed the target span and has a
    transaction identity left.  An accepted reception leaves memory and the completion count alone for
    two ticks; with the third the whole frame is in the target span, no other byte
    has changed, the DMA domain is gone, and consuming the completion yields the
    handle of the acceptance, success and the length.  An accepted transmission of
    the same span, with an identity left for it, has another handle, leaves memory
    alone, completes successfully in three ticks and puts exactly that frame at the
    end of the transmit sink. *)
Theorem nic_loopback c g r t f c1 f1 h frame rest n base :
  nic_idle c g → g + 1 < u64_max → nc_rx_queue c = frame :: rest → frame ≠ [] → placement_wf f →
  add_u64 (fab_next_tx_id f) 1 = Done n →
  dma_placed f (rxr_target_object r) (rxr_target_offset r) (zlen frame) base →
  txr_source_object t = rxr_target_object r → txr_source_offset t = rxr_target_offset r →
  txr_frame_len t = zlen frame →
  submit_rx c r f = Done (c1, f1, RxAccepted h) →
  (∃ c' f', nic_ticks 2 c1 f1 = Done (c', f') ∧ nic_completion_count c' = 0%nat ∧ fab_memory f' = fab_memory f) ∧
  ∃ c' f' c2, nic_ticks 3 c1 f1 = Done (c', f') ∧
    fab_memory f' = splice (base + rxr_target_offset r) frame (fab_memory f) ∧
    fab_domains f' !! fab_next_domain_id f = None ∧
    nic_consume_completion c' = Done (c2, Some (mkNicCompletion h (rxr_requester r) OpRx Success (zlen frame)
      (rxr_delegation_id r))) ∧
    ∀ n2 c3 f3 h2, add_u64 (fab_next_tx_id f') 1 = Done n2 → submit_tx c2 t f' = Done (c3, f3, TxAccepted h2) →
      h2 ≠ h ∧ ∃ c4 f4 c5, nic_ticks 3 c3 f3 = Done (c4, f4) ∧ fab_memory f4 = fab_memory f' ∧
        nic_consume_completion c4 = Done (c5, Some (mkNicCompletion h2 (txr_requester t) OpTx Success (zlen frame)
          (txr_delegation_id t))) ∧
        nc_tx_sink c5 = nc_tx_sink c ++ [frame].
Proof.
  intros Hi Hg Hq Hne Hpw Hn Hpl Ho Hoff Hlen Hsub. pose proof (ni_gen _ _ Hi) as Hg0.
  destruct (submit_rx_accepted _ _ _ _ _ _ _ _ _ Hi Hq Hne Hsub) as [Hh _].
  destruct (rx_run _ _ _ _ _ _ _ _ _ _ _ Hi Hq Hne Hpw Hn Hpl Hsub) as [Hbefore (c'&f'&g1&Ht&Hm&Hsp&Hd&Hc)].
  split; [done|]. exists c', f'. eexists. split_and!; [done..|]. intros n2 c3 f3 h2 Hn2 Hsub2.
  assert (mem_len f' = mem_len f) as Hml.
  { destruct Hpl as [_ _ ? ? _ _]. unfold mem_len. rewrite Hm. unfold mem_len, zlen in *.
    by rewrite length_splice. }
  assert (nic_idle (nic_served c rest (nc_tx_sink c) g g1) (g + 1)) as Hi2
    by (split; cbn; [done|done|by exists g1|lia]).
  destruct (submit_tx_accepted _ _ _ _ _ _ _ Hi2 Hsub2) as [Hh2 _].
  pose proof (same_space_placed _ _ _ _ _ _ Hsp Hml Hpl) as Hpl'. rewrite <- Ho, <- Hoff, <- Hlen in Hpl'.
  assert (placement_wf f') as Hpw' by (intros o b; rewrite (ss_placement _ _ Hsp); apply Hpw).
  destruct (tx_run _ _ _ _ _ _ _ _ _ Hi2 Hpw' Hn2 Hpl' Hsub2) as (c4&f4&g2&Ht4&Hm4&_&Hc4).
  split; [rewrite Hh, Hh2; intros [=]; lia|]. exists c4, f4. eexists. rewrite <- Hlen.
  split_and!; [done|done|exact Hc4|]. cbn. rewrite Hoff, Hlen, Hm. do 2 f_equal.
  destruct Hpl. unfold mem_len, zlen in *. apply slice_splice; lia.
Qed.
End end_to_end.

(** ** The receive queue is bounded *)
Definition rx_bounded (c : NicController) : Prop :=
  (length (nc_rx_queue c) ≤ NIC_RX_QUEUE_CAPACITY)%nat ∧ Forall (λ b, zlen b ≤ NIC_MAX_FRAME_SIZE) (nc_rx_queue c).

Section bounds.
Context `{Profile}.

(** The ticks and the transmit side do not touch the receive queue. *)
Lemma nic_tick_queue c f c' f' : nic_tick c f = Done (c', f') → nc_rx_queue c' = nc_rx_queue c.
Proof.
  intros Ht. unfold nic_tick in Ht.
  assert (∀ i c f c' f', nic_tick_start i (c, f) = Done (c', f') → nc_rx_queue c' = nc_rx_queue c) as Hs.
  { intros i c0 f0 c1 f1 Hs. unfold nic_tick_start in Hs. destruct (vec_get i _) as [[]|]; [..|done];
      cbn [mbind outcome_bind] in Hs; run_binds Hs; by guards. }
  assert (∀ i c f c' f', nic_tick_flight i (c, f) = Done (c', f') → nc_rx_queue c' = nc_rx_queue c) as Hf.
  { intros i c0 f0 c1 f1 Hf. unfold nic_tick_flight in Hf. destruct (vec_get i _) as [[]|]; [..|done];
      cbn [mbind outcome_bind] in Hf; run_binds Hf; guards; try done.
    by match goal with |- context [match ?o with Some _ => _ | None => _ end] => destruct o end. }
  destruct (nic_tick_start 0 (c, f)) as [[c3 f3]|] eqn:E3; [|done]. cbn [mbind outcome_bind] in Ht.
  destruct (nic_tick_start 1 (c3, f3)) as [[c4 f4]|] eqn:E4; [|done]. cbn [mbind outcome_bind] in Ht.
  destruct (nic_tick_flight 0 (c4, f4)) as [[c5 f5]|] eqn:E5; [|done]. cbn [mbind outcome_bind] in Ht.
  destruct (nic_tick_flight 1 (c5, f5)) as [[c6 f6]|] eqn:E6; [|done]. cbn [mbind outcome_bind] in Ht.
  run_binds Ht. guards.
  by rewrite (Hf _ _ _ _ _ E6), (Hf _ _ _ _ _ E5), (Hs _ _ _ _ _ E4), (Hs _ _ _ _ _ E3).
Qed.

Lemma nic_step_queue c es c' :
  nic_step c es c' → nc_rx_queue c' = nc_rx_queue c ∨ (∃ b, nc_rx_queue c = b :: nc_rx_queue c') ∨
    ∃ b, nc_rx_queue c' = nc_rx_queue c ++ [b] ∧ zlen b ≤ NIC_MAX_FRAME_SIZE ∧
      (length (nc_rx_queue c) < NIC_RX_QUEUE_CAPACITY)%nat.
Proof.
  intros [frame c0 ok Hi|c0 b Ht| |r f c0 f' res Hs|r f c0 f' res Hs|f c0 f' Ht|c0 x Hc].
  - unfold inject_rx in Hi. destruct (Z.ltb_spec NIC_MAX_FRAME_SIZE (zlen frame)); [left; by simplify_eq|].
    destruct (Nat.leb_spec NIC_RX_QUEUE_CAPACITY (length (nc_rx_queue c))); [left; by simplify_eq|].
    destruct (checked_add _ 1); [|left; by simplify_eq]. simplify_eq. right; right. by exists frame.
  - left. unfold take_tx in Ht. destruct (nc_tx_sink c); by simplify_eq.
  - by left.
  - unfold submit_rx in Hs. destruct (position _ _) as [i|]; [|left; by simplify_eq].
    destruct (nc_rx_queue c) as [|b rest] eqn:Eq; [left; simplify_eq; congruence|].
    run_binds Hs; guards; try (by left); right; left; by exists b.
  - left. unfold submit_tx in Hs. destruct (position _ _) as [i|]; [|by simplify_eq]. run_binds Hs; by guards.
  - left. by eapply nic_tick_queue.
  - left. unfold nic_consume_completion in Hc. destruct (nc_completion_order c); [by simplify_eq|].
    run_binds Hc; by guards.
Qed.

(** Over every history the private receive queue holds at most sixteen frames
    and no frame longer than 1514 bytes. *)
Theorem nic_queue_bounded (c : NicController) l : sd_history c l → rx_bounded c.
Proof.
  induction 1 as [c [agent ->]|c l es c' _ [Hl Hf] Hs]; [split; [cbn; unfold NIC_RX_QUEUE_CAPACITY; lia|constructor]|].
  destruct (nic_step_queue c es c' Hs) as [Hq|[[b Hq]|(b&Hq&Hb&Hlt)]]; unfold rx_bounded; rewrite ?Hq.
  - done.
  - rewrite Hq in Hl, Hf. apply Forall_cons in Hf as [_ Hf]. cbn in Hl. split; [lia|done].
  - rewrite length_app. split; [cbn; lia|]. apply Forall_app. split; [done|by constructor].
Qed.
End bounds.

(** ** A concrete loopback

    A three-byte frame is received into object 0 and sent back from there. *)
Section demo.
#[local] Instance checked_build : Profile := true.

Definition demo_space : Fabric :=
  match grant_with_authority_id two_objects 0 0 0 32 (Z.lor Perm.READ Perm.WRITE) 5 with
  | Some (f, _) => f
  | None => two_objects
  end.
Definition demo_nic : NicController := (inject_rx (nic_new 8) [65; 66; 67]).1.
Definition demo_rx : NicRxRequest := mkRxRequest (mkRequester 3 0) 0 8 0 5 None.
Definition demo_tx : NicTxRequest := mkTxRequest (mkRequester 3 0) 0 8 0 5 3 None.

Definition demo_rx_submitted : NicController * Fabric :=
  match submit_rx demo_nic demo_rx demo_space with
  | Done (c, f, _) => (c, f)
  | Panic => (demo_nic, demo_space)
  end.

Lemma demo_space_wf : placement_wf demo_space.
Proof.
  intros o b. apply (reach_inv demo_space (mkCap 0 0 0 32 (Z.lor Perm.READ Perm.WRITE) :: [rw_cap])).
  eapply reach_step; [exact two_objects_reach|].
  apply (st_grant_id two_objects _ 0 0 0 32 (Z.lor Perm.READ Perm.WRITE) 5); [lia..|vm_compute; reflexivity].
Qed.

Lemma nic_loopback_witness :
  ∃ c' f', nic_ticks 3 demo_rx_submitted.1 demo_rx_submitted.2 = Done (c', f') ∧
    slice 24 3 (fab_memory f') = [65; 66; 67].
Proof.
  destruct (nic_loopback demo_nic 0 demo_rx demo_tx demo_space demo_rx_submitted.1 demo_rx_submitted.2
    (mkHandle 0 0) [65; 66; 67] [] 1 16) as [_ (c'&f'&c2&Ht&Hm&_)].
  - split; try reflexivity; [by exists 0|done].
  - vm_compute. reflexivity.
  - reflexivity.
  - discriminate.
  - exact demo_space_wf.
  - vm_compute. reflexivity.
  - split; try (vm_compute; reflexivity).
    + by vm_compute.
    + vm_compute. discriminate.
  - reflexivity.
  - reflexivity.
  - reflexivity.
  - vm_compute. reflexivity.
  - exists c', f'. split; [exact Ht|]. rewrite Hm. vm_compute. reflexivity.
Defined.

Lemma demo_nic_history : sd_history demo_nic [].
Proof.
  change (@nil SlotEvent) with (@nil SlotEvent ++ []). apply (sd_next (nic_new 8)).
  - apply sd_start. by exists 8.
  - by apply (nstep_inject (nic_new 8) [65; 66; 67] demo_nic true).
Qed.

Lemma demo_rx_history :
  sd_history demo_rx_submitted.1 ([] ++ [Issue (mkHandle 0 0) (mkRequester 3 0)]).
Proof.
  apply (sd_next demo_nic); [exact demo_nic_history|].
  apply (nstep_rx demo_nic demo_rx demo_space demo_rx_submitted.1 demo_rx_submitted.2 (RxAccepted (mkHandle 0 0))).
  vm_compute. reflexivity.
Qed.

Lemma nic_requests_answered_witness :
  ∃ i, slot_request (nic_view demo_rx_submitted.1) i = Some (mkHandle 0 0, mkRequester 3 0).
Proof.
  destruct (nic_requests_answered demo_rx_submitted.1 _ demo_rx_history) as [(_&_&_&_&Hk) _].
  destruct (Hk (mkHandle 0 0, mkRequester 3 0)) as [Hr|Hs]; [left|inversion Hr|exact Hs].
Defined.

Lemma nic_queue_bounded_witness : (length (nc_rx_queue demo_nic) ≤ NIC_RX_QUEUE_CAPACITY)%nat.
Proof. exact (proj1 (nic_queue_bounded demo_nic [] demo_nic_history)). Defined.
End demo.
