(* ===== verification/Core.v ===== *)
(** * The CPU core: [src/anka64/core.rs] and [src/anka64/core/heap.rs]

    Registers, flags, the protected return, event and frame stacks, the scoped
    pointer machine, interrupt delivery and the instruction step.  A [Vec] the
    source uses as a stack ([return_stack], [event_frames], the saved contexts and
    the active frames) is a list with its top first.  The register file and the
    pointer kinds are the source's fixed arrays of 16 and 6 entries; the decoder
    only produces 4-bit register numbers, so that reads use total lookup, while
    [write_register] keeps its assertion. *)

From S2P Require Import Prelude State Extents Registry PointerFrames HeapLedger Fabric.
From S2P Require Import FabricCells FabricHeap Desc Isa.

(** ** Context identities

    The process-wide counter [NEXT_CONTEXT_ID]; the result is the new counter
    and the identity handed out. *)
Definition fresh_context_id (counter : Z) : outcome (Z * Z) :=
  next ← unwrap (checked_add counter 1); Done (next, counter).

(** ** Data *)
Record AddressMapEntry := mkMapEntry {
  am_virt_base : Z;
  am_size : Z;
  am_object : ObjectId;
  am_obj_offset : Z;
}.

Record Flags := mkFlags { fl_z : bool; fl_n : bool; fl_c : bool; fl_v : bool }.
#[export] Instance Flags_eq_dec : EqDecision Flags.
Proof. solve_decision. Defined.

(** [Flags::test] *)
Definition flags_test (f : Flags) (c : Cond) : bool :=
  match c with
  | CondEq => fl_z f
  | CondNe => negb (fl_z f)
  | CondLt => xorb (fl_n f) (fl_v f)
  | CondGe => Bool.eqb (fl_n f) (fl_v f)
  | CondLe => fl_z f || xorb (fl_n f) (fl_v f)
  | CondGt => negb (fl_z f) && Bool.eqb (fl_n f) (fl_v f)
  | CondUlt => negb (fl_c f)
  | CondUge => fl_c f
  | CondUle => negb (fl_c f) || fl_z f
  | CondUgt => fl_c f && negb (fl_z f)
  | CondAl => true
  end.

Inductive StepResult := Continue | Halted | Fault (r : FaultRecord).

Record PendingSet := mkPending { pend_timer : bool; pend_device : bool }.
Definition any_pending (p : PendingSet) : bool := pend_timer p || pend_device p.

Inductive InterruptTurn := TurnTimer | TurnDevice.

Record EventRegisterImage := mkImage {
  im_words : list Z;
  im_kinds : list (option ScopedPointer);
  im_flags : Flags;
  im_return_stack : list ReturnAuthority;
  im_halted : bool;
  im_frames : option FrameState;
}.

Record SavedEventContext := mkSaved {
  sv_event_id : Z;
  sv_result_consumed : bool;
  sv_header : EventFrame;
  sv_context_id : Z;
  sv_domain : DomainId;
  sv_image : option EventRegisterImage;
  sv_scalar_results : list (option Z);
}.

Record Anka64Core := mkCore {
  core_heap_owner : option AllocationOwner;
  core_next_event_id : Z;
  core_context_id : Z;
  core_protected_context_enabled : bool;
  core_saved_event_contexts : list SavedEventContext;
  core_pointer_pairs : list (option ScopedPointer);
  core_pointer_frames : option FrameState;
  core_r : list Z;
  core_pc : Z;
  core_flags : Flags;
  core_agent : AgentId;
  core_domain : DomainId;
  core_privilege : Privilege;
  core_address_map : list AddressMapEntry;
  core_halted : bool;
  core_trap_vector : Z;
  core_event_frames : list EventFrame;
  core_interrupts_enabled : bool;
  core_pending : PendingSet;
  core_interrupt_turn : InterruptTurn;
  core_return_stack : list ReturnAuthority;
}.

Definition set_core_heap_owner (v : option AllocationOwner) (s : Anka64Core) : Anka64Core :=
  mkCore v (core_next_event_id s) (core_context_id s) (core_protected_context_enabled s)
    (core_saved_event_contexts s) (core_pointer_pairs s) (core_pointer_frames s) (core_r s)
    (core_pc s) (core_flags s) (core_agent s) (core_domain s) (core_privilege s)
    (core_address_map s) (core_halted s) (core_trap_vector s) (core_event_frames s)
    (core_interrupts_enabled s) (core_pending s) (core_interrupt_turn s) (core_return_stack s).
Definition set_core_next_event_id (v : Z) (s : Anka64Core) : Anka64Core :=
  mkCore (core_heap_owner s) v (core_context_id s) (core_protected_context_enabled s)
    (core_saved_event_contexts s) (core_pointer_pairs s) (core_pointer_frames s) (core_r s)
    (core_pc s) (core_flags s) (core_agent s) (core_domain s) (core_privilege s)
    (core_address_map s) (core_halted s) (core_trap_vector s) (core_event_frames s)
    (core_interrupts_enabled s) (core_pending s) (core_interrupt_turn s) (core_return_stack s).
Definition set_core_protected_context_enabled (v : bool) (s : Anka64Core) : Anka64Core :=
  mkCore (core_heap_owner s) (core_next_event_id s) (core_context_id s) v
    (core_saved_event_contexts s) (core_pointer_pairs s) (core_pointer_frames s) (core_r s)
    (core_pc s) (core_flags s) (core_agent s) (core_domain s) (core_privilege s)
    (core_address_map s) (core_halted s) (core_trap_vector s) (core_event_frames s)
    (core_interrupts_enabled s) (core_pending s) (core_interrupt_turn s) (core_return_stack s).
Definition set_core_saved_event_contexts (v : list SavedEventContext) (s : Anka64Core) : Anka64Core :=
  mkCore (core_heap_owner s) (core_next_event_id s) (core_context_id s)
    (core_protected_context_enabled s) v (core_pointer_pairs s) (core_pointer_frames s) (core_r
    s) (core_pc s) (core_flags s) (core_agent s) (core_domain s) (core_privilege s)
    (core_address_map s) (core_halted s) (core_trap_vector s) (core_event_frames s)
    (core_interrupts_enabled s) (core_pending s) (core_interrupt_turn s) (core_return_stack s).
Definition set_core_pointer_pairs (v : list (option ScopedPointer)) (s : Anka64Core) : Anka64Core :=
  mkCore (core_heap_owner s) (core_next_event_id s) (core_context_id s)
    (core_protected_context_enabled s) (core_saved_event_contexts s) v (core_pointer_frames s)
    (core_r s) (core_pc s) (core_flags s) (core_agent s) (core_domain s) (core_privilege s)
    (core_address_map s) (core_halted s) (core_trap_vector s) (core_event_frames s)
    (core_interrupts_enabled s) (core_pending s) (core_interrupt_turn s) (core_return_stack s).
Definition set_core_pointer_frames (v : option FrameState) (s : Anka64Core) : Anka64Core :=
  mkCore (core_heap_owner s) (core_next_event_id s) (core_context_id s)
    (core_protected_context_enabled s) (core_saved_event_contexts s) (core_pointer_pairs s) v
    (core_r s) (core_pc s) (core_flags s) (core_agent s) (core_domain s) (core_privilege s)
    (core_address_map s) (core_halted s) (core_trap_vector s) (core_event_frames s)
    (core_interrupts_enabled s) (core_pending s) (core_interrupt_turn s) (core_return_stack s).
Definition set_core_r (v : list Z) (s : Anka64Core) : Anka64Core :=
  mkCore (core_heap_owner s) (core_next_event_id s) (core_context_id s)
    (core_protected_context_enabled s) (core_saved_event_contexts s) (core_pointer_pairs s)
    (core_pointer_frames s) v (core_pc s) (core_flags s) (core_agent s) (core_domain s)
    (core_privilege s) (core_address_map s) (core_halted s) (core_trap_vector s)
    (core_event_frames s) (core_interrupts_enabled s) (core_pending s) (core_interrupt_turn s)
    (core_return_stack s).
Definition set_core_pc (v : Z) (s : Anka64Core) : Anka64Core :=
  mkCore (core_heap_owner s) (core_next_event_id s) (core_context_id s)
    (core_protected_context_enabled s) (core_saved_event_contexts s) (core_pointer_pairs s)
    (core_pointer_frames s) (core_r s) v (core_flags s) (core_agent s) (core_domain s)
    (core_privilege s) (core_address_map s) (core_halted s) (core_trap_vector s)
    (core_event_frames s) (core_interrupts_enabled s) (core_pending s) (core_interrupt_turn s)
    (core_return_stack s).
Definition set_core_flags (v : Flags) (s : Anka64Core) : Anka64Core :=
  mkCore (core_heap_owner s) (core_next_event_id s) (core_context_id s)
    (core_protected_context_enabled s) (core_saved_event_contexts s) (core_pointer_pairs s)
    (core_pointer_frames s) (core_r s) (core_pc s) v (core_agent s) (core_domain s)
    (core_privilege s) (core_address_map s) (core_halted s) (core_trap_vector s)
    (core_event_frames s) (core_interrupts_enabled s) (core_pending s) (core_interrupt_turn s)
    (core_return_stack s).
Definition set_core_privilege (v : Privilege) (s : Anka64Core) : Anka64Core :=
  mkCore (core_heap_owner s) (core_next_event_id s) (core_context_id s)
    (core_protected_context_enabled s) (core_saved_event_contexts s) (core_pointer_pairs s)
    (core_pointer_frames s) (core_r s) (core_pc s) (core_flags s) (core_agent s) (core_domain s)
    v (core_address_map s) (core_halted s) (core_trap_vector s) (core_event_frames s)
    (core_interrupts_enabled s) (core_pending s) (core_interrupt_turn s) (core_return_stack s).
Definition set_core_halted (v : bool) (s : Anka64Core) : Anka64Core :=
  mkCore (core_heap_owner s) (core_next_event_id s) (core_context_id s)
    (core_protected_context_enabled s) (core_saved_event_contexts s) (core_pointer_pairs s)
    (core_pointer_frames s) (core_r s) (core_pc s) (core_flags s) (core_agent s) (core_domain s)
    (core_privilege s) (core_address_map s) v (core_trap_vector s) (core_event_frames s)
    (core_interrupts_enabled s) (core_pending s) (core_interrupt_turn s) (core_return_stack s).
Definition set_core_event_frames (v : list EventFrame) (s : Anka64Core) : Anka64Core :=
  mkCore (core_heap_owner s) (core_next_event_id s) (core_context_id s)
    (core_protected_context_enabled s) (core_saved_event_contexts s) (core_pointer_pairs s)
    (core_pointer_frames s) (core_r s) (core_pc s) (core_flags s) (core_agent s) (core_domain s)
    (core_privilege s) (core_address_map s) (core_halted s) (core_trap_vector s) v
    (core_interrupts_enabled s) (core_pending s) (core_interrupt_turn s) (core_return_stack s).
Definition set_core_interrupts_enabled (v : bool) (s : Anka64Core) : Anka64Core :=
  mkCore (core_heap_owner s) (core_next_event_id s) (core_context_id s)
    (core_protected_context_enabled s) (core_saved_event_contexts s) (core_pointer_pairs s)
    (core_pointer_frames s) (core_r s) (core_pc s) (core_flags s) (core_agent s) (core_domain s)
    (core_privilege s) (core_address_map s) (core_halted s) (core_trap_vector s)
    (core_event_frames s) v (core_pending s) (core_interrupt_turn s) (core_return_stack s).
Definition set_core_pending (v : PendingSet) (s : Anka64Core) : Anka64Core :=
  mkCore (core_heap_owner s) (core_next_event_id s) (core_context_id s)
    (core_protected_context_enabled s) (core_saved_event_contexts s) (core_pointer_pairs s)
    (core_pointer_frames s) (core_r s) (core_pc s) (core_flags s) (core_agent s) (core_domain s)
    (core_privilege s) (core_address_map s) (core_halted s) (core_trap_vector s)
    (core_event_frames s) (core_interrupts_enabled s) v (core_interrupt_turn s)
    (core_return_stack s).
Definition set_core_interrupt_turn (v : InterruptTurn) (s : Anka64Core) : Anka64Core :=
  mkCore (core_heap_owner s) (core_next_event_id s) (core_context_id s)
    (core_protected_context_enabled s) (core_saved_event_contexts s) (core_pointer_pairs s)
    (core_pointer_frames s) (core_r s) (core_pc s) (core_flags s) (core_agent s) (core_domain s)
    (core_privilege s) (core_address_map s) (core_halted s) (core_trap_vector s)
    (core_event_frames s) (core_interrupts_enabled s) (core_pending s) v (core_return_stack s).
Definition set_core_return_stack (v : list ReturnAuthority) (s : Anka64Core) : Anka64Core :=
  mkCore (core_heap_owner s) (core_next_event_id s) (core_context_id s)
    (core_protected_context_enabled s) (core_saved_event_contexts s) (core_pointer_pairs s)
    (core_pointer_frames s) (core_r s) (core_pc s) (core_flags s) (core_agent s) (core_domain s)
    (core_privilege s) (core_address_map s) (core_halted s) (core_trap_vector s)
    (core_event_frames s) (core_interrupts_enabled s) (core_pending s) (core_interrupt_turn s)
    v.

(** ** Address map *)
Section address_map.
Context `{Profile}.

Definition references_object (m : list AddressMapEntry) (object : ObjectId) : bool :=
  existsb (λ e, am_object e =? object) m.
Definition map_add (m : list AddressMapEntry) (virt_base size object : Z) : list AddressMapEntry :=
  m ++ [mkMapEntry virt_base size object 0].
Definition map_add_at (m : list AddressMapEntry) (virt_base size object obj_offset : Z) :
    list AddressMapEntry := m ++ [mkMapEntry virt_base size object obj_offset].

(** [AddressMap::resolve]; the sums are unchecked in the source. *)
Fixpoint resolve (m : list AddressMapEntry) (addr : Z) : outcome (option (ObjectId * Z)) :=
  match m with
  | [] => Done None
  | e :: m =>
      if am_virt_base e <=? addr then
        end_ ← add_u64 (am_virt_base e) (am_size e);
        if addr <? end_ then
          off ← add_u64 (am_obj_offset e) (addr - am_virt_base e);
          Done (Some (am_object e, off))
        else resolve m addr
      else resolve m addr
  end.

(** The loop of [resolve_range_single_entry]; its [?] ends the whole search. *)
Fixpoint resolve_range_loop (m : list AddressMapEntry) (vaddr last : Z) :
    outcome (option (ObjectId * Z)) :=
  match m with
  | [] => Done None
  | e :: m =>
      match checked_add (am_virt_base e) (am_size e) with
      | None => Done None
      | Some entry_end =>
          if (am_virt_base e <=? vaddr) && (last <? entry_end) then
            off ← add_u64 (am_obj_offset e) (vaddr - am_virt_base e);
            Done (Some (am_object e, off))
          else resolve_range_loop m vaddr last
      end
  end.

Definition resolve_range_single_entry (m : list AddressMapEntry) (vaddr size : Z) :
    outcome (option (ObjectId * Z)) :=
  if size =? 0 then Done None
  else match checked_add vaddr (size - 1) with
       | None => Done None
       | Some last => resolve_range_loop m vaddr last
       end.
End address_map.

(** The selection loop of [checked_pointer_mapping]. *)
Fixpoint mapping_loop (m : list AddressMapEntry) (address length end_ : Z)
    (selected : option (ObjectId * Z)) : result PointerMachineError (option (ObjectId * Z)) :=
  match m with
  | [] => Ok selected
  | e :: m =>
      entry_end ← ok_or (checked_add (am_virt_base e) (am_size e)) PUnmapped;
      if (address <? entry_end) && (am_virt_base e <? end_) then
        if is_some selected || (address <? am_virt_base e) || (entry_end <? end_) then Err PUnmapped
        else
          offset ← ok_or (checked_add (am_obj_offset e) (address - am_virt_base e)) PUnmapped;
          _ ← ok_or (checked_add offset length) PUnmapped;
          mapping_loop m address length end_ (Some (am_object e, offset))
      else mapping_loop m address length end_ selected
  end.

Definition checked_pointer_mapping (c : Anka64Core) (address length : Z) :
    result PointerMachineError (ObjectId * Z) :=
  match checked_add address length with
  | None => Err PUnmapped
  | Some end_ =>
      if length =? 0 then Err PUnmapped
      else
        selected ← mapping_loop (core_address_map c) address length end_ None;
        ok_or selected PUnmapped
  end.

(** ** Registers *)
Definition reg (c : Anka64Core) (i : Z) : Z := core_r c !!! Z.to_nat i.
Definition pair_kind (c : Anka64Core) (i : nat) : option ScopedPointer :=
  core_pointer_pairs c !!! i.

Definition clear_pair (c : Anka64Core) (register : Z) : Anka64Core :=
  if register <? 12
  then set_core_pointer_pairs (<[Z.to_nat (register / 2) := None]> (core_pointer_pairs c)) c else c.

Definition write_register (c : Anka64Core) (register value : Z) : outcome Anka64Core :=
  _ ← assert_ ((0 <=? register) && (register <? 16));
  let c := clear_pair c register in
  Done (set_core_r (<[Z.to_nat register := value]> (core_r c)) c).

Definition enable_protected_context (c : Anka64Core) : result PointerMachineError Anka64Core :=
  if negb (core_protected_context_enabled c) && negb (bool_decide (core_event_frames c = []))
  then Err PContextMode else Ok (set_core_protected_context_enabled true c).

Definition protected_application (c : Anka64Core) : bool :=
  is_some (core_pointer_frames c)
  || is_some (s ← head (core_saved_event_contexts c); i ← sv_image s; im_frames i).

(** [core::new], with the context identity drawn from the counter *)
Definition core_new (context agent domain : Z) : Anka64Core :=
  mkCore None 1 context false [] (replicate 6 None) None (replicate 16 0) 0
    (mkFlags false false false false) agent domain User [] false 0 [] true
    (mkPending false false) TurnTimer [].

(** ** Requests *)
Definition make_request (c : Anka64Core) (object offset : Z) (width : Width) (kind : AccessKind) :
    MemoryRequest :=
  mkRequest (mkContext (core_agent c) (core_domain c) (core_privilege c)) object offset width
    (width_bytes width) kind.

(** A fault the core reports itself, without a transaction. *)
Definition core_fault (c : Anka64Core) (object : ObjectId) (g : option Generation) (offset : Z)
    (width : Width) (kind : AccessKind) (reason : FaultReason) : FaultRecord :=
  mkFault (core_agent c) (core_domain c) (core_privilege c) 0 object g offset width
    (width_bytes width) kind (Some (core_pc c)) reason.
Definition fetch_fault (c : Anka64Core) (object : ObjectId) (g : option Generation) (offset : Z)
    (reason : FaultReason) : FaultRecord := core_fault c object g offset WWord Fetch reason.

Definition pointer_fault (c : Anka64Core) (e : PointerMachineError) : StepResult :=
  match e with
  | PFabric f => Fault f
  | _ => Fault (fetch_fault c 0 None (core_pc c) ControlFlowViolation)
  end.

(** The byte-operand search: two entries that both contain the byte are refused. *)
Fixpoint byte_loop (m : list AddressMapEntry) (addr : Z) (selected : option (ObjectId * Z)) :
    option (ObjectId * Z) :=
  match m with
  | [] => selected
  | e :: m =>
      match checked_sub addr (am_virt_base e) with
      | Some relative =>
          if relative <? am_size e then
            if is_some selected then None
            else off ← checked_add (am_obj_offset e) relative;
                 byte_loop m addr (Some (am_object e, off))
          else byte_loop m addr selected
      | None => byte_loop m addr selected
      end
  end.

Definition byte_request (c : Anka64Core) (base displacement : Z) (kind : AccessKind) :
    result FaultRecord MemoryRequest :=
  let address := checked_add_signed base displacement in
  match (addr ← address; byte_loop (core_address_map c) addr None) with
  | Some (object, offset) => Ok (make_request c object offset WByte kind)
  | None => Err (core_fault c 0 None (default base address) WByte kind TranslationFault)
  end.

Section fabric_access.
Context `{Profile}.

Definition fabric_read (c : Anka64Core) (f : Fabric) (addr : Z) (width : Width) (kind : AccessKind) :
    outcome (Fabric * result FaultRecord (list Z)) :=
  x ← resolve (core_address_map c) addr;
  match x with
  | None => Done (f, Err (core_fault c 0 None addr width kind TranslationFault))
  | Some (object, offset) => execute_read f (make_request c object offset width kind)
  end.

Definition fabric_write (c : Anka64Core) (f : Fabric) (addr : Z) (width : Width) (data : list Z) :
    outcome (Fabric * result FaultRecord unit) :=
  x ← resolve (core_address_map c) addr;
  match x with
  | None => Done (f, Err (core_fault c 0 None addr width Write TranslationFault))
  | Some (object, offset) => execute_write f (make_request c object offset width Write) data
  end.

Definition fabric_atomic_xchg (c : Anka64Core) (f : Fabric) (addr : Z) (width : Width)
    (new_value : list Z) : outcome (Fabric * result FaultRecord (list Z)) :=
  x ← resolve (core_address_map c) addr;
  match x with
  | None => Done (f, Err (core_fault c 0 None addr width Atomic TranslationFault))
  | Some (object, offset) => execute_atomic_xchg f (make_request c object offset width Atomic) new_value
  end.
End fabric_access.

(** ** Events *)

(** Event entry, including nested supervisor events. *)
Definition enter_event (c : Anka64Core) (header : EventFrame) : Anka64Core :=
  let protected_ := core_protected_context_enabled c in
  let image := if protected_ then
    Some (mkImage (core_r c) (core_pointer_pairs c) (core_flags c) (core_return_stack c)
            (core_halted c) (core_pointer_frames c)) else None in
  let c := if protected_ then set_core_return_stack [] (set_core_pointer_frames None c) else c in
  let event_id := core_next_event_id c in
  let c := set_core_next_event_id
    (if event_id =? 0 then 0 else default 0 (checked_add event_id 1)) c in
  let c := set_core_saved_event_contexts
    (mkSaved event_id false header (core_context_id c) (core_domain c) image (replicate 13 None)
       :: core_saved_event_contexts c) c in
  let c := set_core_event_frames (header :: core_event_frames c) c in
  let c := set_core_pointer_pairs (replicate 6 None) c in
  set_core_interrupts_enabled false (set_core_privilege Supervisor c).

(** The overlay of scalar results, register by register. *)
Fixpoint write_results (c : Anka64Core) (register : Z) (results : list (option Z)) : outcome Anka64Core :=
  match results with
  | [] => Done c
  | r :: results =>
      c ← match r with Some v => write_register c register v | None => Done c end;
      write_results c (register + 1) results
  end.

Definition no_active_frames (c : Anka64Core) : bool :=
  is_none_or (λ s, bool_decide (fs_active s = [])) (core_pointer_frames c).

Definition restore_image (c : Anka64Core) (i : EventRegisterImage) : Anka64Core :=
  set_core_halted (im_halted i) (set_core_pointer_frames (im_frames i)
    (set_core_return_stack (im_return_stack i) (set_core_flags (im_flags i)
      (set_core_pointer_pairs (im_kinds i) (set_core_r (im_words i) c))))).

Definition may_return (c : Anka64Core) (header : EventFrame) (saved : SavedEventContext) : bool :=
  (length (core_event_frames c) =? length (core_saved_event_contexts c))%nat
  && (sv_context_id saved =? core_context_id c) && (sv_domain saved =? core_domain c)
  && bool_decide (sv_header saved = header)
  && Bool.eqb (core_protected_context_enabled c) (is_some (sv_image saved))
  && no_active_frames c.

(** [event_return]: [None] is a rejection, which changes nothing. *)
Definition event_return (c : Anka64Core) : outcome (option (Anka64Core * Z)) :=
  match core_event_frames c, core_saved_event_contexts c with
  | frame :: frames, saved :: contexts =>
      if negb (may_return c frame saved) then Done None
      else
        let c := set_core_event_frames frames (set_core_saved_event_contexts contexts c) in
        c ← match sv_image saved with
            | Some i =>
                let c := restore_image c i in
                if bool_decide (ev_cause frame = Syscall) then write_results c 0 (sv_scalar_results saved)
                else Done c
            | None => Done c
            end;
        let c := set_core_interrupts_enabled (ev_interrupts_were_enabled frame)
                   (set_core_privilege (ev_return_privilege frame) c) in
        Done (Some (set_core_pc (ev_return_pc frame) c, ev_return_pc frame))
  | _, _ => Done None
  end.

Definition post_timer_interrupt (c : Anka64Core) : Anka64Core :=
  set_core_pending (mkPending true (pend_device (core_pending c))) c.
Definition post_device_interrupt (c : Anka64Core) : Anka64Core :=
  set_core_pending (mkPending (pend_timer (core_pending c)) true) c.

(** The arbiter: the chosen cause, and the pending bits and turn it leaves. *)
Definition arbitrate (p : PendingSet) (t : InterruptTurn) :
    option (EventCause * PendingSet * InterruptTurn) :=
  match pend_timer p, pend_device p with
  | false, false => None
  | true, false => Some (TimerInterrupt, mkPending false (pend_device p), t)
  | false, true => Some (DeviceInterrupt, mkPending (pend_timer p) false, t)
  | true, true =>
      match t with
      | TurnTimer => Some (TimerInterrupt, mkPending false (pend_device p), TurnDevice)
      | TurnDevice => Some (DeviceInterrupt, mkPending (pend_timer p) false, TurnTimer)
      end
  end.

Definition deliver_pending (c : Anka64Core) : Anka64Core * bool :=
  if negb (core_interrupts_enabled c) then (c, false)
  else match arbitrate (core_pending c) (core_interrupt_turn c) with
       | None => (c, false)
       | Some (cause, p, t) =>
           let c := set_core_interrupt_turn t (set_core_pending p c) in
           let c := enter_event c (mkEventFrame (core_pc c) (core_privilege c)
                                     (core_interrupts_enabled c) cause) in
           (set_core_pc (core_trap_vector c)
              (set_core_interrupts_enabled false (set_core_privilege Supervisor c)), true)
       end.

Definition protected_syscall_image (c : Anka64Core) :
    option (list Z * list (option ScopedPointer)) :=
  match core_saved_event_contexts c, core_event_frames c with
  | saved :: _, header :: _ =>
      if negb (bool_decide (core_privilege c = Supervisor)) || negb (core_protected_context_enabled c)
         || negb (length (core_event_frames c) =? length (core_saved_event_contexts c))%nat
         || negb (sv_context_id saved =? core_context_id c) || negb (sv_domain saved =? core_domain c)
         || negb (bool_decide (sv_header saved = header)) || negb (bool_decide (ev_cause header = Syscall))
         || negb (no_active_frames c)
      then None
      else i ← sv_image saved; Some (im_words i, im_kinds i)
  | _, _ => None
  end.

Definition set_scalar_result (register : nat) (value : Z) (s : SavedEventContext) : SavedEventContext :=
  mkSaved (sv_event_id s) (sv_result_consumed s) (sv_header s) (sv_context_id s) (sv_domain s)
    (sv_image s) (<[register := Some value]> (sv_scalar_results s)).

Definition write_syscall_result (c : Anka64Core) (register value : Z) : outcome Anka64Core :=
  c ← write_register c register value;
  if (12 <? register) || negb (bool_decide (core_privilege c = Supervisor)) then Done c
  else match core_saved_event_contexts c with
       | saved :: contexts =>
           if (sv_context_id saved =? core_context_id c) && (sv_domain saved =? core_domain c)
              && bool_decide (ev_cause (sv_header saved) = Syscall) && is_some (sv_image saved)
              && negb (sv_result_consumed saved)
           then Done (set_core_saved_event_contexts
                  (set_scalar_result (Z.to_nat register) value saved :: contexts) c)
           else Done c
       | [] => Done c
       end.

(** ** Heap transport ([core/heap.rs]) *)
Record HeapEventPermit := mkPermit { hep_owner : AllocationOwner; hep_event : Z; hep_number : Z }.
#[export] Instance HeapEventPermit_eq_dec : EqDecision HeapEventPermit.
Proof. solve_decision. Defined.

Definition bind_heap_process (c : Anka64Core) (key : ProcessKey) : Anka64Core :=
  set_core_heap_owner (Some (mkOwner key (core_context_id c) (core_domain c))) c.

Definition heap_owner (c : Anka64Core) : result HeapError AllocationOwner :=
  match core_heap_owner c with
  | Some o => if (ao_context o =? core_context_id c) && (ao_domain o =? core_domain c)
              then Ok o else Err HOwner
  | None => Err HOwner
  end.

Definition prepare_heap_event (c : Anka64Core) (owner : AllocationOwner) : result HeapError HeapEventPermit :=
  image ← ok_or (protected_syscall_image c) HOwner;
  saved ← ok_or (head (core_saved_event_contexts c)) HOwner;
  own ← heap_owner c;
  let number := image.1 !!! 0%nat in
  if negb (bool_decide (own = owner)) || (sv_event_id saved =? 0) || sv_result_consumed saved
     || existsb is_some (sv_scalar_results saved) || negb ((number =? 21) || (number =? 22))
  then Err HOwner
  else Ok (mkPermit owner (sv_event_id saved) number).

Definition valid_heap_event (c : Anka64Core) (permit : HeapEventPermit) (owner : AllocationOwner) : bool :=
  match prepare_heap_event c owner with Ok p => bool_decide (p = permit) | Err _ => false end.

Definition reply_image (i : EventRegisterImage) (p : option ScopedPointer) (status : Z) (malloc : bool) :
    EventRegisterImage :=
  let w := match p with Some p => words p | None => (0, 0) end in
  let ws := <[1%nat := w.2]> (<[0%nat := w.1]> (im_words i)) in
  let ks := <[0%nat := p]> (im_kinds i) in
  mkImage (if malloc then <[3%nat := 0]> (<[2%nat := status]> ws) else ws)
    (if malloc then <[1%nat := None]> ks else ks) (im_flags i) (im_return_stack i) (im_halted i)
    (im_frames i).

Definition commit_heap_event (c : Anka64Core) (permit : HeapEventPermit) (p : option ScopedPointer)
    (status : Z) (malloc : bool) : outcome Anka64Core :=
  _ ← assert_ (valid_heap_event c permit (hep_owner permit));
  _ ← assert_ (hep_number permit =? if malloc then 21 else 22);
  _ ← assert_ (malloc || negb (is_some p));
  match core_saved_event_contexts c with
  | saved :: contexts =>
      i ← unwrap (sv_image saved);
      Done (set_core_saved_event_contexts
        (mkSaved (sv_event_id saved) true (sv_header saved) (sv_context_id saved) (sv_domain saved)
           (Some (reply_image i p status malloc)) (sv_scalar_results saved) :: contexts) c)
  | [] => Panic
  end.

(** ** Scoped pointers in registers *)
Definition pointer_pair_index (start : Z) : result PointerMachineError nat :=
  if (10 <? start) || negb (start mod 2 =? 0) then Err PInvalidPair else Ok (Z.to_nat (start / 2)).

Definition captured_pointer (c : Anka64Core) (start : Z) :
    result PointerMachineError (option ScopedPointer) :=
  index ← pointer_pair_index start;
  let ws := (reg c start, reg c (start + 1)) in
  match pair_kind c index with
  | Some p => if bool_decide (words p = ws) then Ok (Some p) else Err PMissingKind
  | None => if bool_decide (ws = (0, 0)) then Ok None else Err PMissingKind
  end.

Definition install_pointer (c : Anka64Core) (start : Z) (p : option ScopedPointer) :
    result PointerMachineError Anka64Core :=
  index ← pointer_pair_index start;
  c ← enable_protected_context c;
  let w := match p with Some p => words p | None => (0, 0) end in
  let c := set_core_r (<[(Z.to_nat start + 1)%nat := w.2]> (<[Z.to_nat start := w.1]> (core_r c))) c in
  Ok (set_core_pointer_pairs (<[index := p]> (core_pointer_pairs c)) c).

(** ** Authentication and arithmetic *)
Definition check_application_pointer (c : Anka64Core) (f : Fabric) (p : ScopedPointer) :
    fallible PointerMachineError unit :=
  if is_heap_pointer (fab_scoped_pointers f) p then
    owner ←? map_err PHeap (heap_owner c);
    map_err_call PHeap (authenticate_heap_token f owner (core_agent c) p)
  else
    _ ←? scoped_pointer_backing f p (core_domain c); ok tt.

Definition authenticated_pointer (c : Anka64Core) (f : Fabric) (start : Z) :
    fallible PointerMachineError (option ScopedPointer) :=
  p ←? captured_pointer c start;
  _ ←! match p with Some p => check_application_pointer c f p | None => ok tt end;
  ok p.

(** [self.authenticated_pointer(fabric, start)?.ok_or(MissingKind)?] *)
Definition required_pointer (c : Anka64Core) (f : Fabric) (start : Z) :
    fallible PointerMachineError ScopedPointer :=
  p ←! authenticated_pointer c f start; Done (ok_or p PMissingKind).

Definition add_application_pointer (c : Anka64Core) (f : Fabric) (p : ScopedPointer) (delta : Z) :
    fallible PointerMachineError ScopedPointer :=
  if is_heap_pointer (fab_scoped_pointers f) p then
    owner ←? map_err PHeap (heap_owner c);
    map_err_call PHeap (add_heap_pointer (fab_scoped_pointers f) p owner delta)
  else Done (map_err PPointer (pointer_add (fab_scoped_pointers f) p (core_domain c) delta)).

Definition core_pointer_move (c : Anka64Core) (f : Fabric) (dst src : Z) :
    fallible PointerMachineError Anka64Core :=
  _ ←? pointer_pair_index dst;
  p ←! authenticated_pointer c f src;
  Done (install_pointer c dst p).

Definition core_pointer_add (c : Anka64Core) (f : Fabric) (dst src delta : Z) :
    fallible PointerMachineError Anka64Core :=
  _ ←? pointer_pair_index dst;
  p ←! required_pointer c f src;
  p ←! add_application_pointer c f p delta;
  Done (install_pointer c dst (Some p)).

Definition pointer_address (c : Anka64Core) (f : Fabric) (start disp : Z) (write : bool) :
    fallible PointerMachineError Z :=
  p ←! required_pointer c f start;
  p ←? map_err PPointer (pointer_add (fab_scoped_pointers f) p (core_domain c) disp);
  address ←? map_err PPointer (pointer_resolve (fab_scoped_pointers f) p (core_domain c) 16 write);
  mapped ←? checked_pointer_mapping c address 16;
  b ←? scoped_pointer_backing f p (core_domain c);
  if negb (bool_decide (mapped = b)) then err PUnmapped else ok address.

Definition pointer_cell_request (c : Anka64Core) (address : Z) (kind : AccessKind) :
    result PointerMachineError MemoryRequest :=
  m ← checked_pointer_mapping c address 16;
  if negb (m.2 mod 16 =? 0) then Err PUnaligned
  else Ok (set_req_length 16 (make_request c m.1 m.2 WDouble kind)).

Section machine.
Context `{Profile}.

(** [m?] in a method that holds [&mut Fabric]: an error leaves with the fabric. *)
Definition guard {E A B} (f : Fabric) (m : fallible E A) (k : A → outcome (Fabric * result E B)) :
    outcome (Fabric * result E B) :=
  x ← m; match x with Ok a => k a | Err e => Done (f, Err e) end.

Definition fabric_result {A} (x : Fabric * result FaultRecord A) :
    Fabric * result PointerMachineError A := (x.1, map_err PFabric x.2).

Definition core_pointer_store (c : Anka64Core) (f : Fabric) (src address : Z) :
    outcome (Fabric * result PointerMachineError unit) :=
  guard f (authenticated_pointer c f src) (λ captured,
  guard f (Done (pointer_cell_request c address Write)) (λ request,
  match captured with
  | Some p =>
      if is_heap_pointer (fab_scoped_pointers f) p then
        guard f (Done (map_err PHeap (heap_owner c))) (λ owner,
        x ← store_heap_token_in_local f request owner p; Done (fabric_result x))
      else x ← store_pointer_cell f request captured; Done (fabric_result x)
  | None => x ← store_pointer_cell f request captured; Done (fabric_result x)
  end)).

Definition core_pointer_load (c : Anka64Core) (f : Fabric) (dst address : Z) :
    outcome (Fabric * result PointerMachineError Anka64Core) :=
  guard f (Done (pointer_pair_index dst)) (λ _,
  guard f (Done (pointer_cell_request c address Read)) (λ request,
  x ← load_pointer_cell f request;
  let '(f, p) := fabric_result x in
  guard f (Done p) (λ p,
  guard f (match p with Some p => check_application_pointer c f p | None => ok tt end) (λ _,
  Done (f, install_pointer c dst p))))).

(** The local address of a scalar access, checked against the backing. *)
Definition local_access (c : Anka64Core) (f : Fabric) (p : ScopedPointer) (width : Width)
    (kind : AccessKind) : result PointerMachineError MemoryRequest :=
  address ← map_err PPointer (pointer_resolve (fab_scoped_pointers f) p (core_domain c)
              (width_bytes width) (bool_decide (kind = Write)));
  m ← checked_pointer_mapping c address (width_bytes width);
  b ← scoped_pointer_backing f p (core_domain c);
  if negb (bool_decide (b = m)) then Err PUnmapped else Ok (make_request c m.1 m.2 width kind).

Definition core_pointer_read (c : Anka64Core) (f : Fabric) (start : Z) (width : Width) :
    outcome (Fabric * result PointerMachineError (list Z)) :=
  guard f (required_pointer c f start) (λ p,
  if is_heap_pointer (fab_scoped_pointers f) p then
    guard f (Done (map_err PHeap (heap_owner c))) (λ owner,
    x ← read_heap_bytes f owner (core_agent c) p (width_bytes width); Done (f, map_err PHeap x))
  else
    guard f (Done (local_access c f p width Read)) (λ request,
    x ← execute_read f request; Done (fabric_result x))).

Definition core_pointer_write (c : Anka64Core) (f : Fabric) (start : Z) (width : Width) (data : list Z) :
    outcome (Fabric * result PointerMachineError unit) :=
  guard f (required_pointer c f start) (λ p,
  if is_heap_pointer (fab_scoped_pointers f) p then
    if negb (zlen data =? width_bytes width) then Done (f, Err PMissingKind)
    else
      guard f (Done (map_err PHeap (heap_owner c))) (λ owner,
      x ← write_heap_bytes f owner (core_agent c) p data;
      Done (match x with Ok f => (f, Ok tt) | Err e => (f, Err (PHeap e)) end))
  else
    guard f (Done (local_access c f p width Write)) (λ request,
    x ← execute_write f request data; Done (fabric_result x))).

Definition pointer_load_indirect (c : Anka64Core) (f : Fabric) (dst base displacement : Z) :
    outcome (Fabric * result PointerMachineError Anka64Core) :=
  guard f (required_pointer c f base) (λ p,
  if is_heap_pointer (fab_scoped_pointers f) p then
    guard f (Done (pointer_pair_index dst)) (λ _,
    guard f (add_application_pointer c f p displacement) (λ p,
    guard f (Done (map_err PHeap (heap_owner c))) (λ owner,
    guard f (map_err_call PHeap (load_heap_pointer_cell f owner (core_agent c) p)) (λ token,
    Done (f, install_pointer c dst token)))))
  else
    guard f (pointer_address c f base displacement false) (λ address,
    core_pointer_load c f dst address)).

Definition pointer_store_indirect (c : Anka64Core) (f : Fabric) (src base displacement : Z) :
    outcome (Fabric * result PointerMachineError unit) :=
  guard f (required_pointer c f base) (λ p,
  if is_heap_pointer (fab_scoped_pointers f) p then
    guard f (authenticated_pointer c f src) (λ source,
    guard f (add_application_pointer c f p displacement) (λ p,
    guard f (Done (map_err PHeap (heap_owner c))) (λ owner,
    x ← store_heap_pointer_cell f owner (core_agent c) p source;
    Done (match x with Ok f => (f, Ok tt) | Err e => (f, Err (PHeap e)) end))))
  else
    guard f (pointer_address c f base displacement true) (λ address,
    core_pointer_store c f src address)).

Definition register_local_pointer (c : Anka64Core) (f : Fabric) (scope : Scope) (dst address length : Z)
    (writable : bool) : outcome (Fabric * result PointerMachineError Anka64Core) :=
  guard f (Done (pointer_pair_index dst)) (λ _,
  if negb (core_protected_context_enabled c) && negb (bool_decide (core_event_frames c = []))
  then Done (f, Err PContextMode)
  else
    guard f (Done (checked_pointer_mapping c address length)) (λ m,
    guard f (register_scoped_pointer f scope
               (set_req_length length (make_request c m.1 m.2 WByte Read)) address writable) (λ x,
    Done (x.1, install_pointer c dst (Some x.2))))).

(** ** Syscall operand spans *)
Definition syscall_span (c : Anka64Core) (f : Fabric) (p : ScopedPointer) (length : Z) (write : bool) :
    fallible PointerMachineError (ObjectId * Z) :=
  if is_heap_pointer (fab_scoped_pointers f) p then
    owner ←? map_err PHeap (heap_owner c);
    _ ←! map_err_call PHeap (check_heap_application_span f owner (core_agent c) p length write);
    object ←! map_err_call PHeap (heap_object_for_pointer f owner (core_agent c) p);
    ok (object, (words p).2)
  else
    address ←? map_err PPointer ((if write then write_span else read_span)
                 (fab_scoped_pointers f) p (core_domain c) (core_context_id c) length);
    b ←? scoped_pointer_backing f p (core_domain c);
    _ ←! (if negb (length =? 0) then
            m ←? checked_pointer_mapping c address length;
            if negb (bool_decide (m = b)) then err PUnmapped else ok tt
          else ok tt);
    if negb (authorize_pointer_span f (core_agent c) (core_domain c) b.1 b.2 length
               (if write then Write else Read))
    then err PMissingKind else ok b.
Definition syscall_read_span c f p length := syscall_span c f p length false.
Definition syscall_write_span c f p length := syscall_span c f p length true.

(** ** Frames *)
Definition set_fs (cursor : Z) (pending : option Z) (active : list ActiveFrame) (s : FrameState) : FrameState :=
  mkFrameState (fs_program s) (fs_context s) (fs_domain s) (fs_code_object s) (fs_code_generation s)
    (fs_code_offset s) (fs_code_base s) (fs_stack_low s) (fs_stack_high s) (fs_stack_object s)
    (fs_stack_generation s) (fs_stack_offset s) cursor pending active.

(** The admitted frame state, if it is current for this context, code and pc. *)
Definition frame_current (c : Anka64Core) (f : Fabric) : fallible PointerMachineError FrameState :=
  s ←? ok_or (core_pointer_frames c) PContextMode;
  if negb (bool_decide (core_privilege c = User)) || negb (fs_context s =? core_context_id c)
     || negb (fs_domain s =? core_domain c)
     || negb (is_some_and (λ o, (obj_generation o =? fs_code_generation s)
                             && bool_decide (obj_state o = Sealed)) (fab_objects f !! fs_code_object s))
     || is_none_or (λ pc, zlen (vp_code (fs_program s)) <=? pc) (checked_sub (core_pc c) (fs_code_base s))
  then err (PFrame FContext)
  else
    m ←? checked_pointer_mapping c (core_pc c) 4;
    at_ ← add_u64 (fs_code_offset s) (core_pc c);
    at_ ← sub_u64 at_ (fs_code_base s);
    if negb (bool_decide (m = (fs_code_object s, at_))) then err (PFrame FContext) else ok s.

(** [v.get(i)] for a [usize] index *)
Definition vec_lookup {A} (l : list A) (i : Z) : option A :=
  if (0 <=? i) && (i <? zlen l) then l !! Z.to_nat i else None.

Definition stack_geometry_ok (c : Anka64Core) (f : Fabric) (s : FrameState) (frame : FrameManifest)
    (stack_len : Z) : result PointerMachineError unit :=
  let geometry := PFrame FGeometry in
  if negb (fs_stack_low s mod 16 =? 0) || negb (fs_stack_high s mod 16 =? 0)
     || negb (fs_cursor s mod 16 =? 0) || (fs_stack_high s <? fs_cursor s)
     || (fm_size frame =? 0) || negb (fm_size frame mod 16 =? 0)
  then Err geometry
  else
    m ← checked_pointer_mapping c (fs_stack_low s) stack_len;
    if negb (bool_decide (m = (fs_stack_object s, fs_stack_offset s)))
       || negb (is_some_and (λ o, (obj_generation o =? fs_stack_generation s) && alive (obj_state o)
                  && is_some_and (λ e, e <=? obj_size o) (checked_add (fs_stack_offset s) stack_len))
                  (fab_objects f !! fs_stack_object s))
    then Err geometry
    else
      physical ← ok_or (translate f (fs_stack_object s) (fs_stack_offset s)) geometry;
      if negb (physical mod 16 =? 0) || is_none_or (λ n, mem_len f <? n) (checked_add physical stack_len)
      then Err geometry else Ok tt.

(** One registration per local of the manifest. *)
Fixpoint frame_registrations (c : Anka64Core) (s : FrameState) (base offset : Z) (l : list LocalStorage) :
    result PointerMachineError (list Registration) :=
  match l with
  | [] => Ok []
  | local :: l =>
      address ← ok_or (checked_add base (ls_offset local)) (PFrame FGeometry);
      m ← checked_pointer_mapping c address (ls_length local);
      if negb (m.1 =? fs_stack_object s)
         || negb (bool_decide (checked_add offset (ls_offset local) = Some m.2))
         || (ls_pointer_slot local && negb (m.2 mod 16 =? 0))
      then Err (PFrame FGeometry)
      else
        rest ← frame_registrations c s base offset l;
        Ok (mkRegistration (set_req_length (ls_length local) (make_request c m.1 m.2 WByte Read))
              address (ls_writable local) :: rest)
  end.

Section frames.
Context `{Host}.

(** Everything [enter_pointer_frame] checks before the fabric is asked. *)
Definition frame_plan (c : Anka64Core) (f : Fabric) (index : Z) :
    fallible PointerMachineError (FrameState * Z * MemoryRequest * list Registration) :=
  s ←! frame_current c f;
  frame ←? ok_or (vec_lookup (vp_frames (fs_program s)) index) (PFrame FManifest);
  entered ← (if bool_decide (fs_pending_entry s = Some (core_pc c))
             then e ← add_u64 (fs_code_base s) (fm_entry frame); Done (core_pc c =? e)
             else Done false);
  if negb entered
     || existsb (λ a, (af_call_depth a =? length (core_return_stack c))%nat) (fs_active s)
  then err (PFrame FControl)
  else
    let geometry := PFrame FGeometry in
    stack_len ←? ok_or (n ← checked_sub (fs_stack_high s) (fs_stack_low s);
                        if 0 <? n then Some n else None) geometry;
    _ ←? stack_geometry_ok c f s frame stack_len;
    base ←? ok_or (n ← checked_sub (fs_cursor s) (fm_size frame);
                   if fs_stack_low s <=? n then Some n else None) (PFrame FCapacity);
    offset ←? ok_or (checked_add (fs_stack_offset s) (base - fs_stack_low s)) geometry;
    m ←? checked_pointer_mapping c base (fm_size frame);
    if negb (bool_decide (m = (fs_stack_object s, offset))) then err geometry
    else
      let whole := set_req_length (fm_size frame)
                     (make_request c (fs_stack_object s) offset WByte Read) in
      _ ←? ok_or (reserve_exact (zlen (fm_locals frame))) (PFrame FCapacity);
      regs ←? frame_registrations c s base offset (fm_locals frame);
      if negb (try_reserve (zlen (fs_active s)) 1) then err (PFrame FCapacity)
      else ok (s, base, whole, regs).

Definition enter_pointer_frame (c : Anka64Core) (f : Fabric) (index : Z) :
    outcome (Fabric * result PointerMachineError Anka64Core) :=
  guard f (frame_plan c f index) (λ '(s, base, whole, regs),
  guard f (issue_pointer_frame f (core_context_id c) whole base regs) (λ '(f, (scope, locals)),
  let active := mkActive scope (Z.to_nat index) (length (core_return_stack c)) (fs_cursor s)
                  (reg c FP) (reg c LR) locals in
  let c := set_core_pointer_frames (Some (set_fs base None (active :: fs_active s) s)) c in
  c ← write_register c SP base;
  c ← write_register c FP base;
  Done (f, Ok c))).
End frames.

Definition lookup_pointer_local (c : Anka64Core) (f : Fabric) (dst index : Z) :
    fallible PointerMachineError Anka64Core :=
  _ ←? pointer_pair_index dst;
  s ←! frame_current c f;
  frame ←? ok_or (a ← head (fs_active s);
                  if (af_call_depth a =? length (core_return_stack c))%nat then Some a else None)
             (PFrame FControl);
  p ←? ok_or (vec_lookup (af_locals frame) index) (PFrame FManifest);
  _ ←? scoped_pointer_backing f p (core_domain c);
  Done (install_pointer c dst (Some p)).

Definition leave_pointer_frame (c : Anka64Core) (f : Fabric) :
    outcome (Fabric * result PointerMachineError Anka64Core) :=
  guard f (frame_current c f) (λ s,
  match fs_active s with
  | [] => Done (f, Err (PFrame FControl))
  | frame :: active =>
      allowed ← (if (af_call_depth frame =? length (core_return_stack c))%nat then
                   m ← vec_get (af_manifest frame) (vp_frames (fs_program s));
                   at_ ← sub_u64 (core_pc c) (fs_code_base s);
                   Done (bool_decide (at_ ∈ fm_exits m))
                 else Done false);
      if negb allowed then Done (f, Err (PFrame FControl))
      else
        guard f (retire_pointer_frame f (af_scope frame) (af_locals frame)) (λ f,
        let c := set_core_pointer_frames
          (Some (set_fs (af_parent_cursor frame) (fs_pending_entry s) active s)) c in
        c ← write_register c SP (af_parent_cursor frame);
        c ← write_register c FP (af_parent_fp frame);
        c ← write_register c LR (af_return_lr frame);
        Done (f, Ok c))
  end).

(** Retire frames from the top; a failed retirement is ignored. *)
Fixpoint retire_frames (f : Fabric) (l : list ActiveFrame) : outcome Fabric :=
  match l with
  | [] => Done f
  | a :: l =>
      x ← retire_pointer_frame f (af_scope a) (af_locals a);
      retire_frames (match x with Ok f => f | Err _ => f end) l
  end.

Definition drop_image_frames (s : SavedEventContext) : SavedEventContext :=
  mkSaved (sv_event_id s) (sv_result_consumed s) (sv_header s) (sv_context_id s) (sv_domain s)
    ((λ i, mkImage (im_words i) (im_kinds i) (im_flags i) (im_return_stack i) (im_halted i) None)
       <$> sv_image s) (sv_scalar_results s).

Fixpoint retire_saved (f : Fabric) (l : list SavedEventContext) : outcome Fabric :=
  match l with
  | [] => Done f
  | s :: l =>
      f ← match (i ← sv_image s; im_frames i) with
          | Some st => retire_frames f (fs_active st)
          | None => Done f
          end;
      retire_saved f l
  end.

Definition retire_all_pointer_frames (c : Anka64Core) (f : Fabric) : outcome (Anka64Core * Fabric) :=
  f ← match core_pointer_frames c with Some s => retire_frames f (fs_active s) | None => Done f end;
  f ← retire_saved f (core_saved_event_contexts c);
  Done (set_core_saved_event_contexts (map drop_image_frames (core_saved_event_contexts c))
          (set_core_pointer_frames None c), f).

(** ** Admission *)
Definition admit_pointer_program (c : Anka64Core) (f : Fabric) (program : ValidatedPointerProgram)
    (code_base stack_low stack_high : Z) : outcome (Fabric * result PointerMachineError Anka64Core) :=
  let fail := PFrame FGeometry in
  let code_len := zlen (vp_code program) in
  if is_some (core_pointer_frames c) || negb (bool_decide (core_event_frames c = []))
     || negb (bool_decide (core_return_stack c = [])) || negb (bool_decide (core_privilege c = User))
     || (stack_high <=? stack_low) || negb (stack_low mod 16 =? 0) || negb (stack_high mod 16 =? 0)
  then Done (f, Err fail)
  else
    guard f (Done (checked_pointer_mapping c code_base code_len)) (λ '(object, offset),
    guard f (Done (ok_or (fab_objects f !! object) fail)) (λ obj,
    if negb (bool_decide (obj_state obj = Sealed)) then Done (f, Err fail)
    else
      guard f (Done (ok_or (translate f object offset) fail)) (λ physical,
      if is_none_or (λ n, mem_len f <? n) (checked_add physical code_len) then Done (f, Err fail)
      else
        code ← read_physical f physical code_len;
        if negb (bool_decide (code = vp_code program)) then Done (f, Err fail)
        else
          guard f (Done (checked_pointer_mapping c stack_low (stack_high - stack_low)))
            (λ '(stack_object, stack_offset),
          guard f (Done (ok_or (fab_objects f !! stack_object) fail)) (λ stack,
          guard f (Done (checked_pointer_mapping c code_base 4)) (λ '(_, code_offset),
          match authorize f (make_request c object code_offset WWord Fetch) with
          | AuthDenied _ => Done (f, Err fail)
          | AuthAuthorized _ =>
              let '(f, protected_) := protect_pointer_stack f stack_object (core_context_id c) (core_domain c) in
              if negb protected_ then Done (f, Err (PFrame FContext))
              else
                guard f (Done (enable_protected_context c)) (λ c,
                let c := set_core_pointer_frames (Some (mkFrameState program (core_context_id c)
                  (core_domain c) object (obj_generation obj) offset code_base stack_low stack_high
                  stack_object (obj_generation stack) stack_offset stack_high (Some code_base) [])) c in
                c ← write_register c SP stack_high;
                Done (f, Ok c))
          end)))))).

Definition frames_bounded (limit : Z) (s : FrameState) : bool :=
  (length (fs_active s) <? 128)%nat
  && (foldr Z.add 0 (map (λ a, zlen (af_locals a)) (fs_active s)) <=? limit).

Definition pending_fits (c : Anka64Core) (limit : Z) (s : FrameState) : bool :=
  if negb (bool_decide (fs_pending_entry s = Some (core_pc c))) then true
  else match checked_sub (core_pc c) (fs_code_base s) with
       | None => false
       | Some offset =>
           match List.find (λ m, fm_entry m =? offset) (vp_frames (fs_program s)) with
           | None => false
           | Some frame =>
               let used := foldr Z.add 0 (map (λ a, zlen (af_locals a)) (fs_active s)) in
               (length (fs_active s) + 1 <? 128)%nat && (used <=? limit)
               && (zlen (fm_locals frame) <=? limit - used)
           end
       end.

Definition protected_execution_depth_ok (c : Anka64Core) (limit : Z) : bool :=
  (length (core_return_stack c) <? 128)%nat && (length (core_event_frames c) <=? 1)%nat
  && (length (core_saved_event_contexts c) <=? 1)%nat
  && is_none_or (pending_fits c limit) (core_pointer_frames c)
  && is_none_or (frames_bounded limit) (core_pointer_frames c)
  && forallb (λ s, is_none_or (λ i, (length (im_return_stack i) <? 128)%nat
       && is_none_or (frames_bounded limit) (im_frames i)) (sv_image s)) (core_saved_event_contexts c).
Definition compiler_admission_depth_ok (c : Anka64Core) : bool := protected_execution_depth_ok c 4096.

Definition compiler_entry_ready (c : Anka64Core) (f : Fabric) : outcome bool :=
  if negb (bool_decide (core_event_frames c = [])) || negb (bool_decide (core_return_stack c = []))
     || core_halted c then Done false
  else
    x ← frame_current c f;
    Done match x with
         | Ok s => bool_decide (fs_active s = []) && bool_decide (fs_pending_entry s = Some (core_pc c))
                   && (core_pc c =? fs_code_base s)
         | Err _ => false
         end.
End machine.

(** ** Arithmetic *)
Definition alu_eval (op : AluOp) (a b : Z) : Z :=
  match op with
  | AluAdd => wrapping_add a b
  | AluSub => wrapping_sub a b
  | AluAnd => Z.land a b
  | AluOr => Z.lor a b
  | AluXor => Z.lxor a b
  | AluShl => wrap64 (Z.shiftl a (Z.land b 63))
  | AluShr => Z.shiftr a (Z.land b 63)
  | AluAsr => wrap64 (Z.shiftr (as_i64 a) (Z.land b 63))
  | AluMul => wrapping_mul a b
  end.

(** [alu_operand_b] and [cmp_operand_b] *)
Definition operand_b (c : Anka64Core) (i : DecodedInsn) : Z :=
  match insn_format (d_desc i) with
  | FmtR => reg c (d_rs2 i)
  | _ => wrap64 (d_imm i)
  end.

(** [!x] on [u64] *)
Definition not64 (x : Z) : Z := Z.lxor x u64_max.

Definition flags_of (effect : FlagEffect) (old : Flags) (a b result : Z) : Flags :=
  match effect with
  | FlagArith => mkFlags (result =? 0) (negb (Z.shiftr result 63 =? 0)) (result <? a)
      (negb (Z.shiftr (Z.land (not64 (Z.lxor a b)) (Z.lxor a result)) 63 =? 0))
  | FlagSub => mkFlags (result =? 0) (negb (Z.shiftr result 63 =? 0)) (b <=? a)
      (negb (Z.shiftr (Z.land (Z.lxor a b) (Z.lxor a result)) 63 =? 0))
  | FlagLogic => mkFlags (result =? 0) (negb (Z.shiftr result 63 =? 0)) false false
  | FlagNone => old
  end.

Definition update_flags (c : Anka64Core) (effect : FlagEffect) (a b result : Z) : Anka64Core :=
  set_core_flags (flags_of effect (core_flags c) a b result) c.

(** ** The instruction step *)

(** What one instruction does after fetch and decode: it either ends the step
    with a result, or yields the core, the fabric and the next pc. *)
Inductive effect :=
| Stop (c : Anka64Core) (f : Fabric) (r : StepResult)
| Next (c : Anka64Core) (f : Fabric) (pc : Z).

Definition insn_width (i : DecodedInsn) : Width :=
  let k := Z.land (d_raw i) 3 in
  if k =? 0 then WByte else if k =? 1 then WHalf else if k =? 2 then WWord else WDouble.

(** [any] over frames, the sum unchecked, stopping at the first match. *)
Fixpoint entry_at `{Profile} (code_base target : Z) (l : list FrameManifest) : outcome bool :=
  match l with
  | [] => Done false
  | m :: l =>
      e ← add_u64 code_base (fm_entry m);
      if e =? target then Done true else entry_at code_base target l
  end.

Section step.
Context `{Profile} `{Host}.

Definition branch_target (c : Anka64Core) (imm : Z) : outcome Z :=
  t ← add_i64 (as_i64 (core_pc c)) (imm * 4); Done (wrap64 t).

(** A pointer instruction that changes only the core, or also the fabric. *)
Definition lift_core (f : Fabric) (m : fallible PointerMachineError Anka64Core) :
    outcome (Fabric * result PointerMachineError Anka64Core) := x ← m; Done (f, x).
Definition lift_unit (c : Anka64Core) (m : outcome (Fabric * result PointerMachineError unit)) :
    outcome (Fabric * result PointerMachineError Anka64Core) :=
  x ← m; Done (x.1, match x.2 with Ok _ => Ok c | Err e => Err e end).

Definition pointer_insn (c : Anka64Core) (f : Fabric) (i : DecodedInsn) :
    outcome (Fabric * result PointerMachineError Anka64Core) :=
  match insn_semantics (d_desc i) with
  | PointerMove => lift_core f (core_pointer_move c f (d_rd i) (d_rs1 i))
  | PointerAdd => lift_core f (core_pointer_add c f (d_rd i) (d_rs1 i) (as_i64 (reg c (d_rs2 i))))
  | PointerLoad => pointer_load_indirect c f (d_rd i) (d_rs1 i) (d_imm i)
  | PointerStore => lift_unit c (pointer_store_indirect c f (d_rd i) (d_rs1 i) (d_imm i))
  | PointerRead =>
      x ← core_pointer_read c f (d_rs1 i) (insn_width i);
      match x with
      | (f, Ok bytes) => c ← write_register c (d_rd i) (le_value bytes); Done (f, Ok c)
      | (f, Err e) => Done (f, Err e)
      end
  | PointerWrite =>
      lift_unit c (core_pointer_write c f (d_rs1 i) (insn_width i)
        (take (Z.to_nat (width_bytes (insn_width i))) (le_bytes 8 (reg c (d_rd i)))))
  | PointerFrame => enter_pointer_frame c f (wrap64 (d_imm i))
  | PointerLocal => lift_core f (lookup_pointer_local c f (d_rd i) (wrap64 (d_imm i)))
  | PointerUnframe => leave_pointer_frame c f
  | _ => Panic
  end.

Definition step_pointer (c : Anka64Core) (f : Fabric) (i : DecodedInsn) (next_pc : Z) : outcome effect :=
  current ← frame_current c f;
  match current with
  | Err e => Done (Stop c f (pointer_fault c e))
  | Ok _ =>
      x ← pointer_insn c f i;
      match x with
      | (f, Ok c') => Done (Next c' f next_pc)
      | (f, Err e) => Done (Stop c f (pointer_fault c e))
      end
  end.

Definition step_load (c : Anka64Core) (f : Fabric) (i : DecodedInsn) (next_pc : Z) : outcome effect :=
  x ← fabric_read c f (wrapping_add (reg c (d_rs1 i)) (wrap64 (d_imm i))) WDouble Read;
  match x with
  | (f, Ok bytes) => c ← write_register c (d_rd i) (le_value bytes); Done (Next c f next_pc)
  | (f, Err e) => Done (Stop c f (Fault e))
  end.

Definition step_store (c : Anka64Core) (f : Fabric) (i : DecodedInsn) (next_pc : Z) : outcome effect :=
  x ← fabric_write c f (wrapping_add (reg c (d_rs1 i)) (wrap64 (d_imm i))) WDouble
        (le_bytes 8 (reg c (d_rd i)));
  match x with
  | (f, Ok _) => Done (Next c f next_pc)
  | (f, Err e) => Done (Stop c f (Fault e))
  end.

Definition step_byte (c : Anka64Core) (f : Fabric) (i : DecodedInsn) (next_pc : Z) : outcome effect :=
  let kind := if bool_decide (insn_semantics (d_desc i) = SemLoadByte) then Read else Write in
  match byte_request c (reg c (d_rs1 i)) (d_imm i) kind with
  | Err e => Done (Stop c f (Fault e))
  | Ok request =>
      if bool_decide (kind = Read) then
        x ← execute_read f request;
        match x with
        | (f, Ok bytes) => b ← vec_get 0 bytes; c ← write_register c (d_rd i) b; Done (Next c f next_pc)
        | (f, Err e) => Done (Stop c f (Fault e))
        end
      else
        x ← execute_write f request [reg c (d_rd i) mod 256];
        match x with
        | (f, Ok _) => Done (Next c f next_pc)
        | (f, Err e) => Done (Stop c f (Fault e))
        end
  end.

Definition step_xchg (c : Anka64Core) (f : Fabric) (i : DecodedInsn) (next_pc : Z) : outcome effect :=
  x ← fabric_atomic_xchg c f (wrapping_add (reg c (d_rs1 i)) (wrap64 (d_imm i))) WDouble
        (le_bytes 8 (reg c (d_rd i)));
  match x with
  | (f, Ok old) => c ← write_register c (d_rd i) (le_value old); Done (Next c f next_pc)
  | (f, Err e) => Done (Stop c f (Fault e))
  end.

Definition call_admitted (c : Anka64Core) (imm : Z) : outcome bool :=
  match core_pointer_frames c with
  | None => Done true
  | Some s => entry_at (fs_code_base s) (core_pc c + imm * 4) (vp_frames (fs_program s))
  end.

Definition set_pending_entry (pc : Z) (c : Anka64Core) : Anka64Core :=
  match core_pointer_frames c with
  | None => c
  | Some s => set_core_pointer_frames (Some (set_fs (fs_cursor s) (Some pc) (fs_active s) s)) c
  end.

(** Mint or fault. *)
Definition step_call (c : Anka64Core) (f : Fabric) (i : DecodedInsn) : outcome effect :=
  admitted ← call_admitted c (d_imm i);
  if negb admitted then Done (Stop c f (pointer_fault c (PFrame FControl)))
  else
    return_addr ← add_u64 (core_pc c) 4;
    x ← resolve (core_address_map c) (core_pc c);
    match x with
    | None => Done (Stop c f (Fault (fetch_fault c 0 None (core_pc c) ControlFlowViolation)))
    | Some (code_obj, _) =>
        match fab_objects f !! code_obj with
        | None => Done (Stop c f (Fault (fetch_fault c code_obj None (core_pc c) ControlFlowViolation)))
        | Some obj =>
            c ← write_register c LR return_addr;
            let c := set_core_return_stack
              (mkReturn code_obj (obj_generation obj) return_addr :: core_return_stack c) c in
            next_pc ← branch_target c (d_imm i);
            Done (Next (set_pending_entry next_pc c) f next_pc)
        end
    end.

(** Peek, validate, then pop. *)
Definition step_ret (c : Anka64Core) (f : Fabric) : outcome effect :=
  if is_some_and (λ s, existsb (λ a, (af_call_depth a =? length (core_return_stack c))%nat) (fs_active s))
       (core_pointer_frames c)
  then Done (Stop c f (pointer_fault c (PFrame FControl)))
  else
    let lr_val := reg c LR in
    match core_return_stack c with
    | [] => Done (Stop c f (Fault (fetch_fault c 0 None lr_val ControlFlowViolation)))
    | auth :: rest =>
        let fault := Done (Stop c f (Fault (fetch_fault c (ret_code_object auth)
                       (Some (ret_generation auth)) lr_val ControlFlowViolation))) in
        if negb (lr_val =? ret_target auth) then fault
        else if negb (is_some_and (λ o, obj_generation o =? ret_generation auth)
                        (fab_objects f !! ret_code_object auth)) then fault
        else Done (Next (set_core_return_stack rest c) f (ret_target auth))
    end.

Definition step_trap (c : Anka64Core) (f : Fabric) : outcome effect :=
  return_pc ← add_u64 (core_pc c) 4;
  let c := enter_event c (mkEventFrame return_pc (core_privilege c) (core_interrupts_enabled c) Syscall) in
  Done (Next (set_core_interrupts_enabled false (set_core_privilege Supervisor c)) f (core_trap_vector c)).

Definition step_eret (c : Anka64Core) (f : Fabric) : outcome effect :=
  x ← event_return c;
  match x with
  | Some (c, pc) => Done (Next c f pc)
  | None => Done (Stop c f (Fault (fetch_fault c 0 None (core_pc c) ControlFlowViolation)))
  end.

Definition is_raw_memory (s : Sem) : bool :=
  match s with SemLoad | SemStore | SemLoadByte | SemStoreByte | SemXchg => true | _ => false end.

Definition execute (c : Anka64Core) (f : Fabric) (i : DecodedInsn) : outcome effect :=
  next_pc ← add_u64 (core_pc c) 4;
  let sem := insn_semantics (d_desc i) in
  if is_some (core_pointer_frames c) && is_raw_memory sem
  then Done (Stop c f (pointer_fault c PContextMode))
  else
    match sem with
    | PointerMove | PointerAdd | PointerLoad | PointerStore | PointerRead | PointerWrite
    | PointerFrame | PointerLocal | PointerUnframe => step_pointer c f i next_pc
    | Alu op =>
        let a := reg c (d_rs1 i) in let b := operand_b c i in
        let result := alu_eval op a b in
        c ← write_register c (d_rd i) result;
        Done (Next (update_flags c (insn_flags (d_desc i)) a b result) f next_pc)
    | SemCmp =>
        let a := reg c (d_rs1 i) in let b := operand_b c i in
        Done (Next (update_flags c (insn_flags (d_desc i)) a b (wrapping_sub a b)) f next_pc)
    | SemMov => c ← write_register c (d_rd i) (reg c (d_rs1 i)); Done (Next c f next_pc)
    | SemMovi => c ← write_register c (d_rd i) (wrap64 (d_imm i)); Done (Next c f next_pc)
    | SemLoad => step_load c f i next_pc
    | SemStore => step_store c f i next_pc
    | SemLoadByte | SemStoreByte => step_byte c f i next_pc
    | SemLea =>
        c ← write_register c (d_rd i) (wrapping_add (reg c (d_rs1 i)) (wrap64 (d_imm i)));
        Done (Next c f next_pc)
    | SemXchg => step_xchg c f i next_pc
    | SemBranch =>
        if flags_test (core_flags c) (d_cond i)
        then t ← branch_target c (d_imm i); Done (Next c f t)
        else Done (Next c f next_pc)
    | SemCall => step_call c f i
    | SemRet => step_ret c f
    | SemTrap => step_trap c f
    | SemEret => step_eret c f
    | SemNop => Done (Next c f next_pc)
    | SemHalt => Done (Stop (set_core_halted true c) f Halted)
    end.

Definition step (c : Anka64Core) (f : Fabric) : outcome (Anka64Core * Fabric * StepResult) :=
  if core_halted c then Done (c, f, Halted)
  else if negb (Z.land (core_pc c) 3 =? 0)
  then Done (c, f, Fault (fetch_fault c 0 None (core_pc c) AlignmentFault))
  else
    x ← fabric_read c f (core_pc c) WWord Fetch;
    match x with
    | (f, Err e) => Done (c, f, Fault e)
    | (f, Ok bytes) =>
        let i := decode (le_value bytes) in
        if is_illegal i then Done (c, f, Fault (fetch_fault c 0 None (core_pc c) IllegalInstruction))
        else
          e ← execute c f i;
          Done match e with
               | Stop c f r => (c, f, r)
               | Next c f pc => (set_core_pc pc c, f, Continue)
               end
    end.

Fixpoint run (c : Anka64Core) (f : Fabric) (max_steps : nat) : outcome (Anka64Core * Fabric * StepResult) :=
  match max_steps with
  | O => Done (c, f, Continue)
  | S n =>
      x ← step c f;
      match x with
      | (c, f, Continue) => run c f n
      | other => Done other
      end
  end.
End step.
