(* ===== verification/CoreAlu.v ===== *)
(** * Arithmetic, flags and branch conditions of the core

    What the condition codes mean after a comparison, what the carry and
    overflow flags mean after an addition, and the value each ALU operation
    computes on 64-bit words. *)

From S2P Require Import Prelude State Desc Isa Core.

(** ** Sign bits *)
Definition sign (x : Z) : Z := Z.shiftr x 63.

Lemma sign_cases x : is_u64 x →
  (sign x = 0 ∧ 0 ≤ x < 2 ^ 63 ∧ as_i64 x = x) ∨
  (sign x = 1 ∧ 2 ^ 63 ≤ x < U64 ∧ as_i64 x = x - U64).
Proof.
  intros Hx. unfold sign, as_i64, is_u64 in *. rewrite Z.shiftr_div_pow2 by lia.
  destruct (Z.ltb_spec x (2 ^ 63)).
  - left. rewrite Z.div_small by lia. lia.
  - right. split_and!; [|lia..]. symmetry. apply (Z.div_unique x (2 ^ 63) 1 (x - 2 ^ 63)).
    + left. change U64 with (2 ^ 63 + 2 ^ 63) in Hx. lia.
    + lia.
Qed.

Lemma sign_lxor x y : Z.shiftr (Z.lxor x y) 63 = Z.lxor (sign x) (sign y).
Proof. apply Z.shiftr_lxor. Qed.
Lemma sign_land x y : Z.shiftr (Z.land x y) 63 = Z.land (Z.shiftr x 63) (Z.shiftr y 63).
Proof. apply Z.shiftr_land. Qed.
Lemma sign_not x : Z.shiftr (not64 x) 63 = Z.lxor (sign x) 1.
Proof. unfold not64. by rewrite Z.shiftr_lxor. Qed.

Lemma wrap64_is_u64 x : is_u64 (wrap64 x).
Proof. apply Z.mod_pos_bound. done. Qed.

(** The wrapped value differs from the exact one by at most one modulus. *)
Lemma wrapping_sub_cases a b : is_u64 a → is_u64 b →
  (b ≤ a ∧ wrapping_sub a b = a - b) ∨ (a < b ∧ wrapping_sub a b = a - b + U64).
Proof.
  intros Ha Hb. unfold is_u64, wrapping_sub, wrap64 in *. destruct (Z.le_gt_cases b a).
  - left. rewrite Z.mod_small by lia. done.
  - right. split; [done|]. symmetry. apply (Z.mod_unique (a - b) U64 (-1)); lia.
Qed.
Lemma wrapping_add_cases a b : is_u64 a → is_u64 b →
  (a + b < U64 ∧ wrapping_add a b = a + b) ∨ (U64 ≤ a + b ∧ wrapping_add a b = a + b - U64).
Proof.
  intros Ha Hb. unfold is_u64, wrapping_add, wrap64 in *. destruct (Z.lt_ge_cases (a + b) U64).
  - left. rewrite Z.mod_small by lia. done.
  - right. split; [done|]. symmetry. apply (Z.mod_unique (a + b) U64 1); lia.
Qed.

(** ** Comparison *)
Definition cond_holds (c : Cond) (a b : Z) : bool :=
  match c with
  | CondEq => a =? b
  | CondNe => negb (a =? b)
  | CondLt => as_i64 a <? as_i64 b
  | CondGe => as_i64 b <=? as_i64 a
  | CondLe => as_i64 a <=? as_i64 b
  | CondGt => as_i64 b <? as_i64 a
  | CondUlt => a <? b
  | CondUge => b <=? a
  | CondUle => a <=? b
  | CondUgt => b <? a
  | CondAl => true
  end.

(** The four flags of a subtraction, in arithmetic terms. *)
Lemma sub_flags old a b : is_u64 a → is_u64 b →
  flags_of FlagSub old a b (wrapping_sub a b) =
  mkFlags (a =? b) (as_i64 (wrapping_sub a b) <? 0) (b <=? a)
    (negb (bool_decide (- 2 ^ 63 ≤ as_i64 a - as_i64 b < 2 ^ 63))).
Proof.
  intros Ha Hb. pose proof (wrap64_is_u64 (a - b)) as Hr. change (is_u64 (wrapping_sub a b)) in Hr.
  unfold flags_of. rewrite sign_land, !sign_lxor.
  change (Z.shiftr (wrapping_sub a b) 63) with (sign (wrapping_sub a b)).
  assert ((wrapping_sub a b =? 0) = (a =? b)) as ->.
  { apply Bool.eq_iff_eq_true. rewrite !Z.eqb_eq.
    destruct (wrapping_sub_cases a b Ha Hb); unfold is_u64 in *; lia. }
  f_equal.
  - destruct (sign_cases _ Hr) as [(->&?&->)|(->&?&->)]; simpl; lia.
  - destruct (bool_decide_reflect (- 2 ^ 63 ≤ as_i64 a - as_i64 b < 2 ^ 63)) as [Hin|Hin];
    destruct (wrapping_sub_cases a b Ha Hb) as [[? Hw]|[? Hw]];
    destruct (sign_cases a Ha) as [(->&?&Ea)|(->&?&Ea)];
    destruct (sign_cases b Hb) as [(->&?&Eb)|(->&?&Eb)];
    destruct (sign_cases _ Hr) as [(->&?&_)|(->&?&_)]; simpl; try done;
    exfalso; unfold U64 in *; lia.
Qed.

(** Condition codes decide exactly the comparison they name: after a CMP of two
    64-bit words each of the eleven branch conditions holds if and only if the
    corresponding equality, signed or unsigned comparison of the operands does. *)
Theorem compare_branch_exact old cond a b :
  is_u64 a → is_u64 b →
  flags_test (flags_of FlagSub old a b (wrapping_sub a b)) cond = cond_holds cond a b.
Proof.
  intros Ha Hb. rewrite sub_flags by done.
  pose proof (wrap64_is_u64 (a - b)) as Hr. change (is_u64 (wrapping_sub a b)) in Hr.
  assert (Hlt : xorb (as_i64 (wrapping_sub a b) <? 0)
    (negb (bool_decide (- 2 ^ 63 ≤ as_i64 a - as_i64 b < 2 ^ 63))) = (as_i64 a <? as_i64 b)).
  { destruct (bool_decide_reflect (- 2 ^ 63 ≤ as_i64 a - as_i64 b < 2 ^ 63)) as [Hin|Hin];
    destruct (wrapping_sub_cases a b Ha Hb) as [[? Hw]|[? Hw]];
    destruct (sign_cases a Ha) as [(_&?&Ea)|(_&?&Ea)];
    destruct (sign_cases b Hb) as [(_&?&Eb)|(_&?&Eb)];
    destruct (sign_cases _ Hr) as [(_&?&Er)|(_&?&Er)];
    destruct (Z.ltb_spec (as_i64 (wrapping_sub a b)) 0), (Z.ltb_spec (as_i64 a) (as_i64 b));
    simpl; try done; exfalso; unfold U64 in *; lia. }
  assert (Heq : as_i64 a = as_i64 b ↔ a = b).
  { destruct (sign_cases a Ha) as [(_&?&->)|(_&?&->)], (sign_cases b Hb) as [(_&?&->)|(_&?&->)];
      unfold U64 in *; lia. }
  destruct cond; cbn [flags_test fl_z fl_n fl_c fl_v cond_holds]; rewrite <- ?Bool.negb_xorb, ?Hlt; lia.
Qed.

Lemma compare_branch_exact_witness :
  flags_test (flags_of FlagSub (mkFlags false false false false) 1 u64_max (wrapping_sub 1 u64_max)) CondGt = true ∧
  flags_test (flags_of FlagSub (mkFlags false false false false) 1 u64_max (wrapping_sub 1 u64_max)) CondUlt = true.
Proof.
  split.
  - rewrite (compare_branch_exact _ CondGt 1 u64_max); [vm_compute; reflexivity|..]; unfold is_u64, u64_max, U64; lia.
  - rewrite (compare_branch_exact _ CondUlt 1 u64_max); [vm_compute; reflexivity|..]; unfold is_u64, u64_max, U64; lia.
Defined.

(** ** Addition flags *)

(** After an ADD of two 64-bit words the carry flag tells exactly whether the
    unsigned sum leaves the 64-bit range and the overflow flag whether the signed
    sum does; zero and sign are those of the wrapped result. *)
Theorem add_flags_exact old a b :
  is_u64 a → is_u64 b →
  flags_of FlagArith old a b (wrapping_add a b) =
  mkFlags (wrapping_add a b =? 0) (as_i64 (wrapping_add a b) <? 0) (U64 <=? a + b)
    (negb (bool_decide (- 2 ^ 63 ≤ as_i64 a + as_i64 b < 2 ^ 63))).
Proof.
  intros Ha Hb. pose proof (wrap64_is_u64 (a + b)) as Hr. change (is_u64 (wrapping_add a b)) in Hr.
  unfold flags_of. rewrite sign_land, sign_not, !sign_lxor.
  change (Z.shiftr (wrapping_add a b) 63) with (sign (wrapping_add a b)).
  change (sign (Z.lxor a b)) with (Z.shiftr (Z.lxor a b) 63). rewrite sign_lxor.
  f_equal.
  - destruct (sign_cases _ Hr) as [(->&?&->)|(->&?&->)]; simpl; lia.
  - destruct (wrapping_add_cases a b Ha Hb) as [[? ->]|[? ->]]; unfold is_u64 in *; lia.
  - destruct (bool_decide_reflect (- 2 ^ 63 ≤ as_i64 a + as_i64 b < 2 ^ 63)) as [Hin|Hin];
    destruct (wrapping_add_cases a b Ha Hb) as [[? Hw]|[? Hw]];
    destruct (sign_cases a Ha) as [(->&?&Ea)|(->&?&Ea)];
    destruct (sign_cases b Hb) as [(->&?&Eb)|(->&?&Eb)];
    destruct (sign_cases _ Hr) as [(->&?&_)|(->&?&_)]; simpl; try done;
    exfalso; unfold U64 in *; lia.
Qed.

Lemma add_flags_exact_witness :
  flags_of FlagArith (mkFlags false false false false) (2 ^ 63) (2 ^ 63) (wrapping_add (2 ^ 63) (2 ^ 63))
  = mkFlags true false true true.
Proof.
  rewrite (add_flags_exact _ (2 ^ 63) (2 ^ 63)); [vm_compute; reflexivity|..]; unfold is_u64, U64; lia.
Defined.

(** ** The ALU *)
Lemma land_63 b : Z.land b 63 = b mod 64.
Proof. change 63 with (Z.ones 6). by rewrite Z.land_ones. Qed.

(** Every operation as a function on integers. *)
Definition alu_spec (op : AluOp) (a b : Z) : Z :=
  match op with
  | AluAdd => (a + b) mod 2 ^ 64
  | AluSub => (a - b) mod 2 ^ 64
  | AluAnd => Z.land a b
  | AluOr => Z.lor a b
  | AluXor => Z.lxor a b
  | AluShl => (a * 2 ^ (b mod 64)) mod 2 ^ 64
  | AluShr => a / 2 ^ (b mod 64)
  | AluAsr => (as_i64 a / 2 ^ (b mod 64)) mod 2 ^ 64
  | AluMul => (a * b) mod 2 ^ 64
  end.

Lemma bits_u64 x : 0 ≤ x → (∀ i, 64 ≤ i → Z.testbit x i = false) → is_u64 x.
Proof.
  intros Hx Hb. unfold is_u64, U64. split; [done|].
  destruct (Z.eq_dec x 0) as [->|]; [lia|]. apply Z.log2_lt_pow2; [lia|].
  destruct (Z.lt_ge_cases (Z.log2 x) 64) as [|Hge]; [done|].
  apply Hb in Hge. rewrite Z.bit_log2 in Hge by lia. done.
Qed.
Lemma u64_bits x i : is_u64 x → 64 ≤ i → Z.testbit x i = false.
Proof.
  intros [? Hx] Hi. destruct (Z.eq_dec x 0) as [->|]; [apply Z.bits_0|].
  apply Z.bits_above_log2; [lia|]. change U64 with (2 ^ 64) in Hx. apply Z.log2_lt_pow2 in Hx; lia.
Qed.

Lemma alu_bitwise op a b : is_u64 a → is_u64 b →
  op = AluAnd ∨ op = AluOr ∨ op = AluXor → is_u64 (alu_eval op a b).
Proof.
  intros Ha Hb Hop. pose proof (proj1 Ha). pose proof (proj1 Hb).
  destruct Hop as [->|[->| ->]]; simpl; apply bits_u64.
  - apply Z.land_nonneg. lia.
  - intros i Hi. by rewrite Z.land_spec, (u64_bits a) by done.
  - apply Z.lor_nonneg. lia.
  - intros i Hi. by rewrite Z.lor_spec, (u64_bits a), (u64_bits b) by done.
  - apply Z.lxor_nonneg. lia.
  - intros i Hi. by rewrite Z.lxor_spec, (u64_bits a), (u64_bits b) by done.
Qed.

(** Every ALU operation maps 64-bit words to a 64-bit word and computes its
    mathematical value modulo 2^64: shifts scale by the low six bits of the second
    operand, the arithmetic shift divides the signed value rounding down. *)
Theorem alu_eval_spec op a b :
  is_u64 a → is_u64 b → alu_eval op a b = alu_spec op a b ∧ is_u64 (alu_eval op a b).
Proof.
  intros Ha Hb. pose proof (Z.mod_pos_bound b 64 ltac:(lia)).
  destruct op; try (split; [done|by apply alu_bitwise; auto]); simpl.
  - split; [done|apply wrap64_is_u64].
  - split; [done|apply wrap64_is_u64].
  - split; [|apply wrap64_is_u64]. by rewrite Z.shiftl_mul_pow2, land_63 by (rewrite land_63; lia).
  - rewrite land_63, Z.shiftr_div_pow2 by lia. split; [done|].
    pose proof (Z.pow_pos_nonneg 2 (b mod 64)). unfold is_u64 in *. split; [apply Z.div_pos; lia|].
    apply Z.div_lt_upper_bound; [lia|]. nia.
  - split; [|apply wrap64_is_u64]. by rewrite land_63, Z.shiftr_div_pow2 by lia.
  - split; [done|apply wrap64_is_u64].
Qed.

Lemma alu_eval_spec_witness : alu_eval AluAsr (u64_max - 7) 2 = u64_max - 1.
Proof.
  destruct (alu_eval_spec AluAsr (u64_max - 7) 2) as [-> _].
  - unfold is_u64, u64_max, U64. lia.
  - unfold is_u64, U64. lia.
  - vm_compute. reflexivity.
Defined.
