(* ===== verification/CoreFault.v ===== *)
(** * Fault atomicity of the instruction step

    A step that faults changes nothing of the core, and nothing of the fabric but
    the transaction and fault logs. *)

From S2P Require Import Prelude State Extents Registry PointerFrames HeapLedger Fabric.
From S2P Require Import FabricTx FabricInv FabricSafety FabricCells FabricHeap Desc Isa Core.

(** ** Only the logs differ *)
Definition tx_only (f f' : Fabric) : Prop :=
  ∃ txs n log, f' = set_fab_fault_log log (set_fab_next_tx_id n (set_fab_transactions txs f)).

Lemma tx_only_refl f : tx_only f f.
Proof. exists (fab_transactions f), (fab_next_tx_id f), (fab_fault_log f). by destruct f. Qed.
Lemma tx_only_trans f g h : tx_only f g → tx_only g h → tx_only f h.
Proof. intros (?&?&?&->) (?&?&?&->). by do 3 eexists. Qed.
#[export] Instance tx_only_preorder : PreOrder tx_only.
Proof. split; [exact tx_only_refl|exact tx_only_trans]. Qed.

Lemma update_tx_only f i k f' : update_tx f i k = Done f' → tx_only f f'.
Proof.
  unfold update_tx. destruct (vec_get _ _); [|done]. simpl. intros. guards.
  by eexists _, (fab_next_tx_id f), (fab_fault_log f).
Qed.
Lemma fault_tx_only f i r f' : fault_tx f i r = Done f' → tx_only f f'.
Proof.
  unfold fault_tx. destruct (vec_get _ _); [|done]. simpl. intros. guards.
  by eexists _, (fab_next_tx_id f), _.
Qed.
#[export] Hint Resolve tx_only_refl update_tx_only fault_tx_only : anka.

Definition state_at (f : Fabric) (i : nat) : option TxState := tx_state <$> fab_transactions f !! i.

Lemma update_tx_state f i k s f' :
  (∀ t, tx_state (k t) = s) → update_tx f i k = Done f' → state_at f' i = Some s.
Proof.
  intros Hk. unfold update_tx, state_at. destruct (fab_transactions f !! i) as [t|] eqn:E.
  - rewrite (vec_get_lookup _ _ _ E). simpl. intros. guards. cbn.
    rewrite list_lookup_insert_eq by (by eapply lookup_lt_Some). simpl. by rewrite Hk.
  - unfold vec_get. by rewrite E.
Qed.
Lemma fault_tx_state f i r f' : fault_tx f i r = Done f' → state_at f' i = Some Faulted.
Proof.
  unfold fault_tx, state_at. destruct (fab_transactions f !! i) as [t|] eqn:E.
  - rewrite (vec_get_lookup _ _ _ E). simpl. intros. guards. cbn.
    by rewrite list_lookup_insert_eq by (by eapply lookup_lt_Some).
  - unfold vec_get. by rewrite E.
Qed.

Lemma precommit_tx_only f i f' s : validate_precommit f i = Done (f', s) → tx_only f f'.
Proof. unfold validate_precommit. intros Hc. run_binds Hc; guards; eauto with anka. Qed.

Lemma phase_commit_cases f i f' :
  phase_commit f i = Done f' → tx_only f f' ∨ state_at f' i = Some Committed.
Proof.
  unfold phase_commit. intros Hc. destruct (validate_precommit f i) as [[g s]|] eqn:Hv; [|done].
  simpl in Hc. destruct s as [[b e]|].
  - right. run_binds Hc. by eapply update_tx_state; [|done].
  - left. guards. by eapply precommit_tx_only.
Qed.

(** One phase either only logs or commits transaction [i]. *)
Lemma advance_cases f i f' : advance f i = Done f' → tx_only f f' ∨ state_at f' i = Some Committed.
Proof.
  unfold advance. intros Ha. run_binds Ha.
  - unfold phase_authorize in Ha. run_binds Ha; eauto with anka.
  - unfold phase_translate in Ha. run_binds Ha; eauto with anka.
  - by apply phase_commit_cases.
  - guards. eauto with anka.
  - guards. eauto with anka.
Qed.

Lemma advance_committed f i f' :
  state_at f i = Some Committed → advance f i = Done f' → f' = f.
Proof.
  unfold state_at, advance. destruct (fab_transactions f !! i) as [t|] eqn:E; [|done].
  rewrite (vec_get_lookup _ _ _ E). simpl. intros [= ->] Ha. by guards.
Qed.

(** The first two phases cannot commit. *)
Lemma advance_early f i f' :
  state_at f i = Some Requested ∨ state_at f i = Some Authorized ∨ state_at f i = Some Faulted →
  advance f i = Done f' →
  state_at f' i = Some Faulted ∨
  (state_at f i = Some Requested ∧ state_at f' i = Some Authorized) ∨
  (state_at f i = Some Authorized ∧ state_at f' i = Some Prepared).
Proof.
  intros Hs Ha. unfold advance in Ha. unfold state_at in Hs.
  destruct (fab_transactions f !! i) as [t|] eqn:E; [|naive_solver]. simpl in Hs.
  assert (state_at f i = Some (tx_state t)) as Hst by (unfold state_at; by rewrite E). rewrite Hst.
  rewrite (vec_get_lookup _ _ _ E) in Ha. cbn [mbind outcome_bind] in Ha.
  destruct (tx_state t); [| |naive_solver..|guards; naive_solver].
  - unfold phase_authorize in Ha. rewrite (vec_get_lookup _ _ _ E) in Ha. cbn [mbind outcome_bind] in Ha.
    destruct (authorize _ _); [|left; by eapply fault_tx_state].
    right. left. split; [done|]. by eapply update_tx_state; [|done].
  - unfold phase_translate in Ha. rewrite (vec_get_lookup _ _ _ E) in Ha. cbn [mbind outcome_bind] in Ha.
    destruct (translate _ _ _); [|left; by eapply fault_tx_state].
    right. right. split; [done|]. by eapply update_tx_state; [|done].
Qed.

(** Not ending up committed means that no phase touched anything but the logs. *)
Lemma advance_not_committed f i f' :
  advance f i = Done f' → state_at f' i ≠ Some Committed → tx_only f f' ∧ state_at f i ≠ Some Committed.
Proof.
  intros Ha Hs. split; [by destruct (advance_cases f i f' Ha)|].
  intros Hc. by rewrite (advance_committed f i f' Hc Ha) in Hs.
Qed.

Lemma advance3_not_committed f i f' :
  advance3 f i = Done f' → state_at f' i ≠ Some Committed → tx_only f f'.
Proof.
  unfold advance3. intros Ha Hs.
  destruct (advance f i) as [f1|] eqn:E1; [|done]. cbn [mbind outcome_bind] in Ha.
  destruct (advance f1 i) as [f2|] eqn:E2; [|done]. cbn [mbind outcome_bind] in Ha.
  apply advance_not_committed in Ha as [? ?]; [|done].
  apply advance_not_committed in E2 as [? ?]; [|done].
  apply advance_not_committed in E1 as [? _]; [|done]. by do 2 (etransitivity; [done|]).
Qed.

(** A transaction without write data never changes memory. *)
Definition no_data (f : Fabric) (i : nat) : Prop :=
  ∃ t, fab_transactions f !! i = Some t ∧ tx_write_data t = None.

Lemma update_tx_no_data f i k f' :
  (∀ t, tx_write_data (k t) = tx_write_data t) → no_data f i → update_tx f i k = Done f' → no_data f' i.
Proof.
  intros Hk (t&Ht&Hd). unfold update_tx. rewrite (vec_get_lookup _ _ _ Ht). simpl. intros. guards.
  exists (k t). cbn. rewrite Hk. split; [|done]. apply list_lookup_insert_eq. by eapply lookup_lt_Some.
Qed.
Lemma fault_tx_no_data f i r f' : no_data f i → fault_tx f i r = Done f' → no_data f' i.
Proof.
  intros (t&Ht&Hd) Hf. apply (fault_tx_inv _ _ _ _ _ Ht) in Hf as [Hf _].
  exists (faulted t r). rewrite Hf. split; [|done]. apply list_lookup_insert_eq. by eapply lookup_lt_Some.
Qed.

Lemma phase_commit_no_data f i f' :
  no_data f i → phase_commit f i = Done f' → tx_only f f' ∧ no_data f' i.
Proof.
  intros Hn Hc. pose proof Hn as (t&Ht&Hd). unfold phase_commit in Hc.
  destruct (validate_precommit f i) as [[g s]|] eqn:Hv; [|done]. cbn [mbind outcome_bind] in Hc.
  apply (precommit_cases _ _ _ _ _ Ht) in Hv as [[-> [reason Hf]]|(->&phys&->&Hg)].
  - guards. split; [by eapply fault_tx_only|by eapply fault_tx_no_data].
  - rewrite (vec_get_lookup _ _ _ Ht) in Hc. cbn [mbind outcome_bind] in Hc.
    destruct (is_mutating _) eqn:Hm.
    { destruct (gp_data _ _ _ Hg Hm) as (d&?&_). congruence. }
    destruct (mem_read _ _ _); [|done]. cbn [mbind outcome_bind] in Hc.
    destruct (update_tx f i _) as [g|] eqn:E1; [|done]. cbn [mbind outcome_bind] in Hc. split.
    + etransitivity; by eapply update_tx_only.
    + eapply update_tx_no_data; [| |done]; [done|]. eapply update_tx_no_data; [| |exact E1]; done.
Qed.

Lemma advance_no_data f i f' :
  no_data f i → advance f i = Done f' → tx_only f f' ∧ no_data f' i.
Proof.
  intros Hn Ha. pose proof Hn as (t&Ht&Hd). unfold advance in Ha.
  rewrite (vec_get_lookup _ _ _ Ht) in Ha. cbn [mbind outcome_bind] in Ha.
  destruct (tx_state t); [| |by apply phase_commit_no_data|guards; by split..].
  - unfold phase_authorize in Ha. rewrite (vec_get_lookup _ _ _ Ht) in Ha. cbn [mbind outcome_bind] in Ha.
    destruct (authorize _ _).
    + split; [by eapply update_tx_only|]. by eapply update_tx_no_data; [|done..].
    + split; [by eapply fault_tx_only|by eapply fault_tx_no_data].
  - unfold phase_translate in Ha. rewrite (vec_get_lookup _ _ _ Ht) in Ha. cbn [mbind outcome_bind] in Ha.
    destruct (translate _ _ _).
    + split; [by eapply update_tx_only|]. by eapply update_tx_no_data; [|done..].
    + split; [by eapply fault_tx_only|by eapply fault_tx_no_data].
Qed.

Section logs.
Context `{Profile}.

Lemma submit_tx_only f r d f' i : submit f r d = Done (f', i) → tx_only f f'.
Proof.
  unfold submit. intros Hs. run_binds Hs. guards.
  match goal with E : (if _ then _ else _) = Done _ |- _ => rename E into Hf end.
  assert (∀ n txs, tx_only f (set_fab_transactions txs (set_fab_next_tx_id n f))) as Ht.
  { intros n txs. exists txs, n, (fab_fault_log f). reflexivity. }
  destruct (_ || _).
  - etransitivity; [apply Ht|by eapply fault_tx_only].
  - guards. apply Ht.
Qed.

Lemma state_at_get f i t : vec_get i (fab_transactions f) = Done t → state_at f i = Some (tx_state t).
Proof. unfold vec_get, state_at. destruct (_ !! i); simpl; intros; by guards. Qed.

Lemma execute_write_err f r d f' e : execute_write f r d = Done (f', Err e) → tx_only f f'.
Proof.
  unfold execute_write. intros Hs. run_binds Hs; guards; try done.
  etransitivity; [by eapply submit_tx_only|]. eapply advance3_not_committed; [done|].
  match goal with E : vec_get _ _ = Done ?t |- _ => rewrite (state_at_get _ _ _ E) end. congruence.
Qed.

Lemma submit_state f r d f' i :
  submit f r d = Done (f', i) → state_at f' i = Some Requested ∨ state_at f' i = Some Faulted.
Proof.
  unfold submit. intros Hs. run_binds Hs. guards.
  match goal with E : (if _ then _ else _) = Done _ |- _ => rename E into Hf end.
  destruct (_ || _); [right; by eapply fault_tx_state|]. guards. left.
  unfold state_at. cbn. rewrite length_app. simpl.
  replace (length (fab_transactions f) + 1 - 1)%nat with (length (fab_transactions f)) by lia.
  by rewrite list_lookup_middle.
Qed.

Lemma submit_no_data f r f' i : submit f r None = Done (f', i) → no_data f' i.
Proof.
  unfold submit. intros Hs. run_binds Hs. guards.
  match goal with E : (if _ then _ else _) = Done _ |- _ => rename E into Hf end.
  cbn [fab_transactions set_fab_transactions] in *.
  set (g := set_fab_transactions _ _) in *.
  set (i := (length (fab_transactions f ++ _) - 1)%nat) in *.
  assert (no_data g i) as Hn.
  { exists (mkTx (fab_next_tx_id f) r Requested None None None None None). split; [|done]. unfold g, i. cbn. rewrite length_app. simpl.
    replace (length (fab_transactions f) + 1 - 1)%nat with (length (fab_transactions f)) by lia.
    by apply list_lookup_middle. }
  destruct (_ || _); [by eapply fault_tx_no_data|by guards].
Qed.

Lemma execute_read_tx_only f r f' x : execute_read f r = Done (f', x) → tx_only f f'.
Proof.
  unfold execute_read. intros Hs. destruct (submit f r None) as [[g i]|] eqn:E; [|done].
  cbn [mbind outcome_bind] in Hs. unfold advance3 in Hs.
  assert (∃ g', tx_only g g' ∧ f' = g') as (g'&Hg&->); [|etransitivity; [by eapply submit_tx_only|done]].
  apply submit_no_data in E.
  destruct (advance g i) as [g1|] eqn:E1; [|done]. apply advance_no_data in E1 as [T1 N1]; [|done].
  cbn [mbind outcome_bind] in Hs.
  destruct (advance g1 i) as [g2|] eqn:E2; [|done]. apply advance_no_data in E2 as [T2 N2]; [|done].
  cbn [mbind outcome_bind] in Hs.
  destruct (advance g2 i) as [g3|] eqn:E3; [|done]. apply advance_no_data in E3 as [T3 N3]; [|done].
  cbn [mbind outcome_bind] in Hs. exists g3. split; [by do 2 (etransitivity; [done|])|].
  run_binds Hs; by guards.
Qed.

Lemma execute_xchg_err f r d f' e : execute_atomic_xchg f r d = Done (f', Err e) → tx_only f f'.
Proof.
  unfold execute_atomic_xchg. intros Hs. destruct (submit f r (Some d)) as [[g i]|] eqn:E; [|done].
  cbn [mbind outcome_bind] in Hs. apply submit_tx_only in E as T0.
  destruct (advance g i) as [g1|] eqn:E1; [|done]. cbn [mbind outcome_bind] in Hs.
  destruct (advance g1 i) as [g2|] eqn:E2; [|done]. cbn [mbind outcome_bind] in Hs.
  destruct (vec_get i (fab_transactions g2)) as [t|] eqn:Et; [|done]. cbn [mbind outcome_bind] in Hs.
  assert (tx_state t ≠ Committed → tx_only f g2) as Hkey.
  { intros Hc. apply advance_not_committed in E2 as [? Hc1].
    2:{ rewrite (state_at_get _ _ _ Et). congruence. }
    apply advance_not_committed in E1 as [? _]; [|done]. by do 2 (etransitivity; [done|]). }
  destruct (bool_decide_reflect (tx_state t = Faulted)) as [Hf|Hf].
  { run_binds Hs. guards. apply Hkey. congruence. }
  destruct (validate_precommit g2 i) as [[g3 [[b e']|]]|] eqn:Hv; [| |done];
    cbn [mbind outcome_bind] in Hs; run_binds Hs; guards.
  etransitivity; [apply Hkey|by eapply precommit_tx_only].
  intros Hc. apply submit_state in E. pose proof (state_at_get _ _ _ Et) as Hst.
  assert (state_at g1 i = Some Faulted ∨ state_at g1 i = Some Authorized) as H1.
  { destruct (advance_early g i g1) as [|[[]|[]]]; intuition congruence. }
  destruct (advance_early g1 i g2) as [|[[]|[]]]; intuition congruence.
Qed.
End logs.

(** ** Pointer operations *)
Lemma guard_Done {E A B} f (m : fallible E A) (k : A → outcome (Fabric * result E B)) f' x :
  guard f m k = Done (f', x) →
  (∃ e, m = Done (Err e) ∧ f' = f ∧ x = Err e) ∨ (∃ a, m = Done (Ok a) ∧ k a = Done (f', x)).
Proof.
  unfold guard. destruct m as [[a|e]|]; [| |done]; cbn; intros; guards; [right|left]; eauto.
Qed.

Ltac run_guards H :=
  repeat (match type of H with guard _ _ _ = _ => idtac end;
          apply guard_Done in H as [(?&_&->&_)|(?&?&H)]; [by apply tx_only_refl|]).

Section pointer_errors.
Context `{Profile} `{Host}.

Lemma write_tagged_err f key r p f' e : write_tagged_cell f key r p = Done (f', Err e) → tx_only f f'.
Proof.
  unfold write_tagged_cell. destruct (execute_write _ _ _) as [[g [u|e']]|] eqn:E; [| |done];
    cbn; intros; guards. by eapply execute_write_err.
Qed.

Lemma store_pointer_cell_err f r p f' e : store_pointer_cell f r p = Done (f', Err e) → tx_only f f'.
Proof.
  unfold store_pointer_cell. destruct (negb _); [intros; guards; apply tx_only_refl|].
  destruct (checked_pointer_cell _ _ _); [by apply write_tagged_err|]. intros. guards. apply tx_only_refl.
Qed.

Lemma load_pointer_cell_tx_only f r f' x : load_pointer_cell f r = Done (f', x) → tx_only f f'.
Proof.
  unfold load_pointer_cell. destruct (checked_pointer_cell _ _ _); [|intros; guards; apply tx_only_refl].
  destruct (execute_read f r) as [[g [u|e']]|] eqn:E; [| |done]; cbn; intros; guards;
    by eapply execute_read_tx_only.
Qed.

Lemma store_heap_token_err f r owner p f' e :
  store_heap_token_in_local f r owner p = Done (f', Err e) → tx_only f f'.
Proof.
  unfold store_heap_token_in_local. destruct (negb _); [intros; guards; apply tx_only_refl|].
  destruct (authenticate_heap_token _ _ _ _) as [[]|]; [| |done]; cbn; [|intros; guards; apply tx_only_refl].
  destruct (checked_pointer_cell _ _ _); [by apply write_tagged_err|]. intros. guards. apply tx_only_refl.
Qed.

Lemma fabric_result_err {A} x f' (e : PointerMachineError) :
  fabric_result (A := A) x = (f', Err e) → ∃ e', x = (f', Err e').
Proof. destruct x as [g [a|e']]; unfold fabric_result; cbn; intros; guards. by eexists. Qed.

Lemma core_pointer_store_err c f src a f' e :
  core_pointer_store c f src a = Done (f', Err e) → tx_only f f'.
Proof.
  unfold core_pointer_store. intros Hs. run_guards Hs.
  assert (∀ x, (x ← store_pointer_cell f x0 x; Done (fabric_result x)) = Done (f', Err e) → tx_only f f') as Hst.
  { intros y Hy. destruct (store_pointer_cell f x0 y) as [z|] eqn:E; [|done]. cbn in Hy.
    apply (inj Done), fabric_result_err in Hy as [e' ->]. by eapply store_pointer_cell_err. }
  destruct x as [p|]; [|by eapply Hst]. destruct (is_heap_pointer _ _); [|by eapply Hst].
  run_guards Hs. destruct (store_heap_token_in_local _ _ _ _) as [z|] eqn:E; [|done]. cbn in Hs.
  apply (inj Done), fabric_result_err in Hs as [e' ->]. by eapply store_heap_token_err.
Qed.

Lemma core_pointer_load_tx_only c f dst a f' x : core_pointer_load c f dst a = Done (f', x) → tx_only f f'.
Proof.
  unfold core_pointer_load. intros Hs. run_guards Hs.
  destruct (load_pointer_cell f x1) as [[g p]|] eqn:E; [|done]. cbn in Hs.
  apply load_pointer_cell_tx_only in E.
  destruct (map_err PFabric p); [|by guards].
  apply guard_Done in Hs as [(?&_&->&_)|(?&?&Hs)]; [done|]. by guards.
Qed.

Lemma core_pointer_read_tx_only c f s w f' x : core_pointer_read c f s w = Done (f', x) → tx_only f f'.
Proof.
  unfold core_pointer_read. intros Hs. run_guards Hs. destruct (is_heap_pointer _ _); run_guards Hs.
  - destruct (read_heap_bytes _ _ _ _ _); [|done]. cbn in Hs. guards. apply tx_only_refl.
  - destruct (execute_read _ _) as [[g y]|] eqn:E; [|done]. cbn in Hs. unfold fabric_result in Hs.
    guards. by eapply execute_read_tx_only.
Qed.

Lemma core_pointer_write_err c f s w d f' e : core_pointer_write c f s w d = Done (f', Err e) → tx_only f f'.
Proof.
  unfold core_pointer_write. intros Hs. run_guards Hs. destruct (is_heap_pointer _ _).
  - destruct (negb _); [guards; apply tx_only_refl|]. run_guards Hs.
    destruct (write_heap_bytes _ _ _ _ _) as [[]|]; [| |done]; cbn in Hs; guards. apply tx_only_refl.
  - run_guards Hs. destruct (execute_write _ _ _) as [y|] eqn:E; [|done]. cbn in Hs.
    apply (inj Done), fabric_result_err in Hs as [e' ->]. by eapply execute_write_err.
Qed.

Lemma pointer_load_indirect_tx_only c f d b disp f' x :
  pointer_load_indirect c f d b disp = Done (f', x) → tx_only f f'.
Proof.
  unfold pointer_load_indirect. intros Hs. run_guards Hs. destruct (is_heap_pointer _ _); run_guards Hs.
  - guards. apply tx_only_refl.
  - by eapply core_pointer_load_tx_only.
Qed.

Lemma pointer_store_indirect_err c f s b disp f' e :
  pointer_store_indirect c f s b disp = Done (f', Err e) → tx_only f f'.
Proof.
  unfold pointer_store_indirect. intros Hs. run_guards Hs. destruct (is_heap_pointer _ _); run_guards Hs.
  - destruct (store_heap_pointer_cell _ _ _ _ _) as [[]|]; [| |done]; cbn in Hs; guards. apply tx_only_refl.
  - by eapply core_pointer_store_err.
Qed.

Lemma enter_pointer_frame_err c f i f' e : enter_pointer_frame c f i = Done (f', Err e) → f' = f.
Proof.
  unfold enter_pointer_frame. intros Hs.
  apply guard_Done in Hs as [(?&_&->&_)|([[[? ?] ?] ?]&_&Hs)]; [done|].
  apply guard_Done in Hs as [(?&_&->&_)|([? [? ?]]&_&Hs)]; [done|]. run_binds Hs.
Qed.

Lemma leave_pointer_frame_err c f f' e : leave_pointer_frame c f = Done (f', Err e) → f' = f.
Proof.
  unfold leave_pointer_frame. intros Hs. apply guard_Done in Hs as [(?&_&->&_)|(s&_&Hs)]; [done|].
  destruct (fs_active s); [by guards|]. run_binds Hs; [by guards|].
  apply guard_Done in Hs as [(?&_&->&_)|(?&_&Hs)]; [done|]. run_binds Hs.
Qed.

Lemma pointer_insn_err c f i f' e : pointer_insn c f i = Done (f', Err e) → tx_only f f'.
Proof.
  unfold pointer_insn, lift_core, lift_unit. intros Hs.
  destruct (insn_semantics (d_desc i)); try discriminate Hs.
  - run_binds Hs. guards. apply tx_only_refl.
  - run_binds Hs. guards. apply tx_only_refl.
  - by eapply pointer_load_indirect_tx_only.
  - destruct (pointer_store_indirect _ _ _ _ _) as [[g [u|e']]|] eqn:E; [| |done]; cbn in Hs; guards.
    by eapply pointer_store_indirect_err.
  - destruct (core_pointer_read _ _ _ _) as [[g [u|e']]|] eqn:E; [| |done]; cbn in Hs.
    + run_binds Hs.
    + guards. by eapply core_pointer_read_tx_only.
  - destruct (core_pointer_write _ _ _ _ _) as [[g [u|e']]|] eqn:E; [| |done]; cbn in Hs; guards.
    by eapply core_pointer_write_err.
  - apply enter_pointer_frame_err in Hs as ->. apply tx_only_refl.
  - run_binds Hs. guards. apply tx_only_refl.
  - apply leave_pointer_frame_err in Hs as ->. apply tx_only_refl.
Qed.
End pointer_errors.

(** ** Steps *)
Section steps.
Context `{Profile} `{Host}.

Lemma fabric_write_err c f a w d f' e : fabric_write c f a w d = Done (f', Err e) → tx_only f f'.
Proof.
  unfold fabric_write. intros Hs. run_binds Hs; [by eapply execute_write_err|].
  guards. apply tx_only_refl.
Qed.
Lemma fabric_read_tx_only c f a w k f' x : fabric_read c f a w k = Done (f', x) → tx_only f f'.
Proof.
  unfold fabric_read. intros Hs. run_binds Hs; [by eapply execute_read_tx_only|].
  guards. apply tx_only_refl.
Qed.
Lemma fabric_xchg_err c f a w d f' e : fabric_atomic_xchg c f a w d = Done (f', Err e) → tx_only f f'.
Proof.
  unfold fabric_atomic_xchg. intros Hs. run_binds Hs; [by eapply execute_xchg_err|].
  guards. apply tx_only_refl.
Qed.

(** An instruction that ends the step either halts or leaves everything alone. *)
Definition stopped (c : Anka64Core) (f : Fabric) (c' : Anka64Core) (f' : Fabric) (r : StepResult) : Prop :=
  (c' = c ∧ tx_only f f' ∧ ∃ e, r = Fault e) ∨ (c' = set_core_halted true c ∧ f' = f ∧ r = Halted).

Lemma stopped_fault c f e : stopped c f c f (Fault e).
Proof. left. eauto using tx_only_refl. Qed.
Lemma stopped_pointer c f f' e : tx_only f f' → stopped c f c f' (pointer_fault c e).
Proof. intros. left. split_and!; [done..|]. destruct e; simpl; eauto. Qed.

Lemma step_pointer_stop c f i n c' f' r :
  step_pointer c f i n = Done (Stop c' f' r) → stopped c f c' f' r.
Proof.
  unfold step_pointer. destruct (frame_current c f) as [[s|e]|]; [| |done]; cbn; intros Hs.
  - destruct (pointer_insn c f i) as [[g [c1|e]]|] eqn:E; [| |done]; cbn in Hs; simplify_eq.
    apply stopped_pointer. by eapply pointer_insn_err.
  - simplify_eq. apply stopped_pointer, tx_only_refl.
Qed.

Lemma step_byte_stop c f i n c' f' r :
  step_byte c f i n = Done (Stop c' f' r) → stopped c f c' f' r.
Proof.
  unfold step_byte. intros Hs. destruct (byte_request _ _ _ _); [|simplify_eq; apply stopped_fault].
  destruct (bool_decide _).
  - destruct (execute_read _ _) as [[g [b|e]]|] eqn:E; [| |done]; cbn in Hs; run_binds Hs; simplify_eq.
    left. eauto using execute_read_tx_only.
  - destruct (execute_write _ _ _) as [[g [b|e]]|] eqn:E; [| |done]; cbn in Hs; simplify_eq.
    left. eauto using execute_write_err.
Qed.

Lemma execute_stop c f i c' f' r : execute c f i = Done (Stop c' f' r) → stopped c f c' f' r.
Proof.
  unfold execute. intros Hs. destruct (add_u64 _ _) as [n|]; [|done]. cbn [mbind outcome_bind] in Hs.
  destruct (_ && _); [simplify_eq; apply stopped_fault|].
  destruct (insn_semantics (d_desc i)); try discriminate Hs; try exact (step_pointer_stop _ _ _ _ _ _ _ Hs).
  all: try exact (step_byte_stop _ _ _ _ _ _ _ Hs).
  all: try (run_binds Hs; simplify_eq; done).
  - unfold step_load in Hs.
    destruct (fabric_read _ _ _ _ _) as [[g [b|e]]|] eqn:E; [| |done]; cbn in Hs; run_binds Hs; simplify_eq.
    left. eauto using fabric_read_tx_only.
  - unfold step_store in Hs.
    destruct (fabric_write _ _ _ _ _) as [[g [b|e]]|] eqn:E; [| |done]; cbn in Hs; simplify_eq.
    left. eauto using fabric_write_err.
  - unfold step_xchg in Hs.
    destruct (fabric_atomic_xchg _ _ _ _ _) as [[g [b|e]]|] eqn:E; [| |done]; cbn in Hs; run_binds Hs; simplify_eq.
    left. eauto using fabric_xchg_err.
  - unfold step_call in Hs. run_binds Hs; simplify_eq; apply stopped_fault.
  - unfold step_ret in Hs. repeat case_match; simplify_eq; apply stopped_fault.
  - unfold step_trap in Hs. run_binds Hs; simplify_eq.
  - unfold step_eret in Hs. run_binds Hs; simplify_eq. apply stopped_fault.
  - simplify_eq. by right.
Qed.

(** C28: Faults are atomic: an instruction that faults, for whatever reason and at
    whatever phase (misaligned pc, fetch, decode, operand access, pointer machine,
    control flow), leaves the whole core unchanged (registers, pointer kinds, pc,
    flags, return and event stacks) and of the fabric changes only the
    transaction and fault logs. *)
Theorem step_fault_atomic c f c' f' e :
  step c f = Done (c', f', Fault e) → c' = c ∧ tx_only f f'.
Proof.
  unfold step. intros Hs. destruct (core_halted c); [by guards|].
  destruct (negb _); [simplify_eq; split; [done|apply tx_only_refl]|].
  destruct (fabric_read _ _ _ _ _) as [[g [b|e']]|] eqn:E; [| |done]; cbn in Hs;
    apply fabric_read_tx_only in E; [|by simplify_eq].
  destruct (is_illegal _); [by simplify_eq|].
  destruct (execute c g _) as [[c1 f1 r|c1 f1 pc]|] eqn:Ee; [| |done]; cbn in Hs; simplify_eq.
  apply execute_stop in Ee as [(->&?&_)|(_&_&?)]; [|done]. split; [done|]. by etransitivity.
Qed.
End steps.

(** A core of domain 0 whose code window maps object 0. *)
Definition demo_host : Host := {|
  reserve_exact := Some; try_reserve _ _ := true; size_of_opt_claim := 64; size_of_extent := 16;
  size_of_registry := 256; size_of_slot := 64; size_of_opt_scope := 64; size_of_opt_account := 64;
  size_of_opt_cleanup := 64; size_of_opt_host_storage := 64 |}.

Definition demo_core : Anka64Core :=
  let c := core_new 1 0 0 in
  mkCore (core_heap_owner c) 1 1 false [] (core_pointer_pairs c) None (replicate 16 0) 4096
    (core_flags c) 0 0 User [mkMapEntry 4096 32 0 0] false 512 [] true (core_pending c) TurnTimer [].

Lemma step_fault_atomic_witness :
  let P : Profile := true in let H : Host := demo_host in
  ∃ f' e, step demo_core two_objects = Done (demo_core, f', Fault e) ∧
    fault_reason e = WrongPermission ∧ tx_only two_objects f'.
Proof.
  intros P H. destruct (step demo_core two_objects) as [[[c' f'] r]|] eqn:E.
  - destruct r as [| |e].
    + exfalso. vm_compute in E. discriminate E.
    + exfalso. vm_compute in E. discriminate E.
    + destruct (step_fault_atomic demo_core two_objects c' f' e E) as [-> Ht].
      exists f', e. split_and!; [reflexivity| |exact Ht].
      assert (match step demo_core two_objects with
              | Done (_, _, Fault e) => fault_reason e = WrongPermission | _ => False end) as Hr
        by (vm_compute; reflexivity).
      by rewrite E in Hr.
  - exfalso. vm_compute in E. discriminate E.
Defined.
