(* ===== verification/CoreInv.v ===== *)
(** * Reachable cores

    Every way the core's state changes in the system (instruction steps against
    any fabric, interrupt posting and delivery, host-mediated event return and
    syscall results, program admission, heap replies, frame retirement) as one step
    relation, and the invariant it preserves: event frames and saved contexts
    agree, privilege and masking follow the event stack, return authority is only
    minted by CALL, and pointer kinds agree with the register words they tag. *)

From S2P Require Import Prelude State Extents Registry PointerFrames HeapLedger Fabric.
From S2P Require Import FabricTx FabricInv FabricCells FabricHeap Desc Isa Core CoreFault.

(** ** Steps *)

(** The instruction the next step would execute. *)
Definition current_insn `{Profile} (c : Anka64Core) (f : Fabric) : option DecodedInsn :=
  match fabric_read c f (core_pc c) WWord Fetch with
  | Done (_, Ok bytes) => Some (decode (le_value bytes))
  | _ => None
  end.

(** The instruction with semantics [s] is the current one. *)
Definition executes `{Profile} (c : Anka64Core) (f : Fabric) (s : Sem) : Prop :=
  ∃ i, current_insn c f = Some i ∧ insn_semantics (d_desc i) = s.

(** Where the program left the straight line: a CALL, with the code object its address
    lies in and the generation of that object at the time, or a TRAP *)
Inductive Site := CallSite (pc object generation : Z) | TrapSite (pc : Z).
Definition site_of `{Profile} (c : Anka64Core) (f : Fabric) (i : DecodedInsn) : option Site :=
  match insn_semantics (d_desc i) with
  | SemCall =>
      match resolve (core_address_map c) (core_pc c) with
      | Done (Some (k, _)) => (λ o, CallSite (core_pc c) k (obj_generation o)) <$> fab_objects f !! k
      | _ => None
      end
  | SemTrap => Some (TrapSite (core_pc c))
  | _ => None
  end.

(** [G] collects the sites of the instructions executed so far. *)
Definition record_site `{Profile} (c : Anka64Core) (f : Fabric) (G : list Site) : list Site :=
  option_list (i ← current_insn c f; site_of c f i) ++ G.

Section relation.
Context `{Profile} `{Host}.

Inductive core_step (c : Anka64Core) (G : list Site) : Anka64Core → list Site → Prop :=
| cs_step f c' f' r : step c f = Done (c', f', r) → core_step c G c' (record_site c f G)
| cs_post_timer : core_step c G (post_timer_interrupt c) G
| cs_post_device : core_step c G (post_device_interrupt c) G
| cs_deliver : core_step c G (deliver_pending c).1 G
| cs_resume c' pc : event_return c = Done (Some (c', pc)) → core_step c G c' G
| cs_result register v c' : write_syscall_result c register v = Done c' → core_step c G c' G
| cs_write register v c' : write_register c register v = Done c' → core_step c G c' G
| cs_set_pc pc : core_step c G (set_core_pc pc c) G
| cs_halted b : core_step c G (set_core_halted b c) G
| cs_bind_heap key : core_step c G (bind_heap_process c key) G
| cs_heap_reply permit p status malloc c' :
    commit_heap_event c permit p status malloc = Done c' → core_step c G c' G
| cs_admit f prog base low high c' f' :
    admit_pointer_program c f prog base low high = Done (f', Ok c') → core_step c G c' G
| cs_register_local f scope dst a len w c' f' : 0 ≤ dst →
    register_local_pointer c f scope dst a len w = Done (f', Ok c') → core_step c G c' G
| cs_retire f c' f' : retire_all_pointer_frames c f = Done (c', f') → core_step c G c' G.

(** From a new core with any identity and address map. *)
Inductive core_reach : Anka64Core → list Site → Prop :=
| cr_new context agent domain map_ vector :
    core_reach (mkCore None 1 context false [] (replicate 6 None) None (replicate 16 0) 0
      (mkFlags false false false false) agent domain User map_ false vector [] true
      (mkPending false false) TurnTimer []) []
| cr_step c G c' G' : core_reach c G → core_step c G c' G' → core_reach c' G'.
End relation.

(** ** The invariant *)
Definition coherent (rs : list Z) (ks : list (option ScopedPointer)) : Prop :=
  ∀ (i : nat) p, ks !! i = Some (Some p) →
    rs !! (2 * i)%nat = Some (words p).1 ∧ rs !! (2 * i + 1)%nat = Some (words p).2.

Definition minted `{Profile} (G : list Site) (a : ReturnAuthority) : Prop :=
  ∃ pc, CallSite pc (ret_code_object a) (ret_generation a) ∈ G ∧ add_u64 pc 4 = Done (ret_target a).
(** The frame of a system call returns behind the TRAP that entered it. *)
Definition trapped_from `{Profile} (G : list Site) (h : EventFrame) : Prop :=
  ev_cause h = Syscall → ∃ pc, TrapSite pc ∈ G ∧ add_u64 pc 4 = Done (ev_return_pc h).

Record image_wf `{Profile} (G : list Site) (i : EventRegisterImage) : Prop := {
  iw_words : length (im_words i) = 16%nat;
  iw_kinds : length (im_kinds i) = 6%nat;
  iw_coherent : coherent (im_words i) (im_kinds i);
  iw_minted : Forall (minted G) (im_return_stack i);
}.

Definition level {A} (l : list A) : Privilege := match l with [] => User | _ => Supervisor end.

(** Each frame returns to the level of the frames below it, and only the lowest
    may have been entered with interrupts enabled. *)
Fixpoint chain (l : list EventFrame) : Prop :=
  match l with
  | [] => True
  | h :: t => ev_return_privilege h = level t ∧
      (t ≠ [] → ev_interrupts_were_enabled h = false ∧ ev_cause h = Syscall) ∧ chain t
  end.

Record saved_wf `{Profile} (c : Anka64Core) (G : list Site) (s : SavedEventContext) : Prop := {
  sw_context : sv_context_id s = core_context_id c;
  sw_domain : sv_domain s = core_domain c;
  sw_image : is_some (sv_image s) = core_protected_context_enabled c;
  sw_results : length (sv_scalar_results s) = 13%nat;
  sw_wf : ∀ i, sv_image s = Some i → image_wf G i;
}.

Record core_inv `{Profile} (c : Anka64Core) (G : list Site) : Prop := {
  ci_r : length (core_r c) = 16%nat;
  ci_pairs : length (core_pointer_pairs c) = 6%nat;
  ci_coherent : coherent (core_r c) (core_pointer_pairs c);
  ci_minted : Forall (minted G) (core_return_stack c);
  ci_sync : sv_header <$> core_saved_event_contexts c = core_event_frames c;
  ci_saved : Forall (saved_wf c G) (core_saved_event_contexts c);
  ci_level : core_privilege c = level (core_event_frames c);
  ci_chain : chain (core_event_frames c);
  ci_masked : core_event_frames c ≠ [] → core_interrupts_enabled c = false;
  ci_trapped : Forall (trapped_from G) (core_event_frames c);
}.

(** ** Changes that stay inside the running context *)
Record core_local (c c' : Anka64Core) : Prop := {
  cl_context : core_context_id c' = core_context_id c;
  cl_domain : core_domain c' = core_domain c;
  cl_saved : core_saved_event_contexts c' = core_saved_event_contexts c;
  cl_frames : core_event_frames c' = core_event_frames c;
  cl_privilege : core_privilege c' = core_privilege c;
  cl_enabled : core_interrupts_enabled c' = core_interrupts_enabled c;
  cl_returns : core_return_stack c' = core_return_stack c;
  cl_pending : core_pending c' = core_pending c;
  cl_turn : core_interrupt_turn c' = core_interrupt_turn c;
  cl_protected : core_protected_context_enabled c' = core_protected_context_enabled c ∨
    core_event_frames c = [];
  cl_r : length (core_r c) = 16%nat → length (core_r c') = 16%nat;
  cl_pairs : length (core_pointer_pairs c) = 6%nat → length (core_pointer_pairs c') = 6%nat;
  cl_coherent : length (core_r c) = 16%nat → length (core_pointer_pairs c) = 6%nat →
    coherent (core_r c) (core_pointer_pairs c) → coherent (core_r c') (core_pointer_pairs c');
}.

Lemma core_local_refl c : core_local c c.
Proof. split; auto. Qed.
Lemma core_local_trans a b c : core_local a b → core_local b c → core_local a c.
Proof.
  intros [] []. split; try congruence; try (by eauto).
  intuition congruence.
Qed.
#[export] Instance core_local_preorder : PreOrder core_local.
Proof. split; [exact core_local_refl|exact core_local_trans]. Qed.

Section local.
Context `{Profile}.

Lemma core_local_inv c c' G : core_local c c' → core_inv c G → core_inv c' G.
Proof.
  intros L [? ? ? ? Hsync Hsaved ? ? ? ?]. destruct L as [Hc Hd Hs Hf ? ? ? ? ? Hp ? ? ?].
  split; rewrite ?Hs, ?Hf; try (by eauto); try congruence.
  destruct Hp as [Hp|Hp].
  - eapply Forall_impl; [exact Hsaved|]. intros s []. split; congruence || done.
  - rewrite Hp in Hsync. destruct (core_saved_event_contexts c); [constructor|done].
Qed.

Lemma coherent_write rs ks (i : nat) v :
  (i < 16)%nat → length ks = 6%nat → coherent rs ks →
  coherent (<[i := v]> rs) (if (i <? 12)%nat then <[(i / 2)%nat := None]> ks else ks).
Proof.
  intros Hi Hlen Hc j p Hj.
  assert (ks !! j = Some (Some p) ∧ (i ≠ 2 * j ∧ i ≠ 2 * j + 1)%nat) as [Hk [? ?]].
  { destruct (Nat.ltb_spec i 12).
    - apply list_lookup_insert_Some in Hj as [(_&?&_)|[Hne Hj]]; [done|]. split; [done|].
      split; intros ->; apply Hne; [rewrite Nat.mul_comm, Nat.div_mul by lia; done|].
      rewrite (Nat.mul_comm 2 j), Nat.div_add_l, Nat.div_small by lia. lia.
    - split; [done|]. apply lookup_lt_Some in Hj. lia. }
  destruct (Hc j p Hk) as [? ?]. by rewrite !list_lookup_insert_ne by lia.
Qed.

Lemma write_register_local c i v c' : write_register c i v = Done c' → core_local c c'.
Proof.
  unfold write_register, clear_pair. destruct ((0 <=? i) && (i <? 16)) eqn:Hi; [|done]. bools. simpl.
  intros. guards. assert ((i <? 12) = (Z.to_nat i <? 12)%nat) as Hb by (destruct (Z.ltb_spec i 12), (Nat.ltb_spec (Z.to_nat i) 12); lia).
  assert (Z.to_nat (i / 2) = (Z.to_nat i / 2)%nat) as Hd by (rewrite Z2Nat.inj_div by lia; done).
  split; cbn; destruct (i <? 12) eqn:E; cbn; rewrite ?length_insert; auto.
  - intros ? Hl Hc. rewrite Hd. pose proof (coherent_write _ _ (Z.to_nat i) v ltac:(lia) Hl Hc) as Hw.
    by rewrite <- Hb in Hw.
  - intros ? Hl Hc. pose proof (coherent_write _ _ (Z.to_nat i) v ltac:(lia) Hl Hc) as Hw.
    by rewrite <- Hb in Hw.
Qed.

Lemma coherent_install rs ks (k : nat) (p : option ScopedPointer) (w1 w2 : Z) :
  (k < 6)%nat → length rs = 16%nat → length ks = 6%nat → coherent rs ks →
  (∀ q, p = Some q → words q = (w1, w2)) →
  coherent (<[(2 * k + 1)%nat := w2]> (<[(2 * k)%nat := w1]> rs)) (<[k := p]> ks).
Proof.
  intros Hk Hr Hl Hc Hp j q Hj.
  apply list_lookup_insert_Some in Hj as [(->&->&_)|[Hne Hj]].
  - rewrite (Hp q eq_refl). simpl. split.
    + rewrite list_lookup_insert_ne by lia. apply list_lookup_insert_eq. lia.
    + apply list_lookup_insert_eq. rewrite length_insert. lia.
  - destruct (Hc j q Hj). by rewrite !list_lookup_insert_ne by lia.
Qed.

Lemma enable_protected_local c c' : enable_protected_context c = Ok c' → core_local c c'.
Proof.
  unfold enable_protected_context. destruct (core_protected_context_enabled c) eqn:E; cbn; intros.
  - guards. split; cbn; auto.
  - destruct (bool_decide_reflect (core_event_frames c = [])); cbn in *; guards. split; cbn; auto.
Qed.

Lemma pair_index start k : pointer_pair_index start = Ok k → 0 ≤ start → start = 2 * Z.of_nat k ∧ (k < 6)%nat.
Proof.
  unfold pointer_pair_index. destruct (Z.ltb_spec 10 start); cbn; [done|].
  destruct (Z.eqb_spec (start mod 2) 0) as [E|]; cbn; [|done]. intros. guards.
  pose proof (Z.div_mod start 2). pose proof (Z.div_pos start 2). lia.
Qed.

Lemma install_pointer_local c start p c' :
  0 ≤ start → install_pointer c start p = Ok c' → core_local c c'.
Proof.
  intros Hs Hi. unfold install_pointer in Hi.
  destruct (pointer_pair_index start) as [k|] eqn:Ek; [|done]. cbn in Hi.
  destruct (enable_protected_context c) as [c1|] eqn:Ec; [|done]. cbn in Hi. guards.
  apply pair_index in Ek as [Hst Hk]; [|done]. apply enable_protected_local in Ec.
  etransitivity; [exact Ec|]. split; cbn; rewrite ?length_insert; auto.
  intros Hr Hl Hc. replace (Z.to_nat start) with (2 * k)%nat by lia.
  apply coherent_install; auto. intros q ->. by destruct (words q).
Qed.

(** Bookkeeping outside the invariant's reach. *)
Lemma flags_local c e a b r : core_local c (update_flags c e a b r).
Proof. by split; auto. Qed.
Lemma set_pc_local c pc : core_local c (set_core_pc pc c).
Proof. by split; auto. Qed.
Lemma set_frames_local c s : core_local c (set_core_pointer_frames s c).
Proof. by split; auto. Qed.
Lemma set_halted_local c b : core_local c (set_core_halted b c).
Proof. by split; auto. Qed.
Lemma set_heap_owner_local c o : core_local c (set_core_heap_owner o c).
Proof. by split; auto. Qed.

(** ** Decoded register numbers *)
Lemma decode_fields w :
  0 ≤ d_rd (decode w) < 16 ∧ 0 ≤ d_rs1 (decode w) < 16 ∧ 0 ≤ d_rs2 (decode w) < 16.
Proof.
  assert (∀ x, 0 ≤ Z.land x 15 < 16) as Hland.
  { intros x. change 15 with (Z.ones 4). rewrite Z.land_ones by lia. apply Z.mod_pos_bound. lia. }
  unfold decode. destruct (by_opcode _) as [d|]; [|cbn; lia].
  destruct (insn_format d); cbn; split_and!; apply Hland.
Qed.
End local.

#[export] Hint Resolve write_register_local install_pointer_local flags_local set_pc_local
  set_frames_local set_halted_local set_heap_owner_local : anka.

(** Peel register writes off the end of a chain of changes. *)
Ltac writes :=
  repeat match goal with
         | E : write_register _ _ _ = Done ?x |- core_local _ ?x =>
             eapply core_local_trans; [|exact (write_register_local _ _ _ _ E)]
         end.

(** ** Pointer instructions *)
Section pointer_local.
Context `{Profile} `{Host}.

Lemma guard_Ok {E A B} f (m : fallible E A) (k : A → outcome (Fabric * result E B)) f' b :
  guard f m k = Done (f', Ok b) → ∃ a, m = Done (Ok a) ∧ k a = Done (f', Ok b).
Proof. unfold guard. destruct m as [[a|e]|]; [| |done]; cbn; intros; guards. eauto. Qed.

Lemma core_pointer_move_local c f d s c' :
  0 ≤ d → core_pointer_move c f d s = Done (Ok c') → core_local c c'.
Proof.
  intros ? (?&_&Hs)%try_Ok. apply try_call_Ok in Hs as (?&_&Hs). guards. by eapply install_pointer_local.
Qed.
Lemma core_pointer_add_local c f d s n c' :
  0 ≤ d → core_pointer_add c f d s n = Done (Ok c') → core_local c c'.
Proof.
  intros ? (?&_&Hs)%try_Ok. do 2 apply try_call_Ok in Hs as (?&_&Hs). guards. by eapply install_pointer_local.
Qed.
Lemma lookup_pointer_local_local c f d i c' :
  0 ≤ d → lookup_pointer_local c f d i = Done (Ok c') → core_local c c'.
Proof.
  intros ? (?&_&Hs)%try_Ok. apply try_call_Ok in Hs as (?&_&Hs).
  do 3 apply try_Ok in Hs as (?&_&Hs). guards. by eapply install_pointer_local.
Qed.

Lemma core_pointer_load_local c f dst a f' c' :
  0 ≤ dst → core_pointer_load c f dst a = Done (f', Ok c') → core_local c c'.
Proof.
  intros Hd. unfold core_pointer_load. intros (?&_&Hs)%guard_Ok. apply guard_Ok in Hs as (?&_&Hs).
  destruct (load_pointer_cell f _) as [[g p]|]; [|done]. cbn in Hs.
  apply (guard_Ok g (Done (map_err PFabric p))) in Hs as (?&_&Hs).
  apply guard_Ok in Hs as (?&_&Hs). guards. by eapply install_pointer_local.
Qed.

Lemma pointer_load_indirect_local c f dst b d f' c' :
  0 ≤ dst → pointer_load_indirect c f dst b d = Done (f', Ok c') → core_local c c'.
Proof.
  intros Hd. unfold pointer_load_indirect. intros (?&_&Hs)%guard_Ok.
  destruct (is_heap_pointer _ _).
  - do 4 (apply guard_Ok in Hs as (?&_&Hs)). guards. by eapply install_pointer_local.
  - apply guard_Ok in Hs as (?&_&Hs). by eapply core_pointer_load_local.
Qed.

Lemma enter_pointer_frame_local c f i f' c' :
  enter_pointer_frame c f i = Done (f', Ok c') → core_local c c'.
Proof.
  unfold enter_pointer_frame. intros ([[[s base] whole] regs]&_&Hs)%guard_Ok.
  apply guard_Ok in Hs as ([g [scope locals]]&_&Hs). run_binds Hs. guards.
  writes. apply set_frames_local.
Qed.

Lemma leave_pointer_frame_local c f f' c' :
  leave_pointer_frame c f = Done (f', Ok c') → core_local c c'.
Proof.
  unfold leave_pointer_frame. intros (s&_&Hs)%guard_Ok.
  destruct (fs_active s); [done|]. run_binds Hs. apply guard_Ok in Hs as (g&_&Hs). run_binds Hs. guards.
  writes. apply set_frames_local.
Qed.

Lemma pointer_insn_local c f i f' c' :
  0 ≤ d_rd i → pointer_insn c f i = Done (f', Ok c') → core_local c c'.
Proof.
  intros Hrd. unfold pointer_insn, lift_core, lift_unit. intros Hs.
  destruct (insn_semantics (d_desc i)); try discriminate Hs.
  - run_binds Hs. guards. by eapply core_pointer_move_local.
  - run_binds Hs. guards. by eapply core_pointer_add_local.
  - by eapply pointer_load_indirect_local.
  - run_binds Hs. guards. case_match; guards. reflexivity.
  - run_binds Hs. guards. by eapply write_register_local.
  - run_binds Hs. guards. case_match; guards. reflexivity.
  - by eapply enter_pointer_frame_local.
  - run_binds Hs. guards. by eapply lookup_pointer_local_local.
  - by eapply leave_pointer_frame_local.
Qed.
End pointer_local.

(** ** Instructions *)
Definition switches (s : Sem) : bool :=
  match s with SemCall | SemRet | SemTrap | SemEret => true | _ => false end.

Section insn_local.
Context `{Profile} `{Host}.

Lemma step_pointer_local c f i n c' f' pc :
  0 ≤ d_rd i → step_pointer c f i n = Done (Next c' f' pc) → core_local c c'.
Proof.
  intros Hrd. unfold step_pointer. intros Hs. run_binds Hs; simplify_eq. by eapply pointer_insn_local.
Qed.

Lemma step_byte_local c f i n c' f' pc : step_byte c f i n = Done (Next c' f' pc) → core_local c c'.
Proof.
  unfold step_byte. intros Hs. destruct (byte_request _ _ _ _); [|done].
  destruct (bool_decide _); run_binds Hs; simplify_eq; writes; reflexivity.
Qed.

Lemma execute_local c f i c' f' pc :
  0 ≤ d_rd i → switches (insn_semantics (d_desc i)) = false →
  execute c f i = Done (Next c' f' pc) → core_local c c'.
Proof.
  intros Hrd Hsw. unfold execute. intros Hs. destruct (add_u64 _ _) as [n|]; [|done].
  cbn [mbind outcome_bind] in Hs. destruct (_ && _); [done|].
  destruct (insn_semantics (d_desc i)); try discriminate Hsw; try discriminate Hs;
    try exact (step_pointer_local _ _ _ _ _ _ _ Hrd Hs); try exact (step_byte_local _ _ _ _ _ _ _ Hs).
  - run_binds Hs. simplify_eq. etransitivity; [by eapply write_register_local|apply flags_local].
  - simplify_eq. apply flags_local.
  - run_binds Hs. simplify_eq. by eapply write_register_local.
  - run_binds Hs. simplify_eq. by eapply write_register_local.
  - unfold step_load in Hs. run_binds Hs; simplify_eq. by eapply write_register_local.
  - unfold step_store in Hs. run_binds Hs; simplify_eq. reflexivity.
  - unfold step_xchg in Hs. run_binds Hs; simplify_eq. by eapply write_register_local.
  - run_binds Hs. simplify_eq. by eapply write_register_local.
  - run_binds Hs; simplify_eq; reflexivity.
  - simplify_eq. reflexivity.
Qed.

(** What a step did: nothing that matters, or one decoded instruction. *)
Lemma step_inv_cases c f c' f' r :
  step c f = Done (c', f', r) →
  c' = c ∨ ∃ i f1, current_insn c f = Some i ∧ tx_only f f1 ∧ 0 ≤ d_rd i ∧
    ((execute c f1 i = Done (Stop c' f' r)) ∨
     ∃ c1 pc, execute c f1 i = Done (Next c1 f' pc) ∧ c' = set_core_pc pc c1 ∧ r = Continue).
Proof.
  unfold step, current_insn. intros Hs. destruct (core_halted c); [left; congruence|].
  destruct (negb _); [left; congruence|].
  destruct (fabric_read _ _ _ _ _) as [[g [b|e']]|] eqn:Er; [| |done]; cbn in Hs; [|left; congruence].
  apply fabric_read_tx_only in Er.
  destruct (is_illegal _) eqn:Hi; [left; congruence|]. right.
  destruct (execute c g _) as [[c1 f1 r1|c1 f1 pc]|] eqn:Ee; [| |done]; cbn in Hs; simplify_eq;
    exists (decode (le_value b)), g; pose proof (decode_fields (le_value b)); split_and!; try done; try lia.
  - by left.
  - right. by exists c1, pc.
Qed.

(** A step that continues executed exactly the current instruction, on a fabric
    that differs by the log of the fetch. *)
Lemma step_run c f c' f' :
  step c f = Done (c', f', Continue) →
  ∃ i f1 c1 pc, current_insn c f = Some i ∧ tx_only f f1 ∧ 0 ≤ d_rd i ∧
    execute c f1 i = Done (Next c1 f' pc) ∧ c' = set_core_pc pc c1.
Proof.
  unfold step, current_insn. intros Hs. destruct (core_halted c); [done|]. destruct (negb _); [done|].
  destruct (fabric_read _ _ _ _ _) as [[g [b|e']]|] eqn:Er; [| |done]; cbn in Hs; [|done].
  apply fabric_read_tx_only in Er. destruct (is_illegal _); [done|].
  destruct (execute c g _) as [[c1 f1 r1|c1 f1 pc]|] eqn:Ee; [| |done]; cbn in Hs; simplify_eq.
  - by apply execute_stop in Ee as [(_&_&?&?)|(_&_&?)].
  - exists (decode (le_value b)), g, c1, pc. pose proof (decode_fields (le_value b)).
    split_and!; done || lia.
Qed.
End insn_local.

(** ** Preservation *)
Section preservation.
Context `{Profile} `{Host}.

Lemma minted_mono G G' a : G ⊆ G' → minted G a → minted G' a.
Proof. intros Hs (p&?&?). exists p. split; [set_solver|done]. Qed.

Lemma image_wf_mono G G' i : G ⊆ G' → image_wf G i → image_wf G' i.
Proof. intros Hs []. split; auto. eapply Forall_impl; eauto using minted_mono. Qed.

Lemma core_inv_mono c G G' : G ⊆ G' → core_inv c G → core_inv c G'.
Proof.
  intros Hs [? ? ? Hm ? Hsv ? ? ? Htr]. split; auto.
  - eapply Forall_impl; eauto using minted_mono.
  - eapply Forall_impl; [exact Hsv|]. intros s []. split; auto. eauto using image_wf_mono.
  - eapply Forall_impl; [exact Htr|]. intros h Hh E. destruct (Hh E) as (pc&?&?). exists pc. split; [set_solver|done].
Qed.

Lemma coherent_none rs : coherent rs (replicate 6 None).
Proof. intros j q Hj. by apply lookup_replicate in Hj as [[=] _]. Qed.

Lemma saved_wf_core c c' G s :
  core_context_id c' = core_context_id c → core_domain c' = core_domain c →
  core_protected_context_enabled c' = core_protected_context_enabled c → saved_wf c G s → saved_wf c' G s.
Proof. intros ??? []. split; congruence || done. Qed.

Lemma set_pending_inv c G p : core_inv c G → core_inv (set_core_pending p c) G.
Proof. intros []. split; try done. eapply Forall_impl; [done|]. intros s. by apply saved_wf_core. Qed.
Lemma set_turn_inv c G t : core_inv c G → core_inv (set_core_interrupt_turn t c) G.
Proof. intros []. split; try done. eapply Forall_impl; [done|]. intros s. by apply saved_wf_core. Qed.

Lemma enter_event_inv c G h :
  core_inv c G → ev_return_privilege h = core_privilege c →
  ev_interrupts_were_enabled h = core_interrupts_enabled c →
  (core_event_frames c ≠ [] → ev_cause h = Syscall) → trapped_from G h → core_inv (enter_event c h) G.
Proof.
  intros [Hr Hp Hc Hm Hsync Hsv Hl Hch Hmask Htr] Hpr Hen Hcause Hh. unfold enter_event.
  destruct (core_protected_context_enabled c) eqn:Ep.
  all: split; cbn; [done|done|apply coherent_none|by try constructor|by rewrite Hsync| |done| |done|by constructor].
  all: try (split_and!; [congruence| |done]; intros Hne; split; [rewrite Hen|]; by auto).
  all: apply Forall_cons; split; [split; cbn; rewrite ?Ep; try done; intros ? [= <-]; by split|].
  all: eapply Forall_impl; [exact Hsv|]; intros s; by apply saved_wf_core.
Qed.

Lemma write_results_local c i rs c' : write_results c i rs = Done c' → core_local c c'.
Proof.
  revert c i. induction rs as [|r rs IH]; intros c i Hw; cbn in Hw; [guards; reflexivity|].
  run_binds Hw. etransitivity; [|by eapply IH].
  destruct r; guards; [by eapply write_register_local|reflexivity].
Qed.

(** The control part of a return, on top of whatever was restored. *)
Definition returned (h : EventFrame) (c : Anka64Core) : Anka64Core :=
  set_core_pc (ev_return_pc h) (set_core_interrupts_enabled (ev_interrupts_were_enabled h)
    (set_core_privilege (ev_return_privilege h) c)).

Lemma returned_local h c c' : core_local c c' → core_local (returned h c) (returned h c').
Proof. intros []. split; cbn; auto. Qed.

(** The context an accepted return resumes, before its control part. *)
Definition resumed (c : Anka64Core) (h : EventFrame) (s : SavedEventContext) : outcome Anka64Core :=
  match sv_image s with
  | Some i => if bool_decide (ev_cause h = Syscall) then write_results (restore_image c i) 0 (sv_scalar_results s)
              else Done (restore_image c i)
  | None => Done c
  end.

Lemma event_return_Some c c' pc :
  event_return c = Done (Some (c', pc)) →
  ∃ h t s sv c2, core_event_frames c = h :: t ∧ core_saved_event_contexts c = s :: sv ∧
    may_return c h s = true ∧ c' = returned h c2 ∧ pc = ev_return_pc h ∧
    resumed (set_core_event_frames t (set_core_saved_event_contexts sv c)) h s = Done c2.
Proof.
  intros He. unfold event_return in He.
  destruct (core_event_frames c) as [|h t]; [done|]. destruct (core_saved_event_contexts c) as [|s sv]; [done|].
  destruct (may_return c h s) eqn:Em; cbn [negb] in He; [|done]. fold (resumed (set_core_event_frames t
    (set_core_saved_event_contexts sv c)) h s) in He.
  destruct (resumed _ h s) as [c2|] eqn:E2; [|done].
  cbn [mbind outcome_bind] in He. apply (inj Done), (inj Some), pair_eq in He as [<- <-].
  exists h, t, s, sv, c2. by rewrite E2.
Qed.

(** What was restored, up to the scalar results of a syscall. *)
Lemma resumed_local c h s c2 :
  resumed c h s = Done c2 →
  core_local match sv_image s with Some i => restore_image c i | None => c end c2.
Proof.
  unfold resumed. destruct (sv_image s) as [i|]; [|intros; guards; reflexivity].
  destruct (bool_decide _); [by apply write_results_local|]. intros ?. guards. reflexivity.
Qed.

Lemma event_return_inv c G c' pc :
  core_inv c G → event_return c = Done (Some (c', pc)) → core_inv c' G.
Proof.
  intros [Hr Hp Hc Hm Hsync Hsv Hl Hch Hmask Htr] (h&t&s&sv&c2&Ef&Es&_&->&_&E2)%event_return_Some.
  rewrite Ef, Es in *. cbn in Hsync. injection Hsync as Hh Ht.
  apply Forall_cons in Hsv as [Hs Hsv]. apply Forall_cons in Htr as [_ Htr]. destruct Hch as (Hpriv&Hen&Hch).
  eapply core_local_inv; [by eapply returned_local, resumed_local|].
  destruct (sv_image s) as [i|] eqn:Ei.
  - destruct (sw_wf _ _ _ Hs i Ei). split; cbn; try done; [|intros Hne; by apply Hen].
    eapply Forall_impl; [exact Hsv|]. intros x. by apply saved_wf_core.
  - split; cbn; try done; [|intros Hne; by apply Hen].
    eapply Forall_impl; [exact Hsv|]. intros x. by apply saved_wf_core.
Qed.

Lemma arbitrate_cause p t cause p' t' : arbitrate p t = Some (cause, p', t') → cause ≠ Syscall.
Proof. unfold arbitrate. repeat case_match; intros; simplify_eq; done. Qed.
Lemma deliver_inv c G : core_inv c G → core_inv (deliver_pending c).1 G.
Proof.
  intros Hi. unfold deliver_pending. destruct (core_interrupts_enabled c) eqn:Een; cbn; [|done].
  destruct (arbitrate _ _) as [[[cause p] t]|] eqn:Ea; [|done]. cbn [fst].
  set (c1 := set_core_interrupt_turn t (set_core_pending p c)).
  assert (core_inv c1 G) as Hi1 by (by apply set_turn_inv, set_pending_inv).
  assert (core_inv (enter_event c1 (mkEventFrame (core_pc c1) (core_privilege c1)
    (core_interrupts_enabled c1) cause)) G) as Hi2.
  { apply enter_event_inv; [done..| |].
    - intros Hne. cbn in Hne. by rewrite (ci_masked c G Hi Hne) in Een.
    - intros E. by apply arbitrate_cause in Ea. }
  eapply core_local_inv; [|exact Hi2]. split; cbn; auto.
Qed.

(** Replacing the saved context on top. *)
Lemma set_top_inv c G s s' sv :
  core_inv c G → core_saved_event_contexts c = s :: sv → sv_header s' = sv_header s →
  saved_wf c G s' → core_inv (set_core_saved_event_contexts (s' :: sv) c) G.
Proof.
  intros [Hr Hp Hc Hm Hsync Hsv Hl Hch Hmask Htr] Es Hh Hw. rewrite Es in *.
  apply Forall_cons in Hsv as [Hs Hsv]. split; cbn; try done.
  - rewrite Hh. exact Hsync.
  - apply Forall_cons. split.
    + destruct Hw. by split.
    + eapply Forall_impl; [exact Hsv|]. intros x. by apply saved_wf_core.
Qed.

Lemma syscall_result_inv c G reg v c' :
  core_inv c G → write_syscall_result c reg v = Done c' → core_inv c' G.
Proof.
  intros Hi Hw. unfold write_syscall_result in Hw. destruct (write_register c reg v) as [c1|] eqn:E; [|done].
  cbn [mbind outcome_bind] in Hw. apply write_register_local in E.
  pose proof (core_local_inv _ _ _ E Hi) as Hi1. destruct (_ || _); [by guards|].
  destruct (core_saved_event_contexts c1) as [|s sv] eqn:Es; [by guards|].
  destruct (_ && _); guards; [|done]. eapply set_top_inv; [done..|].
  pose proof (ci_saved _ _ Hi1) as Hsv. rewrite Es in Hsv. apply Forall_cons in Hsv as [[] _].
  split; cbn; try done. by rewrite length_insert.
Qed.

Lemma reply_image_wf G i p status m : image_wf G i → image_wf G (reply_image i p status m).
Proof.
  intros [Hw Hk Hc Hm]. unfold reply_image. set (w := match p with Some p => words p | None => (0, 0) end).
  assert (coherent (<[1%nat := w.2]> (<[0%nat := w.1]> (im_words i))) (<[0%nat := p]> (im_kinds i))) as Hc0.
  { apply (coherent_install _ _ 0); auto; [lia|]. intros q ->. by destruct (words q). }
  destruct m; split; cbn; rewrite ?length_insert; auto.
  apply (coherent_install _ _ 1 None); rewrite ?length_insert; auto; [lia|done].
Qed.

Lemma heap_reply_inv c G permit p status m c' :
  core_inv c G → commit_heap_event c permit p status m = Done c' → core_inv c' G.
Proof.
  intros Hi Hw. unfold commit_heap_event in Hw. run_binds Hw. guards.
  match goal with E : core_saved_event_contexts c = ?s :: _, U : unwrap _ = Done _ |- _ =>
    rename E into Es; rename U into Ei; rename s into top end.
  destruct (sv_image top) as [j|] eqn:Ej; [|done]. cbn in Ei. guards.
  pose proof (ci_saved _ _ Hi) as Hsv. rewrite Es in Hsv. apply Forall_cons in Hsv as [[] _].
  eapply set_top_inv; [done..|]. split; cbn; try done; [by rewrite Ej in *|].
  intros ? [= <-]. by apply reply_image_wf; auto.
Qed.

Lemma retire_inv c G f c' f' :
  core_inv c G → retire_all_pointer_frames c f = Done (c', f') → core_inv c' G.
Proof.
  intros [Hr Hp Hc Hm Hsync Hsv Hl Hch Hmask Htr] Hw. unfold retire_all_pointer_frames in Hw.
  run_binds Hw. guards. split; cbn; try done.
  - rewrite <- Hsync. change (map drop_image_frames) with (fmap (M := list) drop_image_frames).
    rewrite <- list_fmap_compose. by apply list_fmap_ext.
  - apply Forall_fmap. eapply Forall_impl; [exact Hsv|]. intros s [? ? Him ? Hwf]. split; cbn; try done.
    + rewrite <- Him. by destruct (sv_image s).
    + intros i Hj. destruct (sv_image s) as [j|]; [|done]. cbn in Hj. guards.
      destruct (Hwf j eq_refl). by split.
Qed.

Lemma admit_local c f prog b l h f' c' :
  admit_pointer_program c f prog b l h = Done (f', Ok c') → core_local c c'.
Proof.
  unfold admit_pointer_program. intros Hs. destruct (_ || _); [done|].
  apply guard_Ok in Hs as ([? ?]&_&Hs). apply guard_Ok in Hs as (?&_&Hs). destruct (negb _); [done|].
  apply guard_Ok in Hs as (?&_&Hs). destruct (is_none_or _ _); [done|].
  destruct (read_physical _ _ _); [|done]. cbn [mbind outcome_bind] in Hs. destruct (negb _); [done|].
  apply guard_Ok in Hs as ([? ?]&_&Hs). apply guard_Ok in Hs as (?&_&Hs).
  apply guard_Ok in Hs as ([? ?]&_&Hs). destruct (authorize _ _); [|done].
  destruct (protect_pointer_stack _ _ _ _) as [f1 b']. destruct (negb b'); [done|].
  apply guard_Ok in Hs as (c1&Hc1&Hs). run_binds Hs. guards. writes.
  etransitivity; [by eapply enable_protected_local|apply set_frames_local].
Qed.

Lemma register_local_local c f sc dst a len w f' c' :
  0 ≤ dst → register_local_pointer c f sc dst a len w = Done (f', Ok c') → core_local c c'.
Proof.
  intros Hd. unfold register_local_pointer. intros (k&Hk&Hs)%guard_Ok. destruct (_ && _); [done|].
  do 2 (apply guard_Ok in Hs as (?&_&Hs)). guards. by eapply install_pointer_local.
Qed.

Lemma step_call_inv c f i c' f' pc G :
  core_inv c G → insn_semantics (d_desc i) = SemCall → step_call c f i = Done (Next c' f' pc) →
  core_inv c' (option_list (site_of c f i) ++ G).
Proof.
  intros Hi Hsem Hs. unfold site_of. rewrite Hsem. unfold step_call in Hs. destruct (call_admitted c _) as [ad|]; [|done].
  cbn [mbind outcome_bind] in Hs. destruct (negb ad); [done|].
  destruct (add_u64 (core_pc c) 4) as [ra|] eqn:Era; [|done]. cbn [mbind outcome_bind] in Hs.
  destruct (resolve _ _) as [[[o ?]|]|]; [|done..]. cbn [mbind outcome_bind] in Hs.
  destruct (fab_objects f !! o) as [obj|]; [cbn [fmap option_fmap option_map option_list app]|done].
  set (G' := CallSite (core_pc c) o (obj_generation obj) :: G).
  destruct (write_register c LR ra) as [c1|] eqn:Ew; [|done]. cbn [mbind outcome_bind] in Hs.
  destruct (branch_target _ _); [|done]. cbn [mbind outcome_bind] in Hs. simplify_eq.
  apply write_register_local in Ew. apply (core_local_inv _ _ _ Ew) in Hi.
  apply (core_inv_mono _ _ G') in Hi; [|set_solver].
  assert (core_inv (set_core_return_stack (mkReturn o (obj_generation obj) ra :: core_return_stack c1) c1)
    G') as Hi2.
  { destruct Hi. split; cbn; try done.
    - apply Forall_cons. split; [|done]. exists (core_pc c). split; [by left|done].
    - eapply Forall_impl; [done|]. intros x. by apply saved_wf_core. }
  eapply core_local_inv; [|exact Hi2]. unfold set_pending_entry. destruct (core_pointer_frames _);
    [apply set_frames_local|reflexivity].
Qed.

(** CALL and RET stay at the current level, with its saved contexts. *)
Definition same_level (c c' : Anka64Core) : Prop :=
  core_privilege c' = core_privilege c ∧ core_saved_event_contexts c' = core_saved_event_contexts c ∧
  core_pending c' = core_pending c ∧ core_interrupt_turn c' = core_interrupt_turn c.

Lemma step_call_level c f i c' f' pc : step_call c f i = Done (Next c' f' pc) → same_level c c'.
Proof.
  intros Hs. unfold step_call in Hs. run_binds Hs; simplify_eq.
  match goal with E : write_register _ _ _ = _ |- _ => apply write_register_local in E as [] end.
  unfold set_pending_entry, same_level. by destruct (core_pointer_frames _).
Qed.
Lemma step_ret_level c f c' f' pc : step_ret c f = Done (Next c' f' pc) → same_level c c'.
Proof. intros Hs. unfold step_ret in Hs. run_binds Hs; by simplify_eq. Qed.

Lemma step_ret_inv c f c' f' pc G :
  core_inv c G → step_ret c f = Done (Next c' f' pc) →
  core_inv c' G ∧ ∃ a, core_return_stack c = a :: core_return_stack c' ∧ pc = ret_target a ∧
    ∃ o, fab_objects f !! ret_code_object a = Some o ∧ obj_generation o = ret_generation a.
Proof.
  intros Hi Hs. unfold step_ret in Hs. destruct (is_some_and _ _); [done|].
  destruct (core_return_stack c) as [|a rest] eqn:Er; [done|]. destruct (negb _); [done|].
  destruct (fab_objects f !! ret_code_object a) as [o|] eqn:Eo; cbn in Hs; [|done].
  destruct (Z.eqb_spec (obj_generation o) (ret_generation a)); cbn in Hs; [|done]. simplify_eq. split.
  - destruct Hi as [? ? ? Hm ? Hsv ? ? ? ?]. rewrite Er in Hm. apply Forall_cons in Hm as [_ Hm].
    split; cbn; try done. eapply Forall_impl; [exact Hsv|]. intros x. by apply saved_wf_core.
  - exists a. cbn. eauto 6.
Qed.

Lemma site_objects c f f' i : fab_objects f' = fab_objects f → site_of c f' i = site_of c f i.
Proof. unfold site_of. by intros ->. Qed.
Lemma execute_inv c f i c' f' pc G :
  core_inv c G → 0 ≤ d_rd i → execute c f i = Done (Next c' f' pc) →
  core_inv c' (option_list (site_of c f i) ++ G).
Proof.
  intros Hi Hrd He. destruct (switches (insn_semantics (d_desc i))) eqn:Hsw.
  2:{ assert (site_of c f i = None) as -> by (unfold site_of; by destruct (insn_semantics (d_desc i))).
      eapply core_local_inv; [|exact Hi]. by eapply execute_local. }
  unfold execute in He. destruct (add_u64 _ _) as [n|]; [|done]. cbn [mbind outcome_bind] in He.
  destruct (_ && _); [done|].
  destruct (insn_semantics (d_desc i)) eqn:Hsem; try discriminate Hsw; cbn in He.
  - by eapply step_call_inv.
  - unfold site_of. rewrite Hsem. by apply (step_ret_inv _ _ _ _ _ _ Hi) in He as [? _].
  - unfold site_of. rewrite Hsem. unfold step_trap in He. destruct (add_u64 _ _) as [rp|] eqn:Erp; [|done].
    cbn [mbind outcome_bind] in He. simplify_eq. eapply core_local_inv; [|eapply (enter_event_inv c _ (mkEventFrame rp
      (core_privilege c) (core_interrupts_enabled c) Syscall)); [|done..|]].
    + split; cbn; auto.
    + eapply core_inv_mono; [|exact Hi]. set_solver.
    + intros _. exists (core_pc c). split; [by left|done].
  - unfold site_of. rewrite Hsem. unfold step_eret in He. destruct (event_return c) as [[[c1 ?]|]|] eqn:E; [|done..].
    cbn [mbind outcome_bind] in He. simplify_eq. by eapply event_return_inv.
Qed.

Lemma core_step_inv c G c' G' : core_inv c G → core_step c G c' G' → core_inv c' G'.
Proof.
  intros Hi Hs. destruct Hs.
  - match goal with E : step _ _ = _ |- _ => rename E into Hs end. unfold record_site.
    apply step_inv_cases in Hs as [->|(i&f1&Hc&Ht&Hrd&[He|(c1&pc&He&->&_)])].
    + eapply core_inv_mono; [|exact Hi]. set_solver.
    + eapply core_inv_mono; [|eapply core_local_inv; [|exact Hi]].
      * set_solver.
      * apply execute_stop in He as [(->&_)|(->&_)]; [reflexivity|apply set_halted_local].
    + rewrite Hc. cbn [mbind option_bind]. rewrite <- (site_objects c f f1 i) by (by destruct Ht as (?&?&?&->)).
      apply (execute_inv _ _ _ _ _ _ _ Hi Hrd) in He.
      eapply core_local_inv; [apply set_pc_local|done].
  - by apply set_pending_inv.
  - by apply set_pending_inv.
  - by apply deliver_inv.
  - by eapply event_return_inv.
  - by eapply syscall_result_inv.
  - eapply core_local_inv; [by eapply write_register_local|done].
  - eapply core_local_inv; [apply set_pc_local|done].
  - eapply core_local_inv; [apply set_halted_local|done].
  - eapply core_local_inv; [apply set_heap_owner_local|done].
  - by eapply heap_reply_inv.
  - eapply core_local_inv; [by eapply admit_local|done].
  - eapply core_local_inv; [by eapply register_local_local|done].
  - by eapply retire_inv.
Qed.

Lemma core_reach_inv c G : core_reach c G → core_inv c G.
Proof.
  induction 1; [|by eapply core_step_inv]. split; cbn; try done; apply coherent_none.
Qed.
End preservation.
