(* ===== verification/CoreFrames.v ===== *)
(** * Pointer frames stay below events

    Entering an event takes the pointer frames of the running context into the
    saved image, and no instruction of a handler can open new ones.  So a core
    inside an event has no pointer frame at its level, and the only saved image
    that may hold frames is the lowest, the interrupted user context. *)

From S2P Require Import Prelude State Extents Registry PointerFrames HeapLedger Fabric.
From S2P Require Import FabricTx FabricInv FabricCells FabricHeap Desc Isa Core CoreFault CoreInv.

Definition frameless (s : SavedEventContext) : Prop := ∀ i, sv_image s = Some i → im_frames i = None.

(** All saved contexts but the lowest are frameless. *)
Fixpoint low (l : list SavedEventContext) : Prop :=
  match l with s :: (_ :: _) as t => frameless s ∧ low t | _ => True end.

Record core_low (c : Anka64Core) : Prop := {
  lo_enabled : is_some (core_pointer_frames c) = true → core_protected_context_enabled c = true;
  lo_none : core_event_frames c ≠ [] → core_pointer_frames c = None;
  lo_saved : low (core_saved_event_contexts c);
}.

Section low.
Context `{Profile} `{Host}.

(** ** Changes that open no frame and keep the mode *)
Record quiet (c c' : Anka64Core) : Prop := {
  q_enabled : core_protected_context_enabled c = true → core_protected_context_enabled c' = true;
  q_pointer : core_pointer_frames c = None → core_pointer_frames c' = None;
}.
#[export] Instance quiet_preorder : PreOrder quiet.
Proof.
  split; [by intros ?; split|]. intros a b c [E1 P1] [E2 P2]. split; auto.
Qed.

Lemma write_register_quiet c i v c' : write_register c i v = Done c' → quiet c c'.
Proof.
  unfold write_register, clear_pair. destruct (assert_ _); [|done]. cbn. intros ?. guards.
  repeat case_match; by split.
Qed.
Lemma install_pointer_quiet c d p c' : install_pointer c d p = Ok c' → quiet c c'.
Proof.
  unfold install_pointer, enable_protected_context. destruct (pointer_pair_index d); [|done]. cbn.
  destruct (_ && _); [done|]. cbn. intros. guards. by split.
Qed.
Lemma flags_quiet c e a b r : quiet c (update_flags c e a b r).
Proof. by split. Qed.

Ltac quiet_writes :=
  repeat match goal with
         | E : write_register _ _ _ = Done ?x |- quiet _ ?x =>
             etransitivity; [|exact (write_register_quiet _ _ _ _ E)]
         end.

Lemma pointer_load_quiet c f dst a f' c' : core_pointer_load c f dst a = Done (f', Ok c') → quiet c c'.
Proof.
  unfold core_pointer_load. intros (?&_&Hs)%guard_Ok. apply guard_Ok in Hs as (?&_&Hs).
  destruct (load_pointer_cell f _) as [[g p]|]; [|done]. cbn in Hs.
  apply (guard_Ok g (Done (map_err PFabric p))) in Hs as (?&_&Hs).
  apply guard_Ok in Hs as (?&_&Hs). guards. by eapply install_pointer_quiet.
Qed.

Lemma load_indirect_quiet c f dst b d f' c' :
  pointer_load_indirect c f dst b d = Done (f', Ok c') → quiet c c'.
Proof.
  unfold pointer_load_indirect. intros (?&_&Hs)%guard_Ok. destruct (is_heap_pointer _ _).
  - do 4 (apply guard_Ok in Hs as (?&_&Hs)). guards. by eapply install_pointer_quiet.
  - apply guard_Ok in Hs as (?&_&Hs). by eapply pointer_load_quiet.
Qed.

Lemma frame_current_Some c f s : frame_current c f = Done (Ok s) → core_pointer_frames c ≠ None.
Proof. unfold frame_current. by destruct (core_pointer_frames c). Qed.

(** A pointer instruction runs inside open frames, so in protected mode. *)
Lemma pointer_insn_quiet c f i f' c' :
  core_pointer_frames c ≠ None → pointer_insn c f i = Done (f', Ok c') → quiet c c'.
Proof.
  intros Hne Hs. split; [|done]. revert Hs. unfold pointer_insn, lift_core, lift_unit. intros Hs.
  assert (∀ c1, quiet c1 c' → core_protected_context_enabled c1 = core_protected_context_enabled c →
    core_protected_context_enabled c = true → core_protected_context_enabled c' = true) as Hq
    by (intros c1 [E _] E1; rewrite <- E1; auto).
  destruct (insn_semantics (d_desc i)); try discriminate Hs.
  - run_binds Hs. guards. eapply Hq; [|done]. match goal with U : core_pointer_move _ _ _ _ = _ |- _ =>
      apply try_Ok in U as (?&_&U); apply try_call_Ok in U as (?&_&U); guards; by eapply install_pointer_quiet end.
  - run_binds Hs. guards. eapply Hq; [|done]. match goal with U : core_pointer_add _ _ _ _ _ = _ |- _ =>
      apply try_Ok in U as (?&_&U); do 2 apply try_call_Ok in U as (?&_&U); guards; by eapply install_pointer_quiet end.
  - by eapply load_indirect_quiet.
  - run_binds Hs. guards. case_match; by guards.
  - run_binds Hs. guards. by eapply write_register_quiet.
  - run_binds Hs. guards. case_match; by guards.
  - unfold enter_pointer_frame in Hs. apply guard_Ok in Hs as ([[[s base] whole] regs]&_&Hs).
    apply guard_Ok in Hs as ([g [scope locals]]&_&Hs). run_binds Hs. guards.
    eapply Hq; [quiet_writes; reflexivity|done].
  - run_binds Hs. guards. eapply Hq; [|done]. match goal with U : lookup_pointer_local _ _ _ _ = _ |- _ =>
      apply try_Ok in U as (?&_&U); apply try_call_Ok in U as (?&_&U);
      do 3 apply try_Ok in U as (?&_&U); guards; by eapply install_pointer_quiet end.
  - unfold leave_pointer_frame in Hs. apply guard_Ok in Hs as (s&_&Hs). destruct (fs_active s); [done|].
    run_binds Hs. apply guard_Ok in Hs as (g&_&Hs). run_binds Hs. guards.
    eapply Hq; [quiet_writes; reflexivity|done].
Qed.

Lemma execute_quiet c f i c' f' pc :
  insn_semantics (d_desc i) ≠ SemTrap → insn_semantics (d_desc i) ≠ SemEret →
  execute c f i = Done (Next c' f' pc) → quiet c c'.
Proof.
  intros Ht Hr. unfold execute. intros Hs. destruct (add_u64 _ _) as [n|]; [|done].
  cbn [mbind outcome_bind] in Hs. destruct (_ && _); [done|].
  destruct (insn_semantics (d_desc i)) eqn:Hsem; try done;
    try (unfold step_pointer in Hs; run_binds Hs; simplify_eq;
         eapply pointer_insn_quiet; [by eapply frame_current_Some|done]).
  all: unfold step_load, step_store, step_byte, step_xchg, step_call, step_ret in Hs.
  all: try (destruct (byte_request _ _ _ _); [|done]); try destruct (bool_decide _).
  all: run_binds Hs; simplify_eq; try reflexivity; try apply flags_quiet; try (by split).
  all: try (by eapply write_register_quiet).
  all: etransitivity; [by eapply write_register_quiet|]; try apply flags_quiet.
  unfold set_pending_entry. cbn. destruct (core_pointer_frames _) eqn:Ep; split; cbn; congruence || done.
Qed.

(** ** Preservation *)
Lemma quiet_low c c' :
  quiet c c' → core_saved_event_contexts c' = core_saved_event_contexts c →
  core_event_frames c' = core_event_frames c →
  (core_event_frames c = [] → is_some (core_pointer_frames c') = true →
     core_protected_context_enabled c' = true) → core_low c → core_low c'.
Proof.
  intros [Qe Qp] Hs Hf He [Le Ln Ls]. split; rewrite ?Hs, ?Hf; auto.
  intros Hc. destruct (core_event_frames c) as [|h t]; [auto|]. rewrite Qp in Hc; [done|auto].
Qed.

Lemma low_push l s : low l → (l ≠ [] → frameless s) → low (s :: l).
Proof. destruct l as [|s' l]; cbn; auto. Qed.

Lemma enter_low c G h : core_inv c G → core_low c → core_low (enter_event c h).
Proof.
  intros Hi [Le Ln Ls]. unfold enter_event. destruct (core_protected_context_enabled c) eqn:E.
  - split; cbn; [done..|]. apply low_push; [done|]. intros Hne i [= <-]. cbn. apply Ln.
    rewrite <- (ci_sync _ _ Hi). by destruct (core_saved_event_contexts c).
  - assert (core_pointer_frames c = None) as Hn
      by (destruct (core_pointer_frames c); [|done]; by specialize (Le eq_refl)).
    split; cbn; rewrite ?Hn; [done..|]. apply low_push; [done|]. by intros _ i.
Qed.

Lemma write_results_quiet c i rs c' : write_results c i rs = Done c' → quiet c c'.
Proof.
  revert c i. induction rs as [|r rs IH]; cbn; intros c i Hw; [guards; reflexivity|].
  destruct r as [v|]; cbn in Hw; [|by eapply IH].
  destruct (write_register c i v) as [c1|] eqn:E; [|done]. cbn in Hw.
  etransitivity; [by eapply write_register_quiet|by eapply IH].
Qed.

Lemma event_return_low c G c' pc :
  core_inv c G → core_low c → event_return c = Done (Some (c', pc)) → core_low c'.
Proof.
  intros Hi [Le Ln Ls] (h&t&s&sv&c2&Ef&Es&_&->&_&E2)%event_return_Some.
  apply resumed_local in E2 as L. pose proof (ci_sync _ _ Hi) as Hsync. rewrite Ef, Es in Hsync.
  injection Hsync as _ Ht. pose proof (ci_saved _ _ Hi) as Hsv. rewrite Es in Hsv, Ls.
  apply Forall_cons in Hsv as [[_ _ Him _ _] _].
  assert (core_event_frames c2 = t ∧ core_saved_event_contexts c2 = sv) as [Hf2 Hs2]
    by (destruct (sv_image s), L; done).
  assert (low sv) by (destruct sv; [done|apply Ls]). revert E2. unfold resumed.
  destruct (sv_image s) as [i|] eqn:Ei.
  - intros E2. assert (quiet (restore_image (set_core_event_frames t (set_core_saved_event_contexts sv c)) i) c2)
      as [Qe Qp] by (destruct (bool_decide _); [by eapply write_results_quiet|by apply (inj Done) in E2 as <-]).
    cbn in *. split; cbn; rewrite ?Hf2, ?Hs2; [auto| |done]. intros Hne. apply Qp.
    destruct sv as [|s' sv]; [by rewrite <- Ht in Hne|]. by apply (proj1 Ls).
  - intros E2. apply (inj Done) in E2 as <-. assert (core_pointer_frames c = None) as Hn by (apply Ln; by rewrite Ef).
    split; cbn; rewrite ?Hn; done.
Qed.

Lemma low_same c c' :
  core_low c → core_saved_event_contexts c' = core_saved_event_contexts c →
  core_event_frames c' = core_event_frames c → core_pointer_frames c' = core_pointer_frames c →
  core_protected_context_enabled c' = core_protected_context_enabled c → core_low c'.
Proof. intros [Le Ln Ls] Hs Hf Hp He. split; rewrite ?Hs, ?Hf, ?Hp, ?He; assumption. Qed.

(** A new top context with the frames of the old one *)
Lemma set_top_low c s s' sv :
  core_low c → core_saved_event_contexts c = s :: sv →
  (frameless s → frameless s') → core_low (set_core_saved_event_contexts (s' :: sv) c).
Proof.
  intros [Le Ln Ls] Es Hs. rewrite Es in Ls. split; cbn; [done..|].
  destruct sv; cbn in *; [done|]. destruct Ls. auto.
Qed.

Lemma step_low c G f c' f' r : core_inv c G → core_low c → step c f = Done (c', f', r) → core_low c'.
Proof.
  intros Hi Hl Hs. apply step_inv_cases in Hs as [->|(i&f1&_&_&Hrd&[He|(c1&pc&He&->&_)])]; [done| |].
  { apply execute_stop in He as [(->&_)|(->&_)]; [done|]. by apply (low_same c). }
  enough (core_low c1) by (by apply (low_same c1)).
  destruct (decide (insn_semantics (d_desc i) = SemTrap)) as [Et|Et].
  { unfold execute in He. rewrite Et in He. destruct (add_u64 _ _); [|done].
    cbn [mbind outcome_bind is_raw_memory] in He. rewrite andb_false_r in He. unfold step_trap in He.
    destruct (add_u64 _ _) as [n|]; [|done]. cbn [mbind outcome_bind] in He. apply (inj Done) in He. injection He as <- _ _.
    pose proof (enter_low _ G (mkEventFrame n (core_privilege c) (core_interrupts_enabled c) Syscall) Hi Hl) as Hl2. clear -Hl2.
    generalize dependent (enter_event c (mkEventFrame n (core_privilege c) (core_interrupts_enabled c) Syscall)).
    intros c2 Hl2. by apply (low_same c2). }
  destruct (decide (insn_semantics (d_desc i) = SemEret)) as [Ee|Ee].
  { unfold execute in He. rewrite Ee in He. destruct (add_u64 _ _); [|done].
    cbn [mbind outcome_bind is_raw_memory] in He. rewrite andb_false_r in He. unfold step_eret in He.
    destruct (event_return c) as [[[c2 p2]|]|] eqn:Er; [|done..]. cbn [mbind outcome_bind] in He. apply (inj Done) in He. injection He as <- _ _.
    by eapply event_return_low. }
  pose proof (execute_quiet _ _ _ _ _ _ Et Ee He) as Hq.
  assert (core_saved_event_contexts c1 = core_saved_event_contexts c) as Hsv.
  { destruct (switches (insn_semantics (d_desc i))) eqn:Hsw.
    - unfold execute in He. destruct (add_u64 _ _) as [n|]; [|done]. cbn [mbind outcome_bind] in He.
      destruct (_ && _); [done|]. destruct (insn_semantics (d_desc i)); try done;
        [by apply step_call_level in He as (_&?&_)|by apply step_ret_level in He as (_&?&_)].
    - by destruct (execute_local _ _ _ _ _ _ Hrd Hsw He). }
  pose proof (execute_inv _ _ _ _ _ _ _ Hi Hrd He) as Hi1.
  eapply (quiet_low c); [done..| | |done].
  { by rewrite <- (ci_sync _ _ Hi), <- (ci_sync _ _ Hi1), Hsv. } intros He0 Hp. apply (q_enabled _ _ Hq), (lo_enabled _ Hl).
  destruct (core_pointer_frames c) eqn:E; [done|]. by rewrite (q_pointer _ _ Hq) in Hp.
Qed.

Lemma write_register_low c i v c' : core_low c → write_register c i v = Done c' → core_low c'.
Proof.
  intros Hl Hw. apply write_register_quiet in Hw as Q. apply write_register_local in Hw as [].
  eapply (quiet_low c); [done..| |done]. intros _ Hp. apply (q_enabled _ _ Q), (lo_enabled _ Hl).
  destruct (core_pointer_frames c) eqn:Ep; [done|]. by rewrite (q_pointer _ _ Q) in Hp.
Qed.

Lemma syscall_result_low c i v c' : core_low c → write_syscall_result c i v = Done c' → core_low c'.
Proof.
  intros Hl Hw. unfold write_syscall_result in Hw. destruct (write_register c i v) as [c1|] eqn:E; [|done].
  cbn [mbind outcome_bind] in Hw. apply (write_register_low c) in E; [|done]. destruct (_ || _); [by guards|].
  destruct (core_saved_event_contexts c1) as [|s sv] eqn:Es; [by guards|].
  destruct (_ && _); guards; [|done]. by eapply set_top_low.
Qed.

Lemma deliver_low c G : core_inv c G → core_low c → core_low (deliver_pending c).1.
Proof.
  intros Hi Hl. unfold deliver_pending. destruct (negb _); [done|].
  destruct (arbitrate _ _) as [[[cause p] t]|]; [|done].
  cbn [fst]. set (c1 := set_core_interrupt_turn t (set_core_pending p c)).
  assert (core_inv c1 G) as Hi1 by (by apply set_turn_inv, set_pending_inv).
  assert (core_low c1) as Hl1 by (by apply (low_same c)).
  pose proof (enter_low c1 G (mkEventFrame (core_pc c1) (core_privilege c1) (core_interrupts_enabled c1) cause)
    Hi1 Hl1) as Hl2. generalize dependent (enter_event c1 (mkEventFrame (core_pc c1) (core_privilege c1)
    (core_interrupts_enabled c1) cause)). intros c2 Hl2. by apply (low_same c2).
Qed.

Lemma heap_reply_low c permit p status m c' :
  core_low c → commit_heap_event c permit p status m = Done c' → core_low c'.
Proof.
  intros Hl Hw. unfold commit_heap_event in Hw. run_binds Hw. guards.
  match goal with E : core_saved_event_contexts c = ?s :: _, U : unwrap _ = Done _ |- _ =>
    rename E into Es; rename U into Ei; rename s into top end.
  destruct (sv_image top) as [j|] eqn:Ej; [|done]. cbn in Ei. guards.
  eapply set_top_low; [done..|]. intros Hf i [= <-]. cbn. by apply Hf.
Qed.

Lemma low_drop l : low (map drop_image_frames l).
Proof.
  induction l as [|s [|s' l] IH]; cbn in *; [done..|]. split; [|done].
  intros i Hi. cbn in Hi. destruct (sv_image s); [|done]. cbn in Hi. by simplify_eq.
Qed.

Lemma admit_mode c f prog b l h f' c' :
  admit_pointer_program c f prog b l h = Done (f', Ok c') →
  core_event_frames c = [] ∧ core_protected_context_enabled c' = true.
Proof.
  unfold admit_pointer_program. intros Hs. destruct (_ || _) eqn:Hg; [done|]. bools.
  split; [done|]. revert Hs. intros Hs.
  apply guard_Ok in Hs as ([? ?]&_&Hs). apply guard_Ok in Hs as (?&_&Hs). destruct (negb _); [done|].
  apply guard_Ok in Hs as (?&_&Hs). destruct (is_none_or _ _); [done|].
  destruct (read_physical _ _ _); [|done]. cbn [mbind outcome_bind] in Hs. destruct (negb _); [done|].
  apply guard_Ok in Hs as ([? ?]&_&Hs). apply guard_Ok in Hs as (?&_&Hs).
  apply guard_Ok in Hs as ([? ?]&_&Hs). destruct (authorize _ _); [|done].
  destruct (protect_pointer_stack _ _ _ _) as [f1 b']. destruct (negb b'); [done|].
  apply guard_Ok in Hs as (c1&Hc1&Hs). run_binds Hs. guards.
  match goal with E : write_register _ _ _ = _ |- _ => apply write_register_quiet in E as [Qe _] end.
  apply Qe. cbn. unfold enable_protected_context in Hc1. destruct (_ && _); [done|]. by simplify_eq.
Qed.

Lemma core_step_low c G c' G' : core_inv c G → core_low c → core_step c G c' G' → core_low c'.
Proof.
  intros Hi Hl Hs. destruct Hs as [f c' f' r E| | | |c' pc E|i v c' E|i v c' E|pc|b|key
    |permit p status m c' E|f prog base lo hi c' f' E|f sc dst a len w c' f' Hd E|f c' f' E].
  - by eapply step_low.
  - by apply (low_same c).
  - by apply (low_same c).
  - by eapply deliver_low.
  - by eapply event_return_low.
  - by eapply syscall_result_low.
  - by eapply write_register_low.
  - by apply (low_same c).
  - by apply (low_same c).
  - by apply (low_same c).
  - by eapply heap_reply_low.
  - apply admit_local in E as L. apply admit_mode in E as [Hf He].
    split; [done|by rewrite (cl_frames _ _ L)|rewrite (cl_saved _ _ L); apply Hl].
  - unfold register_local_pointer in E. apply guard_Ok in E as (k&Hk&E). destruct (_ && _); [done|].
    do 2 (apply guard_Ok in E as (?&_&E)). apply (inj Done), pair_eq in E as [_ E].
    pose proof (install_pointer_local _ _ _ _ Hd E) as []. apply install_pointer_quiet in E as Q.
    eapply (quiet_low c); [done..| |done]. intros _ Hp. apply (q_enabled _ _ Q), (lo_enabled _ Hl).
    destruct (core_pointer_frames c) eqn:Ep; [done|]. by rewrite (q_pointer _ _ Q) in Hp.
  - unfold retire_all_pointer_frames in E. run_binds E. guards. split; cbn; [done..|]. apply low_drop.
Qed.

Lemma core_reach_low c G : core_reach c G → core_low c.
Proof.
  induction 1; [|by eapply core_step_low; [apply core_reach_inv| |]]. by split.
Qed.
End low.
