(* ===== verification/FabricMoves.v ===== *)
(** * What the machine does to the fabric

    A core step, the frames and the protected transfers never touch objects,
    domains or placement; everything else that runs in the machine is one of the
    fabric operations of [FabricInv].  Reachability and the death of an object pass
    along both. *)

From S2P Require Import Prelude State Extents Registry PointerFrames HeapLedger Fabric FabricTx FabricAuth.
From S2P Require Import RegistrySafety RegistryOps FabricInv FabricSafety FabricCells FabricHeap HeapOutside Desc Isa Core CoreFault CoreInv.

(** ** Moves *)

(** Any number of fabric steps, whatever was minted before *)
Definition fab_move `{Profile} (f f' : Fabric) : Prop := ∀ M, ∃ M', fab_steps f M f' M'.

Section moves.
Context `{Profile}.

Lemma fab_steps_trans f M g N h L : fab_steps f M g N → fab_steps g N h L → fab_steps f M h L.
Proof. induction 1; [done|]. intros ?. eapply steps_next; eauto. Qed.

#[export] Instance fab_move_preorder : PreOrder fab_move.
Proof.
  split; [intros f M; exists M; constructor|]. intros f g h Hfg Hgh M.
  destruct (Hfg M) as [N ?]. destruct (Hgh N) as [L ?]. exists L. by eapply fab_steps_trans.
Qed.

Lemma move_step f f' : (∀ M, ∃ M', fab_step f M f' M') → fab_move f f'.
Proof. intros Hs M. destruct (Hs M) as [M' ?]. exists M'. eapply steps_next; [done|constructor]. Qed.

Lemma calm_move f f' : calm f f' → fab_move f f'.
Proof. intros ?. apply move_step. intros M. exists M. by apply st_calm. Qed.

Lemma move_reach f f' M : fab_reach f M → fab_move f f' → ∃ M', fab_reach f' M'.
Proof.
  intros Hr Hm. destruct (Hm M) as [M' Hs]. exists M'. clear Hm. revert Hr.
  induction Hs; [done|]. intros ?. apply IHHs. by eapply reach_step.
Qed.

Lemma move_dead f f' k : fab_move f f' → dead f k → dead f' k.
Proof. intros Hm. destruct (Hm []) as [M' ?]. by eapply dead_steps. Qed.

Lemma find_cap_held f d o off len q p : find_authorizing_cap f d o off len q = Some p → held f p.
Proof.
  intros Hf. unfold find_authorizing_cap in Hf. destruct (fab_domains f !! d) as [s|] eqn:Hs; [|done].
  simpl in Hf. apply find_some in Hf as [Hin _]. apply list_elem_of_In, list_elem_of_fmap in Hin as (e&->&He).
  by exists d, s, e.
Qed.

(** The operations the kernel performs *)
Lemma alloc_move f name size kind id f' : is_u64 size → alloc_object f name size kind = Done (f', id) → fab_move f f'.
Proof. intros ? Ha. apply move_step. intros M. exists M. by eapply st_alloc. Qed.
Lemma place_move f id base : is_u64 base → fab_move f (place_object f id base).1.
Proof.
  intros ?. destruct (place_object f id base) as [f' b] eqn:E. apply move_step. intros M. exists M. by eapply st_place.
Qed.
Lemma seal_move f id : fab_move f (seal_object f id).1.
Proof. destruct (seal_object f id) as [f' b] eqn:E. apply move_step. intros M. exists M. by eapply st_seal. Qed.
Lemma create_domain_move f f' d : create_domain f = Done (f', d) → fab_move f f'.
Proof. intros ?. apply move_step. intros M. exists M. by eapply st_create_domain. Qed.
Lemma destroy_domain_move f d : fab_move f (destroy_domain f d).
Proof. apply move_step. intros M. exists M. apply st_destroy_domain. Qed.
Lemma destroy_object_move f id : fab_move f (destroy_object f id).
Proof. apply move_step. intros M. exists M. apply st_destroy_object. Qed.
Lemma register_agent_move f a k d : fab_move f (register_agent f a k d).
Proof. apply move_step. intros M. exists M. apply st_register_agent. Qed.
Lemma grant_move f d o off len p f' c : grant f d o off len p = Some (f', c) → fab_move f f'.
Proof. intros ?. apply move_step. intros M. eexists. by eapply st_grant. Qed.
Lemma grant_try_move f d o off len p : fab_move f (from_option fst f (grant f d o off len p)).
Proof. destruct (grant f d o off len p) as [[f' c]|] eqn:E; cbn; [by eapply grant_move|done]. Qed.
Lemma grant_id_move f d o off len p id f' c :
  grant_with_authority_id f d o off len p id = Some (f', c) → fab_move f f'.
Proof. intros ?. apply move_step. intros M. eexists. by eapply st_grant_id. Qed.
Lemma remove_move f d id : fab_move f (remove_by_authority_id f d id).1.
Proof.
  destruct (remove_by_authority_id f d id) as [f' b] eqn:E. apply move_step. intros M. exists M. by eapply st_remove.
Qed.
Lemma derive_from_move f s sid d off len q id f' c :
  derive_from_authority_id f s sid d off len q id = Some (f', c) → fab_move f f'.
Proof. intros ?. apply move_step. intros M. eexists. by eapply st_derive_from. Qed.
Lemma derive_device_move f s sid o g r d q id f' x :
  derive_device_from_authority_id f s sid o g r d q id = Some (f', x) → fab_move f f'.
Proof. intros ?. apply move_step. intros M. eexists. by eapply st_derive_device. Qed.
Lemma grant_device_move f d o r id f' : grant_device_with_authority_id f d o r id = Some f' → fab_move f f'.
Proof. intros ?. apply move_step. intros M. eexists. by eapply st_grant_device. Qed.
Lemma delegate_move f s o off len q f' x : delegate_dma_span f s o off len q = Done (f', x) → fab_move f f'.
Proof. intros ?. apply move_step. intros M. eexists. by eapply st_delegate. Qed.
Lemma delegate_id_move f s sid o off len q f' x :
  delegate_dma_span_from_authority_id f s sid o off len q = Done (f', x) → fab_move f f'.
Proof. intros ?. apply move_step. intros M. eexists. by eapply st_delegate_id. Qed.
Lemma alloc_authority_move f f' id : alloc_authority_id f = Some (f', id) → fab_move f f'.
Proof. intros ?. apply move_step. intros M. eexists. by eapply st_alloc_authority. Qed.
Lemma read_move f r f' x : execute_read f r = Done (f', x) → fab_move f f'.
Proof. intros ?. apply move_step. intros M. eexists. by eapply st_read. Qed.
Lemma write_move f r d f' x : execute_write f r d = Done (f', x) → fab_move f f'.
Proof. intros ?. apply move_step. intros M. eexists. by eapply st_write. Qed.
Lemma initialize_move f id off d f' b : initialize_object f id off d = Done (f', b) → fab_move f f'.
Proof. intros ?. apply move_step. intros M. eexists. by eapply st_initialize. Qed.
Lemma zero_move f base n f' : zero_physical f base n = Done f' → fab_move f f'.
Proof. intros ?. apply move_step. intros M. eexists. by eapply st_zero_physical. Qed.
Lemma submit_move f r d f' i : submit f r d = Done (f', i) → fab_move f f'.
Proof. intros ?. by eapply calm_move, same_auth_calm, submit_same. Qed.
Lemma advance_move f i f' : advance f i = Done f' → fab_move f f'.
Proof. intros ?. by eapply calm_move, same_auth_calm, advance_same. Qed.

(** A move with the capabilities [L] in hand *)
Definition fab_carry (L : list Capability64) (f f' : Fabric) : Prop := ∀ M, ∃ M', fab_steps f M f' M' ∧ L ⊆ M'.

Lemma step_minted f M f' M' : fab_step f M f' M' → M ⊆ M'.
Proof. destruct 1; set_solver. Qed.
Lemma carry_held L f : Forall (held f) L → fab_carry L f f.
Proof.
  intros HL M. exists (rev_append L M). split.
  2: { intros c Hc. rewrite rev_append_rev. apply elem_of_app. left. apply list_elem_of_In, in_rev. rewrite rev_involutive.
    by apply list_elem_of_In. }
  revert M. induction HL as [|c L Hc HL IH]; intros M; [constructor|]. eapply steps_next; [by apply st_held|apply IH].
Qed.
Lemma carry_trans L f g h : fab_carry L f g → (∀ M, L ⊆ M → ∃ M', fab_step g M h M') → fab_carry L f h.
Proof.
  intros Hc Hs M. destruct (Hc M) as (M1&H1&HL). destruct (Hs M1 HL) as [M2 H2]. exists M2. split.
  - eapply fab_steps_trans; [done|]. eapply steps_next; [done|constructor].
  - pose proof (step_minted _ _ _ _ H2). set_solver.
Qed.
Lemma carry_move L f f' : fab_carry L f f' → fab_move f f'.
Proof. intros Hc M. destruct (Hc M) as (M'&?&_). by exists M'. Qed.
Lemma carry_derive L f g d p off len q h c :
  fab_carry L f g → p ∈ L → derive g d p off len q = Some (h, c) → fab_carry L f h.
Proof. intros Hc Hp Hd. eapply carry_trans; [done|]. intros M HL. eexists. eapply st_derive; [by apply HL|done]. Qed.
Lemma derive_move f d p off len q f' c : held f p → derive f d p off len q = Some (f', c) → fab_move f f'.
Proof.
  intros Hp Hd. apply (carry_move [p]). eapply carry_derive; [|by apply list_elem_of_here|done].
  by apply carry_held, Forall_singleton.
Qed.
End moves.

(** ** Cells, frames and private heap *)
Section cells.
Context `{Profile} `{Host}.

Lemma registry_calm f r : registry_run (fab_scoped_pointers f) r → calm f (with_registry f r).
Proof. by split. Qed.
Lemma scopes_calm f r : rtc scope_op (fab_scoped_pointers f) r → calm f (with_registry f r).
Proof. intros Hr. by apply registry_calm, scope_run_registry. Qed.
Lemma tx_only_calm f f' : tx_only f f' → calm f f'.
Proof. intros (?&?&?&->). calm_split. Qed.

Lemma mem_write_calm f b e d f' : mem_write f b e d = Done f' → calm f f'.
Proof. intros ?. by eapply same_auth_calm, mem_write_same. Qed.

Lemma write_tagged_calm f key r p f' x : write_tagged_cell f key r p = Done (f', x) → calm f f'.
Proof.
  unfold write_tagged_cell. intros Hs. destruct (execute_write f r _) as [[g y]|] eqn:E; [|done].
  apply execute_write_same, same_auth_calm in E. cbn in Hs. destruct y; guards; [|done].
  etransitivity; [exact E|]. destruct p; calm_split.
Qed.

Lemma store_cell_calm f r p f' x : store_pointer_cell f r p = Done (f', x) → calm f f'.
Proof.
  unfold store_pointer_cell. destruct (negb _); [intros; guards; reflexivity|].
  destruct (checked_pointer_cell f r Write); [apply write_tagged_calm|intros; guards; reflexivity].
Qed.

Lemma store_token_calm f r o p f' x : store_heap_token_in_local f r o p = Done (f', x) → calm f f'.
Proof.
  unfold store_heap_token_in_local. destruct (negb _); [intros; guards; reflexivity|].
  destruct (authenticate_heap_token _ _ _ _) as [a|]; [|done]. cbn [mbind outcome_bind].
  destruct (negb (is_ok a)); [intros; guards; reflexivity|].
  destruct (checked_pointer_cell f r Write); [apply write_tagged_calm|intros; guards; reflexivity].
Qed.

Lemma update_heap_calm f k f' : update_heap f k = Done f' → calm f f'.
Proof.
  unfold update_heap. destruct (unwrap _); [|done]. cbn. destruct (k _); [|done]. cbn. intros. guards. calm_split.
Qed.

Lemma write_heap_calm f o a p d f' : write_heap_bytes f o a p d = Done (Ok f') → calm f f'.
Proof.
  unfold write_heap_bytes. intros (live&_&Hs)%try_call_Ok. destruct (negb _); [done|].
  apply try_Ok in Hs as (span&_&Hs). run_binds Hs. guards.
  etransitivity; [by eapply mem_write_calm|by eapply update_heap_calm].
Qed.

Lemma store_heap_cell_calm f o a p s f' : store_heap_pointer_cell f o a p s = Done (Ok f') → calm f f'.
Proof.
  unfold store_heap_pointer_cell. intros (live&_&Hs)%try_call_Ok. destruct (negb _); [done|].
  apply try_Ok in Hs as (span&_&Hs). apply try_call_Ok in Hs as (?&_&Hs). run_binds Hs. guards.
  etransitivity; [by eapply mem_write_calm|by eapply update_heap_calm].
Qed.

Lemma retire_locals_calm f l : calm f (retire_locals f l).
Proof.
  revert f. induction l as [|p l IH]; intros f; cbn; [reflexivity|].
  destruct (take_backing _ _) as [reg b] eqn:E. etransitivity; [|apply IH].
  etransitivity; [by eapply scopes_calm, rtc_once, so_take_backing|]. destruct b; calm_split.
Qed.

Lemma retire_frame_calm f s l f' : retire_pointer_frame f s l = Done (Ok f') → calm f f'.
Proof.
  unfold retire_pointer_frame. destruct (leave_scope _ _) as [[reg|]|] eqn:E; [|done..]. cbn. intros. guards.
  etransitivity; [|apply retire_locals_calm]. by eapply scopes_calm, rtc_once, so_leave.
Qed.

Lemma mem_fill_calm f b e f' : mem_fill f b e = Done f' → calm f f'.
Proof. unfold mem_fill. intros ?. by eapply mem_write_calm. Qed.

Lemma issue_frame_calm f o r a regs f' x : issue_pointer_frame f o r a regs = Done (Ok (f', x)) → calm f f'.
Proof.
  unfold issue_pointer_frame. intros ([[b ph] pe]&_&Hs)%try_Ok. 
  destruct (mem_fill _ _ _) as [g|] eqn:Eg; [cbn in Hs|done]. etransitivity; [by eapply mem_fill_calm|].
  destruct (enter_scope_for _ _) as [[[r1 sc]|]|] eqn:E1; cbn in Hs; [|done..].
  destruct (bind_frame _ _ _) as [r2|] eqn:E2; cbn in Hs; [|done].
  destruct (issue_locals _ _ _ _ _) as [[r3 ps]|] eqn:E3; cbn in Hs; [|done]. guards.
  split; try done. cbn. apply scope_run_registry. eapply rtc_l; [by eapply so_enter|]. eapply rtc_l; [by eapply so_bind_frame|by eapply issue_locals_run].
Qed.

Lemma protect_calm f o w d f' b : protect_pointer_stack f o w d = (f', b) → calm f f'.
Proof. unfold protect_pointer_stack. repeat case_match; intros; simplify_eq; calm_split. Qed.
End cells.

(** ** Cores *)
Section core.
Context `{Profile} `{Host}.

Lemma guard_calm {E A B} f (m : fallible E A) (k : A → outcome (Fabric * result E B)) f' x :
  guard f m k = Done (f', x) → (∀ a, k a = Done (f', x) → calm f f') → calm f f'.
Proof. intros Hg Hk. apply guard_Done in Hg as [(?&_&->&_)|(a&?&Hg)]; [reflexivity|by eapply Hk]. Qed.

Lemma pointer_store_calm c f s a f' x : core_pointer_store c f s a = Done (f', x) → calm f f'.
Proof.
  unfold core_pointer_store. intros Hs. eapply guard_calm; [exact Hs|]. intros p Hs1. clear Hs. cbv beta iota in Hs1.
  eapply guard_calm; [exact Hs1|]. intros r Hs2. clear Hs1. cbv beta in Hs2.
  assert (∀ q, (x ← store_pointer_cell f r q; Done (fabric_result x)) = Done (f', x) → calm f f') as Hst.
  { intros q Hq. destruct (store_pointer_cell f r q) as [[g y]|] eqn:E; [|done].
    apply store_cell_calm in E. unfold fabric_result in Hq. cbn in Hq. by simplify_eq. }
  destruct p as [p|]; [|by eapply Hst]. destruct (is_heap_pointer _ _); [|by eapply Hst].
  eapply guard_calm; [exact Hs2|]. intros o Hs3. clear Hs2. cbv beta in Hs3.
  destruct (store_heap_token_in_local f r o p) as [[g y]|] eqn:E; [|done].
  apply store_token_calm in E. unfold fabric_result in Hs3. cbn in Hs3. by simplify_eq.
Qed.

Lemma pointer_write_calm c f s w d f' x : core_pointer_write c f s w d = Done (f', x) → calm f f'.
Proof.
  unfold core_pointer_write. intros Hs. eapply guard_calm; [exact Hs|]. intros p Hs1. clear Hs. cbv beta iota in Hs1.
  destruct (is_heap_pointer _ _).
  - destruct (negb _); [guards; reflexivity|]. eapply guard_calm; [exact Hs1|]. intros o Hs2. cbv beta in Hs2.
    destruct (write_heap_bytes _ _ _ _ _) as [[g|]|] eqn:E; [| |done]; cbn in Hs2; guards; [|reflexivity].
    by eapply write_heap_calm.
  - eapply guard_calm; [exact Hs1|]. intros r Hs2. cbv beta in Hs2. destruct (execute_write f r d) as [[g y]|] eqn:E; [|done].
    apply execute_write_same, same_auth_calm in E. unfold fabric_result in Hs2. cbn in Hs2. by simplify_eq.
Qed.

Lemma store_indirect_calm c f s b d f' x : pointer_store_indirect c f s b d = Done (f', x) → calm f f'.
Proof.
  unfold pointer_store_indirect. intros Hs. eapply guard_calm; [exact Hs|]. intros p Hs1. clear Hs. cbv beta iota in Hs1.
  destruct (is_heap_pointer _ _).
  - do 3 (eapply guard_calm; [exact Hs1|]; clear Hs1; intros ? Hs1; cbv beta in Hs1).
    destruct (store_heap_pointer_cell _ _ _ _ _) as [[g|]|] eqn:E; [| |done]; cbn in Hs1; guards; [|reflexivity].
    by eapply store_heap_cell_calm.
  - eapply guard_calm; [exact Hs1|]. intros a. apply pointer_store_calm.
Qed.

Lemma enter_frame_calm c f i f' x : enter_pointer_frame c f i = Done (f', x) → calm f f'.
Proof.
  unfold enter_pointer_frame. intros Hs. eapply guard_calm; [exact Hs|]. intros [[[s b] w] regs] Hs1. clear Hs. cbv beta iota in Hs1.
  apply guard_Done in Hs1 as [(?&_&->&_)|([g [sc l]]&Hi&Hs1)]; [reflexivity|].
  apply issue_frame_calm in Hi. run_binds Hs1. by guards.
Qed.

Lemma leave_frame_calm c f f' x : leave_pointer_frame c f = Done (f', x) → calm f f'.
Proof.
  unfold leave_pointer_frame. intros Hs. eapply guard_calm; [exact Hs|]. intros s Hs1. clear Hs. cbv beta iota in Hs1.
  destruct (fs_active s) as [|a l]; [guards; reflexivity|].
  destruct (if (_ =? _)%nat then _ else _) as [ok|]; [|done]. cbn [mbind outcome_bind] in Hs1.
  destruct (negb ok); [guards; reflexivity|].
  apply guard_Done in Hs1 as [(?&_&->&_)|(g&Hi&Hs1)]; [reflexivity|].
  apply retire_frame_calm in Hi. run_binds Hs1. by guards.
Qed.

Lemma pointer_insn_calm c f i f' x : pointer_insn c f i = Done (f', x) → calm f f'.
Proof.
  unfold pointer_insn, lift_core, lift_unit. intros Hs.
  destruct (insn_semantics (d_desc i)); try discriminate Hs.
  - run_binds Hs. guards. reflexivity.
  - run_binds Hs. guards. reflexivity.
  - by eapply tx_only_calm, pointer_load_indirect_tx_only.
  - destruct (pointer_store_indirect _ _ _ _ _) as [[g y]|] eqn:E; [|done]. apply store_indirect_calm in E.
    cbn in Hs. by guards.
  - destruct (core_pointer_read _ _ _ _) as [[g [b|]]|] eqn:E; [| |done]; apply core_pointer_read_tx_only in E;
      cbn in Hs; run_binds Hs; guards; by apply tx_only_calm.
  - destruct (core_pointer_write _ _ _ _ _) as [[g y]|] eqn:E; [|done]. apply pointer_write_calm in E.
    cbn in Hs. by guards.
  - by eapply enter_frame_calm.
  - run_binds Hs. guards. reflexivity.
  - by eapply leave_frame_calm.
Qed.

Definition effect_fabric (e : effect) : Fabric := match e with Next _ f _ | Stop _ f _ => f end.

Lemma fabric_read_calm c f a w k f' x : fabric_read c f a w k = Done (f', x) → calm f f'.
Proof. intros ?. by eapply tx_only_calm, fabric_read_tx_only. Qed.
Lemma fabric_write_calm c f a w d f' x : fabric_write c f a w d = Done (f', x) → calm f f'.
Proof.
  unfold fabric_write. intros Hs. run_binds Hs; guards; try reflexivity. by eapply same_auth_calm, execute_write_same.
Qed.
Lemma fabric_xchg_calm c f a w d f' x : fabric_atomic_xchg c f a w d = Done (f', x) → calm f f'.
Proof.
  unfold fabric_atomic_xchg. intros Hs. run_binds Hs; guards; try reflexivity.
  by eapply same_auth_calm, execute_xchg_same.
Qed.

Lemma execute_calm c f i e : execute c f i = Done e → calm f (effect_fabric e).
Proof.
  unfold execute. intros Hs. destruct (add_u64 _ _) as [n|]; [|done]. cbn [mbind outcome_bind] in Hs.
  destruct (_ && _); [guards; reflexivity|].
  destruct (insn_semantics (d_desc i));
    unfold step_pointer, step_load, step_store, step_byte, step_xchg, step_call, step_ret, step_trap, step_eret in Hs;
    try (destruct (byte_request _ _ _ _); [|guards; reflexivity]); try destruct (bool_decide _);
    run_binds Hs; guards; try reflexivity; cbn [effect_fabric].
  all: match goal with
       | E : pointer_insn _ _ _ = _ |- _ => exact (pointer_insn_calm _ _ _ _ _ E)
       | E : fabric_read _ _ _ _ _ = _ |- _ => exact (fabric_read_calm _ _ _ _ _ _ _ E)
       | E : fabric_write _ _ _ _ _ = _ |- _ => exact (fabric_write_calm _ _ _ _ _ _ _ E)
       | E : fabric_atomic_xchg _ _ _ _ _ = _ |- _ => exact (fabric_xchg_calm _ _ _ _ _ _ _ E)
       | E : execute_read _ _ = _ |- _ => exact (same_auth_calm _ _ (execute_read_same _ _ _ _ E))
       | E : execute_write _ _ _ = _ |- _ => exact (same_auth_calm _ _ (execute_write_same _ _ _ _ _ E))
       end.
Qed.

Lemma core_step_calm c f c' f' r : step c f = Done (c', f', r) → calm f f'.
Proof.
  unfold step. intros Hs. destruct (core_halted c); [guards; reflexivity|]. destruct (negb _); [guards; reflexivity|].
  destruct (fabric_read _ _ _ _ _) as [[g [b|e]]|] eqn:Er; [| |done]; cbn in Hs; apply fabric_read_calm in Er;
    [|by guards]. destruct (is_illegal _); [by guards|].
  destruct (execute c g _) as [e|] eqn:Ee; [|done]. apply execute_calm in Ee. cbn in Hs.
  etransitivity; [exact Er|]. destruct e; cbn in *; by guards.
Qed.

Lemma retire_frames_calm f l f' : retire_frames f l = Done f' → calm f f'.
Proof.
  revert f. induction l as [|a l IH]; intros f Hs; cbn in Hs; [guards; reflexivity|].
  destruct (retire_pointer_frame f _ _) as [[g|]|] eqn:E; [| |done]; cbn in Hs; apply IH in Hs; [|done].
  etransitivity; [by eapply retire_frame_calm|done].
Qed.

Lemma retire_saved_calm f l f' : retire_saved f l = Done f' → calm f f'.
Proof.
  revert f. induction l as [|s l IH]; intros f Hs; cbn in Hs; [guards; reflexivity|].
  destruct (i ← sv_image s; im_frames i) as [st|]; cbn in Hs; [|by apply IH].
  destruct (retire_frames f _) as [g|] eqn:E; [|done]. cbn in Hs.
  etransitivity; [by eapply retire_frames_calm|by apply IH].
Qed.

Lemma retire_all_calm c f c' f' : retire_all_pointer_frames c f = Done (c', f') → calm f f'.
Proof.
  unfold retire_all_pointer_frames. intros Hs. destruct (core_pointer_frames c) as [s|].
  - destruct (retire_frames f _) as [g|] eqn:E; [|done]. cbn in Hs.
    destruct (retire_saved g _) as [h|] eqn:E2; [|done]. cbn in Hs. guards.
    etransitivity; [by eapply retire_frames_calm|by eapply retire_saved_calm].
  - cbn in Hs. destruct (retire_saved f _) as [h|] eqn:E2; [|done]. cbn in Hs. guards. by eapply retire_saved_calm.
Qed.

Lemma admit_calm c f prog b l h f' x : admit_pointer_program c f prog b l h = Done (f', x) → calm f f'.
Proof.
  unfold admit_pointer_program. intros Hs. destruct (_ || _); [guards; reflexivity|].
  eapply guard_calm; [exact Hs|]. clear Hs. intros [? ?] Hs. cbv beta iota in Hs. eapply guard_calm; [exact Hs|]. clear Hs. intros ? Hs. cbv beta in Hs.
  destruct (negb _); [guards; reflexivity|]. eapply guard_calm; [exact Hs|]. clear Hs. intros ? Hs. cbv beta in Hs.
  destruct (is_none_or _ _); [guards; reflexivity|].
  destruct (read_physical _ _ _); [|done]. cbn [mbind outcome_bind] in Hs. destruct (negb _); [guards; reflexivity|].
  eapply guard_calm; [exact Hs|]. clear Hs. intros [? ?] Hs. cbv beta iota in Hs. eapply guard_calm; [exact Hs|]. clear Hs. intros ? Hs. cbv beta in Hs.
  eapply guard_calm; [exact Hs|]. clear Hs. intros [? ?] Hs. cbv beta iota in Hs. destruct (authorize _ _); [|guards; reflexivity].
  destruct (protect_pointer_stack _ _ _ _) as [f1 b'] eqn:Ep. apply protect_calm in Ep.
  destruct (negb b'); [by guards|]. apply guard_Done in Hs as [(?&_&->&_)|(c1&Hc1&Hs)]; [done|].
  run_binds Hs. by guards.
Qed.
End core.
