(* ===== verification/PointerSafety.v ===== *)
(** * Temporal safety of scoped pointers

    A pointer into a frame that was left never resolves again, whatever the machine
    does afterwards: slots are reused, but only under a later generation. *)

From S2P Require Import Prelude State Extents ExtentsFacts Registry PointerFrames HeapLedger RegistrySafety RegistryOps.
From S2P Require Import Fabric FabricTx FabricAuth FabricInv FabricSafety FabricCells FabricHeap.
From S2P Require Import Desc Isa Core CoreFault CoreInv FabricMoves.

(** The same allocation, at any position *)
Definition same_allocation (p q : ScopedPointer) : Prop :=
  ptr_slot q = ptr_slot p ∧ ptr_generation q = ptr_generation p.
Lemma stale_same r p q : same_allocation p q → stale r p → stale r q.
Proof. intros [Hs Hg] Hp s. rewrite Hs, Hg. apply Hp. Qed.

Section pointers.
Context `{Profile} `{Host}.

Lemma steps_registry f M f' M' : fab_steps f M f' M' → evolves (fab_scoped_pointers f) (fab_scoped_pointers f').
Proof. induction 1 as [|??????? _ IH]; [done|]. etransitivity; [by eapply step_registry|done]. Qed.

Lemma stale_steps f M f' M' p : reg_wf (fab_scoped_pointers f) → fab_steps f M f' M' →
  stale (fab_scoped_pointers f) p → stale (fab_scoped_pointers f') p.
Proof. intros Hr Hs. apply stale_evolves; [done|by eapply steps_registry]. Qed.

Lemma stale_resolve r p d w b : stale r p → pointer_resolve r p d w b = Err Stale.
Proof. intros Hp. unfold pointer_resolve. by rewrite stale_allocation. Qed.
Lemma stale_backing f p d : stale (fab_scoped_pointers f) p → scoped_pointer_backing f p d = Err (PPointer Stale).
Proof. intros Hp. unfold scoped_pointer_backing, pointer_add. by rewrite stale_allocation. Qed.

Lemma allocation_slot r p d a : allocation r p d = Ok a →
  ∃ s, sp_slots r !! ptr_slot p = Some s ∧ slot_generation s = ptr_generation p ∧ local_scope s = Some (la_scope a).
Proof.
  unfold allocation. destruct (sp_slots r !! ptr_slot p) as [s|]; cbn; [|done].
  destruct (_ || _) eqn:Hg; [done|]. bools.
  destruct (slot_record s) as [|b|] eqn:Hb; [done| |done]. destruct (negb _); [done|]. intros [= ->].
  exists s. unfold local_scope. rewrite Hb. by match goal with E : slot_state s = SLive |- _ => rewrite E end.
Qed.

(** Retiring a frame returns, and its locals are stale afterwards. *)
Lemma retire_frame_spec f sc locals : reg_wf (fab_scoped_pointers f) →
  ∃ x, retire_pointer_frame f sc locals = Done x ∧ ∀ f', x = Ok f' →
    calm f f' ∧ ∀ p d a, allocation (fab_scoped_pointers f) p d = Ok a → la_scope a = sc → stale (fab_scoped_pointers f') p.
Proof.
  intros Hr. unfold retire_pointer_frame. destruct (leave_scope_spec _ sc Hr) as (x&E&Hx). rewrite E. cbn.
  destruct x as [r|e]; [|by eexists]. eexists. split; [done|]. intros f' [= <-]. destruct (Hx r eq_refl) as [He Hst].
  pose proof (retire_locals_calm (with_registry f r) locals) as Hc. split.
  - etransitivity; [by eapply scopes_calm, rtc_once, so_leave|done].
  - intros p d a Ha <-. destruct (allocation_slot _ _ _ _ Ha) as (s&?&?&?).
    apply (stale_evolves r); [by apply He|apply registry_run_evolves, Hc|]. by eapply Hst.
Qed.

(** C17: Local pointers do not outlive their frame.  Once the scope of a local
    allocation has been left, no pointer into that allocation, at any position,
    resolves or has a backing, in any domain and after any sequence of fabric
    operations. *)
Theorem local_pointer_lifetime f M f1 f2 M2 p q d a locals d' w b :
  fab_reach f M → allocation (fab_scoped_pointers f) p d = Ok a →
  retire_pointer_frame f (la_scope a) locals = Done (Ok f1) → fab_steps f1 M f2 M2 → same_allocation p q →
  pointer_resolve (fab_scoped_pointers f2) q d' w b = Err Stale ∧
  scoped_pointer_backing f2 q d' = Err (PPointer Stale).
Proof.
  intros Hf Ha Hret Hs Hpq. pose proof (reach_registry f M Hf) as Hr.
  destruct (retire_frame_spec f (la_scope a) locals Hr) as (x&E&Hx). rewrite Hret in E. injection E as <-.
  destruct (Hx f1 eq_refl) as [Hc Hst].
  assert (stale (fab_scoped_pointers f2) q) as Hq.
  { apply (stale_same _ p); [done|]. eapply stale_steps; [by apply (registry_run_evolves _ _ (cm_registry _ _ Hc))|done|by eapply Hst]. }
  split; [by apply stale_resolve|by apply stale_backing].
Qed.
End pointers.

(** ** Concrete lifetimes *)
#[local] Instance checked_lifetimes : Profile := true.

(** A frame of context 7 with one 16-byte local, left, and its slot taken again *)
Definition enter_local (r : ScopedPointers) : outcome (ScopedPointers * ScopedPointer) :=
  x ← enter_scope_for r 7;
  match x with
  | Err _ => Panic
  | Ok (r, sc) => y ← register r sc 0 64 16 true;
      match y with Ok z => Done z | Err _ => Panic end
  end.
Definition entered (r : ScopedPointers) : ScopedPointers := match enter_local r with Done x => x.1 | Panic => r end.
Lemma entered_run r : rtc scope_op r (entered r).
Proof.
  unfold entered, enter_local. destruct (enter_scope_for r 7) as [[[r1 sc]|]|] eqn:E; cbn; [|done..].
  destruct (register r1 sc 0 64 16 true) as [[[r2 p]|]|] eqn:E2; cbn; [|done..].
  eapply rtc_l; [by eapply so_enter|]. by eapply rtc_once, so_register.
Qed.
Definition framed : Fabric := from_parts [] (entered demo_registry) None.
Definition unframed : Fabric := match retire_pointer_frame framed 1 [] with Done (Ok f) => f | _ => framed end.
Definition reframed : Fabric := with_registry unframed (entered (fab_scoped_pointers unframed)).

Lemma local_pointer_lifetime_witness :
  pointer_resolve (fab_scoped_pointers framed) (mkPointer 0 1 0) 0 8 true = Ok 64 ∧
  pointer_resolve (fab_scoped_pointers reframed) (mkPointer 0 2 0) 0 8 true = Ok 64 ∧
  pointer_resolve (fab_scoped_pointers reframed) (mkPointer 0 1 8) 0 8 true = Err Stale.
Proof.
  split; [vm_compute; reflexivity|]. split; [vm_compute; reflexivity|].
  refine (proj1 (local_pointer_lifetime framed [] unframed reframed [] (mkPointer 0 1 0) (mkPointer 0 1 8) 0
    (mkLocal 1 0 64 16 true None) [] 0 8 true _ _ _ _ _)).
  - apply reach_init, (registry_run_evolves _ _ (scope_run_registry _ _ (entered_run _))), (fresh_registry_wf 4 4).
  - vm_compute; reflexivity.
  - vm_compute; reflexivity.
  - eapply steps_next; [|apply steps_refl]. apply st_calm, scopes_calm, entered_run.
  - by split.
Defined.
