(* ===== verification/CoreDemo.v ===== *)
(** * A running program

    A fabric with a sealed 32-byte code object at 16 and a stack object at 64, and
    the cores that execute its program: the concrete states at which the
    theorems about reachable cores are evaluated. *)

From S2P Require Import Prelude State Extents Registry PointerFrames HeapLedger Fabric.
From S2P Require Import FabricTx FabricInv FabricSafety FabricCells FabricHeap Desc Isa Core.
From S2P Require Import RegistrySafety CoreFault CoreInv.

#[local] Existing Instance checked_profile.
#[local] Existing Instance demo_host.

(** CALL +2; TRAP; RET; ERET; then HALTs. *)
Definition demo_words : list Z :=
  [encode_b 50 0 2; encode_s 57 0; encode_s 56 0; encode_s 58 0;
   encode_s 62 0; encode_s 62 0; encode_s 62 0; encode_s 62 0].
Definition demo_bytes : list Z := concat (map (le_bytes 4) demo_words).

Definition machine0 : Fabric :=
  from_parts (replicate 16 0 ++ demo_bytes ++ replicate 80 0) demo_registry None.
Definition machine1 : Fabric := fabric_of (alloc_object machine0 "code" 32 Memory).
Definition machine2 : Fabric := (place_object machine1 0 16).1.
Definition machine3 : Fabric := fabric_of (alloc_object machine2 "stack" 32 Memory).
Definition machine4 : Fabric := (place_object machine3 1 64).1.
Definition machine5 : Fabric := fabric_of (create_domain machine4).
Definition machine6 : Fabric := (seal_object machine5 0).1.
Definition machine7 : Fabric := fabric_of_option (grant machine6 0 0 0 32 (Z.lor Perm.READ Perm.EXECUTE)).
Definition machine8 : Fabric := fabric_of_option (grant machine7 0 1 0 32 (Z.lor Perm.READ Perm.WRITE)).
Definition machine : Fabric := register_agent machine8 0 (Cpu 0) 0.
Definition machine_caps : list Capability64 :=
  [mkCap 1 0 0 32 (Z.lor Perm.READ Perm.WRITE); mkCap 0 1 0 32 (Z.lor Perm.READ Perm.EXECUTE)].

Lemma machine_reach : fab_reach machine machine_caps.
Proof.
  eapply reach_step; [|apply (st_register_agent machine8 _ 0 (Cpu 0) 0)].
  eapply reach_step; [|apply (st_grant machine7 _ 0 1 0 32 (Z.lor Perm.READ Perm.WRITE)); [lia..|vm_compute; reflexivity]].
  eapply reach_step; [|apply (st_grant machine6 [] 0 0 0 32 (Z.lor Perm.READ Perm.EXECUTE)); [lia..|vm_compute; reflexivity]].
  eapply reach_step; [|apply (st_seal machine5 _ 0 true); vm_compute; reflexivity].
  eapply reach_step; [|apply (st_create_domain machine4 _ 0); vm_compute; reflexivity].
  eapply reach_step; [|apply (st_place machine3 _ 1 64 true); [unfold is_u64, U64; lia|vm_compute; reflexivity]].
  eapply reach_step; [|apply (st_alloc machine2 _ "stack" 32 Memory 1); [unfold is_u64, U64; lia|vm_compute; reflexivity]].
  eapply reach_step; [|apply (st_place machine1 _ 0 16 true); [unfold is_u64, U64; lia|vm_compute; reflexivity]].
  eapply reach_step; [|apply (st_alloc machine0 _ "code" 32 Memory 0); [unfold is_u64, U64; lia|vm_compute; reflexivity]].
  apply reach_init, (fresh_registry_wf 4 4).
Qed.

(** ** Cores *)
Definition core_of (x : outcome (Anka64Core * Fabric * StepResult)) : Anka64Core :=
  match x with Done (c, _, _) => c | Panic => demo_core end.
Definition fabric_after (x : outcome (Anka64Core * Fabric * StepResult)) : Fabric :=
  match x with Done (_, f, _) => f | Panic => machine end.
Definition demo_map : list AddressMapEntry := [mkMapEntry 4096 32 0 0; mkMapEntry 8192 32 1 0].

(** Code at 4096, its ERET the trap vector. *)
Definition fresh_core : Anka64Core :=
  mkCore None 1 1 false [] (replicate 6 None) None (replicate 16 0) 0 (mkFlags false false false false)
    0 0 User demo_map false 4108 [] true (mkPending false false) TurnTimer [].
Definition at_call : Anka64Core := set_core_pc 4096 fresh_core.
Definition at_ret : Anka64Core := core_of (step at_call machine).
Definition machine_called : Fabric := fabric_after (step at_call machine).
Definition returned_core : Anka64Core := core_of (step at_ret machine_called).
Definition at_trap : Anka64Core := returned_core.
Definition machine_returned : Fabric := fabric_after (step at_ret machine_called).
Definition trapped : Anka64Core := core_of (step at_trap machine_returned).

(** The CALL the run executes *)
Definition demo_calls : list Site := [CallSite 4096 0 1].

Lemma at_call_reach : core_reach at_call [].
Proof. eapply cr_step; [|apply (cs_set_pc fresh_core)]. apply (cr_new 1 0 0 demo_map 4108). Qed.

Lemma at_ret_reach : core_reach at_ret demo_calls.
Proof.
  eapply cr_step; [exact at_call_reach|].
  refine (cs_step at_call [] machine at_ret machine_called Continue _). vm_compute. reflexivity.
Qed.

Lemma at_trap_reach : core_reach at_trap demo_calls.
Proof.
  eapply cr_step; [exact at_ret_reach|].
  refine (cs_step at_ret demo_calls machine_called at_trap machine_returned Continue _). vm_compute. reflexivity.
Qed.

(** The same program admitted to the protected pointer machine. *)
Definition admission : outcome (Fabric * result PointerMachineError Anka64Core) :=
  admit_pointer_program fresh_core machine (mkProgram demo_bytes []) 4096 8192 8224.
Definition admitted_core : Anka64Core :=
  match admission with Done (_, Ok c) => c | _ => demo_core end.
Definition admitted_machine : Fabric := match admission with Done (f, _) => f | Panic => machine end.
Definition protected_trap : Anka64Core := set_core_pc 4100 admitted_core.
Definition protected_pending : Anka64Core := post_device_interrupt (post_timer_interrupt protected_trap).

Lemma protected_trap_reach : core_reach protected_trap [].
Proof.
  eapply cr_step; [|apply (cs_set_pc admitted_core)].
  eapply cr_step; [apply (cr_new 1 0 0 demo_map 4108)|].
  refine (cs_admit fresh_core [] machine (mkProgram demo_bytes []) 4096 8192 8224 admitted_core admitted_machine _).
  vm_compute. reflexivity.
Qed.

Lemma protected_pending_reach : core_reach protected_pending [].
Proof.
  eapply cr_step; [|apply (cs_post_device (post_timer_interrupt protected_trap))].
  eapply cr_step; [|apply (cs_post_timer protected_trap)]. exact protected_trap_reach.
Qed.

(** A handler that overwrites a register before it returns. *)
Definition scribble (c : Anka64Core) : Anka64Core :=
  match write_register c 14 77 with Done c => c | Panic => c end.
Definition resume (c : Anka64Core) : Anka64Core :=
  match event_return c with Done (Some (c, _)) => c | _ => c end.

Definition syscall_entered : Anka64Core := core_of (step protected_trap admitted_machine).
Definition syscall_entered_machine : Fabric := fabric_after (step protected_trap admitted_machine).
Definition interrupt_entered : Anka64Core := (deliver_pending protected_pending).1.
