(* ===== verification/CoreSafety.v ===== *)
(** * Safety of reachable cores

    Control-flow integrity of returns, privilege, interrupt masking and
    arbitration, the event round trip, provenance of executed code, and
    unforgeability of pointer kinds. *)

From S2P Require Import Prelude State Extents Registry PointerFrames HeapLedger Fabric.
From S2P Require Import FabricTx FabricAuth FabricInv FabricSafety FabricCells FabricHeap.
From S2P Require Import Desc Isa Core CoreFault CoreInv CoreDemo.

Section control.
Context `{Profile} `{Host}.

(** C5: Returns only go where calls came from.  In every reachable core a RET that
    does not fault consumes the top of the return-authority stack and jumps to the
    instruction after a CALL that this core has executed; and it does so only while
    the code object that CALL was in still has the generation it had when the CALL
    was executed. *)
Theorem return_to_call_site c G f c' f' :
  core_reach c G → executes c f SemRet → step c f = Done (c', f', Continue) →
  ∃ a pc k g o, core_return_stack c = a :: core_return_stack c' ∧
    CallSite pc k g ∈ G ∧ add_u64 pc 4 = Done (core_pc c') ∧
    fab_objects f !! k = Some o ∧ obj_generation o = g.
Proof.
  intros Hr (i&Hi&Hsem) Hs. apply core_reach_inv in Hr.
  destruct (step_run c f c' f' Hs) as (i'&f1&c1&pc&Hi'&Ht&_&He&->). rewrite Hi in Hi'. simplify_eq.
  unfold execute in He. destruct (add_u64 (core_pc c) 4) as [n|]; [|done]. cbn [mbind outcome_bind] in He.
  rewrite Hsem in He. rewrite andb_false_r in He.
  apply (step_ret_inv _ _ _ _ _ _ Hr) in He as (_&a&Hst&->&o&Ho&Hg).
  pose proof (ci_minted _ _ Hr) as Hm. rewrite Hst in Hm. apply Forall_cons in Hm as [(p&Hp&Hadd) _].
  exists a, p, (ret_code_object a), (ret_generation a), o. destruct Ht as (?&?&?&->). split_and!; done.
Qed.

(** C7: Privilege is entered only through the gate.  In every reachable core, if an
    instruction executed in user mode leaves the core in supervisor mode then it
    was a TRAP, control is at the trap vector, interrupts are masked, and the event
    frame that will return to user mode has been pushed; in particular ERET, which
    the step does not guard by privilege, cannot escalate. *)
Theorem privilege_gate c G f c' f' r :
  core_reach c G → core_privilege c = User → step c f = Done (c', f', r) →
  core_privilege c' = Supervisor →
  executes c f SemTrap ∧ core_pc c' = core_trap_vector c ∧ core_interrupts_enabled c' = false ∧
  ∃ h, core_event_frames c' = [h] ∧ ev_return_privilege h = User ∧ ev_cause h = Syscall.
Proof.
  intros Hr Hu Hs Hsup. apply core_reach_inv in Hr as Hi.
  assert (core_event_frames c = []) as Hev.
  { rewrite (ci_level _ _ Hi) in Hu. by destruct (core_event_frames c). }
  apply step_inv_cases in Hs as [->|(i&f1&Hc&_&Hrd&[He|(c1&pc&He&->&_)])]; [congruence|..].
  { apply execute_stop in He as [(->&_)|(->&_)]; [congruence|]. cbn in Hsup. congruence. }
  destruct (switches (insn_semantics (d_desc i))) eqn:Hsw.
  2:{ apply execute_local in He as []; [|done..]. cbn in Hsup. congruence. }
  unfold execute in He. destruct (add_u64 _ _) as [n|] eqn:En; [|done]. cbn [mbind outcome_bind] in He.
  destruct (_ && _); [done|]. cbn in Hsup. destruct (insn_semantics (d_desc i)) eqn:Esem; try discriminate Hsw.
  - apply step_call_level in He as []. congruence.
  - apply step_ret_level in He as []. congruence.
  - unfold step_trap in He. rewrite En in He. cbn [mbind outcome_bind] in He. simplify_eq.
    split; [by exists i|]. unfold enter_event. destruct (core_protected_context_enabled c); cbn;
      rewrite Hev; by eauto 10.
  - unfold step_eret, event_return in He. by rewrite Hev in He.
Qed.

(** ** Provenance of executed code *)
Lemma resolve_range m addr k off : resolve m addr = Done (Some (k, off)) → is_u64 off.
Proof.
  induction m as [|e m IH]; cbn; [done|]. destruct (_ <=? _); [|done].
  destruct (add_u64 _ (am_size e)) as [n|]; [|done]. cbn. destruct (addr <? n); [|done].
  destruct (add_u64 _ _) as [o|] eqn:E; [|done]. cbn. intros. guards. by eapply add_u64_range.
Qed.

Lemma execute_read_granted f M r f' bytes :
  fab_inv f M → request_wf r → is_mutating (req_kind r) = false →
  execute_read f r = Done (f', Ok bytes) →
  ∃ b e, access_check f r None = Ok (b, e) ∧ bytes = slice b (req_length r) (fab_memory f).
Proof.
  intros Hi Hr Hk He. pose proof (inv_placement_wf f M Hi) as Hp.
  destruct (add_u64 (fab_next_tx_id f) 1) as [n|] eqn:Hn.
  2:{ unfold execute_read, submit in He. by rewrite Hn in He. }
  destruct (access_check f r None) as [[b e]|reason] eqn:Hc.
  - destruct (execute_read_Ok _ _ _ _ _ Hp Hr Hk Hn Hc) as (g&_&He'). rewrite He in He'.
    exists b, e. by simplify_eq.
  - destruct (execute_read_Err _ _ _ _ Hp Hr Hn Hc) as (s&rec&_&He'). rewrite He in He'. by simplify_eq.
Qed.

(** Only sealed bytes are executed.  Whatever core runs against a reachable
    fabric, the instruction it decodes is the four bytes of a sealed object, inside
    that object and at the place the core's address map names; by W^X and the
    immutability of sealed objects no agent can write them. *)
Theorem executed_code_sealed c f M i :
  fab_reach f M → current_insn c f = Some i →
  ∃ k off base o, resolve (core_address_map c) (core_pc c) = Done (Some (k, off)) ∧
    fab_objects f !! k = Some o ∧ obj_state o = Sealed ∧ fab_placement f !! k = Some base ∧
    0 ≤ off ∧ off + 4 ≤ obj_size o ∧ i = decode (le_value (slice (base + off) 4 (fab_memory f))).
Proof.
  intros Hf Hi. apply reach_inv in Hf. unfold current_insn, fabric_read in Hi.
  destruct (resolve _ _) as [[[k off]|]|] eqn:Er; [|done..]. cbn [mbind outcome_bind] in Hi.
  apply resolve_range in Er as Hoff. set (r := make_request c k off WWord Fetch) in *.
  destruct (execute_read f r) as [[f' [bytes|]]|] eqn:Ee; [|done..]. simplify_eq.
  assert (request_wf r) as Hr by (split; [done|vm_compute; split; congruence]).
  destruct (execute_read_granted f M r f' bytes Hf Hr eq_refl Ee) as (b&e&Hc&->).
  destruct (access_span_inside f M r None b e Hf Hr Hc) as (base&o&Hb&Ho&_&?&?&?).
  destruct (access_check_span _ _ _ _ _ (inv_placement_wf f M Hf) Hr Hc) as (_&->&_&_&_&Ht&[g Ha]&_).
  apply translate_Some in Ht as (base'&Hb'&->&_); [|by eapply inv_placement_wf|apply Hoff].
  rewrite Hb in Hb'. simplify_eq. destruct (authorized_allowed f M r g Hf Ha) as (o'&p&Ho'&Hg&Hp).
  rewrite Ho in Ho'. simplify_eq. exists k, off, base', o'. split_and!; try done.
  - destruct (obj_state o'); cbn in Hg, Hp; try done. by rewrite Hp in Hg.
  - apply Hoff.
  - cbn in *. lia.
Qed.
End control.

Section control_witnesses.
#[local] Existing Instance checked_profile.
#[local] Existing Instance demo_host.

(** The CALL was at 4096 in the code object 0, sealed and so of generation 1. *)
Lemma return_to_call_site_witness :
  demo_calls = [CallSite 4096 0 1] ∧ core_pc returned_core = 4100 ∧
  ∃ pc k g, CallSite pc k g ∈ demo_calls ∧ add_u64 pc 4 = Done 4100 ∧ obj_generation <$> fab_objects machine_called !! k = Some g.
Proof.
  split; [reflexivity|]. split; [vm_compute; reflexivity|].
  destruct (return_to_call_site at_ret demo_calls machine_called returned_core machine_returned at_ret_reach)
    as (a&pc&k&g&o&_&Hp&Ha&Ho&Hg).
  - eexists. split; vm_compute; reflexivity.
  - vm_compute. reflexivity.
  - exists pc, k, g. split; [exact Hp|]. split; [rewrite Ha; vm_compute; reflexivity|]. rewrite Ho. cbn. by rewrite Hg.
Defined.

Lemma privilege_gate_witness :
  core_privilege at_trap = User ∧ core_privilege trapped = Supervisor ∧
  core_pc trapped = 4108 ∧ core_interrupts_enabled trapped = false.
Proof.
  destruct (privilege_gate at_trap demo_calls machine_returned trapped
    (fabric_after (step at_trap machine_returned)) Continue at_trap_reach) as (_&Hpc&Hen&_).
  - reflexivity.
  - vm_compute. reflexivity.
  - vm_compute. reflexivity.
  - split_and!; [vm_compute; reflexivity..| |exact Hen]. rewrite Hpc. vm_compute. reflexivity.
Defined.

Lemma executed_code_sealed_witness :
  ∃ k off base o, resolve (core_address_map at_call) 4096 = Done (Some (k, off)) ∧
    fab_objects machine !! k = Some o ∧ obj_state o = Sealed ∧ fab_placement machine !! k = Some base.
Proof.
  destruct (executed_code_sealed at_call machine machine_caps (decode (encode_b 50 0 2)) machine_reach)
    as (k&off&base&o&?&?&?&?&_).
  - vm_compute. reflexivity.
  - exists k, off, base, o. split_and!; assumption.
Defined.
End control_witnesses.
