(* ===== verification/CoreEvents.v ===== *)
(** * Events: what survives a handler

    Between the entry of an event and the return from it the core may execute any
    instructions, nest further traps, post interrupts and receive host-mediated
    results.  The theorems say what the interrupted context gets back, that the
    return is always available, and that the two interrupt causes alternate. *)

From S2P Require Import Prelude State Extents Registry PointerFrames HeapLedger Fabric.
From S2P Require Import FabricTx FabricInv FabricCells FabricHeap Desc Isa Core CoreFault.
From S2P Require Import CoreInv CoreFrames FabricSafety CoreDemo.

(** A saved context may lose its frames to the retirement of the process, and a
    syscall context may receive results in registers 0 to 12; nothing else of it
    changes. *)
Record ctx_kept (s s' : SavedEventContext) : Prop := {
  ck_header : sv_header s' = sv_header s;
  ck_image : ∀ i, sv_image s = Some i → ∃ i', sv_image s' = Some i' ∧
    im_flags i' = im_flags i ∧ im_return_stack i' = im_return_stack i ∧
    im_halted i' = im_halted i ∧ (im_frames i' = im_frames i ∨ im_frames i' = None) ∧
    (∀ n, (13 ≤ n)%nat → im_words i' !! n = im_words i !! n) ∧
    (ev_cause (sv_header s) ≠ Syscall → im_words i' = im_words i ∧ im_kinds i' = im_kinds i);
}.

Lemma ctx_kept_refl s : ctx_kept s s.
Proof. split; [done|]. intros i Hi. exists i. split_and!; auto. Qed.
Lemma ctx_kept_trans a b c : ctx_kept a b → ctx_kept b c → ctx_kept a c.
Proof.
  intros [H1 K1] [H2 K2]. split; [congruence|]. intros i Hi.
  destruct (K1 i Hi) as (j&Hj&?&?&?&Hf&Hw&Hc). destruct (K2 j Hj) as (k&Hk&?&?&?&Hf'&Hw'&Hc').
  exists k. split_and!; [done|congruence..| | |].
  - destruct Hf', Hf; [left|right..]; congruence.
  - intros n Hn. by rewrite Hw', Hw.
  - intros Hne. rewrite H1 in Hc'. destruct (Hc Hne), (Hc' Hne). split; congruence.
Qed.

(** The running handler: steps that do not return below the event. *)
Definition inside `{Profile} `{Host} (x y : Anka64Core * list Site) : Prop :=
  core_step x.1 x.2 y.1 y.2 ∧ core_event_frames y.1 ≠ [].

(** The pending bits grow and the arbiter's turn stays. *)
Definition posts (c c' : Anka64Core) : Prop :=
  core_interrupt_turn c' = core_interrupt_turn c ∧
  (pend_timer (core_pending c) = true → pend_timer (core_pending c') = true) ∧
  (pend_device (core_pending c) = true → pend_device (core_pending c') = true).

(** What one step may do to the oldest saved context. *)
Definition keeps (c c' : Anka64Core) : Prop :=
  ∀ s, last (core_saved_event_contexts c) = Some s → core_event_frames c' ≠ [] →
    ∃ s', last (core_saved_event_contexts c') = Some s' ∧ ctx_kept s s'.

Definition preserves (c c' : Anka64Core) : Prop := keeps c c' ∧ posts c c'.

Section kept.
Context `{Profile} `{Host}.

Lemma keeps_same c c' : core_saved_event_contexts c' = core_saved_event_contexts c → keeps c c'.
Proof. intros Hs s Hl _. rewrite Hs. exists s. split; [done|apply ctx_kept_refl]. Qed.
Lemma keeps_local c c' : core_local c c' → keeps c c'.
Proof. intros []. by apply keeps_same. Qed.
Lemma posts_refl c : posts c c.
Proof. by split_and!. Qed.
Lemma posts_local c c' : core_local c c' → posts c c'.
Proof. intros []. unfold posts. split_and!; congruence. Qed.
Lemma posts_trans a b c : posts a b → posts b c → posts a c.
Proof. intros (?&?&?) (?&?&?). split_and!; [congruence|auto..]. Qed.

Lemma preserves_local c c' : core_local c c' → preserves c c'.
Proof. split; [by apply keeps_local|by apply posts_local]. Qed.
Lemma preserves_level c c' : same_level c c' → preserves c c'.
Proof. intros (_&Hs&Hp&Ht). split; [by apply keeps_same|]. unfold posts. split_and!; congruence. Qed.

Lemma keeps_push c c' s : core_saved_event_contexts c' = s :: core_saved_event_contexts c → keeps c c'.
Proof.
  intros Hs t Hl _. rewrite Hs, last_cons, Hl. exists t. split; [done|apply ctx_kept_refl].
Qed.

Lemma keeps_pop c G c' s :
  core_inv c' G → core_saved_event_contexts c = s :: core_saved_event_contexts c' → keeps c c'.
Proof.
  intros Hi Hs t Hl Hne. rewrite Hs, last_cons in Hl. destruct (last _) as [u|] eqn:E; simplify_eq.
  - exists t. split; [done|apply ctx_kept_refl].
  - apply last_None in E. rewrite <- (ci_sync _ _ Hi), E in Hne. done.
Qed.

Lemma keeps_top c c' s s' sv :
  core_saved_event_contexts c = s :: sv → core_saved_event_contexts c' = s' :: sv → ctx_kept s s' →
  keeps c c'.
Proof.
  intros Hs Hs' Hk t Hl _. rewrite Hs, last_cons in Hl. rewrite Hs', last_cons.
  destruct (last sv) as [u|]; simplify_eq; eexists; (split; [done|]); [apply ctx_kept_refl|done].
Qed.

Lemma trap_preserves c h :
  preserves c (set_core_interrupts_enabled false (set_core_privilege Supervisor (enter_event c h))).
Proof.
  unfold enter_event. destruct (core_protected_context_enabled c);
    (split; [by eapply keeps_push|by split_and!]).
Qed.

Lemma event_return_preserves c G c' pc :
  core_inv c G → event_return c = Done (Some (c', pc)) → preserves c c'.
Proof.
  intros Hi He. pose proof (event_return_inv _ _ _ _ Hi He) as Hi'.
  apply event_return_Some in He as (h&t&s&sv&c2&Ef&Es&_&->&_&E2). apply resumed_local in E2.
  assert (core_saved_event_contexts c2 = sv ∧ posts c c2) as [Hsv Hp].
  { unfold posts. destruct (sv_image s), E2; cbn in *; split_and!; congruence. }
  split; [|done]. eapply keeps_pop; [exact Hi'|]. cbn. by rewrite Es, Hsv.
Qed.

Lemma execute_preserves c f i c' f' pc G :
  core_inv c G → 0 ≤ d_rd i → execute c f i = Done (Next c' f' pc) → preserves c c'.
Proof.
  intros Hi Hrd He. destruct (switches (insn_semantics (d_desc i))) eqn:Hsw;
    [|by eapply preserves_local, execute_local].
  unfold execute in He. destruct (add_u64 _ _) as [n|] eqn:En; [|done]. cbn [mbind outcome_bind] in He.
  destruct (_ && _); [done|]. destruct (insn_semantics (d_desc i)); try discriminate Hsw.
  - by eapply preserves_level, step_call_level.
  - by eapply preserves_level, step_ret_level.
  - unfold step_trap in He. rewrite En in He. cbn [mbind outcome_bind] in He. simplify_eq.
    apply trap_preserves.
  - unfold step_eret in He. destruct (event_return c) as [[[c1 ?]|]|] eqn:E; [|done..].
    cbn [mbind outcome_bind] in He. simplify_eq. by eapply event_return_preserves.
Qed.

Lemma step_preserves c f c' f' r G :
  core_inv c G → step c f = Done (c', f', r) → preserves c c'.
Proof.
  intros Hi [->|(i&f1&_&_&Hrd&[He|(c1&pc&He&->&_)])]%step_inv_cases.
  - apply preserves_local. reflexivity.
  - apply execute_stop in He as [(->&_)|(->&_)]; apply preserves_local; [reflexivity|apply set_halted_local].
  - by apply (execute_preserves _ _ _ _ _ _ _ Hi Hrd) in He.
Qed.

Lemma syscall_result_preserves c reg v c' : write_syscall_result c reg v = Done c' → preserves c c'.
Proof.
  unfold write_syscall_result. destruct (write_register c reg v) as [c1|] eqn:E; [|done].
  cbn [mbind outcome_bind]. apply write_register_local in E. intros Hw. destruct (_ || _); guards;
    [by apply preserves_local|].
  destruct (core_saved_event_contexts c1) as [|s sv] eqn:Es; guards; [by apply preserves_local|].
  destruct (_ && _); guards; [|by apply preserves_local]. split.
  - eapply (keeps_top _ _ s); [by rewrite <- (cl_saved _ _ E)|done|]. split; [done|]. cbn.
    intros i Hi. exists i. split_and!; auto.
  - by apply posts_local in E.
Qed.

Lemma valid_heap_syscall c permit o s sv :
  valid_heap_event c permit o = true → core_saved_event_contexts c = s :: sv →
  ev_cause (sv_header s) = Syscall.
Proof.
  unfold valid_heap_event, prepare_heap_event, protected_syscall_image. intros Hv Hs. rewrite Hs in Hv.
  destruct (core_event_frames c) as [|h t]; [done|].
  destruct (bool_decide_reflect (sv_header s = h)) as [->|]; [|by rewrite !orb_true_r in Hv].
  destruct (bool_decide_reflect (ev_cause h = Syscall)); [done|]. by rewrite !orb_true_r in Hv.
Qed.

Lemma reply_kept s s' i p status m :
  sv_header s' = sv_header s → ev_cause (sv_header s) = Syscall → sv_image s = Some i →
  sv_image s' = Some (reply_image i p status m) → ctx_kept s s'.
Proof.
  intros Hh Hc Hi Hi'. split; [done|]. intros j Hj. simplify_eq. eexists. split; [done|].
  unfold reply_image. destruct m; cbn; split_and!; auto; try done;
    intros n Hn; by rewrite !list_lookup_insert_ne by lia.
Qed.

Lemma heap_reply_preserves c permit p status m c' :
  commit_heap_event c permit p status m = Done c' → preserves c c'.
Proof.
  unfold commit_heap_event. intros Hw. destruct (valid_heap_event _ _ _) eqn:Ev; [|done].
  cbn [assert_ mbind outcome_bind] in Hw. run_binds Hw. guards.
  match goal with E : core_saved_event_contexts c = ?s :: _, U : unwrap _ = Done _ |- _ =>
    rename E into Es; rename U into Ei; rename s into top end.
  destruct (sv_image top) as [j|] eqn:Ej; [|done]. cbn in Ei. guards. split; [|by split_and!].
  eapply (keeps_top _ _ top); [exact Es|done|].
  eapply reply_kept; [done| |exact Ej|done]. by eapply valid_heap_syscall.
Qed.

Lemma drop_frames_kept s : ctx_kept s (drop_image_frames s).
Proof. split; [done|]. intros i Hi. cbn. rewrite Hi. eexists. split; [done|]. split_and!; auto. Qed.

Lemma retire_preserves c f c' f' : retire_all_pointer_frames c f = Done (c', f') → preserves c c'.
Proof.
  unfold retire_all_pointer_frames. intros Hw. run_binds Hw. guards. split; [|by split_and!].
  intros s Hl _. cbn. change (map drop_image_frames) with (fmap (M := list) drop_image_frames).
  rewrite fmap_last, Hl. eexists. split; [done|apply drop_frames_kept].
Qed.

Lemma core_step_preserves c G c' G' :
  core_inv c G → core_event_frames c ≠ [] → core_step c G c' G' → preserves c c'.
Proof.
  intros Hi Hne Hs. destruct Hs.
  - by eapply step_preserves.
  - split; [by apply keeps_same|by split_and!].
  - split; [by apply keeps_same|by split_and!].
  - apply preserves_local. unfold deliver_pending. rewrite (ci_masked _ _ Hi Hne). reflexivity.
  - by eapply event_return_preserves.
  - by eapply syscall_result_preserves.
  - by eapply preserves_local, write_register_local.
  - apply preserves_local, set_pc_local.
  - apply preserves_local, set_halted_local.
  - apply preserves_local, set_heap_owner_local.
  - by eapply heap_reply_preserves.
  - by eapply preserves_local, admit_local.
  - by eapply preserves_local, register_local_local.
  - by eapply retire_preserves.
Qed.

Lemma handler_preserves c G c' G' s :
  core_reach c G → core_event_frames c ≠ [] → rtc inside (c, G) (c', G') →
  last (core_saved_event_contexts c) = Some s →
  core_reach c' G' ∧ core_event_frames c' ≠ [] ∧ posts c c' ∧
  ∃ s', last (core_saved_event_contexts c') = Some s' ∧ ctx_kept s s'.
Proof.
  intros Hr Hne Hrtc. remember (c, G) as x eqn:Ex. remember (c', G') as y eqn:Ey.
  revert c G s Ex Hr Hne. induction Hrtc as [|x [c1 G1] y [Hs Hne1] _ IH]; intros c G s -> Hr Hne Hl.
  - simplify_eq. split_and!; auto using posts_refl. exists s. split; [done|apply ctx_kept_refl].
  - cbn in Hs, Hne1. destruct (core_step_preserves c G c1 G1) as [Hk Hp]; [by apply core_reach_inv|done..|].
    destruct (Hk s Hl Hne1) as (s1&Hl1&Hc1).
    destruct (IH Ey c1 G1 s1 eq_refl) as (?&?&Hp'&s'&?&?); [by eapply cr_step|done..|].
    split_and!; [done..|by eapply posts_trans|]. exists s'. split; [done|by eapply ctx_kept_trans].
Qed.
End kept.

(** ** Entering and returning *)
Definition image_of (c : Anka64Core) : EventRegisterImage :=
  mkImage (core_r c) (core_pointer_pairs c) (core_flags c) (core_return_stack c) (core_halted c)
    (core_pointer_frames c).

(** The context a core in user mode leaves behind when an event is entered. *)
Definition leaves (c : Anka64Core) (h : EventFrame) (c1 : Anka64Core) : Prop :=
  core_event_frames c1 = [h] ∧ ∃ s, core_saved_event_contexts c1 = [s] ∧ sv_header s = h ∧
    sv_image s = Some (image_of c).

(** A core in user mode resumed with everything but the first 13 registers and
    their kinds, at [pc]. *)
Record resumes (c : Anka64Core) (pc : Z) (c' : Anka64Core) : Prop := {
  rs_pc : core_pc c' = pc;
  rs_privilege : core_privilege c' = core_privilege c;
  rs_enabled : core_interrupts_enabled c' = core_interrupts_enabled c;
  rs_flags : core_flags c' = core_flags c;
  rs_returns : core_return_stack c' = core_return_stack c;
  rs_halted : core_halted c' = core_halted c;
  rs_frames : core_pointer_frames c' = core_pointer_frames c ∨ core_pointer_frames c' = None;
  rs_high : ∀ n, (13 ≤ n)%nat → core_r c' !! n = core_r c !! n;
}.

Section events.
Context `{Profile} `{Host}.

Lemma enter_leaves c G h :
  core_inv c G → core_protected_context_enabled c = true → core_event_frames c = [] →
  leaves c h (enter_event c h).
Proof.
  intros Hi Hp Hf. assert (core_saved_event_contexts c = []) as Hs.
  { pose proof (ci_sync _ _ Hi) as Hs. rewrite Hf in Hs. by apply fmap_nil_inv in Hs. }
  unfold leaves, enter_event. rewrite Hp. cbn. rewrite Hf, Hs. eauto 10.
Qed.

Lemma write_register_Done c i v : 0 ≤ i < 16 → ∃ c', write_register c i v = Done c'.
Proof.
  intros Hi. unfold write_register. rewrite (proj2 (Z.leb_le 0 i)), (proj2 (Z.ltb_lt i 16)) by lia.
  by eexists.
Qed.

Lemma write_results_Done c (i : Z) rs :
  0 ≤ i → i + Z.of_nat (length rs) ≤ 16 → ∃ c', write_results c i rs = Done c'.
Proof.
  revert c i. induction rs as [|r rs IH]; intros c i Hpos Hl; [by exists c|].
  rewrite length_cons in Hl. destruct r as [v|]; simpl.
  - destruct (write_register_Done c i v) as [c1 ->]; [lia|]. apply IH; lia.
  - apply IH; lia.
Qed.

Lemma resumed_Done c h s : length (sv_scalar_results s) = 13%nat → ∃ c2, resumed c h s = Done c2.
Proof.
  intros Hlen. unfold resumed. destruct (sv_image s) as [i|]; [|by exists c].
  destruct (bool_decide _); [|by exists (restore_image c i)].
  apply write_results_Done; [lia|]. rewrite Hlen. lia.
Qed.

Lemma write_results_rest c (i : Z) rs c' :
  0 ≤ i → i + Z.of_nat (length rs) ≤ 13 → write_results c i rs = Done c' →
  core_flags c' = core_flags c ∧ core_halted c' = core_halted c ∧
  core_pointer_frames c' = core_pointer_frames c ∧ ∀ n, (13 ≤ n)%nat → core_r c' !! n = core_r c !! n.
Proof.
  revert c i. induction rs as [|r rs IH]; intros c i Hpos Hl Hw; cbn in Hw, Hl; [guards; by split_and!|].
  destruct r as [v|]; cbn in Hw; [|apply (IH c (i + 1)); [lia..|done]].
  destruct (write_register c i v) as [c1|] eqn:E; [|done]. cbn [mbind outcome_bind] in Hw.
  apply (IH c1 (i + 1)) in Hw as (->&->&->&Hr); [|lia..].
  unfold write_register, clear_pair in E. destruct (_ && _) eqn:Hb; [|done]. bools. cbn in E. guards.
  assert (∀ n, (13 ≤ n)%nat → <[Z.to_nat i := v]> (core_r c) !! n = core_r c !! n) as Hn
    by (intros n Hn; apply list_lookup_insert_ne; lia).
  destruct (i <? 12); cbn in *; split_and!; try done; intros n Hn'; by rewrite Hr, Hn.
Qed.

(** Returning from the outermost event resumes the oldest saved context. *)
Lemma outer_return c G c' pc s :
  core_inv c G → event_return c = Done (Some (c', pc)) → core_event_frames c' = [] →
  last (core_saved_event_contexts c) = Some s → ∃ c0 c2, c' = returned (sv_header s) c2 ∧
    resumed c0 (sv_header s) s = Done c2 ∧ length (sv_scalar_results s) = 13%nat ∧ posts c c2.
Proof.
  intros Hi He Hf Hl. apply event_return_Some in He as Hr.
  apply event_return_inv with (G := G) in He as Hi'; [|done].
  apply (event_return_preserves c G) in He as [_ Hp]; [|done].
  destruct Hr as (h&t&s'&sv&c2&Ef&Es&_&->&_&E2).
  assert (sv = []) as ->.
  { apply resumed_local in E2 as E3. pose proof (ci_sync _ _ Hi') as Hs. rewrite Hf in Hs.
    apply fmap_nil_inv in Hs. cbn in Hs. destruct (sv_image s'), E3; cbn in *; congruence. }
  rewrite Es in Hl. cbn in Hl. simplify_eq. pose proof (ci_sync _ _ Hi) as Hs. rewrite Es, Ef in Hs.
  injection Hs as Hh <-. rewrite Hh. pose proof (ci_saved _ _ Hi) as Hsv. rewrite Es in Hsv.
  apply Forall_cons in Hsv as [[] _]. by eexists _, c2.
Qed.

(** The common part of the two theorems below. *)
Lemma event_resumes c h c1 G1 c2 G2 c3 pc :
  leaves c h c1 → core_reach c1 G1 → rtc inside (c1, G1) (c2, G2) →
  event_return c2 = Done (Some (c3, pc)) → core_event_frames c3 = [] →
  ev_return_privilege h = core_privilege c → ev_interrupts_were_enabled h = core_interrupts_enabled c →
  resumes c (ev_return_pc h) c3 ∧ posts c1 c3 ∧
  (ev_cause h ≠ Syscall → core_r c3 = core_r c ∧ core_pointer_pairs c3 = core_pointer_pairs c).
Proof.
  intros (Hf1&s&Hs1&Hh&Him) Hr1 Hrun He Hf3 Hpriv Hen.
  destruct (handler_preserves c1 G1 c2 G2 s) as (Hr2&_&Hp&s'&Hl&[Hh' Hk]); [done|by rewrite Hf1|done|by rewrite Hs1|].
  destruct (Hk _ Him) as (i&Hi&Hfl&Hret&Hhalt&Hfr&Hw&Hex). cbn in Hfl, Hhalt, Hfr, Hw, Hex.
  destruct (outer_return c2 G2 c3 pc s') as (c0&c4&->&E4&Hlen&Hp4); [by apply core_reach_inv|done..|].
  rewrite Hh', Hh in *. split_and!; [|by eapply posts_trans|].
  - unfold resumed in E4. rewrite Hi in E4. destruct (bool_decide _).
    + apply write_results_local in E4 as L. apply write_results_rest in E4 as (Ef&Eh&Ep&Er); [|lia..]. cbn in Ef, Eh, Ep, Er.
      split; cbn; try done; [congruence|rewrite (cl_returns _ _ L); done|congruence|rewrite Ep; done|].
      intros n Hn. rewrite Er by done. apply Hw. done.
    + guards. split; cbn; done.
  - intros Hne. destruct (Hex Hne). unfold resumed in E4. rewrite Hi, bool_decide_false in E4 by done.
    guards. done.
Qed.

Lemma leaves_control c h e pc : leaves c h e →
  leaves c h (set_core_pc pc (set_core_interrupts_enabled false (set_core_privilege Supervisor e))).
Proof. done. Qed.

Lemma enter_pending c h :
  core_pending (enter_event c h) = core_pending c ∧ core_interrupt_turn (enter_event c h) = core_interrupt_turn c.
Proof. unfold enter_event. by destruct (core_protected_context_enabled c). Qed.

Lemma deliver_leaves c G c1 :
  core_inv c G → core_protected_context_enabled c = true → deliver_pending c = (c1, true) →
  ∃ cause p t, arbitrate (core_pending c) (core_interrupt_turn c) = Some (cause, p, t) ∧
    leaves c (mkEventFrame (core_pc c) (core_privilege c) true cause) c1 ∧
    core_interrupts_enabled c = true ∧ core_pending c1 = p ∧ core_interrupt_turn c1 = t ∧ cause ≠ Syscall.
Proof.
  intros Hi Hp. unfold deliver_pending. destruct (core_interrupts_enabled c) eqn:Een; cbn [negb]; [|done].
  destruct (arbitrate _ _) as [[[cause p] t]|] eqn:Ea; [|done]. intros [= <-].
  assert (core_event_frames c = []) as Hf.
  { destruct (core_event_frames c) eqn:E; [done|]. rewrite (ci_masked _ _ Hi) in Een by (by rewrite E). done. }
  assert (cause ≠ Syscall) as Hc.
  { unfold arbitrate in Ea. repeat case_match; by simplify_eq. }
  exists cause, p, t. split; [done|]. set (c0 := set_core_interrupt_turn t (set_core_pending p c)).
  assert (leaves c0 (mkEventFrame (core_pc c) (core_privilege c) true cause)
    (enter_event c0 (mkEventFrame (core_pc c) (core_privilege c) true cause))) as Hl
    by (apply (enter_leaves c0 G); [by apply set_turn_inv, set_pending_inv|done|done]).
  cbn [c0 core_pc core_privilege core_interrupts_enabled set_core_interrupt_turn set_core_pending].
  rewrite Een. fold c0. destruct (enter_pending c0 (mkEventFrame (core_pc c) (core_privilege c) true cause)) as [Hp1 Ht1].
  revert Hl Hp1 Ht1. generalize (enter_event c0 (mkEventFrame (core_pc c) (core_privilege c) true cause)).
  intros e Hl Hp1 Ht1. split_and!; [by apply leaves_control|done..|exact Hp1|exact Ht1|done].
Qed.

Lemma deliver_chooses c cause p t :
  core_interrupts_enabled c = true → core_event_frames c = [] →
  arbitrate (core_pending c) (core_interrupt_turn c) = Some (cause, p, t) →
  ∃ h c', deliver_pending c = (c', true) ∧ core_event_frames c' = [h] ∧ ev_cause h = cause.
Proof.
  intros Hen Hf Ha. unfold deliver_pending. rewrite Hen, Ha. cbn [negb].
  eexists _, _. split; [done|]. unfold enter_event. cbn. destruct (core_protected_context_enabled c);
    cbn; by rewrite Hf.
Qed.

(** With the turn passed to the other cause, that cause wins the next arbitration
    if it is still pending. *)
Lemma arbitrate_other turn p' cause p t :
  arbitrate (mkPending true true) turn = Some (cause, p, t) →
  (pend_timer p = true → pend_timer p' = true) → (pend_device p = true → pend_device p' = true) →
  ∃ q t', arbitrate p' t = Some (if bool_decide (cause = TimerInterrupt) then DeviceInterrupt else TimerInterrupt, q, t') ∧
    (cause = TimerInterrupt ∨ cause = DeviceInterrupt).
Proof.
  intros Ha Ht Hd. destruct turn; cbn in Ha; simplify_eq; cbn in *; unfold arbitrate.
  - rewrite Hd by done. destruct (pend_timer p'); eauto.
  - rewrite Ht by done. destruct (pend_device p'); eauto.
Qed.

(** C8: Interrupts are transparent.  Whatever a handler executes between the
    delivery of an interrupt to a protected context and the return to user mode,
    nested traps included, the interrupted program resumes at the same instruction
    with all registers, pointer kinds, flags, return authority, privilege and
    interrupt mask as they were. *)
Theorem interrupt_transparent c G c1 c2 G2 c3 pc :
  core_reach c G → core_protected_context_enabled c = true → deliver_pending c = (c1, true) →
  rtc inside (c1, G) (c2, G2) → event_return c2 = Done (Some (c3, pc)) → core_event_frames c3 = [] →
  resumes c (core_pc c) c3 ∧ core_r c3 = core_r c ∧ core_pointer_pairs c3 = core_pointer_pairs c.
Proof.
  intros Hr Hp Hd Hrun He Hf. apply core_reach_inv in Hr as Hi.
  destruct (deliver_leaves _ _ _ Hi Hp Hd) as (cause&p&t&_&Hl&Hen&_&_&Hc).
  assert (core_reach c1 G) as Hr1.
  { eapply cr_step; [exact Hr|]. replace c1 with (deliver_pending c).1 by (by rewrite Hd). apply cs_deliver. }
  destruct (event_resumes _ _ _ _ _ _ _ _ Hl Hr1 Hrun He Hf) as (?&_&Hx); [done..|].
  split; [done|by apply Hx].
Qed.

(** Syscalls come back to their caller.  A TRAP executed in a protected user
    context, followed by any handler, resumes after the TRAP with the flags, the
    return authority, the privilege, the mask and registers 13 to 15 untouched;
    results reach registers 0 to 12 only. *)
Theorem syscall_resumes c G f c1 f1 c2 G2 c3 pc :
  core_reach c G → core_privilege c = User → core_protected_context_enabled c = true →
  executes c f SemTrap → step c f = Done (c1, f1, Continue) →
  rtc inside (c1, record_site c f G) (c2, G2) →
  event_return c2 = Done (Some (c3, pc)) → core_event_frames c3 = [] →
  ∃ next, add_u64 (core_pc c) 4 = Done next ∧ resumes c next c3.
Proof.
  intros Hr Hu Hp (i&Hi&Hsem) Hs Hrun He Hf. apply core_reach_inv in Hr as Hinv.
  assert (core_event_frames c = []) as Hev.
  { rewrite (ci_level _ _ Hinv) in Hu. by destruct (core_event_frames c). }
  assert (core_reach c1 (record_site c f G)) as Hr1 by (eapply cr_step; [exact Hr|by eapply cs_step]).
  destruct (step_run _ _ _ _ Hs) as (i'&g&c0&pc'&Hi'&_&_&Hx&->). rewrite Hi in Hi'. simplify_eq.
  unfold execute, step_trap in Hx. rewrite Hsem, andb_false_r in Hx.
  destruct (add_u64 (core_pc c) 4) as [n|] eqn:En; [|done]. cbn [mbind outcome_bind] in Hx.
  exists n. split; [done|]. simplify_eq.
  set (h := mkEventFrame n (core_privilege c) (core_interrupts_enabled c) Syscall) in *.
  pose proof (leaves_control c h _ (core_trap_vector (enter_event c h)) (enter_leaves c G h Hinv Hp Hev)) as HL.
  by destruct (event_resumes c h _ _ _ _ _ _ HL Hr1 Hrun He Hf) as (?&_).
Qed.

(** In a reachable core inside an event the return is accepted and does not panic. *)
Lemma event_returns c G h t :
  core_reach c G → core_event_frames c = h :: t →
  ∃ c', event_return c = Done (Some (c', ev_return_pc h)) ∧ core_pc c' = ev_return_pc h ∧
    core_event_frames c' = t ∧ core_privilege c' = level t ∧
    length (core_saved_event_contexts c') = length t.
Proof.
  intros Hr Hf. apply core_reach_inv in Hr as Hi. pose proof (ci_sync _ _ Hi) as Hsync.
  assert (no_active_frames c = true) as Ha
    by (unfold no_active_frames; rewrite (lo_none _ (core_reach_low _ _ Hr)) by (by rewrite Hf); done).
  pose proof (ci_saved _ _ Hi) as Hsv. pose proof (ci_chain _ _ Hi) as Hch. rewrite Hf in Hsync, Hch.
  destruct (core_saved_event_contexts c) as [|s sv] eqn:Es; [done|]. injection Hsync as Hh Ht.
  apply Forall_cons in Hsv as [[Hc Hd Him Hlen _] _].
  assert (may_return c h s = true) as Hm.
  { unfold may_return. rewrite Hf, Es, Hc, Hd, Him, Ha, !Z.eqb_refl, bool_decide_true, eqb_reflx by done.
    cbn. rewrite <- Ht, length_fmap, Nat.eqb_refl. done. }
  destruct (resumed_Done (set_core_event_frames t (set_core_saved_event_contexts sv c)) h s Hlen) as [c2 E2].
  exists (returned h c2). apply resumed_local in E2 as L.
  assert (core_event_frames c2 = t ∧ core_saved_event_contexts c2 = sv) as [<- Hc2]
    by (destruct (sv_image s), L; done).
  split_and!; [|done|done|apply Hch|].
  - unfold event_return. rewrite Hf, Es, Hm. cbn [negb]. unfold resumed in E2. rewrite E2. reflexivity.
  - cbn. by rewrite Hc2, <- Ht, length_fmap.
Qed.

(** *** The exact return from a system call *)

(** The result of register [n] among the scalar results from register [k] on *)
Definition result_of (results : list (option Z)) (k n : nat) : option Z :=
  if (n <? k)%nat then None else mjoin (results !! (n - k)%nat).
Lemma result_of_cons r rs k n : result_of (r :: rs) k n = if decide (n = k) then r else result_of rs (S k) n.
Proof.
  unfold result_of. destruct (decide (n = k)) as [->|Hn]; [by rewrite Nat.ltb_irrefl, Nat.sub_diag|].
  destruct (Nat.ltb_spec n k), (Nat.ltb_spec n (S k)); try lia; [done|]. by replace (n - k)%nat with (S (n - S k)) by lia.
Qed.

(** Registers carry the results over what they held, and a pair that receives a
    result is no pointer any more. *)
Definition overlaid (results : list (option Z)) (k : nat) (words words' : list Z) : Prop :=
  ∀ n, words' !! n = (λ w, default w (result_of results k n)) <$> words !! n.
Definition unpaired (results : list (option Z)) (k : nat) (kinds kinds' : list (option ScopedPointer)) : Prop :=
  ∀ j, kinds' !! j = (λ p, if is_some (result_of results k (2 * j)) || is_some (result_of results k (2 * j + 1)) then None else p) <$> kinds !! j.

Lemma insert_over {A} (l : list A) i x n : <[i := x]> l !! n = (λ y, if decide (n = i) then x else y) <$> l !! n.
Proof.
  destruct (decide (n = i)) as [->|Hn].
  - destruct (l !! i) as [y|] eqn:E; cbn.
    + apply list_lookup_insert_eq. by eapply lookup_lt_Some.
    + apply lookup_ge_None in E. by rewrite list_insert_ge, (proj2 (lookup_ge_None _ _)).
  - rewrite list_lookup_insert_ne by done. by destruct (l !! n).
Qed.
Lemma write_register_exact c (k : nat) v c' : length (core_pointer_pairs c) = 6%nat → write_register c (Z.of_nat k) v = Done c' →
  c' = set_core_r (<[k := v]> (core_r c)) (set_core_pointer_pairs (<[(k / 2)%nat := None]> (core_pointer_pairs c)) c).
Proof.
  intros Hlen Hw. unfold write_register, clear_pair in Hw. destruct (_ && _); [|done]. cbn in Hw. guards.
  rewrite Nat2Z.id. replace (Z.to_nat (Z.of_nat k / 2)) with (k / 2)%nat by (pose proof (Nat2Z.inj_div k 2); lia).
  destruct (Z.ltb_spec (Z.of_nat k) 12); [done|]. rewrite (list_insert_ge (core_pointer_pairs c)); [by destruct c|].
  rewrite Hlen. apply (Nat.Div0.div_le_mono 12 k 2). lia.
Qed.
Lemma pair_of_result r rs k j : is_some (result_of (r :: rs) k (2 * j)) || is_some (result_of (r :: rs) k (2 * j + 1))
  = (bool_decide (j = k / 2)%nat && is_some r) || (is_some (result_of rs (S k) (2 * j)) || is_some (result_of rs (S k) (2 * j + 1))).
Proof.
  rewrite !result_of_cons. pose proof (Nat.div_mod_eq k 2). pose proof (Nat.mod_upper_bound k 2 ltac:(lia)).
  assert (∀ m, (m ≤ k)%nat → result_of rs (S k) m = None) as Hn.
  { intros m Hm. unfold result_of. by rewrite (proj2 (Nat.ltb_lt m (S k))) by lia. }
  case_bool_decide as Hj; [subst j|].
  - destruct (decide _), (decide _); try lia; rewrite ?(Hn (2 * (k / 2))%nat), ?(Hn (2 * (k / 2) + 1)%nat) by lia; by destruct r.
  - rewrite !decide_False by lia. done.
Qed.

Lemma write_results_exact rs : ∀ c (k : nat) c', length (core_pointer_pairs c) = 6%nat →
  write_results c (Z.of_nat k) rs = Done c' →
  ∃ words kinds, c' = set_core_r words (set_core_pointer_pairs kinds c) ∧
    overlaid rs k (core_r c) words ∧ unpaired rs k (core_pointer_pairs c) kinds.
Proof.
  induction rs as [|r rs IH]; intros c k c' Hlen Hw; simpl in Hw.
  - guards. exists (core_r c'), (core_pointer_pairs c'). split; [by destruct c'|].
    assert (∀ m, result_of [] k m = None) as Hn by (intros m; unfold result_of; by destruct (m <? k)%nat).
    split; intros n; rewrite !Hn; [by destruct (core_r c' !! n)|by destruct (core_pointer_pairs c' !! n)].
  - replace (Z.of_nat k + 1) with (Z.of_nat (S k)) in Hw by lia.
    assert (∃ words kinds, c' = set_core_r words (set_core_pointer_pairs kinds c) ∧
      overlaid rs (S k) (match r with Some v => <[k := v]> (core_r c) | None => core_r c end) words ∧
      unpaired rs (S k) (match r with Some _ => <[(k / 2)%nat := None]> (core_pointer_pairs c) | None => core_pointer_pairs c end) kinds)
      as (words&kinds&->&Ho&Hu).
    { destruct r as [v|]; [|by apply IH]. simpl in Hw. destruct (write_register c _ v) as [c1|] eqn:E; [|done]. simpl in Hw.
      apply write_register_exact in E as ->; [|done].
      apply IH in Hw as (words&kinds&->&?&?); [by exists words, kinds|]. cbn. by rewrite length_insert. }
    exists words, kinds. split; [done|]. split; intros n.
    + rewrite (Ho n), result_of_cons. assert (result_of rs (S k) k = None) as Hk
        by (unfold result_of; by rewrite (proj2 (Nat.ltb_lt k (S k))) by lia).
      destruct r as [v|]; rewrite ?insert_over; destruct (core_r c !! n); cbn; try done;
        destruct (decide (n = k)) as [->|]; by rewrite ?Hk.
    + rewrite (Hu n), pair_of_result. destruct r as [v|]; rewrite ?insert_over; destruct (core_pointer_pairs c !! n); cbn; try done;
        case_bool_decide; cbn; rewrite ?decide_True, ?decide_False by done; by destruct (_ || _).
Qed.

(** [c] inside a system call, with its frame [h] and saved context [s] on top, has come
    back as [c']: at the place and the privilege of the frame, with that frame and
    context popped; what is not the program's own is as it was; and the program has the
    registers, kinds, flags, return stack and frames of its saved image, with the
    results of the call written over them - or, in an unprotected context, which saves
    no image, those of the handler. *)
Record comes_back (c : Anka64Core) (h : EventFrame) (s : SavedEventContext) (c' : Anka64Core) : Prop := {
  cb_frames : core_event_frames c = h :: core_event_frames c';
  cb_saved : core_saved_event_contexts c = s :: core_saved_event_contexts c';
  cb_pc : core_pc c' = ev_return_pc h;
  cb_privilege : core_privilege c' = ev_return_privilege h;
  cb_enabled : core_interrupts_enabled c' = ev_interrupts_were_enabled h;
  cb_identity : (core_heap_owner c', core_next_event_id c', core_context_id c', core_agent c', core_domain c')
    = (core_heap_owner c, core_next_event_id c, core_context_id c, core_agent c, core_domain c);
  cb_machine : (core_protected_context_enabled c', core_address_map c', core_trap_vector c', core_pending c', core_interrupt_turn c')
    = (core_protected_context_enabled c, core_address_map c, core_trap_vector c, core_pending c, core_interrupt_turn c);
  cb_program : match sv_image s with
    | Some i => overlaid (sv_scalar_results s) 0 (im_words i) (core_r c') ∧
        unpaired (sv_scalar_results s) 0 (im_kinds i) (core_pointer_pairs c') ∧
        core_flags c' = im_flags i ∧ core_return_stack c' = im_return_stack i ∧ core_pointer_frames c' = im_frames i
    | None => core_r c' = core_r c ∧ core_pointer_pairs c' = core_pointer_pairs c ∧
        core_flags c' = core_flags c ∧ core_return_stack c' = core_return_stack c ∧ core_pointer_frames c' = core_pointer_frames c
    end;
}.
Lemma event_return_exact c G h t c' pc :
  core_reach c G → core_event_frames c = h :: t → ev_cause h = Syscall → event_return c = Done (Some (c', pc)) →
  ∃ s, comes_back c h s c'.
Proof.
  intros Hi%core_reach_inv Hf Hc He. apply event_return_Some in He as (h'&t'&s&sv&c2&Ef&Es&_&->&_&E2).
  rewrite Hf in Ef. injection Ef as <- <-. exists s. unfold resumed in E2.
  pose proof (ci_saved _ _ Hi) as Hsv. rewrite Es in Hsv. apply Forall_cons in Hsv as [Hs _].
  destruct (sv_image s) as [i|] eqn:Ei; [|guards; split; rewrite ?Ei; try done; by rewrite ?Ef, ?Es].
  rewrite bool_decide_true in E2 by done. destruct (sw_wf _ _ _ Hs i Ei) as [_ Hk _ _].
  apply (write_results_exact _ _ 0%nat) in E2 as (words&kinds&->&Ho&Hu); [|exact Hk].
  split; rewrite ?Ei; try done.
Qed.

(** A handler can always return.  In every reachable core inside an event the
    event return is accepted and does not panic: it pops exactly one event frame and
    one saved context, continues at the address the event recorded and at the level
    of the frames below, and the core it leaves is again reachable. *)
Theorem event_return_available c G h t :
  core_reach c G → core_event_frames c = h :: t →
  ∃ c', event_return c = Done (Some (c', ev_return_pc h)) ∧ core_reach c' G ∧
    core_pc c' = ev_return_pc h ∧ core_event_frames c' = t ∧ core_privilege c' = level t ∧
    length (core_saved_event_contexts c') = length t.
Proof.
  intros Hr Hf. destruct (event_returns c G h t Hr Hf) as (c'&He&?&?&?&?).
  exists c'. split_and!; try done. by eapply cr_step, cs_resume.
Qed.

(** Neither interrupt cause starves the other.  When both are pending at a
    delivery to a protected context, then after the handler has run and returned
    to user mode, whatever was posted meanwhile, the next delivery takes the other
    cause, again from an empty event stack. *)
Theorem interrupts_alternate c G c1 c2 G2 c3 pc :
  core_reach c G → core_protected_context_enabled c = true →
  core_pending c = mkPending true true → deliver_pending c = (c1, true) →
  rtc inside (c1, G) (c2, G2) → event_return c2 = Done (Some (c3, pc)) → core_event_frames c3 = [] →
  ∃ h h3 c4, core_event_frames c1 = [h] ∧ deliver_pending c3 = (c4, true) ∧
    core_event_frames c4 = [h3] ∧
    (ev_cause h = TimerInterrupt ∧ ev_cause h3 = DeviceInterrupt ∨
     ev_cause h = DeviceInterrupt ∧ ev_cause h3 = TimerInterrupt).
Proof.
  intros Hr Hp Hpend Hd Hrun He Hf. apply core_reach_inv in Hr as Hi.
  destruct (deliver_leaves _ _ _ Hi Hp Hd) as (cause&p&t&Ha&Hl&Hen&Hp1&Ht1&Hc).
  assert (core_reach c1 G) as Hr1.
  { eapply cr_step; [exact Hr|]. replace c1 with (deliver_pending c).1 by (by rewrite Hd). apply cs_deliver. }
  destruct (event_resumes _ _ _ _ _ _ _ _ Hl Hr1 Hrun He Hf) as ([]&(Ht3&Htm&Hdv)&_); [done..|].
  rewrite Hpend in Ha. rewrite Hp1 in Htm, Hdv. rewrite Ht1 in Ht3.
  destruct (arbitrate_other _ (core_pending c3) _ _ _ Ha Htm Hdv) as (q&t'&Ha3&Hcs). rewrite <- Ht3 in Ha3.
  destruct (deliver_chooses c3 _ _ _ ltac:(congruence) Hf Ha3) as (h3&c4&Hd4&Hf4&Hc4).
  exists (mkEventFrame (core_pc c) (core_privilege c) true cause), h3, c4.
  destruct Hl as [Hf1 _]. split_and!; [done..|]. rewrite Hc4. cbn. destruct Hcs as [-> | ->]; cbn; auto.
Qed.
End events.

Section event_witnesses.
#[local] Existing Instance checked_profile.
#[local] Existing Instance demo_host.

Lemma scribble_inside c G : core_event_frames c ≠ [] → rtc inside (c, G) (scribble c, G).
Proof.
  intros Hne. apply rtc_once. split; [|exact Hne].
  apply (cs_write c G 14 77 (scribble c)). unfold scribble. reflexivity.
Qed.

Lemma interrupt_transparent_witness :
  let c3 := resume (scribble interrupt_entered) in
  core_r (scribble interrupt_entered) !! 14%nat = Some 77 ∧ core_r c3 = core_r protected_pending.
Proof.
  split; [vm_compute; reflexivity|].
  destruct (interrupt_transparent protected_pending [] interrupt_entered (scribble interrupt_entered) []
    (resume (scribble interrupt_entered)) 4100 protected_pending_reach) as (_&Hr&_).
  - vm_compute. reflexivity.
  - vm_compute. reflexivity.
  - apply scribble_inside. vm_compute. discriminate.
  - vm_compute. reflexivity.
  - vm_compute. reflexivity.
  - exact Hr.
Defined.

Lemma syscall_resumes_witness :
  let c3 := resume (scribble syscall_entered) in
  core_privilege syscall_entered = Supervisor ∧ core_r (scribble syscall_entered) !! 14%nat = Some 77 ∧
  core_r c3 !! 14%nat = core_r protected_trap !! 14%nat ∧ core_pc c3 = 4104.
Proof.
  destruct (syscall_resumes protected_trap [] admitted_machine syscall_entered syscall_entered_machine
    (scribble syscall_entered) [TrapSite 4100] (resume (scribble syscall_entered)) 4104 protected_trap_reach)
    as (next&Hn&[Hpc _ _ _ _ _ _ Hh]).
  - vm_compute. reflexivity.
  - vm_compute. reflexivity.
  - eexists. split; vm_compute; reflexivity.
  - vm_compute. reflexivity.
  - replace (record_site protected_trap admitted_machine []) with [TrapSite 4100] by (vm_compute; reflexivity).
    apply scribble_inside. vm_compute. discriminate.
  - vm_compute. reflexivity.
  - vm_compute. reflexivity.
  - intros c3. split; [vm_compute; reflexivity|]. split; [vm_compute; reflexivity|].
    split; [exact (Hh 14%nat ltac:(lia))|]. unfold c3. rewrite Hpc.
    vm_compute in Hn. by injection Hn.
Defined.

Lemma event_return_available_witness :
  ∃ c', event_return trapped = Done (Some (c', 4104)) ∧ core_privilege c' = User.
Proof.
  destruct (event_return_available trapped (TrapSite 4100 :: demo_calls) (mkEventFrame 4104 User true Syscall) [])
    as (c'&He&_&_&_&Hp&_).
  - eapply cr_step; [exact at_trap_reach|].
    refine (cs_step at_trap demo_calls machine_returned trapped (fabric_after (step at_trap machine_returned)) Continue _).
    vm_compute. reflexivity.
  - vm_compute. reflexivity.
  - exists c'. split; [exact He|exact Hp].
Defined.

Lemma interrupts_alternate_witness :
  ∃ h c4, deliver_pending (resume (scribble interrupt_entered)) = (c4, true) ∧
    core_event_frames c4 = [h] ∧ ev_cause h = DeviceInterrupt.
Proof.
  destruct (interrupts_alternate protected_pending [] interrupt_entered (scribble interrupt_entered) []
    (resume (scribble interrupt_entered)) 4100 protected_pending_reach) as (h&h3&c4&Hf1&Hd&Hf4&Hc).
  - vm_compute. reflexivity.
  - vm_compute. reflexivity.
  - vm_compute. reflexivity.
  - apply scribble_inside. vm_compute. discriminate.
  - vm_compute. reflexivity.
  - vm_compute. reflexivity.
  - exists h3, c4. split_and!; [exact Hd|exact Hf4|]. vm_compute in Hf1. injection Hf1 as <-.
    destruct Hc as [[_ ?]|[[=] _]]. done.
Defined.
End event_witnesses.
