(* ===== verification/Kernel.v ===== *)
(** * The kernel: [src/anka64/os.rs], processes and messages

    Process descriptors, lifecycle authority, reclamation and death, physical
    extents, capability installation and resolution, the device registry and the
    routing of messages.  The syscall handlers are in [Syscalls], the scheduler in
    [Scheduler].

    The optional services of the kernel (heap service, application-run envelope,
    socket endpoint, compiler jobs and callable entry) are host-side
    configuration: they start absent and no guest operation enables them.  The
    model is the kernel in which they are absent, so that a test on one of them has
    its absent outcome.

    A process slot is a [nat] index of the process table; [pk_slot] is its integer
    value.  A mailbox is a vector in push order.  [k_next_context_id] is the
    program-wide counter that new cores draw their identity from. *)

From S2P Require Import Prelude State CapTable Extents Registry PointerFrames HeapLedger.
From S2P Require Import Fabric FabricCells FabricHeap Block Nic Desc Isa Core.

(** ** Data *)
Inductive ProcessState := ProcRunning | ProcZombie | ProcFree | ProcRetired.
#[export] Instance ProcessState_eq_dec : EqDecision ProcessState.
Proof. solve_decision. Defined.

Inductive ProcessResult := Exited (code : Z) | SupervisorFault | ProtectionFault.
#[export] Instance ProcessResult_eq_dec : EqDecision ProcessResult.
Proof. solve_decision. Defined.

Record OwnedResources := mkResources {
  res_domain : DomainId;
  res_stack_obj : ObjectId;
  res_trap_obj : ObjectId;
  res_stack_extent : Extent;
  res_trap_extent : Extent;
}.

Definition encode_wait_result (r : ProcessResult) : Z * Z :=
  match r with Exited code => (0, code) | SupervisorFault => (1, 0) | ProtectionFault => (2, 0) end.
Definition encode_wait_invalid : Z * Z := (u64_max, 0).
Definition encode_exec_result (r : ProcessResult) : Z :=
  match r with Exited code => code | SupervisorFault | ProtectionFault => 57005 end.

(** [LifecycleHandle]: generation in the high word, slot in the low word *)
Definition lh_new (slot generation : Z) : Z := Z.lor (Z.shiftl generation 32) slot.
Definition lh_slot (h : Z) : Z := wrap32 h.
Definition lh_generation (h : Z) : Z := wrap32 (Z.shiftr h 32).

Record LifecycleEntry := mkLifecycle { le_slot_generation : Z; le_child : ProcessKey; le_collected : bool }.

Inductive WaitKind := WaitExec | WaitLifecycle.
Record WaitState := mkWait { ws_child : ProcessKey; ws_kind : WaitKind; ws_handle_slot : option nat }.

Record DeviceRequestKey := mkRequestKey { drk_device : DeviceBinding; drk_request : RequestHandle }.
#[export] Instance DeviceRequestKey_eq_dec : EqDecision DeviceRequestKey.
Proof. solve_decision. Defined.

Definition MAX_ASYNC_REQUESTS : nat := 16.
Record AsyncDeviceRequest := mkAsync { ar_key : DeviceRequestKey; ar_completion : option DeviceCompletionStatus }.

Record DeviceEventWait := mkEventWait { dew_device : DeviceBinding; dew_observed_sequence : Z }.

Record Message := mkMessage { msg_from : ProcessKey; msg_value : Z; msg_cap : option CapabilityHandle }.
Definition MAX_MAILBOX_SIZE : nat := 16.

Inductive RecvOutcome := RecvMessage (m : Message) | RecvPeerDied (peer : ProcessKey) | RecvError.
Inductive DeliveryRoute := RouteDirect | RouteEnqueue | RouteFull.
#[export] Instance DeliveryRoute_eq_dec : EqDecision DeliveryRoute.
Proof. solve_decision. Defined.

Record HeapFreeWait := mkFreeWait {
  hfw_owner : AllocationOwner;
  hfw_reservation : HeapReservation;
  hfw_object : ObjectId;
  hfw_event : HeapEventPermit;
}.

Record ProcessInput := mkInput {
  pi_owner : ProcessKey;
  pi_context : Z;
  pi_domain : DomainId;
  pi_id : Z;
  pi_generation : Z;
  pi_bytes : list Z;
  pi_cursor : Z;
}.

Record Process := mkProcess {
  p_socket_was_bound : bool;
  p_heap_free_wait : option HeapFreeWait;
  p_pid : Z;
  p_state : ProcessState;
  p_core : Anka64Core;
  p_exit_code : Z;
  p_waiting_on : option WaitState;
  p_io_wait : option DeviceRequestKey;
  p_recv_wait : option ProcessKey;
  p_event_wait : option DeviceEventWait;
  p_async_requests : list AsyncDeviceRequest;
  p_parent : option ProcessKey;
  p_generation : Z;
  p_result : option ProcessResult;
  p_resources : option OwnedResources;
  p_cap_table : option CapabilityTable;
}.
Definition set_p_heap_free_wait (v : option HeapFreeWait) (s : Process) : Process :=
  mkProcess (p_socket_was_bound s) v (p_pid s) (p_state s) (p_core s) (p_exit_code s)
    (p_waiting_on s) (p_io_wait s) (p_recv_wait s) (p_event_wait s) (p_async_requests s)
    (p_parent s) (p_generation s) (p_result s) (p_resources s) (p_cap_table s).
Definition set_p_state (v : ProcessState) (s : Process) : Process :=
  mkProcess (p_socket_was_bound s) (p_heap_free_wait s) (p_pid s) v (p_core s) (p_exit_code s)
    (p_waiting_on s) (p_io_wait s) (p_recv_wait s) (p_event_wait s) (p_async_requests s)
    (p_parent s) (p_generation s) (p_result s) (p_resources s) (p_cap_table s).
Definition set_p_core (v : Anka64Core) (s : Process) : Process :=
  mkProcess (p_socket_was_bound s) (p_heap_free_wait s) (p_pid s) (p_state s) v (p_exit_code s)
    (p_waiting_on s) (p_io_wait s) (p_recv_wait s) (p_event_wait s) (p_async_requests s)
    (p_parent s) (p_generation s) (p_result s) (p_resources s) (p_cap_table s).
Definition set_p_exit_code (v : Z) (s : Process) : Process :=
  mkProcess (p_socket_was_bound s) (p_heap_free_wait s) (p_pid s) (p_state s) (p_core s) v
    (p_waiting_on s) (p_io_wait s) (p_recv_wait s) (p_event_wait s) (p_async_requests s)
    (p_parent s) (p_generation s) (p_result s) (p_resources s) (p_cap_table s).
Definition set_p_waiting_on (v : option WaitState) (s : Process) : Process :=
  mkProcess (p_socket_was_bound s) (p_heap_free_wait s) (p_pid s) (p_state s) (p_core s)
    (p_exit_code s) v (p_io_wait s) (p_recv_wait s) (p_event_wait s) (p_async_requests s)
    (p_parent s) (p_generation s) (p_result s) (p_resources s) (p_cap_table s).
Definition set_p_io_wait (v : option DeviceRequestKey) (s : Process) : Process :=
  mkProcess (p_socket_was_bound s) (p_heap_free_wait s) (p_pid s) (p_state s) (p_core s)
    (p_exit_code s) (p_waiting_on s) v (p_recv_wait s) (p_event_wait s) (p_async_requests s)
    (p_parent s) (p_generation s) (p_result s) (p_resources s) (p_cap_table s).
Definition set_p_recv_wait (v : option ProcessKey) (s : Process) : Process :=
  mkProcess (p_socket_was_bound s) (p_heap_free_wait s) (p_pid s) (p_state s) (p_core s)
    (p_exit_code s) (p_waiting_on s) (p_io_wait s) v (p_event_wait s) (p_async_requests s)
    (p_parent s) (p_generation s) (p_result s) (p_resources s) (p_cap_table s).
Definition set_p_event_wait (v : option DeviceEventWait) (s : Process) : Process :=
  mkProcess (p_socket_was_bound s) (p_heap_free_wait s) (p_pid s) (p_state s) (p_core s)
    (p_exit_code s) (p_waiting_on s) (p_io_wait s) (p_recv_wait s) v (p_async_requests s)
    (p_parent s) (p_generation s) (p_result s) (p_resources s) (p_cap_table s).
Definition set_p_async_requests (v : list AsyncDeviceRequest) (s : Process) : Process :=
  mkProcess (p_socket_was_bound s) (p_heap_free_wait s) (p_pid s) (p_state s) (p_core s)
    (p_exit_code s) (p_waiting_on s) (p_io_wait s) (p_recv_wait s) (p_event_wait s) v (p_parent
    s) (p_generation s) (p_result s) (p_resources s) (p_cap_table s).
Definition set_p_parent (v : option ProcessKey) (s : Process) : Process :=
  mkProcess (p_socket_was_bound s) (p_heap_free_wait s) (p_pid s) (p_state s) (p_core s)
    (p_exit_code s) (p_waiting_on s) (p_io_wait s) (p_recv_wait s) (p_event_wait s)
    (p_async_requests s) v (p_generation s) (p_result s) (p_resources s) (p_cap_table s).
Definition set_p_generation (v : Z) (s : Process) : Process :=
  mkProcess (p_socket_was_bound s) (p_heap_free_wait s) (p_pid s) (p_state s) (p_core s)
    (p_exit_code s) (p_waiting_on s) (p_io_wait s) (p_recv_wait s) (p_event_wait s)
    (p_async_requests s) (p_parent s) v (p_result s) (p_resources s) (p_cap_table s).
Definition set_p_result (v : option ProcessResult) (s : Process) : Process :=
  mkProcess (p_socket_was_bound s) (p_heap_free_wait s) (p_pid s) (p_state s) (p_core s)
    (p_exit_code s) (p_waiting_on s) (p_io_wait s) (p_recv_wait s) (p_event_wait s)
    (p_async_requests s) (p_parent s) (p_generation s) v (p_resources s) (p_cap_table s).
Definition set_p_resources (v : option OwnedResources) (s : Process) : Process :=
  mkProcess (p_socket_was_bound s) (p_heap_free_wait s) (p_pid s) (p_state s) (p_core s)
    (p_exit_code s) (p_waiting_on s) (p_io_wait s) (p_recv_wait s) (p_event_wait s)
    (p_async_requests s) (p_parent s) (p_generation s) (p_result s) v (p_cap_table s).
Definition set_p_cap_table (v : option CapabilityTable) (s : Process) : Process :=
  mkProcess (p_socket_was_bound s) (p_heap_free_wait s) (p_pid s) (p_state s) (p_core s)
    (p_exit_code s) (p_waiting_on s) (p_io_wait s) (p_recv_wait s) (p_event_wait s)
    (p_async_requests s) (p_parent s) (p_generation s) (p_result s) (p_resources s) v.

Definition exited (p : Process) : bool := negb (bool_decide (p_state p = ProcRunning)).
Definition is_schedulable (p : Process) : bool :=
  bool_decide (p_state p = ProcRunning) && negb (is_some (p_waiting_on p))
  && negb (is_some (p_io_wait p)) && negb (is_some (p_recv_wait p))
  && negb (is_some (p_event_wait p)) && negb (is_some (p_heap_free_wait p)).

(** ** Devices *)
Inductive DeviceController := DevBlock (c : BlockController) | DevNic (c : NicController).
Inductive DeviceCompletion := CompBlock (c : BlockCompletion) | CompNic (c : NicCompletion).

Definition comp_handle (x : DeviceCompletion) : RequestHandle :=
  match x with CompBlock c => bcp_handle c | CompNic c => ncp_handle c end.
Definition comp_requester (x : DeviceCompletion) : RequesterKey :=
  match x with CompBlock c => bcp_requester c | CompNic c => ncp_requester c end.
Definition comp_status (x : DeviceCompletion) : DeviceCompletionStatus :=
  match x with CompBlock c => bcp_status c | CompNic c => ncp_status c end.
Definition comp_secondary (x : DeviceCompletion) : option Z :=
  match x with CompBlock _ => None | CompNic c => Some (ncp_transferred_len c) end.

Section device_controller.
Context `{Profile}.
Definition dev_tick (d : DeviceController) (f : Fabric) : outcome (DeviceController * Fabric) :=
  match d with
  | DevBlock c => x ← block_tick c f; Done (DevBlock x.1, x.2)
  | DevNic c => x ← nic_tick c f; Done (DevNic x.1, x.2)
  end.
Definition dev_has_autonomous_work (d : DeviceController) : bool :=
  match d with DevBlock c => block_has_autonomous_work c | DevNic c => nic_has_autonomous_work c end.
Definition dev_requires_attention (d : DeviceController) : bool :=
  match d with DevBlock c => block_requires_attention c | DevNic c => nic_requires_attention c end.
Definition dev_acknowledge_attention (d : DeviceController) : DeviceController :=
  match d with DevBlock c => DevBlock c | DevNic c => DevNic (nic_acknowledge_attention c) end.
Definition dev_completion_count (d : DeviceController) : nat :=
  match d with DevBlock c => block_completion_count c | DevNic c => nic_completion_count c end.
Definition dev_consume_completion (d : DeviceController) :
    outcome (DeviceController * option DeviceCompletion) :=
  match d with
  | DevBlock c => x ← block_consume_completion c; Done (DevBlock x.1, option_map CompBlock x.2)
  | DevNic c => x ← nic_consume_completion c; Done (DevNic x.1, option_map CompNic x.2)
  end.
Definition dev_event_sequence (d : DeviceController) : Z :=
  match d with DevBlock c => bc_event_sequence c | DevNic c => nc_event_sequence c end.
Definition dev_pair_request_count (d : DeviceController) (client peer : ProcessKey) : nat :=
  match d with
  | DevBlock c => block_pair_request_count c client peer
  | DevNic c => nic_pair_request_count c client peer
  end.
Definition as_nic (d : DeviceController) : option NicController :=
  match d with DevNic c => Some c | DevBlock _ => None end.
Definition allowed_rights (d : DeviceController) : DeviceRights :=
  match d with DevBlock _ => DevRights.BLOCK_ALLOWED | DevNic _ => DevRights.NIC_ALLOWED end.
End device_controller.

Record DeviceSlot := mkDeviceSlot { ds_binding : DeviceBinding; ds_controller : DeviceController }.

Definition lookup_index (l : list DeviceSlot) (b : DeviceBinding) : option nat :=
  position (λ d, (bind_object (ds_binding d) =? bind_object b)
                 && (bind_generation (ds_binding d) =? bind_generation b)) l.
Definition lookup_device (l : list DeviceSlot) (b : DeviceBinding) : option DeviceSlot :=
  List.find (λ d, (bind_object (ds_binding d) =? bind_object b)
                  && (bind_generation (ds_binding d) =? bind_generation b)) l.
Definition registry_pair_count (l : list DeviceSlot) (client peer : ProcessKey) : nat :=
  sum_list (map (λ d, dev_pair_request_count (ds_controller d) client peer) l).

Record Kernel := mkKernel {
  k_fabric : Fabric;
  k_processes : list Process;
  k_byte_output : list Z;
  k_mailboxes : list (list Message);
  k_current : nat;
  k_input_streams : gmap nat ProcessInput;
  k_next_input_generation : option Z;
  k_next_phys : Z;
  k_next_agent : Z;
  k_next_pid : Z;
  k_booted : bool;
  k_lifecycle_tables : list (list LifecycleEntry);
  k_free_stack_extents : list Extent;
  k_free_trap_extents : list Extent;
  k_devices : list DeviceSlot;
  k_legacy_block_device : option DeviceBinding;
  k_next_delegation_incarnation : Z;
  k_next_context_id : Z;
}.
Definition set_k_fabric (v : Fabric) (s : Kernel) : Kernel :=
  mkKernel v (k_processes s) (k_byte_output s) (k_mailboxes s) (k_current s) (k_input_streams s)
    (k_next_input_generation s) (k_next_phys s) (k_next_agent s) (k_next_pid s) (k_booted s)
    (k_lifecycle_tables s) (k_free_stack_extents s) (k_free_trap_extents s) (k_devices s)
    (k_legacy_block_device s) (k_next_delegation_incarnation s) (k_next_context_id s).
Definition set_k_processes (v : list Process) (s : Kernel) : Kernel :=
  mkKernel (k_fabric s) v (k_byte_output s) (k_mailboxes s) (k_current s) (k_input_streams s)
    (k_next_input_generation s) (k_next_phys s) (k_next_agent s) (k_next_pid s) (k_booted s)
    (k_lifecycle_tables s) (k_free_stack_extents s) (k_free_trap_extents s) (k_devices s)
    (k_legacy_block_device s) (k_next_delegation_incarnation s) (k_next_context_id s).
Definition set_k_byte_output (v : list Z) (s : Kernel) : Kernel :=
  mkKernel (k_fabric s) (k_processes s) v (k_mailboxes s) (k_current s) (k_input_streams s)
    (k_next_input_generation s) (k_next_phys s) (k_next_agent s) (k_next_pid s) (k_booted s)
    (k_lifecycle_tables s) (k_free_stack_extents s) (k_free_trap_extents s) (k_devices s)
    (k_legacy_block_device s) (k_next_delegation_incarnation s) (k_next_context_id s).
Definition set_k_mailboxes (v : list (list Message)) (s : Kernel) : Kernel :=
  mkKernel (k_fabric s) (k_processes s) (k_byte_output s) v (k_current s) (k_input_streams s)
    (k_next_input_generation s) (k_next_phys s) (k_next_agent s) (k_next_pid s) (k_booted s)
    (k_lifecycle_tables s) (k_free_stack_extents s) (k_free_trap_extents s) (k_devices s)
    (k_legacy_block_device s) (k_next_delegation_incarnation s) (k_next_context_id s).
Definition set_k_current (v : nat) (s : Kernel) : Kernel :=
  mkKernel (k_fabric s) (k_processes s) (k_byte_output s) (k_mailboxes s) v (k_input_streams s)
    (k_next_input_generation s) (k_next_phys s) (k_next_agent s) (k_next_pid s) (k_booted s)
    (k_lifecycle_tables s) (k_free_stack_extents s) (k_free_trap_extents s) (k_devices s)
    (k_legacy_block_device s) (k_next_delegation_incarnation s) (k_next_context_id s).
Definition set_k_input_streams (v : gmap nat ProcessInput) (s : Kernel) : Kernel :=
  mkKernel (k_fabric s) (k_processes s) (k_byte_output s) (k_mailboxes s) (k_current s) v
    (k_next_input_generation s) (k_next_phys s) (k_next_agent s) (k_next_pid s) (k_booted s)
    (k_lifecycle_tables s) (k_free_stack_extents s) (k_free_trap_extents s) (k_devices s)
    (k_legacy_block_device s) (k_next_delegation_incarnation s) (k_next_context_id s).
Definition set_k_next_input_generation (v : option Z) (s : Kernel) : Kernel :=
  mkKernel (k_fabric s) (k_processes s) (k_byte_output s) (k_mailboxes s) (k_current s)
    (k_input_streams s) v (k_next_phys s) (k_next_agent s) (k_next_pid s) (k_booted s)
    (k_lifecycle_tables s) (k_free_stack_extents s) (k_free_trap_extents s) (k_devices s)
    (k_legacy_block_device s) (k_next_delegation_incarnation s) (k_next_context_id s).
Definition set_k_next_phys (v : Z) (s : Kernel) : Kernel :=
  mkKernel (k_fabric s) (k_processes s) (k_byte_output s) (k_mailboxes s) (k_current s)
    (k_input_streams s) (k_next_input_generation s) v (k_next_agent s) (k_next_pid s) (k_booted
    s) (k_lifecycle_tables s) (k_free_stack_extents s) (k_free_trap_extents s) (k_devices s)
    (k_legacy_block_device s) (k_next_delegation_incarnation s) (k_next_context_id s).
Definition set_k_next_agent (v : Z) (s : Kernel) : Kernel :=
  mkKernel (k_fabric s) (k_processes s) (k_byte_output s) (k_mailboxes s) (k_current s)
    (k_input_streams s) (k_next_input_generation s) (k_next_phys s) v (k_next_pid s) (k_booted
    s) (k_lifecycle_tables s) (k_free_stack_extents s) (k_free_trap_extents s) (k_devices s)
    (k_legacy_block_device s) (k_next_delegation_incarnation s) (k_next_context_id s).
Definition set_k_next_pid (v : Z) (s : Kernel) : Kernel :=
  mkKernel (k_fabric s) (k_processes s) (k_byte_output s) (k_mailboxes s) (k_current s)
    (k_input_streams s) (k_next_input_generation s) (k_next_phys s) (k_next_agent s) v (k_booted
    s) (k_lifecycle_tables s) (k_free_stack_extents s) (k_free_trap_extents s) (k_devices s)
    (k_legacy_block_device s) (k_next_delegation_incarnation s) (k_next_context_id s).
Definition set_k_booted (v : bool) (s : Kernel) : Kernel :=
  mkKernel (k_fabric s) (k_processes s) (k_byte_output s) (k_mailboxes s) (k_current s)
    (k_input_streams s) (k_next_input_generation s) (k_next_phys s) (k_next_agent s) (k_next_pid
    s) v (k_lifecycle_tables s) (k_free_stack_extents s) (k_free_trap_extents s) (k_devices s)
    (k_legacy_block_device s) (k_next_delegation_incarnation s) (k_next_context_id s).
Definition set_k_lifecycle_tables (v : list (list LifecycleEntry)) (s : Kernel) : Kernel :=
  mkKernel (k_fabric s) (k_processes s) (k_byte_output s) (k_mailboxes s) (k_current s)
    (k_input_streams s) (k_next_input_generation s) (k_next_phys s) (k_next_agent s) (k_next_pid
    s) (k_booted s) v (k_free_stack_extents s) (k_free_trap_extents s) (k_devices s)
    (k_legacy_block_device s) (k_next_delegation_incarnation s) (k_next_context_id s).
Definition set_k_free_stack_extents (v : list Extent) (s : Kernel) : Kernel :=
  mkKernel (k_fabric s) (k_processes s) (k_byte_output s) (k_mailboxes s) (k_current s)
    (k_input_streams s) (k_next_input_generation s) (k_next_phys s) (k_next_agent s) (k_next_pid
    s) (k_booted s) (k_lifecycle_tables s) v (k_free_trap_extents s) (k_devices s)
    (k_legacy_block_device s) (k_next_delegation_incarnation s) (k_next_context_id s).
Definition set_k_free_trap_extents (v : list Extent) (s : Kernel) : Kernel :=
  mkKernel (k_fabric s) (k_processes s) (k_byte_output s) (k_mailboxes s) (k_current s)
    (k_input_streams s) (k_next_input_generation s) (k_next_phys s) (k_next_agent s) (k_next_pid
    s) (k_booted s) (k_lifecycle_tables s) (k_free_stack_extents s) v (k_devices s)
    (k_legacy_block_device s) (k_next_delegation_incarnation s) (k_next_context_id s).
Definition set_k_devices (v : list DeviceSlot) (s : Kernel) : Kernel :=
  mkKernel (k_fabric s) (k_processes s) (k_byte_output s) (k_mailboxes s) (k_current s)
    (k_input_streams s) (k_next_input_generation s) (k_next_phys s) (k_next_agent s) (k_next_pid
    s) (k_booted s) (k_lifecycle_tables s) (k_free_stack_extents s) (k_free_trap_extents s) v
    (k_legacy_block_device s) (k_next_delegation_incarnation s) (k_next_context_id s).
Definition set_k_legacy_block_device (v : option DeviceBinding) (s : Kernel) : Kernel :=
  mkKernel (k_fabric s) (k_processes s) (k_byte_output s) (k_mailboxes s) (k_current s)
    (k_input_streams s) (k_next_input_generation s) (k_next_phys s) (k_next_agent s) (k_next_pid
    s) (k_booted s) (k_lifecycle_tables s) (k_free_stack_extents s) (k_free_trap_extents s)
    (k_devices s) v (k_next_delegation_incarnation s) (k_next_context_id s).
Definition set_k_next_delegation_incarnation (v : Z) (s : Kernel) : Kernel :=
  mkKernel (k_fabric s) (k_processes s) (k_byte_output s) (k_mailboxes s) (k_current s)
    (k_input_streams s) (k_next_input_generation s) (k_next_phys s) (k_next_agent s) (k_next_pid
    s) (k_booted s) (k_lifecycle_tables s) (k_free_stack_extents s) (k_free_trap_extents s)
    (k_devices s) (k_legacy_block_device s) v (k_next_context_id s).
Definition set_k_next_context_id (v : Z) (s : Kernel) : Kernel :=
  mkKernel (k_fabric s) (k_processes s) (k_byte_output s) (k_mailboxes s) (k_current s)
    (k_input_streams s) (k_next_input_generation s) (k_next_phys s) (k_next_agent s) (k_next_pid
    s) (k_booted s) (k_lifecycle_tables s) (k_free_stack_extents s) (k_free_trap_extents s)
    (k_devices s) (k_legacy_block_device s) (k_next_delegation_incarnation s) v.

(** ** The kernel monad: state, and the panics of the source *)
Definition kernelM (A : Type) : Type := Kernel → outcome (Kernel * A).
#[export] Instance kernelM_ret : MRet kernelM := λ A a k, Done (k, a).
#[export] Instance kernelM_bind : MBind kernelM := λ A B g m k,
  match m k with Done (k', a) => g a k' | Panic => Panic end.

Definition gets {A} (g : Kernel → A) : kernelM A := λ k, Done (k, g k).
Definition modify (g : Kernel → Kernel) : kernelM unit := λ k, Done (g k, tt).
Definition lift {A} (m : outcome A) : kernelM A := λ k,
  match m with Done a => Done (k, a) | Panic => Panic end.
(** A query that may panic *)
Definition asks {A} (g : Kernel → outcome A) : kernelM A := λ k,
  match g k with Done a => Done (k, a) | Panic => Panic end.

Definition get_process (i : nat) : kernelM Process := asks (λ k, vec_get i (k_processes k)).
Definition set_process (i : nat) (p : Process) : kernelM unit := λ k,
  match vec_set i p (k_processes k) with Done l => Done (set_k_processes l k, tt) | Panic => Panic end.
Definition with_process (i : nat) (g : Process → Process) : kernelM unit :=
  p ← get_process i; set_process i (g p).
Definition with_core (i : nat) (g : Anka64Core → outcome Anka64Core) : kernelM unit :=
  p ← get_process i; c ← lift (g (p_core p)); set_process i (set_p_core c p).

(** A fabric operation with a result *)
Definition on_fabric {A} (g : Fabric → outcome (Fabric * A)) : kernelM A := λ k,
  match g (k_fabric k) with Done (f, a) => Done (set_k_fabric f k, a) | Panic => Panic end.
Definition set_fabric (g : Fabric → Fabric) : kernelM unit := modify (λ k, set_k_fabric (g (k_fabric k)) k).

Definition set_mailbox (i : nat) (l : list Message) : kernelM unit := λ k,
  match vec_set i l (k_mailboxes k) with Done m => Done (set_k_mailboxes m k, tt) | Panic => Panic end.
Definition get_mailbox (i : nat) : kernelM (list Message) := asks (λ k, vec_get i (k_mailboxes k)).
Definition set_lifecycle (i : nat) (l : list LifecycleEntry) : kernelM unit := λ k,
  match vec_set i l (k_lifecycle_tables k) with
  | Done m => Done (set_k_lifecycle_tables m k, tt) | Panic => Panic end.
Definition get_lifecycle (i : nat) : kernelM (list LifecycleEntry) :=
  asks (λ k, vec_get i (k_lifecycle_tables k)).

Fixpoint for_ {A} (l : list A) (g : A → kernelM unit) : kernelM unit :=
  match l with [] => mret tt | x :: l => _ ← g x; for_ l g end.

(** [debug_assert!] of a condition that reads the kernel *)
Definition debug_check `{Profile} (m : kernelM bool) : kernelM unit :=
  if debug_build then b ← m; lift (assert_ b) else mret tt.

(** [write_syscall_result], several registers in order *)
Definition put_results (i : nat) (results : list (Z * Z)) : kernelM unit :=
  for_ results (λ x, with_core i (λ c, write_syscall_result c x.1 x.2)).
Definition arg (i : nat) (register : Z) : kernelM Z :=
  p ← get_process i; mret (reg (p_core p) register).

Definition process_key (slot : nat) (generation : Z) : ProcessKey := mkProcessKey (Z.of_nat slot) generation.
Definition key_of (i : nat) : kernelM ProcessKey :=
  p ← get_process i; mret (process_key i (p_generation p)).
Definition slot_of (key : ProcessKey) : nat := Z.to_nat (pk_slot key).

(** ** Physical extents *)

(** [Vec::swap_remove] *)
Definition swap_remove {A} (i : nat) (l : list A) : list A :=
  match last l with
  | Some x => take (pred (length l)) (<[i := x]> l)
  | None => l
  end.

Section lifecycle.
Context `{Profile} `{Host}.

Definition bump_extent (size : Z) : kernelM Extent :=
  base ← gets k_next_phys;
  next ← lift (add_u64 base size);
  _ ← modify (set_k_next_phys next);
  mret (mkExtent base size).

Definition zero_extent (e : Extent) : kernelM unit :=
  on_fabric (λ f, f ← zero_physical f (ext_base e) (ext_size e); Done (f, tt)).

Definition alloc_stack_extent (size : Z) : kernelM Extent :=
  free ← gets k_free_stack_extents;
  match position (λ e, ext_size e =? size) free with
  | Some idx =>
      e ← lift (vec_get idx free);
      _ ← modify (set_k_free_stack_extents (swap_remove idx free));
      _ ← zero_extent e;
      mret e
  | None => bump_extent size
  end.
Definition alloc_trap_extent (size : Z) : kernelM Extent :=
  free ← gets k_free_trap_extents;
  match position (λ e, ext_size e =? size) free with
  | Some idx =>
      e ← lift (vec_get idx free);
      _ ← modify (set_k_free_trap_extents (swap_remove idx free));
      _ ← zero_extent e;
      mret e
  | None => bump_extent size
  end.

(** ** Spawning *)
Definition fresh_process (pid generation : Z) (c : Anka64Core) : Process :=
  mkProcess false None pid ProcRunning c 0 None None None None [] None generation None None
    (Some table_new).

Definition spawn (c : Anka64Core) : kernelM ProcessKey :=
  pid ← gets k_next_pid;
  next ← lift (unwrap (checked_add pid 1));
  _ ← modify (set_k_next_pid next);
  procs ← gets k_processes;
  match position (λ p, bool_decide (p_state p = ProcFree)) procs with
  | Some slot =>
      p ← get_process slot;
      let key := process_key slot (p_generation p) in
      _ ← set_process slot (fresh_process pid (p_generation p) (bind_heap_process c key));
      _ ← set_mailbox slot [];
      _ ← set_lifecycle slot [];
      mret key
  | None =>
      let slot := length procs in
      let key := process_key slot 0 in
      _ ← modify (λ k, set_k_processes (k_processes k ++ [fresh_process pid 0 (bind_heap_process c key)]) k);
      _ ← modify (λ k, set_k_mailboxes (k_mailboxes k ++ [[]]) k);
      _ ← modify (λ k, set_k_lifecycle_tables (k_lifecycle_tables k ++ [[]]) k);
      mret key
  end.

(** ** Reclamation and death *)
Definition close_process_heap (idx : nat) : kernelM unit :=
  _ ← with_process idx (set_p_heap_free_wait None);
  p ← get_process idx;
  let owner := mkOwner (process_key idx (p_generation p)) (core_context_id (p_core p))
                 (core_domain (p_core p)) in
  f ← gets k_fabric;
  match heap_account (fab_scoped_pointers f) owner with
  | Some account =>
      r ← lift (close_owner (fab_scoped_pointers f) account);
      match r with
      | Ok (sp, _) => set_fabric (set_fab_scoped_pointers sp)
      | Err _ => mret tt
      end
  | None => mret tt
  end.

Definition retire_process_frames (slot : nat) : kernelM unit :=
  p ← get_process slot;
  c ← on_fabric (λ f, x ← retire_all_pointer_frames (p_core p) f; Done (x.2, x.1));
  set_process slot (set_p_core c p).

Definition detach_input (slot : nat) : kernelM unit :=
  modify (λ k, set_k_input_streams (delete slot (k_input_streams k)) k).

Definition release_resources (slot : nat) : kernelM unit :=
  p ← get_process slot;
  match p_resources p with
  | Some res =>
      _ ← set_process slot (set_p_resources None p);
      _ ← set_fabric (λ f, destroy_object f (res_stack_obj res));
      _ ← set_fabric (λ f, destroy_object f (res_trap_obj res));
      _ ← set_fabric (λ f, destroy_domain f (res_domain res));
      _ ← modify (λ k, set_k_free_stack_extents (k_free_stack_extents k ++ [res_stack_extent res]) k);
      modify (λ k, set_k_free_trap_extents (k_free_trap_extents k ++ [res_trap_extent res]) k)
  | None => mret tt
  end.

(** The relations and state of an incarnation, erased *)
Definition erase_incarnation (p : Process) : Process :=
  set_p_exit_code 0 (set_p_result None (set_p_async_requests [] (set_p_event_wait None
    (set_p_recv_wait None (set_p_io_wait None (set_p_waiting_on None (set_p_parent None p))))))).

(** [Free(g+1)], or [Retired] when the generations are exhausted *)
Definition advance_generation (p : Process) : Process :=
  match checked_add32 (p_generation p) 1 with
  | Some g => set_p_state ProcFree (set_p_generation g p)
  | None => set_p_state ProcRetired p
  end.

Definition reclaim_process (slot : nat) : kernelM unit :=
  _ ← close_process_heap slot;
  _ ← retire_process_frames slot;
  _ ← detach_input slot;
  _ ← release_resources slot;
  _ ← set_mailbox slot [];
  _ ← set_lifecycle slot [];
  _ ← with_process slot erase_incarnation;
  with_process slot advance_generation.

Definition is_child_of (dead : ProcessKey) (p : Process) : bool :=
  match p_parent p with
  | Some pk => (pk_slot pk =? pk_slot dead) && (pk_generation pk =? pk_generation dead)
               && negb (bool_decide (p_state p = ProcFree)) && negb (bool_decide (p_state p = ProcRetired))
  | None => false
  end.
Definition children_of (procs : list Process) (dead : ProcessKey) : list (nat * ProcessKey) :=
  omap (λ x, x) (imap (λ i p,
    if is_child_of dead p then Some (i, process_key i (p_generation p)) else None) procs).

Definition reap (child : nat) : kernelM unit :=
  p ← get_process child;
  match p_state p with
  | ProcRunning =>
      _ ← close_process_heap child;
      _ ← with_process child (λ p, set_p_state ProcZombie
            (set_p_result (Some ProtectionFault) (set_p_exit_code 57005 p)));
      reclaim_process child
  | ProcZombie => reclaim_process child
  | ProcFree | ProcRetired => mret tt
  end.

(** The recursion follows the process tree; [fuel] bounds its depth, and running
    out of it is a panic.  [terminate_orphans] gives one more than there are
    processes. *)
Fixpoint terminate_orphans_fuel (fuel : nat) (dead : ProcessKey) : kernelM unit :=
  match fuel with
  | O => lift Panic
  | S fuel =>
      procs ← gets k_processes;
      for_ (children_of procs dead) (λ x, _ ← terminate_orphans_fuel fuel x.2; reap x.1)
  end.
Definition terminate_orphans (dead : ProcessKey) : kernelM unit :=
  n ← gets (λ k, length (k_processes k));
  terminate_orphans_fuel (S n) dead.

Definition exit_code_of (r : ProcessResult) : Z := match r with Exited code => code | _ => 57005 end.

Definition finish_process (slot : nat) (result : ProcessResult) : kernelM unit :=
  _ ← close_process_heap slot;
  _ ← detach_input slot;
  _ ← retire_process_frames slot;
  _ ← with_process slot (λ p, set_p_event_wait None (set_p_state ProcZombie
        (set_p_result (Some result) (set_p_exit_code (exit_code_of result) p))));
  key ← key_of slot;
  terminate_orphans key.

(** [resume_from_trap]: the kernel performs the event return for the process. *)
Definition resume_from_trap (idx : nat) : kernelM unit :=
  p ← get_process idx;
  r ← lift (event_return (p_core p));
  match r with
  | Some (c, pc) => set_process idx (set_p_core (set_core_pc pc (set_core_halted false c)) p)
  | None => finish_process idx ProtectionFault
  end.

Definition reply (idx : nat) (results : list (Z * Z)) : kernelM unit :=
  _ ← put_results idx results; resume_from_trap idx.
End lifecycle.

(** ** Identities *)
Definition validate_process_key (procs : list Process) (key : ProcessKey) : option nat :=
  if Z.of_nat (length procs) <=? pk_slot key then None
  else
    p ← procs !! slot_of key;
    if negb (p_generation p =? pk_generation key) then None
    else if bool_decide (p_state p = ProcFree) || bool_decide (p_state p = ProcRetired) then None
    else Some (slot_of key).

Definition validate_message_destination (procs : list Process) (key : ProcessKey) : option nat :=
  idx ← validate_process_key procs key;
  p ← procs !! idx;
  if bool_decide (p_state p = ProcRunning) then Some idx else None.

Definition resolve_pid (procs : list Process) (pid : Z) : option nat :=
  position (λ p, (p_pid p =? pid) && bool_decide (p_state p = ProcRunning)) procs.

Definition can_alloc_delegation_id (k : Kernel) : bool :=
  is_some (checked_add (k_next_delegation_incarnation k) 1).
Definition alloc_delegation_id (client driver : ProcessKey) : kernelM (option DelegationId) :=
  inc ← gets k_next_delegation_incarnation;
  match checked_add inc 1 with
  | Some next => _ ← modify (set_k_next_delegation_incarnation next);
                 mret (Some (mkDelegation client driver inc))
  | None => mret None
  end.

(** ** Lifecycle authority *)

(** The scan for a collected entry whose generation can still advance *)
Fixpoint reuse_lifecycle (i : nat) (l : list LifecycleEntry) (child : ProcessKey) :
    option (list LifecycleEntry * Z) :=
  match l with
  | [] => None
  | e :: l =>
      let rest := '(l', h) ← reuse_lifecycle (S i) l child; Some (e :: l', h) in
      if le_collected e then
        match checked_add32 (le_slot_generation e) 1 with
        | Some g => Some (mkLifecycle g child false :: l, lh_new (wrap32 (Z.of_nat i)) g)
        | None => rest
        end
      else rest
  end.

Definition install_lifecycle (parent : nat) (child : ProcessKey) : kernelM Z :=
  table ← get_lifecycle parent;
  match reuse_lifecycle 0 table child with
  | Some (table', h) => _ ← set_lifecycle parent table'; mret h
  | None =>
      _ ← set_lifecycle parent (table ++ [mkLifecycle 0 child false]);
      mret (lh_new (wrap32 (Z.of_nat (length table))) 0)
  end.

Definition resolve_lifecycle (tables : list (list LifecycleEntry)) (owner : nat) (handle : Z) :
    option (nat * LifecycleEntry) :=
  table ← tables !! owner;
  let slot := Z.to_nat (lh_slot handle) in
  entry ← table !! slot;
  if negb (le_slot_generation entry =? lh_generation handle) then None
  else if le_collected entry then None
  else Some (slot, entry).

(** ** Capabilities of a process *)
Definition resolve_capability (slot : nat) (handle : CapabilityHandle) :
    kernelM (option ResolvedCapability) :=
  p ← get_process slot;
  f ← gets k_fabric;
  mret (ct ← p_cap_table p;
        resolved ← CapTable.resolve ct handle (λ o, obj_generation <$> fab_objects f !! o);
        if negb (has_authority_id f (core_domain (p_core p)) (resolved_authority_id resolved))
        then None else Some resolved).

Definition set_cap_table (slot : nat) (t : CapabilityTable) : kernelM unit :=
  with_process slot (set_p_cap_table (Some t)).

(** Install a handle with [install], or take back the authority behind it. *)
Definition install_or_rollback (slot : nat) (domain : DomainId) (id : AuthorityId)
    (install : CapabilityTable → option (CapabilityHandle * CapabilityTable)) :
    kernelM (option CapabilityHandle) :=
  p ← get_process slot;
  match (ct ← p_cap_table p; install ct) with
  | Some (handle, ct) => _ ← set_cap_table slot ct; mret (Some handle)
  | None => _ ← set_fabric (λ f, (remove_by_authority_id f domain id).1); mret None
  end.

Definition allocatable (p : Process) : Z := from_option allocatable_count 0 (p_cap_table p).

Definition install_capability (slot : nat) (object offset length : Z) (perms : Permissions) :
    kernelM (option CapabilityHandle) :=
  f ← gets k_fabric;
  match fab_objects f !! object with
  | None => mret None
  | Some obj =>
      if negb (bool_decide (obj_kind obj = Memory)) then mret None
      else
        p ← get_process slot;
        match p_cap_table p with
        | None => mret None
        | Some ct =>
            if allocatable_count ct =? 0 then mret None
            else
              let domain := core_domain (p_core p) in
              match alloc_authority_id f with
              | None => mret None
              | Some (f, id) =>
                  _ ← set_fabric (λ _, f);
                  match grant_with_authority_id f domain object offset length perms id with
                  | None => mret None
                  | Some (f, _) =>
                      _ ← set_fabric (λ _, f);
                      match fab_objects f !! object with
                      | None => mret None
                      | Some obj =>
                          install_or_rollback slot domain id (λ ct,
                            install_memory ct object (obj_generation obj) offset length perms id None)
                      end
                  end
              end
        end
  end.

Definition install_device_capability (slot : nat) (device_object : ObjectId) (rights : DeviceRights) :
    kernelM (option CapabilityHandle) :=
  f ← gets k_fabric;
  devices ← gets k_devices;
  match fab_objects f !! device_object with
  | None => mret None
  | Some obj =>
      if negb (bool_decide (obj_kind obj = Device)) || negb (bool_decide (obj_state obj = Active)) then mret None
      else
        let allowed := match lookup_device devices (mkBinding device_object (obj_generation obj)) with
                       | Some d => allowed_rights (ds_controller d)
                       | None => DevRights.ALL_BITS
                       end in
        if negb (Z.ldiff rights allowed =? 0) then mret None
        else
          p ← get_process slot;
          match p_cap_table p with
          | None => mret None
          | Some ct =>
              if allocatable_count ct =? 0 then mret None
              else
                let domain := core_domain (p_core p) in
                match alloc_authority_id f with
                | None => mret None
                | Some (f, id) =>
                    _ ← set_fabric (λ _, f);
                    match grant_device_with_authority_id f domain device_object rights id with
                    | None => mret None
                    | Some f =>
                        _ ← set_fabric (λ _, f);
                        install_or_rollback slot domain id (λ ct,
                          install_device ct device_object (obj_generation obj) rights id None)
                    end
                end
          end
  end.

(** ** Device registration *)
Section devices.
Context `{Profile} `{Host}.

Definition register_device (name : string) (controller : DeviceController) : kernelM (option DeviceBinding) :=
  dev_obj ← on_fabric (λ f, alloc_object f name 0 Device);
  f ← gets k_fabric;
  match fab_objects f !! dev_obj with
  | None => mret None
  | Some obj =>
      _ ← lift (debug_assert (bool_decide (obj_state obj = Active)));
      let binding := mkBinding dev_obj (obj_generation obj) in
      devices ← gets k_devices;
      if is_some (lookup_device devices binding) then mret None
      else
        _ ← modify (λ k, set_k_devices (k_devices k ++ [mkDeviceSlot binding controller]) k);
        mret (Some binding)
  end.

Definition register_block_device (controller : BlockController) : kernelM (option DeviceBinding) :=
  r ← register_device "block_device" (DevBlock controller);
  match r with
  | Some binding =>
      legacy ← gets k_legacy_block_device;
      _ ← (if is_some legacy then mret tt else modify (set_k_legacy_block_device (Some binding)));
      mret (Some binding)
  | None => mret None
  end.
Definition register_nic_device (controller : NicController) : kernelM (option DeviceBinding) :=
  register_device "nic_device" (DevNic controller).

(** Replace the controller a binding routes to. *)
Definition set_controller (i : nat) (c : DeviceController) : kernelM unit := λ k,
  match k_devices k !! i with
  | Some d => Done (set_k_devices (<[i := mkDeviceSlot (ds_binding d) c]> (k_devices k)) k, tt)
  | None => Panic
  end.

Definition take_nic_tx (binding : DeviceBinding) : kernelM (option (list Z)) :=
  devices ← gets k_devices;
  match lookup_index devices binding with
  | None => mret None
  | Some i =>
      d ← lift (vec_get i devices);
      match ds_controller d with
      | DevNic nic => let '(nic, frame) := take_tx nic in
                      _ ← set_controller i (DevNic nic); mret frame
      | DevBlock _ => mret None
      end
  end.

(** ** Messages *)
Definition same_key (a b : ProcessKey) : bool :=
  (pk_slot a =? pk_slot b) && (pk_generation a =? pk_generation b).

Definition message_route (dest : nat) (sender : ProcessKey) : kernelM DeliveryRoute :=
  p ← get_process dest;
  if is_some_and (λ peer, same_key peer sender) (p_recv_wait p) then mret RouteDirect
  else
    box ← get_mailbox dest;
    mret (if (length box <? MAX_MAILBOX_SIZE)%nat then RouteEnqueue else RouteFull).

(** The register image of a receive: value, tag, handle, sender *)
Definition message_results (m : Message) : list (Z * Z) :=
  [(0, msg_value m)]
  ++ match msg_cap m with
     | Some ch => [(1, 2); (2, ch_slot ch); (3, ch_generation ch)]
     | None => [(1, 1); (2, u32_max); (3, 0)]
     end
  ++ [(4, pk_slot (msg_from m)); (5, pk_generation (msg_from m))].
Definition outcome_results (o : RecvOutcome) : list (Z * Z) :=
  match o with
  | RecvMessage m => message_results m
  | RecvPeerDied peer =>
      [(0, 0); (1, 3); (2, u32_max); (3, 0); (4, pk_slot peer); (5, pk_generation peer)]
  | RecvError => [(0, 0); (1, 4); (2, u32_max); (3, 0); (4, 0); (5, 0)]
  end.

Definition complete_recv_wait (slot : nat) (o : RecvOutcome) : kernelM unit :=
  _ ← with_process slot (set_p_recv_wait None);
  reply slot (outcome_results o).

Definition deliver_message (dest : nat) (m : Message) (route : DeliveryRoute) : kernelM unit :=
  _ ← debug_check (now ← message_route dest (msg_from m); mret (bool_decide (route = now)));
  _ ← debug_check (p ← get_process dest; mret (bool_decide (p_state p = ProcRunning)));
  match route with
  | RouteDirect => complete_recv_wait dest (RecvMessage m)
  | RouteEnqueue => box ← get_mailbox dest; set_mailbox dest (box ++ [m])
  | RouteFull => lift Panic
  end.

(** ** Process input *)
Inductive InputProvisionError := StaleProcess | AlreadyProvisioned | TooLarge | InputExhausted | InputAllocationFailed.
Definition MAX_PROCESS_INPUT : Z := 1024 * 1024.

Definition provision_process_input (key : ProcessKey) (bytes : list Z) :
    kernelM (result InputProvisionError unit) :=
  procs ← gets k_processes;
  streams ← gets k_input_streams;
  generation ← gets k_next_input_generation;
  match procs !! slot_of key with
  | None => mret (Err StaleProcess)
  | Some p =>
      if negb ((p_generation p =? pk_generation key) && bool_decide (p_state p = ProcRunning))
      then mret (Err StaleProcess)
      else if is_some (streams !! slot_of key) then mret (Err AlreadyProvisioned)
      else if MAX_PROCESS_INPUT <? zlen bytes then mret (Err TooLarge)
      else match generation, checked_add (pk_slot key) 1 with
           | None, _ | _, None => mret (Err InputExhausted)
           | Some generation, Some id =>
               match reserve_exact (zlen bytes) with
               | None => mret (Err InputAllocationFailed)
               | Some _ =>
                   let input := mkInput key (core_context_id (p_core p)) (core_domain (p_core p)) id
                                  generation bytes 0 in
                   _ ← modify (λ k, set_k_input_streams (<[slot_of key := input]> (k_input_streams k)) k);
                   _ ← modify (set_k_next_input_generation (checked_add generation 1));
                   mret (Ok tt)
               end
           end
  end.

Definition detach_process_input (key : ProcessKey) : kernelM bool :=
  streams ← gets k_input_streams;
  if negb (is_some_and (λ s, bool_decide (pi_owner s = key)) (streams !! slot_of key)) then mret false
  else _ ← detach_input (slot_of key); mret true.
End devices.
