(* ===== verification/Syscalls.v ===== *)
(** * The syscall handlers of [src/anka64/os.rs]

    Every handler reads its arguments from the registers of the calling process,
    and either replies (results in registers, then the event return) or leaves the
    process blocked inside its trap. *)

From S2P Require Import Prelude State CapTable Extents Registry PointerFrames HeapLedger.
From S2P Require Import Fabric FabricCells FabricHeap Block Nic Desc Isa Core Kernel.

Definition MAX_WRITE : Z := 65536.
Definition MAX_SPAWN_GRANTS : Z := 64.
Definition MAX_SPAWN_MAPS : Z := 64.
Definition SPAWN_GRANT_SIZE : Z := 40.
Definition SPAWN_MAP_SIZE : Z := 40.
Definition SPAWN_LAYOUT_SIZE : Z := 40.
Definition MIN_STACK_SIZE : Z := 4096.
Definition MAX_STACK_SIZE : Z := 1048576.
Definition TRAP_SIZE : Z := 4096.

Record ProcessImageDesc := mkImageDesc {
  pid_code_obj : ObjectId;
  pid_code_offset : Z;
  pid_code_size : Z;
  pid_lit_start : Z;
  pid_image_size : Z;
  pid_entry : Z;
}.
Record ProcessLayout := mkLayout { pl_code_vaddr : Z; pl_stack_vaddr : Z; pl_stack_size : Z; pl_trap_vaddr : Z }.

(** [EXEC_DEFAULT_LAYOUT], from the compiler's [OUTPUT_SIZE] and [STACK_SIZE] *)
Definition EXEC_DEFAULT_LAYOUT : ProcessLayout := mkLayout 0 81920 16384 98304.

Record InitialGrant := mkInitialGrant { ig_obj : ObjectId; ig_offset : Z; ig_size : Z; ig_perms : Permissions }.
Record InitialMap := mkInitialMap { im_vaddr : Z; im_size : Z; im_obj : ObjectId; im_obj_offset : Z }.

Definition try_u32 (x : Z) : option Z := if x <? U32 then Some x else None.
Definition try_u8 (x : Z) : option Z := if x <? 256 then Some x else None.

(** The [?] of the closures returning [Option] *)
Definition kbind_option {A B} (m : kernelM (option A)) (k : A → kernelM (option B)) : kernelM (option B) :=
  o ← m; match o with Some a => k a | None => mret None end.
Notation "x ←~ m ; k" := (kbind_option m (λ x, k))
  (at level 20, m at level 100, k at level 200, only parsing) : stdpp_scope.
Notation "' p ←~ m ; k" := (kbind_option m (λ x, let 'p := x in k))
  (at level 20, p pattern, m at level 100, k at level 200, only parsing) : stdpp_scope.
(** [.ok()] *)
Definition ok_of {E A} (r : result E A) : option A := match r with Ok a => Some a | Err _ => None end.
Definition lift_ok {E A} (m : fallible E A) : kernelM (option A) := r ← lift m; mret (ok_of r).
Definition require (b : bool) : kernelM (option unit) := mret (if b then Some tt else None).
Definition on_fabric_ok {E A} (g : Fabric → outcome (Fabric * result E A)) : kernelM (option A) :=
  r ← on_fabric g; mret (ok_of r).

(** ** Reading guest memory *)
Section memory.
Context `{Profile} `{Host}.

Definition resolve_virtual_range (idx : nat) (vaddr size : Z) : kernelM (option (ObjectId * Z)) :=
  p ← get_process idx;
  lift (resolve_range_single_entry (core_address_map (p_core p)) vaddr size).

Definition resolve_address (idx : nat) (vaddr : Z) : kernelM (option (ObjectId * Z)) :=
  p ← get_process idx; lift (Core.resolve (core_address_map (p_core p)) vaddr).

Definition read_virtual_bytes (idx : nat) (vaddr size : Z) : kernelM (option (list Z)) :=
  if size =? 0 then mret (Some [])
  else
    r ← resolve_virtual_range idx vaddr size;
    match r with
    | None => mret None
    | Some (obj, off) =>
        p ← get_process idx;
        f ← gets k_fabric;
        match find_authorizing_cap f (core_domain (p_core p)) obj off size Perm.READ, translate f obj off with
        | Some _, Some phys => bytes ← lift (read_physical f phys size); mret (Some bytes)
        | _, _ => mret None
        end
    end.

Fixpoint no_overlap_with (a : Z * Z) (l : list (Z * Z)) : bool :=
  match l with
  | [] => true
  | b :: l => if (a.1 <? b.2) && (b.1 <? a.2) then false else no_overlap_with a l
  end.
Fixpoint validate_no_map_overlap (ranges : list (Z * Z)) : bool :=
  match ranges with
  | [] => true
  | a :: l => no_overlap_with a l && validate_no_map_overlap l
  end.

(** ** Output and sealing *)

(** The byte-wise reads of [SYS_WRITE]; [None] stops at the first failure. *)
Fixpoint read_each (idx : nat) (n : nat) (va : Z) (acc : list Z) : kernelM (option (list Z)) :=
  match n with
  | O => mret (Some acc)
  | S n =>
      r ← resolve_address idx va;
      match r with
      | None => mret None
      | Some (obj, off) =>
          p ← get_process idx;
          x ← on_fabric (λ f, execute_read f (make_request (p_core p) obj off WByte Read));
          match x with
          | Ok bytes => b ← lift (vec_get 0 bytes); va' ← lift (add_u64 va 1); read_each idx n va' (acc ++ [b])
          | Err _ => mret None
          end
      end
  end.

Definition handle_buffer_write (idx : nat) : kernelM unit :=
  addr ← arg idx 1; len ← arg idx 2; r3 ← arg idx 3;
  let fail := reply idx [(0, u64_max)] in
  if negb (r3 =? 0) then fail
  else if len =? 0 then reply idx [(0, 0)]
  else if MAX_WRITE <? len then fail
  else match checked_add addr (len - 1) with
  | None => fail
  | Some addr_end =>
      s ← resolve_address idx addr;
      match s with
      | None => fail
      | Some (obj_start, off_start) =>
          e ← resolve_address idx addr_end;
          match e with
          | None => fail
          | Some (obj_end, off_end) =>
              if negb (obj_start =? obj_end) then fail
              else match checked_add off_start (len - 1) with
              | None => fail
              | Some expected =>
                  if negb (off_end =? expected) then fail
                  else
                    p ← get_process idx;
                    f ← gets k_fabric;
                    match find_authorizing_cap f (core_domain (p_core p)) obj_start off_start len Perm.READ with
                    | None => fail
                    | Some _ =>
                        bytes ← read_each idx (Z.to_nat len) addr [];
                        match bytes with
                        | None => fail
                        | Some bytes =>
                            _ ← modify (λ k, set_k_byte_output (k_byte_output k ++ bytes) k);
                            reply idx [(0, 0)]
                        end
                    end
              end
          end
      end
  end.

Definition handle_seal (idx : nat) : kernelM unit :=
  vaddr ← arg idx 1;
  let fail := reply idx [(0, u64_max)] in
  r ← resolve_address idx vaddr;
  match r with
  | None => fail
  | Some (object, _) =>
      p ← get_process idx;
      f ← gets k_fabric;
      obj ← lift (unwrap (fab_objects f !! object));
      let domain := core_domain (p_core p) in
      match find_authorizing_cap f domain object 0 (obj_size obj) Perm.SEAL with
      | None => fail
      | Some _ =>
          let '(f, sealed) := seal_object f object in
          _ ← set_fabric (λ _, f);
          if negb sealed then fail
          else
            _ ← set_fabric (λ f, from_option fst f (grant f domain object 0 (obj_size obj) Perm.RX));
            reply idx [(0, 0)]
      end
  end.

(** ** Protected input and output *)

(** The request of a protected transfer: the process's agent and domain, as supervisor *)
Definition supervisor_request (c : Anka64Core) (object offset length : Z) (kind : AccessKind) : MemoryRequest :=
  mkRequest (mkContext (core_agent c) (core_domain c) Supervisor) object offset WByte length kind.

(** A fabric operation on the heap that returns the fabric on success only *)
Definition heap_write (owner : AllocationOwner) (agent : Z) (p : ScopedPointer) (bytes : list Z) (f : Fabric) :
    outcome (Fabric * result HeapError unit) :=
  r ← write_heap_bytes f owner agent p bytes;
  Done (match r with Ok f => (f, Ok tt) | Err e => (f, Err e) end).

Definition input_ready (idx : nat) (p : Process) (input : ProcessInput) : bool :=
  bool_decide (pi_owner input = process_key idx (p_generation p))
  && (pi_context input =? core_context_id (p_core p)) && (pi_domain input =? core_domain (p_core p))
  && negb (pi_id input =? 0) && negb (pi_generation input =? 0) && (pi_cursor input <=? zlen (pi_bytes input)).

Definition protected_read (idx : nat) (words_ : list Z) (kinds : list (option ScopedPointer)) :
    kernelM (option Z) :=
  let w i := words_ !!! i in
  let k i := kinds !!! i in
  let capacity := w 4%nat in
  _ ←~ require ((w 0%nat =? 20) && (w 1%nat =? 0) && (w 5%nat =? 0) && negb (is_some (k 0%nat))
                && negb (is_some (k 2%nat)) && (capacity <=? MAX_WRITE));
  pointer ←~ mret (k 1%nat);
  _ ←~ require (bool_decide (words pointer = (w 2%nat, w 3%nat)));
  p ← get_process idx;
  let c := p_core p in
  streams ← gets k_input_streams;
  input ←~ mret (streams !! idx);
  _ ←~ require (input_ready idx p input);
  f ← gets k_fabric;
  backing ←~ lift_ok (syscall_write_span c f pointer capacity);
  let n := Z.min capacity (zlen (pi_bytes input) - pi_cursor input) in
  end_ ←~ mret (checked_add (pi_cursor input) n);
  _ ←~ mret (reserve_exact n);
  staged ← lift (vec_slice (pi_cursor input) end_ (pi_bytes input));
  again ←~ lift_ok (syscall_write_span c f pointer capacity);
  _ ←~ require (bool_decide (again = backing));
  _ ←~ (if negb (n =? 0) then
          if is_heap_pointer (fab_scoped_pointers f) pointer then
            owner ←~ mret (ok_of (heap_owner c));
            on_fabric_ok (heap_write owner (core_agent c) pointer staged)
          else on_fabric_ok (λ f, execute_write f (supervisor_request c backing.1 backing.2 n Write) staged)
        else mret (Some tt));
  _ ← modify (λ k, set_k_input_streams (<[idx := mkInput (pi_owner input) (pi_context input)
        (pi_domain input) (pi_id input) (pi_generation input) (pi_bytes input) end_]> (k_input_streams k)) k);
  mret (Some n).

Definition handle_protected_buffer_read (idx : nat) (words_ : list Z) (kinds : list (option ScopedPointer)) :
    kernelM unit :=
  count ← protected_read idx words_ kinds;
  reply idx [(0, default u64_max count)].

(** One byte of the staged output *)
Definition protected_byte (c : Anka64Core) (pointer : ScopedPointer) (length object offset i : Z) :
    kernelM (option Z) :=
  f ← gets k_fabric;
  _ ←~ lift_ok (syscall_read_span c f pointer length);
  off ←~ mret (checked_add offset i);
  if is_heap_pointer (fab_scoped_pointers f) pointer then
    owner ←~ mret (ok_of (heap_owner c));
    p ←~ lift_ok (add_heap_pointer (fab_scoped_pointers f) pointer owner i);
    bytes ←~ lift_ok (read_heap_bytes f owner (core_agent c) p 1);
    b ← lift (vec_get 0 bytes); mret (Some b)
  else
    bytes ←~ on_fabric_ok (λ f, execute_read f (supervisor_request c object off 1 Read));
    mret (head bytes).

Fixpoint protected_bytes (c : Anka64Core) (pointer : ScopedPointer) (length object offset : Z)
    (n : nat) (i : Z) (acc : list Z) : kernelM (option (list Z)) :=
  match n with
  | O => mret (Some acc)
  | S n => b ←~ protected_byte c pointer length object offset i;
           protected_bytes c pointer length object offset n (i + 1) (acc ++ [b])
  end.

Definition protected_write (idx : nat) (words_ : list Z) (kinds : list (option ScopedPointer)) :
    kernelM (option (list Z)) :=
  let w i := words_ !!! i in
  let k i := kinds !!! i in
  let length := w 4%nat in
  _ ←~ require ((w 1%nat =? 0) && (w 5%nat =? 0) && negb (is_some (k 0%nat))
                && negb (is_some (k 2%nat)) && (length <=? MAX_WRITE));
  pointer ←~ mret (k 1%nat);
  _ ←~ require (bool_decide (words pointer = (w 2%nat, w 3%nat)));
  p ← get_process idx;
  let c := p_core p in
  f ← gets k_fabric;
  backing ←~ lift_ok (syscall_read_span c f pointer length);
  out ← gets k_byte_output;
  _ ←~ mret (checked_add (zlen out) length);
  _ ←~ require (try_reserve (zlen out) length);
  _ ←~ mret (reserve_exact length);
  bytes ←~ protected_bytes c pointer length backing.1 backing.2 (Z.to_nat length) 0 [];
  f ← gets k_fabric;
  _ ←~ lift_ok (syscall_read_span c f pointer length);
  mret (Some bytes).

Definition handle_protected_buffer_write (idx : nat) (words_ : list Z) (kinds : list (option ScopedPointer)) :
    kernelM unit :=
  staged ← protected_write idx words_ kinds;
  match staged with
  | Some bytes =>
      _ ← modify (λ k, set_k_byte_output (k_byte_output k ++ bytes) k);
      reply idx [(0, words_ !!! 4%nat)]
  | None => reply idx [(0, u64_max)]
  end.

(** ** Heap calls of a kernel without a heap service *)
Definition process_heap_owner (idx : nat) (p : Process) : result HeapError AllocationOwner :=
  let expected := mkOwner (process_key idx (p_generation p)) (core_context_id (p_core p))
                    (core_domain (p_core p)) in
  if negb (bool_decide (p_state p = ProcRunning)) then Err HOwner
  else owner ← heap_owner (p_core p);
       if negb (bool_decide (owner = expected)) then Err HOwner else Ok expected.

Definition heap_event (idx : nat) (p : Process) : result HeapError (AllocationOwner * HeapEventPermit) :=
  owner ← process_heap_owner idx p;
  event ← prepare_heap_event (p_core p) owner;
  Ok (owner, event).

Definition handle_malloc (idx : nat) (words_ : list Z) (kinds : list (option ScopedPointer)) : kernelM unit :=
  p ← get_process idx;
  let fault := finish_process idx ProtectionFault in
  let commit event status :=
    _ ← with_core idx (λ c, commit_heap_event c event None status true); resume_from_trap idx in
  if negb (bool_decide (protected_syscall_image (p_core p) = Some (words_, kinds)))
     || negb (words_ !!! 0%nat =? 21) || existsb (λ w, negb (w =? 0)) (take 4 (drop 2 words_))
     || existsb is_some (take 3 kinds)
  then fault
  else match heap_event idx p with
  | Err _ => fault
  | Ok (owner, event) =>
      let n := words_ !!! 1%nat in
      if n =? 0 then commit event 0
      else if i64_max <? n then commit event 2
      else if negb (valid_heap_event (p_core p) event owner) then fault
      else commit event 1
  end.

Definition handle_free (idx : nat) (words_ : list Z) (kinds : list (option ScopedPointer)) : kernelM unit :=
  p ← get_process idx;
  let fault := finish_process idx ProtectionFault in
  let w i := words_ !!! i in
  if negb (bool_decide (protected_syscall_image (p_core p) = Some (words_, kinds)))
     || negb (w 0%nat =? 22) || negb (w 1%nat =? 0) || negb (w 4%nat =? 0) || negb (w 5%nat =? 0)
     || is_some (kinds !!! 0%nat) || is_some (kinds !!! 2%nat)
  then fault
  else match heap_event idx p with
  | Err _ => fault
  | Ok (_, event) =>
      match kinds !!! 1%nat with
      | None =>
          if (w 2%nat =? 0) && (w 3%nat =? 0) then
            _ ← with_core idx (λ c, commit_heap_event c event None 0 false); resume_from_trap idx
          else fault
      | Some _ => fault
      end
  end.
End memory.

(** ** Process images *)
Definition set_core_address_map (v : list AddressMapEntry) (s : Anka64Core) : Anka64Core :=
  mkCore (core_heap_owner s) (core_next_event_id s) (core_context_id s) (core_protected_context_enabled s)
    (core_saved_event_contexts s) (core_pointer_pairs s) (core_pointer_frames s) (core_r s) (core_pc s)
    (core_flags s) (core_agent s) (core_domain s) (core_privilege s) v (core_halted s)
    (core_trap_vector s) (core_event_frames s) (core_interrupts_enabled s) (core_pending s)
    (core_interrupt_turn s) (core_return_stack s).
Definition set_core_trap_vector (v : Z) (s : Anka64Core) : Anka64Core :=
  mkCore (core_heap_owner s) (core_next_event_id s) (core_context_id s) (core_protected_context_enabled s)
    (core_saved_event_contexts s) (core_pointer_pairs s) (core_pointer_frames s) (core_r s) (core_pc s)
    (core_flags s) (core_agent s) (core_domain s) (core_privilege s) (core_address_map s) (core_halted s)
    v (core_event_frames s) (core_interrupts_enabled s) (core_pending s)
    (core_interrupt_turn s) (core_return_stack s).

Section images.
Context `{Profile} `{Host}.

(** The core of a new process: its map, entry point, stack pointer and trap vector *)
Definition image_core (context agent dom : Z) (desc : ProcessImageDesc) (layout : ProcessLayout)
    (maps : list InitialMap) (stack_obj trap_obj : ObjectId) : outcome Anka64Core :=
  let m := map_add_at [] (pl_code_vaddr layout) (pid_code_size desc) (pid_code_obj desc) (pid_code_offset desc) in
  pc ← add_u64 (pl_code_vaddr layout) (pid_entry desc);
  m ← (if negb (pid_lit_start desc =? 0) then
         lit_length ← sub_u64 (pid_image_size desc) (pid_lit_start desc);
         lit_vaddr ← add_u64 (pl_code_vaddr layout) (pid_lit_start desc);
         lit_offset ← add_u64 (pid_code_offset desc) (pid_lit_start desc);
         Done (map_add_at m lit_vaddr lit_length (pid_code_obj desc) lit_offset)
       else Done m);
  let m := map_add m (pl_stack_vaddr layout) (pl_stack_size layout) stack_obj in
  let m := map_add m (pl_trap_vaddr layout) TRAP_SIZE trap_obj in
  sp ← add_u64 (pl_stack_vaddr layout) (pl_stack_size layout);
  c ← write_register (set_core_pc pc (core_new context agent dom)) SP sp;
  let m := foldl (λ m x, map_add_at m (im_vaddr x) (im_size x) (im_obj x) (im_obj_offset x)) m maps in
  Done (set_core_address_map m (set_core_trap_vector (pl_trap_vaddr layout) c)).

(** The admission of the protected profile: the core, or the image is refused *)
Definition admit_image (dom : DomainId) (desc : ProcessImageDesc) (layout : ProcessLayout)
    (c : Anka64Core) : kernelM (option Anka64Core) :=
  f ← gets k_fabric;
  object ←~ mret (fab_objects f !! pid_code_obj desc);
  _ ←~ require (bool_decide (obj_state object = Sealed));
  _ ←~ require (negb (is_none_or (λ n, obj_size object <? n)
                        (checked_add (pid_code_offset desc) (pid_image_size desc))));
  base ←~ mret (translate f (pid_code_obj desc) (pid_code_offset desc));
  image ← lift (read_physical f base (pid_image_size desc));
  _ ←~ require (pid_code_size desc <=? zlen image);
  let code := take (Z.to_nat (pid_code_size desc)) image in
  metadata ←~ (if negb (pid_lit_start desc =? 0) then
                 mret (if pid_lit_start desc <=? zlen image
                       then Some (drop (Z.to_nat (pid_lit_start desc)) image) else None)
               else mret (Some []));
  program ←~ lift_ok (from_image code metadata);
  match program with
  | Some program =>
      _ ← set_fabric (λ f, register_agent f (core_agent c) (Cpu (core_agent c)) dom);
      stack_high ← lift (add_u64 (pl_stack_vaddr layout) (pl_stack_size layout));
      on_fabric_ok (λ f, admit_pointer_program c f program (pl_code_vaddr layout)
                           (pl_stack_vaddr layout) stack_high)
  | None => mret (Some c)
  end.

Definition prepare_process (dom : DomainId) (desc : ProcessImageDesc) (layout : ProcessLayout)
    (initial_maps : list InitialMap) : kernelM ProcessKey :=
  stack_extent ← alloc_stack_extent (pl_stack_size layout);
  stack_obj ← on_fabric (λ f, alloc_object f "process_stack" (pl_stack_size layout) Memory);
  _ ← set_fabric (λ f, (place_object f stack_obj (ext_base stack_extent)).1);
  _ ← set_fabric (λ f, from_option fst f (grant f dom stack_obj 0 (pl_stack_size layout) Perm.RW));
  trap_extent ← alloc_trap_extent TRAP_SIZE;
  trap_obj ← on_fabric (λ f, alloc_object f "process_trap" TRAP_SIZE Memory);
  _ ← set_fabric (λ f, (place_object f trap_obj (ext_base trap_extent)).1);
  handler ← lift (asm_halt asm_new);
  _ ← on_fabric (λ f, initialize_object f trap_obj 0 (to_bytes handler));
  _ ← set_fabric (λ f, (seal_object f trap_obj).1);
  _ ← set_fabric (λ f, from_option fst f (grant f dom trap_obj 0 TRAP_SIZE Perm.RX));
  agent ← gets k_next_agent;
  next ← lift (add_u64 agent 1);
  _ ← modify (set_k_next_agent next);
  counter ← gets k_next_context_id;
  ctx ← lift (fresh_context_id counter);
  _ ← modify (set_k_next_context_id ctx.2);
  c ← lift (image_core ctx.1 agent dom desc layout initial_maps stack_obj trap_obj);
  admitted ← admit_image dom desc layout c;
  key ← spawn (default c admitted);
  _ ← with_process (slot_of key)
        (set_p_resources (Some (mkResources dom stack_obj trap_obj stack_extent trap_extent)));
  _ ← (if is_some admitted then mret tt else finish_process (slot_of key) ProtectionFault);
  mret key.

(** ** Creating a child *)
Record ImageAuthority := mkImageAuthority {
  ia_desc : ProcessImageDesc;
  ia_domain : DomainId;
  ia_code_parent : Capability64;
  (** offset, length and parent capability of the literals *)
  ia_literals : option (Z * Z * Capability64);
}.

(** The checks on the code image a process presents in R1..R3 *)
Definition image_authority (idx : nat) : kernelM (option ImageAuthority) :=
  code_vaddr ← arg idx 1; code_size ← arg idx 2; lit_start ← arg idx 3;
  '(code_obj, code_offset) ←~ resolve_address idx code_vaddr;
  f ← gets k_fabric;
  obj ←~ mret (fab_objects f !! code_obj);
  _ ←~ require (bool_decide (obj_state obj = Sealed));
  image_size ← lift (sub_u64 (obj_size obj) code_offset);
  let has_literals := negb (lit_start =? 0) in
  _ ←~ require (negb has_literals || (negb (lit_start <? code_size) && negb (image_size <=? lit_start)));
  p ← get_process idx;
  let domain := core_domain (p_core p) in
  code_parent ←~ mret (find_authorizing_cap f domain code_obj code_offset code_size Perm.RX);
  literals ←~ (if has_literals then
                 lit_offset ← lift (add_u64 code_offset lit_start);
                 lit_length ← lift (sub_u64 image_size lit_start);
                 cap ←~ mret (find_authorizing_cap f domain code_obj lit_offset lit_length Perm.READ);
                 mret (Some (Some (lit_offset, lit_length, cap)))
               else mret (Some None));
  mret (Some (mkImageAuthority (mkImageDesc code_obj code_offset code_size lit_start image_size 0)
                domain code_parent literals)).

(** A derivation into the new domain; failure destroys the domain. *)
Definition derive_or_destroy (dom : DomainId) (parent : Capability64) (offset length : Z) (perms : Permissions) :
    kernelM (option unit) :=
  f ← gets k_fabric;
  match derive f dom parent offset length perms with
  | Some (f, _) => _ ← set_fabric (λ _, f); mret (Some tt)
  | None => _ ← set_fabric (λ f, destroy_domain f dom); mret None
  end.

Definition derive_image (dom : DomainId) (a : ImageAuthority) : kernelM (option unit) :=
  _ ←~ derive_or_destroy dom (ia_code_parent a) (pid_code_offset (ia_desc a)) (pid_code_size (ia_desc a)) Perm.RX;
  match ia_literals a with
  | Some (offset, length, parent) => derive_or_destroy dom parent offset length Perm.READ
  | None => mret (Some tt)
  end.

(** The child process and its parent relation *)
Definition publish_child (idx : nat) (dom : DomainId) (a : ImageAuthority) (layout : ProcessLayout)
    (maps : list InitialMap) : kernelM (option ProcessKey) :=
  child_key ← prepare_process dom (ia_desc a) layout maps;
  parent_key ← key_of idx;
  _ ← with_process (slot_of child_key) (set_p_parent (Some parent_key));
  mret (Some child_key).

(** A failed creation replies [u64::MAX]. *)
Definition or_refuse (idx : nat) (m : kernelM (option ProcessKey)) : kernelM (option ProcessKey) :=
  r ← m;
  match r with
  | Some key => mret (Some key)
  | None => _ ← reply idx [(0, u64_max)]; mret None
  end.

Definition create_child (idx : nat) : kernelM (option ProcessKey) :=
  or_refuse idx
    (a ←~ image_authority idx;
     dom ← on_fabric create_domain;
     _ ←~ derive_image dom a;
     publish_child idx dom a EXEC_DEFAULT_LAYOUT []).

(** ** The initial environment of a child *)

(** [u64::from_le_bytes] of field [i] of a descriptor at [base] *)
Definition field (raw : list Z) (base i : Z) : kernelM Z :=
  b ← lift (vec_slice (base + 8 * i) (base + 8 * i + 8) raw); mret (le_value b).

Definition read_layout (idx : nat) (layout_addr : Z) : kernelM (option ProcessLayout) :=
  if layout_addr =? 0 then mret (Some EXEC_DEFAULT_LAYOUT)
  else
    raw ←~ read_virtual_bytes idx layout_addr SPAWN_LAYOUT_SIZE;
    code_vaddr ← field raw 0 0; stack_vaddr ← field raw 0 1; stack_size ← field raw 0 2;
    trap_vaddr ← field raw 0 3; reserved ← field raw 0 4;
    _ ←~ require (reserved =? 0);
    _ ←~ require (negb (stack_size <? MIN_STACK_SIZE) && negb (MAX_STACK_SIZE <? stack_size));
    _ ←~ require ((Z.land stack_vaddr 4095 =? 0) && (Z.land trap_vaddr 4095 =? 0));
    mret (Some (mkLayout code_vaddr stack_vaddr stack_size trap_vaddr)).

(** The object range a descriptor names through the parent's map *)
Definition descriptor_target (idx : nat) (parent_vaddr offset size : Z) : kernelM (option (ObjectId * Z)) :=
  '(obj, map_base) ←~ resolve_address idx parent_vaddr;
  target ←~ mret (checked_add map_base offset);
  vaddr ←~ mret (checked_add parent_vaddr offset);
  _ ←~ resolve_virtual_range idx vaddr size;
  mret (Some (obj, target)).

Definition read_grant (idx : nat) (raw : list Z) (i : nat) : kernelM (option InitialGrant) :=
  let base := Z.of_nat i * SPAWN_GRANT_SIZE in
  parent_vaddr ← field raw base 0; offset ← field raw base 1; size ← field raw base 2;
  perms_raw ← field raw base 3; reserved ← field raw base 4;
  _ ←~ require (reserved =? 0);
  perms ←~ mret (Perm.from_bits_checked perms_raw);
  _ ←~ require (negb (size =? 0));
  '(obj, target) ←~ descriptor_target idx parent_vaddr offset size;
  p ← get_process idx;
  f ← gets k_fabric;
  _ ←~ mret (find_authorizing_cap f (core_domain (p_core p)) obj target size perms);
  mret (Some (mkInitialGrant obj target size perms)).

Definition read_map (idx : nat) (raw : list Z) (i : nat) : kernelM (option InitialMap) :=
  let base := Z.of_nat i * SPAWN_MAP_SIZE in
  child_vaddr ← field raw base 0; parent_vaddr ← field raw base 1; offset ← field raw base 2;
  size ← field raw base 3; reserved ← field raw base 4;
  _ ←~ require (negb (negb (reserved =? 0) || (size =? 0)));
  '(obj, target) ←~ descriptor_target idx parent_vaddr offset size;
  mret (Some (mkInitialMap child_vaddr size obj target)).

Fixpoint collect {A B} (g : A → kernelM (option B)) (l : list A) : kernelM (option (list B)) :=
  match l with
  | [] => mret (Some [])
  | x :: l => y ←~ g x; ys ←~ collect g l; mret (Some (y :: ys))
  end.

Definition read_table (idx : nat) (addr count size : Z) : kernelM (option (list Z)) :=
  if 0 <? count then read_virtual_bytes idx addr (count * size) else mret (Some []).

(** The virtual ranges of the child, implicit ones first; [None] on overflow *)
Definition range_of (vaddr size : Z) : option (Z * Z) := e ← checked_add vaddr size; Some (vaddr, e).
Definition child_ranges (d : ProcessImageDesc) (layout : ProcessLayout) (lit_length : Z)
    (maps : list InitialMap) : option (list (Z * Z)) :=
  code ← range_of (pl_code_vaddr layout) (pid_code_size d);
  lits ← (if negb (pid_lit_start d =? 0) then
            lit_vaddr ← checked_add (pl_code_vaddr layout) (pid_lit_start d);
            r ← range_of lit_vaddr lit_length; Some [r]
          else Some []);
  stack ← range_of (pl_stack_vaddr layout) (pl_stack_size layout);
  trap ← range_of (pl_trap_vaddr layout) TRAP_SIZE;
  extra ← mapM (λ m, range_of (im_vaddr m) (im_size m)) maps;
  Some (code :: lits ++ stack :: trap :: extra).

(** [start + len] of an unchecked sum, only reached when the tests before it hold *)
Definition ends_within (m : InitialMap) (start len : Z) : outcome bool :=
  match checked_add (im_obj_offset m) (im_size m) with
  | Some e => limit ← add_u64 start len; Done (e <=? limit)
  | None => Done false
  end.
Definition grant_covers (m : InitialMap) (g : InitialGrant) : bool :=
  (ig_obj g =? im_obj m) && (ig_offset g <=? im_obj_offset m)
  && is_some_and (λ e, is_some_and (λ g_end, e <=? g_end) (checked_add (ig_offset g) (ig_size g)))
       (checked_add (im_obj_offset m) (im_size m)).
Definition code_covers (m : InitialMap) (d : ProcessImageDesc) : outcome bool :=
  if (im_obj m =? pid_code_obj d) && (pid_code_offset d <=? im_obj_offset m)
  then ends_within m (pid_code_offset d) (pid_code_size d) else Done false.
Definition literals_cover (m : InitialMap) (d : ProcessImageDesc) : outcome bool :=
  if negb (pid_lit_start d =? 0) && (im_obj m =? pid_code_obj d) then
    start ← add_u64 (pid_code_offset d) (pid_lit_start d);
    if start <=? im_obj_offset m then ends_within m (pid_code_offset d) (pid_image_size d) else Done false
  else Done false.

(** Every map is covered by a grant, the code or the literals. *)
Fixpoint maps_covered (d : ProcessImageDesc) (grants : list InitialGrant) (l : list InitialMap) : outcome bool :=
  match l with
  | [] => Done true
  | m :: l =>
      code ← code_covers m d;
      lit ← literals_cover m d;
      if existsb (grant_covers m) grants || code || lit then maps_covered d grants l else Done false
  end.

Fixpoint derive_grants (dom source : DomainId) (l : list InitialGrant) : kernelM (option unit) :=
  match l with
  | [] => mret (Some tt)
  | g :: l =>
      f ← gets k_fabric;
      parent ← lift (unwrap (find_authorizing_cap f source (ig_obj g) (ig_offset g) (ig_size g) (ig_perms g)));
      _ ←~ derive_or_destroy dom parent (ig_offset g) (ig_size g) (ig_perms g);
      derive_grants dom source l
  end.

Definition create_child_with_env (idx : nat) : kernelM (option ProcessKey) :=
  grant_table_addr ← arg idx 4; grant_count ← arg idx 5; map_table_addr ← arg idx 6;
  map_count ← arg idx 7; layout_addr ← arg idx 8;
  or_refuse idx
    (_ ←~ require (negb ((MAX_SPAWN_GRANTS <? grant_count) || (MAX_SPAWN_MAPS <? map_count)));
     raw_grants ←~ read_table idx grant_table_addr grant_count SPAWN_GRANT_SIZE;
     raw_maps ←~ read_table idx map_table_addr map_count SPAWN_MAP_SIZE;
     layout ←~ read_layout idx layout_addr;
     grants ←~ collect (read_grant idx raw_grants) (seq 0 (Z.to_nat grant_count));
     maps ←~ collect (read_map idx raw_maps) (seq 0 (Z.to_nat map_count));
     a ←~ image_authority idx;
     let lit_length := from_option (λ x, x.1.2) 0 (ia_literals a) in
     ranges ←~ mret (child_ranges (ia_desc a) layout lit_length maps);
     _ ←~ require (validate_no_map_overlap ranges);
     covered ← lift (maps_covered (ia_desc a) grants maps);
     _ ←~ require covered;
     dom ← on_fabric create_domain;
     _ ←~ derive_image dom a;
     _ ←~ derive_grants dom (ia_domain a) grants;
     publish_child idx dom a layout maps).
End images.

(** ** Error codes *)

(** The [?] of the functions returning [Result<_, u64>] *)
Definition kbind_result {A B} (m : kernelM (result Z A)) (k : A → kernelM (result Z B)) :
    kernelM (result Z B) :=
  r ← m; match r with Ok a => k a | Err e => mret (Err e) end.
Notation "x ←% m ; k" := (kbind_result m (λ x, k))
  (at level 20, m at level 100, k at level 200, only parsing) : stdpp_scope.
Notation "' p ←% m ; k" := (kbind_result m (λ x, let 'p := x in k))
  (at level 20, p pattern, m at level 100, k at level 200, only parsing) : stdpp_scope.

Definition some_or {A} (o : option A) (code : Z) : kernelM (result Z A) := mret (ok_or o code).
Definition check (b : bool) (code : Z) : kernelM (result Z unit) := mret (if b then Ok tt else Err code).

(** A capability handle decoded from two registers *)
Definition decode_handle (slot generation : Z) : option CapabilityHandle :=
  s ← try_u32 slot; g ← try_u32 generation; Some (mkCapHandle s g).
(** A process key decoded from two registers *)
Definition decode_key (slot generation : Z) : option ProcessKey :=
  s ← try_u32 slot; g ← try_u32 generation; Some (mkProcessKey s g).

Section calls.
Context `{Profile} `{Host}.

(** ** Lifecycle calls *)
Definition handle_exec (idx : nat) : kernelM unit :=
  r ← create_child idx;
  match r with
  | Some child => with_process idx (set_p_waiting_on (Some (mkWait child WaitExec None)))
  | None => mret tt
  end.

Definition handle_spawn (idx : nat) : kernelM unit :=
  grant_count ← arg idx 5; map_count ← arg idx 7; layout_addr ← arg idx 8;
  r ← (if (grant_count =? 0) && (map_count =? 0) && (layout_addr =? 0)
       then create_child idx else create_child_with_env idx);
  match r with
  | Some child => handle ← install_lifecycle idx child; reply idx [(0, handle)]
  | None => mret tt
  end.

(** The entry of slot [slot] is collected. *)
Definition collect_entry (idx slot : nat) : kernelM unit :=
  table ← get_lifecycle idx;
  e ← lift (vec_get slot table);
  set_lifecycle idx (<[slot := mkLifecycle (le_slot_generation e) (le_child e) true]> table).

Definition handle_wait (idx : nat) : kernelM unit :=
  raw_handle ← arg idx 1;
  tables ← gets k_lifecycle_tables;
  procs ← gets k_processes;
  let invalid := reply idx [(0, encode_wait_invalid.1); (1, encode_wait_invalid.2)] in
  match resolve_lifecycle tables idx raw_handle with
  | None => invalid
  | Some (slot, entry) =>
      match validate_process_key procs (le_child entry) with
      | None => invalid
      | Some child =>
          p ← get_process child;
          if bool_decide (p_state p = ProcZombie) then
            result ← lift (unwrap (p_result p));
            let r := encode_wait_result result in
            _ ← collect_entry idx slot;
            _ ← put_results idx [(0, r.1); (1, r.2)];
            _ ← reclaim_process child;
            resume_from_trap idx
          else with_process idx
                 (set_p_waiting_on (Some (mkWait (le_child entry) WaitLifecycle (Some slot))))
      end
  end.

(** ** Capability calls *)
Definition handle_cap_drop (idx : nat) : kernelM unit :=
  r1 ← arg idx 1; r2 ← arg idx 2;
  let fail := reply idx [(0, 1)] in
  match decode_handle r1 r2 with
  | None => fail
  | Some handle =>
      p ← get_process idx;
      f ← gets k_fabric;
      let domain := core_domain (p_core p) in
      match (ct ← p_cap_table p; preflight_drop ct handle) with
      | None => fail
      | Some auth_id =>
          if negb (has_authority_id f domain auth_id) then fail
          else
            ct ← lift (unwrap (p_cap_table p));
            dropped ← lift (unwrap (drop_handle ct handle));
            let '(removed_aid, ct) := dropped in
            _ ← set_cap_table idx ct;
            _ ← lift (debug_assert (removed_aid =? auth_id));
            let '(f, removed) := remove_by_authority_id f domain removed_aid in
            _ ← set_fabric (λ _, f);
            _ ← lift (debug_assert removed);
            reply idx [(0, 0)]
      end
  end.

Inductive PreparedTransfer :=
| TransferMemory (child_offset child_length : Z) (child_perms : Permissions)
| TransferDevice (child_rights : DeviceRights) (presented_object : ObjectId)
    (presented_generation : Generation) (presented_rights : DeviceRights).

(** Gate 2b: R5..R7 are read as the kind of the source says. *)
Definition prepare_transfer (source : ResolvedCapability) (r5 r6 r7 : Z) : result Z PreparedTransfer :=
  match source with
  | ResolvedMemory _ _ parent_offset parent_length parent_perms _ _ =>
      match Perm.from_bits_checked r7 with
      | None => Err 1
      | Some child_perms =>
          if r6 =? 0 then Err 4
          else if negb (Perm.is_subset_of child_perms parent_perms) then Err 4
          else if r5 <? parent_offset then Err 4
          else if parent_length <? r6 then Err 4
          else if parent_length - r6 <? r5 - parent_offset then Err 4
          else Ok (TransferMemory r5 r6 child_perms)
      end
  | ResolvedDevice object generation rights _ _ =>
      if negb (r5 =? 0) then Err 4
      else if negb (r6 =? 0) then Err 4
      else match DevRights.from_bits_checked r7 with
           | None => Err 1
           | Some child_rights =>
               if negb (DevRights.is_subset_of child_rights rights) then Err 4
               else Ok (TransferDevice child_rights object generation rights)
           end
  end.

(** The derivation of the child authority and the installation of its handle *)
Definition commit_transfer (src_domain : DomainId) (source : AuthorityId) (dest : nat) (dst_domain : DomainId)
    (t : PreparedTransfer) (aid : AuthorityId) (tid : DelegationId) : kernelM (result Z CapabilityHandle) :=
  f ← gets k_fabric;
  match t with
  | TransferMemory offset length perms =>
      match derive_from_authority_id f src_domain source dst_domain offset length perms aid with
      | None => mret (Err 8)
      | Some (f, cap) =>
          _ ← set_fabric (λ _, f);
          h ← install_or_rollback dest dst_domain aid (λ ct,
                install_memory ct (cap_object cap) (cap_generation cap) offset length perms aid (Some tid));
          some_or h 8
      end
  | TransferDevice rights object generation presented =>
      match derive_device_from_authority_id f src_domain source object generation presented dst_domain rights aid with
      | None => mret (Err 8)
      | Some (f, (obj, obj_gen, derived)) =>
          _ ← set_fabric (λ _, f);
          h ← install_or_rollback dest dst_domain aid (λ ct,
                install_device ct obj obj_gen derived aid (Some tid));
          some_or h 8
      end
  end.

Definition allocate_authority : kernelM (result Z AuthorityId) :=
  f ← gets k_fabric;
  match alloc_authority_id f with
  | Some (f, id) => _ ← set_fabric (λ _, f); mret (Ok id)
  | None => mret (Err 8)
  end.

Definition send_cap (idx : nat) : kernelM (result Z unit) :=
  r1 ← arg idx 1; r2 ← arg idx 2; r3 ← arg idx 3; r4 ← arg idx 4;
  r5 ← arg idx 5; r6 ← arg idx 6; r7 ← arg idx 7; value ← arg idx 8;
  dest_key ←% some_or (decode_key r1 r2) 1;
  src_handle ←% some_or (decode_handle r3 r4) 1;
  procs ← gets k_processes;
  dest ←% some_or (validate_message_destination procs dest_key) 2;
  resolved ← resolve_capability idx src_handle;
  resolved ←% some_or resolved 3;
  prepared ←% mret (prepare_transfer resolved r5 r6 r7);
  d ← get_process dest;
  _ ←% check (negb (allocatable d =? 0)) 5;
  sender ← key_of idx;
  route ← message_route dest sender;
  _ ←% check (negb (bool_decide (route = RouteFull))) 6;
  f ← gets k_fabric;
  can ← gets can_alloc_delegation_id;
  _ ←% check (can_alloc_authority_id f && can) 7;
  aid ←% allocate_authority;
  tid ← alloc_delegation_id sender dest_key;
  tid ←% some_or tid 8;
  p ← get_process idx;
  handle ←% commit_transfer (core_domain (p_core p)) (resolved_authority_id resolved) dest
              (core_domain (p_core d)) prepared aid tid;
  _ ← deliver_message dest (mkMessage sender value (Some handle)) route;
  mret (Ok tt).

Definition handle_send_cap (idx : nat) : kernelM unit :=
  r ← send_cap idx;
  match r with Ok _ => reply idx [(0, 0)] | Err code => reply idx [(0, code)] end.

(** ** Messages *)
Definition handle_send (idx : nat) : kernelM unit :=
  dest_pid ← arg idx 1; value ← arg idx 2;
  from ← key_of idx;
  procs ← gets k_processes;
  match resolve_pid procs dest_pid with
  | Some dest =>
      route ← message_route dest from;
      if bool_decide (route = RouteFull) then reply idx [(0, u64_max)]
      else _ ← deliver_message dest (mkMessage from value None) route; reply idx [(0, 0)]
  | None => reply idx [(0, u64_max)]
  end.

Definition handle_send_key (idx : nat) : kernelM unit :=
  r1 ← arg idx 1; r2 ← arg idx 2; value ← arg idx 3;
  match decode_key r1 r2 with
  | None => reply idx [(0, 1)]
  | Some dest_key =>
      procs ← gets k_processes;
      match validate_message_destination procs dest_key with
      | None => reply idx [(0, 1)]
      | Some dest =>
          from ← key_of idx;
          route ← message_route dest from;
          if bool_decide (route = RouteFull) then reply idx [(0, 2)]
          else _ ← deliver_message dest (mkMessage from value None) route; reply idx [(0, 0)]
      end
  end.

Definition handle_recv (idx : nat) : kernelM unit :=
  box ← get_mailbox idx;
  match last box with
  | Some m => _ ← set_mailbox idx (take (pred (length box)) box); reply idx (message_results m)
  | None => reply idx [(0, 0); (1, 0); (2, u32_max); (3, 0); (4, 0); (5, 0)]
  end.

(** [rposition]: the last index satisfying the predicate *)
Fixpoint rposition {A} (p : A → bool) (l : list A) : option nat :=
  match l with
  | [] => None
  | x :: l => match rposition p l with Some i => Some (S i) | None => if p x then Some 0%nat else None end
  end.

Definition handle_recv_wait (idx : nat) : kernelM unit :=
  r1 ← arg idx 1; r2 ← arg idx 2;
  let error := complete_recv_wait idx RecvError in
  match decode_key r1 r2 with
  | None => error
  | Some peer =>
      box ← get_mailbox idx;
      match rposition (λ m, same_key (msg_from m) peer) box with
      | Some pos =>
          m ← lift (vec_get pos box);
          _ ← set_mailbox idx (delete pos box);
          complete_recv_wait idx (RecvMessage m)
      | None =>
          procs ← gets k_processes;
          match procs !! slot_of peer with
          | None => error
          | Some q =>
              if negb (p_generation q =? pk_generation peer) then error
              else
                let block := with_process idx (set_p_recv_wait (Some peer)) in
                match p_state q with
                | ProcRunning => block
                | ProcZombie =>
                    caller ← key_of idx;
                    devices ← gets k_devices;
                    if (0 <? registry_pair_count devices caller peer)%nat then block
                    else complete_recv_wait idx (RecvPeerDied peer)
                | ProcFree | ProcRetired => error
                end
          end
      end
  end.

(** ** Device calls *)
Definition requester_of (idx : nat) (p : Process) : RequesterKey :=
  mkRequester (wrap32 (Z.of_nat idx)) (p_generation p).

Definition begin_io_wait (idx : nat) (device : DeviceBinding) (handle : RequestHandle) : kernelM unit :=
  with_process idx (set_p_io_wait (Some (mkRequestKey device handle))).

(** [submit] on the controller a binding routes to; [None] when it is not a block controller. *)
Definition submit_block (binding : DeviceBinding) (request : BlockRequest) : kernelM (option SubmitResult) :=
  devices ← gets k_devices;
  i ← lift (unwrap (lookup_index devices binding));
  d ← lift (vec_get i devices);
  match ds_controller d with
  | DevNic _ => mret None
  | DevBlock c =>
      f ← gets k_fabric;
      x ← lift (block_submit c request f);
      _ ← set_fabric (λ _, x.1.2);
      _ ← set_controller i (DevBlock x.1.1);
      mret (Some x.2)
  end.

Definition handle_block_read (idx : nat) : kernelM unit :=
  block_number ← arg idx 1; buf_vaddr ← arg idx 2;
  let fail := reply idx [(0, u64_max)] in
  legacy ← gets k_legacy_block_device;
  match legacy with
  | None => fail
  | Some binding =>
      p ← get_process idx;
      if is_some (p_io_wait p) then fail
      else
        devices ← gets k_devices;
        match lookup_device devices binding with
        | None => fail
        | Some d =>
            match ds_controller d with
            | DevNic _ => fail
            | DevBlock c =>
                r ← resolve_virtual_range idx buf_vaddr (bs_block_size (bc_storage c));
                match r with
                | None => fail
                | Some (object, offset) =>
                    r ← submit_block binding (mkBlockRequest block_number (requester_of idx p) object
                          offset (core_domain (p_core p)) None None);
                    r ← lift (unwrap r);
                    match r with
                    | Accepted handle => begin_io_wait idx binding handle
                    | DeviceBusy | InvalidBlock | DelegationFailed => fail
                    end
                end
            end
        end
  end.

(** The gates the device calls share: a device handle with a right, and a buffer handle *)
Record DeviceAuthority := mkDeviceAuthority { da_binding : DeviceBinding; da_domain : DomainId }.
Record BufferAuthority := mkBuffer {
  bu_object : ObjectId;
  bu_offset : Z;
  bu_length : Z;
  bu_authority : AuthorityId;
  bu_delegation : option DelegationId;
}.

Definition device_gate (idx : nat) (handle : CapabilityHandle) (right : DeviceRights)
    (stale : Z) : kernelM (result Z DeviceAuthority) :=
  resolved ← resolve_capability idx handle;
  resolved ←% some_or resolved stale;
  match resolved with
  | ResolvedMemory _ _ _ _ _ _ _ => mret (Err stale)
  | ResolvedDevice object generation rights authority _ =>
      p ← get_process idx;
      f ← gets k_fabric;
      let domain := core_domain (p_core p) in
      _ ←% check (validate_device_authority f domain authority object generation rights right) 4;
      mret (Ok (mkDeviceAuthority (mkBinding object generation) domain))
  end.

Definition buffer_gate (idx : nat) (handle : CapabilityHandle) (right : Permissions) :
    kernelM (result Z BufferAuthority) :=
  resolved ← resolve_capability idx handle;
  resolved ←% some_or resolved 6;
  match resolved with
  | ResolvedDevice _ _ _ _ _ => mret (Err 6)
  | ResolvedMemory object _ offset length perms authority delegation =>
      _ ←% check (Perm.contains perms right) 7;
      current ← key_of idx;
      _ ←% check (is_none_or (λ t, bool_decide (del_driver t = current)) delegation) 8;
      mret (Ok (mkBuffer object offset length authority delegation))
  end.

(** The two handles of a device call, decoded before anything else *)
Definition decode_handles (d1 d2 b1 b2 : Z) : option (CapabilityHandle * CapabilityHandle) :=
  d ← decode_handle d1 d2; b ← decode_handle b1 b2; Some (d, b).

Definition preflight_dev_submit (idx : nat) : kernelM (result Z (DeviceBinding * BlockRequest)) :=
  r1 ← arg idx 1; r2 ← arg idx 2; block_number ← arg idx 3; r4 ← arg idx 4; r5 ← arg idx 5;
  '(dev_handle, buf_handle) ←% some_or (decode_handles r1 r2 r4 r5) 1;
  dev ←% device_gate idx dev_handle DevRights.SUBMIT_READ 3;
  devices ← gets k_devices;
  _ ←% check (is_some (lookup_device devices (da_binding dev))) 5;
  buf ←% buffer_gate idx buf_handle Perm.WRITE;
  p ← get_process idx;
  mret (Ok (da_binding dev, mkBlockRequest block_number (requester_of idx p) (bu_object buf)
    (bu_offset buf) (da_domain dev) (Some (bu_authority buf)) (bu_delegation buf))).

Definition fail_dev_submit (idx : nat) (code : Z) : kernelM unit := reply idx [(0, code)].

Definition handle_dev_submit (idx : nat) : kernelM unit :=
  p ← get_process idx;
  if is_some (p_io_wait p) then fail_dev_submit idx 2
  else
    r ← preflight_dev_submit idx;
    match r with
    | Err code => fail_dev_submit idx code
    | Ok (binding, request) =>
        r ← submit_block binding request;
        match r with
        | None => fail_dev_submit idx 5
        | Some (Accepted handle) => begin_io_wait idx binding handle
        | Some _ => fail_dev_submit idx 9
        end
    end.

Definition handle_dev_submit_async (idx : nat) : kernelM unit :=
  p ← get_process idx;
  if is_some (p_io_wait p) then fail_dev_submit idx 2
  else
    r ← preflight_dev_submit idx;
    match r with
    | Err code => fail_dev_submit idx code
    | Ok (binding, request) =>
        if (MAX_ASYNC_REQUESTS <=? length (p_async_requests p))%nat then fail_dev_submit idx 10
        else
          devices ← gets k_devices;
          d ← lift (unwrap (lookup_device devices binding));
          match ds_controller d with
          | DevNic _ => fail_dev_submit idx 5
          | DevBlock c =>
              if (block_free_slot_count c =? 0)%nat then fail_dev_submit idx 9
              else
                r ← submit_block binding request;
                match r with
                | None => fail_dev_submit idx 5
                | Some (Accepted handle) =>
                    _ ← with_process idx (λ p, set_p_async_requests
                          (p_async_requests p ++ [mkAsync (mkRequestKey binding handle) None]) p);
                    reply idx [(0, 0); (1, rh_slot handle); (2, rh_generation handle);
                               (3, bind_object binding); (4, bind_generation binding)]
                | Some _ => fail_dev_submit idx 9
                end
          end
    end.

Definition status_code (s : DeviceCompletionStatus) : Z :=
  match s with Success => 0 | DmaFault _ => u64_max end.

Definition handle_dev_wait (idx : nat) : kernelM unit :=
  r1 ← arg idx 1; r2 ← arg idx 2; r3 ← arg idx 3; r4 ← arg idx 4;
  match try_u8 r1 with
  | None => reply idx [(0, 1)]
  | Some slot =>
      let key := mkRequestKey (mkBinding r3 r4) (mkHandle slot r2) in
      p ← get_process idx;
      if is_some (p_io_wait p) then reply idx [(0, 2)]
      else match position (λ r, bool_decide (ar_key r = key)) (p_async_requests p) with
           | None => reply idx [(0, 1)]
           | Some i =>
               entry ← lift (vec_get i (p_async_requests p));
               match ar_completion entry with
               | Some status =>
                   _ ← put_results idx [(0, status_code status)];
                   _ ← with_process idx (λ p, set_p_async_requests (delete i (p_async_requests p)) p);
                   resume_from_trap idx
               | None => with_process idx (set_p_io_wait (Some key))
               end
           end
  end.

Definition event_wait (idx : nat) : kernelM (result Z (option (list (Z * Z)))) :=
  r1 ← arg idx 1; r2 ← arg idx 2; observed ← arg idx 3;
  handle ←% some_or (decode_handle r1 r2) 1;
  dev ←% device_gate idx handle DevRights.EVENT_WAIT 1;
  devices ← gets k_devices;
  d ←% some_or (lookup_device devices (da_binding dev)) 1;
  let current := dev_event_sequence (ds_controller d) in
  if negb (current =? observed) then mret (Ok (Some [(0, 0); (1, current)]))
  else _ ← with_process idx (set_p_event_wait (Some (mkEventWait (da_binding dev) observed)));
       mret (Ok None).

Definition handle_dev_event_wait (idx : nat) : kernelM unit :=
  r ← event_wait idx;
  match r with
  | Err code => reply idx [(0, code)]
  | Ok (Some results) => reply idx results
  | Ok None => mret tt
  end.

(** The gates of the two network calls up to the buffer *)
Definition nic_gates (idx : nat) (right : DeviceRights) (access : Permissions) :
    kernelM (result Z (DeviceAuthority * NicController * BufferAuthority)) :=
  r1 ← arg idx 1; r2 ← arg idx 2; r3 ← arg idx 3; r4 ← arg idx 4;
  '(dev_handle, buf_handle) ←% some_or (decode_handles r1 r2 r3 r4) 1;
  dev ←% device_gate idx dev_handle right 3;
  devices ← gets k_devices;
  nic ←% some_or (d ← lookup_device devices (da_binding dev); as_nic (ds_controller d)) 5;
  buf ←% buffer_gate idx buf_handle access;
  mret (Ok (dev, nic, buf)).

Definition preflight_nic_rx (idx : nat) : kernelM (result Z (DeviceBinding * NicRxRequest)) :=
  '(dev, nic, buf) ←% nic_gates idx DevRights.NIC_RX Perm.WRITE;
  frame ←% some_or (head (nc_rx_queue nic)) 9;
  _ ←% check (zlen frame <=? bu_length buf) 10;
  _ ←% check (negb (nic_free_slot_count nic =? 0)%nat) 11;
  p ← get_process idx;
  mret (Ok (da_binding dev, mkRxRequest (requester_of idx p) (bu_object buf) (bu_offset buf)
    (da_domain dev) (bu_authority buf) (bu_delegation buf))).

Definition preflight_nic_tx (idx : nat) : kernelM (result Z (DeviceBinding * NicTxRequest)) :=
  frame_len ← arg idx 5;
  '(dev, nic, buf) ←% nic_gates idx DevRights.NIC_TX Perm.READ;
  _ ←% check (negb ((frame_len =? 0) || (NIC_MAX_FRAME_SIZE <? frame_len))) 9;
  _ ←% check (negb ((bu_length buf <? frame_len) || negb (is_some (checked_add (bu_offset buf) frame_len)))) 10;
  _ ←% check (negb (nic_free_slot_count nic =? 0)%nat) 11;
  p ← get_process idx;
  mret (Ok (da_binding dev, mkTxRequest (requester_of idx p) (bu_object buf) (bu_offset buf)
    (da_domain dev) (bu_authority buf) frame_len (bu_delegation buf))).

(** A submission to the network controller a binding routes to *)
Definition submit_nic {R} (binding : DeviceBinding)
    (submit : NicController → Fabric → outcome (NicController * Fabric * R)) : kernelM R :=
  devices ← gets k_devices;
  i ← lift (unwrap (lookup_index devices binding));
  d ← lift (vec_get i devices);
  nic ← lift (unwrap (as_nic (ds_controller d)));
  f ← gets k_fabric;
  x ← lift (submit nic f);
  _ ← set_fabric (λ _, x.1.2);
  _ ← set_controller i (DevNic x.1.1);
  mret x.2.

Definition fail_nic (idx : nat) (code : Z) : kernelM unit := reply idx [(0, code); (1, 0)].

Definition handle_nic_rx (idx : nat) : kernelM unit :=
  p ← get_process idx;
  if is_some (p_io_wait p) then fail_nic idx 2
  else
    r ← preflight_nic_rx idx;
    match r with
    | Err code => fail_nic idx code
    | Ok (binding, request) =>
        r ← submit_nic binding (λ nic f, submit_rx nic request f);
        match r with
        | RxAccepted handle => begin_io_wait idx binding handle
        | RxNoPacket => fail_nic idx 9
        | RxDeviceBusy => fail_nic idx 11
        | RxDelegationFailed => fail_nic idx 12
        end
    end.

Definition handle_nic_tx (idx : nat) : kernelM unit :=
  p ← get_process idx;
  if is_some (p_io_wait p) then fail_nic idx 2
  else
    r ← preflight_nic_tx idx;
    match r with
    | Err code => fail_nic idx code
    | Ok (binding, request) =>
        r ← submit_nic binding (λ nic f, submit_tx nic request f);
        match r with
        | TxAccepted handle => begin_io_wait idx binding handle
        | TxDeviceBusy => fail_nic idx 11
        | TxDelegationFailed => fail_nic idx 12
        end
    end.

(** ** Dispatch *)
Definition protected_syscall (idx : nat) (words_ : list Z) (kinds : list (option ScopedPointer)) : kernelM unit :=
  let number := words_ !!! 0%nat in
  if (number =? 0) && negb (is_some (kinds !!! 0%nat)) then finish_process idx (Exited (words_ !!! 1%nat))
  else if number =? 1 then handle_protected_buffer_write idx words_ kinds
  else if (number =? 23) || (number =? 24) then reply idx [(0, u64_max)]
  else if number =? 20 then handle_protected_buffer_read idx words_ kinds
  else if number =? 21 then handle_malloc idx words_ kinds
  else if number =? 22 then handle_free idx words_ kinds
  else finish_process idx ProtectionFault.

Definition plain_syscall (idx : nat) : kernelM unit :=
  number ← arg idx 0;
  match number with
  | 0 => code ← arg idx 1; finish_process idx (Exited code)
  | 1 => handle_buffer_write idx
  | 2 => reply idx [(0, 0)]
  | 3 => handle_send idx
  | 4 => handle_recv idx
  | 5 => handle_seal idx
  | 6 => handle_exec idx
  | 7 => handle_spawn idx
  | 8 => handle_wait idx
  | 9 => handle_block_read idx
  | 10 => handle_cap_drop idx
  | 11 => handle_send_cap idx
  | 12 => handle_send_key idx
  | 13 => handle_dev_submit idx
  | 14 => handle_recv_wait idx
  | 15 => handle_dev_submit_async idx
  | 16 => handle_dev_wait idx
  | 17 => handle_dev_event_wait idx
  | 18 => handle_nic_rx idx
  | 19 => handle_nic_tx idx
  | _ => finish_process idx ProtectionFault
  end.

Definition handle_syscall (idx : nat) : kernelM unit :=
  p ← get_process idx;
  if protected_application (p_core p) then
    match protected_syscall_image (p_core p) with
    | None => finish_process idx ProtectionFault
    | Some (words_, kinds) => protected_syscall idx words_ kinds
    end
  else plain_syscall idx.
End calls.
