(* ===== verification/Scheduler.v ===== *)
(** * The scheduler of [src/anka64/os.rs]

    Device ticks, completion routing, the re-evaluation of blocked processes, one
    quantum of a process, the rounds of [run], and the boot contract. *)

From S2P Require Import Prelude State CapTable Extents Registry PointerFrames HeapLedger.
From S2P Require Import Fabric FabricCells FabricHeap Block Nic Desc Isa Core Kernel Syscalls.

(** [Kernel::new]; [context] is the value of the program-wide context counter. *)
Definition kernel_new (f : Fabric) (context : Z) : Kernel :=
  mkKernel f [] [] [] 0 ∅ (Some 1) 1048576 100 0 false [] [] [] [] None 0 context.

Inductive HaltDisposition :=
| UserExit (code : Z) | HaltSyscall | HaltTimer | HaltDevice | HaltSupervisorFault.
#[export] Instance HaltDisposition_eq_dec : EqDecision HaltDisposition.
Proof. solve_decision. Defined.

Definition classify_halt (c : Anka64Core) : HaltDisposition :=
  if bool_decide (core_privilege c = Supervisor) && (core_pc c =? core_trap_vector c) then
    match option_map ev_cause (head (core_event_frames c)) with
    | Some Syscall => HaltSyscall
    | Some TimerInterrupt => HaltTimer
    | Some DeviceInterrupt => HaltDevice
    | None => HaltSupervisorFault
    end
  else if bool_decide (core_privilege c = Supervisor) then HaltSupervisorFault
  else UserExit (reg c 0).

Section scheduler.
Context `{Profile} `{Host}.

(** ** Devices *)
Definition device_at (i : nat) : kernelM DeviceSlot := asks (λ k, vec_get i (k_devices k)).

Definition tick_controller (i : nat) : kernelM unit :=
  d ← device_at i;
  c ← on_fabric (λ f, x ← dev_tick (ds_controller d) f; Done (x.2, x.1));
  set_controller i c.
Definition tick_controllers : kernelM unit :=
  n ← gets (λ k, length (k_devices k));
  for_ (seq 0 n) tick_controller.

Definition tick_timer : kernelM bool :=
  f ← gets k_fabric;
  match fab_timer f with
  | Some t => let '(t, fired) := tick t in
              _ ← set_fabric (set_fab_timer (Some t)); mret fired
  | None => mret false
  end.

Definition tick_devices (idx : nat) : kernelM unit :=
  timer_fired ← tick_timer;
  _ ← (if timer_fired : bool then with_core idx (λ c, Done (post_timer_interrupt c)) else mret tt);
  _ ← tick_controllers;
  devices ← gets k_devices;
  if existsb (λ d, dev_requires_attention (ds_controller d)) devices
  then with_core idx (λ c, Done (post_device_interrupt c)) else mret tt.

(** ** Completion routing *)

Definition io_wait_matches (key : DeviceRequestKey) (p : Process) : bool :=
  is_some_and (λ w, bool_decide (w = key)) (p_io_wait p).
Definition async_matches (key : DeviceRequestKey) (r : AsyncDeviceRequest) : bool :=
  bool_decide (ar_key r = key).

(** The ledger entry of [key], consumed when there is one *)
Definition consume_async (key : DeviceRequestKey) (p : Process) : Process :=
  match position (async_matches key) (p_async_requests p) with
  | Some i => set_p_async_requests (delete i (p_async_requests p)) p
  | None => p
  end.

(** A completion addressed to the live incarnation [slot] *)
Definition complete_request (slot : nat) (key : DeviceRequestKey) (c : DeviceCompletion) : kernelM unit :=
  p ← get_process slot;
  if io_wait_matches key p then
    _ ← with_process slot (consume_async key);
    _ ← put_results slot ([(0, status_code (comp_status c))]
          ++ match comp_secondary c with Some v => [(1, v)] | None => [] end);
    _ ← with_process slot (set_p_io_wait None);
    resume_from_trap slot
  else with_process slot (λ p, set_p_async_requests
         (update_first (async_matches key) (λ r, mkAsync (ar_key r) (Some (comp_status c)))
            (p_async_requests p)) p).

Definition route_completion (binding : DeviceBinding) (c : DeviceCompletion) : kernelM unit :=
  let key := mkRequestKey binding (comp_handle c) in
  let slot := Z.to_nat (rk_slot (comp_requester c)) in
  procs ← gets k_processes;
  match procs !! slot with
  | None => mret tt
  | Some p =>
      if negb (p_generation p =? rk_generation (comp_requester c)) then mret tt
      else if negb (bool_decide (p_state p = ProcRunning)) then mret tt
      else complete_request slot key c
  end.

(** The loop on one controller; each round consumes one completion, and running out
    of [fuel] is a panic. *)
Fixpoint drain_device (fuel : nat) (i : nat) : kernelM unit :=
  match fuel with
  | O => lift Panic
  | S fuel =>
      d ← device_at i;
      if (0 <? dev_completion_count (ds_controller d))%nat then
        x ← lift (dev_consume_completion (ds_controller d));
        _ ← set_controller i x.1;
        match x.2 with
        | Some c => _ ← route_completion (ds_binding d) c; drain_device fuel i
        | None => mret tt
        end
      else mret tt
  end.
Definition drain_controller (i : nat) : kernelM unit :=
  d ← device_at i; drain_device (S (dev_completion_count (ds_controller d))) i.
Definition drain_completions : kernelM unit :=
  n ← gets (λ k, length (k_devices k));
  for_ (seq 0 n) drain_controller.

(** ** Blocked processes *)
Definition peer_dead (procs : list Process) (peer : ProcessKey) : bool :=
  match procs !! slot_of peer with
  | None => false
  | Some q => negb (p_generation q =? pk_generation peer)
              || bool_decide (p_state q = ProcZombie) || bool_decide (p_state q = ProcRetired)
  end.
Definition recv_done (k : Kernel) (i : nat) (p : Process) : option (nat * ProcessKey) :=
  if negb (bool_decide (p_state p = ProcRunning)) then None
  else
    peer ← p_recv_wait p;
    if negb (peer_dead (k_processes k) peer) then None
    else if (registry_pair_count (k_devices k) (process_key i (p_generation p)) peer =? 0)%nat
         then Some (i, peer) else None.
Definition reevaluate_recv_waits : kernelM unit :=
  to_complete ← gets (λ k, omap (λ x, x) (imap (recv_done k) (k_processes k)));
  for_ to_complete (λ x, complete_recv_wait x.1 (RecvPeerDied x.2)).

Definition event_done (k : Kernel) (i : nat) (p : Process) : option (nat * Z) :=
  if negb (bool_decide (p_state p = ProcRunning)) then None
  else
    ew ← p_event_wait p;
    d ← lookup_device (k_devices k) (dew_device ew);
    let current := dev_event_sequence (ds_controller d) in
    if negb (current =? dew_observed_sequence ew) then Some (i, current) else None.
Definition reevaluate_event_waits : kernelM unit :=
  to_wake ← gets (λ k, omap (λ x, x) (imap (event_done k) (k_processes k)));
  for_ to_wake (λ x,
    _ ← with_process x.1 (set_p_event_wait None);
    reply x.1 [(0, 0); (1, x.2)]).

(** The zombies: slot, generation and result *)
Fixpoint zombies (i : nat) (l : list Process) : outcome (list (nat * Z * ProcessResult)) :=
  match l with
  | [] => Done []
  | p :: l =>
      if bool_decide (p_state p = ProcZombie) then
        r ← unwrap (p_result p);
        rest ← zombies (S i) l;
        Done ((i, p_generation p, r) :: rest)
      else zombies (S i) l
  end.

Definition waits_for (slot : nat) (generation : Z) (p : Process) : bool :=
  is_some_and (λ ws, (pk_slot (ws_child ws) =? Z.of_nat slot)
                     && (pk_generation (ws_child ws) =? generation)) (p_waiting_on p).

Definition wait_results (kind : WaitKind) (r : ProcessResult) : list (Z * Z) :=
  match kind with
  | WaitExec => [(0, encode_exec_result r)]
  | WaitLifecycle => [(0, (encode_wait_result r).1); (1, (encode_wait_result r).2)]
  end.

Definition wake_parent (child : nat) (r : ProcessResult) (i : nat) : kernelM unit :=
  p ← get_process i;
  ws ← lift (unwrap (p_waiting_on p));
  _ ← set_process i (set_p_waiting_on None p);
  _ ← put_results i (wait_results (ws_kind ws) r);
  _ ← match ws_kind ws, ws_handle_slot ws with
      | WaitLifecycle, Some s => collect_entry i s
      | _, _ => mret tt
      end;
  _ ← reclaim_process child;
  resume_from_trap i.

Definition wake_waiters : kernelM unit :=
  completions ← asks (λ k, zombies 0 (k_processes k));
  for_ completions (λ '(child, generation, r),
    procs ← gets k_processes;
    match position (waits_for child generation) procs with
    | Some i => wake_parent child r i
    | None => mret tt
    end).

(** ** Interrupts *)
Definition acknowledge_devices : kernelM unit :=
  modify (λ k, set_k_devices (map (λ d,
    if dev_requires_attention (ds_controller d)
    then mkDeviceSlot (ds_binding d) (dev_acknowledge_attention (ds_controller d)) else d) (k_devices k)) k).

Definition handle_async_interrupt (idx : nat) : kernelM unit :=
  p ← get_process idx;
  let is_device := is_some_and (λ e, bool_decide (ev_cause e = DeviceInterrupt))
                     (head (core_event_frames (p_core p))) in
  _ ← (if is_device then
         _ ← drain_completions;
         _ ← reevaluate_recv_waits;
         _ ← reevaluate_event_waits;
         acknowledge_devices
       else mret tt);
  resume_from_trap idx.

Definition inject_nic_rx (binding : DeviceBinding) (frame : list Z) : kernelM bool :=
  devices ← gets k_devices;
  match lookup_index devices binding with
  | None => mret false
  | Some i =>
      d ← lift (vec_get i devices);
      match ds_controller d with
      | DevBlock _ => mret false
      | DevNic nic =>
          let '(nic, accepted) := inject_rx nic frame in
          if negb accepted then mret false
          else
            _ ← set_controller i (DevNic nic);
            _ ← reevaluate_event_waits;
            mret true
      end
  end.

(** ** Running *)
Definition step_core (idx : nat) : kernelM StepResult :=
  p ← get_process idx;
  x ← on_fabric (λ f, x ← step (p_core p) f; Done (x.1.2, (x.1.1, x.2)));
  _ ← set_process idx (set_p_core x.1 p);
  mret x.2.

Definition dispatch_halt (idx : nat) : kernelM unit :=
  p ← get_process idx;
  match classify_halt (p_core p) with
  | HaltSyscall => handle_syscall idx
  | HaltTimer | HaltDevice => handle_async_interrupt idx
  | HaltSupervisorFault => finish_process idx SupervisorFault
  | UserExit code => finish_process idx (Exited code)
  end.

Fixpoint run_process (idx : nat) (quantum : nat) : kernelM unit :=
  match quantum with
  | O => mret tt
  | S quantum =>
      p ← get_process idx;
      if exited p then mret tt
      else
        let '(c, delivered) := deliver_pending (p_core p) in
        _ ← set_process idx (set_p_core c p);
        if delivered then
          _ ← with_core idx (λ c, Done (set_core_halted true c));
          handle_async_interrupt idx
        else
          r ← step_core idx;
          match r with
          | Continue => _ ← tick_devices idx; run_process idx quantum
          | Halted => _ ← tick_devices idx; dispatch_halt idx
          | Fault _ => finish_process idx ProtectionFault
          end
  end.

Definition has_autonomous_io (k : Kernel) : bool :=
  existsb (λ d, dev_has_autonomous_work (ds_controller d)) (k_devices k).

Definition idle_progress_once : kernelM unit :=
  _ ← tick_controllers;
  _ ← drain_completions;
  _ ← reevaluate_recv_waits;
  reevaluate_event_waits.

Definition resolve_phase : kernelM unit :=
  _ ← drain_completions;
  _ ← reevaluate_recv_waits;
  _ ← reevaluate_event_waits;
  wake_waiters.

(** One turn of every schedulable process; tells whether one ran *)
Fixpoint run_phase (quantum : nat) (l : list nat) (ran : bool) : kernelM bool :=
  match l with
  | [] => mret ran
  | i :: l =>
      p ← get_process i;
      if exited p || negb (is_schedulable p) then run_phase quantum l ran
      else
        _ ← modify (set_k_current i);
        _ ← run_process i quantum;
        _ ← wake_waiters;
        run_phase quantum l true
  end.

(** One round of the scheduler: [true] to go on, [false] at the [break] *)
Definition round (quantum : nat) : kernelM bool :=
  _ ← resolve_phase;
  n ← gets (λ k, length (k_processes k));
  ran ← run_phase quantum (seq 0 n) false;
  if ran : bool then mret true
  else
    io ← gets has_autonomous_io;
    if io : bool then _ ← idle_progress_once; mret true else mret false.

Fixpoint run (quantum max_rounds : nat) : kernelM unit :=
  match max_rounds with
  | O => mret tt
  | S n => go ← round quantum; if go : bool then run quantum n else mret tt
  end.

(** ** Boot *)
Record BootImage := mkBootImage { bi_obj : ObjectId; bi_code_offset : Z; bi_code_size : Z; bi_entry : Z; bi_lit_start : Z }.
Record BootInfo := mkBootInfo {
  boot_image : BootImage;
  boot_grants : list InitialGrant;
  boot_maps : list InitialMap;
  boot_layout : ProcessLayout;
}.
Inductive BootError :=
| AlreadyBooted | ImageNotFound | ImageNotSealed | InvalidEntry | ZeroCode | InvalidLiterals
| GrantOverlapsImage | OverlappingMaps | GrantObjectNotFound | MapObjectNotFound
| GrantOutOfBounds | MapOutOfBounds.
#[export] Instance BootError_eq_dec : EqDecision BootError.
Proof. solve_decision. Defined.

(** The checks on the image: its size, or why it is refused *)
Definition boot_image_size (f : Fabric) (img : BootImage) : result BootError Z :=
  match fab_objects f !! bi_obj img with
  | None => Err ImageNotFound
  | Some obj =>
      if negb (bool_decide (obj_state obj = Sealed)) then Err ImageNotSealed
      else if bi_code_size img =? 0 then Err ZeroCode
      else if bi_code_size img <=? bi_entry img then Err InvalidEntry
      else if obj_size obj <? bi_code_offset img then Err InvalidEntry
      else
        let image_size := obj_size obj - bi_code_offset img in
        if image_size <? bi_code_size img then Err ZeroCode
        else if negb (bi_lit_start img =? 0)
                && ((bi_lit_start img <? bi_code_size img) || (image_size <=? bi_lit_start img))
        then Err InvalidLiterals
        else Ok image_size
  end.

Definition check_boot_grant (f : Fabric) (img : BootImage) (img_end : Z) (g : InitialGrant) :
    fallible BootError unit :=
  gobj ←? ok_or (fab_objects f !! ig_obj g) GrantObjectNotFound;
  if (obj_size gobj <? ig_size g) || (obj_size gobj - ig_size g <? ig_offset g) then err GrantOutOfBounds
  else if ig_obj g =? bi_obj img then
    g_end ← add_u64 (ig_offset g) (ig_size g);
    if (ig_offset g <? img_end) && (bi_code_offset img <? g_end) then err GrantOverlapsImage else ok tt
  else ok tt.

Definition unchecked_range (vaddr size : Z) : outcome (Z * Z) := e ← add_u64 vaddr size; Done (vaddr, e).

Fixpoint boot_map_ranges (f : Fabric) (l : list InitialMap) : fallible BootError (list (Z * Z)) :=
  match l with
  | [] => ok []
  | m :: l =>
      mobj ←? ok_or (fab_objects f !! im_obj m) MapObjectNotFound;
      if (obj_size mobj <? im_size m) || (obj_size mobj - im_size m <? im_obj_offset m) then err MapOutOfBounds
      else
        r ← unchecked_range (im_vaddr m) (im_size m);
        rs ←! boot_map_ranges f l;
        ok (r :: rs)
  end.

(** The validation of a boot descriptor: the image size, or why it is refused *)
Definition validate_boot (f : Fabric) (info : BootInfo) : fallible BootError Z :=
  let img := boot_image info in
  let layout := boot_layout info in
  image_size ←? boot_image_size f img;
  img_end ← add_u64 (bi_code_offset img) image_size;
  _ ←! for_each (check_boot_grant f img img_end) (boot_grants info);
  code ← unchecked_range (pl_code_vaddr layout) (bi_code_size img);
  lits ← (if negb (bi_lit_start img =? 0) then
            lit_vaddr ← add_u64 (pl_code_vaddr layout) (bi_lit_start img);
            r ← unchecked_range lit_vaddr (image_size - bi_lit_start img); Done [r]
          else Done []);
  stack ← unchecked_range (pl_stack_vaddr layout) (pl_stack_size layout);
  trap ← unchecked_range (pl_trap_vaddr layout) TRAP_SIZE;
  extra ←! boot_map_ranges f (boot_maps info);
  if negb (validate_no_map_overlap (code :: lits ++ stack :: trap :: extra)) then err OverlappingMaps
  else ok image_size.

Definition grant_or_destroy (dom object offset length : Z) (perms : Permissions) (e : BootError) :
    kernelM (result BootError unit) :=
  f ← gets k_fabric;
  match grant f dom object offset length perms with
  | Some (f, _) => _ ← set_fabric (λ _, f); mret (Ok tt)
  | None => _ ← set_fabric (λ f, destroy_domain f dom); mret (Err e)
  end.

Fixpoint grant_each (dom : DomainId) (l : list (ObjectId * Z * Z * Permissions * BootError)) :
    kernelM (result BootError unit) :=
  match l with
  | [] => mret (Ok tt)
  | (object, offset, length, perms, e) :: l =>
      r ← grant_or_destroy dom object offset length perms e;
      match r with Ok _ => grant_each dom l | Err e => mret (Err e) end
  end.

(** The grants of init: code, literals, then the additional ones *)
Definition boot_authority (info : BootInfo) (image_size : Z) :
    outcome (list (ObjectId * Z * Z * Permissions * BootError)) :=
  let img := boot_image info in
  lits ← (if negb (bi_lit_start img =? 0) then
            lit_offset ← add_u64 (bi_code_offset img) (bi_lit_start img);
            Done [(bi_obj img, lit_offset, image_size - bi_lit_start img, Perm.READ, ImageNotSealed)]
          else Done []);
  Done ((bi_obj img, bi_code_offset img, bi_code_size img, Perm.RX, ImageNotSealed) :: lits
        ++ map (λ g, (ig_obj g, ig_offset g, ig_size g, ig_perms g, GrantOutOfBounds)) (boot_grants info)).

Definition boot (info : BootInfo) : kernelM (result BootError unit) :=
  booted ← gets k_booted;
  if booted : bool then mret (Err AlreadyBooted)
  else
    f ← gets k_fabric;
    v ← lift (validate_boot f info);
    match v with
    | Err e => mret (Err e)
    | Ok image_size =>
        dom ← on_fabric create_domain;
        grants ← lift (boot_authority info image_size);
        r ← grant_each dom grants;
        match r with
        | Err e => mret (Err e)
        | Ok _ =>
            let img := boot_image info in
            _ ← prepare_process dom (mkImageDesc (bi_obj img) (bi_code_offset img) (bi_code_size img)
                  (bi_lit_start img) image_size (bi_entry img)) (boot_layout info) (boot_maps info);
            _ ← modify (set_k_booted true);
            mret (Ok tt)
        end
    end.
End scheduler.
