(* ===== verification/KernelLogic.v ===== *)
(** * A logic for the kernel monad

    [wp m Q k]: if [m] returns from [k], it returns a value and a kernel that
    satisfy [Q].  A panic of the source stops the machine, so nothing is asked of
    it.  The rules decompose an operation into its primitive steps; operations that
    only read the kernel are recognised by the class [ReadOnly]. *)

From S2P Require Import Prelude State CapTable Extents Registry PointerFrames HeapLedger.
From S2P Require Import Fabric FabricCells FabricHeap Block Nic Desc Isa Core Kernel Syscalls Scheduler.

Definition wp {A} (m : kernelM A) (Q : A → Kernel → Prop) (k : Kernel) : Prop :=
  match m k with Done (k', a) => Q a k' | Panic => True end.

(** ** Rules *)
Lemma wp_Done {A} (m : kernelM A) Q k k' a : wp m Q k → m k = Done (k', a) → Q a k'.
Proof. unfold wp. intros Hw Hm. by rewrite Hm in Hw. Qed.
Lemma wp_run {A} (m : kernelM A) (Q : A → Kernel → Prop) k :
  (∀ k' a, m k = Done (k', a) → Q a k') → wp m Q k.
Proof. unfold wp. destruct (m k) as [[k' a]|]; auto. Qed.
Lemma wp_mono {A} (m : kernelM A) (P Q : A → Kernel → Prop) k :
  wp m P k → (∀ a k', P a k' → Q a k') → wp m Q k.
Proof. unfold wp. destruct (m k) as [[k' a]|]; auto. Qed.
Lemma wp_bind {A B} (m : kernelM A) (g : A → kernelM B) Q k : wp m (λ a, wp (g a) Q) k → wp (m ≫= g) Q k.
Proof. unfold wp, mbind, kernelM_bind. by destruct (m k) as [[k' a]|]. Qed.
Lemma wp_ret {A} (a : A) (Q : A → Kernel → Prop) k : Q a k → wp (mret a) Q k.
Proof. done. Qed.
Lemma wp_gets {A} (g : Kernel → A) (Q : A → Kernel → Prop) k : Q (g k) k → wp (gets g) Q k.
Proof. done. Qed.
Lemma wp_modify g (Q : unit → Kernel → Prop) k : Q tt (g k) → wp (modify g) Q k.
Proof. done. Qed.
Lemma wp_lift {A} (m : outcome A) (Q : A → Kernel → Prop) k : (∀ a, m = Done a → Q a k) → wp (lift m) Q k.
Proof. unfold wp, lift. destruct m; auto. Qed.
Lemma wp_asks {A} (g : Kernel → outcome A) (Q : A → Kernel → Prop) k :
  (∀ a, g k = Done a → Q a k) → wp (asks g) Q k.
Proof. unfold wp, asks. destruct (g k); auto. Qed.
Lemma wp_on_fabric {A} (g : Fabric → outcome (Fabric * A)) (Q : A → Kernel → Prop) k :
  (∀ f a, g (k_fabric k) = Done (f, a) → Q a (set_k_fabric f k)) → wp (on_fabric g) Q k.
Proof. unfold wp, on_fabric. destruct (g _) as [[f a]|]; auto. Qed.
Lemma wp_option {A B} (m : kernelM (option A)) (g : A → kernelM (option B)) Q k :
  wp m (λ o k', match o with Some a => wp (g a) Q k' | None => Q None k' end) k → wp (kbind_option m g) Q k.
Proof. intros Hw. apply wp_bind. eapply wp_mono; [exact Hw|]. by intros [a|] k'. Qed.
Lemma wp_result {A B} (m : kernelM (result Z A)) (g : A → kernelM (result Z B)) Q k :
  wp m (λ r k', match r with Ok a => wp (g a) Q k' | Err e => Q (Err e) k' end) k → wp (kbind_result m g) Q k.
Proof. intros Hw. apply wp_bind. eapply wp_mono; [exact Hw|]. by intros [a|e] k'. Qed.

Lemma wp_require b (Q : option unit → Kernel → Prop) k :
  (b = true → Q (Some tt) k) → (b = false → Q None k) → wp (require b) Q k.
Proof. intros. destruct b; unfold wp, require; cbn; auto. Qed.
Lemma wp_check b c (Q : result Z unit → Kernel → Prop) k :
  (b = true → Q (Ok tt) k) → (b = false → Q (Err c) k) → wp (check b c) Q k.
Proof. intros. destruct b; unfold wp, check; cbn; auto. Qed.

(** A loop with an invariant on the elements still to come *)
Lemma wp_for {A} (l : list A) (g : A → kernelM unit) (I : list A → Kernel → Prop) k :
  (∀ x rest k, I (x :: rest) k → wp (g x) (λ _, I rest) k) → I l k → wp (for_ l g) (λ _, I []) k.
Proof.
  intros Hg. revert k. induction l as [|x l IH]; intros k Hi; [done|]. cbn [for_].
  apply wp_bind. eapply wp_mono; [by apply Hg|]. intros [] k' Hk. by apply IH.
Qed.

(** *** Total correctness: [m] returns, and then what [wp] says of it holds. *)
Definition returns {A} (m : kernelM A) (k : Kernel) : Prop := ∃ k' a, m k = Done (k', a).

Lemma returns_wp {A} (m : kernelM A) (Q : A → Kernel → Prop) k :
  returns m k → wp m Q k → ∃ k' a, m k = Done (k', a) ∧ Q a k'.
Proof. intros (k'&a&E) Hw. exists k', a. split; [done|]. by eapply wp_Done. Qed.
Lemma returns_bind {A B} (m : kernelM A) (g : A → kernelM B) k :
  returns m k → wp m (λ a, returns (g a)) k → returns (m ≫= g) k.
Proof.
  intros (k1&a&E) Hw. destruct (wp_Done _ _ _ _ _ Hw E) as (k2&b&E2). exists k2, b.
  unfold mbind, kernelM_bind. by rewrite E.
Qed.
Lemma returns_ret {A} (a : A) k : returns (mret a) k.
Proof. by exists k, a. Qed.
Lemma returns_gets {A} (g : Kernel → A) k : returns (gets g) k.
Proof. by exists k, (g k). Qed.
Lemma returns_modify g k : returns (modify g) k.
Proof. by exists (g k), tt. Qed.
Lemma returns_for {A} (l : list A) (g : A → kernelM unit) (I : list A → Kernel → Prop) k :
  (∀ x rest k, I (x :: rest) k → returns (g x) k ∧ wp (g x) (λ _, I rest) k) → I l k → returns (for_ l g) k.
Proof.
  intros Hg. revert k. induction l as [|x l IH]; intros k Hi; [apply returns_ret|]. cbn [for_].
  destruct (Hg x l k Hi) as [Hr Hw]. apply returns_bind; [done|]. eapply wp_mono; [exact Hw|]. intros [] k'. apply IH.
Qed.

Lemma length_delete_le {A} n (l : list A) : (length (delete n l) ≤ length l)%nat.
Proof. rewrite delete_take_drop, length_app, length_take, length_drop. lia. Qed.

(** ** Process slots *)
Definition put (i : nat) (p : Process) (k : Kernel) : Kernel := set_k_processes (<[i := p]> (k_processes k)) k.

Lemma put_id i p k : k_processes k !! i = Some p → put i p k = k.
Proof. intros Hp. unfold put. rewrite list_insert_id by done. by destruct k. Qed.
Lemma put_put i p q k : put i p (put i q k) = put i p k.
Proof. unfold put. cbn. by rewrite list_insert_insert_eq. Qed.
Lemma put_lookup i p q k : k_processes k !! i = Some q → k_processes (put i p k) !! i = Some p.
Proof. intros Hq. cbn. apply list_lookup_insert_eq. by eapply lookup_lt_Some. Qed.
Lemma put_lookup_ne i j p k : i ≠ j → k_processes (put i p k) !! j = k_processes k !! j.
Proof. intros ?. cbn. by apply list_lookup_insert_ne. Qed.

Lemma wp_get_process i (Q : Process → Kernel → Prop) k :
  (∀ p, k_processes k !! i = Some p → Q p k) → wp (get_process i) Q k.
Proof. intros Hq. apply wp_asks. intros p Hp. by apply Hq, vec_get_Done. Qed.
Lemma wp_set_process i p (Q : unit → Kernel → Prop) k : Q tt (put i p k) → wp (set_process i p) Q k.
Proof.
  intros Hq. unfold wp, set_process. destruct (vec_set _ _ _) as [l|] eqn:E; [|done].
  by apply vec_set_insert in E as [-> _].
Qed.
Lemma wp_with_process i g (Q : unit → Kernel → Prop) k :
  (∀ p, k_processes k !! i = Some p → Q tt (put i (g p) k)) → wp (with_process i g) Q k.
Proof. intros Hq. apply wp_bind, wp_get_process. intros p Hp. by apply wp_set_process, Hq. Qed.
Lemma wp_with_core i g (Q : unit → Kernel → Prop) k :
  (∀ p c, k_processes k !! i = Some p → g (p_core p) = Done c → Q tt (put i (set_p_core c p) k)) →
  wp (with_core i g) Q k.
Proof.
  intros Hq. apply wp_bind, wp_get_process. intros p Hp. apply wp_bind, wp_lift. intros c Hc.
  apply wp_set_process. by apply Hq.
Qed.
Lemma wp_set_mailbox i b (Q : unit → Kernel → Prop) k :
  ((i < length (k_mailboxes k))%nat → Q tt (set_k_mailboxes (<[i := b]> (k_mailboxes k)) k)) →
  wp (set_mailbox i b) Q k.
Proof.
  intros Hq. unfold wp, set_mailbox. destruct (vec_set _ _ _) as [l|] eqn:E; [|done].
  apply vec_set_insert in E as [-> ?]. auto.
Qed.
Lemma wp_set_lifecycle i t (Q : unit → Kernel → Prop) k :
  ((i < length (k_lifecycle_tables k))%nat →
     Q tt (set_k_lifecycle_tables (<[i := t]> (k_lifecycle_tables k)) k)) →
  wp (set_lifecycle i t) Q k.
Proof.
  intros Hq. unfold wp, set_lifecycle. destruct (vec_set _ _ _) as [l|] eqn:E; [|done].
  apply vec_set_insert in E as [-> ?]. auto.
Qed.
Lemma wp_get_mailbox i (Q : list Message → Kernel → Prop) k :
  (∀ b, k_mailboxes k !! i = Some b → Q b k) → wp (get_mailbox i) Q k.
Proof. intros Hq. apply wp_asks. intros b Hb. by apply Hq, vec_get_Done. Qed.
Lemma wp_get_lifecycle i (Q : list LifecycleEntry → Kernel → Prop) k :
  (∀ t, k_lifecycle_tables k !! i = Some t → Q t k) → wp (get_lifecycle i) Q k.
Proof. intros Hq. apply wp_asks. intros b Hb. by apply Hq, vec_get_Done. Qed.
Lemma wp_set_controller i c (Q : unit → Kernel → Prop) k :
  (∀ d, k_devices k !! i = Some d →
     Q tt (set_k_devices (<[i := mkDeviceSlot (ds_binding d) c]> (k_devices k)) k)) →
  wp (set_controller i c) Q k.
Proof. intros Hq. unfold wp, set_controller. destruct (k_devices k !! i); auto. Qed.

(** *** Operations on a slot in range return. *)
Lemma returns_get_process i p k : k_processes k !! i = Some p → returns (get_process i) k.
Proof. intros Hp. unfold returns, get_process, asks. rewrite (vec_get_lookup _ _ _ Hp). eauto. Qed.
Lemma returns_set_process i p q k : k_processes k !! i = Some p → returns (set_process i q) k.
Proof.
  intros Hp%lookup_lt_Some. unfold returns, set_process, vec_set. rewrite (proj2 (Nat.ltb_lt _ _)) by done. eauto.
Qed.
Lemma returns_with_process i p g k : k_processes k !! i = Some p → returns (with_process i g) k.
Proof.
  intros Hp. apply returns_bind; [by eapply returns_get_process|]. apply wp_get_process. intros q Hq.
  by eapply returns_set_process.
Qed.
Lemma returns_set_mailbox i b k : (i < length (k_mailboxes k))%nat → returns (set_mailbox i b) k.
Proof. intros Hp. unfold returns, set_mailbox, vec_set. rewrite (proj2 (Nat.ltb_lt _ _)) by done. eauto. Qed.
Lemma returns_set_lifecycle i t k : (i < length (k_lifecycle_tables k))%nat → returns (set_lifecycle i t) k.
Proof. intros Hp. unfold returns, set_lifecycle, vec_set. rewrite (proj2 (Nat.ltb_lt _ _)) by done. eauto. Qed.

(** ** Operations that only read *)
Class ReadOnly {A} (m : kernelM A) : Prop := read_only : ∀ k k' a, m k = Done (k', a) → k' = k.

Lemma wp_read {A} (m : kernelM A) `{!ReadOnly m} (Q : A → Kernel → Prop) k :
  (∀ a, m k = Done (k, a) → Q a k) → wp m Q k.
Proof. intros Hq. apply wp_run. intros k' a Hm. apply read_only in Hm as Hk. subst k'. auto. Qed.

#[export] Instance ret_ro {A} (a : A) : ReadOnly (mret a).
Proof. by intros k k' x [= -> _]. Qed.
#[export] Instance gets_ro {A} (g : Kernel → A) : ReadOnly (gets g).
Proof. by intros k k' x [= -> _]. Qed.
#[export] Instance asks_ro {A} (g : Kernel → outcome A) : ReadOnly (asks g).
Proof. intros k k' x. unfold asks. destruct (g k); [by intros [= -> _]|done]. Qed.
#[export] Instance lift_ro {A} (m : outcome A) : ReadOnly (lift m).
Proof. intros k k' x. unfold lift. destruct m; [by intros [= -> _]|done]. Qed.
#[export] Instance bind_ro {A B} (m : kernelM A) (g : A → kernelM B) :
  ReadOnly m → (∀ a, ReadOnly (g a)) → ReadOnly (m ≫= g).
Proof.
  intros Hm Hg k k' b. unfold mbind, kernelM_bind. destruct (m k) as [[k1 a]|] eqn:E; [|done].
  apply Hm in E as ->. apply Hg.
Qed.
#[export] Instance option_ro {A B} (m : kernelM (option A)) (g : A → kernelM (option B)) :
  ReadOnly m → (∀ a, ReadOnly (g a)) → ReadOnly (kbind_option m g).
Proof. intros Hm Hg. apply bind_ro; [done|]. intros [a|]; [apply Hg|apply ret_ro]. Qed.
#[export] Instance result_ro {A B} (m : kernelM (result Z A)) (g : A → kernelM (result Z B)) :
  ReadOnly m → (∀ a, ReadOnly (g a)) → ReadOnly (kbind_result m g).
Proof. intros Hm Hg. apply bind_ro; [done|]. intros [a|e]; [apply Hg|apply ret_ro]. Qed.

(** Decompose an operation, case by case, into reads the instances cover. *)
Ltac solve_ro :=
  repeat (cbv beta zeta; first
    [ apply _
    | match goal with |- ∀ _, _ => intros ? end
    | apply bind_ro | apply option_ro | apply result_ro
    | match goal with |- ReadOnly (match ?x with _ => _ end) => destruct x end ]).

#[export] Instance get_process_ro i : ReadOnly (get_process i) := asks_ro _.
#[export] Instance get_mailbox_ro i : ReadOnly (get_mailbox i) := asks_ro _.
#[export] Instance get_lifecycle_ro i : ReadOnly (get_lifecycle i) := asks_ro _.
#[export] Instance device_at_ro i : ReadOnly (device_at i) := asks_ro _.
#[export] Instance arg_ro i r : ReadOnly (arg i r).
Proof. unfold arg. solve_ro. Qed.
#[export] Instance key_of_ro i : ReadOnly (key_of i).
Proof. unfold key_of. solve_ro. Qed.
#[export] Instance require_ro b : ReadOnly (require b) := ret_ro _.
#[export] Instance some_or_ro {A} (o : option A) c : ReadOnly (some_or o c) := ret_ro _.
#[export] Instance check_ro b c : ReadOnly (check b c) := ret_ro _.
#[export] Instance lift_ok_ro {E A} (m : fallible E A) : ReadOnly (lift_ok m).
Proof. unfold lift_ok. solve_ro. Qed.
#[export] Instance resolve_capability_ro i h : ReadOnly (resolve_capability i h).
Proof. unfold resolve_capability. solve_ro. Qed.
#[export] Instance message_route_ro i s : ReadOnly (message_route i s).
Proof. unfold message_route. solve_ro. Qed.
#[export] Instance debug_check_ro `{Profile} m : ReadOnly m → ReadOnly (debug_check m).
Proof. intros ?. unfold debug_check. solve_ro. Qed.

Section syscalls.
Context `{Profile} `{Host}.
#[export] Instance resolve_virtual_range_ro i v s : ReadOnly (resolve_virtual_range i v s).
Proof. unfold resolve_virtual_range. solve_ro. Qed.
#[export] Instance resolve_address_ro i v : ReadOnly (resolve_address i v).
Proof. unfold resolve_address. solve_ro. Qed.
#[export] Instance read_virtual_bytes_ro i v s : ReadOnly (read_virtual_bytes i v s).
Proof. unfold read_virtual_bytes. solve_ro. Qed.
#[export] Instance image_authority_ro i : ReadOnly (image_authority i).
Proof. unfold image_authority. solve_ro. Qed.
#[export] Instance field_ro raw b i : ReadOnly (field raw b i).
Proof. unfold field. solve_ro. Qed.
#[export] Instance read_layout_ro i a : ReadOnly (read_layout i a).
Proof. unfold read_layout. solve_ro. Qed.
#[export] Instance descriptor_target_ro i v o s : ReadOnly (descriptor_target i v o s).
Proof. unfold descriptor_target. solve_ro. Qed.
#[export] Instance read_grant_ro i raw n : ReadOnly (read_grant i raw n).
Proof. unfold read_grant. solve_ro. Qed.
#[export] Instance read_map_ro i raw n : ReadOnly (read_map i raw n).
Proof. unfold read_map. solve_ro. Qed.
#[export] Instance collect_ro {A B} (g : A → kernelM (option B)) l : (∀ x, ReadOnly (g x)) → ReadOnly (collect g l).
Proof. intros ?. induction l; cbn [collect]; solve_ro. Qed.
#[export] Instance read_table_ro i a c s : ReadOnly (read_table i a c s).
Proof. unfold read_table. solve_ro. Qed.
#[export] Instance device_gate_ro i h r s : ReadOnly (device_gate i h r s).
Proof. unfold device_gate. solve_ro. Qed.
#[export] Instance buffer_gate_ro i h r : ReadOnly (buffer_gate i h r).
Proof. unfold buffer_gate. solve_ro. Qed.
#[export] Instance preflight_dev_submit_ro i : ReadOnly (preflight_dev_submit i).
Proof. unfold preflight_dev_submit. solve_ro. Qed.
#[export] Instance nic_gates_ro i r a : ReadOnly (nic_gates i r a).
Proof. unfold nic_gates. solve_ro. Qed.
#[export] Instance preflight_nic_rx_ro i : ReadOnly (preflight_nic_rx i).
Proof. unfold preflight_nic_rx. solve_ro. Qed.
#[export] Instance preflight_nic_tx_ro i : ReadOnly (preflight_nic_tx i).
Proof. unfold preflight_nic_tx. solve_ro. Qed.
End syscalls.

(** ** Automation *)

(** One step through an operation: primitive steps by their rule, operations that
    only read by remembering what they returned, and case analysis. *)
Ltac wp_step :=
  cbv beta zeta; cbn [fst snd];
  lazymatch goal with
  | |- wp (mbind _ _) _ _ => apply wp_bind
  | |- wp (kbind_option _ _) _ _ => apply wp_option
  | |- wp (kbind_result _ _) _ _ => apply wp_result
  | |- wp (mret _) _ _ => apply wp_ret
  | |- wp (gets _) _ _ => apply wp_gets
  | |- wp (get_process _) _ _ => apply wp_get_process; intros ? ?
  | |- wp (get_mailbox _) _ _ => apply wp_get_mailbox; intros ? ?
  | |- wp (get_lifecycle _) _ _ => apply wp_get_lifecycle; intros ? ?
  | |- wp (lift _) _ _ => apply wp_lift; intros ? ?
  | |- wp (require _) _ _ => apply wp_require; intros ?
  | |- wp (check _ _) _ _ => apply wp_check; intros ?
  | |- wp (match ?x with _ => _ end) _ _ => destruct x eqn:?
  | |- match ?x with _ => _ end => destruct x eqn:?
  | |- wp _ _ _ => apply wp_read; [apply _|]; intros ? ?
  end.
Ltac wp_steps := repeat wp_step.
