(* ===== verification/KernelDevices.v ===== *)
(** * Device controllers as the kernel uses them

    Every operation of a controller moves the fabric by fabric operations only, and
    keeps the controller well formed: its completion order lists exactly the
    completed slots, so that the consumer finds every completion. *)

From S2P Require Import Prelude State CapTable Extents Registry PointerFrames HeapLedger.
From S2P Require Import Fabric FabricTx FabricAuth FabricInv FabricSafety FabricCells FabricHeap.
From S2P Require Import Block Nic SlotMachine Dma BlockFacts NicFacts Desc Isa Core FabricMoves Kernel.

(** ** Moves of the fabric *)
Section moves.
Context `{Profile}.

Lemma advance_live_move f i f' : advance_if_live f i = Done f' → fab_move f f'.
Proof.
  unfold advance_if_live. intros Ha. run_binds Ha; guards; [done|by eapply advance_move].
Qed.

Ltac by_submit :=
  repeat match goal with E : submit _ _ _ = Done ?y |- _ => destruct y; apply submit_move in E end; cbn [fst snd] in *.

Lemma tick_start_move i c f c' f' : tick_start i (c, f) = Done (c', f') → fab_move f f'.
Proof.
  unfold tick_start. destruct (vec_get i _) as [s|]; [|done]. cbn [mbind outcome_bind].
  destruct s; intros Hs; try by guards. run_binds Hs. by_submit. by guards.
Qed.
Lemma tick_flight_move i c f c' f' : tick_flight i (c, f) = Done (c', f') → fab_move f f'.
Proof.
  unfold tick_flight. destruct (vec_get i (bc_slots c)) as [s|]; [|done]. cbn [mbind outcome_bind].
  destruct s; intros Hs; try by guards.
  destruct (advance_if_live f _) as [f1|] eqn:Ea; [|done]. cbn [mbind outcome_bind] in Hs.
  apply advance_live_move in Ea. run_binds Hs; guards; [|done]. etrans; [done|apply destroy_domain_move].
Qed.
Lemma block_tick_move c f c' f' : block_tick c f = Done (c', f') → fab_move f f'.
Proof.
  unfold block_tick. intros Ht. do 2 (destruct (tick_waiting _ _); [|done]; cbn [mbind outcome_bind] in Ht).
  destruct (tick_start 0 _) as [[c3 f3]|] eqn:E3; [|done]. cbn [mbind outcome_bind] in Ht.
  destruct (tick_start 1 _) as [[c4 f4]|] eqn:E4; [|done]. cbn [mbind outcome_bind] in Ht.
  destruct (tick_flight 0 _) as [[c5 f5]|] eqn:E5; [|done]. cbn [mbind outcome_bind] in Ht.
  destruct (tick_flight 1 _) as [[c6 f6]|] eqn:E6; [|done]. cbn [mbind outcome_bind] in Ht.
  run_binds Ht. guards. apply tick_start_move in E3, E4. apply tick_flight_move in E5, E6.
  by do 3 (etrans; [done|]).
Qed.
Lemma block_submit_move c r f c' f' x : block_submit c r f = Done (c', f', x) → fab_move f f'.
Proof.
  unfold block_submit. intros Hs. destruct (_ && _); [by guards|]. destruct (_ <=? _); [by guards|].
  destruct (position _ _); [|by guards].
  destruct (br_source_authority_id r) as [aid|].
  - destruct (delegate_dma_span_from_authority_id _ _ _ _ _ _ _) as [[f1 o]|] eqn:E; [|done].
    apply delegate_id_move in E. destruct o; cbn in Hs; run_binds Hs; by guards.
  - destruct (delegate_dma_span _ _ _ _ _ _) as [[f1 o]|] eqn:E; [|done].
    apply delegate_move in E. destruct o; cbn in Hs; run_binds Hs; by guards.
Qed.

Lemma nic_start_move i c f c' f' : nic_tick_start i (c, f) = Done (c', f') → fab_move f f'.
Proof.
  unfold nic_tick_start. destruct (vec_get i _) as [s|]; [|done]. cbn [mbind outcome_bind].
  destruct s; intros Hs; try by guards. all: run_binds Hs; by_submit; by guards.
Qed.
Lemma nic_flight_move i c f c' f' : nic_tick_flight i (c, f) = Done (c', f') → fab_move f f'.
Proof.
  unfold nic_tick_flight. destruct (vec_get i (nc_slots c)) as [s|]; [|done]. cbn [mbind outcome_bind].
  destruct s; intros Hs; try by guards.
  destruct (advance_if_live f _) as [f1|] eqn:Ea; [|done]. cbn [mbind outcome_bind] in Hs.
  apply advance_live_move in Ea. run_binds Hs; guards; try done. all: etrans; [done|apply destroy_domain_move].
Qed.
Lemma nic_tick_move c f c' f' : nic_tick c f = Done (c', f') → fab_move f f'.
Proof.
  unfold nic_tick. intros Ht.
  destruct (nic_tick_start 0 _) as [[c3 f3]|] eqn:E3; [|done]. cbn [mbind outcome_bind] in Ht.
  destruct (nic_tick_start 1 _) as [[c4 f4]|] eqn:E4; [|done]. cbn [mbind outcome_bind] in Ht.
  destruct (nic_tick_flight 0 _) as [[c5 f5]|] eqn:E5; [|done]. cbn [mbind outcome_bind] in Ht.
  destruct (nic_tick_flight 1 _) as [[c6 f6]|] eqn:E6; [|done]. cbn [mbind outcome_bind] in Ht.
  run_binds Ht. guards. apply nic_start_move in E3, E4. apply nic_flight_move in E5, E6.
  by do 3 (etrans; [done|]).
Qed.
Lemma submit_rx_move c r f c' f' x : submit_rx c r f = Done (c', f', x) → fab_move f f'.
Proof.
  unfold submit_rx. intros Hs. destruct (position _ _); [|by guards]. destruct (nc_rx_queue c); [by guards|].
  destruct (vec_get _ _); [|done]. cbn [mbind outcome_bind] in Hs.
  destruct (_ =? 0); [run_binds Hs; by guards|].
  destruct (delegate_dma_span_from_authority_id _ _ _ _ _ _ _) as [[f1 o]|] eqn:E; [|done].
  apply delegate_id_move in E. destruct o; cbn in Hs; run_binds Hs; by guards.
Qed.
Lemma submit_tx_move c r f c' f' x : submit_tx c r f = Done (c', f', x) → fab_move f f'.
Proof.
  unfold submit_tx. intros Hs. destruct (position _ _); [|by guards].
  destruct (delegate_dma_span_from_authority_id _ _ _ _ _ _ _) as [[f1 o]|] eqn:E; [|done].
  apply delegate_id_move in E. destruct o; cbn in Hs; run_binds Hs; by guards.
Qed.
Lemma dev_tick_move d f d' f' : dev_tick d f = Done (d', f') → fab_move f f'.
Proof.
  destruct d; cbn; intros Ht; run_binds Ht; guards; match goal with x : _ * Fabric |- _ => destruct x end; guards.
  - by eapply block_tick_move.
  - by eapply nic_tick_move.
Qed.
End moves.

(** ** Well-formed controllers *)

(** Every completed slot is in the completion order. *)
Definition sm_listed (m : SlotMachine) : Prop := ∀ i h q, sm_slots m !! i = Some (VDone h q) → i ∈ sm_order m.

Lemma sm_step_listed m e m' : sm_listed m → sm_step m e m' → sm_listed m'.
Proof.
  intros Hl Hs i h q Hi. destruct Hs as [j g r Hj Hg|j g r Hj Hg|j rest g h' r Ho Hj Hg]; cbn in Hi |- *.
  all: destruct (decide (j = i)) as [->|];
    [rewrite list_lookup_insert_eq in Hi by (by eapply lookup_lt_Some)|rewrite list_lookup_insert_ne in Hi by done].
  all: simplify_eq; try set_solver; apply Hl in Hi; try set_solver. rewrite Ho in Hi. set_solver.
Qed.
Lemma sm_run_listed m es m' : sm_run m es m' → sm_listed m → sm_listed m'.
Proof. induction 1; [done|]. intros ?. by eapply IHsm_run, sm_step_listed. Qed.

Definition dev_wf (d : DeviceController) : Prop :=
  match d with
  | DevBlock c => block_ready c ∧ sm_listed (block_view c)
  | DevNic c => nic_ready c ∧ sm_listed (nic_view c)
  end.

Section wf.
Context `{Profile}.

Lemma block_new_wf storage latency agent : dev_wf (DevBlock (block_new storage latency agent)).
Proof.
  split; [split; cbn; try done; [constructor|set_solver]|]. intros i h q Hi. cbn in Hi.
  do 2 (destruct i; [done|]). done.
Qed.
Lemma nic_new_wf agent : dev_wf (DevNic (nic_new agent)).
Proof.
  split; [split; cbn; try done; [constructor|set_solver]|]. intros i h q Hi. cbn in Hi.
  do 2 (destruct i; [done|]). done.
Qed.

Lemma dev_tick_wf d f d' f' : dev_wf d → dev_tick d f = Done (d', f') → dev_wf d'.
Proof.
  destruct d; cbn; intros [Hr Hl] Ht; run_binds Ht; guards; match goal with x : _ * Fabric |- _ => destruct x end; guards.
  - destruct (tick_view _ _ _ _ Hr E) as [Hs ?]. split; [done|by eapply sm_run_listed].
  - destruct (nic_tick_view _ _ _ _ Hr E) as [Hs ?]. split; [done|by eapply sm_run_listed].
Qed.
Lemma block_submit_wf c r f c' f' x : dev_wf (DevBlock c) → block_submit c r f = Done (c', f', x) → dev_wf (DevBlock c').
Proof. intros [Hr Hl] Hs. destruct (submit_view _ _ _ _ _ _ Hr Hs). split; [done|by eapply sm_run_listed]. Qed.
Lemma submit_rx_wf c r f c' f' x : dev_wf (DevNic c) → submit_rx c r f = Done (c', f', x) → dev_wf (DevNic c').
Proof. intros [Hr Hl] Hs. destruct (submit_rx_view _ _ _ _ _ _ Hr Hs). split; [done|by eapply sm_run_listed]. Qed.
Lemma submit_tx_wf c r f c' f' x : dev_wf (DevNic c) → submit_tx c r f = Done (c', f', x) → dev_wf (DevNic c').
Proof. intros [Hr Hl] Hs. destruct (submit_tx_view _ _ _ _ _ _ Hr Hs). split; [done|by eapply sm_run_listed]. Qed.
Lemma nic_queue_wf c c' : dev_wf (DevNic c) →
  (∃ frame ok, inject_rx c frame = (c', ok)) ∨ (∃ frame, take_tx c = (c', frame)) ∨ c' = nic_acknowledge_attention c →
  dev_wf (DevNic c').
Proof. intros [Hr Hl] Hq. destruct (nic_queue_view _ _ Hr Hq). split; [done|by eapply sm_run_listed]. Qed.
Lemma dev_ack_wf d : dev_wf d → dev_wf (dev_acknowledge_attention d).
Proof. destruct d; [done|]. cbn. intros Hd. apply (nic_queue_wf _ _ Hd). eauto. Qed.

(** ** Consuming a completion *)
Lemma count_pos {A} (p : A → bool) l : (0 < count p l)%nat → ∃ i x, l !! i = Some x ∧ p x = true.
Proof.
  unfold count. destruct (List.filter p l) as [|x t] eqn:E; cbn; [lia|]. intros _.
  assert (In x (List.filter p l)) as Hx by (rewrite E; by left). apply filter_In in Hx as [Hx ?].
  apply list_elem_of_In, list_elem_of_lookup in Hx as [i ?]. eauto.
Qed.
Lemma count_insert {A} (p : A → bool) l i x y :
  l !! i = Some x → p x = true → p y = false → count p l = S (count p (<[i := y]> l)).
Proof.
  unfold count. revert i. induction l as [|z l IH]; intros [|i] Hi Hx Hy; cbn in Hi |- *; [done..| |].
  - injection Hi as ->. by rewrite Hx, Hy.
  - destruct (p z); cbn; rewrite (IH i); done.
Qed.

Lemma sm_listed_retire m i rest slots gens :
  sm_listed m → sm_order m = i :: rest → slots = <[i := VFree]> (sm_slots m) → (i < length (sm_slots m))%nat →
  sm_listed (mkSlots slots gens rest).
Proof.
  intros Hl Ho -> Hlt j h q Hj. cbn in Hj |- *. destruct (decide (i = j)) as [->|].
  - by rewrite list_lookup_insert_eq in Hj.
  - rewrite list_lookup_insert_ne in Hj by done. apply Hl in Hj. rewrite Ho in Hj. set_solver.
Qed.

(** The controller without the completion at the head of its order *)
Definition block_retired (c : BlockController) (i : nat) (rest : list nat) (g : Z) : BlockController :=
  set_bc_generations (<[i := g]> (bc_slot_generations c)) (set_bc_slot i BFree (set_bc_order rest c)).
Lemma block_retired_wf c i rest g k : dev_wf (DevBlock c) → bc_completion_order c = i :: rest →
  bc_slots c !! i = Some (BCompleted k) → dev_wf (DevBlock (block_retired c i rest g)).
Proof.
  intros [[Hl Hg Hn Ho] Hli] Eo Hk. rewrite Eo in Hn, Ho. apply NoDup_cons in Hn as [Hni Hn]. split.
  - split; cbn; rewrite ?length_insert; try done. intros l' Hj'.
    destruct (Ho l') as [k' Hk']; [set_solver|]. exists k'.
    destruct (decide (i = l')) as [->|]; [done|by rewrite list_lookup_insert_ne].
  - unfold block_view. cbn. eapply (sm_listed_retire (block_view c) i); [done|done| |].
    + cbn. by rewrite view_insert.
    + cbn. rewrite length_map. by eapply lookup_lt_Some.
Qed.
Definition nic_retired (c : NicController) (i : nat) (rest : list nat) (g : Z) : NicController :=
  set_nc_generations (<[i := g]> (nc_slot_generations c)) (set_nc_slot i NFree (set_nc_order rest c)).
Lemma nic_retired_wf c i rest g k : dev_wf (DevNic c) → nc_completion_order c = i :: rest →
  nc_slots c !! i = Some (NCompleted k) → dev_wf (DevNic (nic_retired c i rest g)).
Proof.
  intros [[Hl Hg Hn Ho] Hli] Eo Hk. rewrite Eo in Hn, Ho. apply NoDup_cons in Hn as [Hni Hn]. split.
  - split; cbn; rewrite ?length_insert; try done. intros l' Hj'.
    destruct (Ho l') as [k' Hk']; [set_solver|]. exists k'.
    destruct (decide (i = l')) as [->|]; [done|by rewrite list_lookup_insert_ne].
  - unfold nic_view. cbn. eapply (sm_listed_retire (nic_view c) i); [done|done| |].
    + cbn. by rewrite nic_view_insert.
    + cbn. rewrite length_map. by eapply lookup_lt_Some.
Qed.

(** A controller with completions has one at the head of its order. *)
Lemma block_head c : dev_wf (DevBlock c) → (0 < block_completion_count c)%nat →
  ∃ i rest k, bc_completion_order c = i :: rest ∧ bc_slots c !! i = Some (BCompleted k).
Proof.
  intros [[_ _ _ Ho] Hli] Hpos. apply count_pos in Hpos as (j&s&Hj&Hc). destruct s; try done.
  pose proof (Hli j _ _ (view_lookup c j _ Hj)) as Hin. cbn in Hin.
  destruct (bc_completion_order c) as [|i rest]; [set_solver|]. destruct (Ho i) as [k Hk]; [set_solver|]. by exists i, rest, k.
Qed.
Lemma nic_head c : dev_wf (DevNic c) → (0 < nic_completion_count c)%nat →
  ∃ i rest k, nc_completion_order c = i :: rest ∧ nc_slots c !! i = Some (NCompleted k).
Proof.
  intros [[_ _ _ Ho] Hli] Hpos. apply count_pos in Hpos as (j&s&Hj&Hc). destruct s; try done.
  pose proof (Hli j _ _ (nic_view_lookup c j _ Hj)) as Hin. cbn in Hin.
  destruct (nc_completion_order c) as [|i rest]; [set_solver|]. destruct (Ho i) as [k Hk]; [set_solver|]. by exists i, rest, k.
Qed.

Lemma block_consume_wf c c' x :
  dev_wf (DevBlock c) → (0 < block_completion_count c)%nat → block_consume_completion c = Done (c', x) →
  dev_wf (DevBlock c') ∧ is_Some x ∧ block_completion_count c = S (block_completion_count c').
Proof.
  intros Hwf Hpos Hs. destruct (block_head c Hwf Hpos) as (i&rest&k&Eo&Hk). unfold block_consume_completion in Hs.
  rewrite Eo in Hs. cbn [bc_slots set_bc_order] in Hs. rewrite (vec_get_lookup _ _ _ Hk) in Hs. cbn [mbind outcome_bind] in Hs.
  run_binds Hs. guards. split; [exact (block_retired_wf c i rest _ k Hwf Eo Hk)|]. split; [done|].
  unfold block_completion_count. cbn. by apply (count_insert _ _ _ (BCompleted k)).
Qed.
Lemma nic_consume_wf c c' x :
  dev_wf (DevNic c) → (0 < nic_completion_count c)%nat → nic_consume_completion c = Done (c', x) →
  dev_wf (DevNic c') ∧ is_Some x ∧ nic_completion_count c = S (nic_completion_count c').
Proof.
  intros Hwf Hpos Hs. destruct (nic_head c Hwf Hpos) as (i&rest&k&Eo&Hk). unfold nic_consume_completion in Hs.
  rewrite Eo in Hs. cbn [nc_slots set_nc_order] in Hs. rewrite (vec_get_lookup _ _ _ Hk) in Hs. cbn [mbind outcome_bind] in Hs.
  run_binds Hs. guards. split; [exact (nic_retired_wf c i rest _ k Hwf Eo Hk)|]. split; [done|].
  unfold nic_completion_count. cbn. by apply (count_insert _ _ _ (NCompleted k)).
Qed.

(** A controller with completions hands out one of them, and has one fewer. *)
Lemma dev_consume_wf d d' x :
  dev_wf d → dev_consume_completion d = Done (d', x) → (0 < dev_completion_count d)%nat →
  dev_wf d' ∧ is_Some x ∧ dev_completion_count d = S (dev_completion_count d').
Proof.
  destruct d as [c|c]; cbn -[dev_wf]; intros Hw Hs Hpos; run_binds Hs; guards;
    match goal with E : _ = Done ?y |- _ => destruct y as [c1 x1] end; cbn -[dev_wf].
  - destruct (block_consume_wf c c1 x1) as (?&[]&?); try done. subst. eauto.
  - destruct (nic_consume_wf c c1 x1) as (?&[]&?); try done. subst. eauto.
Qed.
End wf.
