(* ===== verification/KernelInv.v ===== *)
(** * The kernel invariant

    What holds of the process table between any two kernel operations, and the
    lemmas that carry it over the primitive updates.

    [kinv f0 M0 D X k]: the fabric is reached from [f0] by fabric operations; every
    controller is well formed; every process is well formed; the parent of a live
    process is running and older; a process that waits for a child is its parent.
    [D] are process keys known to have ended.  [X] are the keys of processes being
    taken down, exempt from the tree clauses until their descendants are gone;
    between operations it is empty. *)

From S2P Require Import Prelude State CapTable Extents Registry PointerFrames HeapLedger.
From S2P Require Import Fabric FabricTx FabricAuth FabricInv FabricSafety FabricCells FabricHeap.
From S2P Require Import Block Nic Desc Isa Core CoreFault CoreInv FabricMoves CoreEvents.
From S2P Require Import Kernel Syscalls Scheduler KernelLogic KernelDevices.

(** ** Processes *)
Definition blocked (p : Process) : bool :=
  is_some (p_waiting_on p) || is_some (p_io_wait p) || is_some (p_recv_wait p) || is_some (p_event_wait p).
Definition live (p : Process) : bool :=
  bool_decide (p_state p = ProcRunning) || bool_decide (p_state p = ProcZombie).
Definition in_syscall (c : Anka64Core) : Prop := option_map ev_cause (head (core_event_frames c)) = Some Syscall.

(** At most one reason to be blocked *)
Definition one_wait (p : Process) : Prop :=
  (p_io_wait p = None ∧ p_recv_wait p = None ∧ p_event_wait p = None) ∨
  (p_waiting_on p = None ∧ p_recv_wait p = None ∧ p_event_wait p = None) ∨
  (p_waiting_on p = None ∧ p_io_wait p = None ∧ p_event_wait p = None) ∨
  (p_waiting_on p = None ∧ p_io_wait p = None ∧ p_recv_wait p = None).

Definition extent_wf (e : Extent) : Prop := is_u64 (ext_base e).
Definition reachable `{Profile} `{Host} (c : Anka64Core) : Prop := ∃ G, core_reach c G.

Record proc_wf `{Profile} `{Host} (p : Process) : Prop := {
  pw_core : reachable (p_core p);
  pw_blocked : blocked p = true → p_state p = ProcRunning ∧ in_syscall (p_core p);
  pw_one : one_wait p;
  pw_free_wait : p_heap_free_wait p = None;
  pw_zombie : p_state p = ProcZombie → is_Some (p_result p);
  pw_generation : is_u32 (p_generation p);
  pw_async : (length (p_async_requests p) ≤ MAX_ASYNC_REQUESTS)%nat;
  pw_table t : p_cap_table p = Some t → rtc table_step table_new t;
  pw_resources r : p_resources p = Some r →
    extent_wf (res_stack_extent r) ∧ extent_wf (res_trap_extent r);
  pw_erased : live p = false → p_parent p = None ∧ p_resources p = None;
}.

(** The incarnation [key] has exited, and its slot may have moved on. *)
Definition ended (k : Kernel) (key : ProcessKey) : Prop :=
  ∃ p, k_processes k !! slot_of key = Some p ∧
    (pk_generation key < p_generation p ∨ pk_generation key = p_generation p ∧
     (p_state p = ProcZombie ∨ p_state p = ProcRetired)).

(** ** The invariant *)
Section invariant.
Context `{Profile} `{Host} (f0 : Fabric) (M0 : list Capability64) (D : ProcessKey → Prop).

(** The lifecycle entry [e] of [owner] names a process that has been born; while it
    lives, it is a child of [owner]. *)
Definition entry_wf (procs : list Process) (owner : nat) (e : LifecycleEntry) : Prop :=
  ∃ p c g q, procs !! owner = Some p ∧ le_child e = process_key c g ∧ procs !! c = Some q ∧
    (g < p_generation q ∨ g = p_generation q ∧ p_state q ≠ ProcFree ∧
      (live q = true → p_parent q = Some (process_key owner (p_generation p)))).

Record kinv (X : list ProcessKey) (k : Kernel) : Prop := {
  ki_fabric : ∃ M, fab_steps f0 M0 (k_fabric k) M;
  ki_devices : Forall (λ d, dev_wf (ds_controller d)) (k_devices k);
  ki_mailboxes : length (k_mailboxes k) = length (k_processes k);
  ki_tables : length (k_lifecycle_tables k) = length (k_processes k);
  ki_bounded : Forall (λ b, (length b ≤ MAX_MAILBOX_SIZE)%nat) (k_mailboxes k);
  ki_phys : is_u64 (k_next_phys k);
  ki_stacks : Forall extent_wf (k_free_stack_extents k);
  ki_traps : Forall extent_wf (k_free_trap_extents k);
  ki_proc i p : k_processes k !! i = Some p → proc_wf p;
  ki_pid i p : k_processes k !! i = Some p → p_pid p < k_next_pid k;
  ki_parent i p pk : k_processes k !! i = Some p → live p = true → p_parent p = Some pk →
    ∃ j q, k_processes k !! j = Some q ∧ pk = process_key j (p_generation q) ∧ p_pid q < p_pid p ∧
      live q = true ∧ (p_state q = ProcRunning ∨ pk ∈ X);
  ki_wait i p ws : k_processes k !! i = Some p → p_waiting_on p = Some ws →
    process_key i (p_generation p) ∈ X ∨
    ∃ c q, k_processes k !! c = Some q ∧ ws_child ws = process_key c (p_generation q) ∧ live q = true ∧
      p_parent q = Some (process_key i (p_generation p));
  ki_entry i t e : k_lifecycle_tables k !! i = Some t → e ∈ t → le_collected e = false →
    entry_wf (k_processes k) i e;
  ki_ended key : D key → ended k key;
}.

(** The invariant depends on these fields. *)
Lemma kinv_same X k k' :
  k_fabric k' = k_fabric k → k_devices k' = k_devices k → k_mailboxes k' = k_mailboxes k →
  k_lifecycle_tables k' = k_lifecycle_tables k → k_next_phys k' = k_next_phys k →
  k_free_stack_extents k' = k_free_stack_extents k → k_free_trap_extents k' = k_free_trap_extents k →
  k_processes k' = k_processes k → k_next_pid k' = k_next_pid k → kinv X k → kinv X k'.
Proof.
  intros E1 E2 E3 E4 E5 E6 E7 E8 E9 []. split; rewrite ?E1, ?E2, ?E3, ?E4, ?E5, ?E6, ?E7, ?E8, ?E9; try done.
  intros key Hk. unfold ended. rewrite E8. by apply ki_ended0.
Qed.
Lemma kinv_fabric X k f : fab_move (k_fabric k) f → kinv X k → kinv X (set_k_fabric f k).
Proof.
  intros Hm []. destruct ki_fabric0 as [M Hs]. destruct (Hm M) as [M' ?]. split; try done.
  exists M'. by eapply fab_steps_trans.
Qed.
Lemma kinv_devices X k l : Forall (λ d, dev_wf (ds_controller d)) l → kinv X k → kinv X (set_k_devices l k).
Proof. by intros ? []; split. Qed.
Lemma kinv_weaken X Y k : X ⊆ Y → kinv X k → kinv Y k.
Proof.
  intros Hs []. split; try done.
  - intros i p pk ? ? ?. edestruct ki_parent0 as (j&q&?&?&?&?&Hq); [done..|]. exists j, q.
    split_and!; try done. destruct Hq; [by left|right; set_solver].
  - intros i p ws ? ?. edestruct ki_wait0; [done..| |by right]. left. set_solver.
Qed.
Lemma kinv_mailbox X k i b :
  (length b ≤ MAX_MAILBOX_SIZE)%nat → kinv X k → kinv X (set_k_mailboxes (<[i := b]> (k_mailboxes k)) k).
Proof. intros ? []. split; try done; cbn; [by rewrite length_insert|by apply Forall_insert]. Qed.

(** *** A process changes, but not its identity, state or parent. *)
Record upd (p q : Process) : Prop := {
  up_pid : p_pid q = p_pid p;
  up_state : p_state q = p_state p;
  up_generation : p_generation q = p_generation p;
  up_parent : p_parent q = p_parent p;
}.

(** The process of a slot after a put *)
Lemma put_cases i q k j r : k_processes (put i q k) !! j = Some r →
  i = j ∧ r = q ∧ (i < length (k_processes k))%nat ∨ i ≠ j ∧ k_processes k !! j = Some r.
Proof.
  cbn. intros Hl. apply list_lookup_insert_Some in Hl as [(?&?&?)|[? ?]]; [left|right]; by subst.
Qed.

(** [i] waits for a live child of its own. *)
Definition awaits_child (k : Kernel) (i : nat) (p : Process) (ws : WaitState) : Prop :=
  ∃ c q, k_processes k !! c = Some q ∧ ws_child ws = process_key c (p_generation q) ∧ live q = true ∧
    p_parent q = Some (process_key i (p_generation p)).

Lemma kinv_put_wait X k i p q :
  k_processes k !! i = Some p → upd p q → proc_wf q →
  (∀ ws, p_waiting_on q = Some ws → p_waiting_on p = Some ws ∨ awaits_child k i p ws) →
  kinv X k → kinv X (put i q k).
Proof.
  intros Hp [Up Us Ug Upa] Hq Uw [].
  assert (∀ j r, k_processes (put i q k) !! j = Some r → ∃ r0, k_processes k !! j = Some r0 ∧
    p_pid r = p_pid r0 ∧ p_state r = p_state r0 ∧ p_generation r = p_generation r0 ∧ p_parent r = p_parent r0 ∧
    (∀ ws, p_waiting_on r = Some ws → p_waiting_on r0 = Some ws ∨ awaits_child k j r0 ws)) as Hback.
  { intros j r Hr. apply put_cases in Hr as [(<-&->&_)|[_ ?]]; [exists p|exists r]; by auto 10. }
  assert (∀ j r0, k_processes k !! j = Some r0 → ∃ r, k_processes (put i q k) !! j = Some r ∧
    p_pid r = p_pid r0 ∧ p_state r = p_state r0 ∧ p_generation r = p_generation r0 ∧ p_parent r = p_parent r0) as Hforw.
  { intros j r0 Hr. destruct (decide (i = j)) as [->|]; [exists q|exists r0; by rewrite put_lookup_ne].
    rewrite Hp in Hr. simplify_eq. split; [by eapply put_lookup|done]. }
  assert (∀ r r0, p_state r = p_state r0 → live r = live r0) as Hlive by (intros ?? E; unfold live; by rewrite E).
  split; try done.
  - cbn. by rewrite length_insert.
  - cbn. by rewrite length_insert.
  - intros j r Hr. apply put_cases in Hr as [(->&->&_)|[_ ?]]; eauto.
  - intros j r Hr. destruct (Hback j r Hr) as (r0&?&->&_). eauto.
  - intros j r pk Hr Hl Hpa. destruct (Hback j r Hr) as (r0&Hr0&Ep&Es&Eg&Epa&_).
    destruct (ki_parent0 j r0 pk) as (j'&q'&Hq'&->&?&?&?); [done|by rewrite <- (Hlive r)|congruence|].
    destruct (Hforw j' q' Hq') as (q1&?&Ep1&Es1&Eg1&_). exists j', q1.
    rewrite Eg1, Es1, Ep1, Ep, (Hlive _ _ Es1). done.
  - intros j r ws Hr Hw. destruct (Hback j r Hr) as (r0&Hr0&_&_&Eg&_&Ew). rewrite Eg.
    assert (process_key j (p_generation r0) ∈ X ∨ awaits_child k j r0 ws) as [?|(c&q'&Hq'&Hc&?&?)];
      [destruct (Ew ws Hw); [by eapply ki_wait0|by right]|by left|right].
    destruct (Hforw c q' Hq') as (q1&?&_&Es1&Eg1&Epa1). exists c, q1. rewrite Eg1, Epa1, (Hlive _ _ Es1). done.
  - intros j t e Ht He Hc. destruct (ki_entry0 j t e Ht He Hc) as (r0&c&g&q0&Hr0&Hch&Hq0&Hg).
    destruct (Hforw j r0 Hr0) as (r&?&_&_&Eg&_). destruct (Hforw c q0 Hq0) as (q1&?&_&Es1&Eg1&Epa1).
    exists r, c, g, q1. rewrite Eg, Eg1, Es1, Epa1, (Hlive _ _ Es1). done.
  - intros key Hk. destruct (ki_ended0 key Hk) as (r0&Hr0&He). destruct (Hforw _ _ Hr0) as (r&?&_&Es&Eg&_).
    exists r. by rewrite Es, Eg.
Qed.
Lemma kinv_put X k i p q :
  k_processes k !! i = Some p → upd p q → p_waiting_on q = p_waiting_on p ∨ p_waiting_on q = None →
  proc_wf q → kinv X k → kinv X (put i q k).
Proof. intros ? ? Hw ? ?. eapply kinv_put_wait; [done..| |done]. intros ws ?. left. intuition congruence. Qed.

(** *** A process leaves its slot. *)
Record freed (p q : Process) : Prop := {
  fr_pid : p_pid q = p_pid p;
  fr_core : reachable (p_core p) → reachable (p_core q);
  fr_table : p_cap_table q = p_cap_table p;
  fr_parent : p_parent q = None;
  fr_waits : blocked q = false ∧ p_heap_free_wait q = None;
  fr_rest : p_result q = None ∧ p_async_requests q = [] ∧ p_resources q = None;
  fr_generation : p_state q = ProcFree ∧ p_generation q = p_generation p + 1 ∧ is_u32 (p_generation q) ∨
    p_state q = ProcRetired ∧ p_generation q = p_generation p;
}.

Lemma blocked_false p : blocked p = false →
  p_waiting_on p = None ∧ p_io_wait p = None ∧ p_recv_wait p = None ∧ p_event_wait p = None.
Proof.
  unfold blocked. destruct (p_waiting_on p), (p_io_wait p), (p_recv_wait p), (p_event_wait p); done.
Qed.
Lemma freed_wf p q : freed p q → proc_wf p → proc_wf q.
Proof.
  intros [? Hc Ht ? [Hb ?] (?&Ha&Hr) Hg] []. apply blocked_false in Hb as Hb'. destruct_and!. split; try congruence; auto.
  - left. done.
  - destruct Hg as [(->&_)|[-> _]]; done.
  - destruct Hg as [(_&_&?)|[_ ->]]; done.
  - rewrite Ha. unfold MAX_ASYNC_REQUESTS. cbn. lia.
  - rewrite Ht. done.
Qed.

Lemma process_key_inj i g j h : process_key i g = process_key j h → i = j ∧ g = h.
Proof. unfold process_key. intros E. injection E. intros. split; [lia|done]. Qed.

Lemma slot_of_key i g : slot_of (process_key i g) = i.
Proof. unfold slot_of. cbn. apply Nat2Z.id. Qed.

(** No live process has [pk] as its parent. *)
Definition childless (pk : ProcessKey) (k : Kernel) : Prop :=
  ∀ j r, k_processes k !! j = Some r → live r = true → p_parent r ≠ Some pk.
(** Nobody outside [X], other than [i] itself, waits for [pk]. *)
Definition unawaited (X : list ProcessKey) (i : nat) (pk : ProcessKey) (k : Kernel) : Prop :=
  ∀ j r ws, k_processes k !! j = Some r → p_waiting_on r = Some ws → ws_child ws = pk →
    j = i ∨ process_key j (p_generation r) ∈ X.

Lemma kinv_freed X k k' i p q :
  k_processes k !! i = Some p → live p = true → freed p q →
  childless (process_key i (p_generation p)) k → unawaited X i (process_key i (p_generation p)) k →
  k_processes k' = <[i := q]> (k_processes k) → k_mailboxes k' = <[i := []]> (k_mailboxes k) →
  k_lifecycle_tables k' = <[i := []]> (k_lifecycle_tables k) →
  k_devices k' = k_devices k → k_next_phys k' = k_next_phys k → k_next_pid k' = k_next_pid k →
  fab_move (k_fabric k) (k_fabric k') → Forall extent_wf (k_free_stack_extents k') →
  Forall extent_wf (k_free_trap_extents k') →
  kinv (process_key i (p_generation p) :: X) k → kinv X k'.
Proof.
  intros Hp Hlp Hf Hch Hun Epr Em Et Ed Eph Epid Hmv Hst Htr [].
  pose proof (freed_wf _ _ Hf (ki_proc0 _ _ Hp)) as Hq. apply lookup_lt_Some in Hp as Hlen.
  assert (∀ j r, k_processes k' !! j = Some r → i = j ∧ r = q ∨ i ≠ j ∧ k_processes k !! j = Some r) as Hback.
  { intros j r. rewrite Epr. intros Hr. apply list_lookup_insert_Some in Hr as [(?&?&?)|[? ?]]; [left|right]; by subst. }
  assert (∀ j r, i ≠ j → k_processes k !! j = Some r → k_processes k' !! j = Some r) as Hforw.
  { intros j r ? ?. rewrite Epr. by rewrite list_lookup_insert_ne. }
  assert (live q = false) as Hlq by (unfold live; destruct (fr_generation _ _ Hf) as [(->&_)|[-> _]]; done).
  assert (k_processes k' !! i = Some q) as Hqi by (rewrite Epr; by apply list_lookup_insert_eq).
  split; rewrite ?Em, ?Et, ?Ed, ?Eph, ?Epid; try done.
  - destruct ki_fabric0 as [M Hs]. destruct (Hmv M) as [M' ?]. exists M'. by eapply fab_steps_trans.
  - rewrite Epr, !length_insert. done.
  - rewrite Epr, !length_insert. done.
  - apply Forall_insert; [done|cbn; lia].
  - intros j r Hr. destruct (Hback j r Hr) as [[_ ->]|[_ ?]]; eauto.
  - intros j r Hr. destruct (Hback j r Hr) as [[_ ->]|[_ ?]]; [rewrite (fr_pid _ _ Hf)|]; eauto.
  - intros j r pk Hr Hl Hpa. destruct (Hback j r Hr) as [[_ ->]|[Hij Hr0]]; [congruence|].
    destruct (ki_parent0 j r pk Hr0 Hl Hpa) as (j'&q'&Hq'&->&?&?&Hs).
    assert (i ≠ j') as Hne. { intros ->. rewrite Hp in Hq'. simplify_eq. by eapply Hch. }
    exists j', q'. split_and!; auto. destruct Hs as [|[Hx|]%elem_of_cons]; [by left| |by right].
    apply process_key_inj in Hx as [-> _]. done.
  - intros j r ws Hr Hw. destruct (Hback j r Hr) as [[<- ->]|[Hij Hr0]].
    { destruct (blocked_false _ (proj1 (fr_waits _ _ Hf))) as (?&_). congruence. }
    destruct (ki_wait0 j r ws Hr0 Hw) as [[Hx|]%elem_of_cons|(c&q'&Hq'&Hc&?&?)]; [|by left|].
    { apply process_key_inj in Hx as [-> _]. done. }
    destruct (decide (i = c)) as [->|]; [|right; exists c, q'; auto].
    rewrite Hp in Hq'. simplify_eq. destruct (Hun j r ws Hr0 Hw) as [->|]; [by rewrite Hc|done|by left].
  - intros j t e Ht He Hc. apply list_lookup_insert_Some in Ht as [(?&<-&?)|[Hij Ht]]; [set_solver|].
    destruct (ki_entry0 j t e Ht He Hc) as (r0&c&g&q0&Hr0&Hch0&Hq0&Hg).
    destruct (decide (i = c)) as [->|]; [|exists r0, c, g, q0; auto]. exists r0, c, g, q. split_and!; auto.
    rewrite Hp in Hq0. simplify_eq. rewrite Hlq. destruct (fr_generation _ _ Hf) as [(_&->&_)|[-> ->]].
    + left. destruct Hg as [|[-> _]]; lia.
    + destruct Hg as [|[-> _]]; [by left|right]. done.
  - intros key Hk. destruct (ki_ended0 key Hk) as (r0&Hr0&He). unfold ended.
    destruct (decide (i = slot_of key)) as [->|]; [|exists r0; auto]. exists q. split; [done|].
    rewrite Hp in Hr0. simplify_eq. destruct (fr_generation _ _ Hf) as [(_&->&_)|[-> ->]].
    + left. destruct He as [|[-> _]]; lia.
    + destruct He as [|[-> _]]; [by left|right]. auto.
Qed.

(** *** A process exits: its children are orphans until they are taken down. *)
Lemma kinv_zombie X k i p q :
  k_processes k !! i = Some p → p_state p = ProcRunning → p_state q = ProcZombie →
  p_pid q = p_pid p → p_generation q = p_generation p → p_parent q = p_parent p → p_waiting_on q = None →
  proc_wf q → kinv X k → kinv (process_key i (p_generation p) :: X) (put i q k).
Proof.
  intros Hp Hrun Hz Epid Eg Epa Ew Hq []. apply lookup_lt_Some in Hp as Hlen.
  assert (live q = true) as Hlq by (unfold live; rewrite Hz; done).
  pose proof (put_lookup i q p k Hp) as Hqi.
  assert (∀ j r, i ≠ j → k_processes k !! j = Some r → k_processes (put i q k) !! j = Some r) as Hforw
    by (intros; by rewrite put_lookup_ne).
  split; try done; try (by cbn; rewrite length_insert).
  - intros j r Hr. apply put_cases in Hr as [(->&->&_)|[_ ?]]; eauto.
  - intros j r Hr. apply put_cases in Hr as [(->&->&_)|[_ ?]]; [rewrite Epid|]; eauto.
  - intros j r pk Hr Hl Hpa. assert (∃ r0, k_processes k !! j = Some r0 ∧ p_pid r = p_pid r0 ∧ live r0 = true ∧
      p_parent r0 = Some pk) as (r0&Hr0&Epr&Hl0&Hpa0).
    { apply put_cases in Hr as [(<-&->&_)|[_ ?]]; [exists p|by exists r]. split_and!; try done; [|congruence].
      unfold live. by rewrite Hrun. }
    destruct (ki_parent0 j r0 pk Hr0 Hl0 Hpa0) as (j'&q'&Hq'&->&?&?&Hs).
    destruct (decide (i = j')) as [->|Hne].
    + rewrite Hp in Hq'. simplify_eq. exists j', q. rewrite Epid, Eg, Epr. split_and!; auto. right. set_solver.
    + exists j', q'. rewrite Epr. split_and!; auto. destruct Hs; [by left|right; set_solver].
  - intros j r ws Hr Hw. apply put_cases in Hr as [(_&->&_)|[Hij Hr]]; [congruence|].
    destruct (ki_wait0 j r ws Hr Hw) as [|(c&q'&Hq'&Hc&?&?)]; [left; set_solver|right].
    destruct (decide (i = c)) as [->|]; [|exists c, q'; auto]. rewrite Hp in Hq'. simplify_eq.
    exists c, q. rewrite Eg, Epa. auto.
  - intros j t e Ht He Hc. destruct (ki_entry0 j t e Ht He Hc) as (r0&c&g&q0&Hr0&Hch0&Hq0&Hg).
    assert (∃ r, k_processes (put i q k) !! j = Some r ∧ p_generation r = p_generation r0) as (r&Hr&Er).
    { destruct (decide (i = j)) as [->|]; [exists q|exists r0; auto]. rewrite Hp in Hr0. by simplify_eq. }
    destruct (decide (i = c)) as [->|]; [|exists r, c, g, q0; rewrite Er; auto].
    rewrite Hp in Hq0. simplify_eq. exists r, c, g, q. rewrite Er, Eg, Epa, Hz. split_and!; auto.
    destruct Hg as [|(->&_&Hg)]; [by left|right]. split_and!; try done. intros _. apply Hg. unfold live. by rewrite Hrun.
  - intros key Hk. destruct (ki_ended0 key Hk) as (r0&Hr0&He). unfold ended.
    destruct (decide (i = slot_of key)) as [->|]; [|exists r0; auto]. exists q. split; [done|].
    rewrite Hp in Hr0. simplify_eq. rewrite Eg, Hz. destruct He as [|[-> _]]; auto.
Qed.

(** Its children gone, a process that waits for nobody is in order. *)
Lemma kinv_culled X k key :
  (∀ i p, k_processes k !! i = Some p → key = process_key i (p_generation p) → p_waiting_on p = None) →
  childless key k → kinv (key :: X) k → kinv X k.
Proof.
  intros Hw Hch []. split; try done.
  - intros j r pk Hr Hl Hpa. destruct (ki_parent0 j r pk Hr Hl Hpa) as (j'&q'&?&->&?&?&Hs). exists j', q'.
    split_and!; auto. destruct Hs as [|[Hx|]%elem_of_cons]; [by left| |by right].
    exfalso. rewrite Hx in Hpa. exact (Hch j r Hr Hl Hpa).
  - intros j r ws Hr Hws. destruct (ki_wait0 j r ws Hr Hws) as [[Hx|]%elem_of_cons|]; [|by left|by right].
    specialize (Hw j r Hr (eq_sym Hx)). congruence.
Qed.

(** *** A new process gets its parent. *)
Lemma kinv_parent X k i p j r :
  k_processes k !! i = Some p → live p = true → p_parent p = None →
  k_processes k !! j = Some r → p_state r = ProcRunning → p_pid r < p_pid p →
  kinv X k → kinv X (put i (set_p_parent (Some (process_key j (p_generation r))) p) k).
Proof.
  intros Hp Hl Hnone Hr Hrun Hlt []. set (q := set_p_parent _ p). pose proof (put_lookup i q p k Hp) as Hqi.
  assert (i ≠ j) as Hij by (intros ->; rewrite Hp in Hr; simplify_eq; lia).
  assert (∀ c r, i ≠ c → k_processes k !! c = Some r → k_processes (put i q k) !! c = Some r) as Hforw
    by (intros; by rewrite put_lookup_ne).
  assert (∀ c r0, k_processes k !! c = Some r0 → ∃ r, k_processes (put i q k) !! c = Some r ∧
    p_generation r = p_generation r0 ∧ p_pid r = p_pid r0 ∧ live r = live r0 ∧ p_state r = p_state r0) as Hsame.
  { intros c r0 Hr0. destruct (decide (i = c)) as [->|]; [exists q|exists r0; auto]. rewrite Hp in Hr0. by simplify_eq. }
  split; try done; try (by cbn; rewrite length_insert).
  - intros c r0 Hr0. apply put_cases in Hr0 as [(->&->&_)|[_ ?]]; [|eauto]. destruct (ki_proc0 _ _ Hp). split; try done.
    intros Hf. change (live q) with (live p) in Hf. congruence.
  - intros c r0 Hr0. apply put_cases in Hr0 as [(->&->&_)|[_ ?]]; [apply (ki_pid0 _ _ Hp)|eauto].
  - intros c r0 pk Hr0 Hl0 Hpa. apply put_cases in Hr0 as [(->&->&_)|[Hic Hr0]].
    + cbn in Hpa. injection Hpa as <-. exists j, r. split_and!; auto. unfold live. by rewrite Hrun.
    + destruct (ki_parent0 c r0 pk Hr0 Hl0 Hpa) as (j'&q'&Hq'&->&?&?&?).
      destruct (Hsame j' q' Hq') as (q1&?&Eg&Ep&El&Es). exists j', q1. rewrite Eg, Ep, El, Es. done.
  - intros c r0 ws Hr0 Hw. assert (∃ r1, k_processes k !! c = Some r1 ∧ p_generation r0 = p_generation r1 ∧
      p_waiting_on r1 = Some ws) as (r1&Hr1&Eg&Hw1).
    { apply put_cases in Hr0 as [(->&->&_)|[_ ?]]; [exists p|exists r0]; done. }
    rewrite Eg. destruct (ki_wait0 c r1 ws Hr1 Hw1) as [|(c'&q'&Hq'&?&?&?)]; [by left|right].
    assert (i ≠ c') by (intros ->; rewrite Hp in Hq'; simplify_eq; congruence). exists c', q'. auto.
  - intros c t e Ht He Hc. destruct (ki_entry0 c t e Ht He Hc) as (r0&c'&g&q0&Hr0&Hch0&Hq0&Hg).
    destruct (Hsame c r0 Hr0) as (r1&?&Eg&_). destruct (decide (i = c')) as [->|]; [|exists r1, c', g, q0; rewrite Eg; auto].
    rewrite Hp in Hq0. simplify_eq. exists r1, c', g, q. split_and!; auto. destruct Hg as [|(->&_&Hg)]; [by left|].
    apply Hg in Hl. congruence.
  - intros key Hk. destruct (ki_ended0 key Hk) as (r0&Hr0&He). destruct (Hsame _ _ Hr0) as (r1&?&Eg&_&_&Es).
    exists r1. by rewrite Es, Eg.
Qed.

(** *** A process is born, in a free slot or in a new one. *)
Lemma fresh_wf pid g c : is_u32 g → reachable c → proc_wf (fresh_process pid g c).
Proof.
  intros. split; try done; cbn; [by left|lia|]. intros t [= <-]. constructor.
Qed.

Lemma kinv_reborn X k i p q n :
  k_processes k !! i = Some p → p_state p = ProcFree → p_generation q = p_generation p →
  p_state q = ProcRunning → p_parent q = None → p_waiting_on q = None → p_pid q = k_next_pid k → k_next_pid k < n →
  proc_wf q → kinv X k →
  kinv X (set_k_lifecycle_tables (<[i := []]> (k_lifecycle_tables k))
    (set_k_mailboxes (<[i := []]> (k_mailboxes k)) (put i q (set_k_next_pid n k)))).
Proof.
  intros Hp Hfree Eg Hrun Hpa Hw Epid Hn Hq [].
  set (k' := set_k_lifecycle_tables _ _).
  assert (k_processes k' = <[i := q]> (k_processes k)) as Epr by done.
  assert (live p = false) as Hlp by (unfold live; by rewrite Hfree).
  assert (live q = true) as Hlq by (unfold live; by rewrite Hrun).
  apply lookup_lt_Some in Hp as Hlen.
  assert (k_processes k' !! i = Some q) as Hqi by (rewrite Epr; by apply list_lookup_insert_eq).
  assert (∀ j r, k_processes k' !! j = Some r → i = j ∧ r = q ∨ i ≠ j ∧ k_processes k !! j = Some r) as Hback.
  { intros j r. rewrite Epr. intros Hr. apply list_lookup_insert_Some in Hr as [(?&?&?)|[? ?]]; [left|right]; by subst. }
  assert (∀ c r, i ≠ c → k_processes k !! c = Some r → k_processes k' !! c = Some r) as Hforw
    by (intros; by rewrite Epr, list_lookup_insert_ne).
  split; try done; try (by cbn; rewrite ?length_insert).
  - apply Forall_insert; [done|cbn; lia].
  - intros j r Hr. destruct (Hback j r Hr) as [[_ ->]|[_ ?]]; eauto.
  - intros j r Hr. change (k_next_pid k') with n. destruct (Hback j r Hr) as [[_ ->]|[_ Hr0]]; [lia|].
    specialize (ki_pid0 j r Hr0). lia.
  - intros j r pk Hr Hl Hpr. destruct (Hback j r Hr) as [[_ ->]|[Hij Hr0]]; [congruence|].
    destruct (ki_parent0 j r pk Hr0 Hl Hpr) as (j'&q'&Hq'&->&?&?&?). exists j', q'. split_and!; auto.
    apply Hforw; [|done]. intros ->. rewrite Hp in Hq'. simplify_eq. congruence.
  - intros j r ws Hr Hws. destruct (Hback j r Hr) as [[_ ->]|[Hij Hr0]]; [congruence|].
    destruct (ki_wait0 j r ws Hr0 Hws) as [|(c&q'&Hq'&?&?&?)]; [by left|right]. exists c, q'. split_and!; auto.
    apply Hforw; [|done]. intros ->. rewrite Hp in Hq'. simplify_eq. congruence.
  - intros j t e Ht He Hc. apply list_lookup_insert_Some in Ht as [(?&<-&?)|[Hij Ht]]; [set_solver|].
    destruct (ki_entry0 j t e Ht He Hc) as (r0&c&g&q0&Hr0&Hch0&Hq0&Hg).
    destruct (decide (i = c)) as [->|]; [|exists r0, c, g, q0; auto]. rewrite Hp in Hq0. simplify_eq.
    exists r0, c, g, q. split_and!; auto. left. rewrite Eg. destruct Hg as [|(_&?&_)]; [lia|done].
  - intros key Hk. destruct (ki_ended0 key Hk) as (r0&Hr0&He). unfold ended.
    destruct (decide (i = slot_of key)) as [->|]; [|exists r0; auto]. rewrite Hp in Hr0. simplify_eq. exists q.
    split; [done|]. left. rewrite Eg. destruct He as [|(_&[|])]; [lia|congruence..].
Qed.

Lemma kinv_born X k q n :
  p_state q = ProcRunning → p_parent q = None → p_waiting_on q = None → p_pid q = k_next_pid k → k_next_pid k < n →
  proc_wf q → kinv X k →
  kinv X (set_k_lifecycle_tables (k_lifecycle_tables k ++ [[]])
    (set_k_mailboxes (k_mailboxes k ++ [[]]) (set_k_processes (k_processes k ++ [q]) (set_k_next_pid n k)))).
Proof.
  intros Hrun Hpa Hw Epid Hn Hq [].
  set (k' := set_k_lifecycle_tables _ _).
  assert (k_processes k' = k_processes k ++ [q]) as Epr by done.
  assert (∀ j r, k_processes k' !! j = Some r → r = q ∨ k_processes k !! j = Some r) as Hback.
  { intros j r. rewrite Epr. intros [?|[_ Hr]]%lookup_app_Some; [by right|left].
    apply list_lookup_singleton_Some in Hr as [_ ->]. done. }
  assert (∀ c r, k_processes k !! c = Some r → k_processes k' !! c = Some r) as Hforw
    by (intros; rewrite Epr; by apply lookup_app_l_Some).
  split; try done; try (cbn; rewrite !length_app; cbn; lia).
  - apply Forall_app. by repeat constructor.
  - intros j r Hr. destruct (Hback j r Hr) as [->|?]; eauto.
  - intros j r Hr. change (k_next_pid k') with n. destruct (Hback j r Hr) as [->|Hr0]; [lia|].
    specialize (ki_pid0 j r Hr0). lia.
  - intros j r pk Hr Hl Hpr. destruct (Hback j r Hr) as [->|Hr0]; [congruence|].
    destruct (ki_parent0 j r pk Hr0 Hl Hpr) as (j'&q'&Hq'&->&?&?&?). exists j', q'. auto.
  - intros j r ws Hr Hws. destruct (Hback j r Hr) as [->|Hr0]; [congruence|].
    destruct (ki_wait0 j r ws Hr0 Hws) as [|(c&q'&Hq'&?&?&?)]; [by left|right]. exists c, q'. auto.
  - intros j t e Ht He Hc. apply lookup_app_Some in Ht as [Ht|[_ Ht]].
    + destruct (ki_entry0 j t e Ht He Hc) as (r0&c&g&q0&Hr0&Hch0&Hq0&Hg). exists r0, c, g, q0. auto.
    + apply list_lookup_singleton_Some in Ht as [_ <-]. set_solver.
  - intros key Hk. destruct (ki_ended0 key Hk) as (r0&Hr0&He). exists r0. auto.
Qed.
End invariant.

Lemma kinv_ended `{Profile} `{Host} f0 M0 (D D' : ProcessKey → Prop) X k :
  kinv f0 M0 D X k → (∀ key, D' key → ended k key) → kinv f0 M0 D' X k.
Proof. by intros [] ?; split. Qed.
