(* ===== verification/KernelSteps.v ===== *)
(** * Kernel operations keep the invariant

    Specifications of the operations of [Kernel]: replies, reclamation, the
    termination of orphans, spawning, capabilities and messages. *)

From S2P Require Import Prelude State CapTable Extents ExtentsFacts Registry PointerFrames HeapLedger.
From S2P Require Import RegistrySafety RegistryOps Fabric FabricTx FabricAuth FabricInv FabricSafety FabricCells FabricHeap.
From S2P Require Import Block Nic Desc Isa Core CoreFault CoreInv FabricMoves CoreEvents.
From S2P Require Import Kernel Syscalls Scheduler KernelLogic KernelDevices KernelInv.

(** A running process that can be replied to *)
Definition running_at (P : Anka64Core → Prop) (i : nat) (k : Kernel) : Prop :=
  ∃ p, k_processes k !! i = Some p ∧ p_state p = ProcRunning ∧ blocked p = false ∧ P (p_core p).
Definition in_event (c : Anka64Core) : Prop := core_event_frames c ≠ [].
Abbreviation serving := (running_at in_event).
Abbreviation calling := (running_at in_syscall).

Lemma in_syscall_event c : in_syscall c → in_event c.
Proof. unfold in_syscall, in_event. by destruct (core_event_frames c). Qed.
Lemma running_at_mono (P Q : Anka64Core → Prop) i k : (∀ c, P c → Q c) → running_at P i k → running_at Q i k.
Proof. intros HP (p&?&?&?&?). exists p. auto. Qed.
Lemma running_at_put_ne P i j q k : i ≠ j → running_at P j k → running_at P j (put i q k).
Proof. intros ? (p&?&?&?&?). exists p. by rewrite put_lookup_ne. Qed.
Lemma running_at_put P i q k : (∃ p, k_processes k !! i = Some p) →
  p_state q = ProcRunning → blocked q = false → P (p_core q) → running_at P i (put i q k).
Proof. intros [p Hp] ? ? ?. exists q. split; [by eapply put_lookup|done]. Qed.

(** Processes that are running and not blocked stay so, with the same core. *)
Definition serves (k k' : Kernel) : Prop := ∀ P i, running_at P i k → running_at P i k'.
#[export] Instance serves_preorder : PreOrder serves.
Proof. split; [by intros k P i|]. intros a b c Hab Hbc P i Hi. by apply Hbc, Hab. Qed.
Lemma serves_same k k' : k_processes k' = k_processes k → serves k k'.
Proof. intros E P i (p&?&?). exists p. by rewrite E. Qed.
Lemma serves_put k i p q : k_processes k !! i = Some p → blocked p = true → serves k (put i q k).
Proof.
  intros Hp Hb P j Hj. apply running_at_put_ne; [|done]. intros ->. destruct Hj as (p'&?&?&?&?). congruence.
Qed.

(** ** Updates of one process *)
Section updates.
Context `{Profile} `{Host}.

Lemma wf_core p c : proc_wf p → reachable c →
  (blocked p = true → in_syscall c) → proc_wf (set_p_core c p).
Proof. intros [] Hc Hs. split; try done. intros Hb. split; [by apply pw_blocked|by apply Hs]. Qed.
Lemma upd_core p c : upd p (set_p_core c p).
Proof. done. Qed.
Lemma set_core_id p : set_p_core (p_core p) p = p.
Proof. by destruct p. Qed.

(** The core of a process after kernel replies: reachable, inside the same events *)
Record core_replied (c c' : Anka64Core) : Prop := {
  cr_reach : reachable c → reachable c';
  cr_events : core_event_frames c' = core_event_frames c;
}.
#[export] Instance core_replied_preorder : PreOrder core_replied.
Proof. split; [by intros c; split|]. intros a b c [] []. split; [auto|congruence]. Qed.

Lemma write_result_replied c r v c' : write_syscall_result c r v = Done c' → core_replied c c'.
Proof.
  intros Hw. split; [intros [G Hr]; exists G; eapply cr_step; [exact Hr|by eapply cs_result]|].
  unfold write_syscall_result in Hw. destruct (write_register c r v) as [c1|] eqn:E; [|done].
  apply write_register_local, cl_frames in E. cbn [mbind outcome_bind] in Hw.
  run_binds Hw; guards; done.
Qed.

Lemma wp_put_results i rs p (Q : unit → Kernel → Prop) k :
  k_processes k !! i = Some p →
  (∀ c, core_replied (p_core p) c → Q tt (put i (set_p_core c p) k)) → wp (put_results i rs) Q k.
Proof.
  intros Hp HQ. unfold put_results.
  eapply wp_mono; [apply (wp_for _ _ (λ _ k', ∃ c, core_replied (p_core p) c ∧ k' = put i (set_p_core c p) k))|].
  - intros x rest k1 (c&Hc&->). apply wp_with_core. intros p1 c1 Hp1 Hw.
    rewrite (put_lookup _ _ _ _ Hp) in Hp1. injection Hp1 as <-. cbn in Hw. exists c1.
    split; [etrans; [done|by eapply write_result_replied]|by rewrite put_put].
  - exists (p_core p). split; [done|]. by rewrite set_core_id, put_id.
  - intros [] k' (c&Hc&->). by apply HQ.
Qed.

(** The event return of a process inside an event succeeds. *)
Lemma wp_resume i p (Q : unit → Kernel → Prop) k :
  k_processes k !! i = Some p → reachable (p_core p) → in_event (p_core p) →
  (∀ c, reachable c → Q tt (put i (set_p_core c p) k)) → wp (resume_from_trap i) Q k.
Proof.
  intros Hp [G Hr] He HQ. unfold resume_from_trap. wp_steps; simplify_eq.
  - apply wp_set_process. apply HQ. exists G. eapply cr_step; [|apply cs_set_pc].
    eapply cr_step; [|apply cs_halted]. eapply cr_step; [exact Hr|by eapply cs_resume].
  - unfold in_event in He. destruct (core_event_frames _) as [|h t] eqn:Ef; [done|].
    destruct (event_returns _ _ _ _ Hr Ef) as (c'&Hc'&_). congruence.
Qed.

Lemma wp_reply i rs p (Q : unit → Kernel → Prop) k :
  k_processes k !! i = Some p → reachable (p_core p) → in_event (p_core p) →
  (∀ c, reachable c → Q tt (put i (set_p_core c p) k)) → wp (reply i rs) Q k.
Proof.
  intros Hp Hr He HQ. unfold reply. apply wp_bind, (wp_put_results i rs p); [done|]. intros c [Hc Hf].
  eapply wp_resume; [by eapply put_lookup|by apply Hc|by unfold in_event; cbn; rewrite Hf|].
  intros c' Hc'. rewrite put_put. by apply HQ.
Qed.
End updates.

(** ** Taking a process apart *)
Section reclaim.
Context `{Profile} `{Host}.

(** The extents the kernel and process [p] hold are in range. *)
Definition extents_ok (p : Process) (k : Kernel) : Prop :=
  Forall extent_wf (k_free_stack_extents k) ∧ Forall extent_wf (k_free_trap_extents k) ∧
  ∀ r, p_resources p = Some r → extent_wf (res_stack_extent r) ∧ extent_wf (res_trap_extent r).

(** Process [i] becomes [q]; the fabric moves; extents may return to the free lists. *)
Record shift (i : nat) (p q : Process) (k k' : Kernel) : Prop := {
  sh_fabric : fab_move (k_fabric k) (k_fabric k');
  sh_at : k_processes k !! i = Some p;
  sh_processes : k_processes k' = <[i := q]> (k_processes k);
  sh_mailboxes : k_mailboxes k' = k_mailboxes k;
  sh_tables : k_lifecycle_tables k' = k_lifecycle_tables k;
  sh_devices : k_devices k' = k_devices k;
  sh_phys : k_next_phys k' = k_next_phys k;
  sh_pid : k_next_pid k' = k_next_pid k;
  sh_extents : extents_ok p k → extents_ok q k';
}.

Lemma shift_trans i p q r k k1 k2 : shift i p q k k1 → shift i q r k1 k2 → shift i p r k k2.
Proof.
  intros [] []. split; try congruence; eauto.
  - by etrans.
  - rewrite sh_processes1, sh_processes0. by rewrite list_insert_insert_eq.
Qed.
Lemma shift_refl i p k : k_processes k !! i = Some p → shift i p p k k.
Proof. intros ?. split; try done. by rewrite list_insert_id. Qed.
Lemma shift_lookup i p q k k' : shift i p q k k' → k_processes k' !! i = Some q.
Proof. intros []. rewrite sh_processes0. apply list_lookup_insert_eq. by eapply lookup_lt_Some. Qed.
Lemma shift_fabric i p k f : k_processes k !! i = Some p → fab_move (k_fabric k) f → shift i p p k (set_k_fabric f k).
Proof. intros ? ?. split; try done. cbn. by rewrite list_insert_id. Qed.
Lemma shift_put i p q k : k_processes k !! i = Some p → p_resources q = p_resources p → shift i p q k (put i q k).
Proof. intros ? Hr. split; try done. unfold extents_ok. cbn. by rewrite Hr. Qed.

Lemma kinv_shift f0 M0 D X i p q k k' :
  shift i p q k k' → upd p q → p_waiting_on q = p_waiting_on p → proc_wf q → kinv f0 M0 D X k → kinv f0 M0 D X k'.
Proof.
  intros [] Hu Hw Hq Hk. assert (kinv f0 M0 D X (put i q (set_k_fabric (k_fabric k') k))) as []
    by (eapply kinv_put; eauto; by apply kinv_fabric).
  destruct sh_extents0 as (?&?&?).
  { destruct Hk. split_and!; try done. exact (pw_resources _ (ki_proc0 i p sh_at0)). }
  assert (k_processes (put i q (set_k_fabric (k_fabric k') k)) = k_processes k') as Epr by done.
  rewrite Epr in *. split; rewrite ?sh_mailboxes0, ?sh_tables0, ?sh_devices0, ?sh_phys0, ?sh_pid0; try done.
  intros key Hd. destruct (ki_ended key Hd) as (r&Hr&?). rewrite Epr in Hr. by exists r.
Qed.

Lemma close_heap_spec i p k : k_processes k !! i = Some p → p_heap_free_wait p = None →
  wp (close_process_heap i) (λ _, shift i p p k) k.
Proof.
  intros Hp Hh. unfold close_process_heap. apply wp_bind, wp_with_process. intros p1 Hp1. simplify_eq.
  assert (set_p_heap_free_wait None p = p) as -> by (destruct p; by simpl in *; subst). rewrite put_id by done.
  wp_steps; try by apply shift_refl. apply wp_modify, shift_fabric; [done|].
  by eapply calm_move, registry_calm, rtc_once, ro_ledger, lo_close_owner.
Qed.

Lemma retire_spec i p k : k_processes k !! i = Some p →
  wp (retire_process_frames i)
    (λ _ k', ∃ c, (reachable (p_core p) → reachable c) ∧ shift i p (set_p_core c p) k k') k.
Proof.
  intros Hp. unfold retire_process_frames. apply wp_bind, wp_get_process. intros p1 Hp1. simplify_eq.
  apply wp_bind, wp_on_fabric. intros f c Hr. run_binds Hr. destruct x as [c1 f1]. guards.
  apply wp_set_process. exists c1. split.
  - intros [G ?]. exists G. eapply cr_step; [done|by eapply cs_retire].
  - eapply shift_trans; [apply (shift_fabric _ _ _ f1 Hp)|by apply shift_put]. by eapply calm_move, retire_all_calm.
Qed.

Lemma release_spec i p k : k_processes k !! i = Some p →
  wp (release_resources i) (λ _, shift i p (set_p_resources None p) k) k.
Proof.
  intros Hp. unfold release_resources. apply wp_bind, wp_get_process. intros p1 Hp1. simplify_eq.
  destruct (p_resources p) as [r|] eqn:Er.
  - apply wp_bind, wp_set_process. do 4 (apply wp_bind, wp_modify). apply wp_modify.
    split; try done.
    + cbn. do 2 (etrans; [apply destroy_object_move|]). apply destroy_domain_move.
    + intros (?&?&Hr). destruct (Hr r Er).
      split; [|split]; cbn; [by apply Forall_app_2, Forall_singleton..|done].
  - apply wp_ret. assert (set_p_resources None p = p) as -> by (destruct p; by simpl in *; subst). by apply shift_refl.
Qed.

Lemma detach_spec i j p k : k_processes k !! i = Some p → wp (detach_input j) (λ _, shift i p p k) k.
Proof. intros ?. apply wp_modify. split; try done. cbn. by rewrite list_insert_id. Qed.

(** The relation between a process and what reclamation leaves in its slot *)
Lemma erase_freed p q :
  p_pid q = p_pid p → p_generation q = p_generation p → p_cap_table q = p_cap_table p → p_resources q = None →
  p_heap_free_wait q = None → (reachable (p_core p) → reachable (p_core q)) → is_u32 (p_generation p) →
  freed p (advance_generation (erase_incarnation q)).
Proof.
  intros Ep Eg Et Er Eh Hc Hu. unfold advance_generation. cbn [p_generation erase_incarnation set_p_exit_code set_p_result
    set_p_async_requests set_p_event_wait set_p_recv_wait set_p_io_wait set_p_waiting_on set_p_parent].
  destruct (checked_add32 (p_generation q) 1) as [g|] eqn:Ec; split; try done; [left|right]; cbn; try done.
  unfold checked_add32 in Ec. case_match; [|done]. injection Ec as <-. bools. rewrite Eg in *.
  split_and!; [done|done|]. unfold is_u32 in *. lia.
Qed.

(** Process [i] is gone from its slot. *)
Record reclaimed (i : nat) (p : Process) (k k' : Kernel) : Prop := {
  rc_at : k_processes k !! i = Some p;
  rc_process : ∃ q, freed p q ∧ k_processes k' = <[i := q]> (k_processes k);
  rc_fabric : fab_move (k_fabric k) (k_fabric k');
  rc_mailboxes : k_mailboxes k' = <[i := []]> (k_mailboxes k);
  rc_tables : k_lifecycle_tables k' = <[i := []]> (k_lifecycle_tables k);
  rc_devices : k_devices k' = k_devices k;
  rc_phys : k_next_phys k' = k_next_phys k;
  rc_pid : k_next_pid k' = k_next_pid k;
  rc_extents : extents_ok p k → Forall extent_wf (k_free_stack_extents k') ∧ Forall extent_wf (k_free_trap_extents k');
}.

Lemma reclaim_spec i p k : k_processes k !! i = Some p → p_heap_free_wait p = None → is_u32 (p_generation p) →
  wp (reclaim_process i) (λ _, reclaimed i p k) k.
Proof.
  intros Hp Hh Hg. unfold reclaim_process.
  apply wp_bind. eapply wp_mono; [by apply close_heap_spec|]. intros [] k1 S1.
  apply wp_bind. eapply wp_mono; [eapply retire_spec, shift_lookup, S1|]. intros [] k2 (c&Hc&S2).
  pose proof (shift_trans _ _ _ _ _ _ _ S1 S2) as S12. clear S1 S2.
  apply wp_bind. eapply wp_mono; [eapply detach_spec, shift_lookup, S12|]. intros [] k3 S3.
  pose proof (shift_trans _ _ _ _ _ _ _ S12 S3) as S13. clear S12 S3.
  apply wp_bind. eapply wp_mono; [eapply release_spec, shift_lookup, S13|]. intros [] k4 S4.
  pose proof (shift_trans _ _ _ _ _ _ _ S13 S4) as S. clear S13 S4.
  set (q := set_p_resources None (set_p_core c p)) in *. pose proof (shift_lookup _ _ _ _ _ S) as Hq.
  apply wp_bind, wp_set_mailbox. intros _. apply wp_bind, wp_set_lifecycle. intros _.
  apply wp_bind, wp_with_process. intros q1 Hq1. cbn in Hq1. rewrite Hq in Hq1. injection Hq1 as <-.
  apply wp_with_process. intros q2 Hq2. rewrite (put_lookup _ _ q) in Hq2 by done. injection Hq2 as <-.
  rewrite put_put. destruct S as [Sf _ Sp Sm St Sd Sph Spi Se]. split; try done.
  - exists (advance_generation (erase_incarnation q)). split; [by apply erase_freed|].
    cbn. rewrite Sp. by rewrite list_insert_insert_eq.
  - cbn. by rewrite Sm.
  - cbn. by rewrite St.
  - intros He. destruct (Se He) as (?&?&_). done.
Qed.

(** Reclamation of a live process without children that nobody waits for *)
Lemma kinv_reclaimed f0 M0 D X i p k k' :
  reclaimed i p k k' → live p = true → childless (process_key i (p_generation p)) k →
  unawaited X i (process_key i (p_generation p)) k →
  kinv f0 M0 D (process_key i (p_generation p) :: X) k → kinv f0 M0 D X k'.
Proof.
  intros [Hp (q&Hf&?)] ? ? ? Hk. destruct rc_extents0.
  { split_and!; [apply Hk|apply Hk|]. exact (pw_resources _ (ki_proc _ _ _ _ _ Hk i p Hp)). }
  by eapply kinv_freed.
Qed.
End reclaim.

(** ** Death *)
Section death.
Context `{Profile} `{Host} (f0 : Fabric) (M0 : list Capability64) (D : ProcessKey → Prop).
Abbreviation kinv := (kinv f0 M0 D).

Lemma freed_from p q r : p_pid q = p_pid p → p_generation q = p_generation p → p_cap_table q = p_cap_table p →
  p_core q = p_core p → freed q r → freed p r.
Proof. intros E1 E2 E3 E4 []. split; congruence || by rewrite <- ?E2, <- ?E4. Qed.
Lemma shift_reclaimed i p q k k1 k2 :
  shift i p q k k1 → p_pid q = p_pid p → p_generation q = p_generation p → p_cap_table q = p_cap_table p →
  p_core q = p_core p → reclaimed i q k1 k2 → reclaimed i p k k2.
Proof.
  intros [] ? ? ? ? [_ (r&Hf&Hr)]. split; try congruence; auto.
  - exists r. split; [by apply (freed_from p q)|]. rewrite Hr, sh_processes0. by rewrite list_insert_insert_eq.
  - by etrans.
Qed.

Lemma dead_unblocked p : proc_wf p → live p = false → blocked p = false.
Proof.
  intros [_ Hb _ _ _ _ _ _ _ _] Hl. destruct (blocked p); [|done]. destruct (Hb eq_refl) as [E _].
  unfold live in Hl. by rewrite E in Hl.
Qed.

(** Every process is as it was, or gone. *)
Definition culled (k k' : Kernel) : Prop :=
  ∀ j r, k_processes k !! j = Some r → ∃ r', k_processes k' !! j = Some r' ∧ (r' = r ∨ live r' = false).
#[local] Instance culled_preorder : PreOrder culled.
Proof.
  split; [intros k j r Hr; exists r; auto|]. intros a b c Hab Hbc j r Hr.
  destruct (Hab j r Hr) as (r1&Hr1&E). destruct (Hbc j r1 Hr1) as (r2&Hr2&E2). exists r2. split; [done|].
  destruct E2 as [->|]; [done|by right].
Qed.
Lemma reclaimed_culled i p k k' : reclaimed i p k k' → culled k k'.
Proof.
  intros [Hp (q&Hf&Hq)] j r Hr. rewrite Hq. destruct (decide (i = j)) as [->|].
  - exists q. split; [apply list_lookup_insert_eq; by eapply lookup_lt_Some|]. right.
    unfold live. destruct (fr_generation _ _ Hf) as [(->&_)|[-> _]]; done.
  - exists r. rewrite list_lookup_insert_ne by done. auto.
Qed.
(** Going back: a live process was there before. *)
Lemma culled_back k k' j r' : culled k k' → length (k_processes k') = length (k_processes k) →
  k_processes k' !! j = Some r' → live r' = true → k_processes k !! j = Some r'.
Proof.
  intros Hc Hl Hr Hlv. destruct (lookup_lt_is_Some_2 (k_processes k) j) as [r Hr0].
  { rewrite <- Hl. by eapply lookup_lt_Some. }
  destruct (Hc j r Hr0) as (r1&Hr1&[->|?]); congruence.
Qed.

(** Nobody outside [X] waits for a process whose parent is in [X] or not waiting. *)
Lemma parent_unawaited X k i p : k_processes k !! i = Some p →
  (∀ pk, p_parent p = Some pk → pk ∈ X ∨
     ∀ j r, k_processes k !! j = Some r → pk = process_key j (p_generation r) → p_waiting_on r = None) →
  kinv (process_key i (p_generation p) :: X) k → unawaited X i (process_key i (p_generation p)) k.
Proof.
  intros Hp Hpa Hk j r ws Hr Hw Hc. destruct (ki_wait _ _ _ _ _ Hk j r ws Hr Hw) as [[Hx|]%elem_of_cons|(c&q&Hq&Hc'&_&Hq')].
  - apply process_key_inj in Hx as [-> _]. by left.
  - by right.
  - rewrite Hc in Hc'. apply process_key_inj in Hc' as [<- _]. rewrite Hp in Hq. simplify_eq.
    destruct (Hpa _ Hq') as [|Hn]; [by right|]. specialize (Hn j r Hr eq_refl). congruence.
Qed.

Lemma reap_spec k i p : k_processes k !! i = Some p → proc_wf p →
  wp (reap i) (λ _ k', if live p then reclaimed i p k k' else k' = k) k.
Proof.
  intros Hp Hwf. unfold reap. apply wp_bind, wp_get_process. intros p1 Hp1. simplify_eq.
  pose proof (pw_free_wait _ Hwf) as Hh. pose proof (pw_generation _ Hwf) as Hg.
  unfold live. destruct (p_state p) eqn:Es; cbn [bool_decide orb]; [| |done..].
  - apply wp_bind. eapply wp_mono; [by apply close_heap_spec|]. intros [] k1 S1.
    apply wp_bind, wp_with_process. intros p1 Hp1'. rewrite (shift_lookup _ _ _ _ _ S1) in Hp1'. injection Hp1' as <-.
    set (z := set_p_state ProcZombie _).
    eapply wp_mono; [apply (reclaim_spec i z); [by eapply put_lookup, shift_lookup|done|done]|].
    intros [] k2 R. eapply shift_reclaimed; [|..|exact R]; try done.
    eapply shift_trans; [exact S1|]. by eapply shift_put; [eapply shift_lookup|].
  - by apply reclaim_spec.
Qed.

Lemma is_child_spec dead p : is_child_of dead p = true ↔ live p = true ∧ p_parent p = Some dead.
Proof.
  unfold is_child_of, live. destruct dead as [s g]. split.
  - destruct (p_parent p) as [[s' g']|]; [|done]. cbn. intros Hb. bools. subst. split; [|done].
    destruct (p_state p); done.
  - intros [Hl ->]. cbn. rewrite !Z.eqb_refl. destruct (p_state p); done.
Qed.
Lemma children_spec procs dead j key :
  (j, key) ∈ children_of procs dead ↔
  ∃ r, procs !! j = Some r ∧ live r = true ∧ p_parent r = Some dead ∧ key = process_key j (p_generation r).
Proof.
  unfold children_of. rewrite list_elem_of_omap. split.
  - intros (o&Ho&Hs). simpl in Hs. subst o. apply elem_of_lookup_imap in Ho as (n&r&E&Hr).
    destruct (is_child_of dead r) eqn:Ec; [|done]. apply is_child_spec in Ec as [? ?]. simplify_eq. eauto 10.
  - intros (r&Hr&Hl&Hpa&->). eexists. split; [|reflexivity]. apply elem_of_lookup_imap. exists j, r. split; [|done].
    by rewrite (proj2 (is_child_spec dead r)).
Qed.

(** [descends k key j]: slot [j] holds a live descendant of [key]. *)
Inductive descends (k : Kernel) (key : ProcessKey) (j : nat) : Prop :=
| desc_child r : k_processes k !! j = Some r → live r = true → p_parent r = Some key → descends k key j
| desc_next i p r : descends k key i → k_processes k !! i = Some p → k_processes k !! j = Some r → live r = true →
    p_parent r = Some (process_key i (p_generation p)) → descends k key j.

(** Every process is as it was, or it was a descendant of [key] and is gone. *)
Definition culled_under (key : ProcessKey) (k k' : Kernel) : Prop :=
  ∀ j r, k_processes k !! j = Some r → ∃ r', k_processes k' !! j = Some r' ∧ (r' = r ∨ live r' = false ∧ descends k key j).
Lemma culled_under_culled key k k' : culled_under key k k' → culled k k'.
Proof. intros Hc j r Hr. destruct (Hc j r Hr) as (r'&?&[->|[? _]]); eauto. Qed.
(** Descendants in a state after a cull were descendants before. *)
Lemma descends_back key k k' j : culled k k' → length (k_processes k') = length (k_processes k) →
  descends k' key j → descends k key j.
Proof.
  intros Hc Hl. induction 1 as [j r Hr Hlr Hpa|j i p r Hd IH Hp Hr Hlr Hpa].
  - eapply desc_child; [by eapply culled_back|done|done].
  - assert (∃ p0, k_processes k !! i = Some p0 ∧ live p0 = true) as (p0&Hp0&Hlp0).
    { destruct IH; eauto. }
    destruct (Hc i p0 Hp0) as (p'&Hp'&E). assert (p' = p) as -> by congruence.
    assert (live p = true) as Hlp. { destruct Hd; congruence. }
    eapply desc_next; [exact IH|by apply (culled_back k k')|by apply (culled_back k k')|done|done].
Qed.
Lemma descends_trans k key c q j : k_processes k !! c = Some q → live q = true → p_parent q = Some key →
  descends k (process_key c (p_generation q)) j → descends k key j.
Proof.
  intros Hq Hl Hpa. induction 1 as [j r Hr Hlr Hpr|j i p r Hd IH Hp Hr Hlr Hpr].
  - eapply (desc_next _ _ _ c); [by eapply (desc_child _ _ _ q)|done|done|done|done].
  - by eapply desc_next.
Qed.

(** What taking down the children of [dead] one after the other maintains: the
    children still there are among the [rest]. *)
Definition cull_inv (dead : ProcessKey) (X : list ProcessKey) (k : Kernel) (rest : list (nat * ProcessKey)) (k1 : Kernel) : Prop :=
  kinv X k1 ∧ culled_under dead k k1 ∧ length (k_processes k1) = length (k_processes k) ∧
  (∀ j r, k_processes k1 !! j = Some r → live r = true → p_parent r = Some dead →
     (j, process_key j (p_generation r)) ∈ rest) ∧
  ∀ x, x ∈ rest → x ∈ children_of (k_processes k) dead.
Lemma cull_inv_start dead X k : kinv X k → cull_inv dead X k (children_of (k_processes k) dead) k.
Proof.
  intros Hk. split_and!; [done|intros j r Hr; exists r; auto|done| |done]. intros j r Hr Hl Hpa. apply children_spec. eauto.
Qed.
Lemma cull_inv_end dead X k k' : cull_inv dead X k [] k' →
  kinv X k' ∧ childless dead k' ∧ culled_under dead k k' ∧ length (k_processes k') = length (k_processes k).
Proof.
  intros (?&?&?&Hno&_). split_and!; try done. intros j r Hr Hl Hpa. specialize (Hno j r Hr Hl Hpa). set_solver.
Qed.

Definition terminates (m : ProcessKey → kernelM unit) : Prop := ∀ dead X k, dead ∈ X → kinv X k →
  wp (m dead) (λ _ k', kinv X k' ∧ childless dead k' ∧ culled_under dead k k' ∧
    length (k_processes k') = length (k_processes k)) k.

Lemma cull_step m dead X k x rest k1 : terminates m → dead ∈ X → cull_inv dead X k (x :: rest) k1 →
  wp (_ ← m x.2; reap x.1) (λ _, cull_inv dead X k rest) k1.
Proof.
  intros Hterm Hd. destruct x as [j key]. intros (Hk1&Hu1&Hl1&Hrest&Hin). cbn [fst snd].
  destruct (proj1 (children_spec (k_processes k) dead j key)) as (r0&Hr0&Hlr0&Hpa0&->); [apply Hin; set_solver|].
  set (key := process_key j (p_generation r0)) in *. apply wp_bind.
  eapply wp_mono; [apply (Hterm key (key :: X)); [set_solver|eapply kinv_weaken; [|done]; set_solver]|].
  intros [] k2 (Hk2&Hch2&Hu2&Hl2).
  pose proof (culled_under_culled _ _ _ Hu1) as Hc1. pose proof (culled_under_culled _ _ _ Hu2) as Hc2.
  assert (culled k k2) as Hc02 by (by etrans). destruct (Hc02 j r0 Hr0) as (r2&Hr2&E2).
  pose proof (ki_proc _ _ _ _ _ Hk2 j r2 Hr2) as Hwf2.
  eapply wp_mono; [apply (reap_spec k2 j r2 Hr2 Hwf2)|]. intros [] k3 Hreap.
  assert (kinv X k3 ∧ culled k2 k3 ∧ length (k_processes k3) = length (k_processes k2) ∧
    (∀ r, k_processes k3 !! j = Some r → live r = false) ∧
    ∀ i, i ≠ j → k_processes k3 !! i = k_processes k2 !! i) as (Hk3&Hc3&Hl3&Hgone&Hoth).
  { destruct (live r2) eqn:Hlr2.
    - destruct E2 as [->|]; [|congruence]. pose proof Hreap as [_ (q&Hf&Hq) _ _ _ _ _ _ _]. split_and!.
      + eapply kinv_reclaimed; [done..| |done]. eapply parent_unawaited; [done| |done]. intros pk Hpk. left. congruence.
      + by eapply reclaimed_culled.
      + rewrite Hq. by rewrite length_insert.
      + intros r. rewrite Hq, list_lookup_insert_eq by (by eapply lookup_lt_Some). intros [= <-].
        unfold live. destruct (fr_generation _ _ Hf) as [(->&_)|[-> _]]; done.
      + intros i Hi. by rewrite Hq, list_lookup_insert_ne.
    - subst k3. split_and!; [|done|done|congruence|done]. eapply kinv_culled; [|done|done].
      intros i' p' Hp' [<- _]%process_key_inj. rewrite Hr2 in Hp'. simplify_eq.
      apply (blocked_false p'). by apply dead_unblocked. }
  split_and!; [done| |congruence| |set_solver].
  + intros i r Hr. destruct (Hu1 i r Hr) as (r1&Hr1&E1). destruct (decide (i = j)) as [->|Hij].
    * destruct (Hc3 j r2 Hr2) as (r3&Hr3&_). exists r3. split; [done|right]. split; [by apply Hgone|].
      assert (r = r0) as -> by congruence. by eapply desc_child.
    * destruct (Hu2 i r1 Hr1) as (r3&Hr3&E3). exists r3. rewrite Hoth by done. split; [done|].
      destruct E3 as [->|[Hl3' Hd3]]; [destruct E1 as [->|[? ?]]; auto|right]. split; [done|].
      eapply descends_trans; [exact Hr0|done|done|]. by apply (descends_back _ k k1).
  + intros j' r' Hr' Hlr' Hpa'. assert (k_processes k1 !! j' = Some r') as Hr1.
    { apply (culled_back k1 k3); [by etrans|congruence|done..]. }
    apply Hrest in Hr1; [|done..]. apply elem_of_cons in Hr1 as [[= ->]|?]; [|done].
    rewrite (Hgone r' Hr') in Hlr'. done.
Qed.

(** The descendants of a process taken down are reclaimed; nothing else changes in
    the process table. *)
Lemma terminate_spec fuel : terminates (terminate_orphans_fuel fuel).
Proof.
  induction fuel as [|fuel IH]; intros dead X k Hd Hk; [by apply wp_lift|].
  cbn [terminate_orphans_fuel]. apply wp_bind, wp_gets.
  eapply wp_mono; [apply (wp_for _ _ (cull_inv dead X k))|by intros [] k'; apply cull_inv_end].
  - intros x rest k1. by apply cull_step.
  - by apply cull_inv_start.
Qed.

(** A process that is not blocked exits: it is a zombie, then its descendants are
    taken down. *)
Definition exited_as (p z : Process) : Prop :=
  p_state z = ProcZombie ∧ p_pid z = p_pid p ∧ p_generation z = p_generation p ∧ p_parent z = p_parent p ∧
  p_waiting_on z = None.

(** [finish_process] up to the point where the children are taken down *)
Definition to_zombie (slot : nat) (result : ProcessResult) : kernelM ProcessKey :=
  _ ← close_process_heap slot;
  _ ← detach_input slot;
  _ ← retire_process_frames slot;
  _ ← with_process slot (λ p, set_p_event_wait None (set_p_state ProcZombie
        (set_p_result (Some result) (set_p_exit_code (exit_code_of result) p))));
  key_of slot.
Lemma finish_zombie i r k : finish_process i r k = (to_zombie i r ≫= terminate_orphans) k.
Proof.
  unfold finish_process, to_zombie, mbind, kernelM_bind. destruct (close_process_heap i k) as [[k1 []]|]; [|done].
  destruct (detach_input i k1) as [[k2 []]|]; [|done]. destruct (retire_process_frames i k2) as [[k3 []]|]; [|done].
  by destruct (with_process i _ k3) as [[k4 []]|].
Qed.
Lemma zombie_spec X k i p r :
  k_processes k !! i = Some p → p_state p = ProcRunning → blocked p = false → kinv X k →
  wp (to_zombie i r) (λ key k1, key = process_key i (p_generation p) ∧ ∃ z, exited_as p z ∧ p_result z = Some r ∧
    k_processes k1 = <[i := z]> (k_processes k) ∧ k_next_pid k1 = k_next_pid k ∧
    kinv (process_key i (p_generation p) :: X) k1) k.
Proof.
  intros Hp Hrun Hb Hk. pose proof (ki_proc _ _ _ _ _ Hk i p Hp) as Hwf. unfold to_zombie.
  apply wp_bind. eapply wp_mono; [apply (close_heap_spec _ _ _ Hp), Hwf|]. intros [] k1 S1.
  apply wp_bind. eapply wp_mono; [eapply detach_spec, shift_lookup, S1|]. intros [] k2 S2.
  pose proof (shift_trans _ _ _ _ _ _ _ S1 S2) as S12. clear S1 S2.
  apply wp_bind. eapply wp_mono; [eapply retire_spec, shift_lookup, S12|]. intros [] k3 (c&Hc&S3).
  pose proof (shift_trans _ _ _ _ _ _ _ S12 S3) as S. clear S12 S3. pose proof (shift_lookup _ _ _ _ _ S) as Hp3.
  assert (proc_wf (set_p_core c p)) as Hwf3 by (apply wf_core; [done|apply Hc, Hwf|congruence]).
  assert (kinv X k3) as Hk3 by (by eapply kinv_shift).
  apply wp_bind, wp_with_process. intros p1 Hp1. rewrite Hp3 in Hp1. injection Hp1 as <-.
  set (z := set_p_event_wait None _). apply blocked_false in Hb as (Hw1&Hw2&Hw3&Hw4).
  assert (proc_wf z) as Hz.
  { destruct Hwf3. split; try done; [|by left].
    intros Hbz. unfold blocked in Hbz. cbn in Hbz. rewrite Hw1, Hw2, Hw3 in Hbz. done. }
  apply wp_bind, wp_get_process. intros p1 Hp1. rewrite (put_lookup i z _ k3 Hp3) in Hp1. injection Hp1 as <-.
  apply wp_ret. split; [done|]. exists z. split; [done|]. split; [done|]. split; [|split].
  - cbn. rewrite (sh_processes _ _ _ _ _ S). by rewrite list_insert_insert_eq.
  - apply (sh_pid _ _ _ _ _ S).
  - by eapply (kinv_zombie _ _ _ _ _ _ (set_p_core c p)).
Qed.

Lemma finish_unfold X k i p r (Q : unit → Kernel → Prop) :
  k_processes k !! i = Some p → p_state p = ProcRunning → blocked p = false → kinv X k →
  (∀ z k1, exited_as p z → p_result z = Some r → k_processes k1 = <[i := z]> (k_processes k) → k_next_pid k1 = k_next_pid k →
     kinv (process_key i (p_generation p) :: X) k1 →
     wp (terminate_orphans (process_key i (p_generation p))) Q k1) →
  wp (finish_process i r) Q k.
Proof.
  intros Hp Hrun Hb Hk HQ. unfold wp at 1. rewrite finish_zombie. apply wp_bind.
  eapply wp_mono; [by apply zombie_spec|]. intros key k1 (->&z&?&?&?&?&?). by apply (HQ z).
Qed.

Lemma finish_spec X k i p r : k_processes k !! i = Some p → p_state p = ProcRunning → blocked p = false →
  kinv X k → wp (finish_process i r) (λ _ k', kinv X k') k.
Proof.
  intros Hp Hrun Hb Hk. eapply finish_unfold; [done..|]. intros z k1 (_&_&_&_&Hzw) _ Hpr _ Hk1.
  set (key := process_key i (p_generation p)) in *. unfold terminate_orphans. apply wp_bind, wp_gets.
  eapply wp_mono; [apply (terminate_spec _ key (key :: X)); [set_solver|done]|].
  intros [] k5 (Hk5&Hch&Hcu&_). apply culled_under_culled in Hcu. eapply kinv_culled; [|done|done]. intros j r' Hr' [<- _]%process_key_inj.
  destruct (Hcu i z) as (z'&Hz'&Ez).
  { rewrite Hpr. apply list_lookup_insert_eq. by eapply lookup_lt_Some. }
  rewrite Hz' in Hr'. injection Hr' as <-. destruct Ez as [->|Hl]; [done|].
  apply (blocked_false z'), dead_unblocked; [by eapply ki_proc|done].
Qed.

(** The exit of a process without children changes no other process. *)
Lemma finish_leaf_spec X k i p r : k_processes k !! i = Some p → p_state p = ProcRunning → blocked p = false →
  childless (process_key i (p_generation p)) k → kinv X k →
  wp (finish_process i r) (λ _ k', kinv X k' ∧ k_next_pid k' = k_next_pid k ∧
    ∃ z, exited_as p z ∧ k_processes k' = <[i := z]> (k_processes k)) k.
Proof.
  intros Hp Hrun Hb Hch Hk. eapply finish_unfold; [done..|]. intros z k1 Hz _ Hpr Hpid Hk1.
  set (key := process_key i (p_generation p)) in *. apply lookup_lt_Some in Hp as Hlt.
  assert (∀ j r', k_processes k1 !! j = Some r' → ∃ r0, k_processes k !! j = Some r0 ∧ p_parent r' = p_parent r0 ∧
    (live r' = true → live r0 = true)) as Hback.
  { intros j r'. rewrite Hpr. intros [(<-&<-&_)|[_ ?]]%list_lookup_insert_Some; [exists p|by exists r'].
    destruct Hz as (?&?&?&?&?). split_and!; try done. intros _. unfold live. by rewrite Hrun. }
  assert (childless key k1) as Hch1.
  { intros j r' Hr' Hl Hpa. destruct (Hback j r' Hr') as (r0&?&E&Hl0). apply (Hch j r0); [done|by apply Hl0|congruence]. }
  assert (children_of (k_processes k1) key = []) as Hnil.
  { apply elem_of_nil_inv. intros [j kj] Hin. apply children_spec in Hin as (r'&Hr'&Hl&Hpa&_). by eapply Hch1. }
  unfold terminate_orphans. apply wp_bind, wp_gets. cbn [terminate_orphans_fuel]. apply wp_bind, wp_gets.
  rewrite Hnil. apply wp_ret. split_and!; [|done|by exists z]. eapply kinv_culled; [|done|done].
  intros j r' Hr' [<- _]%process_key_inj. rewrite Hpr, list_lookup_insert_eq in Hr' by done.
  injection Hr' as <-. apply Hz.
Qed.
End death.

(** ** Birth *)
Section birth.
Context `{Profile} `{Host} (f0 : Fabric) (M0 : list Capability64) (D : ProcessKey → Prop).
Abbreviation kinv := (kinv f0 M0 D).

(** Live processes are as they were. *)
Definition kept (k k' : Kernel) : Prop :=
  ∀ j r, k_processes k !! j = Some r → live r = true → k_processes k' !! j = Some r.
#[export] Instance kept_preorder : PreOrder kept.
Proof. split; [by intros k j r|]. intros a b c Hab Hbc j r Hr Hl. apply Hbc; [by apply Hab|done]. Qed.
Lemma kept_same k k' : k_processes k' = k_processes k → kept k k'.
Proof. intros E j r. by rewrite E. Qed.
Lemma running_live p : p_state p = ProcRunning → live p = true.
Proof. unfold live. by intros ->. Qed.
Lemma running_at_kept P i k k' : kept k k' → running_at P i k → running_at P i k'.
Proof. intros Hk (p&?&?&?&?). exists p. split_and!; try done. apply Hk; [done|by apply running_live]. Qed.

(** A process born since [k] *)
Record born (k k' : Kernel) (i : nat) (q : Process) : Prop := {
  bo_at : k_processes k' !! i = Some q;
  bo_parent : p_parent q = None;
  bo_pid : k_next_pid k ≤ p_pid q;
  bo_live : live q = true;
  bo_kept : kept k k';
  bo_slot r : k_processes k !! i = Some r → live r = false;
}.

Lemma spawn_spec X k c : kinv X k → reachable c →
  wp (spawn c) (λ key k', kinv X k' ∧ ∃ i q, key = process_key i (p_generation q) ∧ born k k' i q ∧
    p_state q = ProcRunning ∧ blocked q = false ∧ k_next_pid k' = p_pid q + 1) k.
Proof.
  intros Hk [G Hc]. unfold spawn. apply wp_bind, wp_gets. apply wp_bind, wp_lift. intros n Hn.
  assert (n = k_next_pid k + 1) as ->.
  { destruct (checked_add (k_next_pid k) 1) eqn:E; [|done]. apply checked_add_Some in E as [_ ->]. by injection Hn. }
  assert (∀ key, reachable (bind_heap_process c key)) as Hbind.
  { intros key. exists G. eapply cr_step; [exact Hc|apply cs_bind_heap]. }
  apply wp_bind, wp_modify, wp_bind, wp_gets. cbn [k_processes set_k_next_pid].
  destruct (position _ _) as [i|] eqn:Epos.
  - apply position_Some in Epos as (p&Hp&Hfree). bools.
    apply wp_bind, wp_get_process. intros p1 Hp1. cbn in Hp1. simplify_eq.
    set (key := process_key i (p_generation p)). set (q := fresh_process _ _ _).
    assert (proc_wf q) as Hq by (apply fresh_wf; [apply (ki_proc _ _ _ _ _ Hk i p Hp)|apply Hbind]).
    apply wp_bind, wp_set_process, wp_bind, wp_set_mailbox. intros _. apply wp_bind, wp_set_lifecycle. intros _.
    apply wp_ret. split; [eapply kinv_same; [reflexivity..|]; apply (kinv_reborn _ _ _ _ k i p q (k_next_pid k + 1)); try done; lia|].
    exists i, q. split_and!; try done. split; try done; try (cbn; lia); cbn.
    + apply list_lookup_insert_eq. by eapply lookup_lt_Some.
    + intros j r Hr Hl. cbn. rewrite list_lookup_insert_ne; [done|].
      intros ->. simplify_eq. unfold live in Hl. by rewrite Hfree in Hl.
    + intros r Hr. simplify_eq. unfold live. by rewrite Hfree.
  - set (q := fresh_process _ _ _). assert (proc_wf q) as Hq by (apply fresh_wf; [done|apply Hbind]).
    do 3 (apply wp_bind, wp_modify). apply wp_ret. split;
      [eapply kinv_same; [reflexivity..|]; apply (kinv_born _ _ _ _ k q (k_next_pid k + 1)); try done; lia|].
    exists (length (k_processes k)), q. split_and!; try done. split; try done; try (cbn; lia); cbn.
    + by rewrite lookup_app_r, Nat.sub_diag by done.
    + intros j r Hr Hl. cbn. by apply lookup_app_l_Some.
    + intros r Hr. apply lookup_lt_Some in Hr. lia.
Qed.

(** The newest process has no children. *)
Lemma newest_childless X k i q : kinv X k → k_processes k !! i = Some q → k_next_pid k = p_pid q + 1 →
  childless (process_key i (p_generation q)) k.
Proof.
  intros Hk Hq Hn j r Hr Hl Hpa. destruct (ki_parent _ _ _ _ _ Hk j r _ Hr Hl Hpa) as (i'&q'&Hq'&E&Hlt&_).
  apply process_key_inj in E as [<- _]. rewrite Hq in Hq'. simplify_eq. pose proof (ki_pid _ _ _ _ _ Hk j r Hr). lia.
Qed.
End birth.
