(* ===== verification/KernelCalls.v ===== *)
(** * System calls keep the kernel invariant *)

From S2P Require Import Prelude State CapTable Extents ExtentsFacts Registry PointerFrames HeapLedger.
From S2P Require Import Fabric FabricTx FabricAuth FabricInv FabricSafety FabricCells FabricHeap.
From S2P Require Import Block Nic Desc Isa Core CoreFault CoreInv FabricMoves CoreEvents.
From S2P Require Import Kernel Syscalls Scheduler KernelLogic KernelDevices KernelInv KernelSteps.

Section calls.
Context `{Profile} `{Host} (f0 : Fabric) (M0 : list Capability64) (D : ProcessKey → Prop).
Abbreviation kinv := (kinv f0 M0 D).

(** Between two steps of a call by process [i], which is inside a trap *)
Definition sound (P : Anka64Core → Prop) (i : nat) (k : Kernel) : Prop := kinv [] k ∧ running_at P i k.
(** From there, [m] completes the call. *)
Definition ends {A} (i : nat) (m : kernelM A) : Prop :=
  ∀ k, sound in_syscall i k → wp m (λ _ k', kinv [] k') k.
(** [m] is a step of the call. *)
Definition steps {A} (i : nat) (m : kernelM A) : Prop :=
  ∀ k, sound in_syscall i k → wp m (λ _ k', sound in_syscall i k') k.

Lemma sound_event i k : sound in_syscall i k → sound in_event i k.
Proof. intros [? ?]. split; [done|]. eapply running_at_mono; [|done]. apply in_syscall_event. Qed.

(** ** What keeps a call going *)
Lemma sound_fabric P i k f : sound P i k → fab_move (k_fabric k) f → sound P i (set_k_fabric f k).
Proof. intros [? ?] ?. split; [by apply kinv_fabric|done]. Qed.
Lemma sound_same P i k k' :
  k_fabric k' = k_fabric k → k_devices k' = k_devices k → k_mailboxes k' = k_mailboxes k →
  k_lifecycle_tables k' = k_lifecycle_tables k → k_next_phys k' = k_next_phys k →
  k_free_stack_extents k' = k_free_stack_extents k → k_free_trap_extents k' = k_free_trap_extents k →
  k_processes k' = k_processes k → k_next_pid k' = k_next_pid k → sound P i k → sound P i k'.
Proof.
  intros E1 E2 E3 E4 E5 E6 E7 E8 E9 [? (p&?)]. split; [by eapply kinv_same|]. exists p. by rewrite E8.
Qed.
Lemma sound_devices P i k l : Forall (λ d, dev_wf (ds_controller d)) l → sound P i k → sound P i (set_k_devices l k).
Proof. intros ? [? ?]. split; [by apply kinv_devices|done]. Qed.
Lemma sound_mailbox P i k j b : (length b ≤ MAX_MAILBOX_SIZE)%nat → sound P i k →
  sound P i (set_k_mailboxes (<[j := b]> (k_mailboxes k)) k).
Proof. intros ? [? ?]. split; [by apply kinv_mailbox|done]. Qed.

(** A process other than the caller changes within its identity. *)
Lemma sound_put_ne P i j p q k : i ≠ j → k_processes k !! j = Some p → upd p q →
  p_waiting_on q = p_waiting_on p ∨ p_waiting_on q = None → proc_wf q → sound P i k → sound P i (put j q k).
Proof. intros ? ? ? ? ? [? ?]. split; [by eapply kinv_put|by apply running_at_put_ne]. Qed.

Lemma wp_sound {A} i (m : kernelM A) Q k : steps i m → sound in_syscall i k →
  (∀ a k', sound in_syscall i k' → Q a k') → wp m Q k.
Proof. intros Hm Hs HQ. eapply wp_mono; [by apply Hm|]. auto. Qed.

(** ** How a call ends *)
Lemma resume_kinv i k : sound in_event i k → wp (resume_from_trap i) (λ _ k', kinv [] k') k.
Proof.
  intros [Hk (p&Hp&Hrun&Hb&He)]. pose proof (ki_proc _ _ _ _ _ Hk i p Hp) as Hwf.
  eapply wp_resume; [done|apply Hwf|done|]. intros c Hc. eapply kinv_put; [done|apply upd_core|by left| |done].
  apply wf_core; [done|done|congruence].
Qed.
Lemma resume_ends i : ends i (resume_from_trap i).
Proof. intros k Hs. by apply resume_kinv, sound_event. Qed.

Lemma put_results_at i rs p k : k_processes k !! i = Some p → sound in_syscall i k →
  wp (put_results i rs) (λ _ k', sound in_syscall i k' ∧ ∃ c, k' = put i (set_p_core c p) k) k.
Proof.
  intros Hp Hs. pose proof (ki_proc _ _ _ _ _ (proj1 Hs) i p Hp) as Hwf. destruct Hs as [Hk (p'&Hp'&Hrun&Hb&He)]. simplify_eq.
  eapply wp_put_results; [done|]. intros c [Hc Hf]. split; [split|by exists c].
  - eapply kinv_put; [done|apply upd_core|by left| |done]. apply wf_core; [done|apply Hc, Hwf|congruence].
  - apply running_at_put; [by eauto|done|done|]. unfold in_syscall. cbn. by rewrite Hf.
Qed.
Lemma put_results_steps i rs : steps i (put_results i rs).
Proof.
  intros k Hs. pose proof Hs as [_ (p&Hp&_)]. eapply wp_mono; [by apply put_results_at|]. by intros [] k' [? _].
Qed.
Lemma reply_ends i rs : ends i (reply i rs).
Proof.
  intros k Hs. unfold reply. apply wp_bind. eapply wp_sound; [apply put_results_steps|done|]. intros [] k' ?. by apply resume_ends.
Qed.
Lemma finish_ends i r : ends i (finish_process i r).
Proof. intros k [Hk (p&?&?&?&?)]. by eapply finish_spec. Qed.

(** Blocking: exactly one reason to wait is set. *)
Lemma block_ends i (g : Process → Process) :
  (∀ p, upd p (g p) ∧ p_core (g p) = p_core p ∧ p_waiting_on (g p) = p_waiting_on p ∧
        (blocked p = false → proc_wf p → in_syscall (p_core p) → p_state p = ProcRunning → proc_wf (g p))) →
  ends i (with_process i g).
Proof.
  intros Hg k [Hk (p&Hp&Hrun&Hb&He)]. apply wp_with_process. intros p1 Hp1. simplify_eq.
  destruct (Hg p) as (?&_&?&Hwf). eapply kinv_put; [done|done|by left| |done].
  apply Hwf; try done. by eapply ki_proc.
Qed.
Lemma block_io_ends i key : ends i (with_process i (set_p_io_wait key)).
Proof.
  apply block_ends. intros p. split_and!; try done. intros Hb [] ? ?. apply blocked_false in Hb as (?&?&?&?).
  split; try done. right. by left.
Qed.
Lemma block_recv_ends i key : ends i (with_process i (set_p_recv_wait key)).
Proof.
  apply block_ends. intros p. split_and!; try done. intros Hb [] ? ?. apply blocked_false in Hb as (?&?&?&?).
  split; try done. right. right. by left.
Qed.
Lemma block_event_ends i w : ends i (with_process i (set_p_event_wait w)).
Proof.
  apply block_ends. intros p. split_and!; try done. intros Hb [] ? ?. apply blocked_false in Hb as (?&?&?&?).
  split; try done. by do 3 right.
Qed.

(** ** Steps of a call *)
Lemma fabric_steps {A} i (g : Fabric → outcome (Fabric * A)) :
  (∀ f f' a, g f = Done (f', a) → fab_move f f') → steps i (on_fabric g).
Proof. intros Hg k Hs. apply wp_on_fabric. intros f a Hf. apply sound_fabric; eauto. Qed.
Lemma fabric_ok_steps {E A} i (g : Fabric → outcome (Fabric * result E A)) :
  (∀ f f' a, g f = Done (f', a) → fab_move f f') → steps i (on_fabric_ok g).
Proof.
  intros Hg k Hs. apply wp_bind. eapply wp_sound; [by apply fabric_steps|done|]. intros a k' Hs'. by apply wp_ret.
Qed.
Lemma set_fabric_steps i g : (∀ f, fab_move f (g f)) → steps i (set_fabric g).
Proof. intros Hg k Hs. apply wp_modify. by apply sound_fabric. Qed.

Lemma read_each_steps i n va acc : steps i (read_each i n va acc).
Proof.
  revert va acc. induction n as [|n IH]; intros va acc k Hs; cbn [read_each]; wp_steps; try done.
  eapply wp_sound; [apply fabric_steps; intros; by eapply read_move|done|]. intros x k1 Hs1. wp_steps; try done. by apply IH.
Qed.

(** Run through the branches of a call; every reply, exit and block ends it. *)
Ltac ends_call :=
  match goal with
  | S : sound _ ?i ?k |- wp (reply ?i _) _ ?k => apply reply_ends; exact S
  | S : sound _ ?i ?k |- wp (finish_process ?i _) _ ?k => apply finish_ends; exact S
  | S : sound _ ?i ?k |- wp (resume_from_trap ?i) _ ?k => apply resume_ends; exact S
  | S : sound _ ?i ?k |- kinv [] ?k => exact (proj1 S)
  end.
Ltac call := cbv beta in *; repeat first [ends_call | wp_step].

Lemma buffer_write_ends i : ends i (handle_buffer_write i).
Proof.
  intros k Hs. unfold handle_buffer_write. call.
  eapply wp_sound; [apply read_each_steps|done|]. intros x k1 Hs1. call. apply wp_modify.
  apply reply_ends. by apply (sound_same _ _ k1).
Qed.

Lemma seal_ends i : ends i (handle_seal i).
Proof.
  intros k Hs. unfold handle_seal. call. apply wp_modify.
  match goal with E : seal_object ?g ?o = (?f, _) |- _ =>
    pose proof (seal_move g o) as Hm; rewrite E in Hm;
    assert (sound in_syscall i (set_k_fabric f k)) as Hs1 by (by apply sound_fabric) end.
  call. eapply wp_sound; [apply set_fabric_steps; intros; apply grant_try_move|done|]. intros [] k1 Hs2. call.
Qed.

(** ** Protected input and output *)
Lemma heap_write_move owner agent p bytes f f' x : heap_write owner agent p bytes f = Done (f', x) → fab_move f f'.
Proof.
  unfold heap_write. intros Hw. destruct (write_heap_bytes _ _ _ _ _) as [[f1|e]|] eqn:E; cbn in Hw; guards; [|done].
  by eapply calm_move, write_heap_calm.
Qed.
Lemma protected_read_steps i ws ks : steps i (protected_read i ws ks).
Proof.
  intros k Hs. unfold protected_read. wp_steps; try done.
  - eapply wp_sound; [apply fabric_ok_steps; intros; by eapply heap_write_move|done|]. intros [x|] k1 Hs1; [|done].
    apply wp_bind, wp_modify, wp_ret. by apply (sound_same _ _ k1).
  - eapply wp_sound; [apply fabric_ok_steps; intros; by eapply write_move|done|]. intros [x|] k1 Hs1; [|done].
    apply wp_bind, wp_modify, wp_ret. by apply (sound_same _ _ k1).
  - apply wp_modify, wp_ret. by apply (sound_same _ _ k).
Qed.
Lemma protected_buffer_read_ends i ws ks : ends i (handle_protected_buffer_read i ws ks).
Proof.
  intros k Hs. unfold handle_protected_buffer_read. apply wp_bind.
  eapply wp_sound; [apply protected_read_steps|done|]. intros x k1 Hs1. call.
Qed.

Lemma protected_byte_steps i c p len o off n : steps i (protected_byte c p len o off n).
Proof.
  intros k Hs. unfold protected_byte. wp_steps; try done.
  eapply wp_sound; [apply fabric_ok_steps; intros; by eapply read_move|done|]. intros [x|] k1 Hs1; [|done]. by apply wp_ret.
Qed.
Lemma protected_bytes_steps i c p len o off n j acc : steps i (protected_bytes c p len o off n j acc).
Proof.
  revert j acc. induction n as [|n IH]; intros j acc k Hs; cbn [protected_bytes]; [by apply wp_ret|].
  apply wp_option. eapply wp_sound; [apply protected_byte_steps|done|]. intros [x|] k1 Hs1; [|done]. by apply IH.
Qed.
Lemma protected_write_steps i ws ks : steps i (protected_write i ws ks).
Proof.
  intros k Hs. unfold protected_write. wp_steps; try done.
  eapply wp_sound; [apply protected_bytes_steps|done|]. intros [x|] k1 Hs1; [|done]. wp_steps; done.
Qed.
Lemma protected_buffer_write_ends i ws ks : ends i (handle_protected_buffer_write i ws ks).
Proof.
  intros k Hs. unfold handle_protected_buffer_write. apply wp_bind.
  eapply wp_sound; [apply protected_write_steps|done|]. intros x k1 Hs1. call.
  apply wp_modify, reply_ends. by apply (sound_same _ _ k1).
Qed.

(** ** Heap calls *)
Lemma commit_heap_steps i permit p status m : steps i (with_core i (λ c, commit_heap_event c permit p status m)).
Proof.
  intros k [Hk (q&Hq&Hrun&Hb&He)]. pose proof (ki_proc _ _ _ _ _ Hk i q Hq) as Hwf.
  apply wp_with_core. intros q1 c Hq1 Hc. simplify_eq.
  assert (reachable c) as Hr by (destruct (pw_core _ Hwf) as [G ?]; exists G; eapply cr_step; [done|by eapply cs_heap_reply]).
  assert (core_event_frames c = core_event_frames (p_core q)) as Hf.
  { unfold commit_heap_event in Hc. run_binds Hc. by guards. }
  split.
  - eapply kinv_put; [done|apply upd_core|by left| |done]. apply wf_core; [done|done|congruence].
  - apply running_at_put; [by eauto|done|done|]. unfold in_syscall. cbn. by rewrite Hf.
Qed.
Lemma malloc_ends i ws ks : ends i (handle_malloc i ws ks).
Proof.
  intros k Hs. unfold handle_malloc. call.
  all: eapply wp_sound; [apply commit_heap_steps|done|]; intros; call.
Qed.
Lemma free_ends i ws ks : ends i (handle_free i ws ks).
Proof.
  intros k Hs. unfold handle_free. call.
  all: eapply wp_sound; [apply commit_heap_steps|done|]; intros; call.
Qed.
End calls.
