(* ===== verification/KernelImages.v ===== *)
(** * Process creation keeps the kernel invariant *)

From S2P Require Import Prelude State CapTable Extents ExtentsFacts Registry PointerFrames HeapLedger.
From S2P Require Import Fabric FabricTx FabricAuth FabricInv FabricSafety FabricCells FabricHeap.
From S2P Require Import Block Nic Desc Isa Core CoreFault CoreInv FabricMoves CoreEvents.
From S2P Require Import Kernel Syscalls Scheduler KernelLogic KernelDevices KernelInv KernelSteps KernelCalls.

Section images.
Context `{Profile} `{Host} (f0 : Fabric) (M0 : list Capability64) (D : ProcessKey → Prop).
Abbreviation kinv := (kinv f0 M0 D).

(** Since [k0] only the machine around the processes changed. *)
Definition around (X : list ProcessKey) (k0 k : Kernel) : Prop :=
  kinv X k ∧ k_processes k = k_processes k0 ∧ k_next_pid k = k_next_pid k0.

Lemma around_fabric X k0 k f : around X k0 k → fab_move (k_fabric k) f → around X k0 (set_k_fabric f k).
Proof. intros (?&?&?) ?. split_and!; try done. by apply kinv_fabric. Qed.
Lemma around_on_fabric {A} X k0 k (g : Fabric → outcome (Fabric * A)) (Q : A → Kernel → Prop) : around X k0 k →
  (∀ f f' a, g f = Done (f', a) → fab_move f f') →
  (∀ a k', around X k0 k' → Q a k') → wp (on_fabric g) Q k.
Proof. intros Ha Hg HQ. apply wp_on_fabric. intros f a Hf. apply HQ, around_fabric; eauto. Qed.
Lemma around_set_fabric X k0 k g (Q : unit → Kernel → Prop) : around X k0 k → (∀ f, fab_move f (g f)) →
  (∀ k', around X k0 k' → Q tt k') → wp (set_fabric g) Q k.
Proof. intros Ha Hg HQ. apply wp_modify, HQ, around_fabric; eauto. Qed.
Lemma around_same X k0 k k' :
  k_fabric k' = k_fabric k → k_devices k' = k_devices k → k_mailboxes k' = k_mailboxes k →
  k_lifecycle_tables k' = k_lifecycle_tables k → k_next_phys k' = k_next_phys k →
  k_free_stack_extents k' = k_free_stack_extents k → k_free_trap_extents k' = k_free_trap_extents k →
  k_processes k' = k_processes k → k_next_pid k' = k_next_pid k → around X k0 k → around X k0 k'.
Proof. intros E1 E2 E3 E4 E5 E6 E7 E8 E9 (?&?&?). split; [by apply (kinv_same _ _ _ _ k)|]. by rewrite E8, E9. Qed.

(** ** Extents *)
Lemma swap_remove_Forall {A} (P : A → Prop) i l : Forall P l → Forall P (swap_remove i l).
Proof.
  intros Hl. unfold swap_remove. destruct (last l) as [x|] eqn:E; [|done]. apply Forall_take, Forall_insert; [done|].
  apply last_Some in E as [l' ->]. apply Forall_app in Hl as [_ Hx]. by inversion_clear Hx.
Qed.
Lemma kinv_free_stacks X k l : Forall extent_wf l → kinv X k → kinv X (set_k_free_stack_extents l k).
Proof. by intros ? []; split. Qed.
Lemma kinv_free_traps X k l : Forall extent_wf l → kinv X k → kinv X (set_k_free_trap_extents l k).
Proof. by intros ? []; split. Qed.
Lemma kinv_next_phys X k n : is_u64 n → kinv X k → kinv X (set_k_next_phys n k).
Proof. by intros ? []; split. Qed.

Lemma bump_spec X k0 k size : around X k0 k → wp (bump_extent size) (λ e k', around X k0 k' ∧ extent_wf e) k.
Proof.
  intros (Hk&?&?). unfold bump_extent. wp_steps. apply wp_modify, wp_ret.
  split; [|apply Hk]. split_and!; try done. apply kinv_next_phys; [by eapply add_u64_range|done].
Qed.
Lemma zero_spec X k0 k e : around X k0 k → wp (zero_extent e) (λ _ k', around X k0 k') k.
Proof.
  intros Ha. eapply around_on_fabric; [done| |auto]. intros f f' [] Hz. run_binds Hz. guards. by eapply zero_move.
Qed.
Lemma alloc_stack_spec X k0 k size : around X k0 k →
  wp (alloc_stack_extent size) (λ e k', around X k0 k' ∧ extent_wf e) k.
Proof.
  intros Ha. unfold alloc_stack_extent. wp_steps; [|by apply bump_spec]. apply wp_modify, wp_bind.
  destruct Ha as (Hk&?&?). pose proof (ki_stacks _ _ _ _ _ Hk) as Hf.
  eapply wp_mono; [apply (zero_spec X k0); split_and!; try done; by apply kinv_free_stacks, Hk; apply swap_remove_Forall|].
  intros [] k1 Ha1. apply wp_ret. split; [done|]. apply (Forall_lookup_1 _ _ n _ Hf). by apply vec_get_Done.
Qed.
Lemma alloc_trap_spec X k0 k size : around X k0 k →
  wp (alloc_trap_extent size) (λ e k', around X k0 k' ∧ extent_wf e) k.
Proof.
  intros Ha. unfold alloc_trap_extent. wp_steps; [|by apply bump_spec]. apply wp_modify, wp_bind.
  destruct Ha as (Hk&?&?). pose proof (ki_traps _ _ _ _ _ Hk) as Hf.
  eapply wp_mono; [apply (zero_spec X k0); split_and!; try done; by apply kinv_free_traps, Hk; apply swap_remove_Forall|].
  intros [] k1 Ha1. apply wp_ret. split; [done|]. apply (Forall_lookup_1 _ _ n _ Hf). by apply vec_get_Done.
Qed.

(** ** The core of an image *)
Lemma image_core_reachable context agent dom desc layout maps so to c :
  image_core context agent dom desc layout maps so to = Done c → reachable c.
Proof.
  unfold image_core. intros Hc. destruct (add_u64 _ (pid_entry desc)) as [pc|]; [|done]. cbn [mbind outcome_bind] in Hc.
  destruct (if negb _ then _ else _) as [m|]; [|done]. cbn [mbind outcome_bind] in Hc.
  destruct (add_u64 (pl_stack_vaddr layout) _) as [sp|]; [|done]. cbn [mbind outcome_bind] in Hc.
  destruct (write_register _ SP sp) as [c1|] eqn:Ew; [|done]. cbn [mbind outcome_bind] in Hc. guards.
  cbn in Ew. injection Ew as <-. exists [].
  eapply cr_step; [eapply cr_step; [apply cr_new|apply (cs_set_pc _ _ pc)]|]. apply (cs_write _ _ SP sp). reflexivity.
Qed.

Lemma admit_spec X k0 k dom desc layout c : around X k0 k → reachable c →
  wp (admit_image dom desc layout c) (λ o k', around X k0 k' ∧ reachable (default c o)) k.
Proof.
  intros Ha [G Hc]. assert (reachable c) as Hr by (by exists G). unfold admit_image. wp_steps; try done.
  all: eapply around_set_fabric; [done|intros; apply register_agent_move|]; intros k1 Ha1; wp_steps.
  all: apply wp_bind, wp_on_fabric; intros f r Hf; apply wp_ret; split;
    [apply around_fabric; [done|]; by eapply calm_move, admit_calm|].
  all: destruct r as [c'|]; cbn; [|done]; exists G; eapply cr_step; [exact Hc|by eapply cs_admit].
Qed.

(** ** A new process *)
Lemma prepare_spec X k dom desc layout maps : kinv X k → is_u64 (pl_stack_size layout) →
  wp (prepare_process dom desc layout maps)
    (λ key k', kinv X k' ∧ ∃ i q, key = process_key i (p_generation q) ∧ born k k' i q) k.
Proof.
  intros Hk Hsize. assert (around X k k) as Ha by done. unfold prepare_process.
  apply wp_bind. eapply wp_mono; [by apply alloc_stack_spec|]. intros se k1 [Ha1 Hse]. clear Ha.
  apply wp_bind. eapply around_on_fabric; [done|by intros ??? ?%alloc_move|]. intros so k2 Ha2. clear Ha1 k1.
  apply wp_bind. eapply around_set_fabric; [done|intros; by apply place_move|]. intros k3 Ha3. clear Ha2 k2.
  apply wp_bind. eapply around_set_fabric; [done|intros; by apply grant_try_move|]. intros k4 Ha4. clear Ha3 k3.
  apply wp_bind. eapply wp_mono; [by apply alloc_trap_spec|]. intros te k5 [Ha5 Hte]. clear Ha4 k4.
  apply wp_bind. eapply around_on_fabric; [done|by intros ??? ?%alloc_move|]. intros to k6 Ha6. clear Ha5 k5.
  apply wp_bind. eapply around_set_fabric; [done|intros; by apply place_move|]. intros k7 Ha7. clear Ha6 k6.
  apply wp_bind, wp_lift. intros h _.
  apply wp_bind. eapply around_on_fabric; [done|intros; by eapply initialize_move|]. intros b k8 Ha8. clear Ha7 k7.
  apply wp_bind. eapply around_set_fabric; [done|intros; by apply seal_move|]. intros k9 Ha9. clear Ha8 k8.
  apply wp_bind. eapply around_set_fabric; [done|intros; by apply grant_try_move|]. intros k10 Ha10. clear Ha9 k9.
  apply wp_bind, wp_gets, wp_bind, wp_lift. intros agent _. apply wp_bind, wp_modify, wp_bind, wp_gets.
  apply wp_bind, wp_lift. intros ctx _. apply wp_bind, wp_modify, wp_bind, wp_lift. intros c Hc.
  apply image_core_reachable in Hc.
  set (k11 := set_k_next_context_id _ _). assert (around X k k11) as Ha11 by (by apply (around_same _ _ k10)).
  clearbody k11. clear Ha10 k10.
  apply wp_bind. eapply wp_mono; [by apply admit_spec|]. intros adm k12 [Ha12 Hadm]. clear Ha11 k11.
  apply wp_bind. destruct Ha12 as (Hk12&Epr&Epid). eapply wp_mono; [by apply spawn_spec|].
  intros key k13 (Hk13&i&q&->&[Hat Hpa Hpid Hlive Hkept Hslot]&Hrun&Hb&Hnext). rewrite slot_of_key.
  apply wp_bind, wp_with_process. intros q1 Hq1. simplify_eq. set (q' := set_p_resources _ q).
  assert (proc_wf q') as Hwf.
  { destruct (ki_proc _ _ _ _ _ Hk13 i q Hat). split; try done; [by intros r [= <-]|].
    intros Hf. change (live q') with (live q) in Hf. congruence. }
  assert (kinv X (put i q' k13)) as Hk14 by (eapply kinv_put; [done|done|by left|done|done]).
  pose proof (put_lookup i q' q k13 Hat) as Hat'. rewrite Epid in Hpid.
  assert (kept k (put i q' k13)) as Hkept'.
  { intros j r Hr Hl. assert (i ≠ j) by (intros ->; rewrite <- Epr in Hr; specialize (Hslot r Hr); congruence).
    rewrite put_lookup_ne by done. apply Hkept; [by rewrite Epr|done]. }
  rewrite Epr in Hslot. apply wp_bind. destruct (is_some adm).
  - do 2 apply wp_ret. split; [done|]. exists i, q'. by split.
  - eapply wp_mono; [apply finish_leaf_spec; [done|done|done| |done]; by apply (newest_childless f0 M0 D X)|].
    intros [] k15 (Hk15&_&z&(Hz&Hzp&Hzg&Hzpa&_)&Hprz). apply wp_ret. split; [done|]. exists i, z. split; [by rewrite Hzg|].
    apply lookup_lt_Some in Hat' as Hlt. split.
    + rewrite Hprz. by apply list_lookup_insert_eq.
    + by rewrite Hzpa.
    + by rewrite Hzp.
    + unfold live. by rewrite Hz.
    + intros j r Hr Hl. rewrite Hprz, list_lookup_insert_ne; [by apply Hkept'|].
      intros ->. specialize (Hslot r Hr). congruence.
    + done.
Qed.

(** ** The authority of a child *)

(** Since [k1] only the fabric changed, and the capabilities [L] found then are in hand. *)
Definition carries (L : list Capability64) (k1 k : Kernel) : Prop :=
  ∃ f, k = set_k_fabric f k1 ∧ fab_carry L (k_fabric k1) f.
Abbreviation sound := (sound f0 M0 D).

Lemma carries_sound P i L k1 k : carries L k1 k → sound P i k1 → sound P i k.
Proof. intros (f&->&Hc) Hs. apply sound_fabric; [done|]. by eapply carry_move. Qed.
Lemma carries_step L k1 k f : carries L k1 k → (∀ M, L ⊆ M → ∃ M', fab_step (k_fabric k) M f M') →
  carries L k1 (set_k_fabric f k).
Proof. intros (g&->&Hc) Hs. exists f. split; [done|]. by eapply carry_trans. Qed.

Lemma derive_or_destroy_carries L k1 k dom p off len q : carries L k1 k → p ∈ L →
  wp (derive_or_destroy dom p off len q) (λ _, carries L k1) k.
Proof.
  intros Hc Hp. unfold derive_or_destroy. wp_steps; apply wp_modify, wp_ret; apply carries_step; try done.
  - intros M HM. eexists. eapply st_derive; [by apply HM|done].
  - intros M HM. eexists. apply st_destroy_domain.
Qed.
Lemma derive_or_destroy_steps i k dom p off len q : sound in_syscall i k → held (k_fabric k) p →
  wp (derive_or_destroy dom p off len q) (λ _ k', sound in_syscall i k') k.
Proof.
  intros Hs Hp. unfold derive_or_destroy. wp_steps; apply wp_modify, wp_ret; apply sound_fabric; try done.
  - by eapply derive_move.
  - apply destroy_domain_move.
Qed.

(** The capabilities behind an image *)
Definition image_caps (a : ImageAuthority) : list Capability64 :=
  ia_code_parent a :: match ia_literals a with Some x => [x.2] | None => [] end.

Lemma image_authority_held i k a : image_authority i k = Done (k, Some a) → Forall (held (k_fabric k)) (image_caps a).
Proof.
  intros Ha. enough (wp (image_authority i) (λ o k', ∀ a, o = Some a → Forall (held (k_fabric k')) (image_caps a)) k) as Hw
    by (by eapply (wp_Done _ _ _ _ _ Hw Ha)).
  clear Ha a. unfold image_authority. wp_steps; try done.
  all: intros a' [= <-]; cbn; repeat constructor; by eapply find_cap_held.
Qed.
Lemma derive_image_carries L k1 k dom a : carries L k1 k → image_caps a ⊆ L →
  wp (derive_image dom a) (λ _, carries L k1) k.
Proof.
  intros Hc HL. unfold derive_image, image_caps in *. apply wp_option.
  eapply wp_mono; [apply (derive_or_destroy_carries L k1); [done|set_solver]|]. intros [[]|] k2 Hc2; [|done].
  wp_steps; [|done]. apply (derive_or_destroy_carries L k1); [done|set_solver].
Qed.

(** A domain with the authority of the image *)
Lemma image_domain_spec {A} i (m : DomainId → kernelM (option A)) a k Q :
  sound in_syscall i k → image_authority i k = Done (k, Some a) →
  (∀ k', sound in_syscall i k' → Q None k' ∧ ∀ dom, wp (m dom) Q k') →
  wp (on_fabric create_domain) (λ dom, wp (_ ←~ derive_image dom a; m dom) Q) k.
Proof.
  intros Hs Ha HQ. apply image_authority_held, carry_held in Ha. apply wp_on_fabric. intros f dom Hf.
  apply wp_option. eapply wp_mono; [apply (derive_image_carries (image_caps a) k); [|done]|].
  - exists f. split; [done|]. eapply carry_trans; [done|]. intros M HM. eexists. by eapply st_create_domain.
  - intros o k2 Hc2. destruct (HQ k2 (carries_sound _ _ _ _ _ Hc2 Hs)). by destruct o.
Qed.

(** ** Children *)

(** [child] is a live child of the calling process [i]. *)
Definition child_of (i : nat) (child : ProcessKey) (k : Kernel) : Prop :=
  ∃ p c q, k_processes k !! i = Some p ∧ k_processes k !! c = Some q ∧ child = process_key c (p_generation q) ∧
    live q = true ∧ p_parent q = Some (process_key i (p_generation p)).

Lemma publish_spec i dom a layout maps k : sound in_syscall i k → is_u64 (pl_stack_size layout) →
  wp (publish_child i dom a layout maps)
    (λ o k', sound in_syscall i k' ∧ ∀ child, o = Some child → child_of i child k') k.
Proof.
  intros [Hk Hrun] Hsz. unfold publish_child. apply wp_bind. eapply wp_mono; [by apply prepare_spec|].
  intros key k1 (Hk1&c&q&->&[Hq Hpa Hpid Hl Hkept Hslot]).
  pose proof (running_at_kept _ _ _ _ Hkept Hrun) as Hrun1. destruct Hrun as (p0&Hp0&Hp0run&_).
  destruct Hrun1 as (p&Hp&Hprun&Hb&Hc). unfold key_of. wp_steps. simplify_eq. rewrite slot_of_key.
  apply wp_with_process. intros q1 Hq1. simplify_eq. apply wp_ret.
  assert (c ≠ i) as Hci. { intros ->. specialize (Hslot p0 Hp0). rewrite running_live in Hslot by done. done. }
  assert (p_pid p < p_pid q) as Hlt.
  { rewrite (Hkept i p0 Hp0 (running_live _ Hp0run)) in Hp. simplify_eq. pose proof (ki_pid _ _ _ _ _ Hk i p Hp0). lia. }
  split.
  - split; [by apply kinv_parent|]. apply running_at_put_ne; [done|]. by exists p.
  - intros child [= <-]. exists p, c, (set_p_parent (Some (process_key i (p_generation p))) q).
    split_and!; [by rewrite put_lookup_ne|by eapply put_lookup|done|done|done].
Qed.

Lemma or_refuse_spec i m k :
  wp m (λ o k', sound in_syscall i k' ∧ ∀ child, o = Some child → child_of i child k') k →
  wp (or_refuse i m) (λ o k', match o with
    | Some child => sound in_syscall i k' ∧ child_of i child k'
    | None => kinv [] k'
    end) k.
Proof.
  intros Hm. unfold or_refuse. apply wp_bind. eapply wp_mono; [exact Hm|]. intros [child|] k' [Hs Hc]; [apply wp_ret; auto|].
  apply wp_bind. eapply wp_mono; [by apply (reply_ends f0 M0 D)|]. intros [] k2 Hk2. by apply wp_ret.
Qed.

Lemma create_child_spec i k : sound in_syscall i k →
  wp (create_child i) (λ o k', match o with
    | Some child => sound in_syscall i k' ∧ child_of i child k'
    | None => kinv [] k'
    end) k.
Proof.
  intros Hs. apply or_refuse_spec. apply wp_option, wp_read; [apply _|]. intros [a|] Ha; [|done].
  apply wp_bind. eapply image_domain_spec; [done..|]. intros k1 Hs1. split; [done|]. intros dom. by apply publish_spec.
Qed.

Lemma derive_grants_steps i dom source l k : sound in_syscall i k →
  wp (derive_grants dom source l) (λ _ k', sound in_syscall i k') k.
Proof.
  revert k. induction l as [|g l IH]; intros k Hs; cbn [derive_grants]; [by apply wp_ret|]. wp_steps.
  match goal with E : unwrap ?o = Done _ |- _ => destruct o eqn:Ef; [|done]; injection E as -> end.
  eapply wp_mono; [apply (derive_or_destroy_steps i k); [done|by eapply find_cap_held]|]. intros [[]|] k1 Hs1; [|done]. by apply IH.
Qed.

Lemma read_layout_size i a k l : read_layout i a k = Done (k, Some l) → is_u64 (pl_stack_size l).
Proof.
  intros Hl. enough (wp (read_layout i a) (λ o _, ∀ l, o = Some l → is_u64 (pl_stack_size l)) k) as Hw
    by (by eapply (wp_Done _ _ _ _ _ Hw Hl)).
  clear Hl l. unfold read_layout. destruct (a =? 0); [apply wp_ret; by intros l [= <-]|]. wp_steps; try done.
  intros l' [= <-]. bools. cbn. unfold MIN_STACK_SIZE, MAX_STACK_SIZE in *. u64_lia.
Qed.

Lemma create_child_env_spec i k : sound in_syscall i k →
  wp (create_child_with_env i) (λ o k', match o with
    | Some child => sound in_syscall i k' ∧ child_of i child k'
    | None => kinv [] k'
    end) k.
Proof.
  intros Hs. unfold create_child_with_env. do 5 (apply wp_bind, wp_read; [apply _|]; intros ? _). apply or_refuse_spec.
  wp_steps; try done. eapply image_domain_spec; [done..|]. intros k1 Hs1. split; [done|]. intros dom.
  apply wp_option. eapply wp_mono; [by apply derive_grants_steps|]. intros [[]|] k2 Hs2; [|done].
  apply publish_spec; [done|]. by eapply read_layout_size.
Qed.
End images.
