(* ===== verification/KernelDispatch.v ===== *)
(** * The system call dispatcher keeps the kernel invariant *)

From S2P Require Import Prelude State CapTable Extents ExtentsFacts Registry PointerFrames HeapLedger.
From S2P Require Import Fabric FabricTx FabricAuth FabricInv FabricSafety FabricCells FabricHeap.
From S2P Require Import Block Nic Desc Isa Core CoreFault CoreInv FabricMoves CoreEvents.
From S2P Require Import Kernel Syscalls Scheduler KernelLogic KernelDevices KernelInv KernelSteps KernelCalls KernelImages.

Section dispatch.
Context `{Profile} `{Host} (f0 : Fabric) (M0 : list Capability64) (D : ProcessKey → Prop).
Abbreviation kinv := (kinv f0 M0 D).
Abbreviation sound := (sound f0 M0 D).
Abbreviation ends := (ends f0 M0 D).
Abbreviation steps := (steps f0 M0 D).

Ltac ends_call :=
  match goal with
  | S : sound _ ?i ?k |- wp (reply ?i _) _ ?k => apply reply_ends; exact S
  | S : sound _ ?i ?k |- wp (finish_process ?i _) _ ?k => apply finish_ends; exact S
  | S : sound _ ?i ?k |- wp (resume_from_trap ?i) _ ?k => apply resume_ends; exact S
  | S : sound _ ?i ?k |- wp (begin_io_wait ?i _ _) _ ?k => apply block_io_ends; exact S
  | S : sound _ ?i ?k |- kinv [] ?k => exact (proj1 S)
  end.
Ltac call := cbv beta in *; repeat first [ends_call | wp_step].

(** ** Lifecycle *)
Lemma kinv_table X k i t : (∀ e, e ∈ t → le_collected e = false → entry_wf (k_processes k) i e) →
  kinv X k → kinv X (set_k_lifecycle_tables (<[i := t]> (k_lifecycle_tables k)) k).
Proof.
  intros Ht []. split; try done; [by cbn; rewrite length_insert|].
  intros j t' e Hj He Hc. cbn in Hj. apply list_lookup_insert_Some in Hj as [(<-&->&_)|[_ Hj]]; [by apply Ht|by eapply ki_entry].
Qed.
Lemma sound_table P i k j t : (∀ e, e ∈ t → le_collected e = false → entry_wf (k_processes k) j e) →
  sound P i k → sound P i (set_k_lifecycle_tables (<[j := t]> (k_lifecycle_tables k)) k).
Proof. intros ? [? ?]. split; [by apply kinv_table|done]. Qed.

(** A call that sets [waiting_on] on a live child *)
Lemma wait_child_kinv i child kind h k : sound in_syscall i k → child_of i child k →
  wp (with_process i (set_p_waiting_on (Some (mkWait child kind h)))) (λ _ k', kinv [] k') k.
Proof.
  intros [Hk (p&Hp&Hrun&Hb&Hs)] (p'&c&q&Hp'&Hq&->&Hl&Hpa). simplify_eq. apply wp_with_process.
  intros p1 Hp1. simplify_eq. apply (kinv_put_wait _ _ _ _ _ _ p); [done|done| | |done].
  - destruct (ki_proc _ _ _ _ _ Hk i p Hp). apply blocked_false in Hb as (?&?&?&?). split; try done. by left.
  - intros ws [= <-]. right. by exists c, q.
Qed.
Lemma exec_ends i : ends i (handle_exec i).
Proof.
  intros k Hs. unfold handle_exec. apply wp_bind. eapply wp_mono; [by apply create_child_spec|].
  intros [child|] k1 Hc; [|by apply wp_ret]. destruct Hc. by apply wait_child_kinv.
Qed.

Lemma reuse_elem i l child l' h e : reuse_lifecycle i l child = Some (l', h) → e ∈ l' →
  e ∈ l ∨ le_child e = child.
Proof.
  revert i l'. induction l as [|x l IH]; intros i l'; cbn; [done|]. intros Hr He.
  destruct (reuse_lifecycle (S i) l child) as [[l1 h1]|] eqn:E; cbn in Hr.
  - destruct (le_collected x); [destruct (checked_add32 _ _)|]; simplify_eq; cbn in *;
      apply elem_of_cons in He as [->|He]; try set_solver; try (by right).
    all: destruct (IH _ _ E He); set_solver.
  - destruct (le_collected x); [destruct (checked_add32 _ _)|]; simplify_eq. apply elem_of_cons in He as [->|He]; [by right|set_solver].
Qed.
Lemma child_entry i child k e : child_of i child k → le_child e = child → entry_wf (k_processes k) i e.
Proof.
  intros (p&c&q&Hp&Hq&->&Hl&Hpa) He. exists p, c, (p_generation q), q. split_and!; try done. right. split_and!; try done.
  intros E. unfold live in Hl. by rewrite E in Hl.
Qed.
Lemma install_lifecycle_steps i child k : sound in_syscall i k → child_of i child k →
  wp (install_lifecycle i child) (λ _ k', sound in_syscall i k') k.
Proof.
  intros Hs Hc. unfold install_lifecycle. wp_steps; subst.
  - apply wp_set_lifecycle. intros _. apply wp_ret. apply sound_table; [|done]. intros e He Hcol.
    match goal with E : reuse_lifecycle _ _ _ = _ |- _ => destruct (reuse_elem _ _ _ _ _ _ E He) end; [|by eapply child_entry].
    eapply ki_entry; [apply Hs|done..].
  - apply wp_set_lifecycle. intros _. apply wp_ret. apply sound_table; [|done]. intros e He Hcol.
    apply elem_of_app in He as [He| ->%list_elem_of_singleton]; [|by eapply child_entry].
    eapply ki_entry; [apply Hs|done..].
Qed.
Lemma spawn_ends i : ends i (handle_spawn i).
Proof.
  intros k Hs. unfold handle_spawn. do 3 (apply wp_bind, wp_read; [apply _|]; intros ? _). apply wp_bind.
  assert (∀ o k', match o with Some child => sound in_syscall i k' ∧ child_of i child k' | None => kinv [] k' end →
    wp match o with Some child => handle ← install_lifecycle i child; reply i [(0, handle)] | None => mret tt end
       (λ _ k', kinv [] k') k') as Hrest.
  { intros [child|] k1 Hc; [|by apply wp_ret]. destruct Hc. apply wp_bind.
    eapply wp_mono; [by apply install_lifecycle_steps|]. intros h k2 Hs2. call. }
  destruct (_ && _ && _); (eapply wp_mono; [|apply Hrest]); [by apply create_child_spec|by apply create_child_env_spec].
Qed.

(** Reclaiming a zombie whose parent, if it has one, does not wait *)
Lemma reclaim_zombie_spec c q k : kinv [] k → k_processes k !! c = Some q → p_state q = ProcZombie →
  (∀ j r, p_parent q = Some (process_key j (p_generation r)) → k_processes k !! j = Some r → p_waiting_on r = None) →
  wp (reclaim_process c) (λ _ k', kinv [] k' ∧ reclaimed c q k k') k.
Proof.
  intros Hk Hq Hz Hpar. pose proof (ki_proc _ _ _ _ _ Hk c q Hq) as Hwf.
  eapply wp_mono; [apply (reclaim_spec c q); [done|apply Hwf|apply Hwf]|]. intros [] k' Hr. split; [|done].
  assert (live q = true) as Hl by (unfold live; by rewrite Hz).
  assert (kinv [process_key c (p_generation q)] k) as Hk1 by (eapply kinv_weaken; [|done]; set_solver).
  eapply kinv_reclaimed; [done..| | |done].
  - intros j r Hj Hlr Hpa. destruct (ki_parent _ _ _ _ _ Hk j r _ Hj Hlr Hpa) as (c'&q'&Hq'&E&_&_&Hs).
    apply process_key_inj in E as [<- _]. simplify_eq. destruct Hs; [congruence|set_solver].
  - eapply parent_unawaited; [done| |done]. intros pk Hpk. right. intros j r Hj ->. by eapply Hpar.
Qed.
Lemma reclaimed_running P i c q k k' : reclaimed c q k k' → i ≠ c → running_at P i k → running_at P i k'.
Proof. intros [_ (r&_&Hr)] ? (p&?&?&?&?). exists p. by rewrite Hr, list_lookup_insert_ne. Qed.

(** The end of a wait: the child of the caller is reclaimed and the caller resumes;
    no other process changes. *)
Lemma reclaim_resume_spec i p c q k : sound in_syscall i k → k_processes k !! i = Some p →
  k_processes k !! c = Some q → p_state q = ProcZombie → p_parent q = Some (process_key i (p_generation p)) →
  wp (_ ← reclaim_process c; resume_from_trap i)
    (λ _ k', kinv [] k' ∧ ∃ q' c', freed q q' ∧ i ≠ c ∧
       k_processes k' = <[i := set_p_core c' p]> (<[c := q']> (k_processes k)) ∧ k_devices k' = k_devices k) k.
Proof.
  intros [Hk Hrun] Hp Hq Hz Hpa. destruct Hrun as (p'&Hp'&Hr&Hb&Hs). assert (p' = p) as -> by congruence.
  assert (i ≠ c) as Hne by (intros ->; congruence).
  apply wp_bind. eapply wp_mono; [apply (reclaim_zombie_spec c q); [done|done|done|]|].
  - intros j r Hj Hr'. rewrite Hpa in Hj. injection Hj as Ej _. apply Nat2Z.inj in Ej as <-. simplify_eq. by apply blocked_false.
  - intros [] k3 [Hk3 Hrec]. pose proof Hrec as [_ (q'&Hf&Hpr) _ _ _ Hdev _ _ _].
    assert (k_processes k3 !! i = Some p) as Hp3 by (by rewrite Hpr, list_lookup_insert_ne).
    pose proof (ki_proc _ _ _ _ _ Hk3 i p Hp3) as Hwf.
    eapply wp_resume; [done|apply Hwf|by apply in_syscall_event|]. intros c' Hc'. split.
    + eapply kinv_put; [done|apply upd_core|by left| |done]. apply wf_core; [done|done|congruence].
    + exists q', c'. split_and!; try done. cbn. by rewrite Hpr.
Qed.

Lemma validate_key_spec procs key i : validate_process_key procs key = Some i →
  ∃ q, procs !! i = Some q ∧ i = slot_of key ∧ p_generation q = pk_generation key ∧ live q = true.
Proof.
  unfold validate_process_key. destruct (_ <=? _); [done|]. destruct (procs !! slot_of key) as [q|] eqn:Hq; [|done].
  cbn. destruct (p_generation q =? pk_generation key) eqn:Eg; [|done]. cbn. intros Hv. bools.
  case_match eqn:Eb; [done|]. injection Hv as <-. bools. exists q. split_and!; try done. unfold live.
  destruct (p_state q); done.
Qed.
Lemma resolve_lifecycle_spec tables i h slot e : resolve_lifecycle tables i h = Some (slot, e) →
  ∃ t, tables !! i = Some t ∧ t !! slot = Some e ∧ le_collected e = false.
Proof.
  unfold resolve_lifecycle. destruct (tables !! i) as [t|]; [|done]. cbn. destruct (t !! _) as [e'|] eqn:He; [|done].
  cbn. destruct (negb _); [done|]. destruct (le_collected e') eqn:Hc; [done|]. intros [= <- <-]. eauto.
Qed.
(** The process a lifecycle handle names, while it lives *)
Lemma entry_child i k slot t e c q : kinv [] k → k_lifecycle_tables k !! i = Some t → t !! slot = Some e →
  le_collected e = false → k_processes k !! c = Some q → slot_of (le_child e) = c →
  p_generation q = pk_generation (le_child e) → live q = true → child_of i (le_child e) k.
Proof.
  intros Hk Ht He Hc Hq Hs Hg Hl. destruct (ki_entry _ _ _ _ _ Hk i t e Ht) as (p&c'&g&q'&Hp&E&Hq'&Hor);
    [by eapply list_elem_of_lookup_2|done|]. rewrite E, slot_of_key in Hs. subst c'. rewrite E in Hg. cbn in Hg. simplify_eq.
  exists p, c, q. rewrite E. destruct Hor as [|(_&_&Hpa)]; [lia|]. split_and!; auto.
Qed.

Lemma collect_sound P i slot k : sound P i k → wp (collect_entry i slot) (λ _ k', sound P i k' ∧ k_processes k' = k_processes k ∧ k_devices k' = k_devices k) k.
Proof.
  intros Hs. unfold collect_entry. wp_steps. apply wp_set_lifecycle. intros _. split; [|done]. apply sound_table; [|done].
  intros e' He Hc. apply list_elem_of_lookup in He as [n He]. apply list_lookup_insert_Some in He as [(_&<-&_)|[_ He]]; [done|].
  eapply ki_entry; [apply Hs|done|by eapply list_elem_of_lookup_2|done].
Qed.

Lemma wait_ends i : ends i (handle_wait i).
Proof.
  intros k Hs. unfold handle_wait. call; subst.
  all: match goal with E : resolve_lifecycle _ _ _ = _ |- _ => apply resolve_lifecycle_spec in E as (t&Ht&He&Hc) end;
    match goal with E : validate_process_key _ _ = _ |- _ => apply validate_key_spec in E as (q&Hq&Hsl&Hg&Hl) end; simplify_eq.
  all: pose proof (entry_child i k _ t _ _ _ (proj1 Hs) Ht He Hc Hq eq_refl Hg Hl) as Hch.
  - bools. eapply wp_mono; [apply (collect_sound in_syscall); done|]. intros [] k1 (Hs1&Epr1&_). apply wp_bind.
    destruct Hch as (p0&c0&q0&Hp0&Hq0&Ech&_&Hpa0). rewrite Ech, slot_of_key in *.
    assert (q0 = q) as -> by congruence. rewrite <- Epr1 in Hp0, Hq0.
    eapply wp_mono; [apply (put_results_at f0 M0 D i _ p0); [done|done]|]. intros [] k2 (Hs2&c1&->).
    eapply wp_mono; [eapply reclaim_resume_spec; [done|by eapply put_lookup| |done|done]|by intros [] k3 [? _]].
    rewrite put_lookup_ne; [done|]. intros ->. destruct Hs1 as [_ (p'&Hp'&?&_)]. simplify_eq. congruence.
  - by apply wait_child_kinv.
Qed.

(** ** Capabilities *)

(** A process changes in what the scheduler does not look at. *)
Lemma sound_put P i j p q k : k_processes k !! j = Some p → upd p q → blocked q = blocked p → p_core q = p_core p →
  p_waiting_on q = p_waiting_on p → proc_wf q → sound P i k → sound P i (put j q k).
Proof.
  intros Hp Hu Hb Hc Hw Hq [Hk (r&Hr&Hrun&Hrb&HP)]. split; [eapply kinv_put; eauto|].
  destruct (decide (j = i)) as [->|]; [|apply running_at_put_ne; [done|]; by exists r]. simplify_eq.
  apply running_at_put; [by eauto|by rewrite (up_state _ _ Hu)|congruence|by rewrite Hc].
Qed.
Lemma wf_table p t t0 : proc_wf p → p_cap_table p = Some t0 → table_step t0 t → proc_wf (set_p_cap_table (Some t) p).
Proof.
  intros [] Ht Hs. split; try done. intros t' [= <-]. eapply rtc_r; [by apply pw_table|done].
Qed.
Lemma serves_change k j p q : k_processes k !! j = Some p → p_state q = p_state p → blocked q = blocked p →
  p_core q = p_core p → serves k (put j q k).
Proof.
  intros Hp Es Eb Ec P i (r&Hr&?&?&?). destruct (decide (j = i)) as [->|]; [|exists r; by rewrite put_lookup_ne].
  exists q. simplify_eq. rewrite Es, Eb, Ec. split; [by eapply put_lookup|done].
Qed.
Lemma set_cap_table_spec j t t0 k : kinv [] k → (∀ p, k_processes k !! j = Some p → p_cap_table p = Some t0) →
  table_step t0 t → wp (set_cap_table j t) (λ _ k', kinv [] k' ∧ serves k k' ∧ ∃ p, k_processes k !! j = Some p ∧
    k' = put j (set_p_cap_table (Some t) p) k) k.
Proof.
  intros Hk Ht Hst. apply wp_with_process. intros p Hp. split_and!; [|by eapply serves_change|by exists p].
  eapply kinv_put; [done|done|by left| |done]. eapply wf_table; [by eapply ki_proc|by apply Ht|done].
Qed.

Lemma cap_drop_ends i : ends i (handle_cap_drop i).
Proof.
  intros k Hs. unfold handle_cap_drop. call; subst.
  match goal with E1 : unwrap (p_cap_table ?p) = Done ?t, E2 : unwrap (drop_handle ?t ?h) = Done _ |- _ =>
    destruct (p_cap_table p) as [t'|] eqn:Et; [|done]; injection E1 as ->;
    destruct (drop_handle t h) as [[a' t1]|] eqn:Ed; [|done]; injection E2 as -> -> end.
  eapply wp_mono; [eapply set_cap_table_spec; [apply Hs| |by eapply step_drop]|].
  { intros p' Hp'. simplify_eq. done. }
  intros [] k1 (Hk1&Hsv&p1&Hp1&Ek1). assert (sound in_syscall i k1) as Hs1 by (split; [done|apply Hsv, Hs]).
  wp_steps. apply wp_modify.
  match goal with E : remove_by_authority_id ?f ?d ?x = (?f', _) |- _ => pose proof (remove_move f d x) as Hm; rewrite E in Hm;
    assert (sound in_syscall i (set_k_fabric f' k1)) as Hs2 by (apply sound_fabric; [done|by rewrite Ek1]) end.
  call.
Qed.

(** Between choosing the route of a message and delivering it, the destination keeps
    what the route depends on. *)
Record same_peers (k k' : Kernel) : Prop := {
  sp_process j p : k_processes k !! j = Some p →
    ∃ p', k_processes k' !! j = Some p' ∧ p_recv_wait p' = p_recv_wait p;
  sp_mailboxes : k_mailboxes k' = k_mailboxes k;
}.
#[local] Instance same_peers_preorder : PreOrder same_peers.
Proof.
  split; [by intros k; split; eauto|]. intros a b c [Hab ?] [Hbc ?]. split; [|congruence].
  intros j p Hp. destruct (Hab j p Hp) as (p1&Hp1&E1). destruct (Hbc j p1 Hp1) as (p2&Hp2&E2). exists p2. split; congruence.
Qed.
Lemma same_peers_same k k' : k_processes k' = k_processes k → k_mailboxes k' = k_mailboxes k → same_peers k k'.
Proof. intros E1 E2. split; [|done]. rewrite E1. eauto. Qed.
Lemma same_peers_put k j p q : k_processes k !! j = Some p → p_recv_wait q = p_recv_wait p → same_peers k (put j q k).
Proof.
  intros Hp Hr. split; [|done]. intros j' p' Hp'. destruct (decide (j = j')) as [->|].
  - simplify_eq. exists q. split; [by eapply put_lookup|done].
  - exists p'. by rewrite put_lookup_ne.
Qed.

Lemma install_or_rollback_spec j dom id install k :
  (∀ t h t', install t = Some (h, t') → table_step t t') → kinv [] k →
  wp (install_or_rollback j dom id install) (λ _ k', kinv [] k' ∧ serves k k' ∧ same_peers k k') k.
Proof.
  intros Hi Hk. unfold install_or_rollback. apply wp_bind, wp_get_process. intros p Hp.
  destruct (t ← p_cap_table p; install t) as [[h t']|] eqn:E.
  - destruct (p_cap_table p) as [t|] eqn:Et; [|done]. cbn in E. apply wp_bind.
    eapply wp_mono; [eapply set_cap_table_spec; [done| |by eapply Hi]|]; [intros; by simplify_eq|].
    intros [] k' (Hk'&Hsv&p'&Hp'&->). apply wp_ret. split_and!; [done|done|]. by eapply same_peers_put.
  - apply wp_bind, wp_modify, wp_ret.
    split_and!; [apply kinv_fabric; [apply remove_move|done]|by apply serves_same|by apply same_peers_same].
Qed.

Lemma commit_transfer_sound i sd sa j dd t aid tid k : sound in_syscall i k →
  wp (commit_transfer sd sa j dd t aid tid) (λ _ k', sound in_syscall i k' ∧ same_peers k k') k.
Proof.
  intros Hs. unfold commit_transfer. wp_steps; try done; subst; apply wp_modify, wp_bind.
  all: match goal with S : sound _ ?i ?k |- wp _ _ (set_k_fabric ?f ?k) =>
    assert (sound in_syscall i (set_k_fabric f k)) as Hs1
      by (apply sound_fabric; [done|]; first [by eapply derive_from_move|by eapply derive_device_move]) end.
  all: eapply wp_mono; [apply install_or_rollback_spec; [|apply Hs1]|].
  1: intros; by eapply step_install_memory.
  2: intros; by eapply step_install_device.
  all: intros o k1 (Hk2&Hsv&Hp2); apply wp_ret; split; [split; [done|apply Hsv, Hs1]|].
  all: etrans; [|done]; by apply same_peers_same.
Qed.

(** ** Messages *)

(** The route still applies. *)
Definition routed (j : nat) (r : DeliveryRoute) (k : Kernel) : Prop :=
  match r with
  | RouteDirect => ∃ p, k_processes k !! j = Some p ∧ is_Some (p_recv_wait p)
  | RouteEnqueue => ∃ b, k_mailboxes k !! j = Some b ∧ (length b < MAX_MAILBOX_SIZE)%nat
  | RouteFull => True
  end.
Lemma routed_same j r k k' : same_peers k k' → routed j r k → routed j r k'.
Proof.
  intros [Hp Hm]. destruct r; cbn; [|by rewrite Hm|done]. intros (p&Hl&Hr). destruct (Hp j p Hl) as (p'&?&E).
  exists p'. by rewrite E.
Qed.
Lemma route_spec j s k r : message_route j s k = Done (k, r) → routed j r k.
Proof.
  intros Hm. enough (wp (message_route j s) (λ r k', routed j r k') k) as Hw by (exact (wp_Done _ _ _ _ _ Hw Hm)).
  clear Hm r. unfold message_route. wp_steps; cbn.
  - exists p. split; [done|]. unfold is_some_and in *. by destruct (p_recv_wait p).
  - case_match eqn:E; [|done]. eexists. split; [done|]. by apply Nat.ltb_lt.
Qed.

(** Ending the wait of a process blocked in a receive *)
Lemma complete_recv_spec i o p k : kinv [] k → k_processes k !! i = Some p → is_Some (p_recv_wait p) →
  wp (complete_recv_wait i o) (λ _ k', kinv [] k' ∧ ∃ c, k' = put i (set_p_core c (set_p_recv_wait None p)) k) k.
Proof.
  intros Hk Hp [peer Hr]. pose proof (ki_proc _ _ _ _ _ Hk i p Hp) as Hwf. unfold complete_recv_wait.
  assert (blocked p = true) as Hb by (unfold blocked; rewrite Hr; destruct (p_waiting_on p), (p_io_wait p); done).
  destruct (pw_blocked _ Hwf Hb) as [Hrun Hsys].
  assert (blocked (set_p_recv_wait None p) = false) as Hb'.
  { unfold blocked. cbn. destruct (pw_one _ Hwf) as [|[|[(->&->&->)|]]]; [| |done|]; destruct_and!; congruence. }
  apply wp_bind, wp_with_process. intros p1 Hp1. simplify_eq. set (q := set_p_recv_wait None p) in *.
  eapply wp_reply; [by eapply put_lookup|apply Hwf|by apply in_syscall_event|]. intros c Hc. rewrite put_put. split; [|by exists c].
  eapply kinv_put; [done|done|by left| |done]. destruct Hwf. split; try done.
  - intros E. change (blocked (set_p_core c q)) with (blocked q) in E. congruence.
  - apply blocked_false in Hb' as (?&?&?&?). by left.
Qed.

Lemma deliver_sound P i j m r k : sound P i k → routed j r k →
  wp (deliver_message j m r) (λ _ k', sound P i k') k.
Proof.
  intros Hs Hr. unfold deliver_message. do 2 (apply wp_bind, wp_read; [apply _|]; intros ? _).
  destruct r; cbn in Hr.
  - destruct Hr as (p&Hp&Hrw). destruct Hs as [Hk Hrun]. eapply wp_mono; [by apply complete_recv_spec|].
    intros [] k' (Hk'&c&->). split; [done|]. apply running_at_put_ne; [|done]. intros ->.
    destruct Hrun as (p'&Hp'&_&Hb&_). simplify_eq. apply blocked_false in Hb as (_&_&E&_). rewrite E in Hrw. by destruct Hrw.
  - destruct Hr as (b&Hb&Hl). apply wp_bind, wp_get_mailbox. intros b' Hb'. simplify_eq. apply wp_set_mailbox. intros _.
    apply sound_mailbox; [|done]. rewrite length_app. cbn. lia.
  - by apply wp_lift.
Qed.

Lemma send_cap_steps i : steps i (send_cap i).
Proof.
  intros k Hs. unfold send_cap. wp_steps; try done.
  match goal with E : message_route ?j _ _ = Done (_, ?r) |- _ => apply route_spec in E as Hr end.
  match goal with |- wp allocate_authority _ _ => unfold allocate_authority; wp_steps; try done end. subst. apply wp_modify, wp_ret.
  match goal with E : alloc_authority_id _ = Some (?f, _) |- _ =>
    assert (sound in_syscall i (set_k_fabric f k)) as Hs1 by (apply sound_fabric; [done|]; by eapply alloc_authority_move) end.
  apply wp_bind. unfold alloc_delegation_id. wp_steps; try done. apply wp_modify, wp_ret. wp_steps; try done.
  match goal with |- wp _ _ ?k2 => assert (sound in_syscall i k2) as Hs2 by (by eapply sound_same; [..|exact Hs1]);
    assert (same_peers k k2) as Hp2 by (by apply same_peers_same) end.
  eapply wp_mono; [by apply commit_transfer_sound|]. intros [h|e] k3 [Hs3 Hp3]; [|done]. apply wp_bind.
  eapply wp_mono; [apply deliver_sound; [done|]; eapply routed_same; [exact Hp3|]; by eapply routed_same|].
  intros [] k4 Hs4. by apply wp_ret.
Qed.
Lemma handle_send_cap_ends i : ends i (handle_send_cap i).
Proof.
  intros k Hs. unfold handle_send_cap. apply wp_bind. eapply wp_sound; [apply send_cap_steps|done|]. intros r k1 Hs1. call.
Qed.

Lemma send_ends i : ends i (handle_send i).
Proof.
  intros k Hs. unfold handle_send. call. eapply wp_mono; [apply deliver_sound; [done|by eapply route_spec]|].
  intros [] k1 Hs1. call.
Qed.
Lemma send_key_ends i : ends i (handle_send_key i).
Proof.
  intros k Hs. unfold handle_send_key. call. eapply wp_mono; [apply deliver_sound; [done|by eapply route_spec]|].
  intros [] k1 Hs1. call.
Qed.

(** A shorter mailbox *)
Lemma mailbox_bounded i k b : kinv [] k → k_mailboxes k !! i = Some b → (length b ≤ MAX_MAILBOX_SIZE)%nat.
Proof. intros Hk Hb. exact (Forall_lookup_1 _ _ _ _ (ki_bounded _ _ _ _ _ Hk) Hb). Qed.
Lemma recv_ends i : ends i (handle_recv i).
Proof.
  intros k Hs. unfold handle_recv. call. apply wp_set_mailbox. intros _. apply (reply_ends f0 M0 D). apply sound_mailbox; [|done].
  rewrite length_take. match goal with E : k_mailboxes k !! i = Some _ |- _ => pose proof (mailbox_bounded i k _ (proj1 Hs) E) end. lia.
Qed.

(** An outcome delivered to the caller itself *)
Lemma own_recv_ends i o : ends i (complete_recv_wait i o).
Proof.
  intros k Hs. unfold complete_recv_wait. apply wp_bind, wp_with_process. intros p Hp.
  assert (set_p_recv_wait None p = p) as ->.
  { destruct Hs as [_ (p'&Hp'&_&Hb&_)]. assert (p' = p) as -> by congruence. apply blocked_false in Hb as (_&_&E&_).
    by destruct p; simpl in *; subst. }
  rewrite put_id by done. by apply reply_ends.
Qed.
Lemma recv_wait_ends i : ends i (handle_recv_wait i).
Proof.
  intros k Hs. unfold handle_recv_wait. call.
  all: try (by apply own_recv_ends); try (by apply (block_recv_ends f0 M0 D)).
  apply wp_set_mailbox. intros _. apply own_recv_ends. apply sound_mailbox; [|done].
  match goal with E : k_mailboxes k !! i = Some _ |- _ => pose proof (mailbox_bounded i k _ (proj1 Hs) E) end.
  rewrite length_delete; [lia|]. match goal with E : vec_get _ _ = Done _ |- _ => apply vec_get_Done in E; by eexists end.
Qed.

(** ** Devices *)
Lemma set_controller_sound P i n c k : dev_wf c → sound P i k →
  wp (set_controller n c) (λ _ k', sound P i k' ∧ k_processes k' = k_processes k) k.
Proof.
  intros Hc Hs. apply wp_set_controller. intros d Hd. split; [|done]. apply sound_devices; [|done]. apply Forall_insert; [|done].
  apply (ki_devices _ _ _ _ _ (proj1 Hs)).
Qed.
Lemma device_wf_at i P n d k : sound P i k → k_devices k !! n = Some d → dev_wf (ds_controller d).
Proof. intros [Hk _] Hd. exact (Forall_lookup_1 _ _ _ _ (ki_devices _ _ _ _ _ Hk) Hd). Qed.

Lemma submit_block_sound i b r k : sound in_syscall i k →
  wp (submit_block b r) (λ _ k', sound in_syscall i k' ∧ k_processes k' = k_processes k) k.
Proof.
  intros Hs. unfold submit_block. wp_steps; try done. apply wp_modify, wp_bind.
  match goal with E : block_submit _ _ _ = Done ?x |- _ => destruct x as [[c1 f1] res]; cbn [fst snd] in *;
    assert (sound in_syscall i (set_k_fabric f1 k)) as Hs1 by (apply sound_fabric; [done|by eapply block_submit_move]) end.
  eapply wp_mono; [apply (set_controller_sound in_syscall i); [|exact Hs1]|intros [] k2 Hs2; by apply wp_ret].
  match goal with E : vec_get _ _ = Done ?d |- _ => apply vec_get_Done, (device_wf_at i in_syscall _ _ k) in E; [|done] end.
  eapply block_submit_wf; [|done]. congruence.
Qed.
Lemma block_read_ends i : ends i (handle_block_read i).
Proof.
  intros k Hs. unfold handle_block_read. call. eapply wp_mono; [by apply submit_block_sound|]. intros x k1 [Hs1 _]. call.
Qed.
Lemma dev_submit_ends i : ends i (handle_dev_submit i).
Proof.
  intros k Hs. unfold handle_dev_submit, fail_dev_submit. call. eapply wp_mono; [by apply submit_block_sound|]. intros x k1 [Hs1 _]. call.
Qed.
Lemma dev_submit_async_ends i : ends i (handle_dev_submit_async i).
Proof.
  intros k Hs. unfold handle_dev_submit_async, fail_dev_submit. call.
  eapply wp_mono; [by apply submit_block_sound|]. intros x k1 [Hs1 Epr]. call. apply wp_with_process. intros q Hq.
  apply (reply_ends f0 M0 D). eapply sound_put; [done|done|done|done|done| |done].
  destruct (ki_proc _ _ _ _ _ (proj1 Hs1) i q Hq). split; try done. cbn. rewrite length_app. cbn.
  rewrite Epr in Hq. simplify_eq. match goal with E : (_ <=? _)%nat = false |- _ => apply Nat.leb_gt in E end. lia.
Qed.

Lemma dev_wait_ends i : ends i (handle_dev_wait i).
Proof.
  intros k Hs. unfold handle_dev_wait. call; [|by apply (block_io_ends f0 M0 D)].
  eapply wp_sound; [apply put_results_steps|done|]. intros [] k1 Hs1. apply wp_bind, wp_with_process. intros q Hq.
  apply (resume_ends f0 M0 D). eapply sound_put; [done|done|done|done|done| |done].
  destruct (ki_proc _ _ _ _ _ (proj1 Hs1) i q Hq). split; try done. cbn.
  etrans; [apply length_delete_le|exact pw_async].
Qed.
Lemma dev_event_wait_ends i : ends i (handle_dev_event_wait i).
Proof.
  intros k Hs. unfold handle_dev_event_wait, event_wait. call.
  eapply wp_mono; [by apply (block_event_ends f0 M0 D)|]. intros [] k1 Hk1. by do 2 apply wp_ret.
Qed.

Lemma submit_nic_steps {R} i b (submit : NicController → Fabric → outcome (NicController * Fabric * R)) :
  (∀ c f c' f' r, submit c f = Done (c', f', r) → fab_move f f' ∧ (dev_wf (DevNic c) → dev_wf (DevNic c'))) →
  steps i (submit_nic b submit).
Proof.
  intros Hsub k Hs. unfold submit_nic. wp_steps; try done. apply wp_modify, wp_bind.
  match goal with E : submit _ _ = Done ?x |- _ => destruct x as [[c1 f1] res]; cbn [fst snd] in *; apply Hsub in E as [Hm Hwf] end.
  assert (sound in_syscall i (set_k_fabric f1 k)) as Hs1 by (by apply sound_fabric).
  eapply wp_mono; [apply (set_controller_sound in_syscall i); [|exact Hs1]|intros [] k2 [Hs2 _]; by apply wp_ret].
  apply Hwf. match goal with E : vec_get _ _ = Done ?d |- _ => apply vec_get_Done, (device_wf_at i in_syscall _ _ k) in E; [|done];
    destruct (ds_controller d); [done|] end. cbn in *. simplify_eq. done.
Qed.
Lemma nic_rx_ends i : ends i (handle_nic_rx i).
Proof.
  intros k Hs. unfold handle_nic_rx, fail_nic. call. eapply wp_sound; [apply submit_nic_steps|done|intros x k1 Hs1; call].
  intros. split; [by eapply submit_rx_move|intros; by eapply submit_rx_wf].
Qed.
Lemma nic_tx_ends i : ends i (handle_nic_tx i).
Proof.
  intros k Hs. unfold handle_nic_tx, fail_nic. call. eapply wp_sound; [apply submit_nic_steps|done|intros x k1 Hs1; call].
  intros. split; [by eapply submit_tx_move|intros; by eapply submit_tx_wf].
Qed.

(** ** Dispatch *)
Lemma plain_ends i : ends i (plain_syscall i).
Proof.
  intros k Hs. unfold plain_syscall. apply wp_bind, wp_read; [apply _|]. intros n _.
  repeat match goal with |- wp (match ?x with _ => _ end) _ _ => destruct x end; call.
  all: first
    [ by apply buffer_write_ends | by apply send_ends | by apply recv_ends | by apply (seal_ends f0 M0 D) | by apply exec_ends
    | by apply spawn_ends | by apply wait_ends | by apply block_read_ends | by apply cap_drop_ends
    | by apply handle_send_cap_ends | by apply send_key_ends | by apply dev_submit_ends | by apply recv_wait_ends
    | by apply dev_submit_async_ends | by apply dev_wait_ends | by apply dev_event_wait_ends | by apply nic_rx_ends
    | by apply nic_tx_ends ].
Qed.
Lemma protected_ends i ws ks : ends i (protected_syscall i ws ks).
Proof.
  intros k Hs. unfold protected_syscall. call.
  - by apply protected_buffer_write_ends.
  - by apply protected_buffer_read_ends.
  - by apply malloc_ends.
  - by apply free_ends.
Qed.
Lemma syscall_ends i : ends i (handle_syscall i).
Proof.
  intros k Hs. unfold handle_syscall. call; [by apply protected_ends|by apply plain_ends].
Qed.
End dispatch.
