(* ===== verification/KernelSched.v ===== *)
(** * The scheduler keeps the kernel invariant *)

From S2P Require Import Prelude State CapTable Extents ExtentsFacts Registry PointerFrames HeapLedger.
From S2P Require Import RegistrySafety Fabric FabricTx FabricAuth FabricInv FabricSafety FabricCells FabricHeap.
From S2P Require Import Block Nic Desc Isa Core CoreFault CoreInv FabricMoves CoreEvents.
From S2P Require Import Kernel Syscalls Scheduler KernelLogic KernelDevices KernelInv KernelSteps KernelCalls.
From S2P Require Import KernelImages KernelDispatch.

(** The selection of blocked processes by slot *)
Lemma imap_slots {A B} (g : nat → A → option (nat * B)) l : (∀ i x y, g i x = Some y → y.1 = i) →
  NoDup (omap (λ x, x) (imap g l)).*1.
Proof.
  intros Hg. enough (∀ (h : nat → A → option (nat * B)) n, (∀ i x y, h i x = Some y → y.1 = (n + i)%nat) →
    NoDup (omap (λ x, x) (imap h l)).*1 ∧ Forall (λ j, (n ≤ j)%nat) (omap (λ x, x) (imap h l)).*1) as Hn by (by apply (Hn g 0%nat)).
  clear g Hg. induction l as [|x l IH]; intros h n Hh; [split; constructor|]. cbn.
  destruct (IH (h ∘ S) (S n)) as [Hnd Hall]; [intros i y z Hz; rewrite (Hh _ _ _ Hz); lia|].
  assert (Forall (λ j, (n ≤ j)%nat) (omap (λ x, x) (imap (h ∘ S) l)).*1) as Hall'
    by (eapply Forall_impl; [exact Hall|]; cbn; lia).
  destruct (h 0%nat x) as [y|] eqn:Ey; cbn; [|done]. apply Hh in Ey. split; constructor; try done; [|lia].
  intros Hin. rewrite Forall_forall in Hall. specialize (Hall _ Hin). cbn in Hall. lia.
Qed.

(** ** Settling

    Devices are as they were; processes keep identity and state, or were zombies;
    waits for a message or an event only go away. *)
Record settles (k k' : Kernel) : Prop := {
  se_devices : k_devices k' = k_devices k;
  se_back j q' : k_processes k' !! j = Some q' → ∃ q, k_processes k !! j = Some q ∧
    (p_generation q' = p_generation q ∧ p_state q' = p_state q ∨ p_state q = ProcZombie) ∧
    (p_recv_wait q' = None ∨
       p_recv_wait q' = p_recv_wait q ∧ p_generation q' = p_generation q ∧ p_state q' = p_state q) ∧
    (p_event_wait q' = None ∨ p_event_wait q' = p_event_wait q ∧ p_state q' = p_state q);
}.
#[export] Instance settles_preorder : PreOrder settles.
Proof.
  split; [intros k; split; [done|]; intros j q Hq; exists q; auto 10|].
  intros a b c [Hd1 H1] [Hd2 H2]. split; [congruence|]. intros j r Hr.
  destruct (H2 j r Hr) as (q&Hq&I2&R2&E2). destruct (H1 j q Hq) as (p&Hp&I1&R1&E1). exists p. split; [done|].
  split; [|split].
  - destruct I2 as [[-> ->]|Hz]; [done|]. right. destruct I1 as [[_ E]|]; congruence.
  - destruct R2 as [|(->&->&->)]; auto.
  - destruct E2 as [|[-> ->]]; auto.
Qed.
Lemma settles_put k i p q : k_processes k !! i = Some p → p_generation q = p_generation p → p_state q = p_state p →
  p_recv_wait q = None ∨ p_recv_wait q = p_recv_wait p → p_event_wait q = None ∨ p_event_wait q = p_event_wait p →
  settles k (put i q k).
Proof.
  intros Hp Hg Hs Hr He. split; [done|]. intros j r Hj.
  destruct (decide (i = j)) as [->|]; [|rewrite put_lookup_ne in Hj by done; exists r; auto 10].
  rewrite (put_lookup _ _ p) in Hj by done. injection Hj as <-. exists p. split; [done|]. split; [by left|].
  split; [destruct Hr; auto|destruct He; auto].
Qed.

(** Nothing to do for a receiver whose peer died, for a device event, for a completion *)
Definition quiet_recv (k : Kernel) : Prop := ∀ i p, k_processes k !! i = Some p → recv_done k i p = None.
Definition quiet_event (k : Kernel) : Prop := ∀ i p, k_processes k !! i = Some p → event_done k i p = None.
Definition drained (k : Kernel) : Prop := Forall (λ d, dev_completion_count (ds_controller d) = O) (k_devices k).

Lemma settles_drained k k' : settles k k' → drained k → drained k'.
Proof. intros [Hd _]. unfold drained. by rewrite Hd. Qed.
Lemma settles_event k k' i p' y : settles k k' → k_processes k' !! i = Some p' → event_done k' i p' = Some y →
  ∃ p, k_processes k !! i = Some p ∧ event_done k i p = Some y.
Proof.
  intros [Hd Hb] Hp He. destruct (Hb i p' Hp) as (p&Hp0&_&_&E). exists p. split; [done|]. revert He.
  unfold event_done. rewrite Hd. destruct E as [E|[E Es]]; [rewrite E; by destruct (negb _)|by rewrite E, Es].
Qed.
Lemma settles_dead k k' peer : settles k k' → peer_dead (k_processes k') peer = true →
  is_Some (k_processes k !! slot_of peer) → peer_dead (k_processes k) peer = true.
Proof.
  intros [_ Hb] Hd [q Hq]. unfold peer_dead in *. rewrite Hq. destruct (k_processes k' !! slot_of peer) as [q'|] eqn:Hq'; [|done].
  destruct (Hb _ _ Hq') as (q1&Hq1&I&_). assert (q1 = q) as -> by congruence.
  destruct I as [[<- <-]|Hz]; [done|]. rewrite Hz. by rewrite orb_true_r.
Qed.
Lemma settles_recv k k' i p' y : settles k k' → k_processes k' !! i = Some p' → recv_done k' i p' = Some y →
  ∃ p, k_processes k !! i = Some p ∧ recv_done k i p = Some y ∧ p_recv_wait p' = p_recv_wait p.
Proof.
  intros Hs Hp He. pose proof Hs as [Hd Hb]. destruct (Hb i p' Hp) as (p&Hp0&_&E&_). exists p. split; [done|]. revert He.
  unfold recv_done. rewrite Hd. destruct E as [E|(E&Eg&Es)]; [rewrite E; by destruct (negb _)|]. rewrite E, Eg, Es.
  destruct (negb (bool_decide (p_state p = ProcRunning))); [done|]. destruct (p_recv_wait p) as [peer|]; [cbn|done].
  destruct (peer_dead (k_processes k') peer) eqn:Ed; [cbn|done]. intros Hy. split; [|done].
  rewrite (settles_dead k k'); [done|done|done|]. unfold peer_dead in Ed.
  destruct (k_processes k' !! slot_of peer) eqn:Hq; [|done]. destruct (Hb _ _ Hq) as (q&?&_). by exists q.
Qed.
Lemma settles_quiet_recv k k' : settles k k' → quiet_recv k → quiet_recv k'.
Proof.
  intros Hs Hq i p Hp. destruct (recv_done k' i p) as [y|] eqn:E; [|done].
  destruct (settles_recv _ _ _ _ _ Hs Hp E) as (p0&Hp0&E0&_). by rewrite (Hq i p0 Hp0) in E0.
Qed.
Lemma settles_quiet_event k k' : settles k k' → quiet_event k → quiet_event k'.
Proof.
  intros Hs Hq i p Hp. destruct (event_done k' i p) as [y|] eqn:E; [|done].
  destruct (settles_event _ _ _ _ _ Hs Hp E) as (p0&Hp0&E0). by rewrite (Hq i p0 Hp0) in E0.
Qed.

Section scheduler.
Context `{Profile} `{Host} (f0 : Fabric) (M0 : list Capability64) (D : ProcessKey → Prop).
Abbreviation kinv := (kinv f0 M0 D).
Abbreviation sound := (sound f0 M0 D).

(** An operation of the machine around the running process *)
Definition phase {A} (m : kernelM A) : Prop := ∀ k, kinv [] k → wp m (λ _ k', kinv [] k' ∧ serves k k') k.

Lemma phase_bind {A B} (m : kernelM A) (g : A → kernelM B) : phase m → (∀ a, phase (g a)) → phase (m ≫= g).
Proof.
  intros Hm Hg k Hk. apply wp_bind. eapply wp_mono; [by apply Hm|]. intros a k1 [Hk1 S1].
  eapply wp_mono; [by apply Hg|]. intros b k2 [Hk2 S2]. split; [done|by etrans].
Qed.
Lemma phase_read {A} (m : kernelM A) : ReadOnly m → phase m.
Proof. intros Hr k Hk. apply wp_read; [done|]. intros a _. by split. Qed.
Lemma phase_for {A} (l : list A) g : (∀ x, phase (g x)) → phase (for_ l g).
Proof. intros Hg. induction l; cbn [for_]; [by apply phase_read, _|by apply phase_bind]. Qed.
Lemma phase_use {A} (m : kernelM A) P i k : phase m → sound P i k → wp m (λ _ k', sound P i k') k.
Proof. intros Hm [Hk Hr]. eapply wp_mono; [by apply Hm|]. intros a k' [? Hs]. split; [done|by apply Hs]. Qed.

(** ** Devices *)
Lemma phase_set_controller i c : dev_wf c → phase (set_controller i c).
Proof.
  intros Hc k Hk. apply wp_set_controller. intros d Hd. split; [|by apply serves_same]. apply kinv_devices; [|done].
  apply Forall_insert; [apply Hk|done].
Qed.
Lemma tick_controller_phase i : phase (tick_controller i).
Proof.
  intros k Hk. unfold tick_controller. apply wp_bind, wp_asks. intros d Hd. apply vec_get_Done in Hd.
  pose proof (Forall_lookup_1 _ _ _ _ (ki_devices _ _ _ _ _ Hk) Hd) as Hwf. cbn in Hwf.
  apply wp_bind, wp_on_fabric. intros f c Hf. run_binds Hf. destruct x as [c1 f1]. guards.
  assert (kinv [] (set_k_fabric f1 k)) as Hk1 by (apply kinv_fabric; [by eapply dev_tick_move|done]).
  eapply wp_mono; [apply phase_set_controller; [by eapply dev_tick_wf|exact Hk1]|]. intros [] k2 [? Hs]. split; [done|].
  etrans; [|exact Hs]. by apply serves_same.
Qed.
Lemma tick_controllers_phase : phase tick_controllers.
Proof. apply phase_bind; [apply phase_read, _|]. intros n. apply phase_for, tick_controller_phase. Qed.

Lemma tick_timer_phase : phase tick_timer.
Proof.
  intros k Hk. unfold tick_timer. apply wp_bind, wp_gets. destruct (fab_timer _) as [t|]; [|by apply wp_ret].
  destruct (tick t) as [t' b]. apply wp_bind, wp_modify, wp_ret. split; [|by apply serves_same].
  apply kinv_fabric; [|done]. apply calm_move. calm_split.
Qed.

(** A core of the running process, posted an interrupt *)
Lemma core_step_sound P i k g : (∀ c, P (g c)) → (∀ c, reachable c → reachable (g c)) →
  sound (λ _, True) i k → wp (with_core i (λ c, Done (g c))) (λ _ k', sound P i k') k.
Proof.
  intros HP Hg [Hk (p&Hp&Hrun&Hb&_)]. apply wp_with_core. intros p1 c Hp1 [= <-]. simplify_eq.
  pose proof (ki_proc _ _ _ _ _ Hk i p Hp) as Hwf. split.
  - eapply kinv_put; [done|apply upd_core|by left| |done]. apply wf_core; [done|apply Hg, Hwf|congruence].
  - apply running_at_put; [by eauto|done|done|]. apply HP.
Qed.
Lemma tick_devices_sound i k : sound (λ _, True) i k → wp (tick_devices i) (λ _ k', sound (λ _, True) i k') k.
Proof.
  intros Hs. unfold tick_devices. apply wp_bind. eapply wp_mono; [eapply (phase_use _ _ i); [apply tick_timer_phase|done]|].
  intros b k1 Hs1. apply wp_bind.
  assert (wp (if b then with_core i (λ c, Done (post_timer_interrupt c)) else mret ()) (λ _ k', sound (λ _, True) i k') k1) as Hw.
  { destruct b; [|by apply wp_ret]. apply core_step_sound; [done| |done].
    intros c [G ?]. exists G. eapply cr_step; [done|apply cs_post_timer]. }
  eapply wp_mono; [exact Hw|]. intros [] k2 Hs2. apply wp_bind.
  eapply wp_mono; [eapply (phase_use _ _ i); [apply tick_controllers_phase|done]|]. intros [] k3 Hs3. apply wp_bind, wp_gets.
  destruct (existsb _ _); [|by apply wp_ret]. apply core_step_sound; [done| |done].
  intros c [G ?]. exists G. eapply cr_step; [done|apply cs_post_device].
Qed.

(** ** Completion routing *)

(** The submitter [p] after a completion of [key]: woken if it waits for it, else the
    entry of its ledger is marked. *)
Definition completed (key : DeviceRequestKey) (c : DeviceCompletion) (p q : Process) : Prop :=
  if io_wait_matches key p
  then p_state q = ProcRunning ∧ blocked q = false ∧ p_generation q = p_generation p ∧ p_parent q = p_parent p ∧
       p_async_requests q = p_async_requests (consume_async key p)
  else q = set_p_async_requests (update_first (async_matches key)
             (λ r, mkAsync (ar_key r) (Some (comp_status c))) (p_async_requests p)) p.
Lemma complete_request_phase slot key c k p : kinv [] k → k_processes k !! slot = Some p →
  wp (complete_request slot key c) (λ _ k', kinv [] k' ∧ serves k k' ∧ ∃ q, k' = put slot q k ∧ completed key c p q) k.
Proof.
  intros Hk Hp. pose proof (ki_proc _ _ _ _ _ Hk slot p Hp) as Hwf. unfold complete_request.
  apply wp_bind, wp_get_process. intros p1 Hp1. simplify_eq. unfold completed. destruct (io_wait_matches key p) eqn:Em.
  - unfold io_wait_matches in Em. destruct (p_io_wait p) as [w|] eqn:Ew; [|done].
    assert (blocked p = true) as Hb by (unfold blocked; rewrite Ew; destruct (p_waiting_on p); done).
    destruct (pw_blocked _ Hwf Hb) as [Hrun Hsys].
    apply wp_bind, wp_with_process. intros p1 Hp1. simplify_eq. set (q := consume_async key p).
    assert (proc_wf q ∧ upd p q ∧ p_core q = p_core p ∧ p_waiting_on q = p_waiting_on p ∧
      p_recv_wait q = p_recv_wait p ∧ p_event_wait q = p_event_wait p ∧ p_heap_free_wait q = p_heap_free_wait p ∧
      p_state q = p_state p) as (Hq&Hu&Hc&Hw1&Hw2&Hw3&Hw4&Hst).
    { unfold q, consume_async. destruct (position _ _) as [n|]; [|by split_and!]. destruct Hwf. split_and!; try done.
      split; try done. etrans; [apply length_delete_le|done]. }
    apply wp_bind. eapply wp_put_results; [by eapply put_lookup|]. intros c1 [Hr1 Hf1]. rewrite put_put.
    apply wp_bind, wp_with_process. intros p1 Hp1. rewrite (put_lookup _ _ p) in Hp1 by done. injection Hp1 as <-. rewrite put_put.
    set (q1 := set_p_io_wait None (set_p_core c1 q)).
    assert (blocked q1 = false) as Hb1.
    { unfold blocked, q1. cbn. rewrite Hw1, Hw2, Hw3.
      destruct (pw_one _ Hwf) as [|[(->&->&->)|[|]]]; [|done|..]; destruct_and!; congruence. }
    eapply wp_resume; [by eapply put_lookup|apply Hr1; rewrite Hc; apply Hwf|unfold in_event; cbn; rewrite Hf1, Hc; by apply in_syscall_event|].
    intros c2 Hr2. rewrite put_put. split; [|split; [by eapply serves_put|]].
    2: { eexists. split; [done|]. destruct Hu. cbn. split_and!; try done; congruence. }
    destruct Hu. eapply kinv_put; [done|done|by left| |done]. destruct Hq. split; try done.
    + intros E. change (blocked (set_p_core c2 q1)) with (blocked q1) in E. congruence.
    + apply blocked_false in Hb1 as (?&?&?&?). by left.
  - apply wp_with_process. intros p1 Hp1. simplify_eq. set (q := set_p_async_requests _ p).
    assert (proc_wf q) as Hq.
    { destruct Hwf. split; try done. cbn. etrans; [|exact pw_async]. clear. induction (p_async_requests p) as [|r l IH]; cbn; [done|].
      destruct (async_matches key r); cbn; lia. }
    split; [eapply kinv_put; [done|done|by left|done|done]|]. split; [|eexists; split; done]. intros P j Hj. destruct Hj as (r&Hr&?&?&?).
    destruct (decide (slot = j)) as [->|]; [|exists r; by rewrite put_lookup_ne].
    simplify_eq. exists q. split; [by eapply put_lookup|done].
Qed.
Lemma route_completion_phase b c : phase (route_completion b c).
Proof.
  intros k Hk. unfold route_completion. wp_steps; try done.
  eapply wp_mono; [by eapply complete_request_phase|]. by intros [] k' (?&?&_).
Qed.
Lemma route_completion_devices b c k : kinv [] k → wp (route_completion b c) (λ _ k', k_devices k' = k_devices k) k.
Proof.
  intros Hk. unfold route_completion. wp_steps; try done.
  eapply wp_mono; [by eapply complete_request_phase|]. by intros [] k' (_&_&q&->&_).
Qed.

(** The completions of controller [i] are consumed; the other controllers stay. *)
Definition drained_at (i : nat) (k k' : Kernel) : Prop :=
  (∀ j, j ≠ i → k_devices k' !! j = k_devices k !! j) ∧ length (k_devices k') = length (k_devices k) ∧
  ∀ d, k_devices k' !! i = Some d → dev_completion_count (ds_controller d) = O.
Lemma drain_device_spec fuel i : ∀ k, kinv [] k →
  wp (drain_device fuel i) (λ _ k', kinv [] k' ∧ serves k k' ∧ drained_at i k k') k.
Proof.
  induction fuel as [|fuel IH]; intros k Hk; cbn [drain_device]; [by apply wp_lift|].
  apply wp_bind, wp_asks. intros d Hd. apply vec_get_Done in Hd.
  destruct (0 <? _)%nat eqn:Epos.
  2: { apply wp_ret. apply Nat.ltb_ge in Epos. split; [done|]. split; [done|]. split; [done|]. split; [done|].
       intros d' Hd'. assert (d' = d) as -> by congruence. lia. }
  pose proof (Forall_lookup_1 _ _ _ _ (ki_devices _ _ _ _ _ Hk) Hd) as Hwf. cbn in Hwf.
  apply wp_bind, wp_lift. intros [d' o] Hx. apply Nat.ltb_lt in Epos.
  destruct (dev_consume_wf _ _ _ Hwf Hx Epos) as (Hwf'&[c ->]&_). cbn [fst snd].
  apply wp_bind, wp_set_controller. intros d1 Hd1. assert (d1 = d) as -> by congruence.
  set (k1 := set_k_devices _ k).
  assert (kinv [] k1) as Hk1 by (apply kinv_devices; [|done]; apply Forall_insert; [apply Hk|done]).
  apply wp_bind. pose proof (route_completion_phase (ds_binding d) c k1 Hk1) as Hr.
  apply wp_run. intros k2 [] Em. destruct (wp_Done _ _ _ _ _ Hr Em) as [Hk2 Hs2].
  pose proof (wp_Done _ _ _ _ _ (route_completion_devices _ _ _ Hk1) Em) as Hdev. cbv beta in Hdev.
  eapply wp_mono; [by apply IH|]. intros [] k3 (Hk3&Hs3&Hoth&Hlen&Hz). split_and!; [done| |split_and!; [| |done]].
  - etrans; [by apply (serves_same k k1)|]. by etrans.
  - intros j Hj. rewrite Hoth, Hdev by done. unfold k1. cbn. by rewrite list_lookup_insert_ne.
  - rewrite Hlen, Hdev. unfold k1. cbn. by rewrite length_insert.
Qed.

Lemma drain_completions_spec k : kinv [] k → wp drain_completions (λ _ k', kinv [] k' ∧ serves k k' ∧ drained k') k.
Proof.
  intros Hk. unfold drain_completions. apply wp_bind, wp_gets. set (n := length (k_devices k)).
  set (I (l : list nat) k1 := kinv [] k1 ∧ serves k k1 ∧ length (k_devices k1) = n ∧ NoDup l ∧
    ∀ i d, k_devices k1 !! i = Some d → i ∈ l ∨ dev_completion_count (ds_controller d) = O).
  eapply wp_mono; [apply (wp_for _ _ I)|].
  - intros i l k1 (Hk1&Hs1&Hl1&[Hni Hn]%NoDup_cons&Hall). unfold drain_controller.
    apply wp_bind, wp_asks. intros d _. eapply wp_mono; [by apply drain_device_spec|].
    intros [] k2 (Hk2&Hs2&Hoth&Hlen&Hz). split_and!; [done|by etrans|congruence|done|].
    intros j d' Hd'. destruct (decide (j = i)) as [->|]; [right; by apply Hz|]. rewrite Hoth in Hd' by done.
    destruct (Hall j d' Hd') as [[->|?]%elem_of_cons|?]; [done|by left|by right].
  - split_and!; [done|done|done|apply NoDup_seq|]. intros i d Hd. left. apply elem_of_seq. apply lookup_lt_Some in Hd. lia.
  - intros [] k' (?&?&_&_&Hall). split_and!; try done. apply Forall_lookup. intros i d Hd. cbv beta.
    destruct (Hall i d Hd) as [?|?]; [set_solver|done].
Qed.
Lemma drain_completions_phase : phase drain_completions.
Proof. intros k Hk. eapply wp_mono; [by apply drain_completions_spec|]. by intros [] k' (?&?&_). Qed.

(** ** Blocked processes *)
Lemma recv_done_spec k i p y : recv_done k i p = Some y → y.1 = i ∧ is_Some (p_recv_wait p).
Proof.
  unfold recv_done. destruct (negb _); [done|]. destruct (p_recv_wait p); [|done]. cbn.
  destruct (negb _); [done|]. destruct (_ =? _)%nat; [|done]. intros [= <-]. eauto.
Qed.
Lemma selected {B} (g : nat → Process → option (nat * B)) k x :
  x ∈ omap (λ x, x) (imap g (k_processes k)) → ∃ i p, k_processes k !! i = Some p ∧ g i p = Some x.
Proof.
  rewrite list_elem_of_omap. intros (o&Ho&Hs). simpl in Hs. subst o. apply elem_of_lookup_imap in Ho as (i&p&E&Hp). eauto.
Qed.

(** Waking every selected process, each blocked for the reason [R] until its turn;
    afterwards nobody the selection names has the reason left. *)
Lemma wake_each_spec {B} (R : Process → Prop) (g : Kernel → nat → Process → option (nat * B)) (wake : nat * B → kernelM unit) k :
  (∀ k i p y, g k i p = Some y → y.1 = i ∧ R p) →
  (∀ x p k, kinv [] k → k_processes k !! x.1 = Some p → R p →
     wp (wake x) (λ _ k', kinv [] k' ∧ serves k k' ∧ settles k k' ∧ ∃ q, k' = put x.1 q k ∧ ¬ R q) k) →
  kinv [] k →
  wp (l ← gets (λ k, omap (λ x, x) (imap (g k) (k_processes k))); for_ l wake)
    (λ _ k', kinv [] k' ∧ serves k k' ∧ settles k k' ∧ ∀ i p p' y, k_processes k !! i = Some p → g k i p = Some y →
       k_processes k' !! i = Some p' → ¬ R p') k.
Proof.
  intros Hg Hwake Hk. apply wp_bind, wp_gets.
  set (I (l : list (nat * B)) k1 := kinv [] k1 ∧ serves k k1 ∧ settles k k1 ∧ NoDup l.*1 ∧
    (∀ x, x ∈ l → ∃ p, k_processes k1 !! x.1 = Some p ∧ R p) ∧
    ∀ i p p' y, k_processes k !! i = Some p → g k i p = Some y → k_processes k1 !! i = Some p' → y ∈ l ∨ ¬ R p').
  eapply wp_mono; [apply (wp_for _ _ I)|].
  - intros x l k1 (Hk1&Hs1&Hset&Hn&Hall&Hdone). cbn in Hn. apply NoDup_cons in Hn as [Hni Hn].
    destruct (Hall x) as (p&Hp&HR); [set_solver|]. eapply wp_mono; [by eapply Hwake|].
    intros [] k2 (Hk2&Hs2&Hset2&q&->&HnR). split_and!; [done|by etrans|by etrans|done| |].
    + intros y Hy. destruct (Hall y) as (r&Hr&?); [set_solver|]. exists r.
      split; [|done]. rewrite put_lookup_ne; [done|]. intros E. apply Hni. rewrite E. by apply list_elem_of_fmap_2.
    + intros i p0 p' y Hp0 Hy Hp'. destruct (decide (x.1 = i)) as [<-|Hne].
      { rewrite (put_lookup _ _ p) in Hp' by done. injection Hp' as <-. by right. }
      rewrite put_lookup_ne in Hp' by done. destruct (Hdone i p0 p' y Hp0 Hy Hp') as [[->|?]%elem_of_cons|?]; [|by left|by right].
      apply Hg in Hy as [? _]. congruence.
  - split_and!; [done|done|done|apply imap_slots; intros ? ? ? E; by apply Hg in E as [? _]| |].
    + intros x Hx. apply selected in Hx as (i&p&Hp&Ex). destruct (Hg _ _ _ _ Ex) as [<- ?]. eauto.
    + intros i p p' y Hp Hy _. left. apply list_elem_of_omap. exists (Some y). split; [|done].
      apply elem_of_lookup_imap. eauto.
  - intros [] k' (?&?&?&_&_&Hd). split_and!; try done. intros i p p' y Hp Hy Hp'.
    destruct (Hd i p p' y Hp Hy Hp') as [?|?]; [set_solver|done].
Qed.

Lemma recv_blocked p : is_Some (p_recv_wait p) → blocked p = true.
Proof. intros [x E]. unfold blocked. rewrite E. destruct (p_waiting_on p), (p_io_wait p); done. Qed.
Lemma reevaluate_recv_spec k : kinv [] k →
  wp reevaluate_recv_waits (λ _ k', kinv [] k' ∧ serves k k' ∧ settles k k' ∧ quiet_recv k') k.
Proof.
  intros Hk. eapply wp_mono; [apply (wake_each_spec (λ p, is_Some (p_recv_wait p)) (λ k, recv_done k)); [| |done]|].
  - intros k0 *. apply (recv_done_spec k0).
  - intros x p k1 Hk1 Hp Hr. eapply wp_mono; [by apply complete_recv_spec|]. intros [] k' (Hk'&c&->).
    split_and!; [done|by eapply serves_put, recv_blocked|eapply settles_put; [done|done|done|by left|by right]|eexists; split; [done|by intros []]].
  - intros [] k' (?&?&Hs&Hd). split_and!; try done. intros i p' Hp'. destruct (recv_done k' i p') as [y|] eqn:E; [exfalso|done].
    destruct (settles_recv _ _ _ _ _ Hs Hp' E) as (p&Hp&E0&_). apply (Hd i p p' y Hp E0 Hp').
    by apply (recv_done_spec k') in E as [_ ?].
Qed.
Lemma reevaluate_recv_phase : phase reevaluate_recv_waits.
Proof. intros k Hk. eapply wp_mono; [by apply reevaluate_recv_spec|]. by intros [] k' (?&?&_). Qed.

Lemma event_blocked p : is_Some (p_event_wait p) → blocked p = true.
Proof. intros [x E]. unfold blocked. rewrite E. destruct (p_waiting_on p), (p_io_wait p), (p_recv_wait p); done. Qed.
Lemma event_done_spec k i p y : event_done k i p = Some y → y.1 = i ∧ is_Some (p_event_wait p).
Proof.
  unfold event_done. destruct (negb _); [done|]. destruct (p_event_wait p); [|done]. cbn.
  destruct (lookup_device _ _); [|done]. cbn. destruct (negb _); [|done]. intros [= <-]. eauto.
Qed.
Lemma complete_event_spec i rs p k : kinv [] k → k_processes k !! i = Some p → is_Some (p_event_wait p) →
  wp (_ ← with_process i (set_p_event_wait None); reply i rs)
    (λ _ k', kinv [] k' ∧ ∃ c, k' = put i (set_p_core c (set_p_event_wait None p)) k) k.
Proof.
  intros Hk Hp Hr. pose proof (ki_proc _ _ _ _ _ Hk i p Hp) as Hwf. apply event_blocked in Hr as Hb.
  destruct (pw_blocked _ Hwf Hb) as [Hrun Hsys]. destruct Hr as [w Hr].
  assert (blocked (set_p_event_wait None p) = false) as Hb'.
  { unfold blocked. cbn. destruct (pw_one _ Hwf) as [|[|[|(->&->&->)]]]; [| | |done]; destruct_and!; congruence. }
  apply wp_bind, wp_with_process. intros p1 Hp1. simplify_eq. set (q := set_p_event_wait None p) in *.
  eapply wp_reply; [by eapply put_lookup|apply Hwf|by apply in_syscall_event|]. intros c Hc. rewrite put_put. split; [|by exists c].
  eapply kinv_put; [done|done|by left| |done]. destruct Hwf. split; try done.
  - intros E. change (blocked (set_p_core c q)) with (blocked q) in E. congruence.
  - apply blocked_false in Hb' as (?&?&?&?). by left.
Qed.
Lemma reevaluate_event_spec k : kinv [] k →
  wp reevaluate_event_waits (λ _ k', kinv [] k' ∧ serves k k' ∧ settles k k' ∧ quiet_event k') k.
Proof.
  intros Hk. eapply wp_mono; [apply (wake_each_spec (λ p, is_Some (p_event_wait p)) (λ k, event_done k)); [| |done]|].
  - intros k0 *. apply (event_done_spec k0).
  - intros x p k1 Hk1 Hp Hr. eapply wp_mono; [by apply complete_event_spec|]. intros [] k' (Hk'&c&->).
    split_and!; [done|by eapply serves_put, event_blocked|eapply settles_put; [done|done|done|by right|by left]|eexists; split; [done|by intros []]].
  - intros [] k' (?&?&Hs&Hd). split_and!; try done. intros i p' Hp'. destruct (event_done k' i p') as [y|] eqn:E; [exfalso|done].
    destruct (settles_event _ _ _ _ _ Hs Hp' E) as (p&Hp&E0). apply (Hd i p p' y Hp E0 Hp').
    by apply (event_done_spec k') in E as [_ ?].
Qed.
Lemma reevaluate_event_phase : phase reevaluate_event_waits.
Proof. intros k Hk. eapply wp_mono; [by apply reevaluate_event_spec|]. by intros [] k' (?&?&_). Qed.

Lemma acknowledge_phase : phase acknowledge_devices.
Proof.
  intros k Hk. apply wp_modify. split; [|by apply serves_same]. apply kinv_devices; [|done].
  apply Forall_forall. intros d Hd. apply list_elem_of_In, in_map_iff in Hd as (d0&<-&Hd0).
  pose proof (ki_devices _ _ _ _ _ Hk) as Hall. rewrite List.Forall_forall in Hall. specialize (Hall d0 Hd0).
  destruct (dev_requires_attention _); [by apply dev_ack_wf|done].
Qed.

(** ** Waking parents *)
Lemma zombies_spec n l zs : zombies n l = Done zs →
  (∀ c g r, (c, g, r) ∈ zs → ∃ q, l !! (c - n)%nat = Some q ∧ (n ≤ c)%nat ∧ p_state q = ProcZombie ∧ p_generation q = g) ∧
  (∀ c q, l !! c = Some q → p_state q = ProcZombie → ∃ r, ((n + c)%nat, p_generation q, r) ∈ zs).
Proof.
  revert n zs. induction l as [|p l IH]; intros n zs; cbn; [intros [= <-]; split; [set_solver|done]|].
  intros Hz. assert (∃ zs', zombies (S n) l = Done zs' ∧ (zs = zs' ∧ p_state p ≠ ProcZombie ∨
    p_state p = ProcZombie ∧ ∃ r, zs = (n, p_generation p, r) :: zs')) as (zs'&Hz'&Hor).
  { case_bool_decide.
    - destruct (unwrap (p_result p)) as [r|]; [|done]. cbn in Hz. destruct (zombies (S n) l) as [zs'|]; [|done].
      cbn in Hz. simplify_eq. eauto 10.
    - eauto. }
  destruct (IH _ _ Hz') as [IH1 IH2]. split.
  - intros c g r Hin. assert ((c, g, r) ∈ zs' ∨ c = n ∧ g = p_generation p ∧ p_state p = ProcZombie) as [Hin'|(->&->&?)].
    { destruct Hor as [[-> _]|(?&r'&->)]; [by left|]. apply elem_of_cons in Hin as [[= -> -> ->]|?]; auto. }
    + destruct (IH1 _ _ _ Hin') as (q&Hq&?&?&?). exists q. split_and!; try done; [|lia].
      replace (c - n)%nat with (S (c - S n)) by lia. done.
    + exists p. rewrite Nat.sub_diag. split_and!; try done.
  - intros [|c] q Hq Hzq; cbn in Hq.
    + simplify_eq. destruct Hor as [[_ ?]|(_&r&->)]; [done|]. exists r. rewrite Nat.add_0_r. set_solver.
    + destruct (IH2 c q Hq Hzq) as [r Hr]. exists r. rewrite Nat.add_succ_r. cbn in Hr. destruct Hor as [[-> _]|(_&r'&->)]; set_solver.
Qed.

Lemma waits_for_spec c g p : waits_for c g p = true ↔ ∃ ws, p_waiting_on p = Some ws ∧ ws_child ws = process_key c g.
Proof.
  unfold waits_for, is_some_and. destruct (p_waiting_on p) as [ws|].
  - split.
    + intros Hb. bools. exists ws. split; [done|]. destruct (ws_child ws); cbn in *. by subst.
    + intros (ws'&[= <-]&E). rewrite E. cbn. by rewrite !Z.eqb_refl.
  - split; [done|]. by intros (ws&?&_).
Qed.
End scheduler.

Section waking.
Context `{Profile} `{Host} (f0 : Fabric) (M0 : list Capability64) (D : ProcessKey → Prop).
Abbreviation kinv := (kinv f0 M0 D).

(** The parent of a zombie wakes: it runs again, the child is gone, and nothing else
    changes in the process table. *)
Lemma wake_parent_spec i p ws c q r k : kinv [] k → k_processes k !! i = Some p → p_waiting_on p = Some ws →
  k_processes k !! c = Some q → ws_child ws = process_key c (p_generation q) → p_state q = ProcZombie →
  wp (wake_parent c r i) (λ _ k', kinv [] k' ∧ ∃ p' q', i ≠ c ∧ p_state p' = ProcRunning ∧ blocked p' = false ∧
    p_generation p' = p_generation p ∧ live q' = false ∧
    k_processes k' = <[i := p']> (<[c := q']> (k_processes k)) ∧ k_devices k' = k_devices k) k.
Proof.
  intros Hk Hp Hw Hq Hc Hz. pose proof (ki_proc _ _ _ _ _ Hk i p Hp) as Hwf.
  assert (blocked p = true) as Hb by (unfold blocked; by rewrite Hw).
  destruct (pw_blocked _ Hwf Hb) as [Hrun Hsys].
  assert (p_parent q = Some (process_key i (p_generation p))) as Hpa.
  { destruct (ki_wait _ _ _ _ _ Hk i p ws Hp Hw) as [?|(c'&q1&Hq1&E&_&?)]; [set_solver|].
    rewrite Hc in E. apply process_key_inj in E as [<- _]. congruence. }
  assert (i ≠ c) as Hne by (intros ->; congruence).
  set (p1 := set_p_waiting_on None p).
  assert (blocked p1 = false) as Hb1.
  { unfold blocked. cbn. destruct (pw_one _ Hwf) as [(->&->&->)|[|[|]]]; [done|..]; destruct_and!; congruence. }
  assert (sound f0 M0 D in_syscall i (put i p1 k)) as Hs1.
  { split; [|apply running_at_put; eauto]. eapply kinv_put; [done|done|by right| |done]. destruct Hwf. split; try done.
    apply blocked_false in Hb1 as (?&?&?&?). by left. }
  unfold wake_parent. apply wp_bind, wp_get_process. intros p0 Hp0. assert (p0 = p) as -> by congruence. rewrite Hw.
  apply wp_bind, wp_lift. intros ws' [= <-]. apply wp_bind, wp_set_process. fold p1. apply wp_bind.
  eapply wp_mono; [apply (put_results_at f0 M0 D i _ p1); [by eapply put_lookup|done]|]. intros [] k2 (Hs2&c1&->). rewrite put_put in *.
  set (p2 := set_p_core c1 p1) in *. apply wp_bind.
  assert (wp match ws_kind ws, ws_handle_slot ws with WaitLifecycle, Some s => collect_entry i s | _, _ => mret tt end
    (λ _ k', sound f0 M0 D in_syscall i k' ∧ k_processes k' = k_processes (put i p2 k) ∧ k_devices k' = k_devices k) (put i p2 k)) as Hcol.
  { destruct (ws_kind ws), (ws_handle_slot ws); try (by apply wp_ret). by apply (collect_sound f0 M0 D in_syscall i n (put i p2 k)). }
  eapply wp_mono; [exact Hcol|]. intros [] k3 (Hs3&Epr3&Edev3).
  eapply wp_mono; [eapply (reclaim_resume_spec f0 M0 D i p2 c q)|].
  - done.
  - rewrite Epr3. by eapply put_lookup.
  - rewrite Epr3. by rewrite put_lookup_ne.
  - done.
  - done.
  - intros [] k4 (Hk4&q'&c2&Hf&_&Hpr&Hdev). split; [done|]. exists (set_p_core c2 p2), q'. split_and!; try done.
    + unfold live. destruct (fr_generation _ _ Hf) as [(->&_)|[-> _]]; done.
    + rewrite Hpr, Epr3. cbn. rewrite (list_insert_insert_ne _ c i) by done. by rewrite list_insert_insert_eq.
    + congruence.
Qed.

(** Nobody waits for a zombie. *)
Definition all_awake (k : Kernel) : Prop :=
  ∀ i p ws, k_processes k !! i = Some p → p_waiting_on p = Some ws →
    ∃ c q, k_processes k !! c = Some q ∧ ws_child ws = process_key c (p_generation q) ∧ p_state q = ProcRunning ∧
      p_parent q = Some (process_key i (p_generation p)).
End waking.

(** The effect of [wake_parent_spec] settles. *)
Lemma woken_settles `{Profile} `{Host} f0 M0 D i p p' c q q' k k' : kinv f0 M0 D [] k' →
  k_processes k !! i = Some p → k_processes k !! c = Some q → p_state p = ProcRunning → p_state q = ProcZombie → i ≠ c →
  p_state p' = ProcRunning → blocked p' = false → p_generation p' = p_generation p → live q' = false →
  k_processes k' = <[i := p']> (<[c := q']> (k_processes k)) → k_devices k' = k_devices k → settles k k'.
Proof.
  intros Hk' Hp Hq Hrun Hz Hne Hrun' Hb Hg Hl Hpr Hdev. split; [done|]. intros j x Hx.
  pose proof (ki_proc _ _ _ _ _ Hk' j x Hx) as Hwf. rewrite Hpr in Hx.
  apply list_lookup_insert_Some in Hx as [(<-&<-&_)|[? [(<-&<-&_)|[? Hx]]%list_lookup_insert_Some]].
  - apply blocked_false in Hb as (?&?&?&?). exists p. split_and!; auto. left. split; congruence.
  - apply dead_unblocked, blocked_false in Hwf as (?&?&?&?); [|done]. exists q. split_and!; auto.
  - exists x. split_and!; auto.
Qed.

Lemma wake_waiters_spec `{Profile} `{Host} f0 M0 D k : kinv f0 M0 D [] k →
  wp wake_waiters (λ _ k', kinv f0 M0 D [] k' ∧ settles k k' ∧ all_awake k') k.
Proof.
  intros Hk. unfold wake_waiters. apply wp_bind, wp_asks. intros zs Hz. apply zombies_spec in Hz as [Hz1 Hz2].
  set (D' key := D key ∨ ended k key).
  set (I (l : list (nat * Z * ProcessResult)) k1 := kinv f0 M0 D' [] k1 ∧ settles k k1 ∧ (∀ c g r, (c, g, r) ∈ l → ended k (process_key c g)) ∧
    ∀ i p ws c q, k_processes k1 !! i = Some p → p_waiting_on p = Some ws → k_processes k1 !! c = Some q →
      ws_child ws = process_key c (p_generation q) → p_state q = ProcZombie → ∃ r, (c, p_generation q, r) ∈ l).
  eapply wp_mono; [apply (wp_for _ _ I)|].
  - intros [[c g] r] l k1 (Hk1&Hset&Hend&Hall). apply wp_bind, wp_gets. destruct (position _ _) as [i|] eqn:Epos.
    + apply position_Some in Epos as (p&Hp&Hwf). apply waits_for_spec in Hwf as (ws&Hw&Hc).
      destruct (ki_wait _ _ _ _ _ Hk1 i p ws Hp Hw) as [?|(c'&q&Hq&E&Hl&_)]; [set_solver|].
      rewrite Hc in E. apply process_key_inj in E as [<- ->].
      assert (p_state q = ProcZombie) as Hzq.
      { destruct (ki_ended _ _ _ _ _ Hk1 (process_key c (p_generation q))) as (q1&Hq1&Hor).
        - right. apply (Hend c _ r), list_elem_of_here.
        - rewrite slot_of_key in Hq1. simplify_eq. destruct Hor as [|[_ [?|Hret]]]; [cbn in *; lia|done|].
          unfold live in Hl. by rewrite Hret in Hl. }
      eapply wp_mono; [eapply wake_parent_spec; done|]. intros [] k2 (Hk2&p'&q'&Hne&Hrun&Hb&Hgp&Hlq&Hpr&Hdev).
      assert (p_state p = ProcRunning) as Hrunp.
      { apply (pw_blocked _ (ki_proc _ _ _ _ _ Hk1 i p Hp)). unfold blocked. by rewrite Hw. }
      assert (∀ j x, k_processes k2 !! j = Some x → x = p' ∨ x = q' ∨ j ≠ i ∧ j ≠ c ∧ k_processes k1 !! j = Some x) as Hback.
      { intros j x. rewrite Hpr. intros [(_&<-&_)|[? [(_&<-&_)|[? ?]]%list_lookup_insert_Some]]%list_lookup_insert_Some; auto 10. }
      split_and!; [done|etrans; [exact Hset|by apply (woken_settles f0 M0 D' i p p' c q q')]|intros ???? ; eapply Hend, list_elem_of_further; done|].
      intros j x ws' c2 y Hx Hw' Hy Hc' Hzy. destruct (Hback j x Hx) as [->|[->|(?&?&Hx1)]].
      { apply blocked_false in Hb as (?&_). congruence. }
      { pose proof (ki_proc _ _ _ _ _ Hk2 j q' Hx) as Hwfq. apply dead_unblocked, blocked_false in Hwfq as (?&_); [congruence|done]. }
      destruct (Hback c2 y Hy) as [->|[->|(?&?&Hy1)]]; [congruence|unfold live in Hlq; by rewrite Hzy in Hlq|].
      destruct (Hall j x ws' c2 y) as [r' [[= -> _ _]|]%elem_of_cons]; try done. by exists r'.
    + apply wp_ret. split_and!; [done|done|intros ???? ; eapply Hend, list_elem_of_further; done|]. intros j x ws' c2 y Hx Hw' Hy Hc' Hzy.
      destruct (Hall j x ws' c2 y) as [r' [[= -> Eg _]|]%elem_of_cons]; try done; [|by exists r']. exfalso.
      pose proof (position_None _ _ x Epos) as Hno. rewrite (proj2 (waits_for_spec _ _ x)) in Hno;
        [|exists ws'; by rewrite Hc', Eg]. by discriminate Hno; eapply list_elem_of_lookup_2.
  - split_and!.
    + eapply kinv_ended; [done|]. intros key [?|?]; [by apply (ki_ended _ _ _ _ _ Hk)|done].
    + done.
    + intros c g r Hin. destruct (Hz1 _ _ _ Hin) as (q&Hq&_&?&<-). rewrite Nat.sub_0_r in Hq. exists q.
      rewrite slot_of_key. auto.
    + intros i p ws c q _ _ Hq _ Hzq. apply (Hz2 c q Hq Hzq).
  - intros [] k' (Hk'&Hset&_&Hall). split; [eapply kinv_ended; [done|]; intros key ?; apply (ki_ended _ _ _ _ _ Hk'); by left|].
    split; [done|].
    intros i p ws Hp Hw. destruct (ki_wait _ _ _ _ _ Hk' i p ws Hp Hw) as [?|(c&q&Hq&Hc&Hl&Hpa)]; [set_solver|].
    exists c, q. split_and!; try done. destruct (p_state q) eqn:Es; [done| |unfold live in Hl; by rewrite Es in Hl..].
    destruct (Hall i p ws c q Hp Hw Hq Hc Es) as [r ?]. set_solver.
Qed.

(** ** Running *)
Section running.
Context `{Profile} `{Host} (f0 : Fabric) (M0 : list Capability64) (D : ProcessKey → Prop).
Abbreviation kinv := (kinv f0 M0 D).
Abbreviation sound := (sound f0 M0 D).

Lemma async_interrupt_spec i k : sound in_event i k → wp (handle_async_interrupt i) (λ _ k', kinv [] k') k.
Proof.
  intros Hs. unfold handle_async_interrupt. apply wp_bind, wp_get_process. intros p Hp. cbv zeta. apply wp_bind.
  eapply wp_mono; [eapply (phase_use f0 M0 D _ in_event i); [|done]|intros [] k' Hs'; by apply resume_kinv].
  destruct (is_some_and _ _); [|by apply phase_read, _].
  apply phase_bind; [apply drain_completions_phase|intros []].
  apply phase_bind; [apply reevaluate_recv_phase|intros []].
  apply phase_bind; [apply reevaluate_event_phase|intros []]. apply acknowledge_phase.
Qed.

Lemma step_core_spec i k : sound (λ _, True) i k → wp (step_core i) (λ _ k', sound (λ _, True) i k') k.
Proof.
  intros [Hk (p&Hp&Hrun&Hb&_)]. pose proof (ki_proc _ _ _ _ _ Hk i p Hp) as Hwf. unfold step_core.
  apply wp_bind, wp_get_process. intros p1 Hp1. simplify_eq. apply wp_bind, wp_on_fabric. intros f x Hx.
  run_binds Hx. destruct x0 as [[c f1] r]. guards. cbn [fst snd]. apply wp_bind, wp_set_process, wp_ret. cbn [fst snd].
  assert (kinv [] (set_k_fabric f1 k)) as Hk1 by (apply kinv_fabric; [by eapply calm_move, core_step_calm|done]).
  split.
  - eapply kinv_put; [exact Hp|apply upd_core|by left| |done]. apply wf_core; [done| |congruence].
    destruct (pw_core _ Hwf) as [G ?]. eexists. eapply cr_step; [done|by eapply cs_step].
  - apply running_at_put; [by eauto|done|done|done].
Qed.

Lemma classify_event c : classify_halt c = HaltSyscall → in_syscall c.
Proof.
  unfold classify_halt, in_syscall. repeat case_match; try done.
Qed.
Lemma classify_interrupt c : classify_halt c = HaltTimer ∨ classify_halt c = HaltDevice → in_event c.
Proof.
  unfold classify_halt, in_event. intros Hc Hf. rewrite Hf in Hc. repeat case_match; naive_solver.
Qed.
Lemma dispatch_spec i k : sound (λ _, True) i k → wp (dispatch_halt i) (λ _ k', kinv [] k') k.
Proof.
  intros [Hk (p&Hp&Hrun&Hb&_)]. unfold dispatch_halt. apply wp_bind, wp_get_process. intros p1 Hp1. assert (p1 = p) as -> by congruence.
  destruct (classify_halt (p_core p)) eqn:Ec.
  - by eapply finish_spec.
  - apply (syscall_ends f0 M0 D). split; [done|]. exists p. split_and!; try done. by apply classify_event.
  - apply async_interrupt_spec. split; [done|]. exists p. split_and!; try done. apply classify_interrupt. by left.
  - apply async_interrupt_spec. split; [done|]. exists p. split_and!; try done. apply classify_interrupt. by right.
  - by eapply finish_spec.
Qed.

Lemma deliver_in_event c c' : deliver_pending c = (c', true) → in_event c'.
Proof.
  unfold deliver_pending. destruct (negb _); [done|]. destruct (arbitrate _ _) as [[[cause p] t]|]; [|done].
  intros [= <-]. unfold in_event, enter_event. cbn. repeat case_match; done.
Qed.

(** One quantum of a process that is running and not blocked *)
Lemma run_process_spec i q k : sound (λ _, True) i k → wp (run_process i q) (λ _ k', kinv [] k') k.
Proof.
  revert k. induction q as [|q IH]; intros k Hs; cbn [run_process]; [by apply wp_ret, Hs|].
  pose proof Hs as [Hk (p&Hp&Hrun&Hb&_)]. pose proof (ki_proc _ _ _ _ _ Hk i p Hp) as Hwf.
  apply wp_bind, wp_get_process. intros p0 Hp0. assert (p0 = p) as -> by congruence. destruct (exited p); [by apply wp_ret|].
  destruct (deliver_pending (p_core p)) as [c d] eqn:Ed. apply wp_bind, wp_set_process.
  assert (reachable c) as Hc.
  { destruct (pw_core _ Hwf) as [G ?]. exists G. eapply cr_step; [done|]. pose proof (cs_deliver (p_core p) G) as Hd. by rewrite Ed in Hd. }
  assert (kinv [] (put i (set_p_core c p) k)) as Hk1
    by (eapply kinv_put; [done|apply upd_core|by left| |done]; apply wf_core; [done|done|congruence]).
  assert (sound (λ _, True) i (put i (set_p_core c p) k)) as Hs1 by (split; [done|apply running_at_put; eauto]).
  destruct d.
  - apply wp_bind, wp_with_core. intros p2 c2 Hp2 [= <-]. rewrite (put_lookup _ _ p) in Hp2 by done. injection Hp2 as <-.
    rewrite put_put. apply async_interrupt_spec. cbn [p_core set_p_core]. split.
    + eapply kinv_put; [done| |by left| |done]; [done|]. apply (wf_core p (set_core_halted true c)); [done| |congruence].
      destruct Hc as [G ?]. exists G. eapply cr_step; [done|apply cs_halted].
    + apply running_at_put; [by eauto|done|done|]. cbn. by apply deliver_in_event in Ed.
  - apply wp_bind. eapply wp_mono; [by apply step_core_spec|]. intros r k2 Hs2. destruct r.
    + apply wp_bind. eapply wp_mono; [by apply tick_devices_sound|]. intros [] k3 Hs3. by apply IH.
    + apply wp_bind. eapply wp_mono; [by apply tick_devices_sound|]. intros [] k3 Hs3. by apply dispatch_spec.
    + destruct Hs2 as [Hk2 (p2&?&?&?&_)]. by eapply finish_spec.
Qed.

Lemma schedulable_spec p : is_schedulable p = true → p_state p = ProcRunning ∧ blocked p = false.
Proof.
  unfold is_schedulable, blocked. intros Hs. bools. split; [done|].
  destruct (p_waiting_on p), (p_io_wait p), (p_recv_wait p), (p_event_wait p); done.
Qed.
Lemma run_phase_spec q l b k : kinv [] k → wp (run_phase q l b) (λ _ k', kinv [] k') k.
Proof.
  revert b k. induction l as [|i l IH]; intros b k Hk; cbn [run_phase]; [by apply wp_ret|].
  apply wp_bind, wp_get_process. intros p Hp. destruct (exited p || negb (is_schedulable p)) eqn:E; [by apply IH|].
  bools. destruct (schedulable_spec p) as [Hrun Hb]; [done|]. apply wp_bind, wp_modify, wp_bind.
  eapply wp_mono; [apply run_process_spec; split; [by apply (kinv_same _ _ _ _ k)|by exists p]|].
  intros [] k1 Hk1. apply wp_bind. eapply wp_mono; [by apply wake_waiters_spec|]. intros [] k2 (Hk2&_). by apply IH.
Qed.

(** After the completions, the waits and the zombies have been dealt with *)
Definition resolved (k : Kernel) : Prop := drained k ∧ quiet_recv k ∧ quiet_event k ∧ all_awake k.
Lemma resolve_phase_spec k : kinv [] k → wp resolve_phase (λ _ k', kinv [] k' ∧ resolved k') k.
Proof.
  intros Hk. unfold resolve_phase.
  apply wp_bind. eapply wp_mono; [by apply (drain_completions_spec f0 M0 D)|]. intros [] k1 (Hk1&_&Hd1).
  apply wp_bind. eapply wp_mono; [by apply (reevaluate_recv_spec f0 M0 D)|]. intros [] k2 (Hk2&_&S2&Q2).
  apply wp_bind. eapply wp_mono; [by apply (reevaluate_event_spec f0 M0 D)|]. intros [] k3 (Hk3&_&S3&Q3).
  eapply wp_mono; [by apply wake_waiters_spec|]. intros [] k4 (Hk4&S4&Ha). split; [done|]. split; [|split; [|split; [|done]]].
  - apply (settles_drained k1); [by etrans; [|etrans]|done].
  - apply (settles_quiet_recv k2); [by etrans|done].
  - by apply (settles_quiet_event k3).
Qed.
Lemma idle_phase : phase f0 M0 D idle_progress_once.
Proof.
  unfold idle_progress_once. apply phase_bind; [apply tick_controllers_phase|intros []].
  apply phase_bind; [apply drain_completions_phase|intros []].
  apply phase_bind; [apply reevaluate_recv_phase|intros []]. apply reevaluate_event_phase.
Qed.
(** A pass in which nobody runs changes nothing and finds nobody to run. *)
Lemma run_phase_idle q l : ∀ b k k', run_phase q l b k = Done (k', false) →
  k' = k ∧ b = false ∧ ∀ i p, i ∈ l → k_processes k !! i = Some p → is_schedulable p = false.
Proof.
  induction l as [|i l IH]; intros b k k'; cbn [run_phase]; [intros [= -> ->]; set_solver|].
  unfold mbind, kernelM_bind. destruct (get_process i k) as [[k1 p]|] eqn:Ep; [|done].
  apply (get_process_ro i) in Ep as Hk1. subst k1. unfold get_process, asks in Ep.
  destruct (vec_get i (k_processes k)) as [p0|] eqn:Hp; [|done]. injection Ep as <-. apply vec_get_Done in Hp.
  destruct (exited p0 || negb (is_schedulable p0)) eqn:Es.
  - intros Hr. apply IH in Hr as (->&->&Hall). split_and!; try done. intros j r [->|Hj]%elem_of_cons Hr; [|by eapply Hall].
    assert (r = p0) as -> by congruence. destruct (is_schedulable p0) eqn:E; [|done].
    apply schedulable_spec in E as [E _]. unfold exited in Es. by rewrite bool_decide_true in Es.
  - destruct (modify _ _) as [[k2 []]|]; [|done]. destruct (run_process i q k2) as [[k3 []]|]; [|done].
    destruct (wake_waiters k3) as [[k4 []]|]; [|done]. intros Hr. by apply IH in Hr as (_&?&_).
Qed.

(** The kernel has nothing left to do until the host acts. *)
Definition quiescent (k : Kernel) : Prop :=
  resolved k ∧ has_autonomous_io k = false ∧ ∀ i p, k_processes k !! i = Some p → is_schedulable p = false.
Lemma round_spec q k : kinv [] k → wp (round q) (λ b k', kinv [] k' ∧ (b = false → quiescent k')) k.
Proof.
  intros Hk. unfold round. apply wp_bind. eapply wp_mono; [by apply resolve_phase_spec|]. intros [] k1 [Hk1 Hres].
  apply wp_bind, wp_gets, wp_bind. apply wp_run. intros k2 b Hrun.
  pose proof (wp_Done _ _ _ _ _ (run_phase_spec q _ false k1 Hk1) Hrun) as Hk2. cbv beta in Hk2.
  destruct b; [by apply wp_ret|]. apply run_phase_idle in Hrun as (->&_&Hall). apply wp_bind, wp_gets.
  destruct (has_autonomous_io k1) eqn:Eio.
  - apply wp_bind. eapply wp_mono; [by apply idle_phase|]. intros [] k3 [Hk3 _]. by apply wp_ret.
  - apply wp_ret. split; [done|]. intros _. split_and!; try done. intros i p Hp. eapply Hall; [|exact Hp].
    apply elem_of_seq. apply lookup_lt_Some in Hp. lia.
Qed.
Lemma run_spec q n k : kinv [] k → wp (run q n) (λ _ k', kinv [] k') k.
Proof.
  revert k. induction n as [|n IH]; intros k Hk; cbn [run]; [by apply wp_ret|]. apply wp_bind.
  eapply wp_mono; [by apply round_spec|]. intros b k1 [Hk1 _]. destruct b; [by apply IH|by apply wp_ret].
Qed.

(** ** Boot *)
Lemma grant_each_spec dom l k k0 : around f0 M0 D [] k0 k → wp (grant_each dom l) (λ _ k', around f0 M0 D [] k0 k') k.
Proof.
  revert k. induction l as [|[[[[o off] len] p] e] l IH]; intros k Ha; cbn [grant_each]; [by apply wp_ret|].
  unfold grant_or_destroy. wp_steps; apply wp_modify, wp_ret.
  - apply IH. apply around_fabric; [done|]. by eapply grant_move.
  - apply wp_ret. apply around_fabric; [done|]. apply destroy_domain_move.
Qed.
Lemma boot_spec info k : kinv [] k → is_u64 (pl_stack_size (boot_layout info)) → wp (boot info) (λ _ k', kinv [] k') k.
Proof.
  intros Hk Hsz. unfold boot. wp_steps; try done. apply wp_on_fabric. intros f dom Hf.
  assert (around f0 M0 D [] k (set_k_fabric f k)) as Ha
    by (apply (around_fabric f0 M0 D [] k k); [done|by eapply create_domain_move]).
  wp_steps. eapply wp_mono; [by apply grant_each_spec|]. intros [[]|e] k2 (Hk2&_); [|by apply wp_ret].
  apply wp_bind. eapply wp_mono; [by apply prepare_spec|]. intros key k3 (Hk3&_). apply wp_bind, wp_modify, wp_ret.
  by apply (kinv_same _ _ _ _ k3).
Qed.
End running.
