(* ===== verification/KernelReach.v ===== *)
(** * Reachable kernels

    The operations the host has on a kernel, as a step relation, and the invariant
    of every kernel they produce. *)

From S2P Require Import Prelude State CapTable Extents ExtentsFacts Registry PointerFrames HeapLedger.
From S2P Require Import Fabric FabricTx FabricAuth FabricInv FabricSafety FabricCells FabricHeap.
From S2P Require Import Block Nic Desc Isa Core CoreFault CoreInv FabricMoves CoreEvents.
From S2P Require Import Kernel Syscalls Scheduler KernelLogic KernelDevices KernelInv KernelSteps KernelCalls.
From S2P Require Import KernelImages KernelDispatch KernelSched.

Section reach.
Context `{Profile} `{Host}.

(** The host boots, runs the scheduler, registers devices, feeds and drains the
    network, provisions input, installs capabilities, adds processes, and operates
    the fabric directly. *)
Inductive kernel_step (k : Kernel) : Kernel → Prop :=
| ks_boot info r k' : is_u64 (pl_stack_size (boot_layout info)) → boot info k = Done (k', r) → kernel_step k k'
| ks_run quantum rounds k' : run quantum rounds k = Done (k', tt) → kernel_step k k'
| ks_register_block storage latency agent r k' :
    register_block_device (block_new storage latency agent) k = Done (k', r) → kernel_step k k'
| ks_register_nic agent r k' : register_nic_device (nic_new agent) k = Done (k', r) → kernel_step k k'
| ks_inject binding frame r k' : inject_nic_rx binding frame k = Done (k', r) → kernel_step k k'
| ks_take binding r k' : take_nic_tx binding k = Done (k', r) → kernel_step k k'
| ks_provision key bytes r k' : provision_process_input key bytes k = Done (k', r) → kernel_step k k'
| ks_detach key r k' : detach_process_input key k = Done (k', r) → kernel_step k k'
| ks_install slot object offset length perms r k' :
    install_capability slot object offset length perms k = Done (k', r) → kernel_step k k'
| ks_install_device slot object rights r k' :
    install_device_capability slot object rights k = Done (k', r) → kernel_step k k'
| ks_spawn c key k' : reachable c → spawn c k = Done (k', key) → kernel_step k k'
| ks_fabric f : fab_move (k_fabric k) f → kernel_step k (set_k_fabric f k).

Inductive kernel_reach : Kernel → Prop :=
| kr_new f M context : fab_reach f M → kernel_reach (kernel_new f context)
| kr_step k k' : kernel_reach k → kernel_step k k' → kernel_reach k'.

Section preserved.
Context (f0 : Fabric) (M0 : list Capability64) (D : ProcessKey → Prop).
Abbreviation kinv := (kinv f0 M0 D).

Lemma kinv_same' X k k' : kinv X k →
  k_fabric k' = k_fabric k → k_devices k' = k_devices k → k_mailboxes k' = k_mailboxes k →
  k_lifecycle_tables k' = k_lifecycle_tables k → k_next_phys k' = k_next_phys k →
  k_free_stack_extents k' = k_free_stack_extents k → k_free_trap_extents k' = k_free_trap_extents k →
  k_processes k' = k_processes k → k_next_pid k' = k_next_pid k → kinv X k'.
Proof. intros. by apply (kinv_same _ _ _ _ k). Qed.

Lemma register_device_spec name c k : kinv [] k → dev_wf c → wp (register_device name c) (λ _ k', kinv [] k') k.
Proof.
  intros Hk Hc. unfold register_device. apply wp_bind, wp_on_fabric. intros f id Hf.
  assert (kinv [] (set_k_fabric f k)) as Hk1 by (apply kinv_fabric; [by eapply alloc_move|done]).
  wp_steps; try done. apply wp_modify, wp_ret. apply kinv_devices; [|done]. apply Forall_app. split; [apply Hk1|by constructor].
Qed.
Lemma register_block_spec c k : kinv [] k → dev_wf (DevBlock c) → wp (register_block_device c) (λ _ k', kinv [] k') k.
Proof.
  intros Hk Hc. unfold register_block_device. apply wp_bind. eapply wp_mono; [by apply register_device_spec|].
  intros [b|] k1 Hk1; [|by apply wp_ret]. wp_steps; [done|]. apply wp_modify, wp_ret. by eapply kinv_same'.
Qed.

(** A frame queue of a network controller changes. *)
Lemma queue_spec i n c c' k Q : kinv [] k → k_devices k !! i = Some n → ds_controller n = DevNic c →
  (∃ frame ok, inject_rx c frame = (c', ok)) ∨ (∃ frame, take_tx c = (c', frame)) ∨ c' = nic_acknowledge_attention c →
  (∀ k', kinv [] k' → Q tt k') → wp (set_controller i (DevNic c')) Q k.
Proof.
  intros Hk Hn Hc Hq HQ. pose proof (Forall_lookup_1 _ _ _ _ (ki_devices _ _ _ _ _ Hk) Hn) as Hwf. cbn in Hwf. rewrite Hc in Hwf.
  eapply wp_mono; [apply (phase_set_controller f0 M0 D); [by eapply nic_queue_wf|done]|]. intros [] k' [? _]. auto.
Qed.
Lemma take_spec b k : kinv [] k → wp (take_nic_tx b) (λ _ k', kinv [] k') k.
Proof.
  intros Hk. unfold take_nic_tx. wp_steps; try done. eapply queue_spec; [done|by apply vec_get_Done|done|eauto|].
  intros k' Hk'. by apply wp_ret.
Qed.
Lemma inject_spec b frame k : kinv [] k → wp (inject_nic_rx b frame) (λ _ k', kinv [] k') k.
Proof.
  intros Hk. unfold inject_nic_rx. wp_steps; try done. eapply queue_spec; [done|by apply vec_get_Done|done|eauto|].
  intros k' Hk'. apply wp_bind. eapply wp_mono; [by apply (reevaluate_event_phase f0 M0 D)|]. intros [] k2 [Hk2 _]. by apply wp_ret.
Qed.
Lemma provision_spec key bytes k : kinv [] k → wp (provision_process_input key bytes) (λ _ k', kinv [] k') k.
Proof.
  intros Hk. unfold provision_process_input. wp_steps; try done. apply wp_modify, wp_bind, wp_modify, wp_ret. by eapply kinv_same'.
Qed.
Lemma detach_process_spec key k : kinv [] k → wp (detach_process_input key) (λ _ k', kinv [] k') k.
Proof.
  intros Hk. unfold detach_process_input. wp_steps; try done. apply wp_modify, wp_ret. by eapply kinv_same'.
Qed.
Lemma install_spec slot o off len p k : kinv [] k → wp (install_capability slot o off len p) (λ _ k', kinv [] k') k.
Proof.
  intros Hk. unfold install_capability. wp_steps; try done; subst; apply wp_modify.
  all: match goal with E : alloc_authority_id (k_fabric ?k) = Some (?f, _) |- _ =>
    assert (kinv [] (set_k_fabric f k)) as Hk1 by (apply kinv_fabric; [by eapply alloc_authority_move|done]) end.
  wp_steps; try done. subst. apply wp_modify.
  match goal with E : grant_with_authority_id _ _ _ _ _ _ _ = Some (?f, _) |- wp _ _ ?k2 =>
    assert (kinv [] k2) as Hk2 by (eapply (kinv_fabric _ _ _ _ _ f); [|exact Hk1]; by eapply grant_id_move) end.
  wp_steps; try done. eapply wp_mono; [apply install_or_rollback_spec; [|exact Hk2]|by intros o' k' [? _]].
  intros. by eapply step_install_memory.
Qed.
Lemma install_device_spec slot o r k : kinv [] k → wp (install_device_capability slot o r) (λ _ k', kinv [] k') k.
Proof.
  intros Hk. unfold install_device_capability. wp_steps; try done; subst; apply wp_modify.
  all: match goal with E : alloc_authority_id (k_fabric ?k) = Some (?f, _) |- _ =>
    assert (kinv [] (set_k_fabric f k)) as Hk1 by (apply kinv_fabric; [by eapply alloc_authority_move|done]) end.
  all: wp_steps; try done; subst; apply wp_modify.
  all: match goal with E : grant_device_with_authority_id _ _ _ _ _ = Some ?f |- wp _ _ ?k2 =>
    assert (kinv [] k2) as Hk2 by (eapply (kinv_fabric _ _ _ _ _ f); [|exact Hk1]; by eapply grant_device_move) end.
  all: eapply wp_mono; [apply install_or_rollback_spec; [|exact Hk2]|by intros o' k' [? _]].
  all: intros; by eapply step_install_device.
Qed.

Lemma kernel_step_inv k k' : kinv [] k → kernel_step k k' → kinv [] k'.
Proof.
  intros Hk Hs. destruct Hs as [| | | | | | | | | | |f Hm]; last (by apply kinv_fabric).
  all: match goal with E : ?m _ = Done _ |- _ => eapply (wp_Done m (λ _ x, kinv [] x)); [|exact E] end.
  - by apply boot_spec.
  - by apply run_spec.
  - apply register_block_spec; [done|apply block_new_wf].
  - apply register_device_spec; [done|apply nic_new_wf].
  - by apply inject_spec.
  - by apply take_spec.
  - by apply provision_spec.
  - by apply detach_process_spec.
  - by apply install_spec.
  - by apply install_device_spec.
  - eapply wp_mono; [by apply spawn_spec|]. by intros key1 k1 [? _].
Qed.
End preserved.

Lemma kernel_new_inv f M context : kinv f M (λ _, False) [] (kernel_new f context).
Proof. split; [by exists M; constructor|..]; try done; try (by constructor). Qed.

Lemma kernel_reach_inv k : kernel_reach k → ∃ f M, fab_reach f M ∧ kinv f M (λ _, False) [] k.
Proof.
  induction 1 as [f M context Hf|k k' _ (f&M&Hf&Hk) Hs].
  - exists f, M. split; [done|apply kernel_new_inv].
  - exists f, M. split; [done|by eapply kernel_step_inv].
Qed.
Lemma kinv_fab_reach f M D X k : fab_reach f M → kinv f M D X k → ∃ M', fab_reach (k_fabric k) M'.
Proof.
  intros Hf Hk. destruct (ki_fabric _ _ _ _ _ Hk) as [M' Hs]. exists M'. clear Hk. revert Hf.
  induction Hs; [done|]. intros ?. apply IHHs. by eapply reach_step.
Qed.
End reach.
