(* ===== verification/KernelTree.v ===== *)
(** * The process tree

    Exit takes down exactly the descendants of the process, and the recursion that
    does so is bounded by the number of processes. *)

From S2P Require Import Prelude State CapTable Extents ExtentsFacts Registry PointerFrames HeapLedger.
From S2P Require Import Fabric FabricTx FabricAuth FabricInv FabricSafety FabricCells FabricHeap.
From S2P Require Import RegistrySafety RegistryOps Block Nic Desc Isa Core CoreFault CoreInv FabricMoves PointerSafety CoreEvents.
From S2P Require Import Kernel Syscalls Scheduler KernelLogic KernelDevices KernelInv KernelSteps.

Section tree.
Context `{Profile} `{Host} (f0 : Fabric) (M0 : list Capability64) (D : ProcessKey → Prop).
Abbreviation kinv := (kinv f0 M0 D).

(** Descendants are younger. *)
Lemma descends_younger X k i z j r : kinv X k → k_processes k !! i = Some z →
  descends k (process_key i (p_generation z)) j → k_processes k !! j = Some r → p_pid z < p_pid r.
Proof.
  intros Hk Hz Hd. revert r. induction Hd as [j r Hr Hl Hpa|j i' p r Hd IH Hp Hr Hl Hpa]; intros r' Hr'; assert (r' = r) as -> by congruence.
  - destruct (ki_parent _ _ _ _ _ Hk j r _ Hr Hl Hpa) as (j'&q&Hq&E&Hlt&_).
    apply process_key_inj in E as [<- _]. congruence.
  - destruct (ki_parent _ _ _ _ _ Hk j r _ Hr Hl Hpa) as (j'&q&Hq&E&Hlt&_).
    apply process_key_inj in E as [<- _]. specialize (IH _ Hq). lia.
Qed.

(** The tree is the same before and after a process becomes a zombie. *)
Lemma descends_exit k k1 i p z key j : k_processes k !! i = Some p → p_state p = ProcRunning → exited_as p z →
  k_processes k1 = <[i := z]> (k_processes k) → descends k key j ↔ descends k1 key j.
Proof.
  intros Hp Hrun (Hz&_&Hg&Hpa&_) Hpr.
  assert (live p = true ∧ live z = true) as [Hlp Hlz] by (unfold live; by rewrite Hrun, Hz).
  assert (k_processes k1 !! i = Some z) as Hzi by (rewrite Hpr; apply list_lookup_insert_eq; by eapply lookup_lt_Some).
  assert (∀ c, c ≠ i → k_processes k1 !! c = k_processes k !! c) as Hne by (intros; by rewrite Hpr, list_lookup_insert_ne).
  split; induction 1 as [j r Hr Hl Hpr'|j i' q r Hd IH Hq Hr Hl Hpr'].
  - destruct (decide (j = i)) as [->|]; [simplify_eq; eapply desc_child; [done|done|congruence]|].
    eapply desc_child; [by rewrite Hne|done|done].
  - assert (∃ q1, k_processes k1 !! i' = Some q1 ∧ p_generation q1 = p_generation q) as (q1&Hq1&Eg).
    { destruct (decide (i' = i)) as [->|]; [exists z|exists q; by rewrite Hne]. by simplify_eq. }
    destruct (decide (j = i)) as [->|]; [simplify_eq; eapply desc_next; [done|done|done|done|by rewrite Eg, Hpa]|].
    eapply desc_next; [done|done|by rewrite Hne|done|by rewrite Eg].
  - destruct (decide (j = i)) as [->|]; [simplify_eq; eapply desc_child; [done|done|congruence]|].
    eapply desc_child; [by rewrite <- Hne|done|done].
  - assert (∃ q1, k_processes k !! i' = Some q1 ∧ p_generation q1 = p_generation q) as (q1&Hq1&Eg).
    { destruct (decide (i' = i)) as [->|]; [exists p|exists q; by rewrite <- Hne]. by simplify_eq. }
    destruct (decide (j = i)) as [->|]; [simplify_eq; eapply desc_next; [done|done|done|done|by rewrite Eg, <- Hpa]|].
    eapply desc_next; [done|done|by rewrite <- Hne|done|by rewrite Eg].
Qed.

(** After the cull no descendant is left. *)
Lemma culled_descendants X key k k' j : kinv X k' → childless key k' → culled k k' →
  descends k key j → ∀ r', k_processes k' !! j = Some r' → live r' = false.
Proof.
  intros Hk' Hch Hc. induction 1 as [j r Hr Hl Hpa|j i' p r Hd IH Hp Hr Hl Hpa]; intros r' Hr'.
  all: destruct (Hc j r Hr) as (r1&Hr1&E); assert (r1 = r') as -> by congruence;
    destruct E as [->|]; [exfalso|done].
  - by eapply Hch.
  - destruct (ki_parent _ _ _ _ _ Hk' j r _ Hr' Hl Hpa) as (j'&q&Hq&E&_&Hlq&_).
    apply process_key_inj in E as [<- _]. rewrite (IH q Hq) in Hlq. done.
Qed.

(** Exit: the process is a zombie with the given result, its descendants are gone,
    and no other process changes. *)
Record exits (i : nat) (p : Process) (r : ProcessResult) (k k' : Kernel) : Prop := {
  ex_zombie : ∃ z, k_processes k' !! i = Some z ∧ exited_as p z ∧ p_result z = Some r;
  ex_descendants j q : descends k (process_key i (p_generation p)) j →
    k_processes k' !! j = Some q → live q = false;
  ex_others j : j ≠ i → ¬ descends k (process_key i (p_generation p)) j →
    k_processes k' !! j = k_processes k !! j;
}.

Lemma finish_exact k i p r : kinv [] k → k_processes k !! i = Some p → p_state p = ProcRunning → blocked p = false →
  wp (finish_process i r) (λ _ k', exits i p r k k') k.
Proof.
  intros Hk Hp Hrun Hb. eapply finish_unfold; [done..|]. intros z k1 Hz Hres Hpr _ Hk1.
  set (key := process_key i (p_generation p)) in *. unfold terminate_orphans. apply wp_bind, wp_gets.
  pose proof (λ j, descends_exit k k1 i p z key j Hp Hrun Hz Hpr) as Hdesc.
  assert (k_processes k1 !! i = Some z) as Hzi by (rewrite Hpr; apply list_lookup_insert_eq; by eapply lookup_lt_Some).
  eapply wp_mono; [apply (terminate_spec f0 M0 D _ key [key]); [set_solver|done]|].
  intros [] k' (Hk'&Hch&Hu&Hlen). pose proof (culled_under_culled _ _ _ Hu) as Hc. split.
  - destruct (Hu i z Hzi) as (z'&Hz'&[->|[_ Hd]]); [by exists z|]. exfalso.
    unfold key in Hd. destruct Hz as (_&_&Hg&_). rewrite <- Hg in Hd. pose proof (descends_younger _ _ _ _ _ _ Hk1 Hzi Hd Hzi). lia.
  - intros j q Hd. apply Hdesc in Hd. by eapply culled_descendants.
  - intros j Hj Hnd. destruct (k_processes k !! j) as [q|] eqn:Hq.
    + assert (k_processes k1 !! j = Some q) as Hq1 by (by rewrite Hpr, list_lookup_insert_ne).
      destruct (Hu j q Hq1) as (q'&Hq'&[->|[_ Hd]]); [done|]. by apply Hdesc in Hd.
    + apply lookup_ge_None in Hq. apply lookup_ge_None. rewrite Hlen, Hpr, length_insert. done.
Qed.
End tree.

(** ** Exit returns *)
Definition registry_ok (k : Kernel) : Prop := reg_wf (fab_scoped_pointers (k_fabric k)).

Section total.
Context `{Profile} `{Host}.

Lemma move_registry f f' : fab_move f f' → evolves (fab_scoped_pointers f) (fab_scoped_pointers f').
Proof. intros Hm. destruct (Hm []) as [M Hs]. by eapply steps_registry. Qed.
Lemma registry_move k k' : fab_move (k_fabric k) (k_fabric k') → registry_ok k → registry_ok k'.
Proof. intros Hm Hr. by apply (move_registry _ _ Hm). Qed.

(** No index of [close_owner] is out of range. *)
Lemma close_owner_total r o : ∃ x, close_owner r o = Done x.
Proof.
  unfold close_owner. destruct (account r o) as [a|e] eqn:Ha; cbn; [|by eexists]. destruct (acc_closed a); [by eexists|].
  unfold account in Ha. destruct (hl_accounts _ !! oa_index o) as [[b|]|] eqn:Hi; [|done..].
  unfold with_account, set_account. rewrite (vec_get_lookup _ _ _ Hi). cbn. unfold vec_set.
  rewrite (proj2 (Nat.ltb_lt _ _)) by (by eapply lookup_lt_Some). cbn. by eexists.
Qed.

Lemma close_heap_returns i p k : k_processes k !! i = Some p → returns (close_process_heap i) k.
Proof.
  intros Hp. unfold close_process_heap. apply returns_bind; [by eapply returns_with_process|].
  apply wp_with_process. intros q Hq. pose proof (put_lookup i (set_p_heap_free_wait None q) _ _ Hq) as Hq1.
  apply returns_bind; [by eapply returns_get_process|]. apply wp_get_process. intros q1 _.
  apply returns_bind; [apply returns_gets|]. apply wp_gets. destruct (heap_account _ _) as [o|]; [|apply returns_ret].
  edestruct (close_owner_total) as [x Hx]. apply returns_bind; [unfold returns, lift; rewrite Hx; eauto|].
  apply wp_lift. intros [[sp n]|] _; [apply returns_modify|apply returns_ret].
Qed.

Lemma retire_frames_total l : ∀ f, reg_wf (fab_scoped_pointers f) → ∃ f', retire_frames f l = Done f' ∧ reg_wf (fab_scoped_pointers f').
Proof.
  induction l as [|a l IH]; intros f Hf; cbn; [by exists f|].
  destruct (retire_frame_spec f (af_scope a) (af_locals a) Hf) as (x&->&Hx). cbn. apply IH.
  destruct x as [f'|e]; [|done]. destruct (Hx f' eq_refl) as [Hc _]. by apply (registry_run_evolves _ _ (cm_registry _ _ Hc)).
Qed.
Lemma retire_saved_total l : ∀ f, reg_wf (fab_scoped_pointers f) → ∃ f', retire_saved f l = Done f' ∧ reg_wf (fab_scoped_pointers f').
Proof.
  induction l as [|a l IH]; intros f Hf; cbn; [by exists f|].
  destruct (sv_image a ≫= im_frames) as [st|] eqn:E; cbn.
  - destruct (retire_frames_total (fs_active st) f Hf) as (f1&->&Hf1). by apply IH.
  - by apply IH.
Qed.
Lemma retire_returns i p k : registry_ok k → k_processes k !! i = Some p → returns (retire_process_frames i) k.
Proof.
  intros Hr Hp. unfold retire_process_frames. apply returns_bind; [by eapply returns_get_process|].
  apply wp_get_process. intros q Hq. apply returns_bind.
  - assert (∃ x, retire_all_pointer_frames (p_core q) (k_fabric k) = Done x) as [x Hx].
    { unfold retire_all_pointer_frames.
      assert (∃ f1, match core_pointer_frames (p_core q) with Some s => retire_frames (k_fabric k) (fs_active s)
        | None => Done (k_fabric k) end = Done f1 ∧ reg_wf (fab_scoped_pointers f1)) as (f1&->&Hf1).
      { destruct (core_pointer_frames _) as [s|]; [by apply retire_frames_total|by eexists]. }
      cbn. destruct (retire_saved_total (core_saved_event_contexts (p_core q)) f1 Hf1) as (f2&->&_). cbn. by eexists. }
    unfold returns, on_fabric. rewrite Hx. cbn. eauto.
  - apply wp_on_fabric. intros f c _. by eapply returns_set_process.
Qed.
Lemma release_returns i p k : k_processes k !! i = Some p → returns (release_resources i) k.
Proof.
  intros Hp. unfold release_resources. apply returns_bind; [by eapply returns_get_process|].
  apply wp_get_process. intros q Hq. destruct (p_resources q); [|apply returns_ret].
  apply returns_bind; [by eapply returns_set_process|]. apply wp_set_process.
  do 4 (apply returns_bind; [apply returns_modify|]; apply wp_modify). apply returns_modify.
Qed.

(** The slot of a process in range, with its mailbox and table *)
Definition in_range (i : nat) (k : Kernel) : Prop :=
  (i < length (k_mailboxes k))%nat ∧ (i < length (k_lifecycle_tables k))%nat.

Lemma reclaim_returns i p k : registry_ok k → k_processes k !! i = Some p → p_heap_free_wait p = None → in_range i k →
  returns (reclaim_process i) k.
Proof.
  intros Hr Hp Hh Hin. unfold reclaim_process.
  apply returns_bind; [by eapply close_heap_returns|]. eapply wp_mono; [by apply close_heap_spec|]. intros [] k1 S1.
  pose proof (shift_lookup _ _ _ _ _ S1) as Hp1. pose proof (registry_move _ _ (sh_fabric _ _ _ _ _ S1) Hr) as Hr1.
  apply returns_bind; [by eapply retire_returns|]. eapply wp_mono; [by eapply retire_spec|]. intros [] k2 (c&_&S2).
  pose proof (shift_trans _ _ _ _ _ _ _ S1 S2) as S12. clear S1 S2.
  apply returns_bind; [apply returns_modify|]. eapply wp_mono; [eapply detach_spec, shift_lookup, S12|]. intros [] k3 S3.
  pose proof (shift_trans _ _ _ _ _ _ _ S12 S3) as S13. clear S12 S3. pose proof (shift_lookup _ _ _ _ _ S13) as Hp3.
  apply returns_bind; [by eapply release_returns|]. eapply wp_mono; [by eapply release_spec|]. intros [] k4 S4.
  pose proof (shift_trans _ _ _ _ _ _ _ S13 S4) as S. clear S13 S4. pose proof (shift_lookup _ _ _ _ _ S) as Hq.
  destruct Hin as [Hm Ht].
  apply returns_bind; [apply returns_set_mailbox; by rewrite (sh_mailboxes _ _ _ _ _ S)|]. apply wp_set_mailbox. intros _.
  apply returns_bind; [apply returns_set_lifecycle; cbn; by rewrite (sh_tables _ _ _ _ _ S)|]. apply wp_set_lifecycle. intros _.
  apply returns_bind; [by eapply returns_with_process|]. apply wp_with_process. intros q1 Hq1.
  eapply returns_with_process. by eapply put_lookup.
Qed.

Lemma reap_returns i p k : registry_ok k → k_processes k !! i = Some p → p_heap_free_wait p = None → in_range i k →
  returns (reap i) k.
Proof.
  intros Hr Hp Hh Hin. unfold reap. apply returns_bind; [by eapply returns_get_process|]. apply wp_get_process. intros p1 Hp1.
  assert (p1 = p) as -> by congruence. destruct (p_state p); [|by eapply reclaim_returns|apply returns_ret..].
  apply returns_bind; [by eapply close_heap_returns|]. eapply wp_mono; [by apply close_heap_spec|]. intros [] k1 S1.
  pose proof (shift_lookup _ _ _ _ _ S1) as Hp2. apply returns_bind; [by eapply returns_with_process|].
  apply wp_with_process. intros p2 Hp2'. assert (p2 = p) as -> by congruence.
  eapply reclaim_returns; [|by eapply put_lookup|done|].
  - by apply (registry_move k), Hr; apply (sh_fabric _ _ _ _ _ S1).
  - destruct Hin. by split; cbn; rewrite ?(sh_mailboxes _ _ _ _ _ S1), ?(sh_tables _ _ _ _ _ S1).
Qed.
End total.

(** ** The recursion is bounded by the number of live processes *)
Definition younger (b : Z) (p : Process) : bool := live p && (b <=? p_pid p).
Definition count_younger (b : Z) (l : list Process) : nat := length (List.filter (younger b) l).

Lemma count_younger_mono b b' l l' : b ≤ b' → Forall2 (λ r r', r' = r ∨ live r' = false) l l' →
  (count_younger b' l' ≤ count_younger b l)%nat.
Proof.
  intros Hb. unfold count_younger. induction 1 as [|r r' l l' Hr _ IH]; cbn; [lia|].
  assert (younger b' r' = true → younger b r = true) as Hy.
  { unfold younger. destruct Hr as [->| ->]; [|done]. intros Hy. bools. apply andb_true_iff. split; [done|]. apply Z.leb_le. lia. }
  destruct (younger b' r'), (younger b r); cbn; lia.
Qed.
Lemma unculled l : Forall2 (λ r r' : Process, r' = r ∨ live r' = false) l l.
Proof. apply Forall_Forall2_diag, Forall_forall. auto. Qed.
Lemma count_younger_at b l i p : l !! i = Some p → live p = true → p_pid p = b →
  (count_younger (b + 1) l < count_younger b l)%nat.
Proof.
  intros Hi Hl Hb. rewrite <- (take_drop_middle l i p Hi).
  assert (∀ l, (count_younger (b + 1) l ≤ count_younger b l)%nat) as Hm.
  { intros l'. apply count_younger_mono; [lia|apply unculled]. }
  unfold count_younger in *. rewrite !List.filter_app, !length_app. cbn.
  assert (younger b p = true) as -> by (unfold younger; rewrite Hl; by apply Z.leb_le, Z.eq_le_incl).
  assert (younger (b + 1) p = false) as -> by (unfold younger; rewrite Hl; cbn; apply Z.leb_gt; lia).
  cbn. specialize (Hm (take i l)) as H1. specialize (Hm (drop (S i) l)) as H2. lia.
Qed.
Lemma count_younger_length b l : (count_younger b l ≤ length l)%nat.
Proof. unfold count_younger. apply List.filter_length_le. Qed.

Lemma culled_Forall2 k k' : culled k k' → length (k_processes k') = length (k_processes k) →
  Forall2 (λ r r', r' = r ∨ live r' = false) (k_processes k) (k_processes k').
Proof.
  intros Hc Hl. apply Forall2_same_length_lookup_2; [done|]. intros j r r' Hr Hr'.
  destruct (Hc j r Hr) as (r1&Hr1&E). congruence.
Qed.

Section bounded.
Context `{Profile} `{Host} (f0 : Fabric) (M0 : list Capability64) (D : ProcessKey → Prop).
Context (Hreach : fab_reach f0 M0).
Abbreviation kinv := (kinv f0 M0 D).

Lemma kinv_registry X k : kinv X k → registry_ok k.
Proof.
  intros Hk. destruct (ki_fabric _ _ _ _ _ Hk) as [M Hs]. unfold registry_ok.
  apply (steps_registry _ _ _ _ Hs). by eapply reach_registry.
Qed.
Lemma kinv_in_range X k i p : kinv X k → k_processes k !! i = Some p → in_range i k.
Proof. intros [] Hp%lookup_lt_Some. split; congruence. Qed.

Lemma terminate_returns fuel dead X b k : dead ∈ X → kinv X k →
  (∀ j r, k_processes k !! j = Some r → live r = true → p_parent r = Some dead → b ≤ p_pid r) →
  (count_younger b (k_processes k) < fuel)%nat → returns (terminate_orphans_fuel fuel dead) k.
Proof.
  revert dead X b k. induction fuel as [|fuel IH]; intros dead X b k Hd Hk Hb Hn; [lia|].
  cbn [terminate_orphans_fuel]. apply returns_bind; [apply returns_gets|]. apply wp_gets.
  apply (returns_for _ _ (cull_inv f0 M0 D dead X k)); [|by apply cull_inv_start].
  intros [j key] rest k1 Hinv. split; [|by apply cull_step, Hinv; [apply terminate_spec|]].
  destruct Hinv as (Hk1&Hc1%culled_under_culled&Hl1&_&Hin). cbn [fst snd].
  destruct (proj1 (children_spec (k_processes k) dead j key)) as (r0&Hr0&Hlr0&Hpa0&->); [apply Hin; set_solver|].
  set (key := process_key j (p_generation r0)) in *. pose proof (Hb j r0 Hr0 Hlr0 Hpa0) as Hb0.
  assert (kinv (key :: X) k1) as Hk1' by (eapply kinv_weaken; [|done]; set_solver).
  apply returns_bind.
  - apply (IH key (key :: X) (p_pid r0 + 1)); [set_solver|done| |].
    + intros c r Hr Hl Hpa. destruct (ki_parent _ _ _ _ _ Hk1' c r _ Hr Hl Hpa) as (j'&q&Hq&E&Hpid&Hlq&_).
      apply process_key_inj in E as [<- _]. destruct (Hc1 j r0 Hr0) as (r1&Hr1&E1).
      assert (r1 = q) as -> by congruence. destruct E1 as [->|]; [lia|congruence].
    + pose proof (count_younger_at _ _ _ _ Hr0 Hlr0 eq_refl).
      pose proof (count_younger_mono b (p_pid r0) _ _ Hb0 (unculled (k_processes k))).
      pose proof (count_younger_mono _ _ _ _ (Z.le_refl (p_pid r0 + 1)) (culled_Forall2 _ _ Hc1 Hl1)). lia.
  - eapply wp_mono; [apply (terminate_spec f0 M0 D fuel key (key :: X)); [set_solver|done]|].
    intros [] k2 (Hk2&_&Hu2&_). destruct (Hc1 j r0 Hr0) as (r1&Hr1&_). destruct (Hu2 j r1 Hr1) as (r2&Hr2&_).
    eapply reap_returns; [by eapply kinv_registry|done|apply (ki_proc _ _ _ _ _ Hk2 _ _ Hr2)|by eapply kinv_in_range].
Qed.

(** A process that exits takes its children down with enough fuel. *)
Lemma orphans_returns k i z key : key = process_key i (p_generation z) → k_processes k !! i = Some z → kinv [key] k →
  returns (terminate_orphans key) k.
Proof.
  intros -> Hz Hk. unfold terminate_orphans. apply returns_bind; [apply returns_gets|]. apply wp_gets.
  eapply (terminate_returns _ _ _ (p_pid z + 1)); [|exact Hk| |pose proof (count_younger_length (p_pid z + 1) (k_processes k)); lia].
  - by apply list_elem_of_here.
  - intros j r Hr Hl Hpa. destruct (ki_parent _ _ _ _ _ Hk j r _ Hr Hl Hpa) as (j'&q&Hq&E&Hpid&_).
    apply process_key_inj in E as [<- _]. assert (q = z) as -> by congruence. lia.
Qed.

Lemma zombie_returns k i p r : registry_ok k → k_processes k !! i = Some p → p_heap_free_wait p = None →
  returns (to_zombie i r) k.
Proof.
  intros Hreg Hp Hh. unfold to_zombie.
  apply returns_bind; [by eapply close_heap_returns|]. eapply wp_mono; [by apply close_heap_spec|]. intros [] k1 S1.
  apply returns_bind; [apply returns_modify|]. eapply wp_mono; [eapply detach_spec, shift_lookup, S1|]. intros [] k2 S2.
  pose proof (shift_trans _ _ _ _ _ _ _ S1 S2) as S12. clear S1 S2.
  assert (registry_ok k2) as Hr2 by (by apply (registry_move k), Hreg; apply (sh_fabric _ _ _ _ _ S12)).
  pose proof (shift_lookup _ _ _ _ _ S12) as Hp2. apply returns_bind; [by eapply retire_returns|].
  eapply wp_mono; [by eapply retire_spec|]. intros [] k3 (c&Hc&S3). pose proof (shift_lookup _ _ _ _ _ S3) as Hp3.
  apply returns_bind; [by eapply returns_with_process|]. apply wp_with_process. intros p3 Hp3'.
  unfold key_of. apply returns_bind; [by eapply returns_get_process, put_lookup|]. apply wp_get_process. intros p4 _. apply returns_ret.
Qed.

(** Exit returns, with exactly the effect of [finish_exact]. *)
Lemma finish_total k i p r : kinv [] k → k_processes k !! i = Some p → p_state p = ProcRunning → blocked p = false →
  ∃ k', finish_process i r k = Done (k', tt) ∧ exits i p r k k'.
Proof.
  intros Hk Hp Hrun Hb. destruct (returns_wp (finish_process i r) (λ _ k', exits i p r k k') k) as (k'&[]&?&?);
    [|by eapply finish_exact|eauto].
  unfold returns. rewrite finish_zombie. apply returns_bind.
  { eapply zombie_returns; [by eapply kinv_registry|done|apply (ki_proc _ _ _ _ _ Hk i p Hp)]. }
  eapply wp_mono; [by apply (zombie_spec f0 M0 D [])|]. intros key k1 (->&z&Hz&_&Hpr&_&Hk1).
  destruct Hz as (_&_&Hg&_). eapply orphans_returns; [by rewrite Hg| |done].
  rewrite Hpr. apply list_lookup_insert_eq. by eapply lookup_lt_Some.
Qed.
End bounded.
