(* ===== verification/KernelDrain.v ===== *)
(** * Draining the controllers returns

    Consuming a completion and delivering it never panics in a well-formed kernel: the
    conservation assertions of the controllers hold, the process that is woken can be
    resumed, and each round leaves one completion fewer. *)

From S2P Require Import Prelude State CapTable Extents ExtentsFacts Registry PointerFrames HeapLedger.
From S2P Require Import RegistrySafety Fabric FabricTx FabricAuth FabricInv FabricSafety FabricCells FabricHeap.
From S2P Require Import Block Nic SlotMachine BlockFacts NicFacts Desc Isa Core CoreFault CoreInv FabricMoves CoreEvents.
From S2P Require Import Kernel Syscalls Scheduler KernelLogic KernelDevices KernelInv KernelSteps KernelCalls KernelSched KernelTree.

(** ** The conservation assertions *)
Lemma order_of_two (order : list nat) : NoDup order → (∀ i, i ∈ order → (i < 2)%nat) →
  order = [] ∨ order = [0%nat] ∨ order = [1%nat] ∨ order = [0%nat; 1%nat] ∨ order = [1%nat; 0%nat].
Proof.
  intros Hn Hb. destruct order as [|i [|j [|k t]]].
  - by left.
  - pose proof (Hb i ltac:(set_solver)). destruct i as [|[|]]; [auto 6|auto 6|lia].
  - pose proof (Hb i ltac:(set_solver)). pose proof (Hb j ltac:(set_solver)). apply NoDup_cons in Hn as [Hn _].
    rewrite list_elem_of_singleton in Hn. destruct i as [|[|]], j as [|[|]]; try lia; auto 6.
  - pose proof (Hb i ltac:(set_solver)). pose proof (Hb j ltac:(set_solver)). pose proof (Hb k ltac:(set_solver)).
    apply NoDup_cons in Hn as [Hi Hn]. apply NoDup_cons in Hn as [Hj _]. set_unfold. lia.
Qed.

(** Two slots whose completed ones are exactly the entries of the order: every count is a
    computation. *)
Ltac two_slots order Hn Ho Hli :=
  pose proof (λ h q, Hli 0%nat h q) as L0; pose proof (λ h q, Hli 1%nat h q) as L1; cbn in Ho, L0, L1; clear Hli;
  let E := fresh in destruct (order_of_two order Hn) as [E|[E|[E|[E|E]]]];
  [intros i Hi; let Hk := fresh in destruct (Ho i Hi) as [? Hk]; destruct i as [|[|]]; [lia..|done]|..];
  rewrite E in *; clear E Hn;
  try pose proof (Ho 0%nat ltac:(set_solver)) as [? ?]; try pose proof (Ho 1%nat ltac:(set_solver)) as [? ?]; clear Ho;
  unfold debug_assert;
  match goal with |- context [[?s0; ?s1]] => destruct s0, s1 end; cbn in *; try discriminate;
  try (destruct debug_build; reflexivity);
  first [specialize (L0 _ _ eq_refl); set_solver|specialize (L1 _ _ eq_refl); set_solver].

Section total.
Context `{Profile} `{Host}.

Lemma block_conservation_holds c : block_ready c → sm_listed (block_view c) → block_assert_conservation c = Done tt.
Proof.
  intros [Hl _ Hn Ho] Hli. unfold sm_listed, block_view in Hli. unfold block_assert_conservation. cbn in Hli.
  destruct (bc_slots c) as [|s0 [|s1 [|]]]; try discriminate Hl. two_slots (bc_completion_order c) Hn Ho Hli.
Qed.
Lemma nic_conservation_holds c : nic_ready c → sm_listed (nic_view c) → nic_assert_conservation c = Done tt.
Proof.
  intros [Hl _ Hn Ho] Hli. unfold sm_listed, nic_view in Hli. unfold nic_assert_conservation. cbn in Hli.
  destruct (nc_slots c) as [|s0 [|s1 [|]]]; try discriminate Hl. two_slots (nc_completion_order c) Hn Ho Hli.
Qed.

(** ** Consuming *)
Definition dev_slot_generations (d : DeviceController) : list Z :=
  match d with DevBlock c => bc_slot_generations c | DevNic c => nc_slot_generations c end.
(** Every slot of the controller can be consumed [n] more times before its generation
    is exhausted. *)
Definition generations_left (n : nat) (d : DeviceController) : Prop :=
  Forall (λ g, 0 ≤ g ∧ g + Z.of_nat n ≤ u64_max) (dev_slot_generations d).

Lemma gen_next_ok n gens (i : nat) g : Forall (λ g, 0 ≤ g ∧ g + Z.of_nat (S n) ≤ u64_max) gens → gens !! i = Some g →
  0 ≤ g < u64_max ∧ Forall (λ g, 0 ≤ g ∧ g + Z.of_nat n ≤ u64_max) (<[i := g + 1]> gens).
Proof.
  intros Hg Hi. pose proof (Forall_lookup_1 _ _ _ _ Hg Hi) as Hb. cbv beta in Hb. split; [lia|]. apply Forall_insert; [|lia].
  eapply Forall_impl; [exact Hg|]. cbv beta. lia.
Qed.
(** A well-formed controller with a completion gives it out. *)
Lemma dev_consume_total n d : dev_wf d → generations_left (S n) d → (0 < dev_completion_count d)%nat →
  ∃ d' c, dev_consume_completion d = Done (d', Some c) ∧ generations_left n d'.
Proof.
  unfold generations_left. destruct d as [c|c]; cbn [dev_slot_generations]; intros Hwf Hg Hpos.
  - destruct (block_head c Hwf Hpos) as (i&rest&k&Eo&Hk). cbn [dev_consume_completion]. unfold block_consume_completion.
    rewrite Eo. cbn [bc_slots set_bc_order]. rewrite (vec_get_lookup _ _ _ Hk). cbn [mbind outcome_bind].
    destruct (lookup_lt_is_Some_2 (bc_slot_generations c) i) as [g Hgi].
    { rewrite (bd_gens _ (proj1 Hwf)), <- (bd_slots _ (proj1 Hwf)). by eapply lookup_lt_Some. }
    destruct (gen_next_ok n _ i g Hg Hgi) as [Hb Hg']. cbn [bc_slot_generations set_bc_slot set_bc_order].
    rewrite (vec_get_lookup _ _ _ Hgi). cbn [mbind outcome_bind].
    rewrite add_u64_exact by (unfold is_u64, u64_max in *; lia). cbn [mbind outcome_bind].
    fold (block_retired c i rest (g + 1)). destruct (block_retired_wf c i rest (g + 1) k Hwf Eo Hk) as [Hr Hl].
    rewrite block_conservation_holds by done. cbn. eexists _, _. split; [done|exact Hg'].
  - destruct (nic_head c Hwf Hpos) as (i&rest&k&Eo&Hk). cbn [dev_consume_completion]. unfold nic_consume_completion.
    rewrite Eo. cbn [nc_slots set_nc_order]. rewrite (vec_get_lookup _ _ _ Hk). cbn [mbind outcome_bind].
    destruct (lookup_lt_is_Some_2 (nc_slot_generations c) i) as [g Hgi].
    { rewrite (nd_gens _ (proj1 Hwf)), <- (nd_slots _ (proj1 Hwf)). by eapply lookup_lt_Some. }
    destruct (gen_next_ok n _ i g Hg Hgi) as [Hb Hg']. cbn [nc_slot_generations set_nc_slot set_nc_order].
    rewrite (vec_get_lookup _ _ _ Hgi). cbn [mbind outcome_bind].
    rewrite (proj2 (checked_add_Some g 1 (g + 1))) by (unfold u64_max in Hb; lia). cbn [unwrap mbind outcome_bind].
    fold (nic_retired c i rest (g + 1)). destruct (nic_retired_wf c i rest (g + 1) k Hwf Eo Hk) as [Hr Hl].
    rewrite nic_conservation_holds by done. cbn. eexists _, _. split; [done|exact Hg'].
Qed.

(** ** Delivering *)
Lemma write_result_total c r v : 0 ≤ r < 16 → ∃ c', write_syscall_result c r v = Done c'.
Proof.
  intros Hr. unfold write_syscall_result. destruct (write_register_Done c r v Hr) as [c1 ->]. cbn.
  repeat case_match; by eexists.
Qed.
Lemma put_results_returns i rs p k : Forall (λ x, 0 ≤ x.1 < 16) rs → k_processes k !! i = Some p → returns (put_results i rs) k.
Proof.
  intros Hrs Hp. apply (returns_for _ _ (λ rest k, Forall (λ x, 0 ≤ x.1 < 16) rest ∧ is_Some (k_processes k !! i))); [|by split; [|exists p]].
  intros [r v] rest k1 [[Hr Hrest]%Forall_cons [q Hq]]. split.
  - apply returns_bind; [by eapply returns_get_process|]. apply wp_get_process. intros q' Hq'. destruct (write_result_total (p_core q') r v Hr) as [c Hc].
    apply returns_bind; [unfold returns, lift; cbn; rewrite Hc; eauto|]. apply wp_lift. intros c' _. by eapply returns_set_process.
  - apply wp_with_core. intros q' c Hq' _. split; [done|]. eexists. by eapply put_lookup.
Qed.
Lemma resume_returns i p k : k_processes k !! i = Some p → reachable (p_core p) → in_event (p_core p) → returns (resume_from_trap i) k.
Proof.
  intros Hp [G Hr] He. unfold in_event in He. destruct (core_event_frames (p_core p)) as [|h t] eqn:Ef; [done|].
  destruct (event_returns _ _ _ _ Hr Ef) as (c&Hc&_). unfold resume_from_trap.
  apply returns_bind; [by eapply returns_get_process|]. apply wp_get_process. intros q Hq. assert (q = p) as -> by congruence.
  apply returns_bind; [unfold returns, lift; rewrite Hc; eauto|]. apply wp_lift. intros x Hx. rewrite Hc in Hx. injection Hx as <-.
  by eapply returns_set_process.
Qed.
Lemma complete_request_returns f M D slot key c k p : kinv f M D [] k → k_processes k !! slot = Some p → returns (complete_request slot key c) k.
Proof.
  intros Hk Hp. pose proof (ki_proc _ _ _ _ _ Hk slot p Hp) as Hwf. unfold complete_request.
  apply returns_bind; [by eapply returns_get_process|]. apply wp_get_process. intros p1 Hp1. assert (p1 = p) as -> by congruence.
  destruct (io_wait_matches key p) eqn:Em; [|by eapply returns_with_process].
  unfold io_wait_matches in Em. destruct (p_io_wait p) as [w|] eqn:Ew; [|done].
  assert (blocked p = true) as Hb by (unfold blocked; rewrite Ew; destruct (p_waiting_on p); done).
  destruct (pw_blocked _ Hwf Hb) as [_ Hsys].
  apply returns_bind; [by eapply returns_with_process|]. apply wp_with_process. intros p1 Hp1'. assert (p1 = p) as -> by congruence.
  assert (p_core (consume_async key p) = p_core p) as Hcore by (unfold consume_async; by destruct (position _ _)).
  pose proof (put_lookup slot (consume_async key p) p k Hp) as Hq.
  apply returns_bind; [eapply put_results_returns; [|done]; destruct (comp_secondary c); repeat constructor; cbn; lia|].
  eapply wp_put_results; [done|]. intros c1 [Hr1 Hf1]. rewrite put_put. pose proof (put_lookup slot (set_p_core c1 (consume_async key p)) p k Hp) as Hq1.
  apply returns_bind; [by eapply returns_with_process|]. apply wp_with_process. intros p1 Hp2. rewrite Hq1 in Hp2. injection Hp2 as <-.
  eapply resume_returns; [by eapply put_lookup|apply Hr1; rewrite Hcore; apply Hwf|].
  unfold in_event. cbn. rewrite Hf1, Hcore. by apply in_syscall_event.
Qed.
Lemma route_completion_returns f M D b c k : kinv f M D [] k → returns (route_completion b c) k.
Proof.
  intros Hk. unfold route_completion. apply returns_bind; [apply returns_gets|]. apply wp_gets.
  destruct (k_processes k !! _) as [p|] eqn:Hp; [|apply returns_ret].
  destruct (negb _); [apply returns_ret|]. destruct (negb _); [apply returns_ret|]. by eapply complete_request_returns.
Qed.

(** ** The loop *)
Lemma drain_returns f M D i : ∀ n k d, kinv f M D [] k → k_devices k !! i = Some d →
  generations_left (dev_completion_count (ds_controller d)) (ds_controller d) →
  (dev_completion_count (ds_controller d) < n)%nat → returns (drain_device n i) k.
Proof.
  induction n as [|n IH]; intros k d Hk Hd Hg Hn; [lia|]. cbn [drain_device].
  apply returns_bind; [unfold returns, device_at, asks; rewrite (vec_get_lookup _ _ _ Hd); eauto|].
  apply wp_asks. intros d1 Hd1%vec_get_Done. assert (d1 = d) as -> by congruence.
  destruct (0 <? _)%nat eqn:Epos; [|apply returns_ret]. apply Nat.ltb_lt in Epos.
  pose proof (Forall_lookup_1 _ _ _ _ (ki_devices _ _ _ _ _ Hk) Hd) as Hwf. cbn in Hwf.
  destruct (dev_completion_count (ds_controller d)) as [|m] eqn:Ecount; [lia|].
  destruct (dev_consume_total m _ Hwf Hg) as (d'&c&Ec&Hg'); [lia|].
  apply returns_bind; [unfold returns, lift; rewrite Ec; eauto|]. apply wp_lift. intros x Hx. rewrite Ec in Hx. injection Hx as <-.
  destruct (dev_consume_wf _ _ _ Hwf Ec) as (Hwf'&_&Hcount); [lia|]. cbn [fst snd].
  apply returns_bind; [unfold returns, set_controller; rewrite Hd; eauto|].
  apply wp_set_controller. intros d1 Hd2. assert (d1 = d) as -> by congruence. set (k1 := set_k_devices _ k).
  assert (kinv f M D [] k1) as Hk1 by (apply kinv_devices; [|done]; apply Forall_insert; [apply Hk|done]).
  apply returns_bind; [by eapply route_completion_returns|]. apply wp_run. intros k2 [] Er.
  destruct (wp_Done _ _ _ _ _ (route_completion_phase f M D _ _ k1 Hk1) Er) as [Hk2 _].
  pose proof (wp_Done _ _ _ _ _ (route_completion_devices f M D _ _ k1 Hk1) Er) as Hdev. cbv beta in Hdev.
  apply (IH k2 (mkDeviceSlot (ds_binding d) d')); cbn; [done| |by replace (dev_completion_count d') with m by lia|lia].
  rewrite Hdev. unfold k1. cbn. apply list_lookup_insert_eq. by eapply lookup_lt_Some.
Qed.
End total.
