(* ===== verification/KernelDemo.v ===== *)
(** * A running kernel

    A kernel over the fabric of [CoreDemo] with two processes, and the states it
    passes through: the concrete kernels at which the theorems about reachable
    kernels are evaluated. *)

From S2P Require Import Prelude State CapTable Extents ExtentsFacts Registry PointerFrames HeapLedger.
From S2P Require Import Fabric FabricTx FabricAuth FabricInv FabricSafety Block Nic BlockFacts Desc Isa Core CoreFault CoreInv CoreDemo.
From S2P Require Import Kernel Syscalls Scheduler KernelLogic KernelDevices KernelInv KernelReach.

#[local] Existing Instance checked_profile.
#[local] Existing Instance demo_host.

(** ** Cores with given registers *)
Definition write_all (c : Anka64Core) (regs : list (Z * Z)) : Anka64Core :=
  foldl (λ c x, match write_register c x.1 x.2 with Done c => c | Panic => c end) c regs.
(** The HALT at 4112 is the trap vector. *)
Definition blank_core : Anka64Core :=
  mkCore None 1 1 false [] (replicate 6 None) None (replicate 16 0) 0 (mkFlags false false false false)
    0 0 User demo_map false 4112 [] true (mkPending false false) TurnTimer [].
Definition armed (regs : list (Z * Z)) (pc : Z) : Anka64Core := set_core_pc pc (write_all blank_core regs).

Lemma armed_reach regs pc : reachable (armed regs pc).
Proof.
  assert (∀ c, core_reach c [] → core_reach (write_all c regs) []) as Hw.
  { induction regs as [|[r v] regs IH]; [done|]. intros c Hc. cbn. apply IH.
    destruct (write_register c r v) as [c'|] eqn:E; [|done]. eapply cr_step; [exact Hc|]. by eapply cs_write. }
  exists []. eapply cr_step; [|apply (cs_set_pc (write_all blank_core regs))]. apply Hw, cr_new.
Qed.

(** ** The kernels *)
Definition kernel_of {A} (x : outcome (Kernel * A)) : Kernel :=
  match x with Done (k, _) => k | Panic => kernel_new machine 2 end.
(** SYS_RECV_WAIT for process 1, about to trap; and CALL, RET, SYS_EXIT *)
Definition waiter : Anka64Core := armed [(0, 14); (1, 1)] 4100.
Definition helper : Anka64Core := armed [] 4096.

Definition demo_kernel0 : Kernel := kernel_new machine 2.
Definition demo_kernel1 : Kernel := kernel_of (spawn waiter demo_kernel0).
Definition demo_kernel2 : Kernel := kernel_of (spawn helper demo_kernel1).
Definition demo_kernel3 : Kernel := kernel_of (register_block_device (block_new demo_storage 2 9) demo_kernel2).
(** The waiter is blocked. *)
Definition demo_blocked : Kernel := kernel_of (run 2 1 demo_kernel3).
(** Both have ended. *)
Definition demo_ended : Kernel := kernel_of (run 9 9 demo_blocked).

Lemma demo_kernel3_reach : kernel_reach demo_kernel3.
Proof.
  eapply kr_step; [|eapply (ks_register_block demo_kernel2 demo_storage 2 9); vm_compute; reflexivity].
  eapply kr_step; [|eapply (ks_spawn demo_kernel1 helper); [apply armed_reach|vm_compute; reflexivity]].
  eapply kr_step; [|eapply (ks_spawn demo_kernel0 waiter); [apply armed_reach|vm_compute; reflexivity]].
  eapply kr_new, machine_reach.
Qed.
Lemma demo_blocked_reach : kernel_reach demo_blocked.
Proof. eapply kr_step; [exact demo_kernel3_reach|]. apply (ks_run _ 2 1). vm_compute. reflexivity. Qed.
Lemma demo_ended_reach : kernel_reach demo_ended.
Proof. eapply kr_step; [exact demo_blocked_reach|]. apply (ks_run _ 9 9). vm_compute. reflexivity. Qed.

(** A reader at SYS_BLOCK_READ of block 1 into the stack object; its helper runs three
    cycles and ends, and the completion is not drained yet. *)
Definition reader : Anka64Core := armed [(0, 9); (1, 1); (2, 8192)] 4100.
Definition demo_reader : Kernel := kernel_of (spawn reader demo_kernel0).
Definition demo_readers : Kernel := kernel_of (spawn helper demo_reader).
Definition demo_reading : Kernel := kernel_of (register_block_device (block_new demo_storage 1 9) demo_readers).
Definition demo_completed : Kernel := kernel_of (run 9 1 demo_reading).

Lemma demo_completed_reach : kernel_reach demo_completed.
Proof.
  eapply kr_step; [|apply (ks_run demo_reading 9 1); vm_compute; reflexivity].
  eapply kr_step; [|eapply (ks_register_block demo_readers demo_storage 1 9); vm_compute; reflexivity].
  eapply kr_step; [|eapply (ks_spawn demo_reader helper); [apply armed_reach|vm_compute; reflexivity]].
  eapply kr_step; [|eapply (ks_spawn demo_kernel0 reader); [apply armed_reach|vm_compute; reflexivity]].
  eapply kr_new, machine_reach.
Qed.

(** A sender that holds a handle on its stack object, at SYS_SEND_CAP of the second
    eight bytes, for reading, to process 1 *)
Definition sender : Anka64Core := armed [(0, 11); (1, 1); (5, 8); (6, 8); (7, Perm.READ); (8, 77)] 4100.
Definition demo_sending : Kernel :=
  kernel_of (install_capability 0 1 0 32 (Z.lor Perm.READ Perm.WRITE)
    (kernel_of (spawn helper (kernel_of (spawn sender demo_kernel0))))).
