(* ===== verification/KernelTransfer.v ===== *)
(** * The transfer of a capability

    SYS_SEND_CAP from end to end: what the receiver gains when the call succeeds,
    and that a call that fails leaves no authority behind. *)

From S2P Require Import Prelude State CapTable Extents ExtentsFacts Registry PointerFrames HeapLedger.
From S2P Require Import Fabric FabricTx FabricAuth FabricInv FabricSafety Block Nic Desc Isa Core CoreFault CoreInv.
From S2P Require Import Kernel Syscalls Scheduler KernelLogic KernelDemo.

(** ** Granting and taking back *)
Lemma fab_domains_id f : set_fab_domains (fab_domains f) f = f.
Proof. by destruct f. Qed.

Lemma position_absent {A} (q : A → bool) l : existsb q l = false → position q l = None.
Proof. induction l as [|a l IH]; [done|]. cbn. intros [-> ?]%orb_false_iff. by rewrite IH. Qed.
Lemma position_last {A} (q : A → bool) l x : existsb q l = false → q x = true → position q (l ++ [x]) = Some (length l).
Proof.
  intros Hl Hx. induction l as [|a l IH]; cbn in *; [by rewrite Hx|]. apply orb_false_iff in Hl as [-> Hl].
  by rewrite IH.
Qed.
Lemma remove_last {A} (l : list A) x : list_remove_at (length l) (l ++ [x]) = l.
Proof. unfold list_remove_at. rewrite take_app_length, drop_ge, app_nil_r; [done|]. rewrite length_app. cbn. lia. Qed.

(** Taking back an authority that was not there before it was granted *)
Lemma push_capability_remove f dom c id f' :
  has_authority_id f dom id = false → push_capability f dom (mkEntry c (Some id)) = Some f' →
  (remove_by_authority_id f' dom id).1 = f.
Proof.
  unfold has_authority_id, push_capability. destruct (fab_domains f !! dom) as [d|] eqn:Hd; [|done].
  intros [Hc _]%orb_false_iff [= <-]. unfold remove_by_authority_id. cbn. rewrite lookup_insert_eq. cbn.
  rewrite position_last by (done || cbn; by rewrite bool_decide_true). cbn.
  rewrite remove_last, insert_insert_eq. destruct d as [i cs ds]. cbn. rewrite insert_id by done. exact (fab_domains_id f).
Qed.
Lemma push_device_remove f dom e f' :
  has_authority_id f dom (dev_authority_id e) = false → push_device f dom e = Some f' →
  (remove_by_authority_id f' dom (dev_authority_id e)).1 = f.
Proof.
  unfold has_authority_id, push_device. destruct (fab_domains f !! dom) as [d|] eqn:Hd; [|done].
  intros [Hc He]%orb_false_iff [= <-]. unfold remove_by_authority_id. cbn. rewrite lookup_insert_eq. cbn.
  rewrite position_absent by done. rewrite position_last by (done || apply Z.eqb_refl). cbn.
  rewrite remove_last, insert_insert_eq. destruct d as [i cs ds]. cbn. rewrite insert_id by done. exact (fab_domains_id f).
Qed.

(** ** What a transfer conveys *)
Definition generation_of (f : Fabric) (o : ObjectId) : option Generation := obj_generation <$> fab_objects f !! o.

(** The domain with the authority added *)
Definition granted (d : DomainState) (r : ResolvedCapability) : DomainState :=
  match r with
  | ResolvedMemory o g off len perms a _ =>
      mkDomain (dom_id d) (dom_capabilities d ++ [mkEntry (mkCap o g off len perms) (Some a)]) (dom_device_authorities d)
  | ResolvedDevice o g rights a _ =>
      mkDomain (dom_id d) (dom_capabilities d) (dom_device_authorities d ++ [mkDevEntry o g rights a])
  end.

(** The authority is a part of the one the domain [sd] holds under [sa]. *)
Definition attenuates (f : Fabric) (sd : DomainId) (sa : AuthorityId) (r : ResolvedCapability) : Prop :=
  match r with
  | ResolvedMemory o g off len perms _ _ => ∃ q, find_authority f sd sa = Some q ∧ o = cap_object q ∧
      g = cap_generation q ∧ within_parent q off len = true ∧ Perm.is_subset_of perms (cap_permissions q) = true
  | ResolvedDevice o g rights _ _ => ∃ e, find_device f sd sa = Some e ∧ o = dev_object e ∧
      g = dev_generation e ∧ DevRights.is_subset_of rights (dev_rights e) = true
  end.

(** What was prepared is what is given. *)
Definition conveys (t : PreparedTransfer) (r : ResolvedCapability) : Prop :=
  match t, r with
  | TransferMemory offset length perms, ResolvedMemory _ _ o l p _ _ => o = offset ∧ l = length ∧ p = perms
  | TransferDevice rights _ _ _, ResolvedDevice _ _ r _ _ => r = rights
  | _, _ => False
  end.

(** What R5 to R7 ask for of an authority: bytes of it with permissions it has, or
    rights of it *)
Definition asks (source : ResolvedCapability) (r5 r6 r7 : Z) (given : ResolvedCapability) : Prop :=
  match source, given with
  | ResolvedMemory _ _ offset length perms _ _, ResolvedMemory _ _ o l p _ _ =>
      o = r5 ∧ l = r6 ∧ Perm.from_bits_checked r7 = Some p ∧ Perm.is_subset_of p perms = true ∧
      l ≠ 0 ∧ offset ≤ o ∧ o + l ≤ offset + length
  | ResolvedDevice _ _ rights _ _, ResolvedDevice _ _ r _ _ =>
      r5 = 0 ∧ r6 = 0 ∧ DevRights.from_bits_checked r7 = Some r ∧ DevRights.is_subset_of r rights = true
  | _, _ => False
  end.

Lemma prepare_transfer_asks source r5 r6 r7 :
  match prepare_transfer source r5 r6 r7 with
  | Ok t => ∀ given, conveys t given → asks source r5 r6 r7 given
  | Err e => (e = 1 ∨ e = 4) ∧ ∀ given, ¬ asks source r5 r6 r7 given
  end.
Proof.
  unfold prepare_transfer.
  destruct source; repeat match goal with
  | |- context [match ?o with Some _ => _ | None => _ end] => destruct o eqn:?
  | |- context [if ?b then _ else _] => destruct b eqn:?
  end; bools; (split; [by auto|]) || idtac; intros [] Ha; cbn in Ha |- *; try done;
    destruct_and?; subst; split_and?; congruence || lia.
Qed.

(** The installation of a handle for the authority [r] *)
Definition install_of (t : CapabilityTable) (r : ResolvedCapability) : option (CapabilityHandle * CapabilityTable) :=
  match r with
  | ResolvedMemory o g off len perms a d => install_memory t o g off len perms a d
  | ResolvedDevice o g rights a d => install_device t o g rights a d
  end.

(** The fabric after [r] was given to [dd] *)
Record gives (f : Fabric) (sd : DomainId) (sa : AuthorityId) (dd : DomainId) (r : ResolvedCapability) (f' : Fabric) : Prop := {
  gi_attenuates : attenuates f sd sa r;
  gi_current : generation_of f (resolved_object r) = Some (resolved_object_generation r);
  gi_new : has_authority_id f dd (resolved_authority_id r) = false;
  gi_domain : ∃ d, fab_domains f !! dd = Some d ∧ f' = set_fab_domains (<[dd := granted d r]> (fab_domains f)) f;
}.

Lemma derive_from_gives f s sa d off len perms id f' c tid :
  derive_from_authority_id f s sa d off len perms id = Some (f', c) →
  gives f s sa d (ResolvedMemory (cap_object c) (cap_generation c) off len perms id tid) f' ∧
  (remove_by_authority_id f' d id).1 = f.
Proof.
  unfold derive_from_authority_id. destruct (find_authority f s sa) as [q|] eqn:Hq; [|done]. simpl.
  destruct (foreign_stack _ _ _); [done|]. destruct (fab_objects f !! _) as [o|] eqn:Ho; [|done]. simpl.
  destruct (negb (bool_decide _)); [done|]. destruct (validate f q) eqn:Hv; [|done]. simpl.
  destruct (Perm.is_subset_of _ _) eqn:Hs; [|done]. simpl. destruct (len =? 0); [done|].
  destruct (within_parent _ _ _) eqn:Hw; [|done]. simpl. destruct (has_authority_id f d id) eqn:Hid; [done|].
  destruct (push_capability _ _ _) as [f1|] eqn:Hp; [|done]. simpl. intros [= <- <-].
  split; [|by eapply push_capability_remove]. split; cbn.
  - by exists q.
  - unfold generation_of. unfold validate in Hv. destruct (private_heap_object _ _); [done|].
    rewrite Ho in Hv |- *. bools. cbn. congruence.
  - done.
  - unfold push_capability in Hp. destruct (fab_domains f !! d) as [dm|]; [|done]. exists dm. split; [done|]. by injection Hp as <-.
Qed.
Lemma derive_device_gives f s sa o g presented d rights id f' obj og derived tid :
  derive_device_from_authority_id f s sa o g presented d rights id = Some (f', (obj, og, derived)) →
  gives f s sa d (ResolvedDevice obj og derived id tid) f' ∧ (remove_by_authority_id f' d id).1 = f ∧ derived = rights.
Proof.
  unfold derive_device_from_authority_id. destruct (find_device f s sa) as [e|] eqn:He; [|done]. simpl.
  destruct (negb _) eqn:E1; [done|]. destruct (negb (dev_generation e =? g)) eqn:E2; [done|].
  destruct (negb (dev_rights e =? _)) eqn:E3; [done|]. destruct (fab_objects f !! o) as [ob|] eqn:Ho; [|done]. simpl.
  destruct (negb (bool_decide _)); [done|]. destruct (negb (bool_decide _)); [done|].
  destruct (negb (obj_generation ob =? g)) eqn:Eg; [done|]. destruct (DevRights.is_subset_of _ _) eqn:Hs; [|done]. simpl.
  destruct (has_authority_id f d id) eqn:Hid; [done|]. destruct (push_device _ _ _) as [f1|] eqn:Hp; [|done]. simpl.
  intros [= <- <- <- <-]. bools. split; [|split; [by eapply (push_device_remove _ _ (mkDevEntry _ _ _ id))|done]]. split; cbn.
  - exists e. split_and!; congruence.
  - unfold generation_of. rewrite Ho. cbn. congruence.
  - done.
  - unfold push_device in Hp. destruct (fab_domains f !! d) as [dm|]; [|done]. exists dm. split; [done|]. by injection Hp as <-.
Qed.

Section transfer.
Context `{Profile} `{Host}.

(** Installing the handle of a fresh authority, or taking the authority back *)
Lemma install_or_rollback_exact j dom id install k f :
  (remove_by_authority_id (k_fabric k) dom id).1 = f →
  wp (install_or_rollback j dom id install) (λ o k', match o with
    | Some h => ∃ p t t', k_processes k !! j = Some p ∧ p_cap_table p = Some t ∧ install t = Some (h, t') ∧
        k' = put j (set_p_cap_table (Some t') p) k
    | None => k' = set_k_fabric f k
    end) k.
Proof.
  intros Hf. unfold install_or_rollback. apply wp_bind, wp_get_process. intros p Hp.
  destruct (p_cap_table p) as [t|] eqn:Et; cbn.
  - destruct (install t) as [[h t']|] eqn:E; [|apply wp_bind, wp_modify, wp_ret; by rewrite Hf].
    apply wp_bind, wp_with_process. intros p' Hp'. simplify_eq. apply wp_ret. exists p, t, t'. split_and!; eauto.
  - apply wp_bind, wp_modify, wp_ret. by rewrite Hf.
Qed.

Lemma install_of_resolves t r h t' generation :
  generation (resolved_object r) = Some (resolved_object_generation r) →
  install_of t r = Some (h, t') → CapTable.resolve t' h generation = Some r.
Proof. intros Hg. destruct r; cbn in *; intros Hi; [by eapply install_memory_resolve|by eapply install_device_resolve]. Qed.

(** What a committed transfer has done to the kernel *)
Definition transferred (sd : DomainId) (sa : AuthorityId) (j : nat) (dd : DomainId) (t : PreparedTransfer)
    (aid : AuthorityId) (tid : DelegationId) (k : Kernel) (r : result Z CapabilityHandle) (k' : Kernel) : Prop :=
  match r with
  | Ok h => ∃ given f p ct ct', gives (k_fabric k) sd sa dd given f ∧ conveys t given ∧
      resolved_authority_id given = aid ∧ resolved_delegation_id given = Some tid ∧
      k_processes k !! j = Some p ∧ p_cap_table p = Some ct ∧ install_of ct given = Some (h, ct') ∧
      k' = put j (set_p_cap_table (Some ct') p) (set_k_fabric f k)
  | Err e => e = 8 ∧ k' = k
  end.

Lemma install_given sd sa j dd t tid given f k :
  let aid := resolved_authority_id given in
  gives (k_fabric k) sd sa dd given f → (remove_by_authority_id f dd aid).1 = k_fabric k →
  conveys t given → resolved_delegation_id given = Some tid →
  wp (h ← install_or_rollback j dd aid (λ ct, install_of ct given); some_or h 8)
    (transferred sd sa j dd t aid tid k) (set_k_fabric f k).
Proof.
  intros aid Hg Hr Hc Hd. apply wp_bind. eapply wp_mono; [by eapply (install_or_rollback_exact _ _ _ _ _ (k_fabric k))|].
  intros [h|] k' Hk'; apply wp_ret; cbn; [|split; [done|]; subst; by destruct k].
  destruct Hk' as (p&ct&ct'&Hp&Ht&E&->). exists given, f, p, ct, ct'. by split_and!.
Qed.

(** The commit of a transfer: the authority and its handle, or nothing *)
Lemma commit_transfer_exact sd sa j dd t aid tid k :
  wp (commit_transfer sd sa j dd t aid tid) (transferred sd sa j dd t aid tid k) k.
Proof.
  unfold commit_transfer. wp_steps; try done; subst; apply wp_modify.
  - match goal with E : derive_from_authority_id _ _ _ _ _ _ _ _ = _ |- _ =>
      destruct (derive_from_gives _ _ _ _ _ _ _ _ _ _ (Some tid) E) as [Hg Hr] end.
    by eapply (install_given _ _ _ _ _ _ _ _ _ Hg Hr).
  - match goal with E : derive_device_from_authority_id _ _ _ _ _ _ _ _ _ = _ |- _ =>
      destruct (derive_device_gives _ _ _ _ _ _ _ _ _ _ _ _ _ (Some tid) E) as (Hg&Hr&->) end.
    by eapply (install_given _ _ _ _ _ _ _ _ _ Hg Hr).
Qed.

(** ** SYS_SEND_CAP *)

(** The two identity counters have moved past the identities they gave out, and
    nothing else has. *)
Definition advanced (k : Kernel) : Kernel :=
  set_k_next_delegation_incarnation (k_next_delegation_incarnation k + 1)
    (set_k_fabric (set_fab_next_authority_id (fab_next_authority_id (k_fabric k) + 1) (k_fabric k)) k).

(** The arguments of the call: R1 and R2 are the key of the destination, R3 and R4 the
    handle, R5 to R7 what is asked for, R8 the value of the message. *)
Section arguments.
Context (idx : nat) (p : Process) (k : Kernel).
Abbreviation r n := (reg (p_core p) n).
Definition sender_key : ProcessKey := process_key idx (p_generation p).
Definition names_destination (key : ProcessKey) (d : Process) : Prop :=
  decode_key (r 1) (r 2) = Some key ∧ k_processes k !! slot_of key = Some d ∧
  p_generation d = pk_generation key ∧ p_state d = ProcRunning.
Definition names_source (source : option ResolvedCapability) : Prop :=
  ∃ handle, decode_handle (r 3) (r 4) = Some handle ∧ resolve_capability idx handle k = Done (k, source).

(** Why the call is refused before anything was allocated *)
Inductive refusal : Z → Prop :=
| refuse_key : decode_key (r 1) (r 2) = None → refusal 1
| refuse_handle : decode_handle (r 3) (r 4) = None → refusal 1
| refuse_destination key : decode_key (r 1) (r 2) = Some key →
    validate_message_destination (k_processes k) key = None → refusal 2
| refuse_source : names_source None → refusal 3
| refuse_request source e : names_source (Some source) → (∀ given, ¬ asks source (r 5) (r 6) (r 7) given) →
    e = 1 ∨ e = 4 → refusal e
| refuse_table key d : names_destination key d → allocatable d = 0 → refusal 5
| refuse_mailbox key d : names_destination key d → message_route (slot_of key) sender_key k = Done (k, RouteFull) → refusal 6
| refuse_identities : can_alloc_authority_id (k_fabric k) && can_alloc_delegation_id k = false → refusal 7.

(** The call has been granted: [given] is what the registers ask for of [source], as a
    part of the authority behind it; it is added to the domain of the destination
    under the next identity, and the message carries its handle. *)
Record conveyed (k' : Kernel) (key : ProcessKey) (d : Process) (source given : ResolvedCapability) : Prop := {
  cv_destination : names_destination key d;
  cv_source : names_source (Some source);
  cv_request : asks source (r 5) (r 6) (r 7) given;
  cv_identity : resolved_authority_id given = fab_next_authority_id (k_fabric k);
  cv_delegation : resolved_delegation_id given = Some (mkDelegation sender_key key (k_next_delegation_incarnation k));
  cv_effect : ∃ f ct ct' h route,
    gives (k_fabric (advanced k)) (core_domain (p_core p)) (resolved_authority_id source) (core_domain (p_core d)) given f ∧
    p_cap_table d = Some ct ∧ install_of ct given = Some (h, ct') ∧
    CapTable.resolve ct' h (generation_of (k_fabric k)) = Some given ∧
    message_route (slot_of key) sender_key k = Done (k, route) ∧
    deliver_message (slot_of key) (mkMessage sender_key (r 8) (Some h)) route
      (put (slot_of key) (set_p_cap_table (Some ct') d) (set_k_fabric f (advanced k))) = Done (k', tt);
}.

(** What the call has done.  Refused at a gate it has done nothing; refused in the
    commit, it has used up the two identities. *)
Definition send_cap_effect (x : result Z unit) (k' : Kernel) : Prop :=
  match x with
  | Err e => (refusal e ∧ k' = k) ∨ (e = 8 ∧ k' = advanced k)
  | Ok _ => ∃ key d source given, conveyed k' key d source given
  end.
End arguments.

Lemma destination_named procs key j :
  validate_message_destination procs key = Some j →
  j = slot_of key ∧ ∃ d, procs !! j = Some d ∧ p_generation d = pk_generation key ∧ p_state d = ProcRunning.
Proof.
  unfold validate_message_destination, validate_process_key. destruct (_ <=? _); [done|].
  destruct (procs !! slot_of key) as [d|] eqn:Hd; [|done]. cbn. destruct (negb _) eqn:Eg; [done|].
  destruct (_ || _); [done|]. cbn. rewrite Hd. cbn. case_bool_decide; [|done]. intros [= <-]. bools. eauto.
Qed.

(** The steps after the gates *)
Lemma send_cap_commits idx p key d source prepared route k :
  k_processes k !! idx = Some p → names_destination p k key d → names_source idx p k (Some source) →
  prepare_transfer source (reg (p_core p) 5) (reg (p_core p) 6) (reg (p_core p) 7) = Ok prepared →
  message_route (slot_of key) (sender_key idx p) k = Done (k, route) →
  wp (handle ←% commit_transfer (core_domain (p_core p)) (resolved_authority_id source) (slot_of key)
                  (core_domain (p_core d)) prepared (fab_next_authority_id (k_fabric k))
                  (mkDelegation (sender_key idx p) key (k_next_delegation_incarnation k));
      _ ← deliver_message (slot_of key) (mkMessage (sender_key idx p) (reg (p_core p) 8) (Some handle)) route;
      mret (Ok tt)) (send_cap_effect idx p k) (advanced k).
Proof.
  intros Hp Hd Hs Hprep Hroute. pose proof (prepare_transfer_asks source (reg (p_core p) 5) (reg (p_core p) 6) (reg (p_core p) 7)) as Ha.
  rewrite Hprep in Ha. apply wp_result. eapply wp_mono; [apply commit_transfer_exact|].
  intros [h|e] k1; [|intros [-> ->]; by right]. intros (given&f&d'&ct&ct'&Hg&Hc&Haid&Htid&Hd'&Hct&Hi&->).
  assert (d' = d) as -> by (destruct Hd as (_&?&_); cbn in Hd'; congruence).
  apply wp_bind, wp_run. intros k2 [] Hdel. apply wp_ret. exists key, d, source, given. split; try done; [by apply Ha|].
  exists f, ct, ct', h, route. split_and!; try done. eapply install_of_resolves; [apply Hg|done].
Qed.

(** The two identities, when the counters have one left *)
Lemma wp_identities {A} client driver (g : AuthorityId → DelegationId → kernelM (result Z A)) Q k :
  can_alloc_authority_id (k_fabric k) && can_alloc_delegation_id k = true →
  wp (g (fab_next_authority_id (k_fabric k)) (mkDelegation client driver (k_next_delegation_incarnation k))) Q (advanced k) →
  wp allocate_authority (λ x k', match x with
    | Ok aid => wp (tid ← alloc_delegation_id client driver; tid ←% some_or tid 8; g aid tid) Q k'
    | Err e => Q (Err e) k'
    end) k.
Proof.
  unfold can_alloc_authority_id, can_alloc_delegation_id, checked_add. intros Hc Hg. unfold allocate_authority.
  apply wp_bind, wp_gets. unfold alloc_authority_id, checked_add.
  destruct (fab_next_authority_id _ + 1 <? U64); [|done]. cbn [mbind option_bind]. apply wp_bind, wp_modify, wp_ret.
  apply wp_bind. unfold alloc_delegation_id, checked_add. apply wp_bind, wp_gets. cbn.
  destruct (_ <? U64); [|done]. apply wp_bind, wp_modify, wp_ret. apply wp_result, wp_ret. exact Hg.
Qed.

Lemma arg_value idx n k p v : k_processes k !! idx = Some p → arg idx n k = Done (k, v) → v = reg (p_core p) n.
Proof.
  intros Hp. apply (wp_Done (arg idx n) (λ v _, v = reg (p_core p) n)). unfold arg. wp_steps. congruence.
Qed.
Lemma key_of_value idx k p v : k_processes k !! idx = Some p → key_of idx k = Done (k, v) → v = sender_key idx p.
Proof.
  intros Hp. apply (wp_Done (key_of idx) (λ v _, v = sender_key idx p)). unfold key_of. wp_steps. by simplify_eq.
Qed.
Lemma some_or_Ok {A} (o : option A) e k a : some_or o e k = Done (k, Ok a) → o = Some a.
Proof. unfold some_or. by destruct o; intros [= ->]. Qed.
Lemma some_or_Err {A} (o : option A) e k e' : some_or o e k = Done (k, Err e') → o = None ∧ e' = e.
Proof. unfold some_or. by destruct o; intros [= ->]. Qed.

Lemma send_cap_spec idx p k : k_processes k !! idx = Some p → wp (send_cap idx) (send_cap_effect idx p k) k.
Proof.
  intros Hp. unfold send_cap. wp_steps.
  all: repeat match goal with
  | E : arg _ _ _ = _ |- _ => apply (arg_value _ _ _ _ _ Hp) in E; subst
  | E : key_of _ _ = _ |- _ => apply (key_of_value _ _ _ _ Hp) in E; subst
  | E : some_or _ _ _ = Done (_, Ok _) |- _ => apply some_or_Ok in E; subst
  | E : some_or _ _ _ = Done (_, Err _) |- _ => apply some_or_Err in E as [? ->]; subst
  | E : validate_message_destination _ _ = Some _ |- _ => apply destination_named in E as (->&?&?&?&?)
  end; simplify_eq.
  - apply wp_identities; [done|]. apply wp_bind, wp_get_process. intros q Hq. cbn in Hq. simplify_eq.
    by eapply send_cap_commits; try eexists.
  - left. split; [by apply refuse_identities|done].
  - left. split; [|done]. bools. subst. by eapply refuse_mailbox.
  - left. split; [|done]. bools. by eapply refuse_table.
  - left. split; [|done].
    match goal with E : prepare_transfer ?c ?x ?y ?z = Err _ |- _ => pose proof (prepare_transfer_asks c x y z) as Ha; rewrite E in Ha end.
    destruct Ha. eapply refuse_request; eauto. by eexists.
  - left. split; [|done]. apply refuse_source. by eexists.
  - left. split; [|done]. by eapply refuse_destination.
  - left. split; [|done]. by apply refuse_handle.
  - left. split; [|done]. by apply refuse_key.
Qed.

(** C9: A capability transfer is all or nothing, and does what its registers say.  A
    call refused at a gate leaves the kernel exactly as it was, and its code is
    that of a gate that failed; one refused in the commit, with code 8, has moved the two identity
    counters by one and changed nothing else.  When it succeeds, R1 and R2 are the
    key of a running destination, and R3 and R4 a handle of the sender that
    resolves.  The domain of the destination has gained exactly one authority: what
    R5 to R7 ask for within the handle, a part of the live authority behind it,
    current in its generation, under the next identity of the counter, which moves
    past it and which that domain did not hold.  The message, from the sender, with
    R8 and along the route its state calls for, carries a handle that resolves to
    that authority in the table of the destination, where it was installed. *)
Theorem send_cap_transfers idx k x k' : send_cap idx k = Done (k', x) →
  ∃ p, k_processes k !! idx = Some p ∧ send_cap_effect idx p k x k'.
Proof.
  intros E. destruct (k_processes k !! idx) as [p|] eqn:Hp.
  - exists p. split; [done|]. exact (wp_Done _ _ _ _ _ (send_cap_spec idx p k Hp) E).
  - exfalso. refine (wp_Done (send_cap idx) (λ _ _, False) _ _ _ _ E).
    apply wp_bind, wp_bind, wp_get_process. congruence.
Qed.
End transfer.

#[local] Existing Instance checked_profile.
#[local] Existing Instance demo_host.
Lemma send_cap_transfers_witness : ∃ k' p key d source given, send_cap 0 demo_sending = Done (k', Ok tt) ∧
  conveyed 0 p demo_sending k' key d source given.
Proof.
  assert (send_cap 0 demo_sending = Done (kernel_of (send_cap 0 demo_sending), Ok tt)) as E by (vm_compute; reflexivity).
  destruct (send_cap_transfers 0 demo_sending _ _ E) as (p&_&key&d&source&given&Hc).
  exists (kernel_of (send_cap 0 demo_sending)), p, key, d, source, given. split; [exact E|exact Hc].
Defined.
