(* ===== verification/KernelSafety.v ===== *)
(** * The kernel's guarantees

    The properties of every reachable kernel: the shape of its process table, what
    its processes execute, how they end, block and wake, and when the scheduler
    stops. *)

From S2P Require Import Prelude State CapTable Extents ExtentsFacts Registry PointerFrames HeapLedger.
From S2P Require Import RegistrySafety Fabric FabricTx FabricAuth FabricInv FabricSafety FabricCells FabricHeap.
From S2P Require Import Block Nic Desc Isa Core CoreFault CoreInv CoreDemo FabricMoves PointerSafety CoreSafety CoreEvents.
From S2P Require Import Kernel Syscalls Scheduler KernelLogic KernelDevices KernelInv KernelSteps KernelCalls.
From S2P Require Import KernelImages KernelDispatch KernelSched KernelReach KernelTree KernelDrain KernelDemo.

Section guarantees.
Context `{Profile} `{Host}.

(** ** The process table *)
Record table_wf (k : Kernel) : Prop := {
  tw_mailboxes : length (k_mailboxes k) = length (k_processes k);
  tw_tables : length (k_lifecycle_tables k) = length (k_processes k);
  tw_bounded i b : k_mailboxes k !! i = Some b → (length b ≤ MAX_MAILBOX_SIZE)%nat;
  tw_async i p : k_processes k !! i = Some p → (length (p_async_requests p) ≤ MAX_ASYNC_REQUESTS)%nat;
  tw_zombie i p : k_processes k !! i = Some p → p_state p = ProcZombie → is_Some (p_result p);
  tw_free i p : k_processes k !! i = Some p → live p = false →
    p_parent p = None ∧ p_resources p = None ∧ blocked p = false;
  tw_parent i p pk : k_processes k !! i = Some p → live p = true → p_parent p = Some pk →
    ∃ j q, k_processes k !! j = Some q ∧ pk = process_key j (p_generation q) ∧ p_state q = ProcRunning ∧ p_pid q < p_pid p;
  tw_waits i p ws : k_processes k !! i = Some p → p_waiting_on p = Some ws →
    ∃ c q, k_processes k !! c = Some q ∧ ws_child ws = process_key c (p_generation q) ∧ live q = true ∧
      p_parent q = Some (process_key i (p_generation p));
}.

(** C3: The process table of every reachable kernel is well formed: every process has
    its mailbox and lifecycle table, mailboxes and request ledgers stay within
    their bounds, a zombie has its result, a free slot holds no resources, no
    parent and no wait; the parent of a live process is running and older, so
    that the processes form a forest; and a process only waits for its own live
    child. *)
Theorem process_table_wf k : kernel_reach k → table_wf k.
Proof.
  intros (f&M&_&Hk)%kernel_reach_inv. pose proof (ki_proc _ _ _ _ _ Hk) as Hwf. split.
  - apply Hk.
  - apply Hk.
  - intros i b Hb. exact (Forall_lookup_1 _ _ _ _ (ki_bounded _ _ _ _ _ Hk) Hb).
  - intros i p Hp. apply (Hwf i p Hp).
  - intros i p Hp. apply (Hwf i p Hp).
  - intros i p Hp Hl. pose proof (Hwf i p Hp) as Hw. destruct (pw_erased _ Hw Hl). split_and!; [done..|by apply dead_unblocked].
  - intros i p pk Hp Hl Hpa. destruct (ki_parent _ _ _ _ _ Hk i p pk Hp Hl Hpa) as (j&q&?&?&?&?&[?|?]); [|set_solver].
    exists j, q. split_and!; done.
  - intros i p ws Hp Hw. destruct (ki_wait _ _ _ _ _ Hk i p ws Hp Hw) as [?|?]; [set_solver|done].
Qed.

(** C2: Every process executes sealed code.  In every reachable kernel the instruction
    a process is about to execute lies inside a sealed object, at the place its
    address map names, and no request of any agent or domain that would change
    that object is authorized. *)
Theorem process_code_sealed k i p insn :
  kernel_reach k → k_processes k !! i = Some p → current_insn (p_core p) (k_fabric k) = Some insn →
  ∃ id off base o, resolve (core_address_map (p_core p)) (core_pc (p_core p)) = Done (Some (id, off)) ∧
    fab_objects (k_fabric k) !! id = Some o ∧ obj_state o = Sealed ∧ fab_placement (k_fabric k) !! id = Some base ∧
    0 ≤ off ∧ off + 4 ≤ obj_size o ∧ insn = decode (le_value (slice (base + off) 4 (fab_memory (k_fabric k)))) ∧
    ∀ r g, req_object r = id → is_mutating (req_kind r) = true → authorize (k_fabric k) r ≠ AuthAuthorized g.
Proof.
  intros (f&M&Hf&Hk)%kernel_reach_inv Hp Hi. destruct (kinv_fab_reach _ _ _ _ _ Hf Hk) as [M' Hf'].
  destruct (executed_code_sealed _ _ _ _ Hf' Hi) as (id&off&base&o&?&Ho&Hs&?&?&?&?).
  exists id, off, base, o. split_and!; try done. intros r g Hr Hm Ha.
  destruct (authorized_allowed _ _ _ _ (reach_inv _ _ Hf') Ha) as (o'&perm&Ho'&Hg&Hperm). rewrite Hr, Ho in Ho'. simplify_eq.
  rewrite Hs in Hg. cbn in Hg. bools. destruct (req_kind r); cbn in *; congruence.
Qed.

(** ** The end of a process *)

(** C10: Exit always returns and takes down exactly the subtree.  In every reachable
    kernel a running process that is not blocked can be finished: the call returns
    without a panic, whatever heap, frames and children the process has; the
    process is then a zombie with the given result, every descendant is gone, and
    every other process is exactly as it was. *)
Theorem exit_takes_descendants k i p r :
  kernel_reach k → k_processes k !! i = Some p → p_state p = ProcRunning → blocked p = false →
  ∃ k', finish_process i r k = Done (k', tt) ∧ exits i p r k k'.
Proof. intros (f&M&Hf&Hk)%kernel_reach_inv Hp Hr Hb. by eapply finish_total. Qed.

Lemma ended_invalid k key : ended k key → validate_message_destination (k_processes k) key = None.
Proof.
  intros (p&Hp&Hg). unfold validate_message_destination, validate_process_key. destruct (_ <=? _); [done|].
  rewrite Hp. cbn. destruct (p_generation p =? pk_generation key) eqn:Eg; [|done]. bools. cbn.
  destruct Hg as [|[_ [Hs|Hs]]]; [lia|rewrite Hs..]; [|done]. rewrite !bool_decide_false by done. cbn.
  by rewrite Hp; cbn; rewrite Hs.
Qed.

(** C11: A process that has ended stays ended.  Once the incarnation named by a key is a
    zombie, or its slot has been freed or retired, no sequence of kernel operations
    brings it back: slots are reused only under a later generation, so the key is
    never again accepted as the destination of a message or a capability. *)
Theorem ended_forever k k' key :
  kernel_reach k → ended k key → rtc kernel_step k k' →
  ended k' key ∧ validate_message_destination (k_processes k') key = None.
Proof.
  intros (f&M&_&Hk)%kernel_reach_inv He Hs.
  assert (kinv f M (λ x, x = key) [] k') as Hk'.
  { assert (kinv f M (λ x, x = key) [] k) as Hk0 by (eapply kinv_ended; [exact Hk|]; by intros ? ->).
    clear Hk He. induction Hs as [|k k1 k2 Hstep _ IH]; [done|]. by apply IH, (kernel_step_inv _ _ _ k). }
  pose proof (ki_ended _ _ _ _ _ Hk' key eq_refl). split; [done|by apply ended_invalid].
Qed.

(** ** Blocking and waking *)


(** C13: The scheduler stops only when nothing can happen.  When a round breaks the loop,
    no process is schedulable, no device has work of its own, no completion is
    waiting to be delivered, no receiver is waiting for a dead peer without
    requests in flight, no device event is pending for a waiter, and every parent
    in WAIT waits for a child of its own that is still running. *)
Theorem scheduler_break_quiescent k quantum k' :
  kernel_reach k → round quantum k = Done (k', false) → quiescent k'.
Proof.
  intros (f&M&_&Hk)%kernel_reach_inv Hr. destruct (wp_Done _ _ _ _ _ (round_spec f M _ quantum k Hk) Hr) as [_ Hq]. by apply Hq.
Qed.

(** ** Completions *)

(** C14: A completion reaches exactly the process that submitted the request.  When the
    slot of the requester holds another incarnation, or a process that is not
    running, the completion is dropped and nothing changes.  Otherwise only that
    process changes: if it waits for this request it is woken, and else exactly
    the ledger entry of this device and request is marked with the status. *)
Theorem completion_reaches_submitter k b c k' :
  let slot := Z.to_nat (rk_slot (comp_requester c)) in
  kernel_reach k → route_completion b c k = Done (k', tt) →
  (k' = k ∧ ∀ p, k_processes k !! slot = Some p → p_generation p = rk_generation (comp_requester c) → p_state p ≠ ProcRunning) ∨
  ∃ p q, k_processes k !! slot = Some p ∧ p_generation p = rk_generation (comp_requester c) ∧ p_state p = ProcRunning ∧
    k' = put slot q k ∧ completed (mkRequestKey b (comp_handle c)) c p q.
Proof.
  intros slot (f&M&_&Hk)%kernel_reach_inv. unfold route_completion. fold slot. unfold mbind, kernelM_bind, gets.
  destruct (k_processes k !! slot) as [p|] eqn:Hp; [|intros [= <-]; by left].
  destruct (p_generation p =? _) eqn:Eg; cbn [negb]; bools; [|intros [= <-]; left; split; [done|]; by intros ? [= ->]].
  destruct (bool_decide (p_state p = ProcRunning)) eqn:Er; cbn [negb]; bools; [|intros [= <-]; left; split; [done|]; by intros ? [= ->]].
  intros Hc. right. destruct (wp_Done _ _ _ _ _ (complete_request_phase f M _ slot _ c k p Hk Hp) Hc) as (_&_&q&->&?).
  by exists p, q.
Qed.

Lemma drain_fuel_eq f M D i : ∀ n m k d, kinv f M D [] k → k_devices k !! i = Some d →
  (dev_completion_count (ds_controller d) < n)%nat → (dev_completion_count (ds_controller d) < m)%nat →
  drain_device n i k = drain_device m i k.
Proof.
  induction n as [|n IH]; intros m k d Hk Hd Hn Hm; [lia|]. destruct m as [|m]; [lia|]. cbn [drain_device].
  unfold mbind, kernelM_bind, device_at, asks. rewrite (vec_get_lookup _ _ _ Hd).
  destruct (0 <? _)%nat eqn:Epos; [|done]. apply Nat.ltb_lt in Epos.
  pose proof (Forall_lookup_1 _ _ _ _ (ki_devices _ _ _ _ _ Hk) Hd) as Hwf. cbn in Hwf.
  unfold lift. destruct (dev_consume_completion (ds_controller d)) as [[d' o]|] eqn:Ec; [|done].
  destruct (dev_consume_wf _ _ _ Hwf Ec Epos) as (Hwf'&[c ->]&Hcount). cbn [fst snd].
  unfold set_controller. rewrite Hd. set (k1 := set_k_devices _ k).
  assert (kinv f M D [] k1) as Hk1 by (apply kinv_devices; [|done]; apply Forall_insert; [apply Hk|done]).
  destruct (route_completion (ds_binding d) c k1) as [[k2 []]|] eqn:Er; [|done].
  destruct (wp_Done _ _ _ _ _ (route_completion_phase f M D _ _ k1 Hk1) Er) as [Hk2 _].
  pose proof (wp_Done _ _ _ _ _ (route_completion_devices f M D _ _ k1 Hk1) Er) as Hdev. cbv beta in Hdev.
  eapply (IH _ _ (mkDeviceSlot (ds_binding d) d')); [done| |cbn; lia|cbn; lia].
  rewrite Hdev. unfold k1. cbn. apply list_lookup_insert_eq. by eapply lookup_lt_Some.
Qed.

(** C15: Draining a controller terminates.  Take a reachable kernel and a controller of
    it whose slots each have as many generations left as the controller has
    completions waiting.  [drain_controller] then returns; the loop with any bound
    larger than the completion count returns the same kernel, so the bound of the
    model is never what stops it; no completion of the controller is left, and no
    other controller was touched. *)
Theorem drain_terminates k i d :
  kernel_reach k → k_devices k !! i = Some d →
  generations_left (dev_completion_count (ds_controller d)) (ds_controller d) →
  ∃ k', drain_controller i k = Done (k', tt) ∧ drained_at i k k' ∧
    ∀ n, (dev_completion_count (ds_controller d) < n)%nat → drain_device n i k = Done (k', tt).
Proof.
  intros (f&M&_&Hk)%kernel_reach_inv Hd Hg.
  destruct (drain_returns f M _ i (S (dev_completion_count (ds_controller d))) k d Hk Hd Hg) as (k'&[]&Hr); [lia|].
  exists k'. split; [|split].
  - unfold drain_controller, mbind, kernelM_bind, device_at, asks. by rewrite (vec_get_lookup _ _ _ Hd).
  - by destruct (wp_Done _ _ _ _ _ (drain_device_spec f M _ _ i k Hk) Hr) as (_&_&?).
  - intros n Hn. rewrite <- Hr. eapply drain_fuel_eq; [done|done|done|lia].
Qed.

(** ** The default layout *)

Lemma sub_u64_exact a b : is_u64 (a - b) → sub_u64 a b = Done (a - b).
Proof. intros Hr. apply checked_or_wrap_exact. symmetry. by apply wrap64_id. Qed.

Lemma trap_enters c f c' f' : executes c f SemTrap → step c f = Done (c', f', Continue) →
  core_pc c' = core_trap_vector c ∧ core_address_map c' = core_address_map c ∧ core_privilege c' = Supervisor.
Proof.
  intros (i&Hi&Hsem) Hs. destruct (step_run _ _ _ _ Hs) as (i'&g&c0&pc&Hi'&_&_&Hx&->). rewrite Hi in Hi'. simplify_eq.
  unfold execute, step_trap in Hx. rewrite Hsem, andb_false_r in Hx.
  destruct (add_u64 (core_pc c) 4) as [n|]; [|done]. cbn [mbind outcome_bind] in Hx. simplify_eq.
  unfold enter_event. by destruct (core_protected_context_enabled c).
Qed.

(** The first entry of an address map, when it lies within the address space *)
Lemma resolve_cons e m addr : 0 ≤ am_virt_base e → 0 ≤ am_obj_offset e →
  is_u64 (am_virt_base e + am_size e) → is_u64 (am_obj_offset e + am_size e) →
  resolve (e :: m) addr =
    if (am_virt_base e <=? addr) && (addr <? am_virt_base e + am_size e)
    then Done (Some (am_object e, am_obj_offset e + (addr - am_virt_base e))) else resolve m addr.
Proof.
  intros Hb Ho He Hf. cbn. destruct (_ <=? _) eqn:E; [|done]. cbn. rewrite (add_u64_exact _ _ He). cbn.
  destruct (addr <? _) eqn:E'; [|done]. bools. unfold is_u64 in *. by rewrite add_u64_exact by (unfold is_u64; lia).
Qed.

(** The image covers the trap vector of the default layout: by its code, or by the
    literals that follow the code. *)
Definition shadows (desc : ProcessImageDesc) : bool :=
  (98304 <? pid_code_size desc)
  || negb (pid_lit_start desc =? 0) && (pid_lit_start desc <=? 98304) && (98304 <? pid_image_size desc).

(** The literals of an image lie within it, and the image within the address space. *)
Record desc_wf (desc : ProcessImageDesc) : Prop := {
  dw_offset : 0 ≤ pid_code_offset desc;
  dw_code : is_u64 (pid_code_size desc) ∧ is_u64 (pid_code_offset desc + pid_code_size desc);
  dw_literals : 0 ≤ pid_lit_start desc ≤ pid_image_size desc;
  dw_image : is_u64 (pid_code_offset desc + pid_image_size desc);
}.

Lemma default_layout_vector context agent dom desc stack trap c :
  image_core context agent dom desc EXEC_DEFAULT_LAYOUT [] stack trap = Done c → desc_wf desc →
  core_trap_vector c = 98304 ∧ resolve (core_address_map c) 98304 =
    Done (Some (if shadows desc then (pid_code_obj desc, pid_code_offset desc + 98304) else (trap, 0))).
Proof.
  unfold image_core, shadows. intros Hc [Ho [Hs Hos] Hl Hi]. cbn -[add_u64 sub_u64 write_register] in Hc.
  destruct (add_u64 0 (pid_entry desc)) as [pc|]; [|done]. cbn -[add_u64 sub_u64 write_register] in Hc.
  destruct (pid_lit_start desc =? 0) eqn:El; cbn -[add_u64 sub_u64 write_register] in Hc; bools.
  2: rewrite sub_u64_exact, !add_u64_exact in Hc by (unfold is_u64, U64 in *; lia); cbn -[add_u64 write_register] in Hc.
  all: try (destruct (add_u64 81920 _) as [sp|]; [|done]); cbn -[add_u64 write_register] in Hc.
  all: destruct (write_register _ _ _) as [c1|]; [|done]; injection Hc as <-; split; [done|]; cbn -[add_u64 resolve].
  all: rewrite !resolve_cons, ?Z.add_0_l by (cbn; unfold is_u64, U64 in *; lia); cbn.
  all: rewrite (add_u64_exact 98304) by done; cbn -[add_u64]; rewrite add_u64_exact by done; change (98304 <? 81920 + 16384) with false.
  - rewrite orb_false_r. by destruct (_ <? _).
  - replace (pid_lit_start desc + (pid_image_size desc - pid_lit_start desc)) with (pid_image_size desc) by lia.
    replace (pid_code_offset desc + pid_lit_start desc + _) with (pid_code_offset desc + 98304) by lia.
    by destruct (98304 <? pid_code_size desc), (_ && _).
Qed.

(** C16: Where a trap of an image started with the default layout goes.  The vector is
    0x18000, and the image is mapped before the trap page with no check on its
    size.  So, for a descriptor within the address space, the vector resolves to the
    start of the trap page exactly when neither the code nor the literals cover
    0x18000, and to that offset of the guest's own image otherwise; and whenever a
    core with this address map and vector executes a TRAP, it is then in Supervisor
    mode at the vector, with its next fetch at that place. *)
Theorem exec_trap_shadowed context agent dom desc stack trap c :
  image_core context agent dom desc EXEC_DEFAULT_LAYOUT [] stack trap = Done c → desc_wf desc →
  let target := if shadows desc then (pid_code_obj desc, pid_code_offset desc + 98304) else (trap, 0) in
  core_trap_vector c = 98304 ∧ resolve (core_address_map c) 98304 = Done (Some target) ∧
  ∀ c1 f c2 f', core_address_map c1 = core_address_map c → core_trap_vector c1 = core_trap_vector c →
    executes c1 f SemTrap → step c1 f = Done (c2, f', Continue) →
    core_privilege c2 = Supervisor ∧ core_pc c2 = 98304 ∧ resolve (core_address_map c2) (core_pc c2) = Done (Some target).
Proof.
  intros Hc Hd target. destruct (default_layout_vector _ _ _ _ _ _ _ Hc Hd) as [Hv Hr]. split_and!; [done..|].
  intros c1 f c2 f' Hm Hv1 He Hs. destruct (trap_enters _ _ _ _ He Hs) as (Hpc&Hmap&Hp).
  split_and!; [done|congruence|]. by rewrite Hpc, Hmap, Hm, Hv1, Hv.
Qed.
End guarantees.

(** ** Concrete kernels *)
#[local] Existing Instance checked_profile.
#[local] Existing Instance demo_host.

Lemma process_table_wf_witness : table_wf demo_blocked.
Proof. apply process_table_wf, demo_blocked_reach. Defined.

Lemma process_code_sealed_witness : ∃ p insn, k_processes demo_blocked !! 1%nat = Some p ∧
  current_insn (p_core p) (k_fabric demo_blocked) = Some insn ∧
  ∃ id o, fab_objects (k_fabric demo_blocked) !! id = Some o ∧ obj_state o = Sealed.
Proof.
  eexists _, _. split; [vm_compute; reflexivity|]. split; [vm_compute; reflexivity|].
  edestruct (process_code_sealed demo_blocked 1%nat) as (id&off&base&o&_&Ho&Hs&_);
    [exact demo_blocked_reach|vm_compute; reflexivity|vm_compute; reflexivity|].
  exists id, o. split; [exact Ho|exact Hs].
Defined.

Lemma exit_takes_descendants_witness : ∃ p k', k_processes demo_blocked !! 1%nat = Some p ∧
  finish_process 1 (Exited 5) demo_blocked = Done (k', tt) ∧ exits 1 p (Exited 5) demo_blocked k'.
Proof.
  edestruct (exit_takes_descendants demo_blocked 1%nat) as (k'&Hf&He);
    [exact demo_blocked_reach|vm_compute; reflexivity|vm_compute; reflexivity|vm_compute; reflexivity|].
  eexists _, k'. split; [vm_compute; reflexivity|]. split; [exact Hf|exact He].
Defined.

Lemma ended_forever_witness : validate_message_destination (k_processes demo_ended) (mkProcessKey 1 0) = None.
Proof.
  apply (ended_forever demo_ended demo_ended (mkProcessKey 1 0)); [exact demo_ended_reach| |apply rtc_refl].
  eexists. split; [vm_compute; reflexivity|]. right. split; [reflexivity|]. left. vm_compute. reflexivity.
Defined.


Lemma scheduler_break_quiescent_witness : ∃ k', round 4 demo_ended = Done (k', false) ∧ quiescent k'.
Proof.
  eexists. split; [vm_compute; reflexivity|].
  apply (scheduler_break_quiescent demo_ended 4 _ demo_ended_reach). vm_compute. reflexivity.
Defined.

Definition demo_completion : DeviceCompletion :=
  CompBlock (mkBlockCompletion (mkHandle 0 0) (mkRequester 1 0) 0 Success None).
Definition demo_routed : Kernel := kernel_of (route_completion (mkBinding 2 0) demo_completion demo_blocked).
Lemma completion_reaches_submitter_witness : ∃ p q, k_processes demo_blocked !! 1%nat = Some p ∧
  demo_routed = put 1 q demo_blocked ∧ completed (mkRequestKey (mkBinding 2 0) (mkHandle 0 0)) demo_completion p q.
Proof.
  edestruct (completion_reaches_submitter demo_blocked (mkBinding 2 0) demo_completion demo_routed) as [[_ Hn]|(p&q&Hp&_&_&Hk&Hc)];
    [exact demo_blocked_reach|vm_compute; reflexivity| |].
  - exfalso. eapply Hn; vm_compute; reflexivity.
  - exists p, q. split; [exact Hp|]. split; [exact Hk|exact Hc].
Defined.

(** The completion of the reader's request waits. *)
Lemma demo_completed_device : ∃ d, k_devices demo_completed !! 0%nat = Some d ∧
  dev_completion_count (ds_controller d) = 1%nat ∧ generations_left 1 (ds_controller d).
Proof.
  eexists. split; [vm_compute; reflexivity|]. split; [vm_compute; reflexivity|].
  unfold generations_left. cbn [dev_slot_generations bc_slot_generations ds_controller]. unfold u64_max, U64.
  repeat (apply Forall_cons; split; [lia|]). apply Forall_nil. exact I.
Defined.
Lemma drain_terminates_witness : ∃ d k', k_devices demo_completed !! 0%nat = Some d ∧
  dev_completion_count (ds_controller d) = 1%nat ∧
  drain_controller 0 demo_completed = Done (k', tt) ∧ drained_at 0 demo_completed k'.
Proof.
  destruct demo_completed_device as (d&Hd&Hc&Hg). exists d.
  destruct (drain_terminates demo_completed 0 d demo_completed_reach Hd) as (k'&Hr&Hk&_); [by rewrite Hc|].
  exists k'. split; [exact Hd|]. split; [exact Hc|]. split; [exact Hr|exact Hk].
Defined.

(** The program of [CoreDemo] with literals up to 98400, at its TRAP *)
Definition shadowing_desc : ProcessImageDesc := mkImageDesc 0 0 32 32 98400 4.
Definition shadowing_core : Anka64Core :=
  match image_core 1 0 0 shadowing_desc EXEC_DEFAULT_LAYOUT [] 1 7 with Done c => c | Panic => demo_core end.
Lemma exec_trap_shadowed_witness : ∃ c2 f', step shadowing_core machine = Done (c2, f', Continue) ∧
  core_privilege c2 = Supervisor ∧ resolve (core_address_map c2) (core_pc c2) = Done (Some (0, 98304)).
Proof.
  destruct (exec_trap_shadowed 1 0 0 shadowing_desc 1 7 shadowing_core) as (_&_&Ht);
    [vm_compute; reflexivity|split; cbn; unfold is_u64, U64; lia|].
  assert (step shadowing_core machine = Done (core_of (step shadowing_core machine), fabric_after (step shadowing_core machine), Continue))
    as Hs by (vm_compute; reflexivity).
  edestruct (Ht shadowing_core machine) as (Hp&_&Hr); [reflexivity|reflexivity|eexists; split; vm_compute; reflexivity|exact Hs|].
  eexists _, _. split; [exact Hs|]. split; [exact Hp|exact Hr].
Defined.
