(* ===== verification/Bv68.v ===== *)
(** * Words of the MC68000: [src/cpu/types.rs] and [src/cpu/bv.rs]

    Operand sizes, the condition codes and the status register, and the arithmetic on
    operands of 8, 16 and 32 bits.  A [u32] is a [Z] in [[0, 2^32)], as everywhere. *)

From S2P Require Import Prelude.

(** ** Sizes *)
Inductive Size := Byte | Word | Long.
#[export] Instance Size_eq_dec : EqDecision Size.
Proof. solve_decision. Defined.

Definition size_mask (s : Size) : Z := match s with Byte => 0xFF | Word => 0xFFFF | Long => 0xFFFFFFFF end.
Definition size_msb (s : Size) : Z := match s with Byte => 0x80 | Word => 0x8000 | Long => 0x80000000 end.
Definition size_bits (s : Size) : Z := match s with Byte => 8 | Word => 16 | Long => 32 end.
Definition size_bytes (s : Size) : Z := match s with Byte => 1 | Word => 2 | Long => 4 end.

(** [v & m != 0] *)
Definition any_bit (v m : Z) : bool := negb (Z.land v m =? 0).
(** [!x] on [u32], and the signed casts [x as i8], [x as i16], [x as i32] *)
Definition not32 (x : Z) : Z := Z.lxor x u32_max.
Definition as_i8 (x : Z) : Z := let x := x mod 0x100 in if x <? 0x80 then x else x - 0x100.
Definition as_i16 (x : Z) : Z := let x := x mod 0x10000 in if x <? 0x8000 then x else x - 0x10000.
Definition as_i32 (x : Z) : Z := let x := x mod U32 in if x <? 0x80000000 then x else x - U32.
Definition wrap16 (x : Z) : Z := x mod 0x10000.
Definition wrap8 (x : Z) : Z := x mod 0x100.
Definition wrapping_add32 (a b : Z) : Z := wrap32 (a + b).
Definition wrapping_sub32 (a b : Z) : Z := wrap32 (a - b).

(** ** Condition codes *)
Record Ccr := mkCcr { ccr_c : bool; ccr_v : bool; ccr_z : bool; ccr_n : bool; ccr_x : bool }.
#[export] Instance Ccr_eq_dec : EqDecision Ccr.
Proof. solve_decision. Defined.
(** [Ccr { x: old_x, ..ccr }] *)
Definition with_x (x : bool) (k : Ccr) : Ccr := mkCcr (ccr_c k) (ccr_v k) (ccr_z k) (ccr_n k) x.

Definition to_byte (k : Ccr) : Z :=
  Z.lor (Z.lor (Z.lor (Z.lor (Z.b2z (ccr_c k)) (Z.shiftl (Z.b2z (ccr_v k)) 1))
    (Z.shiftl (Z.b2z (ccr_z k)) 2)) (Z.shiftl (Z.b2z (ccr_n k)) 3)) (Z.shiftl (Z.b2z (ccr_x k)) 4).
Definition from_byte (b : Z) : Ccr := mkCcr (any_bit b 1) (any_bit b 2) (any_bit b 4) (any_bit b 8) (any_bit b 16).

(** ** The status register, a [u16] *)
Module Sr.
Definition C : Z := 0x1.
Definition V : Z := 0x2.
Definition Zf : Z := 0x4.
Definition N : Z := 0x8.
Definition X : Z := 0x10.
Definition S : Z := 0x2000.
Definition T : Z := 0x8000.
Definition new : Z := Z.lor S 0x0700.
Definition ccr (sr : Z) : Ccr := from_byte (wrap8 sr).
Definition set_ccr (k : Ccr) (sr : Z) : Z := Z.lor (Z.land sr 0xFF00) (to_byte k).
Definition c (sr : Z) : bool := any_bit sr C.
Definition v (sr : Z) : bool := any_bit sr V.
Definition z (sr : Z) : bool := any_bit sr Zf.
Definition n (sr : Z) : bool := any_bit sr N.
Definition x (sr : Z) : bool := any_bit sr X.
Definition supervisor (sr : Z) : bool := any_bit sr S.
Definition trace (sr : Z) : bool := any_bit sr T.
Definition ipl_mask (sr : Z) : Z := Z.land (Z.shiftr sr 8) 7.
End Sr.

(** ** Arithmetic *)
Module Bv.
Definition mask (val : Z) (s : Size) : Z := Z.land val (size_mask s).
Definition is_negative (val : Z) (s : Size) : bool := any_bit val (size_msb s).
Definition sign_extend (val : Z) (s : Size) : Z :=
  let masked := Z.land val (size_mask s) in
  if any_bit masked (size_msb s) then Z.lor masked (not32 (size_mask s)) else masked.

Definition logic_ccr (r : Z) (s : Size) : Ccr := mkCcr false false (r =? 0) (any_bit r (size_msb s)) false.
(** The sum of two masked bytes fits the [u16] it is computed in. *)
Definition carry (a b : Z) (s : Size) : bool := size_mask s <? a + b.
Definition carry_with_extend (a b x : Z) (s : Size) : bool := size_mask s <? a + b + x.

Definition add (a b : Z) (s : Size) : Z * Ccr :=
  let aa := Z.land a (size_mask s) in
  let bb := Z.land b (size_mask s) in
  let r := Z.land (wrapping_add32 aa bb) (size_mask s) in
  let v := any_bit (Z.land (not32 (Z.lxor aa bb)) (Z.lxor aa r)) (size_msb s) in
  let c := carry aa bb s in
  (r, mkCcr c v (r =? 0) (any_bit r (size_msb s)) c).
Definition addx (a b : Z) (x_in old_z : bool) (s : Size) : Z * Ccr :=
  let aa := Z.land a (size_mask s) in
  let bb := Z.land b (size_mask s) in
  let xi := Z.b2z x_in in
  let r := Z.land (wrapping_add32 (wrapping_add32 aa bb) xi) (size_mask s) in
  let v := any_bit (Z.land (not32 (Z.lxor aa bb)) (Z.lxor aa r)) (size_msb s) in
  let c := carry_with_extend aa bb xi s in
  (r, mkCcr c v (old_z && (r =? 0)) (any_bit r (size_msb s)) c).
Definition sub (a b : Z) (s : Size) : Z * Ccr :=
  let aa := Z.land a (size_mask s) in
  let bb := Z.land b (size_mask s) in
  let r := Z.land (wrapping_sub32 aa bb) (size_mask s) in
  let v := any_bit (Z.land (Z.lxor aa bb) (Z.lxor aa r)) (size_msb s) in
  let c := aa <? bb in
  (r, mkCcr c v (r =? 0) (any_bit r (size_msb s)) c).
Definition subx (a b : Z) (x_in old_z : bool) (s : Size) : Z * Ccr :=
  let aa := Z.land a (size_mask s) in
  let bb := Z.land b (size_mask s) in
  let xi := Z.b2z x_in in
  let r := Z.land (wrapping_sub32 (wrapping_sub32 aa bb) xi) (size_mask s) in
  let v := any_bit (Z.land (Z.lxor aa bb) (Z.lxor aa r)) (size_msb s) in
  let c := aa <? bb + xi in
  (r, mkCcr c v (old_z && (r =? 0)) (any_bit r (size_msb s)) c).

Definition and (a b : Z) (s : Size) : Z * Ccr := let r := Z.land (Z.land a b) (size_mask s) in (r, logic_ccr r s).
Definition or (a b : Z) (s : Size) : Z * Ccr := let r := Z.land (Z.lor a b) (size_mask s) in (r, logic_ccr r s).
Definition eor (a b : Z) (s : Size) : Z * Ccr := let r := Z.land (Z.lxor a b) (size_mask s) in (r, logic_ccr r s).
Definition not (val : Z) (s : Size) : Z * Ccr := let r := Z.land (not32 val) (size_mask s) in (r, logic_ccr r s).
Definition neg (val : Z) (s : Size) : Z * Ccr := sub 0 val s.
Definition cmp (a b : Z) (s : Size) : Ccr := (sub a b s).2.

(** *** Shifts and rotates: the loops of the source, one bit at a time *)
Fixpoint asl_loop (count : nat) (s : Size) (data : Z) (c v : bool) : Z * bool * bool :=
  match count with
  | O => (data, c, v)
  | S count =>
      let prev_sign := Z.land data (size_msb s) in
      let data' := Z.land (wrap32 (Z.shiftl data 1)) (size_mask s) in
      asl_loop count s data' (any_bit data (size_msb s)) (v || negb (Z.land data' (size_msb s) =? prev_sign))
  end.
Definition shift_none (val : Z) (s : Size) : Z * Ccr :=
  let r := Z.land val (size_mask s) in (r, mkCcr false false (r =? 0) (any_bit r (size_msb s)) false).
Definition asl (val count : Z) (s : Size) : Z * Ccr :=
  if count =? 0 then shift_none val s
  else
    let '(r, c, v) := asl_loop (Z.to_nat count) s (Z.land val (size_mask s)) false false in
    (r, mkCcr c v (r =? 0) (any_bit r (size_msb s)) c).

Fixpoint asr_loop (count : nat) (s : Size) (data : Z) (c : bool) : Z * bool :=
  match count with
  | O => (data, c)
  | S count =>
      let sign := Z.land data (size_msb s) in
      asr_loop count s (Z.land (Z.lor (Z.shiftr data 1) sign) (size_mask s)) (any_bit data 1)
  end.
Definition asr (val count : Z) (s : Size) : Z * Ccr :=
  if count =? 0 then shift_none val s
  else
    let '(r, c) := asr_loop (Z.to_nat count) s (Z.land val (size_mask s)) false in
    (r, mkCcr c false (r =? 0) (any_bit r (size_msb s)) c).

Fixpoint lsl_loop (count : nat) (s : Size) (data : Z) (c : bool) : Z * bool :=
  match count with
  | O => (data, c)
  | S count => lsl_loop count s (Z.land (wrap32 (Z.shiftl data 1)) (size_mask s)) (any_bit data (size_msb s))
  end.
Definition lsl (val count : Z) (s : Size) : Z * Ccr :=
  if count =? 0 then shift_none val s
  else
    let '(r, c) := lsl_loop (Z.to_nat count) s (Z.land val (size_mask s)) false in
    (r, mkCcr c false (r =? 0) (any_bit r (size_msb s)) c).

Fixpoint lsr_loop (count : nat) (data : Z) (c : bool) : Z * bool :=
  match count with
  | O => (data, c)
  | S count => lsr_loop count (Z.shiftr data 1) (any_bit data 1)
  end.
Definition lsr (val count : Z) (s : Size) : Z * Ccr :=
  if count =? 0 then shift_none val s
  else
    let '(data, c) := lsr_loop (Z.to_nat count) (Z.land val (size_mask s)) false in
    let r := Z.land data (size_mask s) in
    (r, mkCcr c false (r =? 0) (any_bit r (size_msb s)) c).

Fixpoint rol_loop (count : nat) (s : Size) (data : Z) (c : bool) : Z * bool :=
  match count with
  | O => (data, c)
  | S count =>
      let c := any_bit data (size_msb s) in
      rol_loop count s (Z.land (Z.lor (wrap32 (Z.shiftl data 1)) (Z.b2z c)) (size_mask s)) c
  end.
Definition rol (val count : Z) (s : Size) : Z * Ccr :=
  let effective := count mod size_bits s in
  let '(r, c) := rol_loop (Z.to_nat effective) s (Z.land val (size_mask s)) false in
  (r, mkCcr (if count =? 0 then false else c) false (r =? 0) (any_bit r (size_msb s)) false).

Fixpoint ror_loop (count : nat) (s : Size) (data : Z) (c : bool) : Z * bool :=
  match count with
  | O => (data, c)
  | S count =>
      let c := any_bit data 1 in
      ror_loop count s (Z.land (Z.lor (Z.shiftr data 1) (Z.b2z c * size_msb s)) (size_mask s)) c
  end.
Definition ror (val count : Z) (s : Size) : Z * Ccr :=
  let effective := count mod size_bits s in
  let '(r, c) := ror_loop (Z.to_nat effective) s (Z.land val (size_mask s)) false in
  (r, mkCcr (if count =? 0 then false else c) false (r =? 0) (any_bit r (size_msb s)) false).

(** *** Multiplication and division of 16-bit operands *)
Definition mulu (a b : Z) : Z * Ccr :=
  let r := a * b in (r, mkCcr false false (r =? 0) (any_bit r 0x80000000) false).
Definition muls (a b : Z) : Z * Ccr :=
  let r := wrap32 (as_i16 a * as_i16 b) in (r, mkCcr false false (r =? 0) (any_bit r 0x80000000) false).

Definition overflow (dividend : Z) : Z * Ccr := (dividend, mkCcr false true false false false).
Definition divu (dividend divisor : Z) : option (Z * Ccr) :=
  if divisor =? 0 then None
  else
    let q := dividend / divisor in
    if 0xFFFF <? q then Some (overflow dividend)
    else
      let rem := dividend mod divisor in
      Some (Z.lor (wrap32 (Z.shiftl rem 16)) q,
            mkCcr false false (Z.land q 0xFFFF =? 0) (any_bit q 0x8000) false).
(** Division of [i32] truncates towards zero and panics on [i32::MIN / -1], in every
    build profile. *)
Definition divs (dividend divisor : Z) : outcome (option (Z * Ccr)) :=
  if divisor =? 0 then Done None
  else
    let num := as_i32 dividend in
    let den := as_i16 divisor in
    if (num =? - 0x80000000) && (den =? -1) then Panic
    else
      let q := Z.quot num den in
      if (0x7FFF <? q) || (q <? - 0x8000) then Done (Some (overflow dividend))
      else
        let rem := wrap16 (Z.rem num den) in
        Done (Some (Z.lor (wrap32 (Z.shiftl rem 16)) (wrap16 q),
                    mkCcr false false (wrap16 q =? 0) (any_bit (wrap16 q) 0x8000) false)).
End Bv.
