(* ===== verification/Bus68.v ===== *)
(** * The bus of the MC68000 machine: [src/bus]

    The trait [Bus] with its default word and long accesses ([bus/mod.rs]), the trait
    [Device] ([bus/device.rs]), the timer and the console ([bus/timer.rs],
    [bus/console.rs]), flat memory ([bus/flat.rs]) and the bus with memory-mapped
    devices ([bus/mapped.rs]). *)

From S2P Require Import Prelude Bv68.

Definition ADDR_MASK_68K : Z := 0x00FFFFFF.

(** ** The traits *)
Class Bus (B : Type) := {
  read8 : B → Z → outcome (B * Z);
  write8 : B → Z → Z → outcome B;
  pending_irq : B → Z;
  tick : B → Z → outcome B;
  set_supervisor : B → bool → B;
  bus_fault : B → option Z;
  clear_bus_fault : B → B;
}.

Section accesses.
Context `{Bus B}.
Definition read16 (b : B) (addr : Z) : outcome (B * Z) :=
  '(b, hi) ← read8 b addr;
  '(b, lo) ← read8 b (wrapping_add32 addr 1);
  Done (b, Z.lor (Z.shiftl hi 8) lo).
Definition read32 (b : B) (addr : Z) : outcome (B * Z) :=
  '(b, hi) ← read16 b addr;
  '(b, lo) ← read16 b (wrapping_add32 addr 2);
  Done (b, Z.lor (Z.shiftl hi 16) lo).
Definition write16 (b : B) (addr val : Z) : outcome B :=
  b ← write8 b addr (wrap8 (Z.shiftr val 8));
  write8 b (wrapping_add32 addr 1) (wrap8 val).
Definition write32 (b : B) (addr val : Z) : outcome B :=
  b ← write16 b addr (wrap16 (Z.shiftr val 16));
  write16 b (wrapping_add32 addr 2) (wrap16 val).
End accesses.

Class Device (D : Type) := {
  dev_name : D → string;
  dev_size : D → Z;
  dev_read : D → Z → D * Z;
  dev_write : D → Z → Z → D;
  irq_level : D → Z;
  dev_tick : D → Z → outcome D;
}.

(** ** The timer *)
Record Timer := mkTimer {
  tm_enabled : bool;
  tm_irq_level_val : Z;
  tm_period : Z;
  tm_counter : Z;
  tm_ticks : Z;
  tm_pending : bool;
}.

Module Timer.
Definition CTRL : Z := 0.
Definition IRQ_LVL : Z := 1.
Definition PERIOD_H : Z := 2.
Definition PERIOD_L : Z := 3.
Definition TICKS_0 : Z := 4.
Definition STATUS : Z := 7.

Definition new (period irq_level : Z) : Timer := mkTimer false irq_level period 0 0 false.
Definition read (t : Timer) (offset : Z) : Timer * Z :=
  (t, if offset =? CTRL then Z.b2z (tm_enabled t)
      else if offset =? IRQ_LVL then tm_irq_level_val t
      else if offset =? PERIOD_H then wrap8 (Z.shiftr (tm_period t) 8)
      else if offset =? PERIOD_L then wrap8 (tm_period t)
      else if offset =? TICKS_0 then wrap8 (Z.shiftr (tm_ticks t) 24)
      else if offset =? 5 then wrap8 (Z.shiftr (tm_ticks t) 16)
      else if offset =? 6 then wrap8 (Z.shiftr (tm_ticks t) 8)
      else if offset =? STATUS then Z.b2z (tm_pending t)
      else 0).
Definition write (t : Timer) (offset val : Z) : Timer :=
  if offset =? CTRL then
    let enabled := any_bit val 1 in
    mkTimer enabled (tm_irq_level_val t) (tm_period t)
      (if negb (tm_enabled t) && enabled then 0 else tm_counter t) (tm_ticks t) (tm_pending t)
  else if offset =? IRQ_LVL then
    mkTimer (tm_enabled t) (Z.land val 7) (tm_period t) (tm_counter t) (tm_ticks t) (tm_pending t)
  else if offset =? PERIOD_H then
    mkTimer (tm_enabled t) (tm_irq_level_val t) (Z.lor (Z.land (tm_period t) 0x00FF) (Z.shiftl val 8))
      (tm_counter t) (tm_ticks t) (tm_pending t)
  else if offset =? PERIOD_L then
    mkTimer (tm_enabled t) (tm_irq_level_val t) (Z.lor (Z.land (tm_period t) 0xFF00) val)
      (tm_counter t) (tm_ticks t) (tm_pending t)
  else if offset =? STATUS then
    mkTimer (tm_enabled t) (tm_irq_level_val t) (tm_period t) (tm_counter t) (tm_ticks t) false
  else t.
Definition irq_level (t : Timer) : Z :=
  if tm_pending t && (0 <? tm_irq_level_val t) then tm_irq_level_val t else 0.
(** [while self.counter >= self.period]: the period is not zero, so as many rounds as
    the counter has cycles are enough. *)
Fixpoint reload (fuel : nat) (t : Timer) : outcome Timer :=
  match fuel with
  | O => Panic
  | S fuel =>
      if tm_counter t <? tm_period t then Done t
      else reload fuel (mkTimer (tm_enabled t) (tm_irq_level_val t) (tm_period t) (tm_counter t - tm_period t)
                          (wrapping_add32 (tm_ticks t) 1) true)
  end.
Definition tick `{Profile} (t : Timer) (cycles : Z) : outcome Timer :=
  if negb (tm_enabled t) || (tm_period t =? 0) then Done t
  else
    counter ← add_u32 (tm_counter t) cycles;
    reload (S (Z.to_nat counter))
      (mkTimer (tm_enabled t) (tm_irq_level_val t) (tm_period t) counter (tm_ticks t) (tm_pending t)).
End Timer.
#[export] Instance Timer_device `{Profile} : Device Timer := {
  dev_name _ := "timer"%string; dev_size _ := 8; dev_read := Timer.read; dev_write := Timer.write;
  irq_level := Timer.irq_level; dev_tick := Timer.tick }.

(** ** The console: the receive buffer, and what was written to the host *)
Record Console := mkConsole { con_rx_buf : list Z; con_stdout : list Z }.
Module Console.
Definition TX_DATA : Z := 0.
Definition TX_READY : Z := 1.
Definition RX_DATA : Z := 2.
Definition RX_READY : Z := 3.
Definition new : Console := mkConsole [] [].
Definition inject_char (c : Console) (ch : Z) : Console := mkConsole (con_rx_buf c ++ [ch]) (con_stdout c).
Definition read (c : Console) (offset : Z) : Console * Z :=
  if offset =? TX_DATA then (c, 0)
  else if offset =? TX_READY then (c, 1)
  else if offset =? RX_DATA then
    match con_rx_buf c with [] => (c, 0) | ch :: rest => (mkConsole rest (con_stdout c), ch) end
  else if offset =? RX_READY then (c, match con_rx_buf c with [] => 0 | _ => 1 end)
  else (c, 0).
Definition write (c : Console) (offset val : Z) : Console :=
  if offset =? TX_DATA then mkConsole (con_rx_buf c) (con_stdout c ++ [val]) else c.
End Console.
#[export] Instance Console_device : Device Console := {
  dev_name _ := "console"%string; dev_size _ := 16; dev_read := Console.read; dev_write := Console.write;
  irq_level _ := 0; dev_tick c _ := Done c }.
(** A boxed device of either kind *)
#[export] Instance sum_device `{Device D, Device E} : Device (D + E) := {
  dev_name x := match x with inl d => dev_name d | inr e => dev_name e end;
  dev_size x := match x with inl d => dev_size d | inr e => dev_size e end;
  dev_read x o := match x with inl d => (inl (dev_read d o).1, (dev_read d o).2)
                             | inr e => (inr (dev_read e o).1, (dev_read e o).2) end;
  dev_write x o v := match x with inl d => inl (dev_write d o v) | inr e => inr (dev_write e o v) end;
  irq_level x := match x with inl d => irq_level d | inr e => irq_level e end;
  dev_tick x n := match x with inl d => inl <$> dev_tick d n | inr e => inr <$> dev_tick e n end }.

(** ** Memory: reads past its end float high, writes there are dropped *)
Definition ram_read (mem : list Z) (a : Z) : Z := default 0xFF (mem !! Z.to_nat a).
Definition ram_write (mem : list Z) (a val : Z) : list Z := <[Z.to_nat a := val]> mem.
(** [mem[start..end].copy_from_slice(data)] behind its assertion *)
Definition ram_load (mem : list Z) (base : Z) (data : list Z) : outcome (list Z) :=
  let start := Z.land base ADDR_MASK_68K in
  let end_ := start + Z.of_nat (length data) in
  _ ← assert_ (end_ <=? Z.of_nat (length mem));
  Done (splice start data mem).

Record FlatBus := mkFlatBus { fb_mem : list Z }.
Module FlatBus.
Definition new (size : nat) : FlatBus := mkFlatBus (replicate size 0).
Definition load (b : FlatBus) (base : Z) (data : list Z) : outcome FlatBus :=
  mem ← ram_load (fb_mem b) base data; Done (mkFlatBus mem).
Definition slice (b : FlatBus) (start len : Z) : outcome (list Z) :=
  let s := Z.land start ADDR_MASK_68K in vec_slice s (s + len) (fb_mem b).
Definition read8 (b : FlatBus) (addr : Z) : outcome (FlatBus * Z) :=
  Done (b, ram_read (fb_mem b) (Z.land addr ADDR_MASK_68K)).
Definition write8 (b : FlatBus) (addr val : Z) : outcome FlatBus :=
  Done (mkFlatBus (ram_write (fb_mem b) (Z.land addr ADDR_MASK_68K) val)).
End FlatBus.
#[export] Instance FlatBus_bus : Bus FlatBus := {
  read8 := FlatBus.read8; write8 := FlatBus.write8; pending_irq _ := 0; tick b _ := Done b;
  set_supervisor b _ := b; bus_fault _ := None; clear_bus_fault b := b }.

(** ** The mapped bus *)
Record Mapping (D : Type) := mkMapping { mp_base : Z; mp_device : D }.
Arguments mkMapping {_} _ _.
Arguments mp_base {_} _.
Arguments mp_device {_} _.
Record MappedBus (D : Type) := mkMappedBus { mb_ram : list Z; mb_devices : list (Mapping D) }.
Arguments mkMappedBus {_} _ _.
Arguments mb_ram {_} _.
Arguments mb_devices {_} _.

Module MappedBus.
Section mapped.
Context `{Profile} `{Device D}.
Definition new (ram_size : nat) : MappedBus D := mkMappedBus (replicate ram_size 0) [].
(** The message of the source computes the last address of the window. *)
Definition add_device (b : MappedBus D) (base : Z) (device : D) : outcome (MappedBus D) :=
  end_ ← add_u32 base (dev_size device);
  _ ← sub_u32 end_ 1;
  Done (mkMappedBus (mb_ram b) (mb_devices b ++ [mkMapping base device])).
Definition load (b : MappedBus D) (base : Z) (data : list Z) : outcome (MappedBus D) :=
  ram ← ram_load (mb_ram b) base data; Done (mkMappedBus ram (mb_devices b)).
Definition covers_addr (addr : Z) (m : Mapping D) : bool :=
  wrapping_sub32 addr (mp_base m) <? dev_size (mp_device m).
(** The index of the device, and the offset in it *)
Definition find_device (b : MappedBus D) (addr : Z) : option (nat * Mapping D * Z) :=
  '(i, m) ← list_find (covers_addr addr) (mb_devices b);
  Some (i, m, wrapping_sub32 addr (mp_base m)).
Definition set_device (b : MappedBus D) (i : nat) (m : Mapping D) (d : D) : MappedBus D :=
  mkMappedBus (mb_ram b) (<[i := mkMapping (mp_base m) d]> (mb_devices b)).
Definition read8 (b : MappedBus D) (addr : Z) : outcome (MappedBus D * Z) :=
  let masked := Z.land addr ADDR_MASK_68K in
  Done match find_device b masked with
       | Some (i, m, offset) => let '(d, v) := dev_read (mp_device m) offset in (set_device b i m d, v)
       | None => (b, ram_read (mb_ram b) masked)
       end.
Definition write8 (b : MappedBus D) (addr val : Z) : outcome (MappedBus D) :=
  let masked := Z.land addr ADDR_MASK_68K in
  Done match find_device b masked with
       | Some (i, m, offset) => set_device b i m (dev_write (mp_device m) offset val)
       | None => mkMappedBus (ram_write (mb_ram b) masked val) (mb_devices b)
       end.
Definition pending_irq (b : MappedBus D) : Z :=
  fold_left (λ max_level m, if max_level <? irq_level (mp_device m) then irq_level (mp_device m) else max_level)
    (mb_devices b) 0.
Definition tick (b : MappedBus D) (cycles : Z) : outcome (MappedBus D) :=
  devices ← map_outcome (λ m, d ← dev_tick (mp_device m) cycles; Done (mkMapping (mp_base m) d)) (mb_devices b);
  Done (mkMappedBus (mb_ram b) devices).
End mapped.
End MappedBus.
#[export] Instance MappedBus_bus `{Device D} : Bus (MappedBus D) := {
  read8 := MappedBus.read8; write8 := MappedBus.write8; pending_irq := MappedBus.pending_irq;
  tick := MappedBus.tick; set_supervisor b _ := b; bus_fault _ := None; clear_bus_fault b := b }.
