(* ===== verification/Protection68.v ===== *)
(** * Capability protection of the MC68000 machine: [src/protection.rs]

    The object table with its generations, capabilities and domains, the fault
    records, and the bus that checks every user access against the active domain. *)

From S2P Require Import Prelude Bv68 Bus68.

(** The protection controller: [PROTECT_BASE] of [src/abi.rs] *)
Definition PROTECT_BASE : Z := 0x00F00020.

Module Perm.
Definition READ : Z := 0x01.
Definition WRITE : Z := 0x02.
Definition EXEC : Z := 0x04.
Definition RW : Z := 0x03.
Definition RWX : Z := 0x07.
Definition RX : Z := 0x05.
Definition contains (self other : Z) : bool := Z.land self other =? other.
End Perm.

(** ** Capabilities *)
Record Capability := mkCapability {
  cap_object_id : Z;
  cap_generation : Z;
  cap_base : Z;
  cap_length : Z;
  cap_perms : Z;
}.
Module Capability.
Definition new (object_id base length perms : Z) : Capability := mkCapability object_id 0 base length perms.
Definition permits (c : Capability) (addr size op : Z) : bool :=
  if (size =? 0) || (op =? 0) then false
  else if negb (Perm.contains (cap_perms c) op) then false
  else (cap_base c <=? addr) && (size <=? cap_length c) && (addr - cap_base c <=? cap_length c - size).
End Capability.

(** ** The object table *)
Inductive ObjectState := Active | Freed.
#[export] Instance ObjectState_eq_dec : EqDecision ObjectState.
Proof. solve_decision. Defined.
Record ObjectEntry := mkObjectEntry {
  oe_generation : Z;
  oe_base : Z;
  oe_length : Z;
  oe_state : ObjectState;
  oe_name : string;
}.
Abbreviation ObjectTable := (list ObjectEntry).

Module ObjectTable.
Definition is_empty (t : ObjectTable) : bool := match t with [] => true | _ => false end.
Definition alloc (t : ObjectTable) (name : string) (base length : Z) : ObjectTable * Z :=
  (t ++ [mkObjectEntry 0 base length Active name], wrap32 (Z.of_nat (List.length t))).
Definition entry (t : ObjectTable) (id : Z) : option ObjectEntry := t !! Z.to_nat id.
Definition make_cap (t : ObjectTable) (object_id perms : Z) : option Capability :=
  e ← entry t object_id;
  if negb (bool_decide (oe_state e = Active)) then None
  else Some (mkCapability object_id (oe_generation e) (oe_base e) (oe_length e) perms).
Definition derive_cap (t : ObjectTable) (parent : Capability) (base length perms : Z) : option Capability :=
  e ← entry t (cap_object_id parent);
  if negb (bool_decide (oe_state e = Active)) then None
  else if negb (cap_generation parent =? oe_generation e) then None
  else if negb (Perm.contains (cap_perms parent) perms) then None
  else if base <? cap_base parent then None
  else if cap_length parent <? length then None
  else if cap_length parent - length <? base - cap_base parent then None
  else Some (mkCapability (cap_object_id parent) (cap_generation parent) base length perms).
Definition revoke (t : ObjectTable) (object_id : Z) : ObjectTable :=
  alter (λ e, mkObjectEntry (wrap32 (oe_generation e + 1)) (oe_base e) (oe_length e) Freed (oe_name e))
    (Z.to_nat object_id) t.
Definition validate (t : ObjectTable) (c : Capability) : bool :=
  match entry t (cap_object_id c) with
  | Some e => bool_decide (oe_state e = Active) && (cap_generation c =? oe_generation e)
              && (oe_base e <=? cap_base c) && (cap_length c <=? oe_length e)
              && (cap_base c - oe_base e <=? oe_length e - cap_length c)
  | None => false
  end.
End ObjectTable.

(** ** Faults *)
Inductive FaultReason := NoCapability | WrongPermission | DeviceAccessDenied | StaleGeneration.
Record FaultRecord := mkFaultRecord {
  fr_address : Z;
  fr_size : Z;
  fr_operation : Z;
  fr_reason : FaultReason;
  fr_domain_id : Z;
  fr_domain_name : string;
}.

(** ** Domains *)
Record Domain := mkDomain { dom_name : string; dom_caps : list Capability }.
Module Domain.
Definition new (name : string) : Domain := mkDomain name [].
Definition grant (d : Domain) (c : Capability) : Domain := mkDomain (dom_name d) (dom_caps d ++ [c]).
Definition permits (d : Domain) (addr size op : Z) : bool :=
  existsb (λ c, Capability.permits c addr size op) (dom_caps d).
End Domain.

(** ** The protected bus *)
Record ProtectedBus (D : Type) := mkProtectedBus {
  pb_inner : MappedBus D;
  pb_domains : list Domain;
  pb_active_domain : Z;
  pb_supervisor : bool;
  pb_fault : option FaultRecord;
  pb_violations : Z;
  pb_fault_log : list FaultRecord;
  pb_objects : ObjectTable;
}.
Arguments mkProtectedBus {_} _ _ _ _ _ _ _ _.
Arguments pb_inner {_} _.
Arguments pb_domains {_} _.
Arguments pb_active_domain {_} _.
Arguments pb_supervisor {_} _.
Arguments pb_fault {_} _.
Arguments pb_violations {_} _.
Arguments pb_fault_log {_} _.
Arguments pb_objects {_} _.

Module ProtectedBus.
Section protected.
Context `{Profile} `{Device D}.
Implicit Types b : ProtectedBus D.

Definition new (inner : MappedBus D) : ProtectedBus D := mkProtectedBus inner [] 0 true None 0 [] [].
Definition set_inner b (inner : MappedBus D) : ProtectedBus D := mkProtectedBus inner (pb_domains b) (pb_active_domain b) (pb_supervisor b)
  (pb_fault b) (pb_violations b) (pb_fault_log b) (pb_objects b).
Definition add_domain b (d : Domain) : ProtectedBus D * nat :=
  (mkProtectedBus (pb_inner b) (pb_domains b ++ [d]) (pb_active_domain b) (pb_supervisor b)
     (pb_fault b) (pb_violations b) (pb_fault_log b) (pb_objects b), length (pb_domains b)).
Definition set_domain b (domain_id : Z) : ProtectedBus D :=
  mkProtectedBus (pb_inner b) (pb_domains b) domain_id (pb_supervisor b)
    (pb_fault b) (pb_violations b) (pb_fault_log b) (pb_objects b).
Definition set_supervisor b (is_super : bool) : ProtectedBus D :=
  mkProtectedBus (pb_inner b) (pb_domains b) (pb_active_domain b) is_super
    (pb_fault b) (pb_violations b) (pb_fault_log b) (pb_objects b).
Definition set_fault b (fault : option FaultRecord) : ProtectedBus D :=
  mkProtectedBus (pb_inner b) (pb_domains b) (pb_active_domain b) (pb_supervisor b)
    fault (pb_violations b) (pb_fault_log b) (pb_objects b).
Definition take_fault b : ProtectedBus D * option FaultRecord := (set_fault b None, pb_fault b).

Definition active b : option Domain := pb_domains b !! Z.to_nat (pb_active_domain b).
Definition domain_name b : string := match active b with Some d => dom_name d | None => "<invalid>"%string end.
(** [fault_log.push], [violations += 1] *)
Definition count_violation b (r : FaultRecord) : outcome (ProtectedBus D) :=
  violations ← add_u64 (pb_violations b) 1;
  Done (mkProtectedBus (pb_inner b) (pb_domains b) (pb_active_domain b) (pb_supervisor b)
          (pb_fault b) violations (pb_fault_log b ++ [r]) (pb_objects b)).
(** ... and [self.fault = Some(record)] *)
Definition record_fault b (r : FaultRecord) : outcome (ProtectedBus D) := count_violation (set_fault b (Some r)) r.

(** The scan of the domain: whether an access is authorized, and whether only stale
    capabilities cover it *)
Fixpoint scan (t : ObjectTable) (caps : list Capability) (addr size op : Z) (stale_match : bool) : bool * bool :=
  match caps with
  | [] => (false, stale_match)
  | cap :: caps =>
      if Capability.permits cap addr size op then
        if ObjectTable.is_empty t then (true, stale_match)
        else if ObjectTable.validate t cap then (true, stale_match)
        else scan t caps addr size op true
      else scan t caps addr size op stale_match
  end.
Definition check b (addr size op : Z) : outcome (ProtectedBus D * bool) :=
  if pb_supervisor b then Done (b, true)
  else
    match active b with
    | Some domain =>
        let '(allowed, stale_match) := scan (pb_objects b) (dom_caps domain) addr size op false in
        if (allowed : bool) then Done (b, true)
        else
          let reason :=
            if (stale_match : bool) then StaleGeneration
            else if existsb (λ c, Capability.permits c addr size Perm.READ
                     || Capability.permits c addr size Perm.WRITE
                     || Capability.permits c addr size Perm.EXEC) (dom_caps domain)
            then WrongPermission else NoCapability in
          b ← record_fault b (mkFaultRecord addr size op reason (pb_active_domain b) (dom_name domain));
          Done (b, false)
    | None =>
        b ← record_fault b (mkFaultRecord addr size op NoCapability (pb_active_domain b) "<invalid>"%string);
        Done (b, false)
    end.

(** *** DMA on behalf of a device *)
Fixpoint write_bytes (inner : MappedBus D) (addr : Z) (data : list Z) : outcome (MappedBus D) :=
  match data with
  | [] => Done inner
  | byte :: data => inner ← MappedBus.write8 inner addr byte; write_bytes inner (wrapping_add32 addr 1) data
  end.
Definition dma_fault (addr size : Z) (reason : FaultReason) : FaultRecord :=
  mkFaultRecord addr size Perm.WRITE reason u64_max "dma-agent"%string.
Definition dma_write b (cap : Capability) (offset : Z) (data : list Z) :
    outcome (ProtectedBus D * result FaultRecord unit) :=
  let addr := wrapping_add32 (cap_base cap) offset in
  let size := wrap32 (Z.of_nat (length data)) in
  if negb (ObjectTable.validate (pb_objects b) cap) then
    b ← count_violation b (dma_fault addr size StaleGeneration);
    Done (b, Err (dma_fault addr size StaleGeneration))
  else if negb (Capability.permits cap addr size Perm.WRITE) then
    b ← count_violation b (dma_fault addr size NoCapability);
    Done (b, Err (dma_fault addr size NoCapability))
  else
    inner ← write_bytes (pb_inner b) addr data;
    Done (set_inner b inner, Ok tt).

(** *** The protection controller *)
Definition is_protect_reg (addr : Z) : bool := (PROTECT_BASE <=? addr) && (addr <? PROTECT_BASE + 8).
Definition read_protect_reg b (offset : Z) : Z :=
  if offset =? 0x00 then wrap8 (pb_active_domain b)
  else if offset =? 0x04 then wrap8 (Z.shiftr (pb_violations b) 24)
  else if offset =? 0x05 then wrap8 (Z.shiftr (pb_violations b) 16)
  else if offset =? 0x06 then wrap8 (Z.shiftr (pb_violations b) 8)
  else if offset =? 0x07 then wrap8 (pb_violations b)
  else 0.
Definition write_protect_reg b (offset val : Z) : ProtectedBus D := if offset =? 0x00 then set_domain b val else b.
Definition deny_device b (addr op : Z) : outcome (ProtectedBus D) :=
  record_fault b (mkFaultRecord addr 1 op DeviceAccessDenied (pb_active_domain b) (domain_name b)).

Definition read8 b (addr : Z) : outcome (ProtectedBus D * Z) :=
  let masked := Z.land addr ADDR_MASK_68K in
  if is_protect_reg masked then
    if negb (pb_supervisor b) then b ← deny_device b masked Perm.READ; Done (b, 0xFF)
    else Done (b, read_protect_reg b (masked - PROTECT_BASE))
  else
    '(b, allowed) ← check b masked 1 Perm.READ;
    if negb allowed then Done (b, 0xFF)
    else '(inner, v) ← MappedBus.read8 (pb_inner b) addr; Done (set_inner b inner, v).
Definition write8 b (addr val : Z) : outcome (ProtectedBus D) :=
  let masked := Z.land addr ADDR_MASK_68K in
  if is_protect_reg masked then
    if negb (pb_supervisor b) then deny_device b masked Perm.WRITE
    else Done (write_protect_reg b (masked - PROTECT_BASE) val)
  else
    '(b, allowed) ← check b masked 1 Perm.WRITE;
    if negb allowed then Done b
    else inner ← MappedBus.write8 (pb_inner b) addr val; Done (set_inner b inner).
Definition pending_irq b : Z := MappedBus.pending_irq (pb_inner b).
Definition tick b (cycles : Z) : outcome (ProtectedBus D) :=
  inner ← MappedBus.tick (pb_inner b) cycles; Done (set_inner b inner).
Definition bus_fault b : option Z := fr_address <$> pb_fault b.
Definition clear_bus_fault b : ProtectedBus D := set_fault b None.
End protected.
End ProtectedBus.
#[export] Instance ProtectedBus_bus `{Profile} `{Device D} : Bus (ProtectedBus D) := {
  read8 := ProtectedBus.read8; write8 := ProtectedBus.write8; pending_irq := ProtectedBus.pending_irq;
  tick := ProtectedBus.tick; set_supervisor := ProtectedBus.set_supervisor;
  bus_fault := ProtectedBus.bus_fault; clear_bus_fault := ProtectedBus.clear_bus_fault }.
