(* ===== verification/Cpu68.v ===== *)
(** * The MC68000: [src/cpu/mod.rs], [src/cpu/ea.rs] and [src/cpu/exec.rs]

    The processor over any bus: registers, effective addresses, every instruction
    group, exceptions and interrupts, and the step.  An operation is a function of the
    processor that may panic, in the monad [cpuM]. *)

From S2P Require Import Prelude Bv68 Bus68.

Record Cpu (B : Type) := mkCpu {
  cpu_d : list Z;
  cpu_a : list Z;
  cpu_ssp : Z;
  cpu_usp : Z;
  cpu_pc : Z;
  cpu_sr : Z;
  cpu_cycles : Z;
  cpu_halted : bool;
  cpu_bus : B;
}.
Arguments mkCpu {_} _ _ _ _ _ _ _ _ _.
Arguments cpu_d {_} _.
Arguments cpu_a {_} _.
Arguments cpu_ssp {_} _.
Arguments cpu_usp {_} _.
Arguments cpu_pc {_} _.
Arguments cpu_sr {_} _.
Arguments cpu_cycles {_} _.
Arguments cpu_halted {_} _.
Arguments cpu_bus {_} _.

(** ** The monad *)
Definition cpuM (B A : Type) : Type := Cpu B → outcome (Cpu B * A).
#[export] Instance cpuM_ret B : MRet (cpuM B) := λ A a c, Done (c, a).
#[export] Instance cpuM_bind B : MBind (cpuM B) := λ A A' k m c,
  match m c with Done (c, a) => k a c | Panic => Panic end.

(** *** Registers *)
Section registers.
Context {B : Type}.
Definition set_cpu_d (d : list Z) (c : Cpu B) : Cpu B :=
  mkCpu d (cpu_a c) (cpu_ssp c) (cpu_usp c) (cpu_pc c) (cpu_sr c) (cpu_cycles c) (cpu_halted c) (cpu_bus c).
Definition set_cpu_a (a : list Z) (c : Cpu B) : Cpu B :=
  mkCpu (cpu_d c) a (cpu_ssp c) (cpu_usp c) (cpu_pc c) (cpu_sr c) (cpu_cycles c) (cpu_halted c) (cpu_bus c).
Definition set_cpu_ssp (ssp : Z) (c : Cpu B) : Cpu B :=
  mkCpu (cpu_d c) (cpu_a c) ssp (cpu_usp c) (cpu_pc c) (cpu_sr c) (cpu_cycles c) (cpu_halted c) (cpu_bus c).
Definition set_cpu_usp (usp : Z) (c : Cpu B) : Cpu B :=
  mkCpu (cpu_d c) (cpu_a c) (cpu_ssp c) usp (cpu_pc c) (cpu_sr c) (cpu_cycles c) (cpu_halted c) (cpu_bus c).
Definition set_cpu_pc (pc : Z) (c : Cpu B) : Cpu B :=
  mkCpu (cpu_d c) (cpu_a c) (cpu_ssp c) (cpu_usp c) pc (cpu_sr c) (cpu_cycles c) (cpu_halted c) (cpu_bus c).
Definition set_cpu_sr (sr : Z) (c : Cpu B) : Cpu B :=
  mkCpu (cpu_d c) (cpu_a c) (cpu_ssp c) (cpu_usp c) (cpu_pc c) sr (cpu_cycles c) (cpu_halted c) (cpu_bus c).
Definition set_cpu_halted (halted : bool) (c : Cpu B) : Cpu B :=
  mkCpu (cpu_d c) (cpu_a c) (cpu_ssp c) (cpu_usp c) (cpu_pc c) (cpu_sr c) (cpu_cycles c) halted (cpu_bus c).
Definition set_cpu_bus (bus : B) (c : Cpu B) : Cpu B :=
  mkCpu (cpu_d c) (cpu_a c) (cpu_ssp c) (cpu_usp c) (cpu_pc c) (cpu_sr c) (cpu_cycles c) (cpu_halted c) bus.

Definition get {A} (g : Cpu B → A) : cpuM B A := λ c, Done (c, g c).
Definition put (g : Cpu B → Cpu B) : cpuM B unit := λ c, Done (g c, tt).
Definition lift {A} (m : outcome A) : cpuM B A := λ c, a ← m; Done (c, a).
(** [self.d[i]], [self.d[i] = v]: out of range, an index panics. *)
Definition get_d (i : Z) : cpuM B Z := λ c, v ← vec_get (Z.to_nat i) (cpu_d c); Done (c, v).
Definition set_d (i v : Z) : cpuM B unit := λ c, d ← vec_set (Z.to_nat i) v (cpu_d c); Done (set_cpu_d d c, tt).
Definition get_a (i : Z) : cpuM B Z := λ c, v ← vec_get (Z.to_nat i) (cpu_a c); Done (c, v).
Definition set_a (i v : Z) : cpuM B unit := λ c, a ← vec_set (Z.to_nat i) v (cpu_a c); Done (set_cpu_a a c, tt).
Definition set_ccr (k : Ccr) : cpuM B unit := put (λ c, set_cpu_sr (Sr.set_ccr k (cpu_sr c)) c).
Definition on_bus {A} (m : B → outcome (B * A)) : cpuM B A :=
  λ c, '(b, a) ← m (cpu_bus c); Done (set_cpu_bus b c, a).
Definition to_bus (m : B → outcome B) : cpuM B unit := λ c, b ← m (cpu_bus c); Done (set_cpu_bus b c, tt).
End registers.

(** [for bit in 0..16] *)
Fixpoint for_bits {B} (bits : list Z) (body : Z → cpuM B unit) : cpuM B unit :=
  match bits with [] => mret tt | bit :: bits => _ ← body bit; for_bits bits body end.
Definition BITS : list Z := [0; 1; 2; 3; 4; 5; 6; 7; 8; 9; 10; 11; 12; 13; 14; 15].

(** [a + b] on [i32], cast to [u32] *)
Definition add_i32_u32 `{Profile} (a b : Z) : outcome Z :=
  r ← checked_or_wrap (a + b) (as_i32 (a + b)); Done (wrap32 r).

(** ** Sizes of opcodes *)
Definition size_from_bits_6_7 (opcode : Z) : outcome Size :=
  match Z.land (Z.shiftr opcode 6) 3 with 0 => Done Byte | 1 => Done Word | 2 => Done Long | _ => Panic end.
Definition opmode_size_012 (opmode : Z) : outcome Size :=
  match opmode with 0 => Done Byte | 1 => Done Word | 2 => Done Long | _ => Panic end.
Definition opmode_size_456 (opmode : Z) : outcome Size :=
  match opmode with 4 => Done Byte | 5 => Done Word | 6 => Done Long | _ => Panic end.
(** The fields of an opcode *)
Definition ea_mode_of (opcode : Z) : Z := Z.land (Z.shiftr opcode 3) 7.
Definition ea_reg_of (opcode : Z) : Z := Z.land opcode 7.
Definition reg_of (opcode : Z) : Z := Z.land (Z.shiftr opcode 9) 7.
Definition opmode_of (opcode : Z) : Z := Z.land (Z.shiftr opcode 6) 7.

(** ** Effective addresses *)
Inductive Ea :=
| DataReg (dn : Z)
| AddrReg (an : Z)
| AddrIndirect (an : Z)
| PostIncrement (an : Z)
| PreDecrement (an : Z)
| Displacement (an disp : Z)
| Indexed (an xn : Z) (xn_is_addr xn_long : bool) (disp : Z)
| AbsoluteWord (w : Z)
| AbsoluteLong (l : Z)
| PcDisplacement (disp : Z)
| PcIndexed (xn : Z) (xn_is_addr xn_long : bool) (disp : Z)
| Immediate.

(** The amount of a post-increment or pre-decrement *)
Definition increment (an : Z) (size : Size) : Z :=
  match size with Byte => if an =? 7 then 2 else 1 | Word => 2 | Long => 4 end.

Section machine.
Context `{Profile} `{Bus B}.
Abbreviation M := (cpuM B).

(** *** [Cpu::new] *)
Definition Cpu_new (bus : B) : outcome (Cpu B) :=
  '(bus, ssp) ← read32 bus 0;
  '(bus, pc) ← read32 bus 4;
  Done (mkCpu (replicate 8 0) (replicate 7 0 ++ [ssp]) ssp 0 pc Sr.new 0 false bus).

Definition fetch_word : M Z :=
  pc ← get cpu_pc;
  w ← on_bus (λ b, read16 b pc);
  _ ← put (set_cpu_pc (wrapping_add32 pc 2));
  mret w.
Definition fetch_long : M Z :=
  hi ← fetch_word;
  lo ← fetch_word;
  mret (Z.lor (Z.shiftl hi 16) lo).
Definition push32 (val : Z) : M unit :=
  a7 ← get_a 7;
  _ ← set_a 7 (wrapping_sub32 a7 4);
  sp ← get_a 7;
  to_bus (λ b, write32 b sp val).
Definition pop32 : M Z :=
  sp ← get_a 7;
  val ← on_bus (λ b, read32 b sp);
  a7 ← get_a 7;
  _ ← set_a 7 (wrapping_add32 a7 4);
  mret val.
Definition push16 (val : Z) : M unit :=
  a7 ← get_a 7;
  _ ← set_a 7 (wrapping_sub32 a7 2);
  sp ← get_a 7;
  to_bus (λ b, write16 b sp val).
Definition pop16 : M Z :=
  sp ← get_a 7;
  val ← on_bus (λ b, read16 b sp);
  a7 ← get_a 7;
  _ ← set_a 7 (wrapping_add32 a7 2);
  mret val.

(** *** [Ea::decode] *)
Definition brief_extension {A} (k : Z → bool → bool → Z → A) : M A :=
  ext ← fetch_word;
  mret (k (Z.land (Z.shiftr ext 12) 7) (any_bit ext 0x8000) (any_bit ext 0x0800) (as_i8 ext)).
Definition decode (mode reg : Z) : M Ea :=
  match mode with
  | 0 => mret (DataReg reg)
  | 1 => mret (AddrReg reg)
  | 2 => mret (AddrIndirect reg)
  | 3 => mret (PostIncrement reg)
  | 4 => mret (PreDecrement reg)
  | 5 => w ← fetch_word; mret (Displacement reg (as_i16 w))
  | 6 => brief_extension (Indexed reg)
  | 7 =>
      match reg with
      | 0 => w ← fetch_word; mret (AbsoluteWord w)
      | 1 => hi ← fetch_word; lo ← fetch_word; mret (AbsoluteLong (Z.lor (Z.shiftl hi 16) lo))
      | 2 => w ← fetch_word; mret (PcDisplacement (as_i16 w))
      | 3 => brief_extension PcIndexed
      | 4 => mret Immediate
      | _ => lift Panic
      end
  | _ => lift Panic
  end.

Definition index_value (xn : Z) (is_addr long : bool) : M Z :=
  raw ← (if is_addr then get_a xn else get_d xn);
  mret (if long then raw else wrap32 (as_i16 raw)).

Definition effective_addr (ea : Ea) (size : Size) : M Z :=
  match ea with
  | AddrIndirect an => get_a an
  | PostIncrement an =>
      addr ← get_a an;
      _ ← set_a an (wrapping_add32 addr (increment an size));
      mret addr
  | PreDecrement an =>
      a ← get_a an;
      _ ← set_a an (wrapping_sub32 a (increment an size));
      get_a an
  | Displacement an disp => a ← get_a an; mret (wrapping_add32 a disp)
  | Indexed an xn is_addr long disp =>
      base ← get_a an;
      index ← index_value xn is_addr long;
      mret (wrapping_add32 (wrapping_add32 base index) disp)
  | AbsoluteWord w => mret (wrap32 (as_i16 w))
  | AbsoluteLong l => mret l
  | PcDisplacement disp => pc ← get cpu_pc; mret (wrapping_add32 (wrapping_sub32 pc 2) disp)
  | PcIndexed xn is_addr long disp =>
      pc ← get cpu_pc;
      index ← index_value xn is_addr long;
      mret (wrapping_add32 (wrapping_add32 (wrapping_sub32 pc 2) index) disp)
  | DataReg _ | AddrReg _ | Immediate => lift Panic
  end.

Definition read_mem (addr : Z) (size : Size) : M Z :=
  on_bus (λ b, match size with Byte => read8 b addr | Word => read16 b addr | Long => read32 b addr end).
Definition write_mem (addr : Z) (size : Size) (val : Z) : M unit :=
  to_bus (λ b, match size with
               | Byte => write8 b addr (wrap8 val)
               | Word => write16 b addr (wrap16 val)
               | Long => write32 b addr val
               end).
Definition read_immediate (size : Size) : M Z :=
  match size with
  | Byte => w ← fetch_word; mret (Z.land w 0xFF)
  | Word => fetch_word
  | Long => hi ← fetch_word; lo ← fetch_word; mret (Z.lor (Z.shiftl hi 16) lo)
  end.
Definition read_ea (ea : Ea) (size : Size) : M Z :=
  match ea with
  | DataReg dn => d ← get_d dn; mret (Z.land d (size_mask size))
  | AddrReg an => a ← get_a an; mret (Z.land a (size_mask size))
  | Immediate => read_immediate size
  | _ => addr ← effective_addr ea size; read_mem addr size
  end.
(** [self.d[i] = (self.d[i] & !m) | (val & m)] *)
Definition merge_d (i : Z) (size : Size) (val : Z) : M unit :=
  d ← get_d i;
  set_d i (Z.lor (Z.land d (not32 (size_mask size))) (Z.land val (size_mask size))).
Definition write_ea (ea : Ea) (size : Size) (val : Z) : M unit :=
  match ea with
  | DataReg dn => merge_d dn size val
  | AddrReg an =>
      match size with
      | Word => set_a an (wrap32 (as_i16 val))
      | Long => set_a an val
      | Byte => lift Panic
      end
  | Immediate => lift Panic
  | _ => addr ← effective_addr ea size; write_mem addr size val
  end.
(** ** Exceptions *)
Definition trap (vector : Z) : M unit :=
  old_sr ← get cpu_sr;
  _ ← (if negb (Sr.supervisor old_sr) then
         a7 ← get_a 7;
         _ ← put (set_cpu_usp a7);
         ssp ← get cpu_ssp;
         _ ← set_a 7 ssp;
         put (set_cpu_sr (Z.lor old_sr 0x2000))
       else mret tt);
  _ ← put (λ c, set_cpu_bus (set_supervisor (cpu_bus c) true) c);
  pc ← get cpu_pc;
  _ ← push32 pc;
  _ ← push16 old_sr;
  _ ← put (λ c, set_cpu_sr (Z.ldiff (cpu_sr c) 0x8000) c);
  pc ← on_bus (λ b, read32 b (vector * 4));
  put (set_cpu_pc pc).

Definition accept_interrupt (level : Z) : M unit :=
  old_sr ← get cpu_sr;
  _ ← (if negb (Sr.supervisor old_sr) then
         a7 ← get_a 7;
         _ ← put (set_cpu_usp a7);
         ssp ← get cpu_ssp;
         set_a 7 ssp
       else mret tt);
  _ ← put (set_cpu_sr (Z.ldiff (Z.lor old_sr 0x2000) 0x8000));
  _ ← put (λ c, set_cpu_sr (Z.lor (Z.land (cpu_sr c) 0xF8FF) (wrap16 (Z.shiftl level 8))) c);
  _ ← put (λ c, set_cpu_bus (set_supervisor (cpu_bus c) true) c);
  pc ← get cpu_pc;
  _ ← push32 pc;
  _ ← push16 old_sr;
  pc ← on_bus (λ b, read32 b ((24 + level) * 4));
  put (set_cpu_pc pc).

Definition illegal : M Z := _ ← trap 4; mret 34.

Definition require_supervisor : M bool :=
  sr ← get cpu_sr;
  if Sr.supervisor sr then mret true else _ ← trap 8; mret false.
(** [if !self.require_supervisor() { return cycles; }] *)
Definition privileged (cycles : Z) (k : M Z) : M Z :=
  b ← require_supervisor; if (b : bool) then k else mret cycles.

Definition set_sr_value (new_sr : Z) : M unit :=
  sr ← get cpu_sr;
  let was_super := Sr.supervisor sr in
  let will_be_super := any_bit new_sr 0x2000 in
  _ ← (if was_super && negb will_be_super then
         a7 ← get_a 7;
         _ ← put (set_cpu_ssp a7);
         usp ← get cpu_usp;
         set_a 7 usp
       else if negb was_super && will_be_super then
         a7 ← get_a 7;
         _ ← put (set_cpu_usp a7);
         ssp ← get cpu_ssp;
         set_a 7 ssp
       else mret tt);
  _ ← put (set_cpu_sr new_sr);
  put (λ c, set_cpu_bus (set_supervisor (cpu_bus c) will_be_super) c).

Definition test_condition (cc : Z) : M bool :=
  sr ← get cpu_sr;
  lift match cc with
       | 0x0 => Done true
       | 0x1 => Done false
       | 0x2 => Done (negb (Sr.c sr) && negb (Sr.z sr))
       | 0x3 => Done (Sr.c sr || Sr.z sr)
       | 0x4 => Done (negb (Sr.c sr))
       | 0x5 => Done (Sr.c sr)
       | 0x6 => Done (negb (Sr.z sr))
       | 0x7 => Done (Sr.z sr)
       | 0x8 => Done (negb (Sr.v sr))
       | 0x9 => Done (Sr.v sr)
       | 0xA => Done (negb (Sr.n sr))
       | 0xB => Done (Sr.n sr)
       | 0xC => Done (Bool.eqb (Sr.n sr) (Sr.v sr))
       | 0xD => Done (negb (Bool.eqb (Sr.n sr) (Sr.v sr)))
       | 0xE => Done (negb (Sr.z sr) && Bool.eqb (Sr.n sr) (Sr.v sr))
       | 0xF => Done (Sr.z sr || negb (Bool.eqb (Sr.n sr) (Sr.v sr)))
       | _ => Panic
       end.

(** ** Moves *)
Definition decode_ea (opcode : Z) : M Ea := decode (ea_mode_of opcode) (ea_reg_of opcode).
(** The operand of the effective address of an opcode *)
Definition source (opcode : Z) (size : Size) : M Z := ea ← decode_ea opcode; read_ea ea size.
(** [set_ccr] with the extend flag kept *)
Definition set_ccr_keep_x (k : Ccr) : M unit := sr ← get cpu_sr; set_ccr (with_x (Sr.x sr) k).

Definition do_move (opcode : Z) (size : Size) : M Z :=
  val ← source opcode size;
  _ ← set_ccr_keep_x (mkCcr false false (Z.land val (size_mask size) =? 0) (Bv.is_negative val size) false);
  dst_ea ← decode (Z.land (Z.shiftr opcode 6) 7) (reg_of opcode);
  _ ← write_ea dst_ea size val;
  mret 4.
Definition moveq (opcode : Z) : M Z :=
  let imm := wrap32 (as_i8 opcode) in
  _ ← set_d (reg_of opcode) imm;
  _ ← set_ccr_keep_x (mkCcr false false (imm =? 0) (any_bit imm 0x80000000) false);
  mret 4.

(** ** Arithmetic and logic *)

(** [<op> <ea>, Dn]: the operation, and what it does with the flags *)
Definition ea_to_dn (opcode : Z) (op : Z → Z → Size → Z * Ccr) (flags : Ccr → M unit) : M Z :=
  size ← lift (opmode_size_012 (opmode_of opcode));
  src ← source opcode size;
  d ← get_d (reg_of opcode);
  let '(result, ccr) := op (Z.land d (size_mask size)) src size in
  _ ← merge_d (reg_of opcode) size result;
  _ ← flags ccr;
  mret 4.
(** [<op> Dn, <ea>]: the operand is read, and the result written, through the
    effective address *)
Definition dn_to_ea (opcode : Z) (op : Z → Z → Size → Z * Ccr) (flags : Ccr → M unit) : M Z :=
  size ← lift (opmode_size_456 (opmode_of opcode));
  dst_ea ← decode_ea opcode;
  dst ← read_ea dst_ea size;
  d ← get_d (reg_of opcode);
  let '(result, ccr) := op dst (Z.land d (size_mask size)) size in
  _ ← write_ea dst_ea size result;
  _ ← flags ccr;
  mret 8.
Definition to_an (opcode : Z) (size : Size) (op : Z → Z → Z) : M Z :=
  src ← source opcode size;
  let src32 := match size with Word => Bv.sign_extend src Word | _ => src end in
  a ← get_a (reg_of opcode);
  _ ← set_a (reg_of opcode) (op a src32);
  mret 8.
Definition add_group (opcode : Z) : M Z :=
  match opmode_of opcode with
  | 0 | 1 | 2 => ea_to_dn opcode Bv.add set_ccr
  | 4 | 5 | 6 => dn_to_ea opcode Bv.add set_ccr
  | 3 => to_an opcode Word wrapping_add32
  | 7 => to_an opcode Long wrapping_add32
  | _ => illegal
  end.
Definition sub_group (opcode : Z) : M Z :=
  match opmode_of opcode with
  | 0 | 1 | 2 => ea_to_dn opcode Bv.sub set_ccr
  | 4 | 5 | 6 => dn_to_ea opcode Bv.sub set_ccr
  | 3 => to_an opcode Word wrapping_sub32
  | 7 => to_an opcode Long wrapping_sub32
  | _ => illegal
  end.

(** ** Branches *)
Definition branch (opcode : Z) : M Z :=
  let condition := Z.land (Z.shiftr opcode 8) 0xF in
  let disp8 := as_i8 opcode in
  displacement ← (if disp8 =? 0 then w ← fetch_word; mret (as_i16 w) else mret disp8);
  pc ← get cpu_pc;
  let target := wrapping_add32 (if disp8 =? 0 then wrapping_sub32 pc 2 else pc) displacement in
  match condition with
  | 0 => _ ← put (set_cpu_pc target); mret 10
  | 1 => _ ← push32 pc; _ ← put (set_cpu_pc target); mret 18
  | _ =>
      b ← test_condition condition;
      if (b : bool) then _ ← put (set_cpu_pc target); mret 10 else mret 8
  end.

(** ** Immediate operations *)
Definition immediate (opcode : Z) (op : Z → Z → Size → Z * Ccr) (flags : Ccr → M unit) : M Z :=
  size ← lift (size_from_bits_6_7 opcode);
  imm ← read_ea Immediate size;
  dst_ea ← decode_ea opcode;
  dst ← read_ea dst_ea size;
  let '(result, ccr) := op dst imm size in
  _ ← write_ea dst_ea size result;
  _ ← flags ccr;
  mret 8.
Definition addi (opcode : Z) : M Z := immediate opcode Bv.add set_ccr.
Definition subi (opcode : Z) : M Z := immediate opcode Bv.sub set_ccr.
Definition ori (opcode : Z) : M Z := immediate opcode Bv.or set_ccr_keep_x.
Definition andi (opcode : Z) : M Z := immediate opcode Bv.and set_ccr_keep_x.
Definition eori (opcode : Z) : M Z := immediate opcode Bv.eor set_ccr_keep_x.
Definition cmpi (opcode : Z) : M Z :=
  size ← lift (size_from_bits_6_7 opcode);
  imm ← read_ea Immediate size;
  dst ← source opcode size;
  _ ← set_ccr_keep_x (Bv.cmp dst imm size);
  mret 8.
Definition group_0000 (opcode : Z) : M Z :=
  if Z.land opcode 0x00C0 =? 0x00C0 then illegal
  else
    match Z.land (Z.shiftr opcode 8) 0xF with
    | 0x0 => ori opcode
    | 0x2 => andi opcode
    | 0x4 => subi opcode
    | 0x6 => addi opcode
    | 0xA => eori opcode
    | 0xC => cmpi opcode
    | _ => illegal
    end.
(** ** Group 0x4 *)
Definition clr (opcode : Z) : M Z :=
  size ← lift (size_from_bits_6_7 opcode);
  dst_ea ← decode_ea opcode;
  _ ← write_ea dst_ea size 0;
  _ ← set_ccr_keep_x (mkCcr false false true false false);
  mret 4.
(** NEG, NEGX and NOT *)
Definition unary (opcode : Z) (op : Z → Size → Z * Ccr) (flags : Ccr → M unit) : M Z :=
  size ← lift (size_from_bits_6_7 opcode);
  dst_ea ← decode_ea opcode;
  val ← read_ea dst_ea size;
  let '(result, ccr) := op val size in
  _ ← write_ea dst_ea size result;
  _ ← flags ccr;
  mret 4.
Definition neg_op (opcode : Z) : M Z := unary opcode Bv.neg set_ccr.
Definition not_op (opcode : Z) : M Z := unary opcode Bv.not set_ccr_keep_x.
Definition negx (opcode : Z) : M Z :=
  size ← lift (size_from_bits_6_7 opcode);
  dst_ea ← decode_ea opcode;
  val ← read_ea dst_ea size;
  sr ← get cpu_sr;
  let '(result, ccr) := Bv.subx 0 val (Sr.x sr) (Sr.z sr) size in
  _ ← write_ea dst_ea size result;
  _ ← set_ccr ccr;
  mret 4.
Definition tst (opcode : Z) : M Z :=
  size ← lift (size_from_bits_6_7 opcode);
  val ← source opcode size;
  _ ← set_ccr_keep_x (mkCcr false false (Z.land val (size_mask size) =? 0) (Bv.is_negative val size) false);
  mret 4.
Definition ext_word (opcode : Z) : M Z :=
  d ← get_d (ea_reg_of opcode);
  let val := wrap16 (as_i8 d) in
  _ ← set_d (ea_reg_of opcode) (Z.lor (Z.land d 0xFFFF0000) val);
  _ ← set_ccr_keep_x (mkCcr false false (Z.land val 0xFFFF =? 0) (any_bit val 0x8000) false);
  mret 4.
Definition ext_long (opcode : Z) : M Z :=
  d ← get_d (ea_reg_of opcode);
  let val := wrap32 (as_i16 d) in
  _ ← set_d (ea_reg_of opcode) val;
  _ ← set_ccr_keep_x (mkCcr false false (val =? 0) (any_bit val 0x80000000) false);
  mret 4.
Definition swap (opcode : Z) : M Z :=
  val ← get_d (ea_reg_of opcode);
  let result := Z.lor (Z.shiftr val 16) (wrap32 (Z.shiftl val 16)) in
  _ ← set_d (ea_reg_of opcode) result;
  _ ← set_ccr_keep_x (mkCcr false false (result =? 0) (any_bit result 0x80000000) false);
  mret 4.
Definition address (opcode : Z) : M Z := ea ← decode_ea opcode; effective_addr ea Long.
Definition lea (opcode : Z) : M Z := addr ← address opcode; _ ← set_a (reg_of opcode) addr; mret 4.
Definition pea (opcode : Z) : M Z := addr ← address opcode; _ ← push32 addr; mret 12.
Definition jsr (opcode : Z) : M Z :=
  addr ← address opcode; pc ← get cpu_pc; _ ← push32 pc; _ ← put (set_cpu_pc addr); mret 16.
Definition jmp (opcode : Z) : M Z := addr ← address opcode; _ ← put (set_cpu_pc addr); mret 8.

(** *** MOVEM *)
Definition movem_bit (mask bit : Z) : bool := any_bit mask (Z.shiftl 1 bit).
(** The first address of the modes other than pre-decrement and post-increment *)
Definition movem_addr (ea : Ea) : option (M Z) :=
  match ea with
  | AddrIndirect r => Some (get_a r)
  | Displacement r d => Some (a ← get_a r; lift (add_i32_u32 (as_i32 a) d))
  | AbsoluteLong a => Some (mret a)
  | AbsoluteWord a => Some (mret (wrap32 (as_i16 a)))
  | _ => None
  end.
Definition movem_width (long : bool) : Z := if long then 4 else 2.
Definition movem_store (long : bool) (addr val : Z) : M unit :=
  to_bus (λ b, if long then write32 b addr val else write16 b addr (wrap16 val)).
Definition movem_load (long : bool) (addr : Z) : M Z :=
  if long then on_bus (λ b, read32 b addr)
  else w ← on_bus (λ b, read16 b addr); mret (wrap32 (as_i16 w)).
Definition reg_of_bit (bit : Z) : M Z := if bit <? 8 then get_d bit else get_a (bit - 8).
Definition set_reg_of_bit (bit val : Z) : M unit := if bit <? 8 then set_d bit val else set_a (bit - 8) val.

Fixpoint store_regs (long : bool) (mask : Z) (bits : list Z) (addr : Z) : M unit :=
  match bits with
  | [] => mret tt
  | bit :: bits =>
      if movem_bit mask bit then
        val ← reg_of_bit bit;
        _ ← movem_store long addr val;
        store_regs long mask bits (wrapping_add32 addr (movem_width long))
      else store_regs long mask bits addr
  end.
Fixpoint load_regs (long : bool) (mask : Z) (bits : list Z) (addr : Z) : M unit :=
  match bits with
  | [] => mret tt
  | bit :: bits =>
      if movem_bit mask bit then
        val ← movem_load long addr;
        _ ← set_reg_of_bit bit val;
        load_regs long mask bits (wrapping_add32 addr (movem_width long))
      else load_regs long mask bits addr
  end.
Definition movem_to_mem (opcode : Z) : M Z :=
  let long := any_bit opcode 0x0040 in
  mask ← fetch_word;
  if ea_mode_of opcode =? 4 then
    let an := ea_reg_of opcode in
    _ ← for_bits BITS (λ bit,
          if movem_bit mask bit then
            val ← (if bit <? 8 then get_a (7 - bit) else get_d (15 - bit));
            a ← get_a an;
            _ ← set_a an (wrapping_sub32 a (movem_width long));
            a ← get_a an;
            movem_store long a val
          else mret tt);
    mret 8
  else
    ea ← decode_ea opcode;
    match movem_addr ea with
    | Some addr => addr ← addr; _ ← store_regs long mask BITS addr; mret 8
    | None => _ ← illegal; mret 4
    end.
Definition movem_to_reg (opcode : Z) : M Z :=
  let long := any_bit opcode 0x0040 in
  mask ← fetch_word;
  if ea_mode_of opcode =? 3 then
    let an := ea_reg_of opcode in
    _ ← for_bits BITS (λ bit,
          if movem_bit mask bit then
            addr ← get_a an;
            val ← movem_load long addr;
            a ← get_a an;
            _ ← set_a an (wrapping_add32 a (movem_width long));
            set_reg_of_bit bit val
          else mret tt);
    mret 12
  else
    ea ← decode_ea opcode;
    match movem_addr ea with
    | Some addr => addr ← addr; _ ← load_regs long mask BITS addr; mret 12
    | None => _ ← illegal; mret 4
    end.

(** *** The status register *)
Definition move_from_sr (opcode : Z) : M Z :=
  privileged 6 (ea ← decode_ea opcode; sr ← get cpu_sr; _ ← write_ea ea Word sr; mret 6).
Definition move_to_ccr (opcode : Z) : M Z :=
  val ← source opcode Word;
  _ ← put (λ c, set_cpu_sr (Z.lor (Z.land (cpu_sr c) 0xFF00) (Z.land (wrap16 val) 0xFF)) c);
  mret 12.
Definition move_to_sr (opcode : Z) : M Z :=
  privileged 12 (val ← source opcode Word; _ ← set_sr_value (wrap16 val); mret 12).

Definition stop : M Z :=
  privileged 4 (imm ← fetch_word; _ ← set_sr_value imm; _ ← put (set_cpu_halted true); mret 4).
Definition rte : M Z :=
  privileged 20 (new_sr ← pop16; new_pc ← pop32; _ ← set_sr_value new_sr; _ ← put (set_cpu_pc new_pc); mret 20).
Definition rtr : M Z :=
  ccr ← pop16;
  pc ← pop32;
  _ ← put (set_cpu_pc pc);
  _ ← put (λ c, set_cpu_sr (Z.lor (Z.land (cpu_sr c) 0xFF00) (wrap8 ccr)) c);
  mret 20.
Definition link (opcode : Z) : M Z :=
  let an := ea_reg_of opcode in
  disp ← fetch_word;
  a ← get_a an;
  _ ← push32 a;
  sp ← get_a 7;
  _ ← set_a an sp;
  sp ← get_a 7;
  sp ← lift (add_i32_u32 (as_i32 sp) (as_i16 disp));
  _ ← set_a 7 sp;
  mret 16.
Definition unlk (opcode : Z) : M Z :=
  let an := ea_reg_of opcode in
  a ← get_a an;
  _ ← set_a 7 a;
  v ← pop32;
  _ ← set_a an v;
  mret 12.

Definition group_0100_sub (opcode : Z) : M Z :=
  let size_bits := Z.land opcode 0xC0 in
  let or_lea := if Z.land opcode 0x01C0 =? 0x01C0 then lea opcode else illegal in
  match Z.land (Z.shiftr opcode 8) 0xF with
  | 0x0 => if size_bits =? 0xC0 then move_from_sr opcode else negx opcode
  | 0x2 => if negb (size_bits =? 0xC0) then clr opcode else or_lea
  | 0x4 => if size_bits =? 0xC0 then move_to_ccr opcode else neg_op opcode
  | 0x6 => if size_bits =? 0xC0 then move_to_sr opcode else not_op opcode
  | 0x8 =>
      if Z.land opcode 0xFFF8 =? 0x4840 then swap opcode
      else if Z.land opcode 0xFFF8 =? 0x4880 then ext_word opcode
      else if Z.land opcode 0xFFF8 =? 0x48C0 then ext_long opcode
      else if Z.land opcode 0xFF80 =? 0x4880 then movem_to_mem opcode
      else if size_bits =? 0x40 then pea opcode
      else or_lea
  | 0xA => if negb (size_bits =? 0xC0) then tst opcode else or_lea
  | 0xC => if Z.land opcode 0xFF80 =? 0x4C80 then movem_to_reg opcode else or_lea
  | 0xE => if size_bits =? 0x80 then jsr opcode else if size_bits =? 0xC0 then jmp opcode else or_lea
  | _ => or_lea
  end.
Definition group_0100 (opcode : Z) : M Z :=
  if opcode =? 0x4E71 then mret 4
  else if opcode =? 0x4E75 then pc ← pop32; _ ← put (set_cpu_pc pc); mret 16
  else if opcode =? 0x4E70 then privileged 34 (mret 20)
  else if opcode =? 0x4E72 then stop
  else if opcode =? 0x4E73 then rte
  else if opcode =? 0x4E76 then
    sr ← get cpu_sr;
    _ ← (if Sr.v sr then trap 7 else mret tt);
    mret 4
  else if opcode =? 0x4E77 then rtr
  else if Z.land opcode 0xFFF0 =? 0x4E40 then _ ← trap (32 + Z.land opcode 0x0F); mret 34
  else if Z.land opcode 0xFFF8 =? 0x4E60 then
    privileged 4 (a ← get_a (ea_reg_of opcode); _ ← put (set_cpu_usp a); mret 4)
  else if Z.land opcode 0xFFF8 =? 0x4E68 then
    privileged 4 (usp ← get cpu_usp; _ ← set_a (ea_reg_of opcode) usp; mret 4)
  else if Z.land opcode 0xFFF8 =? 0x4E50 then link opcode
  else if Z.land opcode 0xFFF8 =? 0x4E58 then unlk opcode
  else group_0100_sub opcode.

(** ** Group 0x5 *)
Definition quick (opcode : Z) : Z := let imm := reg_of opcode in if imm =? 0 then 8 else imm.
Definition addq_subq (opcode : Z) (on_an : Z → Z → Z) (op : Z → Z → Size → Z * Ccr) : M Z :=
  size ← lift (size_from_bits_6_7 opcode);
  let imm := quick opcode in
  if ea_mode_of opcode =? 1 then
    a ← get_a (ea_reg_of opcode);
    _ ← set_a (ea_reg_of opcode) (on_an a imm);
    mret 4
  else
    dst_ea ← decode_ea opcode;
    dst ← read_ea dst_ea size;
    let '(result, ccr) := op dst imm size in
    _ ← write_ea dst_ea size result;
    _ ← set_ccr ccr;
    mret 4.
Definition addq (opcode : Z) : M Z := addq_subq opcode wrapping_add32 Bv.add.
Definition subq (opcode : Z) : M Z := addq_subq opcode wrapping_sub32 Bv.sub.
Definition scc (opcode : Z) : M Z :=
  dst_ea ← decode_ea opcode;
  b ← test_condition (Z.land (Z.shiftr opcode 8) 0xF);
  _ ← write_ea dst_ea Byte (if (b : bool) then 0xFF else 0x00);
  mret 4.
Definition dbcc (opcode : Z) : M Z :=
  disp ← fetch_word;
  b ← test_condition (Z.land (Z.shiftr opcode 8) 0xF);
  if (b : bool) then mret 12
  else
    d ← get_d (ea_reg_of opcode);
    let counter := wrap16 (wrap16 d - 1) in
    _ ← set_d (ea_reg_of opcode) (Z.lor (Z.land d 0xFFFF0000) counter);
    if negb (counter =? 0xFFFF) then
      pc ← get cpu_pc;
      _ ← put (set_cpu_pc (wrapping_add32 (wrapping_sub32 pc 2) (as_i16 disp)));
      mret 10
    else mret 14.
Definition group_0101 (opcode : Z) : M Z :=
  if Z.land opcode 0x00C0 =? 0x00C0 then
    if Z.land opcode 0x0038 =? 0x0008 then dbcc opcode else scc opcode
  else if Z.land opcode 0x0100 =? 0 then addq opcode
  else subq opcode.

(** ** Multiplication and division *)
Definition store_quotient (opcode : Z) (cycles : Z) (r : option (Z * Ccr)) : M Z :=
  match r with
  | None => _ ← trap 5; mret 38
  | Some (result, ccr) =>
      _ ← (if negb (ccr_v ccr) then set_d (reg_of opcode) result else mret tt);
      _ ← set_ccr_keep_x ccr;
      mret cycles
  end.
Definition divu (opcode : Z) : M Z :=
  divisor ← source opcode Word;
  dividend ← get_d (reg_of opcode);
  store_quotient opcode 140 (Bv.divu dividend (wrap16 divisor)).
Definition divs_op (opcode : Z) : M Z :=
  divisor ← source opcode Word;
  dividend ← get_d (reg_of opcode);
  r ← lift (Bv.divs dividend (wrap16 divisor));
  store_quotient opcode 158 r.
Definition mul_op (opcode : Z) (op : Z → Z → Z * Ccr) : M Z :=
  src ← source opcode Word;
  dst ← get_d (reg_of opcode);
  let '(result, ccr) := op (wrap16 dst) (wrap16 src) in
  _ ← set_d (reg_of opcode) result;
  _ ← set_ccr_keep_x ccr;
  mret 70.
Definition mulu_op (opcode : Z) : M Z := mul_op opcode Bv.mulu.
Definition muls_op (opcode : Z) : M Z := mul_op opcode Bv.muls.

Definition group_1000 (opcode : Z) : M Z :=
  match opmode_of opcode with
  | 3 => divu opcode
  | 7 => divs_op opcode
  | 0 | 1 | 2 => ea_to_dn opcode Bv.or set_ccr_keep_x
  | 4 | 5 | 6 => dn_to_ea opcode Bv.or set_ccr_keep_x
  | _ => illegal
  end.
Definition group_1100 (opcode : Z) : M Z :=
  match opmode_of opcode with
  | 3 => mulu_op opcode
  | 7 => muls_op opcode
  | 0 | 1 | 2 => ea_to_dn opcode Bv.and set_ccr_keep_x
  | 4 | 5 | 6 => dn_to_ea opcode Bv.and set_ccr_keep_x
  | _ => illegal
  end.

(** ** Group 0xB: comparison and exclusive or *)
Definition cmp_dn (opcode : Z) : M Z :=
  size ← lift (opmode_size_012 (opmode_of opcode));
  src ← source opcode size;
  d ← get_d (reg_of opcode);
  _ ← set_ccr_keep_x (Bv.cmp (Z.land d (size_mask size)) src size);
  mret 4.
Definition cmp_an (opcode : Z) (size : Size) : M Z :=
  src ← source opcode size;
  let src32 := match size with Word => Bv.sign_extend src Word | _ => src end in
  a ← get_a (reg_of opcode);
  _ ← set_ccr_keep_x (Bv.cmp a src32 Long);
  mret 6.
Definition group_1011 (opcode : Z) : M Z :=
  match opmode_of opcode with
  | 0 | 1 | 2 => cmp_dn opcode
  | 3 => cmp_an opcode Word
  | 7 => cmp_an opcode Long
  | 4 | 5 | 6 => dn_to_ea opcode (λ dst src size, Bv.eor src dst size) set_ccr_keep_x
  | _ => illegal
  end.

(** ** Group 0xE: shifts and rotates *)
Definition shift_count (opcode : Z) : M Z :=
  let count_field := reg_of opcode in
  if Z.land (Z.shiftr opcode 5) 1 =? 1 then d ← get_d count_field; mret (d mod 64)
  else mret (if count_field =? 0 then 8 else count_field).
Definition shift_op (opcode val count : Z) (size : Size) (sr : Z) : Z * Ccr :=
  let left := Z.land (Z.shiftr opcode 8) 1 =? 1 in
  match Z.land (Z.shiftr opcode 3) 3 with
  | 0 => if left then Bv.asl val count size else Bv.asr val count size
  | 1 => if left then Bv.lsl val count size else Bv.lsr val count size
  | 3 => if left then Bv.rol val count size else Bv.ror val count size
  | _ => (Z.land val (size_mask size), Sr.ccr sr)
  end.
Definition shift_group (opcode : Z) : M Z :=
  size ← lift (size_from_bits_6_7 opcode);
  count ← shift_count opcode;
  val ← get_d (ea_reg_of opcode);
  sr ← get cpu_sr;
  let '(result, ccr) := shift_op opcode val count size sr in
  let ccr := if count =? 0 then with_x (Sr.x sr) ccr else ccr in
  _ ← merge_d (ea_reg_of opcode) size result;
  _ ← set_ccr ccr;
  mret (6 + 2 * count).

(** ** The step *)
Definition execute (opcode : Z) : M Z :=
  match Z.shiftr opcode 12 with
  | 0x0 => group_0000 opcode
  | 0x1 => do_move opcode Byte
  | 0x2 => do_move opcode Long
  | 0x3 => do_move opcode Word
  | 0x4 => group_0100 opcode
  | 0x5 => group_0101 opcode
  | 0x6 => branch opcode
  | 0x7 => moveq opcode
  | 0x8 => group_1000 opcode
  | 0x9 => sub_group opcode
  | 0xB => group_1011 opcode
  | 0xC => group_1100 opcode
  | 0xD => add_group opcode
  | 0xE => shift_group opcode
  | _ => illegal
  end.

Definition accepted (irq sr : Z) : bool := (0 <? irq) && ((Sr.ipl_mask sr <? irq) || (irq =? 7)).
Definition halted_step : M Z :=
  irq ← get (λ c, pending_irq (cpu_bus c));
  sr ← get cpu_sr;
  if accepted irq sr then
    _ ← put (set_cpu_halted false);
    _ ← accept_interrupt irq;
    mret 44
  else
    _ ← to_bus (λ b, tick b 4);
    mret 4.
Definition step : M Z :=
  halted ← get cpu_halted;
  if (halted : bool) then halted_step
  else
    opcode ← fetch_word;
    cycles ← execute opcode;
    fault ← get (λ c, bus_fault (cpu_bus c));
    if is_some fault then
      _ ← put (λ c, set_cpu_bus (clear_bus_fault (cpu_bus c)) c);
      _ ← trap 2;
      mret cycles
    else
      _ ← to_bus (λ b, tick b cycles);
      irq ← get (λ c, pending_irq (cpu_bus c));
      sr ← get cpu_sr;
      _ ← (if accepted irq sr then accept_interrupt irq else mret tt);
      mret cycles.
End machine.
