(* ===== verification/Bv68Facts.v ===== *)
(** * What the arithmetic of the MC68000 computes

    The masked operations of [Bv68] against integers: an operand of size [s] read as
    unsigned ([uns]) or in two's complement ([sgn]). *)

From S2P Require Import Prelude Bv68 Bus68 Cpu68.

Definition uns (s : Size) (x : Z) : Z := x mod 2 ^ size_bits s.
Definition sgn (s : Size) (x : Z) : Z := if uns s x <? size_msb s then uns s x else uns s x - 2 ^ size_bits s.

(** ** Masks and bits *)
Lemma size_mask_ones s : size_mask s = Z.ones (size_bits s).
Proof. by destruct s. Qed.
Lemma size_msb_pow s : size_msb s = 2 ^ (size_bits s - 1).
Proof. by destruct s. Qed.
Lemma size_pow s : 2 ^ size_bits s = 2 * size_msb s.
Proof. by destruct s. Qed.
Lemma size_msb_pos s : 128 ≤ size_msb s.
Proof. by destruct s. Qed.
Lemma size_bits_pos s : 8 ≤ size_bits s ≤ 32.
Proof. by destruct s. Qed.
Lemma land_mask x s : Z.land x (size_mask s) = uns s x.
Proof. rewrite size_mask_ones. apply Z.land_ones. by destruct s. Qed.
Lemma uns_range s x : 0 ≤ uns s x < 2 * size_msb s.
Proof. unfold uns. rewrite size_pow. apply Z.mod_pos_bound. by destruct s. Qed.
Lemma sgn_range s x : - size_msb s ≤ sgn s x < size_msb s.
Proof. unfold sgn. rewrite size_pow. pose proof (uns_range s x). destruct (Z.ltb_spec (uns s x) (size_msb s)); lia. Qed.
Lemma uns_small s x : 0 ≤ x < 2 * size_msb s → uns s x = x.
Proof. intros. unfold uns. rewrite size_pow. by apply Z.mod_small. Qed.
Lemma uns_uns s x : uns s (uns s x) = uns s x.
Proof. apply uns_small, uns_range. Qed.

Lemma any_bit_pow x k : 0 ≤ k → any_bit x (2 ^ k) = Z.testbit x k.
Proof.
  intros Hk. unfold any_bit. destruct (Z.testbit x k) eqn:E.
  - destruct (Z.eqb_spec (Z.land x (2 ^ k)) 0) as [H|H]; [|done].
    apply (f_equal (λ z, Z.testbit z k)) in H. rewrite Z.land_spec, E, Z.pow2_bits_true, Z.bits_0 in H by done. done.
  - destruct (Z.eqb_spec (Z.land x (2 ^ k)) 0) as [H|H]; [done|]. destruct H. apply Z.bits_inj'. intros n Hn.
    rewrite Z.land_spec, Z.bits_0. destruct (decide (n = k)) as [->|]; [by rewrite E|].
    rewrite Z.pow2_bits_false by lia. apply andb_false_r.
Qed.
Lemma testbit_top x k : 0 ≤ k → 0 ≤ x < 2 * 2 ^ k → Z.testbit x k = (2 ^ k <=? x).
Proof.
  intros Hk Hx. rewrite Z.testbit_odd, Z.shiftr_div_pow2 by done.
  assert (0 < 2 ^ k) by (apply Z.pow_pos_nonneg; lia).
  destruct (Z.leb_spec (2 ^ k) x).
  - replace (x / 2 ^ k) with 1; [done|]. apply (Z.div_unique x (2 ^ k) 1 (x - 2 ^ k)); lia.
  - by rewrite Z.div_small by lia.
Qed.
Lemma any_msb s x : any_bit x (size_msb s) = Z.testbit x (size_bits s - 1).
Proof. rewrite size_msb_pow. apply any_bit_pow. pose proof (size_bits_pos s). lia. Qed.
Lemma top_bit s x : 0 ≤ x < 2 * size_msb s → Z.testbit x (size_bits s - 1) = (size_msb s <=? x).
Proof. rewrite size_msb_pow. apply testbit_top. pose proof (size_bits_pos s). lia. Qed.
Lemma top_of_not32 s x : Z.testbit (not32 x) (size_bits s - 1) = negb (Z.testbit x (size_bits s - 1)).
Proof.
  unfold not32. rewrite Z.lxor_spec. replace (Z.testbit u32_max (size_bits s - 1)) with true by (by destruct s).
  apply xorb_true_r.
Qed.
Lemma uns_wrap32 s x : uns s (wrap32 x) = uns s x.
Proof.
  unfold uns, wrap32, U32. apply Z.mod_mod_divide. destruct s; [exists (2 ^ 24)|exists (2 ^ 16)|exists 1]; done.
Qed.

(** The sum and the difference of two masked operands *)
Lemma uns_add s a b : uns s (uns s a + uns s b) =
  if uns s a + uns s b <? 2 * size_msb s then uns s a + uns s b else uns s a + uns s b - 2 * size_msb s.
Proof.
  pose proof (uns_range s a). pose proof (uns_range s b). destruct (Z.ltb_spec (uns s a + uns s b) (2 * size_msb s)).
  - apply uns_small. lia.
  - unfold uns at 1. rewrite size_pow. symmetry. apply (Z.mod_unique _ _ 1); lia.
Qed.
Lemma uns_sub s a b : uns s (uns s a - uns s b) =
  if uns s b <=? uns s a then uns s a - uns s b else uns s a - uns s b + 2 * size_msb s.
Proof.
  pose proof (uns_range s a). pose proof (uns_range s b). destruct (Z.leb_spec (uns s b) (uns s a)).
  - apply uns_small. lia.
  - unfold uns at 1. rewrite size_pow. symmetry. apply (Z.mod_unique _ _ (-1)); lia.
Qed.

(** Decide the comparisons in the goal. *)
Ltac split_cmp :=
  repeat match goal with
  | |- context [if ?a <? ?b then _ else _] => destruct (Z.ltb_spec a b)
  | |- context [if ?a <=? ?b then _ else _] => destruct (Z.leb_spec a b)
  | |- context [?a <? ?b] => destruct (Z.ltb_spec a b)
  | |- context [?a <=? ?b] => destruct (Z.leb_spec a b)
  | |- context [?a =? ?b] => destruct (Z.eqb_spec a b)
  end; try reflexivity; try lia.

(** ** Addition and subtraction *)
Lemma add_spec a b s : Bv.add a b s =
  let r := uns s (uns s a + uns s b) in
  let c := 2 * size_msb s <=? uns s a + uns s b in
  (r, mkCcr c (negb (bool_decide (- size_msb s ≤ sgn s a + sgn s b < size_msb s))) (r =? 0) (size_msb s <=? r) c).
Proof.
  unfold Bv.add, Bv.carry, wrapping_add32. rewrite !land_mask, uns_wrap32, !any_msb.
  rewrite !Z.land_spec, top_of_not32, !Z.lxor_spec, !top_bit by apply uns_range.
  replace (size_mask s <? uns s a + uns s b) with (2 * size_msb s <=? uns s a + uns s b).
  2:{ replace (size_mask s) with (2 * size_msb s - 1) by (by destruct s). split_cmp. }
  cbv zeta. do 2 f_equal. unfold sgn. rewrite size_pow, uns_add.
  pose proof (uns_range s a). pose proof (uns_range s b).
  destruct (Z.ltb_spec (uns s a) (size_msb s)), (Z.ltb_spec (uns s b) (size_msb s)); case_bool_decide; split_cmp.
Qed.
Lemma sub_spec a b s : Bv.sub a b s =
  let r := uns s (uns s a - uns s b) in
  let c := uns s a <? uns s b in
  (r, mkCcr c (negb (bool_decide (- size_msb s ≤ sgn s a - sgn s b < size_msb s))) (r =? 0) (size_msb s <=? r) c).
Proof.
  unfold Bv.sub, wrapping_sub32. rewrite !land_mask, uns_wrap32, !any_msb.
  rewrite !Z.land_spec, !Z.lxor_spec, !top_bit by apply uns_range.
  cbv zeta. do 2 f_equal. unfold sgn. rewrite size_pow, uns_sub.
  pose proof (uns_range s a). pose proof (uns_range s b).
  destruct (Z.ltb_spec (uns s a) (size_msb s)), (Z.ltb_spec (uns s b) (size_msb s)); case_bool_decide; split_cmp.
Qed.

(** The signed reading of a difference, when it does not overflow *)
Lemma sgn_order s a b : (size_msb s <=? uns s (uns s a - uns s b)) =
  xorb (negb (bool_decide (- size_msb s ≤ sgn s a - sgn s b < size_msb s))) (sgn s a <? sgn s b).
Proof.
  rewrite uns_sub. unfold sgn. rewrite size_pow. pose proof (uns_range s a). pose proof (uns_range s b).
  destruct (Z.ltb_spec (uns s a) (size_msb s)), (Z.ltb_spec (uns s b) (size_msb s)); case_bool_decide; split_cmp.
Qed.
Lemma uns_eq s a b : (uns s (uns s a - uns s b) =? 0) = (uns s a =? uns s b).
Proof. rewrite uns_sub. pose proof (uns_range s a). pose proof (uns_range s b). split_cmp. Qed.
Lemma sgn_inj s a b : (sgn s a =? sgn s b) = (uns s a =? uns s b).
Proof. unfold sgn. rewrite size_pow. pose proof (uns_range s a). pose proof (uns_range s b). split_cmp. Qed.

(** ** Flags in the status register *)
Lemma to_byte_range k : 0 ≤ to_byte k < 32.
Proof. by destruct k as [[] [] [] [] []]. Qed.
Lemma from_to_byte k : from_byte (to_byte k) = k.
Proof. by destruct k as [[] [] [] [] []]. Qed.
Lemma set_ccr_flag k sr i : 0 ≤ i < 5 → any_bit (Sr.set_ccr k sr) (2 ^ i) = Z.testbit (to_byte k) i.
Proof.
  intros Hi. unfold Sr.set_ccr. rewrite any_bit_pow, Z.lor_spec, Z.land_spec by lia.
  replace (Z.testbit 0xFF00 i) with false; [by rewrite andb_false_r|].
  assert (i = 0 ∨ i = 1 ∨ i = 2 ∨ i = 3 ∨ i = 4) as [|[|[|[|]]]] by lia; by subst.
Qed.
Lemma set_ccr_c k sr : Sr.c (Sr.set_ccr k sr) = ccr_c k.
Proof. etrans; [apply (set_ccr_flag k sr 0); lia|]. by destruct k as [[] [] [] [] []]. Qed.
Lemma set_ccr_v k sr : Sr.v (Sr.set_ccr k sr) = ccr_v k.
Proof. etrans; [apply (set_ccr_flag k sr 1); lia|]. by destruct k as [[] [] [] [] []]. Qed.
Lemma set_ccr_z k sr : Sr.z (Sr.set_ccr k sr) = ccr_z k.
Proof. etrans; [apply (set_ccr_flag k sr 2); lia|]. by destruct k as [[] [] [] [] []]. Qed.
Lemma set_ccr_n k sr : Sr.n (Sr.set_ccr k sr) = ccr_n k.
Proof. etrans; [apply (set_ccr_flag k sr 3); lia|]. by destruct k as [[] [] [] [] []]. Qed.
Lemma set_ccr_x k sr : Sr.x (Sr.set_ccr k sr) = ccr_x k.
Proof. etrans; [apply (set_ccr_flag k sr 4); lia|]. by destruct k as [[] [] [] [] []]. Qed.

(** ** Comparison *)

(** What the condition [cc] says of the operands of a comparison: the unsigned and the
    signed orders, equality, and the sign and overflow of the difference *)
Definition condition_holds (cc : Z) (s : Size) (a b : Z) : option bool :=
  match cc with
  | 0x0 => Some true
  | 0x1 => Some false
  | 0x2 => Some (uns s b <? uns s a)
  | 0x3 => Some (uns s a <=? uns s b)
  | 0x4 => Some (uns s b <=? uns s a)
  | 0x5 => Some (uns s a <? uns s b)
  | 0x6 => Some (negb (uns s a =? uns s b))
  | 0x7 => Some (uns s a =? uns s b)
  | 0x8 => Some (bool_decide (- size_msb s ≤ sgn s a - sgn s b < size_msb s))
  | 0x9 => Some (negb (bool_decide (- size_msb s ≤ sgn s a - sgn s b < size_msb s)))
  | 0xA => Some (negb (size_msb s <=? uns s (a - b)))
  | 0xB => Some (size_msb s <=? uns s (a - b))
  | 0xC => Some (sgn s b <=? sgn s a)
  | 0xD => Some (sgn s a <? sgn s b)
  | 0xE => Some (sgn s b <? sgn s a)
  | 0xF => Some (sgn s a <=? sgn s b)
  | _ => None
  end.

(** Every conditional branch after a comparison is exact.  Once CMP has set the
    flags for operands [a] and [b] of any size, each of the sixteen conditions holds
    exactly when its relation does: HI, LS, CC, CS on the unsigned values, GE, LT, GT,
    LE on the signed values - also when the difference overflows - and NE, EQ, VC, VS,
    PL, MI on the difference; any other code panics. *)
Theorem compare_conditions_exact `{Bus B} (c : Cpu B) (a b cc : Z) (s : Size) :
  (_ ← set_ccr_keep_x (Bv.cmp a b s); test_condition cc) c =
  match condition_holds cc s a b with
  | Some holds => Done (set_cpu_sr (Sr.set_ccr (with_x (Sr.x (cpu_sr c)) (Bv.cmp a b s)) (cpu_sr c)) c, holds)
  | None => Panic
  end.
Proof.
  unfold set_ccr_keep_x, test_condition, set_ccr, get, put, lift, mbind, cpuM_bind, outcome_bind. cbn [cpu_sr set_cpu_sr].
  set (sr := Sr.set_ccr _ _). set (c' := set_cpu_sr sr c).
  assert (Sr.c sr = (uns s a <? uns s b)) as -> by (unfold sr, Bv.cmp; by rewrite set_ccr_c, sub_spec).
  assert (Sr.z sr = (uns s a =? uns s b)) as -> by (unfold sr, Bv.cmp; by rewrite set_ccr_z, sub_spec, <- uns_eq).
  assert (Sr.v sr = negb (bool_decide (- size_msb s ≤ sgn s a - sgn s b < size_msb s))) as ->
    by (unfold sr, Bv.cmp; by rewrite set_ccr_v, sub_spec).
  assert (Sr.n sr = (size_msb s <=? uns s (a - b))) as Hn.
  { unfold sr, Bv.cmp. rewrite set_ccr_n, sub_spec. cbn. f_equal. unfold uns. by rewrite <- Zminus_mod. }
  assert (Sr.n sr = xorb (negb (bool_decide (- size_msb s ≤ sgn s a - sgn s b < size_msb s))) (sgn s a <? sgn s b)) as Hn'.
  { rewrite <- sgn_order. unfold sr, Bv.cmp. by rewrite set_ccr_n, sub_spec. }
  clearbody c' sr. pose proof (sgn_inj s a b) as Hinj. destruct cc as [|p|p]; [done| |done].
  unfold condition_holds. repeat (destruct p as [p|p|]; try done);
    try (by rewrite Hn); rewrite ?Hn'; clear Hn Hn'; do 2 f_equal; revert Hinj; repeat case_bool_decide; split_cmp.
Qed.

(** ** Shifts and rotates *)
Definition in_range (s : Size) (x : Z) : bool := (- size_msb s <=? x) && (x <? size_msb s).
(** The flags of a shift: carry and extend are the last bit shifted out. *)
Definition shift_flags (s : Size) (r : Z) (c v : bool) : Ccr := mkCcr c v (r =? 0) (size_msb s <=? r) c.

Lemma flags_top s r c v : 0 ≤ r < 2 * size_msb s → mkCcr c v (r =? 0) (any_bit r (size_msb s)) c = shift_flags s r c v.
Proof. intros Hr. unfold shift_flags. by rewrite any_msb, top_bit. Qed.
Lemma any_bit_0 x : any_bit x 1 = Z.testbit x 0.
Proof. by apply (any_bit_pow x 0). Qed.
Lemma uns_shift1 s x : uns s (wrap32 (Z.shiftl x 1)) = uns s (2 * x).
Proof. rewrite uns_wrap32, Z.shiftl_mul_pow2 by done. f_equal. lia. Qed.
Lemma uns_mul_l s x k : uns s (uns s x * k) = uns s (x * k).
Proof. unfold uns. apply Zmult_mod_idemp_l. Qed.
Lemma uns_sgn s x : uns s (sgn s x) = uns s x.
Proof.
  unfold sgn. rewrite size_pow. pose proof (uns_range s x). destruct (Z.ltb_spec (uns s x) (size_msb s)); [apply uns_uns|].
  unfold uns at 1. rewrite size_pow. symmetry. apply (Z.mod_unique _ _ (-1)); lia.
Qed.
Lemma testbit_uns s x k : k < size_bits s → Z.testbit (uns s x) k = Z.testbit x k.
Proof. intros Hk. unfold uns. destruct (decide (0 ≤ k)); [by apply Z.mod_pow2_bits_low|]. by rewrite !Z.testbit_neg_r by lia. Qed.

Lemma lsl_loop_spec n s x c : Bv.lsl_loop n s (uns s x) c =
  (uns s (x * 2 ^ Z.of_nat n), if decide (n = 0%nat) then c else Z.testbit (uns s x) (size_bits s - Z.of_nat n)).
Proof.
  revert x c. induction n as [|n IH]; intros x c.
  - cbn [Bv.lsl_loop]. by rewrite Z.mul_1_r.
  - cbn [Bv.lsl_loop]. rewrite land_mask, uns_shift1, any_msb, (Z.mul_comm 2), uns_mul_l, IH. f_equal.
    + f_equal. rewrite Nat2Z.inj_succ, Z.pow_succ_r by lia. lia.
    + destruct (decide (n = 0%nat)) as [->|Hn]; cbn [decide]; [f_equal; lia|].
      rewrite !testbit_uns by lia. rewrite (Z.mul_pow2_bits x 1) by lia. f_equal. lia.
Qed.

Lemma lsr_loop_spec n x c : Bv.lsr_loop n x c =
  (x / 2 ^ Z.of_nat n, if decide (n = 0%nat) then c else Z.testbit x (Z.of_nat n - 1)).
Proof.
  revert x c. induction n as [|n IH]; intros x c.
  - cbn [Bv.lsr_loop]. by rewrite Z.div_1_r.
  - cbn [Bv.lsr_loop]. rewrite any_bit_0, IH, Z.shiftr_div_pow2 by done. f_equal.
    + rewrite Nat2Z.inj_succ, Z.pow_succ_r by lia. by rewrite Z.div_div by (try apply Z.pow_pos_nonneg; lia).
    + destruct (decide (n = 0%nat)) as [->|Hn]; [done|]. cbn [decide].
      rewrite Z.div_pow2_bits by lia. cbn. f_equal. lia.
Qed.

(** The sign of a two's complement value is every bit above it. *)
Lemma sgn_top s x : Z.testbit (sgn s x) (size_bits s) = (sgn s x <? 0).
Proof.
  rewrite Z.testbit_odd, Z.shiftr_div_pow2, size_pow by (by destruct s). pose proof (sgn_range s x).
  destruct (Z.ltb_spec (sgn s x) 0); [|by rewrite Z.div_small by lia].
  replace (sgn s x / (2 * size_msb s)) with (-1); [done|]. apply (Z.div_unique _ _ _ (sgn s x + 2 * size_msb s)); lia.
Qed.
(** One step of an arithmetic shift right *)
Lemma asr_step s x : Z.land (Z.lor (Z.shiftr (uns s x) 1) (Z.land (uns s x) (size_msb s))) (size_mask s) = uns s (sgn s x / 2).
Proof.
  rewrite land_mask. pose proof (size_bits_pos s). unfold uns at 1 4. apply Z.bits_inj'. intros k Hk.
  destruct (decide (k < size_bits s)); [|by rewrite !Z.mod_pow2_bits_high by lia].
  rewrite !Z.mod_pow2_bits_low by lia. rewrite Z.lor_spec, Z.shiftr_spec, Z.land_spec by done.
  change 2 with (2 ^ 1). rewrite Z.div_pow2_bits by lia.
  rewrite size_msb_pow. destruct (decide (k = size_bits s - 1)) as [->|].
  - rewrite Z.pow2_bits_true, andb_true_r by lia. replace (size_bits s - 1 + 1) with (size_bits s) by lia.
    rewrite sgn_top, top_bit by apply uns_range. unfold uns at 1. rewrite Z.mod_pow2_bits_high by lia.
    unfold sgn. rewrite size_pow. pose proof (uns_range s x). cbn [orb]. split_cmp.
  - rewrite Z.pow2_bits_false, andb_false_r, orb_false_r by lia. rewrite <- (testbit_uns s (sgn s x)) by lia. by rewrite uns_sgn.
Qed.
Lemma sgn_half s x : sgn s (uns s (sgn s x / 2)) = sgn s x / 2.
Proof.
  pose proof (sgn_range s x). pose proof (size_msb_pos s). assert (- size_msb s ≤ sgn s x / 2 < size_msb s) as Hh.
  { pose proof (Z.div_mod (sgn s x) 2 ltac:(lia)). pose proof (Z.mod_pos_bound (sgn s x) 2 ltac:(lia)). lia. }
  revert Hh. generalize (sgn s x / 2). intros y Hy. unfold sgn. rewrite uns_uns, size_pow.
  destruct (decide (0 ≤ y)).
  - rewrite uns_small by lia. split_cmp.
  - replace (uns s y) with (y + 2 * size_msb s); [split_cmp|].
    unfold uns. rewrite size_pow. apply (Z.mod_unique _ _ (-1)); lia.
Qed.
Lemma asr_loop_spec n s x c : Bv.asr_loop n s (uns s x) c =
  (uns s (sgn s x / 2 ^ Z.of_nat n), if decide (n = 0%nat) then c else Z.testbit (sgn s x) (Z.of_nat n - 1)).
Proof.
  revert x c. induction n as [|n IH]; intros x c.
  - cbn [Bv.asr_loop]. by rewrite Z.div_1_r, uns_sgn.
  - cbn [Bv.asr_loop]. rewrite any_bit_0, asr_step, <- uns_uns, IH, sgn_half. f_equal.
    + f_equal. rewrite Nat2Z.inj_succ, Z.pow_succ_r by lia. by rewrite Z.div_div by (try apply Z.pow_pos_nonneg; lia).
    + destruct (decide (n = 0%nat)) as [->|Hn]; cbn [decide].
      * pose proof (size_bits_pos s). rewrite <- (testbit_uns s (sgn s x)) by (cbn; lia). by rewrite uns_sgn.
      * change 2 with (2 ^ 1). rewrite Z.div_pow2_bits by lia. f_equal. lia.
Qed.

(** The overflow of an arithmetic shift left is that of the multiplication. *)
Lemma land_msb s x : 0 ≤ x < 2 * size_msb s → Z.land x (size_msb s) = if size_msb s <=? x then size_msb s else 0.
Proof.
  intros Hx. rewrite <- top_bit by done. rewrite size_msb_pow. pose proof (size_bits_pos s). apply Z.bits_inj'. intros k Hk.
  rewrite Z.land_spec. destruct (decide (k = size_bits s - 1)) as [->|].
  - rewrite Z.pow2_bits_true, andb_true_r by lia. destruct (Z.testbit x _); [by rewrite Z.pow2_bits_true by lia|by rewrite Z.bits_0].
  - rewrite Z.pow2_bits_false, andb_false_r by lia.
    destruct (Z.testbit x _); [by rewrite Z.pow2_bits_false by lia|by rewrite Z.bits_0].
Qed.
Lemma uns_double s x : uns s (2 * uns s x) = if uns s x <? size_msb s then 2 * uns s x else 2 * uns s x - 2 * size_msb s.
Proof. replace (2 * uns s x) with (uns s x + uns s x) by lia. rewrite uns_add. split_cmp. Qed.
Lemma double_sign s x :
  negb (Z.land (uns s (2 * uns s x)) (size_msb s) =? Z.land (uns s x) (size_msb s)) = negb (in_range s (2 * sgn s x)).
Proof.
  rewrite !land_msb by apply uns_range. rewrite uns_double. unfold in_range, sgn. rewrite size_pow.
  pose proof (uns_range s x). pose proof (size_msb_pos s). destruct (Z.ltb_spec (uns s x) (size_msb s)); split_cmp.
Qed.
Lemma sgn_double s x : in_range s (2 * sgn s x) = true → sgn s (2 * x) = 2 * sgn s x.
Proof.
  intros Hr. assert (uns s (2 * x) = uns s (2 * uns s x)) as Hu by (unfold uns; by rewrite Zmult_mod_idemp_r).
  revert Hr. unfold in_range, sgn. rewrite Hu, uns_double, size_pow. pose proof (uns_range s x).
  destruct (Z.ltb_spec (uns s x) (size_msb s)); split_cmp.
Qed.
Lemma in_range_mul s x k : 0 < k → in_range s (x * k) = true → in_range s x = true.
Proof. unfold in_range. pose proof (size_msb_pos s). rewrite !andb_true_iff, !Z.leb_le, !Z.ltb_lt. nia. Qed.

Lemma asl_loop_spec n s x c v : Bv.asl_loop n s (uns s x) c v =
  (uns s (x * 2 ^ Z.of_nat n), if decide (n = 0%nat) then c else Z.testbit (uns s x) (size_bits s - Z.of_nat n),
   v || negb (in_range s (sgn s x * 2 ^ Z.of_nat n))).
Proof.
  revert x c v. induction n as [|n IH]; intros x c v.
  - cbn [Bv.asl_loop]. rewrite !Z.mul_1_r. unfold in_range. pose proof (sgn_range s x).
    replace (_ <=? _) with true by (symmetry; apply Z.leb_le; lia). replace (_ <? _) with true by (symmetry; apply Z.ltb_lt; lia).
    by rewrite orb_false_r.
  - cbn [Bv.asl_loop]. rewrite land_mask, uns_shift1, double_sign, any_msb. replace (2 * uns s x) with (uns s x * 2) by lia.
    rewrite uns_mul_l, IH. assert (0 < 2 ^ Z.of_nat n) by (apply Z.pow_pos_nonneg; lia).
    replace (x * 2 ^ Z.of_nat (S n)) with (x * 2 * 2 ^ Z.of_nat n) by (rewrite Nat2Z.inj_succ, Z.pow_succ_r by lia; lia).
    f_equal; [f_equal|].
    + destruct (decide (n = 0%nat)) as [->|Hn]; cbn [decide]; [f_equal; lia|].
      rewrite !testbit_uns by lia. rewrite (Z.mul_pow2_bits x 1) by lia. f_equal. lia.
    + replace (sgn s x * 2 ^ Z.of_nat (S n)) with (2 * sgn s x * 2 ^ Z.of_nat n)
        by (rewrite Nat2Z.inj_succ, Z.pow_succ_r by lia; lia).
      rewrite <- orb_assoc. f_equal. destruct (in_range s (2 * sgn s x)) eqn:E; cbn [negb orb].
      * by rewrite <- (sgn_double s x E), (Z.mul_comm x 2).
      * destruct (in_range s (2 * sgn s x * _)) eqn:E2; [|done]. apply in_range_mul in E2; [congruence|done].
Qed.

(** One step of a rotation moves every bit by one place. *)
Lemma rol_step s x k : 0 ≤ k < size_bits s →
  Z.testbit (Z.land (Z.lor (wrap32 (Z.shiftl (uns s x) 1)) (Z.b2z (any_bit (uns s x) (size_msb s)))) (size_mask s)) k =
  Z.testbit (uns s x) ((k - 1) mod size_bits s).
Proof.
  intros Hk. rewrite land_mask, testbit_uns, Z.lor_spec, any_msb by lia. unfold wrap32, U32.
  pose proof (size_bits_pos s). rewrite Z.mod_pow2_bits_low by lia. destruct (decide (k = 0)) as [->|].
  - rewrite Z.shiftl_spec_low, Z.b2z_bit0 by lia. cbn [orb]. f_equal. apply (Z.mod_unique _ _ (-1)); lia.
  - rewrite Z.shiftl_spec, Z.mod_small by lia. rewrite (Z.bits_above_log2 (Z.b2z _) k); [by rewrite orb_false_r|..].
    + by destruct (Z.testbit _ _).
    + destruct (Z.testbit _ _); cbn; lia.
Qed.
Lemma rol_loop_spec n s x c k : 0 ≤ k < size_bits s →
  Z.testbit (Bv.rol_loop n s (uns s x) c).1 k = Z.testbit (uns s x) ((k - Z.of_nat n) mod size_bits s).
Proof.
  revert x c k. induction n as [|n IH]; intros x c k Hk; cbn [Bv.rol_loop].
  - cbn [fst]. rewrite Z.sub_0_r, Z.mod_small by done. done.
  - pose proof (size_bits_pos s). assert (0 ≤ (k - Z.of_nat n) mod size_bits s < size_bits s) by (apply Z.mod_pos_bound; lia).
    rewrite land_mask, <- uns_uns, IH by done. rewrite uns_uns, <- land_mask, rol_step by done. f_equal.
    rewrite Zminus_mod_idemp_l. f_equal. lia.
Qed.
Lemma ror_step s x k : 0 ≤ k < size_bits s →
  Z.testbit (Z.land (Z.lor (Z.shiftr (uns s x) 1) (Z.b2z (any_bit (uns s x) 1) * size_msb s)) (size_mask s)) k =
  Z.testbit (uns s x) ((k + 1) mod size_bits s).
Proof.
  intros Hk. rewrite land_mask, testbit_uns, Z.lor_spec, any_bit_0, Z.shiftr_spec by lia. rewrite size_msb_pow.
  pose proof (size_bits_pos s). rewrite Z.mul_pow2_bits by lia. destruct (decide (k = size_bits s - 1)) as [->|].
  - replace (size_bits s - 1 + 1) with (size_bits s) by lia. unfold uns at 1. rewrite Z.mod_pow2_bits_high by lia.
    rewrite Z_mod_same_full, Z.sub_diag, Z.b2z_bit0. done.
  - rewrite (Z.testbit_neg_r _ (k - _)) by lia. rewrite orb_false_r, Z.mod_small by lia. done.
Qed.
Lemma ror_loop_spec n s x c k : 0 ≤ k < size_bits s →
  Z.testbit (Bv.ror_loop n s (uns s x) c).1 k = Z.testbit (uns s x) ((k + Z.of_nat n) mod size_bits s).
Proof.
  revert x c k. induction n as [|n IH]; intros x c k Hk; cbn [Bv.ror_loop].
  - cbn [fst]. rewrite Z.add_0_r, Z.mod_small by done. done.
  - pose proof (size_bits_pos s). assert (0 ≤ (k + Z.of_nat n) mod size_bits s < size_bits s) by (apply Z.mod_pos_bound; lia).
    rewrite land_mask, <- uns_uns, IH by done. rewrite uns_uns, <- land_mask, ror_step by done. f_equal.
    rewrite Zplus_mod_idemp_l. f_equal. lia.
Qed.

Lemma uns_div_range s x k : 0 ≤ k → 0 ≤ uns s x / 2 ^ k < 2 * size_msb s.
Proof.
  intros Hk. pose proof (uns_range s x). assert (0 < 2 ^ k) by (apply Z.pow_pos_nonneg; lia).
  split; [apply Z.div_pos; lia|]. eapply Z.le_lt_trans; [apply Z.div_le_upper_bound with (q := uns s x); nia|lia].
Qed.

(** A rotation stays within its size, and its carry is the bit that went round last. *)
Lemma rol_loop_carry n s x c :
  let '(r, c') := Bv.rol_loop n s (uns s x) c in
  0 ≤ r < 2 * size_msb s ∧ c' = if decide (n = 0%nat) then c else Z.testbit r 0.
Proof.
  revert x c. induction n as [|n IH]; intros x c; cbn [Bv.rol_loop]; [split; [apply uns_range|done]|].
  specialize (IH (Z.lor (wrap32 (Z.shiftl (uns s x) 1)) (Z.b2z (any_bit (uns s x) (size_msb s)))) (any_bit (uns s x) (size_msb s))).
  rewrite <- land_mask in IH. destruct (Bv.rol_loop n _ _ _) as [r c'] eqn:E in IH |- *. destruct IH as [Hr ->]. split; [done|].
  destruct n as [|n]; cbn [decide]; [|done]. cbn [Bv.rol_loop] in E. injection E as <-. pose proof (size_bits_pos s).
  rewrite rol_step by lia. rewrite any_msb. cbn. f_equal. apply (Z.mod_unique _ _ (-1)); lia.
Qed.
Lemma ror_loop_carry n s x c :
  let '(r, c') := Bv.ror_loop n s (uns s x) c in
  0 ≤ r < 2 * size_msb s ∧ c' = if decide (n = 0%nat) then c else Z.testbit r (size_bits s - 1).
Proof.
  revert x c. induction n as [|n IH]; intros x c; cbn [Bv.ror_loop]; [split; [apply uns_range|done]|].
  specialize (IH (Z.lor (Z.shiftr (uns s x) 1) (Z.b2z (any_bit (uns s x) 1) * size_msb s)) (any_bit (uns s x) 1)).
  rewrite <- land_mask in IH. destruct (Bv.ror_loop n _ _ _) as [r c'] eqn:E in IH |- *. destruct IH as [Hr ->]. split; [done|].
  destruct n as [|n]; cbn [decide]; [|done]. cbn [Bv.ror_loop] in E. injection E as <-. pose proof (size_bits_pos s).
  rewrite ror_step by lia. rewrite any_bit_0. f_equal. replace (size_bits s - 1 + 1) with (size_bits s) by lia. by rewrite Z_mod_same_full.
Qed.

(** The flags of a rotation: extend is not among them *)
Definition rotate_flags (s : Size) (r : Z) (c : bool) : Ccr := mkCcr c false (r =? 0) (size_msb s <=? r) false.

Lemma rotate_carry count n b : 0 < n →
  (if count =? 0 then false else if decide (Z.to_nat (count mod n) = 0%nat) then false else b) = negb (count mod n =? 0) && b.
Proof.
  intros Hn. pose proof (Z.mod_pos_bound count n Hn). destruct (Z.eqb_spec (count mod n) 0) as [E|E]; cbn [negb andb].
  - rewrite E. by destruct (count =? 0).
  - destruct (Z.eqb_spec count 0) as [->|]; [by rewrite Z.mod_0_l in E by lia|]. by rewrite decide_False by lia.
Qed.
Lemma rotates_exact (val count : Z) (s : Size) : 0 ≤ count →
  let moved := negb (count mod size_bits s =? 0) in
  (∃ r, Bv.rol val count s = (r, rotate_flags s r (moved && Z.testbit r 0)) ∧
     ∀ k, 0 ≤ k < size_bits s → Z.testbit r k = Z.testbit val ((k - count) mod size_bits s)) ∧
  (∃ r, Bv.ror val count s = (r, rotate_flags s r (moved && Z.testbit r (size_bits s - 1))) ∧
     ∀ k, 0 ≤ k < size_bits s → Z.testbit r k = Z.testbit val ((k + count) mod size_bits s)).
Proof.
  intros Hc moved. pose proof (size_bits_pos s).
  assert (∀ y, 0 ≤ y mod size_bits s < size_bits s) as Hm by (intros; apply Z.mod_pos_bound; lia).
  pose proof (Hm count) as Hr. unfold Bv.rol, Bv.ror. rewrite land_mask. split.
  - pose proof (rol_loop_carry (Z.to_nat (count mod size_bits s)) s val false) as Hf.
    destruct (Bv.rol_loop _ _ _ _) as [r c] eqn:E. destruct Hf as [Hb ->]. exists r. split.
    + unfold rotate_flags, moved. rewrite any_msb, top_bit by done. do 2 f_equal.
      apply rotate_carry. lia.
    + intros k Hk. replace r with (Bv.rol_loop (Z.to_nat (count mod size_bits s)) s (uns s val) false).1 by (by rewrite E).
      rewrite rol_loop_spec, Z2Nat.id, Zminus_mod_idemp_r by lia. by rewrite testbit_uns by apply Hm.
  - pose proof (ror_loop_carry (Z.to_nat (count mod size_bits s)) s val false) as Hf.
    destruct (Bv.ror_loop _ _ _ _) as [r c] eqn:E. destruct Hf as [Hb ->]. exists r. split.
    + unfold rotate_flags, moved. rewrite any_msb, top_bit by done. do 2 f_equal.
      apply rotate_carry. lia.
    + intros k Hk. replace r with (Bv.ror_loop (Z.to_nat (count mod size_bits s)) s (uns s val) false).1 by (by rewrite E).
      rewrite ror_loop_spec, Z2Nat.id, Zplus_mod_idemp_r by lia. by rewrite testbit_uns by apply Hm.
Qed.

Lemma in_range_sgn s x : in_range s (sgn s x) = true.
Proof. pose proof (sgn_range s x). unfold in_range. apply andb_true_iff. rewrite Z.leb_le, Z.ltb_lt. lia. Qed.
(** A shift by nothing *)
Lemma shift_none_exact val s : Bv.shift_none val s = (uns s val, shift_flags s (uns s val) false false).
Proof. unfold Bv.shift_none. rewrite land_mask. by rewrite flags_top by apply uns_range. Qed.

(** C38: The shift and rotate loops compute the right numbers.  For every operand and
    every count, zero included, ASL and LSL multiply by the power of two, ASR divides
    the signed value and LSR the unsigned one, rounding down; carry and extend are the
    last bit shifted out, and clear when nothing is shifted; ASL sets overflow exactly
    when the signed product does not fit; zero and negative are those of the result.
    ROL and ROR move each bit round by the count, leave extend and overflow clear, and
    their carry is the bit that went round last, or clear when the count is a multiple
    of the size. *)
Theorem shifts_exact (val count : Z) (s : Size) : 0 ≤ count →
  (let r := uns s (val * 2 ^ count) in
   Bv.asl val count s = (r, shift_flags s r (Z.testbit (uns s val) (size_bits s - count)) (negb (in_range s (sgn s val * 2 ^ count))))
   ∧ Bv.lsl val count s = (r, shift_flags s r (Z.testbit (uns s val) (size_bits s - count)) false)) ∧
  (let r := uns s (sgn s val / 2 ^ count) in
   Bv.asr val count s = (r, shift_flags s r (Z.testbit (sgn s val) (count - 1)) false)) ∧
  (let r := uns s val / 2 ^ count in
   Bv.lsr val count s = (r, shift_flags s r (Z.testbit (uns s val) (count - 1)) false)) ∧
  (let moved := negb (count mod size_bits s =? 0) in
   (∃ r, Bv.rol val count s = (r, rotate_flags s r (moved && Z.testbit r 0)) ∧
      ∀ k, 0 ≤ k < size_bits s → Z.testbit r k = Z.testbit val ((k - count) mod size_bits s)) ∧
   (∃ r, Bv.ror val count s = (r, rotate_flags s r (moved && Z.testbit r (size_bits s - 1))) ∧
      ∀ k, 0 ≤ k < size_bits s → Z.testbit r k = Z.testbit val ((k + count) mod size_bits s))).
Proof.
  intros Hc. pose proof (rotates_exact val count s Hc) as Hrot. pose proof (size_bits_pos s).
  destruct (decide (count = 0)) as [->|Hne].
  { unfold Bv.asl, Bv.lsl, Bv.asr, Bv.lsr. cbn [Z.eqb]. rewrite !shift_none_exact, Z.pow_0_r, !Z.mul_1_r, !Z.div_1_r, uns_sgn.
    assert (Z.testbit (uns s val) (size_bits s - 0) = false) as -> by (unfold uns; rewrite Z.mod_pow2_bits_high; [done|lia]).
    rewrite in_range_sgn, !Z.testbit_neg_r by lia. by split_and!; try apply Hrot. }
  assert ((count =? 0) = false) as Hnz by lia. assert (Z.of_nat (Z.to_nat count) = count) as Hn by lia.
  unfold Bv.asl, Bv.lsl, Bv.asr, Bv.lsr. rewrite Hnz, !land_mask, asl_loop_spec, lsl_loop_spec, asr_loop_spec, lsr_loop_spec, Hn.
  destruct (decide (Z.to_nat count = 0%nat)); [lia|]. rewrite land_mask.
  rewrite (uns_small s (uns s val / 2 ^ count)) by (apply uns_div_range; lia).
  cbv zeta. cbn [orb]. rewrite !flags_top by (apply uns_range || (apply uns_div_range; lia)). by split_and!; try apply Hrot.
Qed.

(** 0x81 shifted by three: the signed value is -127 and the product overflows a byte. *)
Lemma shifts_exact_witness :
  0 ≤ 3 ∧ Bv.asl 0x81 3 Byte = (0x08, shift_flags Byte 0x08 false true)
  ∧ Bv.asr 0x81 3 Byte = (0xF0, shift_flags Byte 0xF0 false false)
  ∧ Bv.lsl 0x181 0 Byte = (0x81, shift_flags Byte 0x81 false false).
Proof.
  split; [lia|]. destruct (shifts_exact 0x81 3 Byte ltac:(lia)) as ([Hl _] & Hr & _).
  destruct (shifts_exact 0x181 0 Byte ltac:(lia)) as ([_ Hz] & _).
  split; [exact Hl|]. split; [exact Hr|exact Hz].
Defined.

(** ** Division *)
Lemma pack_word hi lo : 0 ≤ hi < 0x10000 → 0 ≤ lo < 0x10000 → Z.lor (wrap32 (Z.shiftl hi 16)) lo = hi * 0x10000 + lo.
Proof.
  intros. unfold wrap32, U32. rewrite Z.shiftl_mul_pow2 by done. rewrite Z.mod_small by lia.
  rewrite (lor_add_disjoint _ _ 16); [lia|done|by rewrite Z.mod_mul by done|lia].
Qed.
Lemma as_i16_wrap x : - 0x8000 ≤ x ≤ 0x7FFF → as_i16 (wrap16 x) = x.
Proof.
  intros Hx. unfold as_i16, wrap16. rewrite Z.mod_mod by done. destruct (decide (0 ≤ x)).
  - rewrite Z.mod_small by lia. split_cmp.
  - replace (x mod 0x10000) with (x + 0x10000) by (apply (Z.mod_unique _ _ (-1)); lia). split_cmp.
Qed.
Lemma as_i16_range x : - 0x8000 ≤ as_i16 x ≤ 0x7FFF.
Proof. unfold as_i16. pose proof (Z.mod_pos_bound x 0x10000 ltac:(lia)). split_cmp. Qed.
Lemma as_i16_low hi lo : as_i16 (hi * 0x10000 + lo) = as_i16 lo.
Proof. unfold as_i16. by rewrite Z.add_comm, Z_mod_plus_full. Qed.
Lemma high_half hi lo : 0 ≤ lo < 0x10000 → (hi * 0x10000 + lo) / 0x10000 = hi.
Proof. intros. rewrite Z.add_comm, Z.div_add by done. by rewrite Z.div_small. Qed.

(** Signed division is exact, and one pair of operands stops the emulator.  DIVS
    of a 32-bit dividend by a 16-bit divisor returns nothing exactly for a zero divisor;
    it reports overflow and keeps the dividend exactly when the quotient does not fit 16
    bits; otherwise the low and high halves of the result are the quotient rounded
    towards zero and the remainder.  For the smallest dividend and divisor -1 the host
    division itself panics, in every build. *)
Theorem divs_exact (dividend divisor : Z) : 0 ≤ dividend < U32 → 0 ≤ divisor < 0x10000 →
  let num := as_i32 dividend in
  let den := as_i16 divisor in
  match Bv.divs dividend divisor with
  | Panic => dividend = 0x80000000 ∧ divisor = 0xFFFF
  | Done None => divisor = 0
  | Done (Some (r, k)) =>
      divisor ≠ 0 ∧ ¬ (dividend = 0x80000000 ∧ divisor = 0xFFFF) ∧
      if ccr_v k then r = dividend ∧ ¬ (- 0x8000 ≤ Z.quot num den ≤ 0x7FFF)
      else num = as_i16 r * den + as_i16 (r / 0x10000) ∧ Z.abs (as_i16 (r / 0x10000)) < Z.abs den
           ∧ 0 ≤ as_i16 (r / 0x10000) * num ∧ ccr_n k = (as_i16 r <? 0) ∧ ccr_z k = (as_i16 r =? 0)
  end.
Proof.
  intros Hn Hd num den. unfold Bv.divs. fold num den. destruct (Z.eqb_spec divisor 0) as [|Hd0]; [done|].
  assert (den ≠ 0 ∧ (den = -1 ↔ divisor = 0xFFFF)) as [Hden Hm1].
  { unfold den, as_i16. rewrite Z.mod_small by lia. split_cmp. }
  assert (num = - 0x80000000 ↔ dividend = 0x80000000) as Hmin.
  { unfold num, as_i32. rewrite Z.mod_small by lia. unfold U32 in *. split_cmp. }
  destruct ((num =? - 0x80000000) && (den =? -1)) eqn:Emin.
  { apply andb_true_iff in Emin as [?%Z.eqb_eq ?%Z.eqb_eq]. by rewrite <- Hmin, <- Hm1. }
  assert (¬ (dividend = 0x80000000 ∧ divisor = 0xFFFF)) as Hok.
  { rewrite <- Hmin, <- Hm1. intros [? ?]. apply andb_false_iff in Emin as [?%Z.eqb_neq|?%Z.eqb_neq]; done. }
  destruct ((0x7FFF <? Z.quot num den) || (Z.quot num den <? - 0x8000)) eqn:Eq.
  { split_and!; [done|done|]. cbn. split; [done|]. apply orb_true_iff in Eq as [?%Z.ltb_lt|?%Z.ltb_lt]; lia. }
  apply orb_false_iff in Eq as [Hq1%Z.ltb_ge Hq2%Z.ltb_ge]. split_and!; [done|done|].
  pose proof (Z.quot_rem' num den) as Hqr. pose proof (Z.rem_bound_abs num den Hden) as Hrb. pose proof (Z.rem_sign_mul num den Hden).
  assert (- 0x8000 ≤ den ≤ 0x7FFF) by apply as_i16_range.
  assert (0 ≤ wrap16 (Z.rem num den) < 0x10000) by (apply Z.mod_pos_bound; done).
  assert (0 ≤ wrap16 (Z.quot num den) < 0x10000) by (apply Z.mod_pos_bound; done).
  cbn [ccr_v ccr_n ccr_z]. rewrite pack_word, as_i16_low, high_half by done. rewrite (as_i16_wrap (Z.rem _ _)) by lia.
  assert (as_i16 (wrap16 (Z.quot num den)) = Z.quot num den) as Hw by (apply as_i16_wrap; lia).
  split_and!; [rewrite Hw; lia|done|done|..]; unfold as_i16 in *; change 0x8000 with (size_msb Word) at 1;
    rewrite ?any_msb, ?top_bit by done; rewrite Z.mod_small by done; cbn [size_msb]; split_cmp.
Qed.
Lemma divs_exact_witness : Bv.divs 0xFFFFFFF9 2 = Done (Some (0xFFFFFFFD, mkCcr false false false true false)) ∧ -7 = -3 * 2 + -1.
Proof.
  split; [reflexivity|]. pose proof (divs_exact 0xFFFFFFF9 2 ltac:(u64_lia) ltac:(lia)) as H. vm_compute in H. lia.
Defined.
