(* ===== verification/Cpu68User.v ===== *)
(** * User mode of the MC68000

    What an instruction can do in user mode, over any bus that confines user
    accesses ([Confinement]): it changes the data registers, the program counter, the
    condition codes and the bus within its bounds, or it enters an exception. *)

From S2P Require Import Prelude Bv68 Bus68 Cpu68 Bv68Facts.

Lemma bind_Done {B A A'} (m : cpuM B A) (k : A → cpuM B A') c c' a : (m ≫= k) c = Done (c', a) →
  ∃ c1 x, m c = Done (c1, x) ∧ k x c1 = Done (c', a).
Proof. unfold mbind, cpuM_bind. destruct (m c) as [[c1 x]|]; [eauto|done]. Qed.

(** ** The interface between the processor and a protected bus *)
Class Confinement (B : Type) `{Bus B} := {
  in_user : B → Prop;
  within : B → B → Prop;
  within_preorder :: PreOrder within;
  within_user b b' : within b b' → in_user b → in_user b';
  within_read8 b b' a v : in_user b → read8 b a = Done (b', v) → within b b';
  within_write8 b b' a v : in_user b → write8 b a v = Done b' → within b b';
  within_tick b b' n : in_user b → tick b n = Done b' → within b b';
  within_clear b : in_user b → within b (clear_bus_fault b);
}.

Section user.
Context {prof : Profile} {B : Type} {bus : Bus B} {conf : Confinement B}.
Abbreviation M := (cpuM B).

Definition user (c : Cpu B) : Prop := Sr.supervisor (cpu_sr c) = false ∧ in_user (cpu_bus c).

(** What user mode cannot change: the system byte, both saved stack pointers, the
    halted state; and the bus is changed within bounds. *)
Record confined (c c' : Cpu B) : Prop := {
  cf_sys : Z.land (cpu_sr c') 0xFF00 = Z.land (cpu_sr c) 0xFF00;
  cf_ssp : cpu_ssp c' = cpu_ssp c;
  cf_usp : cpu_usp c' = cpu_usp c;
  cf_halted : cpu_halted c' = cpu_halted c;
  cf_bus : within (cpu_bus c) (cpu_bus c');
}.
#[export] Instance confined_preorder : PreOrder confined.
Proof.
  split.
  - intros c. by split.
  - intros c1 c2 c3 [] []. split; [congruence..|by etrans].
Qed.

Lemma supervisor_sys sr sr' : Z.land sr' 0xFF00 = Z.land sr 0xFF00 → Sr.supervisor sr' = Sr.supervisor sr.
Proof.
  intros Hs. assert (∀ x, Sr.supervisor x = Z.testbit (Z.land x 0xFF00) 13) as Ht.
  { intros x. unfold Sr.supervisor. change Sr.S with (2 ^ 13). rewrite any_bit_pow, Z.land_spec by lia.
    change (Z.testbit 0xFF00 13) with true. by rewrite andb_true_r. }
  by rewrite !Ht, Hs.
Qed.
Lemma confined_user c c' : confined c c' → user c → user c'.
Proof. intros [] [Hs Hb]. split; [by rewrite (supervisor_sys (cpu_sr c))|by eapply within_user]. Qed.

(** [m] keeps a user program confined. *)
Definition keeps {A} (m : M A) : Prop := ∀ c c' a, user c → m c = Done (c', a) → confined c c'.

Lemma keeps_ret {A} (a : A) : keeps (mret a).
Proof. intros c c' a' _ [= <- <-]. done. Qed.
Lemma keeps_bind {A A'} (m : M A) (k : A → M A') : keeps m → (∀ a, keeps (k a)) → keeps (m ≫= k).
Proof.
  intros Hm Hk c c' b Hu E. unfold mbind, cpuM_bind in E. destruct (m c) as [[c1 a]|] eqn:E1; [|done].
  pose proof (Hm _ _ _ Hu E1) as Hc. etrans; [exact Hc|]. eapply Hk; [|exact E]. by eapply confined_user.
Qed.
Lemma keeps_get {A} (g : Cpu B → A) : keeps (get g).
Proof. intros c c' a _ [= <- <-]. done. Qed.
Lemma keeps_put (g : Cpu B → Cpu B) : (∀ c, user c → confined c (g c)) → keeps (put g).
Proof. intros Hg c c' a Hu [= <- <-]. by apply Hg. Qed.
Lemma keeps_lift {A} (m : outcome A) : keeps (lift m).
Proof. intros c c' a _ E. unfold lift in E. run_binds E. by guards. Qed.
Lemma keeps_get_d i : keeps (get_d i).
Proof. intros c c' a _ E. unfold get_d in E. run_binds E. by guards. Qed.
Lemma keeps_get_a i : keeps (get_a i).
Proof. intros c c' a _ E. unfold get_a in E. run_binds E. by guards. Qed.
Lemma keeps_set_d i v : keeps (set_d i v).
Proof. intros c c' a _ E. unfold set_d in E. run_binds E. guards. by split. Qed.
Lemma keeps_set_a i v : keeps (set_a i v).
Proof. intros c c' a _ E. unfold set_a in E. run_binds E. guards. by split. Qed.
Lemma keeps_set_pc pc : keeps (put (set_cpu_pc pc)).
Proof. apply keeps_put. by split. Qed.

(** The condition codes leave the system byte alone. *)
Lemma low_byte_sys sr b : 0 ≤ b < 0x100 → Z.land (Z.lor (Z.land sr 0xFF00) b) 0xFF00 = Z.land sr 0xFF00.
Proof.
  intros Hb. rewrite Z.land_lor_distr_l, <- Z.land_assoc. change (Z.land 0xFF00 0xFF00) with 0xFF00.
  replace (Z.land b 0xFF00) with 0; [apply Z.lor_0_r|]. apply Z.bits_inj'. intros k Hk. rewrite Z.bits_0, Z.land_spec.
  destruct (decide (k < 8)).
  - replace (Z.testbit 0xFF00 k) with false; [by rewrite andb_false_r|].
    assert (k = 0 ∨ k = 1 ∨ k = 2 ∨ k = 3 ∨ k = 4 ∨ k = 5 ∨ k = 6 ∨ k = 7) by lia. by repeat destruct_or!; subst.
  - replace b with (b mod 2 ^ 8) by (apply Z.mod_small; lia). by rewrite Z.mod_pow2_bits_high by lia.
Qed.
Lemma keeps_set_ccr k : keeps (set_ccr k).
Proof.
  apply keeps_put. intros c _. split; try done. apply low_byte_sys. pose proof (to_byte_range k). lia.
Qed.

(** *** The bus *)
Definition confined_read {A} (f : B → outcome (B * A)) : Prop := ∀ b b' a, in_user b → f b = Done (b', a) → within b b'.
Definition confined_write (f : B → outcome B) : Prop := ∀ b b', in_user b → f b = Done b' → within b b'.
Lemma keeps_on_bus {A} (f : B → outcome (B * A)) : confined_read f → keeps (on_bus f).
Proof.
  intros Hf c c' a [_ Hu] E. unfold on_bus in E. run_binds E. guards. split; try done. by eapply Hf.
Qed.
Lemma keeps_to_bus (f : B → outcome B) : confined_write f → keeps (to_bus f).
Proof.
  intros Hf c c' a [_ Hu] E. unfold to_bus in E. run_binds E. guards. split; try done. by eapply Hf.
Qed.
Lemma confined_read8 a : confined_read (λ b, read8 b a).
Proof. intros b b' v Hu E. by eapply within_read8. Qed.
Lemma confined_write8 a v : confined_write (λ b, write8 b a v).
Proof. intros b b' Hu E. by eapply within_write8. Qed.
Lemma confined_then {A A'} (f : B → outcome (B * A)) (g : B → A → outcome (B * A')) :
  confined_read f → (∀ a, confined_read (λ b, g b a)) → confined_read (λ b, '(b, a) ← f b; g b a).
Proof.
  intros Hf Hg b b' v Hu E. cbn in E. destruct (f b) as [[b1 a]|] eqn:E1; [|done].
  assert (within b b1) by (by eapply Hf). etrans; [done|]. eapply (Hg a); [|exact E]. by eapply within_user.
Qed.
Lemma confined_done {A} (a : A) : confined_read (λ b, Done (b, a)).
Proof. intros b b' v _ [= <- <-]. done. Qed.
Lemma confined_seq (f g : B → outcome B) : confined_write f → confined_write g → confined_write (λ b, b ← f b; g b).
Proof.
  intros Hf Hg b b' Hu E. cbn in E. destruct (f b) as [b1|] eqn:E1; [|done].
  assert (within b b1) by (by eapply Hf). etrans; [done|]. eapply Hg; [|exact E]. by eapply within_user.
Qed.
Lemma confined_read16 a : confined_read (λ b, read16 b a).
Proof. do 2 (apply confined_then; [apply confined_read8|intros ?]). apply confined_done. Qed.
Lemma confined_read32 a : confined_read (λ b, read32 b a).
Proof. do 2 (apply confined_then; [apply confined_read16|intros ?]). apply confined_done. Qed.
Lemma confined_write16 a v : confined_write (λ b, write16 b a v).
Proof. apply confined_seq; apply confined_write8. Qed.
Lemma confined_write32 a v : confined_write (λ b, write32 b a v).
Proof. apply confined_seq; apply confined_write16. Qed.
Lemma confined_tick n : confined_write (λ b, tick b n).
Proof. intros b b' Hu E. by eapply within_tick. Qed.

(** ** The automation: decompose an operation into its primitive steps *)
Lemma keeps_for bits (body : Z → M unit) : (∀ bit, keeps (body bit)) → keeps (for_bits bits body).
Proof. intros Hb. induction bits; cbn; [apply keeps_ret|]. by apply keeps_bind. Qed.
End user.

Create HintDb keeps.
#[export] Hint Resolve keeps_ret keeps_get keeps_lift keeps_get_d keeps_get_a keeps_set_d keeps_set_a keeps_set_pc keeps_set_ccr
  keeps_on_bus keeps_to_bus confined_read8 confined_write8 confined_read16 confined_read32 confined_write16 confined_write32
  confined_tick : keeps.
#[export] Hint Constants Opaque : keeps.

Ltac keeps_step :=
  match goal with
  | |- keeps (mbind _ _) => apply keeps_bind; [|intros ?]
  | |- keeps (for_bits _ _) => apply keeps_for; intros ?
  | |- keeps (if ?b then _ else _) => destruct b
  | |- keeps (match ?x with _ => _ end) => destruct x
  | |- keeps (let _ := _ in _) => cbv zeta
  | |- keeps (on_bus _) => apply keeps_on_bus
  | |- keeps (to_bus _) => apply keeps_to_bus
  | |- keeps _ => solve [auto with keeps]
  | |- confined_read (λ b, match ?x with _ => _ end) => destruct x
  | |- confined_write (λ b, match ?x with _ => _ end) => destruct x
  | |- confined_read (λ b, if ?x then _ else _) => destruct x
  | |- confined_write (λ b, if ?x then _ else _) => destruct x
  end.
Ltac solve_keeps := repeat (keeps_step; try solve [auto with keeps]).

Section instructions.
Context {prof : Profile} {B : Type} {bus : Bus B} {conf : Confinement B}.
Abbreviation M := (cpuM B).

Lemma fetch_word_keeps : keeps fetch_word.
Proof. unfold fetch_word. solve_keeps. Qed.
#[local] Hint Resolve fetch_word_keeps : keeps.
Lemma push32_keeps v : keeps (push32 v).
Proof. unfold push32. solve_keeps. Qed.
Lemma pop32_keeps : keeps pop32.
Proof. unfold pop32. solve_keeps. Qed.
Lemma pop16_keeps : keeps pop16.
Proof. unfold pop16. solve_keeps. Qed.
Lemma decode_keeps mode reg : keeps (decode mode reg).
Proof. unfold decode, brief_extension. solve_keeps. Qed.
Lemma effective_addr_keeps ea s : keeps (effective_addr ea s).
Proof. unfold effective_addr, index_value. solve_keeps. Qed.
#[local] Hint Resolve push32_keeps pop32_keeps pop16_keeps decode_keeps effective_addr_keeps : keeps.
Lemma read_mem_keeps a s : keeps (read_mem a s).
Proof. unfold read_mem. solve_keeps. Qed.
Lemma write_mem_keeps a s v : keeps (write_mem a s v).
Proof. unfold write_mem. solve_keeps. Qed.
#[local] Hint Resolve read_mem_keeps write_mem_keeps : keeps.
Lemma read_ea_keeps ea s : keeps (read_ea ea s).
Proof. unfold read_ea, read_immediate. solve_keeps. Qed.
Lemma merge_d_keeps i s v : keeps (merge_d i s v).
Proof. unfold merge_d. solve_keeps. Qed.
#[local] Hint Resolve read_ea_keeps merge_d_keeps : keeps.
Lemma write_ea_keeps ea s v : keeps (write_ea ea s v).
Proof. unfold write_ea. solve_keeps. Qed.
#[local] Hint Resolve write_ea_keeps : keeps.
Lemma test_condition_keeps cc : keeps (test_condition cc).
Proof. unfold test_condition. solve_keeps. Qed.
Lemma set_ccr_keep_x_keeps k : keeps (set_ccr_keep_x k).
Proof. unfold set_ccr_keep_x. solve_keeps. Qed.
Lemma store_regs_keeps l m bits a : keeps (store_regs l m bits a).
Proof.
  revert a. induction bits as [|bit bits IH]; intros a; cbn [store_regs]; unfold reg_of_bit, movem_store;
    repeat first [apply IH|keeps_step|solve [auto with keeps]].
Qed.
Lemma load_regs_keeps l m bits a : keeps (load_regs l m bits a).
Proof.
  revert a. induction bits as [|bit bits IH]; intros a; cbn [load_regs]; unfold movem_load, set_reg_of_bit;
    repeat first [apply IH|keeps_step|solve [auto with keeps]].
Qed.
Lemma low_byte_keeps (g : Cpu B → Z) : (∀ c, 0 ≤ g c < 0x100) →
  keeps (put (λ c, set_cpu_sr (Z.lor (Z.land (cpu_sr c) 0xFF00) (g c)) c)).
Proof. intros Hg. apply keeps_put. intros c _. split; try done. by apply low_byte_sys. Qed.

(** ** Exceptions

    The vectors an instruction may raise: a bus error, an illegal instruction, a zero
    divisor, TRAPV, a privilege violation and the TRAPs *)
Definition exception_vector (v : Z) : Prop := v = 2 ∨ v = 4 ∨ v = 5 ∨ v = 7 ∨ v = 8 ∨ 32 ≤ v < 48.

(** [m] keeps a user program confined, or ends by entering an exception. *)
Definition exits {A} (m : M A) : Prop := ∀ c c' a, user c → m c = Done (c', a) →
  confined c c' ∨ ∃ c1 v, confined c c1 ∧ exception_vector v ∧ trap v c1 = Done (c', tt).

Lemma exits_keeps {A} (m : M A) : keeps m → exits m.
Proof. intros Hm c c' a Hu E. left. by eapply Hm. Qed.
Lemma exits_bind {A A'} (m : M A) (k : A → M A') : keeps m → (∀ a, exits (k a)) → exits (m ≫= k).
Proof.
  intros Hm Hk c c' b Hu E. unfold mbind, cpuM_bind in E. destruct (m c) as [[c1 a]|] eqn:E1; [|done].
  pose proof (Hm _ _ _ Hu E1) as Hc. destruct (Hk a _ _ _ (confined_user _ _ Hc Hu) E) as [Hc'|(c2&v&Hc2&Hv&Ht)].
  - left. by etrans.
  - right. exists c2, v. split; [by etrans|done].
Qed.
Lemma exits_ret {A A'} (m : M A) (f : A → A') : exits m → exits (m ≫= λ a, mret (f a)).
Proof.
  intros Hm c c' b Hu E. unfold mbind, cpuM_bind in E. destruct (m c) as [[c1 a]|] eqn:E1; [|done].
  unfold mret, cpuM_ret in E. injection E as <- <-. by eapply Hm.
Qed.
Lemma exits_trap v : exception_vector v → exits (trap v).
Proof. intros Hv c c' [] Hu E. right. exists c, v. done. Qed.
Lemma exits_illegal : exits illegal.
Proof. apply exits_ret, exits_trap. unfold exception_vector. lia. Qed.
(** A privileged instruction raises a privilege violation, before anything else. *)
Lemma exits_privileged n k : exits (privileged n k).
Proof.
  intros c c' a Hu E. unfold privileged, require_supervisor, mbind, cpuM_bind, get in E. rewrite (proj1 Hu) in E.
  destruct (trap 8 c) as [[c1 []]|] eqn:Et; [|done]. cbn in E. injection E as <- <-.
  right. exists c, 8. split; [done|]. split; [unfold exception_vector; lia|done].
Qed.
End instructions.
#[export] Hint Resolve fetch_word_keeps push32_keeps pop32_keeps pop16_keeps decode_keeps effective_addr_keeps read_mem_keeps
  write_mem_keeps read_ea_keeps merge_d_keeps write_ea_keeps test_condition_keeps set_ccr_keep_x_keeps store_regs_keeps
  load_regs_keeps : keeps.
Create HintDb exits.
#[export] Hint Resolve exits_illegal exits_privileged : exits.
#[export] Hint Constants Opaque : exits.

Ltac exits_step :=
  match goal with
  | |- exits (mbind (λ _, mret _) (if _ then trap _ else _)) => apply exits_ret
  | |- exits (mbind _ (trap _)) => apply exits_ret, exits_trap; unfold exception_vector; lia
  | |- exits (mbind _ illegal) => apply exits_ret, exits_illegal
  | |- exits (mbind _ _) => apply exits_bind; [solve [solve_keeps]|intros ?]
  | |- exits (if ?b then _ else _) => destruct b
  | |- exits (match ?x with _ => _ end) => destruct x
  | |- exits (let _ := _ in _) => cbv zeta
  | |- exits (trap _) => apply exits_trap; unfold exception_vector; lia
  | |- exits _ => first [solve [auto with exits] | apply exits_keeps; solve [solve_keeps]]
  end.
Ltac solve_exits := repeat exits_step.

Section groups.
Context {prof : Profile} {B : Type} {bus : Bus B} {conf : Confinement B}.
Abbreviation M := (cpuM B).
Lemma source_keeps op s : keeps (source op s).
Proof. unfold source, decode_ea. solve_keeps. Qed.
Lemma decode_ea_keeps op : keeps (decode_ea op).
Proof. unfold decode_ea. solve_keeps. Qed.
#[local] Hint Resolve source_keeps decode_ea_keeps : keeps.
Lemma do_move_exits op s : exits (do_move op s).
Proof. unfold do_move. solve_exits. Qed.
Lemma ea_to_dn_exits op f (flags : Ccr → M unit) : (∀ k, keeps (flags k)) → exits (ea_to_dn op f flags).
Proof. intros ?. unfold ea_to_dn. solve_exits. Qed.
Lemma dn_to_ea_exits op f (flags : Ccr → M unit) : (∀ k, keeps (flags k)) → exits (dn_to_ea op f flags).
Proof. intros ?. unfold dn_to_ea. solve_exits. Qed.
Lemma immediate_exits op f (flags : Ccr → M unit) : (∀ k, keeps (flags k)) → exits (immediate op f flags).
Proof. intros ?. unfold immediate. solve_exits. Qed.
Lemma unary_exits op f (flags : Ccr → M unit) : (∀ k, keeps (flags k)) → exits (unary op f flags).
Proof. intros ?. unfold unary. solve_exits. Qed.
#[local] Hint Resolve do_move_exits ea_to_dn_exits dn_to_ea_exits immediate_exits unary_exits : exits.
#[local] Hint Resolve keeps_set_ccr set_ccr_keep_x_keeps : exits.
Lemma to_an_exits op s f : exits (to_an op s f).
Proof. unfold to_an. solve_exits. Qed.
Lemma moveq_exits op : exits (moveq op).
Proof. unfold moveq. solve_exits. Qed.
Lemma branch_exits op : exits (branch op).
Proof. unfold branch. solve_exits. Qed.
#[local] Hint Resolve to_an_exits moveq_exits branch_exits : exits.
Lemma add_group_exits op : exits (add_group op).
Proof. unfold add_group. solve_exits. Qed.
Lemma sub_group_exits op : exits (sub_group op).
Proof. unfold sub_group. solve_exits. Qed.
Lemma group_0000_exits op : exits (group_0000 op).
Proof. unfold group_0000, ori, andi, subi, addi, eori, cmpi. solve_exits. Qed.
#[local] Hint Resolve add_group_exits sub_group_exits group_0000_exits : exits.

Lemma movem_addr_keeps ea (m : M Z) : movem_addr ea = Some m → keeps m.
Proof. destruct ea; intros [= <-]; solve_keeps. Qed.
Lemma movem_to_mem_exits op : exits (movem_to_mem op).
Proof.
  unfold movem_to_mem, movem_store. cbv zeta. exits_step. destruct (_ =? _); [solve_exits|].
  apply exits_bind; [solve_keeps|]. intros ea.
  destruct (movem_addr ea) eqn:E; [apply exits_bind; [by eapply movem_addr_keeps|intros ?]|]; solve_exits.
Qed.
Lemma movem_to_reg_exits op : exits (movem_to_reg op).
Proof.
  unfold movem_to_reg, movem_load, set_reg_of_bit. cbv zeta. exits_step. destruct (_ =? _); [solve_exits|].
  apply exits_bind; [solve_keeps|]. intros ea.
  destruct (movem_addr ea) eqn:E; [apply exits_bind; [by eapply movem_addr_keeps|intros ?]|]; solve_exits.
Qed.
Lemma byte_of_land x : 0 ≤ Z.land x 0xFF < 0x100.
Proof. change 0xFF with (Z.ones 8). rewrite Z.land_ones by lia. by apply Z.mod_pos_bound. Qed.
Lemma move_to_ccr_exits op : exits (move_to_ccr op).
Proof.
  unfold move_to_ccr. exits_step. apply exits_bind; [|intros ?; solve_exits]. apply low_byte_keeps. intros _. apply byte_of_land.
Qed.
Lemma rtr_exits : exits rtr.
Proof.
  unfold rtr. do 3 exits_step. apply exits_bind; [|intros ?; solve_exits]. apply low_byte_keeps. intros _. by apply Z.mod_pos_bound.
Qed.
Lemma link_exits op : exits (link op).
Proof. unfold link. solve_exits. Qed.
Lemma unlk_exits op : exits (unlk op).
Proof. unfold unlk. solve_exits. Qed.
#[local] Hint Resolve movem_to_mem_exits movem_to_reg_exits move_to_ccr_exits rtr_exits link_exits unlk_exits : exits.
Lemma group_0100_sub_exits op : exits (group_0100_sub op).
Proof.
  unfold group_0100_sub, move_from_sr, negx, clr, neg_op, not_op, move_to_sr, swap, ext_word, ext_long, pea, tst, jsr, jmp, lea, address.
  solve_exits.
Qed.
#[local] Hint Resolve group_0100_sub_exits : exits.
Lemma group_0100_exits op : exits (group_0100 op).
Proof.
  unfold group_0100, stop, rte. solve_exits. apply exits_ret, exits_trap. unfold exception_vector.
  change 0x0F with (Z.ones 4). rewrite Z.land_ones by lia. pose proof (Z.mod_pos_bound op (2 ^ 4) ltac:(lia)). lia.
Qed.

Lemma group_0101_exits op : exits (group_0101 op).
Proof. unfold group_0101, dbcc, scc, addq, subq, addq_subq. solve_exits. Qed.
Lemma store_quotient_exits op n r : exits (store_quotient op n r).
Proof. unfold store_quotient. solve_exits. Qed.
#[local] Hint Resolve group_0100_exits group_0101_exits store_quotient_exits : exits.
Lemma group_1000_exits op : exits (group_1000 op).
Proof. unfold group_1000, divu, divs_op. solve_exits. Qed.
Lemma group_1011_exits op : exits (group_1011 op).
Proof. unfold group_1011, cmp_dn, cmp_an. solve_exits. Qed.
Lemma group_1100_exits op : exits (group_1100 op).
Proof. unfold group_1100, mulu_op, muls_op, mul_op. solve_exits. Qed.
Lemma shift_group_exits op : exits (shift_group op).
Proof. unfold shift_group, shift_count. solve_exits. Qed.
#[local] Hint Resolve group_1000_exits group_1011_exits group_1100_exits shift_group_exits : exits.

(** Every opcode, in user mode *)
Lemma execute_exits op : exits (execute op).
Proof. unfold execute. solve_exits. Qed.

(** ** The step

    The ways into the kernel: an exception or an accepted interrupt.  An instruction
    that raised one may be followed by a bus error or an interrupt at once. *)
Inductive entry (c c' : Cpu B) : Prop :=
| by_trap v : exception_vector v → trap v c = Done (c', tt) → entry c c'
| by_interrupt l : l = pending_irq (cpu_bus c) → 0 < l → accept_interrupt l c = Done (c', tt) → entry c c'.
(** Between instructions the bus clears its fault or advances its devices. *)
Inductive idle (c c' : Cpu B) : Prop :=
| idle_clear : c' = set_cpu_bus (clear_bus_fault (cpu_bus c)) c → idle c c'
| idle_tick n b : tick (cpu_bus c) n = Done b → c' = set_cpu_bus b c → idle c c'.
Inductive kernel_entry (c c' : Cpu B) : Prop :=
| one_entry : entry c c' → kernel_entry c c'
| entry_idle c1 : entry c c1 → idle c1 c' → kernel_entry c c'
| two_entries c1 c2 : entry c c1 → idle c1 c2 → entry c2 c' → kernel_entry c c'.

Lemma confined_clear c : user c → confined c (set_cpu_bus (clear_bus_fault (cpu_bus c)) c).
Proof. intros [_ Hu]. split; try done. by apply within_clear. Qed.
Lemma confined_ticked c n b : user c → tick (cpu_bus c) n = Done b → confined c (set_cpu_bus b c).
Proof. intros [_ Hu] E. split; try done. by eapply within_tick. Qed.

Lemma idle_confined c c' : user c → idle c c' → confined c c'.
Proof. intros Hu [->|n b E ->]; [by apply confined_clear|by eapply confined_ticked]. Qed.
Lemma accepted_pos irq sr : accepted irq sr = true → 0 < irq.
Proof. unfold accepted. rewrite andb_true_iff, Z.ltb_lt. tauto. Qed.

(** An instruction, and what follows it *)
Lemma step_split c c' n : cpu_halted c = false → step c = Done (c', n) →
  ∃ c1 op c2 k c3, fetch_word c = Done (c1, op) ∧ execute op c1 = Done (c2, k) ∧ idle c2 c3 ∧ (c3 = c' ∨ entry c3 c').
Proof.
  intros Hh E. unfold step, mbind, cpuM_bind, get in E. rewrite Hh in E.
  destruct (fetch_word c) as [[c1 op]|] eqn:Ef; [|done]. destruct (execute op c1) as [[c2 k]|] eqn:Ex; [|done].
  cbn in E. destruct (is_some (bus_fault (cpu_bus c2))).
  - destruct (trap 2 _) as [[c4 []]|] eqn:Et; [|done]. injection E as <- <-.
    exists c1, op, c2, k, (set_cpu_bus (clear_bus_fault (cpu_bus c2)) c2). split_and!; [done|done|by constructor|].
    right. eapply by_trap; [|exact Et]. unfold exception_vector. lia.
  - destruct (tick (cpu_bus c2) k) as [b|] eqn:Eb; [|done]. cbn in E.
    exists c1, op, c2, k, (set_cpu_bus b c2). split_and!; [done|done|by econstructor|].
    destruct (accepted _ _) eqn:Ea.
    + destruct (accept_interrupt _ _) as [[c4 []]|] eqn:Ei; [|done]. injection E as <- <-. right.
      eapply by_interrupt; [done| |exact Ei]. by eapply accepted_pos.
    + injection E as <- <-. by left.
Qed.
(** A step in user mode stays confined, or is confined until it enters the kernel. *)
Lemma step_user c c' n : user c → cpu_halted c = false → step c = Done (c', n) →
  confined c c' ∨ ∃ c1, confined c c1 ∧ kernel_entry c1 c'.
Proof.
  intros Hu Hh (c1&op&c2&k&c3&Ef&Ex&Hi&Hend)%step_split; [|done]. pose proof (fetch_word_keeps _ _ _ Hu Ef) as Hc1.
  pose proof (confined_user _ _ Hc1 Hu) as Hu1. destruct (execute_exits op _ _ _ Hu1 Ex) as [Hc2|(c4&v&Hc4&Hv&Ht)].
  - assert (confined c c3) as Hc3. { etrans; [exact Hc1|]. etrans; [exact Hc2|]. apply idle_confined; [by eapply confined_user|done]. }
    destruct Hend as [<-|He]; [by left|right]. exists c3. split; [done|by constructor].
  - right. exists c4. split; [by etrans|]. assert (entry c4 c2) by (by eapply by_trap).
    destruct Hend as [<-|He]; [by eapply entry_idle|by eapply two_entries].
Qed.
End groups.
