(* ===== verification/Protection68Facts.v ===== *)
(** * The protected bus confines user accesses

    What a user access does to the protected bus: it reaches the memory and the devices
    only where the active domain authorizes it, and changes no authority. *)

From S2P Require Import Prelude Bv68 Bus68 Protection68 Cpu68 Bv68Facts Cpu68User.

(** ** Devices keep their windows *)
Class DeviceLaws (D : Type) `{Device D} := {
  dev_ok : D → Prop;
  ok_read d o : dev_ok d → dev_ok (dev_read d o).1;
  ok_write d o v : dev_ok d → dev_ok (dev_write d o v);
  ok_tick d d' n : dev_ok d → dev_tick d n = Done d' → dev_ok d';
  ok_irq d : dev_ok d → 0 ≤ irq_level d < 0x100;
  size_read d o : dev_size (dev_read d o).1 = dev_size d;
  size_write d o v : dev_size (dev_write d o v) = dev_size d;
  size_tick d d' n : dev_tick d n = Done d' → dev_size d' = dev_size d;
}.

Lemma land_byte_7 v : 0 ≤ Z.land v 7 < 8.
Proof. change 7 with (Z.ones 3). rewrite Z.land_ones by lia. by apply Z.mod_pos_bound. Qed.
Lemma reload_irq fuel t t' : Timer.reload fuel t = Done t' → tm_irq_level_val t' = tm_irq_level_val t.
Proof.
  revert t. induction fuel as [|fuel IH]; intros t; cbn; [done|]. case_match; [by intros [= ->]|]. by intros ->%IH.
Qed.
#[export] Program Instance Timer_laws `{Profile} : DeviceLaws Timer := {| dev_ok t := 0 ≤ tm_irq_level_val t < 0x100 |}.
Next Obligation. done. Qed.
Next Obligation.
  intros ? t o v Ht. cbn. unfold Timer.write. repeat case_match; cbn; try done. pose proof (land_byte_7 v). lia.
Qed.
Next Obligation.
  intros ? t t' n Ht E. cbn in E. unfold Timer.tick in E. destruct (_ || _); [by injection E as <-|].
  run_binds E. apply reload_irq in E. by rewrite E.
Qed.
Next Obligation. intros ? t Ht. cbn in *. unfold Timer.irq_level. case_match; lia. Qed.
Next Obligation. done. Qed.
Next Obligation. done. Qed.
Next Obligation. done. Qed.
#[export] Instance Console_laws : DeviceLaws Console.
Proof. by refine {| dev_ok _ := True |}. Defined.
Definition sum_ok `{DeviceLaws D, DeviceLaws E} (x : D + E) : Prop := match x with inl d => dev_ok d | inr e => dev_ok e end.
#[export] Instance sum_laws `{DeviceLaws D, DeviceLaws E} : DeviceLaws (D + E).
Proof.
  refine {| dev_ok := sum_ok |}.
  - intros [d|e] o Hx; [exact (ok_read d o Hx)|exact (ok_read e o Hx)].
  - intros [d|e] o v Hx; [exact (ok_write d o v Hx)|exact (ok_write e o v Hx)].
  - intros [d|e] x' n Hx Ex; cbn in Ex; destruct (dev_tick _ n) as [y|] eqn:Et; try done; injection Ex as <-;
      [exact (ok_tick d y n Hx Et)|exact (ok_tick e y n Hx Et)].
  - intros [d|e] Hx; [exact (ok_irq d Hx)|exact (ok_irq e Hx)].
  - intros [d|e] o; [exact (size_read d o)|exact (size_read e o)].
  - intros [d|e] o v; [exact (size_write d o v)|exact (size_write e o v)].
  - intros [d|e] x' n Ex; cbn in Ex; destruct (dev_tick _ n) as [y|] eqn:Et; try done; injection Ex as <-;
      [exact (size_tick d y n Et)|exact (size_tick e y n Et)].
Defined.

(** ** The mapped bus *)
Section mapped.
Context {prof : Profile} {D : Type} {dev : Device D} {laws : DeviceLaws D}.
Implicit Types m : MappedBus D.

Definition window (w : Mapping D) : Z * Z := (mp_base w, dev_size (mp_device w)).
Definition windows m : list (Z * Z) := window <$> mb_devices m.
Definition devices_ok m : Prop := Forall (λ w, dev_ok (mp_device w)) (mb_devices m).

(** [m'] is [m] with the bytes of memory at [P], and the state of devices, changed. *)
Record alters (P : Z → Prop) m m' : Prop := {
  al_windows : windows m' = windows m;
  al_size : length (mb_ram m') = length (mb_ram m);
  al_devices : devices_ok m → devices_ok m';
  al_ram : ∀ a, 0 ≤ a → ¬ P a → mb_ram m' !! Z.to_nat a = mb_ram m !! Z.to_nat a;
}.
Lemma alters_refl P m : alters P m m.
Proof. by split. Qed.
Lemma alters_trans P m1 m2 m3 : alters P m1 m2 → alters P m2 m3 → alters P m1 m3.
Proof. intros [A1 A2 A3 A4] [B1 B2 B3 B4]. split; [congruence..|auto|]. intros a Ha Hp. by rewrite B4, A4. Qed.
Lemma alters_mono (P Q : Z → Prop) m m' : (∀ a, P a → Q a) → alters P m m' → alters Q m m'.
Proof. intros HPQ []. split; auto. Qed.

Lemma set_device_alters P m i w d : mb_devices m !! i = Some w → dev_size d = dev_size (mp_device w) →
  (dev_ok (mp_device w) → dev_ok d) → alters P m (MappedBus.set_device m i w d).
Proof.
  intros Hi Hs Hok. split; [|done| |done].
  - unfold windows, MappedBus.set_device. cbn. rewrite list_fmap_insert. apply list_insert_id.
    rewrite list_lookup_fmap, Hi. cbn. unfold window. cbn. by rewrite Hs.
  - unfold devices_ok. cbn. intros Hf. apply Forall_insert; [done|]. cbn. apply Hok. by eapply (Forall_lookup_1 _ _ _ _ Hf).
Qed.
Lemma find_device_lookup m a i w o : MappedBus.find_device m a = Some (i, w, o) → mb_devices m !! i = Some w.
Proof.
  unfold MappedBus.find_device. destruct (list_find _ _) as [[j v]|] eqn:E; [|done]. intros [= <- <- _].
  by apply list_find_Some in E as [? _].
Qed.
Lemma read8_alters m m' a v : MappedBus.read8 m a = Done (m', v) → alters (λ _, False) m m'.
Proof.
  unfold MappedBus.read8. intros [= E]. destruct (MappedBus.find_device _ _) as [[[i w] o]|] eqn:Ef.
  - destruct (dev_read (mp_device w) o) as [d u] eqn:Er. injection E as <- _. pose proof (size_read (mp_device w) o) as Hs.
    pose proof (ok_read (mp_device w) o) as Ho. rewrite Er in Hs, Ho. eapply set_device_alters; [by eapply find_device_lookup|done..].
  - injection E as <- _. apply alters_refl.
Qed.
Lemma write8_alters m m' a v : MappedBus.write8 m a v = Done m' → alters (λ x, x = Z.land a ADDR_MASK_68K) m m'.
Proof.
  unfold MappedBus.write8. intros [= <-]. destruct (MappedBus.find_device _ _) as [[[i w] o]|] eqn:Ef.
  - eapply set_device_alters; [by eapply find_device_lookup|apply size_write|apply ok_write].
  - split; [done| |done|].
    + apply length_insert.
    + intros x Hx Hne. cbn. apply list_lookup_insert_ne. intros He. apply Hne. apply Z2Nat.inj; [done| |done].
      apply Z.land_nonneg. by right.
Qed.
Lemma map_outcome_lookup {A A'} (f : A → outcome A') l l' : map_outcome f l = Done l' → Forall2 (λ x y, f x = Done y) l l'.
Proof.
  revert l'. induction l as [|x l IH]; intros l' E; cbn in E; [by injection E as <-|].
  run_binds E. guards. constructor; eauto.
Qed.
Lemma tick_alters m m' n : MappedBus.tick m n = Done m' → alters (λ _, False) m m'.
Proof.
  unfold MappedBus.tick. intros E. run_binds E. guards. apply map_outcome_lookup in E0.
  assert (Forall2 (λ w w', window w' = window w ∧ (dev_ok (mp_device w) → dev_ok (mp_device w'))) (mb_devices m) x) as Hf.
  { eapply Forall2_impl; [exact E0|]. intros w w' Ew. cbn in Ew. run_binds Ew. guards. split.
    - unfold window. cbn. f_equal. by eapply size_tick.
    - intros Ho. by eapply ok_tick. }
  split; [|done| |done].
  - unfold windows. cbn. clear E0. induction Hf as [|w w' l l' [Hw _] _ IH]; [done|]. cbn. by rewrite Hw, IH.
  - unfold devices_ok. cbn. clear E0. induction Hf as [|w w' l l' [_ Hw] _ IH]; [done|]. rewrite !Forall_cons. naive_solver.
Qed.

(** No device answers at [a]. *)
Definition plain m (a : Z) : Prop := MappedBus.find_device m a = None.
Lemma plain_windows m a : plain m a ↔ Forall (λ w, (wrapping_sub32 a w.1 <? w.2) = false) (windows m).
Proof.
  unfold plain, MappedBus.find_device, windows. destruct (list_find _ _) as [[i w]|] eqn:E; cbn.
  - split; [done|]. intros Hf. apply list_find_Some in E as (Hi&Hc&_). exfalso.
    apply (Forall_lookup_1 _ _ i (window w)) in Hf; [|by rewrite list_lookup_fmap, Hi].
    unfold MappedBus.covers_addr in Hc. cbn in Hf. by rewrite Hf in Hc.
  - split; [|done]. intros _. apply list_find_None in E. rewrite Forall_fmap. eapply Forall_impl; [exact E|].
    intros w Hc. unfold MappedBus.covers_addr in Hc. cbn. by destruct (_ <? _).
Qed.
Lemma alters_plain P m m' a : alters P m m' → plain m a → plain m' a.
Proof. intros [Hw _ _ _]. by rewrite !plain_windows, Hw. Qed.
Lemma irq_fold l z : 0 ≤ z < 0x100 → Forall (λ w : Mapping D, dev_ok (mp_device w)) l →
  0 ≤ fold_left (λ max_level w, if max_level <? irq_level (mp_device w) then irq_level (mp_device w) else max_level) l z < 0x100.
Proof.
  revert z. induction l as [|w l IH]; intros z Hz Hf; [done|]. apply Forall_cons in Hf as [Hw Hf]. cbn [fold_left].
  apply IH; [|done]. pose proof (ok_irq _ Hw). case_match; lia.
Qed.
Lemma irq_byte m : devices_ok m → 0 ≤ MappedBus.pending_irq m < 0x100.
Proof. apply irq_fold. lia. Qed.
End mapped.

(** ** The protected bus *)
Section protected.
Context {prof : Profile} {D : Type} {dev : Device D} {laws : DeviceLaws D}.
Implicit Types b : ProtectedBus D.

(** The active domain authorizes a byte access. *)
Definition authorized b (a op : Z) : bool :=
  match ProtectedBus.active b with
  | Some d => (ProtectedBus.scan (pb_objects b) (dom_caps d) a 1 op false).1
  | None => false
  end.

(** What a user program can make the devices and the memory do *)
Inductive user_io (auth : Z → Z → bool) : MappedBus D → MappedBus D → Prop :=
| io_done m : user_io auth m m
| io_read m a m1 v m' : auth (Z.land a ADDR_MASK_68K) Perm.READ = true → MappedBus.read8 m a = Done (m1, v) →
    user_io auth m1 m' → user_io auth m m'
| io_write m a v m1 m' : auth (Z.land a ADDR_MASK_68K) Perm.WRITE = true → MappedBus.write8 m a v = Done m1 →
    user_io auth m1 m' → user_io auth m m'
| io_tick m n m1 m' : MappedBus.tick m n = Done m1 → user_io auth m1 m' → user_io auth m m'.

Lemma user_io_trans auth m1 m2 m3 : user_io auth m1 m2 → user_io auth m2 m3 → user_io auth m1 m3.
Proof.
  induction 1; intros Hio; [done|eapply io_read|eapply io_write|eapply io_tick]; eauto.
Qed.
Lemma user_io_alters auth m m' : user_io auth m m' → alters (λ a, auth a Perm.WRITE = true) m m'.
Proof.
  induction 1 as [|m a m1 v m' _ E _ IH|m a v m1 m' Ha E _ IH|m n m1 m' E _ IH]; [apply alters_refl|..];
    (eapply alters_trans; [|exact IH]).
  - eapply alters_mono; [|by eapply read8_alters]. done.
  - eapply alters_mono; [|by eapply write8_alters]. by intros x ->.
  - eapply alters_mono; [|by eapply tick_alters]. done.
Qed.

Record authority_kept b b' : Prop := {
  ak_domains : pb_domains b' = pb_domains b;
  ak_active : pb_active_domain b' = pb_active_domain b;
  ak_objects : pb_objects b' = pb_objects b;
  ak_supervisor : pb_supervisor b' = pb_supervisor b;
}.
#[export] Instance authority_kept_preorder : PreOrder authority_kept.
Proof.
  split.
  - by split.
  - intros b1 b2 b3 [] []. split; congruence.
Qed.
Lemma authority_kept_authorized b b' : authority_kept b b' → authorized b' = authorized b.
Proof. intros [Hd Ha Ho _]. unfold authorized, ProtectedBus.active. by rewrite Hd, Ha, Ho. Qed.

Definition pb_user b : Prop := pb_supervisor b = false ∧ devices_ok (pb_inner b).
Definition pb_within b b' : Prop := authority_kept b b' ∧ user_io (authorized b) (pb_inner b) (pb_inner b').
#[export] Instance pb_within_preorder : PreOrder pb_within.
Proof.
  split.
  - intros b. split; [done|constructor].
  - intros b1 b2 b3 [Ha1 Hio1] [Ha2 Hio2]. split; [by etrans|]. rewrite (authority_kept_authorized b1 b2 Ha1) in Hio2.
    by eapply user_io_trans.
Qed.

Lemma count_violation_kept b r b' : ProtectedBus.count_violation b r = Done b' → authority_kept b b' ∧ pb_inner b' = pb_inner b.
Proof. unfold ProtectedBus.count_violation. intros E. run_binds E. guards. by split. Qed.
Lemma record_fault_kept b r b' : ProtectedBus.record_fault b r = Done b' → authority_kept b b' ∧ pb_inner b' = pb_inner b.
Proof. unfold ProtectedBus.record_fault. intros [[] ?]%count_violation_kept. by split. Qed.
Lemma check_spec b a op b' allowed : pb_supervisor b = false → ProtectedBus.check b a 1 op = Done (b', allowed) →
  authority_kept b b' ∧ pb_inner b' = pb_inner b ∧ (allowed = true → authorized b a op = true).
Proof.
  intros Hs. unfold ProtectedBus.check, authorized. rewrite Hs. destruct (ProtectedBus.active b) as [d|]; intros E.
  - destruct (ProtectedBus.scan _ _ _ _ _ _) as [[] st]; [by injection E as <- <-|].
    run_binds E. guards. destruct (record_fault_kept _ _ _ E0). done.
  - run_binds E. guards. destruct (record_fault_kept _ _ _ E0). done.
Qed.
Lemma set_inner_within b b' m : authority_kept b b' → user_io (authorized b) (pb_inner b) m →
  pb_within b (ProtectedBus.set_inner b' m).
Proof. intros [] Hio. by split. Qed.
Lemma pb_read8_within b b' a v : pb_user b → ProtectedBus.read8 b a = Done (b', v) → pb_within b b'.
Proof.
  intros [Hs _]. unfold ProtectedBus.read8, ProtectedBus.deny_device. rewrite Hs. cbn [negb]. intros E. destruct (ProtectedBus.is_protect_reg _).
  - run_binds E. guards. destruct (record_fault_kept _ _ _ E0) as [? Hi]. split; [done|]. rewrite Hi. constructor.
  - destruct (ProtectedBus.check _ _ _ _) as [[b1 allowed]|] eqn:Ec; [|done]. cbn in E.
    destruct (check_spec _ _ _ _ _ Hs Ec) as (Hk&Hi&Hauth). destruct allowed; cbn in E.
    + destruct (MappedBus.find_device _ _) as [[[i w] o]|] eqn:Ef.
      * destruct (dev_read _ _) as [d u] eqn:Er. injection E as <- <-. apply set_inner_within; [done|]. rewrite <- Hi.
        eapply (io_read _ _ a _ u); [by apply Hauth| |constructor]. unfold MappedBus.read8. rewrite Ef, Er. done.
      * injection E as <- <-. apply set_inner_within; [done|]. rewrite Hi. constructor.
    + injection E as <- <-. split; [done|]. rewrite Hi. constructor.
Qed.
Lemma pb_write8_within b b' a v : pb_user b → ProtectedBus.write8 b a v = Done b' → pb_within b b'.
Proof.
  intros [Hs _]. unfold ProtectedBus.write8, ProtectedBus.deny_device. rewrite Hs. cbn [negb]. intros E. destruct (ProtectedBus.is_protect_reg _).
  - destruct (record_fault_kept _ _ _ E) as [? Hi]. split; [done|]. rewrite Hi. constructor.
  - destruct (ProtectedBus.check _ _ _ _) as [[b1 allowed]|] eqn:Ec; [|done]. cbn [mbind outcome_bind] in E.
    destruct (check_spec _ _ _ _ _ Hs Ec) as (Hk&Hi&Hauth). destruct allowed; cbn [negb] in E.
    + destruct (MappedBus.write8 _ _ _) as [m|] eqn:Ew; [|done]. injection E as <-. apply set_inner_within; [done|]. rewrite <- Hi.
      eapply io_write; [by apply Hauth|exact Ew|constructor].
    + injection E as <-. split; [done|]. rewrite Hi. constructor.
Qed.
#[export] Instance ProtectedBus_confinement : Confinement (ProtectedBus D).
Proof.
  refine {| in_user := pb_user; within := pb_within |}.
  - intros b b' [Hk Hio] [Hs Hd]. split; [by rewrite (ak_supervisor _ _ Hk)|]. by eapply al_devices; [eapply user_io_alters|].
  - exact pb_read8_within.
  - exact pb_write8_within.
  - intros b b' n _ E. cbn in E. unfold ProtectedBus.tick in E. destruct (MappedBus.tick _ _) as [m|] eqn:Et; [|done].
    injection E as <-. apply set_inner_within; [done|]. eapply io_tick; [exact Et|constructor].
  - intros b _. split; [done|constructor].
Defined.
End protected.
