(* ===== verification/Cpu68Safety.v ===== *)
(** * Safety of the MC68000 machine

    A user program on the protected bus cannot increase its authority: until an
    exception or an interrupt it only reaches what its domain allows, and then the
    kernel runs at the handler it installed. *)

From S2P Require Import Prelude Bv68 Bus68 Protection68 Cpu68 Bv68Facts Cpu68User Protection68Facts.

Section entry.
Context {prof : Profile} {D : Type} {dev : Device D} {laws : DeviceLaws D}.
Abbreviation Bp := (ProtectedBus D).
Implicit Types b : Bp.
Implicit Types c : Cpu Bp.

(** ** The bus in supervisor mode *)
Record touches (P : Z → Prop) b b' : Prop := {
  to_supervisor : pb_supervisor b' = pb_supervisor b;
  to_domains : pb_domains b' = pb_domains b;
  to_objects : pb_objects b' = pb_objects b;
  to_inner : alters P (pb_inner b) (pb_inner b');
}.
Lemma touches_refl P b : touches P b b.
Proof. split; [done..|apply alters_refl]. Qed.
Lemma touches_trans P b1 b2 b3 : touches P b1 b2 → touches P b2 b3 → touches P b1 b3.
Proof. intros [] []. split; [congruence..|by eapply alters_trans]. Qed.
Lemma touches_mono (P Q : Z → Prop) b b' : (∀ a, P a → Q a) → touches P b b' → touches Q b b'.
Proof. intros HPQ []. split; [done..|by eapply alters_mono]. Qed.

Lemma sup_write8 b b' a v : pb_supervisor b = true → ProtectedBus.write8 b a v = Done b' →
  touches (λ x, x = Z.land a ADDR_MASK_68K) b b'.
Proof.
  intros Hs. unfold ProtectedBus.write8, ProtectedBus.check. rewrite Hs. cbn [negb mbind outcome_bind]. intros E.
  destruct (ProtectedBus.is_protect_reg _).
  - injection E as <-. unfold ProtectedBus.write_protect_reg. case_match; split; try done; apply alters_refl.
  - destruct (MappedBus.write8 _ _ _) as [m|] eqn:Ew; [|done]. injection E as <-. split; try done. by eapply write8_alters.
Qed.
Lemma sup_read8 b a : pb_supervisor b = true → plain (pb_inner b) (Z.land a ADDR_MASK_68K) →
  ProtectedBus.is_protect_reg (Z.land a ADDR_MASK_68K) = false →
  ProtectedBus.read8 b a = Done (b, ram_read (mb_ram (pb_inner b)) (Z.land a ADDR_MASK_68K)).
Proof.
  intros Hs Hp Hr. unfold ProtectedBus.read8, ProtectedBus.check. rewrite Hr, Hs. cbn [negb mbind outcome_bind].
  unfold MappedBus.read8. rewrite Hp. by destruct b.
Qed.

(** ** Exception frames

    [n] bytes below the stack pointer [sp] *)
Definition frame (sp n x : Z) : Prop := ∃ i, 1 ≤ i ≤ n ∧ x = Z.land (wrapping_sub32 sp i) ADDR_MASK_68K.
Lemma frame_mono sp n n' x : n ≤ n' → frame sp n x → frame sp n' x.
Proof. intros Hn (i&Hi&->). exists i. split; [lia|done]. Qed.
Lemma wrap_sub_add sp i j : wrapping_add32 (wrapping_sub32 sp i) j = wrapping_sub32 sp (i - j).
Proof. unfold wrapping_add32, wrapping_sub32, wrap32. rewrite Zplus_mod_idemp_l. f_equal. lia. Qed.
Lemma wrap_sub_sub sp i j : wrapping_sub32 (wrapping_sub32 sp i) j = wrapping_sub32 sp (i + j).
Proof. unfold wrapping_sub32, wrap32. rewrite Zminus_mod_idemp_l. f_equal. lia. Qed.
Lemma frame_below sp i n x : frame (wrapping_sub32 sp i) n x → 0 ≤ i → frame sp (i + n) x.
Proof. intros (j&Hj&->) Hi. exists (i + j). split; [lia|]. by rewrite wrap_sub_sub. Qed.

Lemma write16_frame b b' sp i v n : pb_supervisor b = true → 2 ≤ i ≤ n → write16 b (wrapping_sub32 sp i) v = Done b' →
  touches (frame sp n) b b'.
Proof.
  intros Hs Hi E. unfold write16 in E. cbn in E. destruct (ProtectedBus.write8 b _ _) as [b1|] eqn:E1; [|done]. cbn in E.
  apply sup_write8 in E1 as H1; [|done]. rewrite wrap_sub_add in E.
  apply sup_write8 in E; [|by rewrite (to_supervisor _ _ _ H1)].
  eapply touches_trans; (eapply touches_mono; [|done]); intros x ->; [exists i|exists (i - 1)]; split; (lia || done).
Qed.
Lemma write32_frame b b' sp v n : pb_supervisor b = true → 4 ≤ n → write32 b (wrapping_sub32 sp 4) v = Done b' →
  touches (frame sp n) b b'.
Proof.
  intros Hs Hn E. unfold write32 in E. destruct (write16 b _ _) as [b1|] eqn:E1; [|done]. cbn in E.
  apply (write16_frame _ _ _ _ _ n) in E1 as H1; [|done|lia]. rewrite wrap_sub_add in E.
  apply (write16_frame _ _ _ _ _ n) in E; [|by rewrite (to_supervisor _ _ _ H1)|lia]. by eapply touches_trans.
Qed.

(** *** The vector table: interrupt levels are bytes, so it ends after vector 279 *)
Definition VECTORS_END : Z := 0x460.
Definition long_at (ram : list Z) (a : Z) : Z :=
  Z.lor (Z.shiftl (Z.lor (Z.shiftl (ram_read ram a) 8) (ram_read ram (a + 1))) 16)
    (Z.lor (Z.shiftl (ram_read ram (a + 2)) 8) (ram_read ram (a + 3))).
Definition vectors_plain b : Prop := ∀ a, 0 ≤ a < VECTORS_END → plain (pb_inner b) a.

Lemma land_addr a : 0 ≤ a < VECTORS_END → Z.land (wrap32 a) ADDR_MASK_68K = a.
Proof.
  unfold VECTORS_END. intros Ha. unfold wrap32, U32. rewrite Z.mod_small by lia. change ADDR_MASK_68K with (Z.ones 24).
  rewrite Z.land_ones by lia. apply Z.mod_small. lia.
Qed.
Lemma read_vector_byte b a : pb_supervisor b = true → vectors_plain b → 0 ≤ a < VECTORS_END →
  ProtectedBus.read8 b (wrap32 a) = Done (b, ram_read (mb_ram (pb_inner b)) a).
Proof.
  intros Hs Hp Ha. pose proof (land_addr a Ha) as Hl. rewrite sup_read8; rewrite ?Hl; [done|done|by apply Hp|].
  unfold ProtectedBus.is_protect_reg, PROTECT_BASE. unfold VECTORS_END in Ha. destruct (Z.leb_spec 0x00F00020 a); [lia|done].
Qed.
Lemma read_vector b v : pb_supervisor b = true → vectors_plain b → 0 ≤ v < 280 →
  read32 b (v * 4) = Done (b, long_at (mb_ram (pb_inner b)) (v * 4)).
Proof.
  intros Hs Hp Hv. unfold read32, read16, wrapping_add32. cbn [read8 ProtectedBus_bus].
  replace (v * 4) with (wrap32 (v * 4)) at 1 by (apply Z.mod_small; unfold U32; lia).
  assert (∀ a k, wrap32 (wrap32 (a + k) + 1) = wrap32 (a + (k + 1))) as Hw.
  { intros a k. unfold wrap32. rewrite Zplus_mod_idemp_l. f_equal. lia. }
  rewrite Hw. do 4 (rewrite read_vector_byte by (done || unfold VECTORS_END; lia); cbn [mbind outcome_bind]). done.
Qed.
(** Changes outside the table leave the handlers alone. *)
Lemma alters_long (P : Z → Prop) (m m' : MappedBus D) a : alters P m m' → (∀ x, 0 ≤ x < VECTORS_END → ¬ P x) → 0 ≤ a → a + 3 < VECTORS_END →
  long_at (mb_ram m') a = long_at (mb_ram m) a.
Proof.
  intros Ha HP H0 H3. assert (∀ k, 0 ≤ k ≤ 3 → ram_read (mb_ram m') (a + k) = ram_read (mb_ram m) (a + k)) as Hr.
  { intros k Hk. unfold ram_read. rewrite (al_ram _ _ _ Ha); [done|lia|]. apply HP. lia. }
  pose proof (Hr 0 ltac:(lia)) as Hr0. rewrite Z.add_0_r in Hr0. unfold long_at. by rewrite Hr0, !Hr by lia.
Qed.
Lemma touches_plain P b b' : touches P b b' → vectors_plain b → vectors_plain b'.
Proof. intros Ht Hp a Ha. eapply alters_plain; [apply Ht|by apply Hp]. Qed.

(** *** Entering the kernel *)
Record entered (sp v : Z) c c' : Prop := {
  en_sr : Sr.supervisor (cpu_sr c') = true;
  en_bus : pb_supervisor (cpu_bus c') = true;
  en_pc : cpu_pc c' = long_at (mb_ram (pb_inner (cpu_bus c'))) (v * 4);
  en_sp : cpu_a c' !! 7%nat = Some (wrapping_sub32 sp 6);
  en_touches : touches (frame sp 6) (ProtectedBus.set_supervisor (cpu_bus c) true) (cpu_bus c');
}.
(** The stack pointer an exception frame is built on *)
Definition kernel_sp c : option Z := if Sr.supervisor (cpu_sr c) then cpu_a c !! 7%nat else Some (cpu_ssp c).

(** A push of [k] bytes *)
Lemma push_super c c' sp k (w : Bp → Z → outcome Bp) : cpu_a c !! 7%nat = Some sp →
  (a7 ← get_a 7; _ ← set_a 7 (wrapping_sub32 a7 k); sp ← get_a 7; to_bus (λ b, w b sp)) c = Done (c', tt) →
  ∃ b, c' = set_cpu_bus b (set_cpu_a (<[7%nat := wrapping_sub32 sp k]> (cpu_a c)) c) ∧
       w (cpu_bus c) (wrapping_sub32 sp k) = Done b.
Proof.
  intros Hsp E. unfold mbind, cpuM_bind, get_a, set_a, to_bus in E. change (Z.to_nat 7) with 7%nat in E.
  rewrite (vec_get_lookup _ _ _ Hsp) in E. cbn [mbind outcome_bind] in E. unfold vec_set in E.
  assert (7 < length (cpu_a c))%nat as Hl by (by eapply lookup_lt_Some).
  rewrite (proj2 (Nat.ltb_lt _ _) Hl) in E. cbn [mbind outcome_bind cpu_a set_cpu_a] in E.
  rewrite (vec_get_lookup _ _ (wrapping_sub32 sp k)) in E by (by apply list_lookup_insert_eq).
  cbn [mbind outcome_bind cpu_bus set_cpu_a] in E. destruct (w _ _) as [b|] eqn:Ew; [|done]. injection E as <-.
  by exists b.
Qed.
(** The program counter and the old status register *)
Lemma frame_pushed c c' sp pc sr {A} (k : cpuM Bp A) a : cpu_a c !! 7%nat = Some sp → pb_supervisor (cpu_bus c) = true →
  (_ ← push32 pc; _ ← push16 sr; k) c = Done (c', a) →
  ∃ b, touches (frame sp 6) (cpu_bus c) b ∧
       k (set_cpu_bus b (set_cpu_a (<[7%nat := wrapping_sub32 sp 6]> (cpu_a c)) c)) = Done (c', a).
Proof.
  intros Hsp Hs E. unfold mbind at 1 2, cpuM_bind at 1 2 in E.
  destruct (push32 pc c) as [[c1 []]|] eqn:E1; [|done]. apply (push_super c c1 sp 4 (λ b a, write32 b a pc)) in E1 as (b1&->&Hw1); [|done].
  apply (write32_frame _ _ _ _ 6) in Hw1; [|done|lia].
  assert (7 < length (cpu_a c))%nat as Hl by (by eapply lookup_lt_Some).
  destruct (push16 sr _) as [[c2 []]|] eqn:E2; [|done].
  apply (push_super _ c2 (wrapping_sub32 sp 4) 2 (λ b a, write16 b a sr)) in E2 as (b2&->&Hw2); [|by apply list_lookup_insert_eq].
  cbn [cpu_bus cpu_a set_cpu_bus set_cpu_a] in Hw2, E. rewrite wrap_sub_sub in Hw2, E. rewrite list_insert_insert_eq in E.
  exists b2. split; [|exact E]. eapply touches_trans; [exact Hw1|].
  eapply (write16_frame _ _ sp (4 + 2)); [|lia|exact Hw2]. by rewrite (to_supervisor _ _ _ Hw1).
Qed.

Lemma supervisor_set sr : Sr.supervisor (Z.lor sr 0x2000) = true.
Proof. unfold Sr.supervisor. change Sr.S with (2 ^ 13). rewrite any_bit_pow, Z.lor_spec by lia. apply orb_true_r. Qed.
Lemma supervisor_ldiff sr : Sr.supervisor (Z.ldiff sr 0x8000) = Sr.supervisor sr.
Proof.
  unfold Sr.supervisor. change Sr.S with (2 ^ 13). rewrite !any_bit_pow, Z.ldiff_spec by lia. apply andb_true_r.
Qed.
Lemma supervisor_level sr l : Sr.supervisor sr = true → Sr.supervisor (Z.lor (Z.land sr 0xF8FF) l) = true.
Proof.
  unfold Sr.supervisor. change Sr.S with (2 ^ 13). rewrite !any_bit_pow, Z.lor_spec, Z.land_spec by lia. by intros ->.
Qed.

(** The handler is read once the frame is on the stack. *)
Lemma vector_read c c' v : pb_supervisor (cpu_bus c) = true → vectors_plain (cpu_bus c) → 0 ≤ v < 280 →
  (pc ← on_bus (λ b, read32 b (v * 4)); put (set_cpu_pc pc)) c = Done (c', tt) →
  c' = set_cpu_pc (long_at (mb_ram (pb_inner (cpu_bus c))) (v * 4)) c.
Proof.
  intros Hs Hp Hv E. unfold mbind, cpuM_bind, on_bus in E. rewrite read_vector in E by done. cbn in E. injection E as <-.
  by destruct c.
Qed.
(** From the switch to supervisor mode to the handler, on the stack [sp]; [f] changes
    the status register. *)
Lemma handler_entered c0 c c' sp v sr f : cpu_a c0 !! 7%nat = Some sp → cpu_bus c0 = cpu_bus c → vectors_plain (cpu_bus c) → 0 ≤ v < 280 →
  (∀ c, cpu_bus (f c) = cpu_bus c ∧ cpu_a (f c) = cpu_a c) → (∀ c, cpu_sr c = cpu_sr c0 → Sr.supervisor (cpu_sr (f c)) = true) →
  (_ ← put (λ c, set_cpu_bus (set_supervisor (cpu_bus c) true) c); pc ← get cpu_pc; _ ← push32 pc; _ ← push16 sr; _ ← put f;
   pc ← on_bus (λ b, read32 b (v * 4)); put (set_cpu_pc pc)) c0 = Done (c', tt) →
  entered sp v c c'.
Proof.
  intros Hsp Hb Hp Hv Hf Hsr E. apply bind_Done in E as (c1&[]&[= <-]&E). apply bind_Done in E as (c1&pc&[= <- <-]&E).
  assert (7 < length (cpu_a c0))%nat as Hl by (by eapply lookup_lt_Some).
  apply (frame_pushed _ _ sp) in E as (b&Ht&E); [|done|done]. cbn [cpu_bus set_cpu_bus] in Ht. rewrite Hb in Ht.
  set (c2 := set_cpu_bus b _) in E. assert (cpu_bus c2 = b) as Hc2 by done. assert (cpu_sr c2 = cpu_sr c0) as Hr by done.
  assert (cpu_a c2 !! 7%nat = Some (wrapping_sub32 sp 6)) as Ha by (by apply list_lookup_insert_eq). clearbody c2.
  apply bind_Done in E as (c3&[]&[= <-]&E). destruct (Hf c2) as [Hfb Hfa]. rewrite Hc2 in Hfb.
  apply vector_read in E as ->; [| |..|done].
  - split; cbn; rewrite ?Hfb, ?Hfa; [by apply Hsr|by rewrite (to_supervisor _ _ _ Ht)|done..].
  - by rewrite Hfb, (to_supervisor _ _ _ Ht).
  - rewrite Hfb. by eapply touches_plain.
Qed.
(** The switch of stacks *)
Lemma stack_saved {A} c c' (k : Z → cpuM Bp A) a : (a7 ← get_a 7; _ ← put (set_cpu_usp a7); ssp ← get cpu_ssp; k ssp) c = Done (c', a) →
  ∃ a7, k (cpu_ssp c) (set_cpu_usp a7 c) = Done (c', a).
Proof.
  intros (c1&a7&Ea&E)%bind_Done. unfold get_a in Ea. run_binds Ea. guards. by exists a7.
Qed.
Lemma set_a7 c c' v : set_a 7 v c = Done (c', tt) → c' = set_cpu_a (<[7%nat := v]> (cpu_a c)) c ∧ (7 < length (cpu_a c))%nat.
Proof. unfold set_a. intros E. run_binds E. guards. by apply vec_set_insert in E0 as [-> ?]. Qed.

Lemma trap_entered c c' sp v : kernel_sp c = Some sp → vectors_plain (cpu_bus c) → 0 ≤ v < 280 →
  trap v c = Done (c', tt) → entered sp v c c'.
Proof.
  intros Hsp Hp Hv E. unfold trap in E. apply bind_Done in E as (c1&sr&[= <- <-]&E). apply bind_Done in E as (c0&[]&E0&E).
  assert (cpu_a c0 !! 7%nat = Some sp ∧ cpu_bus c0 = cpu_bus c ∧ Sr.supervisor (cpu_sr c0) = true) as (Ha&Hb&Hs).
  { unfold kernel_sp in Hsp. destruct (Sr.supervisor (cpu_sr c)) eqn:Es; cbn in E0.
    - by injection E0 as <-.
    - injection Hsp as <-. apply stack_saved in E0 as [a7 E0]. apply bind_Done in E0 as (c2&[]&[-> ?]%set_a7&E0). injection E0 as <-.
      split_and!; [by apply list_lookup_insert_eq|done|apply supervisor_set]. }
  eapply (handler_entered c0); [exact Ha|exact Hb|done|done| | |exact E].
  - done.
  - intros c2 Hsr. cbn. by rewrite supervisor_ldiff, Hsr.
Qed.
Lemma interrupt_entered c c' sp l : kernel_sp c = Some sp → vectors_plain (cpu_bus c) → 0 ≤ l < 0x100 →
  accept_interrupt l c = Done (c', tt) → entered sp (24 + l) c c'.
Proof.
  intros Hsp Hp Hv E. unfold accept_interrupt in E. apply bind_Done in E as (c1&sr&[= <- <-]&E). apply bind_Done in E as (c0&[]&E0&E).
  assert (cpu_a c0 !! 7%nat = Some sp ∧ cpu_bus c0 = cpu_bus c) as (Ha&Hb).
  { unfold kernel_sp in Hsp. destruct (Sr.supervisor (cpu_sr c)) eqn:Es; cbn in E0.
    - by injection E0 as <-.
    - injection Hsp as <-. apply stack_saved in E0 as [a7 [-> ?]%set_a7]. split; [by apply list_lookup_insert_eq|done]. }
  do 2 apply bind_Done in E as (?&[]&[= <-]&E).
  eapply (handler_entered (set_cpu_sr _ (set_cpu_sr _ c0)) _ _ _ _ _ id); [exact Ha|exact Hb|done|lia|done| |].
  - intros c2 Hsr. cbn [id]. rewrite Hsr. apply supervisor_level. cbn. by rewrite supervisor_ldiff, supervisor_set.
  - exact E.
Qed.

(** ** Reaching the kernel *)
Definition handler_vector (v : Z) : Prop := exception_vector v ∨ 24 < v < 280.
Lemma entry_entered c c' sp : kernel_sp c = Some sp → vectors_plain (cpu_bus c) → devices_ok (pb_inner (cpu_bus c)) → entry c c' →
  ∃ v, handler_vector v ∧ entered sp v c c'.
Proof.
  intros Hsp Hp Hd [v Hv E|l Hl Hpos E].
  - exists v. split; [by left|]. apply trap_entered; try done. unfold exception_vector in Hv. lia.
  - pose proof (irq_byte _ Hd) as Hb. change (MappedBus.pending_irq _) with (pending_irq (cpu_bus c)) in Hb. rewrite <- Hl in Hb.
    exists (24 + l). split; [right; lia|]. by apply interrupt_entered.
Qed.

(** What the kernel set up for a user program: nobody but the kernel writes the vector
    table, no device answers there, and exception frames stay off it. *)
Record guarded c : Prop := {
  g_user : user c;
  g_running : cpu_halted c = false;
  g_vectors : vectors_plain (cpu_bus c);
  g_closed : ∀ a, 0 ≤ a < VECTORS_END → authorized (cpu_bus c) a Perm.WRITE = false;
  g_stack : ∀ x, frame (cpu_ssp c) 12 x → VECTORS_END ≤ x;
}.
Lemma confined_alters c c' : confined c c' →
  alters (λ a, authorized (cpu_bus c) a Perm.WRITE = true) (pb_inner (cpu_bus c)) (pb_inner (cpu_bus c')).
Proof. intros [_ _ _ _ [_ Hio]]. by apply user_io_alters. Qed.
Lemma confined_guarded c c' : confined c c' → guarded c → guarded c'.
Proof.
  intros Hc [Hu Hh Hp Hcl Hst]. pose proof (confined_alters _ _ Hc) as Ha. pose proof Hc as [_ Hssp _ Hh' [Hk _]]. split.
  - by eapply confined_user.
  - congruence.
  - intros a Hr. eapply alters_plain; [exact Ha|by apply Hp].
  - intros a Hr. rewrite (authority_kept_authorized _ _ Hk). by apply Hcl.
  - by rewrite Hssp.
Qed.

(** The kernel was entered from [c]: it runs in supervisor mode at a handler of the
    vector table, and only the frame was written. *)
Record kernel_at c c' : Prop := {
  ka_sr : Sr.supervisor (cpu_sr c') = true;
  ka_bus : pb_supervisor (cpu_bus c') = true;
  ka_pc : ∃ v, handler_vector v ∧ cpu_pc c' = long_at (mb_ram (pb_inner (cpu_bus c))) (v * 4);
  ka_domains : pb_domains (cpu_bus c') = pb_domains (cpu_bus c);
  ka_objects : pb_objects (cpu_bus c') = pb_objects (cpu_bus c);
  ka_frame : alters (frame (cpu_ssp c) 12) (pb_inner (cpu_bus c)) (pb_inner (cpu_bus c'));
}.
Lemma idle_supervisor c c' : idle c c' → pb_supervisor (cpu_bus c) = true →
  cpu_sr c' = cpu_sr c ∧ cpu_pc c' = cpu_pc c ∧ cpu_a c' = cpu_a c ∧ touches (λ _, False) (cpu_bus c) (cpu_bus c').
Proof.
  intros [->|n b E ->] Hs; split_and!; try done.
  cbn in E. unfold ProtectedBus.tick in E. destruct (MappedBus.tick _ _) as [m|] eqn:Et; [|done]. injection E as <-.
  split; try done. by eapply tick_alters.
Qed.
Lemma handler_range v : handler_vector v → 0 ≤ v * 4 ∧ v * 4 + 3 < VECTORS_END.
Proof. unfold handler_vector, exception_vector, VECTORS_END. lia. Qed.
Lemma kernel_at_intro c c' v : guarded c → handler_vector v → Sr.supervisor (cpu_sr c') = true →
  touches (frame (cpu_ssp c) 12) (ProtectedBus.set_supervisor (cpu_bus c) true) (cpu_bus c') →
  cpu_pc c' = long_at (mb_ram (pb_inner (cpu_bus c'))) (v * 4) → kernel_at c c'.
Proof.
  intros Hg Hv Hs [Hb Hd Ho Ha] Hpc. destruct (handler_range v Hv). split; try done. exists v. split; [done|].
  rewrite Hpc. eapply alters_long; [exact Ha| |done..]. intros x Hx Hf. pose proof (g_stack _ Hg x Hf). lia.
Qed.
Lemma kernel_entered c c' : guarded c → kernel_entry c c' → kernel_at c c'.
Proof.
  intros Hg He. pose proof Hg as [[Hsr [Hb Hd]] _ Hp _ _].
  assert (kernel_sp c = Some (cpu_ssp c)) as Hsp by (unfold kernel_sp; by rewrite Hsr).
  assert (∃ c1, entry c c1 ∧ (c1 = c' ∨ ∃ c2, idle c1 c2 ∧ (c2 = c' ∨ entry c2 c'))) as (c1&He1&Hrest)
    by (destruct He; naive_solver). clear He.
  destruct (entry_entered _ _ _ Hsp Hp Hd He1) as (v&Hv&[Hs1 Hb1 Hpc1 Hsp1 Ht1]).
  apply (touches_mono _ (frame (cpu_ssp c) 12)) in Ht1; [|by intros x; apply frame_mono].
  destruct Hrest as [<-|(c2&Hi&Hrest)]; [by eapply kernel_at_intro|].
  destruct (idle_supervisor _ _ Hi Hb1) as (Hs2&Hpc2&Ha2&Ht2).
  apply (touches_mono _ (frame (cpu_ssp c) 12)) in Ht2 as Ht2'; [|done]. pose proof (touches_trans _ _ _ _ Ht1 Ht2') as Ht.
  destruct Hrest as [<-|He2].
  - eapply kernel_at_intro; [done|exact Hv|by rewrite Hs2|done|]. rewrite Hpc2, Hpc1. destruct (handler_range v Hv).
    symmetry. eapply alters_long; [apply Ht2|by intros x _ []|done..].
  - destruct (entry_entered c2 c' (wrapping_sub32 (cpu_ssp c) 6)) as (v2&Hv2&[Hs3 _ Hpc3 _ Ht3]); [..|done|].
    + unfold kernel_sp. by rewrite Hs2, Hs1, Ha2.
    + eapply touches_plain; [exact Ht|exact Hp].
    + eapply al_devices; [apply Ht|done].
    + eapply kernel_at_intro; [done|exact Hv2|done| |done]. eapply touches_trans; [exact Ht|].
      replace (ProtectedBus.set_supervisor (cpu_bus c2) true) with (cpu_bus c2) in Ht3.
      * eapply touches_mono; [|exact Ht3]. intros x Hx. by apply (frame_below _ 6 6).
      * assert (pb_supervisor (cpu_bus c2) = true) as Hb2 by (by rewrite (to_supervisor _ _ _ Ht)).
        destruct (cpu_bus c2). cbn in Hb2. by rewrite Hb2.
Qed.

(** ** User programs *)
Definition user_step c c' : Prop := user c' ∧ ∃ n, step c = Done (c', n).
Lemma user_steps_confined c c' : guarded c → rtc user_step c c' → confined c c'.
Proof.
  intros Hg Hs. induction Hs as [c|c c1 c2 [Hu [n E]] _ IH]; [done|].
  assert (confined c c1) as Hc.
  { destruct (step_user c c1 n) as [|(c3&Hc3&He)]; [apply Hg..|done|done|].
    destruct (kernel_entered c3 c1) as [Hsr _ _ _ _ _]; [by eapply confined_guarded|done|]. destruct Hu as [Hu _]. congruence. }
  etrans; [exact Hc|]. apply IH. by eapply confined_guarded.
Qed.
End entry.

(** C22: No user program can increase its authority.  On the protected bus, from a user
    state whose vector table only the kernel can write, run any number of
    instructions in user mode and then one more.  No byte of memory outside the active
    domain's write authority has changed (the exception frame below the supervisor
    stack pointer apart), nor have the domains or the object table; and either the
    program is still in user mode, with the same domain, system byte and supervisor
    stack, or the machine is in supervisor mode at an address the kernel itself had put
    in the vector table. *)
Theorem no_escalation `{Profile} {D} {dev : Device D} {laws : DeviceLaws D} (c c1 c2 : Cpu (ProtectedBus D)) n :
  guarded c → rtc user_step c c1 → step c1 = Done (c2, n) →
  (∀ a, 0 ≤ a → authorized (cpu_bus c) a Perm.WRITE = false → ¬ frame (cpu_ssp c) 12 a →
     mb_ram (pb_inner (cpu_bus c2)) !! Z.to_nat a = mb_ram (pb_inner (cpu_bus c)) !! Z.to_nat a) ∧
  pb_domains (cpu_bus c2) = pb_domains (cpu_bus c) ∧ pb_objects (cpu_bus c2) = pb_objects (cpu_bus c) ∧
  ((Sr.supervisor (cpu_sr c2) = false ∧ pb_supervisor (cpu_bus c2) = false ∧ cpu_ssp c2 = cpu_ssp c ∧
    pb_active_domain (cpu_bus c2) = pb_active_domain (cpu_bus c) ∧ Z.land (cpu_sr c2) 0xFF00 = Z.land (cpu_sr c) 0xFF00) ∨
   (Sr.supervisor (cpu_sr c2) = true ∧ pb_supervisor (cpu_bus c2) = true ∧
    ∃ v, handler_vector v ∧ cpu_pc c2 = long_at (mb_ram (pb_inner (cpu_bus c))) (v * 4))).
Proof.
  intros Hg Hs E. pose proof (user_steps_confined c c1 Hg Hs) as Hc1. pose proof (confined_guarded c c1 Hc1 Hg) as Hg1.
  destruct (step_user c1 c2 n) as [Hc2|(c3&Hc3&He)]; [apply Hg1..|done| |].
  - assert (confined c c2) as Hc by (by etrans). pose proof (confined_alters _ _ Hc) as Ha. pose proof Hc as [Hsys Hssp _ _ [Hk _]].
    destruct (confined_user _ _ Hc (g_user _ Hg)) as [Hu [Hb _]]. split_and!; [|apply Hk..|left; split_and!; try done; apply Hk].
    intros a H0 Hau _. apply (al_ram _ _ _ Ha); [done|]. congruence.
  - assert (confined c c3) as Hc by (by etrans). pose proof (confined_alters _ _ Hc) as Ha.
    pose proof Hc as [_ Hssp _ _ [Hk _]]. pose proof (confined_guarded c c3 Hc Hg) as Hg3.
    destruct (kernel_entered c3 c2 Hg3 He) as [Hsr Hb (v&Hv&Hpc) Hd Ho Hf]. rewrite Hssp in Hf. split_and!.
    + intros a H0 Hau Hfr. rewrite (al_ram _ _ _ Hf), (al_ram _ _ _ Ha) by (done || congruence). done.
    + by rewrite Hd, (ak_domains _ _ Hk).
    + by rewrite Ho, (ak_objects _ _ Hk).
    + right. split_and!; [done..|]. exists v. split; [done|]. rewrite Hpc. destruct (handler_range v Hv).
      eapply alters_long; [exact Ha| |done..]. intros x Hx. cbv beta. by rewrite (g_closed _ Hg).
Qed.

(** A user program that loads a register, and then tries to write the status register *)
Section demo.
#[local] Instance demo_profile : Profile := true.
Definition image : list Z :=
  replicate 32 0 ++ [0; 0; 0x06; 0x00] ++ replicate 1244 0 ++ [0x70; 0x01; 0x46; 0xFC; 0x27; 0x00] ++ replicate 762 0.
Definition demo_bus : ProtectedBus (Timer + Console) :=
  mkProtectedBus (mkMappedBus image [mkMapping 0xF00010 (inl (Timer.new 100 6)); mkMapping 0xF00000 (inr Console.new)])
    [mkDomain "user"%string [mkCapability 0 0 0x480 0x180 Perm.RWX]] 0 false None 0 []
    [mkObjectEntry 0 0x480 0x180 Active "program"%string].
Definition demo_cpu : Cpu (ProtectedBus (Timer + Console)) :=
  mkCpu (replicate 8 0) (replicate 8 0x600) 0x800 0 0x500 0 0 false demo_bus.
Definition after (c : Cpu (ProtectedBus (Timer + Console))) : Cpu (ProtectedBus (Timer + Console)) :=
  match step c with Done (c', _) => c' | Panic => c end.
Definition ran (c : Cpu (ProtectedBus (Timer + Console))) : bool := match step c with Done _ => true | Panic => false end.
Lemma after_step c : ran c = true → ∃ n, step c = Done (after c, n).
Proof. unfold ran, after. destruct (step c) as [[c' n]|]; [by exists n|done]. Qed.
Lemma demo_guarded : guarded demo_cpu.
Proof.
  split.
  - split; [reflexivity|]. split; [reflexivity|]. repeat constructor; cbn; lia.
  - reflexivity.
  - intros a Ha. unfold VECTORS_END in Ha. apply plain_windows. repeat constructor; cbn; unfold wrapping_sub32, wrap32, U32.
    all: rewrite <- (Z_mod_plus_full _ 1), Z.mod_small by lia; apply Z.ltb_ge; lia.
  - intros a Ha. unfold VECTORS_END in Ha. change (authorized _ _ _) with (authorized demo_bus a Perm.WRITE).
    cbv -[Z.leb]. destruct (Z.leb_spec 0x480 a); [lia|done].
  - intros x (i&Hi&->). unfold VECTORS_END. cbn [cpu_ssp demo_cpu]. unfold wrapping_sub32, wrap32, U32. rewrite Z.mod_small by lia.
    change ADDR_MASK_68K with (Z.ones 24). rewrite Z.land_ones, Z.mod_small by lia. lia.
Qed.
Lemma no_escalation_witness : Sr.supervisor (cpu_sr (after demo_cpu)) = false ∧ Sr.supervisor (cpu_sr (after (after demo_cpu))) = true ∧
  ∃ v, handler_vector v ∧ cpu_pc (after (after demo_cpu)) = long_at image (v * 4).
Proof.
  split; [vm_compute; reflexivity|]. split; [vm_compute; reflexivity|].
  destruct (after_step demo_cpu) as [n1 E1]; [vm_compute; reflexivity|].
  destruct (after_step (after demo_cpu)) as [n2 E2]; [vm_compute; reflexivity|].
  assert (rtc user_step demo_cpu (after demo_cpu)) as Hs.
  { apply rtc_once. split; [|by exists n1]. split; [vm_compute; reflexivity|]. split; [vm_compute; reflexivity|].
    vm_compute. repeat constructor; discriminate. }
  destruct (no_escalation demo_cpu (after demo_cpu) (after (after demo_cpu)) n2 demo_guarded Hs E2) as (_&_&_&[[Hu _]|(_&_&Hv)]);
    [|exact Hv]. vm_compute in Hu. discriminate Hu.
Defined.
End demo.
