(* ===== verification/Cpu68Modify.v ===== *)
(** * Read-modify-write through a moving address register

    [read_ea] and [write_ea] ([src/cpu/ea.rs]) each work out the effective address, so an
    instruction of [src/cpu/exec.rs] that reads and writes one operand through [(An)+]
    moves the register twice. *)

From S2P Require Import Prelude Bv68 Bus68 Cpu68 Bv68Facts.

Section modify.
Context `{Profile}.

Lemma get_a_done {B} (c : Cpu B) i v : cpu_a c !! Z.to_nat i = Some v → get_a i c = Done (c, v).
Proof. intros E. unfold get_a. by rewrite (vec_get_lookup _ _ _ E). Qed.
Lemma set_a_done {B} (c : Cpu B) i v w : cpu_a c !! Z.to_nat i = Some w →
  set_a i v c = Done (set_cpu_a (<[Z.to_nat i := v]> (cpu_a c)) c, ()).
Proof.
  intros E%lookup_lt_Some. unfold set_a, vec_set. by rewrite (proj2 (Nat.ltb_lt _ _) E).
Qed.
(** One evaluation of [(An)+] *)
Lemma postincrement_done (c : Cpu FlatBus) an size a : cpu_a c !! Z.to_nat an = Some a →
  effective_addr (PostIncrement an) size c
  = Done (set_cpu_a (<[Z.to_nat an := wrapping_add32 a (increment an size)]> (cpu_a c)) c, a).
Proof.
  intros E. unfold effective_addr, mbind, cpuM_bind. rewrite (get_a_done _ _ _ E). by rewrite (set_a_done _ _ _ _ E).
Qed.
Lemma read_postincrement (c : Cpu FlatBus) an a : an ≠ 7 → cpu_a c !! Z.to_nat an = Some a →
  read_ea (PostIncrement an) Byte c
  = Done (set_cpu_a (<[Z.to_nat an := wrapping_add32 a 1]> (cpu_a c)) c, ram_read (fb_mem (cpu_bus c)) (Z.land a ADDR_MASK_68K)).
Proof.
  intros Han E. unfold read_ea, mbind, cpuM_bind. rewrite (postincrement_done _ _ _ _ E). unfold increment.
  rewrite (proj2 (Z.eqb_neq _ _) Han). by destruct c as [??????? ? []].
Qed.
Lemma write_postincrement (c : Cpu FlatBus) an a v : an ≠ 7 → cpu_a c !! Z.to_nat an = Some a →
  write_ea (PostIncrement an) Byte v c
  = Done (set_cpu_bus (mkFlatBus (ram_write (fb_mem (cpu_bus c)) (Z.land a ADDR_MASK_68K) (wrap8 v)))
            (set_cpu_a (<[Z.to_nat an := wrapping_add32 a 1]> (cpu_a c)) c), ()).
Proof.
  intros Han E. unfold write_ea, mbind, cpuM_bind. rewrite (postincrement_done _ _ _ _ E). unfold increment.
  by rewrite (proj2 (Z.eqb_neq _ _) Han).
Qed.
(** ADDQ.B #1,(An)+ *)
Lemma execute_addq_postincrement (c : Cpu FlatBus) an : 0 ≤ an < 7 →
  execute (0x5218 + an) c = (dst ← read_ea (PostIncrement an) Byte;
    let '(result, ccr) := Bv.add dst 1 Byte in
    _ ← write_ea (PostIncrement an) Byte result; _ ← set_ccr ccr; mret 4) c.
Proof.
  intros Han. assert (an = 0 ∨ an = 1 ∨ an = 2 ∨ an = 3 ∨ an = 4 ∨ an = 5 ∨ an = 6) as Hc by lia.
  destruct_or! Hc; subst an; reflexivity.
Qed.
End modify.

(** C40: A byte modified through [(An)+] is put back one place too far.  For every register
    below A7 and every memory, ADDQ.B #1,(An)+ leaves the byte it reads alone, writes its
    successor over the next byte, and advances the register by two. *)
Theorem postincrement_modify_misplaced `{Profile} (c : Cpu FlatBus) (an a : Z) :
  0 ≤ an < 7 → cpu_a c !! Z.to_nat an = Some a → 0 ≤ a < 0xFFFFFF →
  let mem := fb_mem (cpu_bus c) in
  ∃ c', execute (0x5218 + an) c = Done (c', 4)
    ∧ cpu_a c' !! Z.to_nat an = Some (a + 2)
    ∧ fb_mem (cpu_bus c') = ram_write mem (a + 1) (uns Byte (ram_read mem a + 1)).
Proof.
  intros Han Ea Ha mem. rewrite execute_addq_postincrement by done.
  assert (∀ x, 0 ≤ x < 0x1000000 → Z.land x ADDR_MASK_68K = x) as Hmask.
  { intros x Hx. change ADDR_MASK_68K with (Z.ones 24). rewrite Z.land_ones, Z.mod_small by lia. done. }
  assert (∀ x, 0 ≤ x ≤ 0x1000000 → wrapping_add32 x 1 = x + 1) as Hnext.
  { intros x Hx. unfold wrapping_add32, wrap32. apply Z.mod_small. unfold U32. lia. }
  pose proof (lookup_lt_Some _ _ _ Ea) as Hlt. assert (an ≠ 7) as H7 by lia.
  unfold mbind, cpuM_bind. rewrite (read_postincrement _ _ _ H7 Ea), add_spec. cbv beta iota zeta.
  erewrite write_postincrement; [|done|by apply list_lookup_insert_eq]. eexists. split; [reflexivity|]. cbn.
  rewrite (Hnext a), (Hnext (a + 1)), (Hmask a), (Hmask (a + 1)) by lia. split.
  - rewrite list_lookup_insert_eq by (by rewrite length_insert). f_equal. lia.
  - f_equal. change (wrap8 ?x) with (x mod 256). unfold uns. simpl. change (2 ^ 8) with 256.
    rewrite Z.mod_mod, <- Z.add_mod by done. done.
Qed.

(** [[10; 20; 30]] at 0, A0 at 1 *)
Definition modify_cpu : Cpu FlatBus := mkCpu (replicate 8 0) (<[0%nat := 1]> (replicate 8 0)) 0 0 0 Sr.new 0 false (mkFlatBus [10; 20; 30]).
Lemma postincrement_modify_misplaced_witness :
  ram_write [10; 20; 30] 2 21 = [10; 20; 21] ∧
  ∃ c', execute (H := true) 0x5218 modify_cpu = Done (c', 4) ∧ cpu_a c' !! 0%nat = Some 3 ∧ fb_mem (cpu_bus c') = [10; 20; 21].
Proof.
  split; [reflexivity|].
  exact (postincrement_modify_misplaced (H := true) modify_cpu 0 1 ltac:(lia) eq_refl ltac:(lia)).
Defined.
