(* ===== verification/Srec.v ===== *)
(** * S-records: [src/srec.rs]

    The parser and the writer of the object format of the MC68000 tools.  A [&str] is
    the list of its UTF-8 bytes. *)

From S2P Require Import Prelude Bv68.

Abbreviation bytes := (list Z).

Inductive Record_ :=
| Header (data : bytes)
| Data (address : Z) (data : bytes)
| End_ (entry : Z)
| Count (n : Z).
Record SrecFile := mkSrecFile { sf_records : list Record_; sf_entry : option Z }.

(** The messages of the parser *)
Inductive Message :=
| ExpectedS | RecordTooShort | InvalidHex | EmptyRecord
| ByteCount (count found : Z)
| ChecksumError (sum : Z)
| TypeTooShort (stype : Z)
| UnknownType (stype : Z).
Record ParseError := mkParseError { pe_line : Z; pe_message : Message }.

Module SrecFile.
Definition data_of (r : Record_) : bytes := match r with Data _ d => d | _ => [] end.
Definition data_size (f : SrecFile) : Z := foldr Z.add 0 ((λ r, Z.of_nat (length (data_of r))) <$> sf_records f).
(** [Iterator::min] and [max] *)
Definition extremum (pick : Z → Z → Z) (l : list Z) : option Z :=
  match l with [] => None | x :: l => Some (fold_left pick l x) end.
Definition base_address (f : SrecFile) : option Z :=
  extremum Z.min (omap (λ r, match r with Data a _ => Some a | _ => None end) (sf_records f)).
Definition end_address `{Profile} (f : SrecFile) : outcome (option Z) :=
  ends ← map_outcome (λ x, add_u32 x.1 (wrap32 (Z.of_nat (length x.2))))
           (omap (λ r, match r with Data a d => Some (a, d) | _ => None end) (sf_records f));
  Done (extremum Z.max ends).
End SrecFile.

(** ** Strings *)

(** [char::is_whitespace] on the encodings that begin (or, reversed, end) a string *)
Definition whitespace : list bytes :=
  [[0x09]; [0x0A]; [0x0B]; [0x0C]; [0x0D]; [0x20]; [0xC2; 0x85]; [0xC2; 0xA0]; [0xE1; 0x9A; 0x80];
   [0xE2; 0x80; 0x80]; [0xE2; 0x80; 0x81]; [0xE2; 0x80; 0x82]; [0xE2; 0x80; 0x83]; [0xE2; 0x80; 0x84]; [0xE2; 0x80; 0x85];
   [0xE2; 0x80; 0x86]; [0xE2; 0x80; 0x87]; [0xE2; 0x80; 0x88]; [0xE2; 0x80; 0x89]; [0xE2; 0x80; 0x8A]; [0xE2; 0x80; 0xA8];
   [0xE2; 0x80; 0xA9]; [0xE2; 0x80; 0xAF]; [0xE2; 0x81; 0x9F]; [0xE3; 0x80; 0x80]].
Fixpoint strip_one (l : bytes) (spaces : list bytes) : option bytes :=
  match spaces with
  | [] => None
  | w :: spaces => if bool_decide (take (length w) l = w) then Some (drop (length w) l) else strip_one l spaces
  end.
Fixpoint strip (fuel : nat) (spaces : list bytes) (l : bytes) : bytes :=
  match fuel with
  | O => l
  | S fuel => match strip_one l spaces with Some l => strip fuel spaces l | None => l end
  end.
(** Each round strips a byte at least, so the length of the line is enough. *)
Definition trim (l : bytes) : bytes :=
  let l := strip (length l) whitespace l in
  reverse (strip (length l) (reverse <$> whitespace) (reverse l)).

(** [str::lines]: split after each newline, drop it and a carriage return before it *)
Fixpoint split_lines (cur : bytes) (l : bytes) : list bytes :=
  match l with
  | [] => match cur with [] => [] | _ => [reverse cur] end
  | 0x0A :: l => reverse (match cur with 0x0D :: cur => cur | _ => cur end) :: split_lines [] l
  | x :: l => split_lines (x :: cur) l
  end.
Definition lines (text : bytes) : list bytes := split_lines [] text.
(** [&line[2..]] panics inside a character. *)
Definition from_2 (line : bytes) : outcome bytes :=
  match line !! 2%nat with
  | Some b => if (0x80 <=? b) && (b <? 0xC0) then Panic else Done (drop 2 line)
  | None => if (length line =? 2)%nat then Done [] else Panic
  end.

(** ** Hexadecimal *)
Definition hex_nibble (b : Z) : option Z :=
  if (0x30 <=? b) && (b <=? 0x39) then Some (b - 0x30)
  else if (0x41 <=? b) && (b <=? 0x46) then Some (b - 0x41 + 10)
  else if (0x61 <=? b) && (b <=? 0x66) then Some (b - 0x61 + 10)
  else None.
Fixpoint hex_pairs (hex : bytes) : option bytes :=
  match hex with
  | hi :: lo :: hex =>
      hi ← hex_nibble hi; lo ← hex_nibble lo; out ← hex_pairs hex; Some (Z.lor (Z.shiftl hi 4) lo :: out)
  | _ => Some []
  end.
Definition hex_decode (hex : bytes) : option bytes := if Nat.even (length hex) then hex_pairs hex else None.

(** ** The parser *)
Definition sum_bytes (l : bytes) : Z := fold_left (λ a b, wrap8 (a + b)) l 0.
Definition byte (l : bytes) (i : nat) : Z := default 0 (l !! i).
Definition be16 (l : bytes) : Z := Z.lor (Z.shiftl (byte l 0) 8) (byte l 1).
Definition be24 (l : bytes) : Z := Z.lor (Z.lor (Z.shiftl (byte l 0) 16) (Z.shiftl (byte l 1) 8)) (byte l 2).
Definition be32 (l : bytes) : Z :=
  Z.lor (Z.lor (Z.lor (Z.shiftl (byte l 0) 24) (Z.shiftl (byte l 1) 16)) (Z.shiftl (byte l 2) 8)) (byte l 3).

Definition parse_payload (stype : Z) (payload : bytes) : result Message Record_ :=
  let short (n : nat) (r : Record_) : result Message Record_ :=
    if (length payload <? n)%nat then Err (TypeTooShort stype) else Ok r in
  match stype with
  | 0x30 => short 2%nat (Header (drop 2 payload))
  | 0x31 => short 2%nat (Data (be16 payload) (drop 2 payload))
  | 0x32 => short 3%nat (Data (be24 payload) (drop 3 payload))
  | 0x33 => short 4%nat (Data (be32 payload) (drop 4 payload))
  | 0x35 => short 2%nat (Count (be16 payload))
  | 0x37 => short 4%nat (End_ (be32 payload))
  | 0x38 => short 3%nat (End_ (be24 payload))
  | 0x39 => short 2%nat (End_ (be16 payload))
  | _ => Err (UnknownType stype)
  end.
(** The count, the checksum and the payload of a decoded record *)
Definition parse_bytes (stype : Z) (bs : bytes) : fallible Message Record_ :=
  match bs with
  | [] => err EmptyRecord
  | byte_count :: rest =>
      if negb (Z.of_nat (length bs) =? byte_count + 1) then err (ByteCount byte_count (Z.of_nat (length rest)))
      else if negb (sum_bytes bs =? 0xFF) then err (ChecksumError (sum_bytes bs))
      else
        payload ← vec_slice 1 (Z.of_nat (length bs) - 1) bs;
        Done (parse_payload stype payload)
  end.
Definition parse_line (line : bytes) : fallible Message Record_ :=
  if (length line <? 4)%nat then err RecordTooShort
  else
    stype ← vec_get 1 line;
    hex ← from_2 line;
    bs ←? ok_or (hex_decode hex) InvalidHex;
    parse_bytes stype bs.
Fixpoint parse_lines (lineno : Z) (ls : list bytes) (f : SrecFile) : fallible ParseError SrecFile :=
  match ls with
  | [] => ok f
  | line :: ls =>
      let line := trim line in
      match line with
      | [] => parse_lines (lineno + 1) ls f
      | c :: _ =>
          if negb ((c =? 0x53) || (c =? 0x73)) then err (mkParseError lineno ExpectedS)
          else
            r ← parse_line line;
            r ←? map_err (mkParseError lineno) r;
            parse_lines (lineno + 1) ls
              (mkSrecFile (sf_records f ++ [r]) (match r with End_ e => Some e | _ => sf_entry f end))
      end
  end.
Definition parse (text : bytes) : fallible ParseError SrecFile := parse_lines 1 (lines text) (mkSrecFile [] None).

(** ** The writer *)
Definition hex_digit (n : Z) : Z := if n <? 10 then 0x30 + n else 0x41 + (n - 10).
(** [{:02X}] *)
Definition hex2 (b : Z) : bytes := [hex_digit (Z.shiftr b 4); hex_digit (Z.land b 0xF)].
Definition hex_of (l : bytes) : bytes := mjoin (hex2 <$> l).
(** [!sum] on [u8] *)
Definition not8 (x : Z) : Z := Z.lxor x 0xFF.
(** ['S'], the type, the count, the address and the data, and the checksum of all but the first two *)
Definition make (stype : Z) (body : bytes) : bytes := [0x53; stype] ++ hex_of body ++ hex2 (not8 (sum_bytes body)).
Definition addr24 (addr : Z) : bytes := [Z.land (Z.shiftr addr 16) 0xFF; Z.land (Z.shiftr addr 8) 0xFF; Z.land addr 0xFF].
Definition make_s0 (header : bytes) : bytes := make 0x30 (wrap8 (2 + Z.of_nat (length header) + 1) :: [0; 0] ++ header).
Definition make_s2 (addr : Z) (data : bytes) : bytes :=
  make 0x32 (wrap8 (3 + Z.of_nat (length data) + 1) :: addr24 addr ++ data).
Definition make_s5 (count : Z) : bytes := make 0x35 [3; wrap8 (Z.shiftr count 8); wrap8 count].
Definition make_s8 (entry : Z) : bytes := make 0x38 (4 :: addr24 entry).

(** [data.chunks(32)] *)
Fixpoint chunks (fuel : nat) (data : bytes) : list bytes :=
  match fuel, data with
  | _, [] => []
  | O, _ => []
  | S fuel, _ => take 32 data :: chunks fuel (drop 32 data)
  end.
Definition add_u16 `{Profile} (a b : Z) : outcome Z := checked_or_wrap (a + b) (wrap16 (a + b)).
Fixpoint write_chunks `{Profile} (base i : Z) (record_count : Z) (cs : list bytes) : outcome (bytes * Z) :=
  match cs with
  | [] => Done ([], record_count)
  | c :: cs =>
      addr ← add_u32 base (wrap32 (i * 32));
      record_count ← add_u16 record_count 1;
      '(out, n) ← write_chunks base (i + 1) record_count cs;
      Done (make_s2 addr c ++ [0x0A] ++ out, n)
  end.
Definition ANKA : bytes := [0x41; 0x4E; 0x4B; 0x41].
Definition write `{Profile} (data : bytes) (base entry : Z) : outcome bytes :=
  '(out, record_count) ← write_chunks base 0 0 (chunks (length data) data);
  Done (make_s0 ANKA ++ [0x0A] ++ out ++ make_s5 record_count ++ [0x0A] ++ make_s8 entry ++ [0x0A]).

(** ** Writing and parsing again *)
Lemma nibble_digit n : 0 ≤ n < 16 → hex_nibble (hex_digit n) = Some n.
Proof.
  intros Hn. unfold hex_nibble, hex_digit. destruct (Z.ltb_spec n 10).
  - rewrite (proj2 (Z.leb_le 0x30 _)), (proj2 (Z.leb_le _ 0x39)) by lia. cbn. f_equal. lia.
  - rewrite (proj2 (Z.leb_gt (0x41 + (n - 10)) 0x39)), andb_false_r by lia.
    rewrite (proj2 (Z.leb_le 0x41 _)), (proj2 (Z.leb_le _ 0x46)) by lia. cbn [andb]. f_equal. lia.
Qed.
Lemma shiftr_4 b : is_byte b → 0 ≤ Z.shiftr b 4 < 16.
Proof. unfold is_byte. intros Hb. rewrite Z.shiftr_div_pow2 by lia. split; [apply Z.div_pos; lia|apply Z.div_lt_upper_bound; lia]. Qed.
Lemma land_15 b : 0 ≤ Z.land b 0xF < 16.
Proof. change 0xF with (Z.ones 4). rewrite Z.land_ones by lia. apply Z.mod_pos_bound. lia. Qed.
Lemma nibbles b : is_byte b → Z.lor (Z.shiftl (Z.shiftr b 4) 4) (Z.land b 0xF) = b.
Proof.
  intros Hb. change 0xF with (Z.ones 4). rewrite Z.land_ones, Z.shiftl_mul_pow2, Z.shiftr_div_pow2 by lia.
  rewrite (lor_add_disjoint _ _ 4); [|done|by rewrite Z.mod_mul|by apply Z.mod_pos_bound].
  pose proof (Z.div_mod b (2 ^ 4) ltac:(lia)). lia.
Qed.
Lemma hex_of_cons b l : hex_of (b :: l) = hex_digit (Z.shiftr b 4) :: hex_digit (Z.land b 0xF) :: hex_of l.
Proof. done. Qed.
Lemma hex_pairs_of l : Forall is_byte l → hex_pairs (hex_of l) = Some l.
Proof.
  induction 1 as [|b l Hb _ IH]; [done|]. rewrite hex_of_cons. cbn [hex_pairs].
  rewrite !nibble_digit by (by apply shiftr_4 || apply land_15). cbn [mbind option_bind]. rewrite IH. cbn. by rewrite nibbles.
Qed.
Lemma length_hex_of l : length (hex_of l) = (2 * length l)%nat.
Proof. induction l as [|b l IH]; [done|]. rewrite hex_of_cons. cbn [length]. rewrite IH. lia. Qed.
Lemma hex_of_app l l' : hex_of (l ++ l') = hex_of l ++ hex_of l'.
Proof. unfold hex_of. by rewrite fmap_app, join_app. Qed.
Lemma hex_decode_of l : Forall is_byte l → hex_decode (hex_of l) = Some l.
Proof.
  intros Hl. unfold hex_decode. rewrite length_hex_of, Nat.even_mul. cbn [Nat.even orb]. by apply hex_pairs_of.
Qed.

Lemma fold_sum l z : 0 ≤ z < 256 → fold_left (λ a b, wrap8 (a + b)) l z = wrap8 (z + foldr Z.add 0 l).
Proof.
  revert z. induction l as [|x l IH]; intros z Hz; cbn.
  - unfold wrap8. rewrite Z.add_0_r, Z.mod_small by lia. done.
  - rewrite IH by (apply Z.mod_pos_bound; lia). unfold wrap8. rewrite Zplus_mod_idemp_l. f_equal. lia.
Qed.
Lemma sum_bytes_eq l : sum_bytes l = wrap8 (foldr Z.add 0 l).
Proof. unfold sum_bytes. rewrite fold_sum by lia. done. Qed.
Lemma foldr_add_app l l' : foldr Z.add 0 (l ++ l') = foldr Z.add 0 l + foldr Z.add 0 l'.
Proof. induction l; cbn; lia. Qed.
Lemma not8_eq x : is_byte x → not8 x = 255 - x.
Proof.
  intros Hx. assert (Forall (λ x, not8 x = 255 - x) (seqZ 0 256)) as Hf by (vm_compute; repeat constructor).
  rewrite Forall_forall in Hf. apply Hf, elem_of_seqZ. unfold is_byte in Hx. lia.
Qed.
Lemma checksum_sum l : sum_bytes (l ++ [not8 (sum_bytes l)]) = 0xFF.
Proof.
  rewrite (sum_bytes_eq (_ ++ _)), foldr_add_app. cbn. rewrite sum_bytes_eq.
  assert (is_byte (wrap8 (foldr Z.add 0 l))) as Hb by (unfold is_byte; apply Z.mod_pos_bound; lia).
  rewrite not8_eq by done. unfold wrap8 in *. rewrite Z.add_0_r, <- Zplus_mod_idemp_l.
  rewrite Z.mod_small by lia. lia.
Qed.
Lemma not8_byte x : is_byte x → is_byte (not8 x).
Proof. intros Hx. rewrite not8_eq by done. unfold is_byte in *. lia. Qed.
Lemma sum_byte l : is_byte (sum_bytes l).
Proof. rewrite sum_bytes_eq. unfold is_byte, wrap8. apply Z.mod_pos_bound. lia. Qed.

(** A record of the writer, with the count of what follows it, decodes to its payload. *)
Lemma make_hex stype body : make stype body = 0x53 :: stype :: hex_of (body ++ [not8 (sum_bytes body)]).
Proof. unfold make. rewrite hex_of_app. unfold hex_of at 3. cbn. done. Qed.
Lemma hex_digit_range n : 0 ≤ n < 16 → 0x30 ≤ hex_digit n ≤ 0x46.
Proof. intros Hn. unfold hex_digit. destruct (Z.ltb_spec n 10); lia. Qed.
Lemma hex_of_range l : Forall is_byte l → Forall (λ x, 0x30 ≤ x ≤ 0x46) (hex_of l).
Proof.
  induction 1 as [|b l Hb _ IH]; [done|]. rewrite hex_of_cons.
  repeat constructor; try apply IH; apply hex_digit_range; (by apply shiftr_4) || apply land_15.
Qed.
Lemma parse_make stype bc pl : Forall is_byte (bc :: pl) → bc = Z.of_nat (length pl) + 1 →
  parse_line (make stype (bc :: pl)) = Done (parse_payload stype pl).
Proof.
  intros Hb Hc. rewrite make_hex. set (cs := not8 _). set (bs := (bc :: pl) ++ [cs]).
  assert (Forall is_byte bs) as Hbs. { apply Forall_app. split; [done|]. constructor; [|done]. apply not8_byte, sum_byte. }
  pose proof (hex_of_range bs Hbs) as Hr. pose proof (length_hex_of bs) as Hl.
  assert (length bs = length pl + 2)%nat as Hlb by (unfold bs; rewrite length_app; cbn; lia).
  unfold parse_line. destruct (Nat.ltb_spec (length (0x53 :: stype :: hex_of bs)) 4) as [Hs|_]; [cbn in Hs; lia|].
  unfold vec_get. cbn [lookup list_lookup unwrap mbind outcome_bind].
  assert (from_2 (0x53 :: stype :: hex_of bs) = Done (hex_of bs)) as ->.
  { unfold from_2. destruct (hex_of bs) as [|x l]; [cbn in Hl; lia|]. cbn. apply Forall_cons in Hr as [Hx _].
    destruct (Z.leb_spec 0x80 x); [lia|done]. }
  cbn [mbind outcome_bind]. rewrite hex_decode_of by done. cbn [ok_or try_]. unfold parse_bytes. unfold bs at 1. cbn [app].
  rewrite Hlb. destruct (Z.eqb_spec (Z.of_nat (length pl + 2)) (bc + 1)) as [_|Hne]; [|lia]. cbn [negb].
  unfold bs at 1. unfold cs at 1. rewrite checksum_sum. change (0xFF =? 0xFF) with true. cbn [negb].
  assert (vec_slice 1 (Z.of_nat (length pl + 2) - 1) bs = Done pl) as ->; [|done].
  unfold vec_slice. rewrite Hlb, (proj2 (Z.leb_le 1 _)), (proj2 (Z.leb_le _ (Z.of_nat _))) by lia. cbn [andb]. unfold slice, bs.
  change (drop (Z.to_nat 1) _) with (pl ++ [cs]). f_equal. apply take_app_length'. lia.
Qed.

(** *** Lines *)
Lemma split_lines_app l cur rest : 0x0A ∉ l → l ≠ [] → last l ≠ Some 0x0D →
  split_lines cur (l ++ 0x0A :: rest) = (reverse cur ++ l) :: split_lines [] rest.
Proof.
  intros Hn Hne Hl. assert (∀ cur, split_lines cur (l ++ 0x0A :: rest) = split_lines (reverse l ++ cur) (0x0A :: rest)) as Hs.
  { clear Hne Hl. induction l as [|x l IH]; intros cur'; [done|]. apply not_elem_of_cons in Hn as [Hx Hn].
    rewrite reverse_cons, <- app_assoc. cbn [app]. rewrite <- (IH Hn (x :: cur')). cbn [app split_lines].
    destruct x as [|p|p]; try done. do 4 (destruct p as [p|p|]; try done). }
  rewrite Hs. destruct l as [|y l] using rev_ind; [done|]. clear IHl. rewrite last_snoc in Hl. rewrite reverse_snoc. cbn [app split_lines].
  assert ((match y :: reverse l ++ cur with 0x0D :: cur => cur | _ => y :: reverse l ++ cur end) = y :: reverse l ++ cur) as ->.
  { destruct y as [|p|p]; try done. do 4 (destruct p as [p|p|]; try done). }
  f_equal. rewrite reverse_cons, reverse_app, reverse_involutive. by rewrite <- app_assoc.
Qed.
Lemma strip_head x l fuel spaces : Forall (λ w, ∃ y w', w = y :: w' ∧ y ≠ x) spaces → strip fuel spaces (x :: l) = x :: l.
Proof.
  intros Hs. assert (strip_one (x :: l) spaces = None) as Hn.
  { induction Hs as [|w spaces (y&w'&->&Hy) _ IH]; [done|]. cbn [strip_one]. rewrite bool_decide_eq_false_2; [done|]. cbn. congruence. }
  destruct fuel; [done|]. cbn [strip]. by rewrite Hn.
Qed.
Lemma heads_S : Forall (λ w, ∃ y w', w = y :: w' ∧ y ≠ 0x53) whitespace.
Proof. repeat constructor; by do 2 eexists. Qed.
Lemma heads_digit x : 0x30 ≤ x ≤ 0x46 → Forall (λ w, ∃ y w', w = y :: w' ∧ y ≠ x) (reverse <$> whitespace).
Proof. intros Hx. cbn. repeat constructor; do 2 eexists; (split; [reflexivity|lia]). Qed.
Lemma trim_record l x : 0x30 ≤ x ≤ 0x46 → trim (0x53 :: l ++ [x]) = 0x53 :: l ++ [x].
Proof.
  intros Hx. unfold trim. rewrite strip_head by apply heads_S. rewrite reverse_cons, reverse_snoc. cbn [app].
  rewrite strip_head by (by apply heads_digit). rewrite reverse_cons, reverse_app, reverse_involutive. done.
Qed.

(** A record of the writer is one line of the parser. *)
Lemma make_last stype bc pl : Forall is_byte (bc :: pl) → ∃ l x, make stype (bc :: pl) = 0x53 :: stype :: l ++ [x] ∧ 0x30 ≤ x ≤ 0x46 ∧
  Forall (λ x, 0x30 ≤ x ≤ 0x46) l.
Proof.
  intros Hb. rewrite make_hex. set (cs := not8 _). assert (Forall is_byte ((bc :: pl) ++ [cs])) as Hbs.
  { apply Forall_app. split; [done|]. constructor; [|done]. apply not8_byte, sum_byte. }
  pose proof (hex_of_range _ Hbs) as Hr. rewrite hex_of_app in Hr |- *. rewrite (hex_of_cons cs []) in Hr |- *.
  change (hex_of []) with (@nil Z) in *.
  apply Forall_app in Hr as [Hr1 Hr2]. rewrite !Forall_cons in Hr2.
  exists (hex_of (bc :: pl) ++ [hex_digit (Z.shiftr cs 4)]), (hex_digit (Z.land cs 0xF)). split_and!; [|tauto..|].
  - by rewrite <- app_assoc.
  - apply Forall_app. split; [done|]. constructor; [tauto|done].
Qed.
Lemma parse_record n stype bc pl rest f r : Forall is_byte (bc :: pl) → bc = Z.of_nat (length pl) + 1 → 0x30 ≤ stype ≤ 0x39 →
  parse_payload stype pl = Ok r →
  parse_lines n (lines (make stype (bc :: pl) ++ 0x0A :: rest)) f =
  parse_lines (n + 1) (lines rest) (mkSrecFile (sf_records f ++ [r]) (match r with End_ e => Some e | _ => sf_entry f end)).
Proof.
  intros Hb Hc Ht Hp. pose proof (parse_make stype bc pl Hb Hc) as Hm. destruct (make_last stype bc pl Hb) as (l&x&El&Hx&Hl).
  rewrite Hp in Hm. rewrite El in *. assert (lines ((0x53 :: stype :: l ++ [x]) ++ 0x0A :: rest) = (0x53 :: (stype :: l) ++ [x]) :: lines rest) as ->.
  { unfold lines. rewrite split_lines_app; [done|..|done|].
    - rewrite !not_elem_of_cons, elem_of_app, list_elem_of_singleton. rewrite Forall_forall in Hl. split_and!; [done|lia|].
      intros [Hi| <-]; [apply Hl in Hi|]; lia.
    - change (0x53 :: stype :: l ++ [x]) with ((0x53 :: stype :: l) ++ [x]). rewrite last_snoc. intros [= ->]. lia. }
  cbn [parse_lines]. rewrite trim_record by done. change (negb _) with false. cbv iota zeta.
  change (0x53 :: (stype :: l) ++ [x]) with (0x53 :: stype :: l ++ [x]). rewrite Hm. done.
Qed.

(** *** Images *)
Lemma addr24_bytes a : Forall is_byte (addr24 a).
Proof.
  assert (∀ x, is_byte (Z.land x 0xFF)) as Hb.
  { intros x. change 0xFF with (Z.ones 8). rewrite Z.land_ones by lia. unfold is_byte. apply Z.mod_pos_bound. lia. }
  repeat constructor; apply Hb.
Qed.
Lemma be24_addr24 a data : 0 ≤ a < 2 ^ 24 → be24 (addr24 a ++ data) = a.
Proof.
  intros Ha. unfold be24, byte, addr24. cbn [app lookup list_lookup default]. unfold id. change 0xFF with (Z.ones 8).
  rewrite !Z.land_ones, !Z.shiftl_mul_pow2, !Z.shiftr_div_pow2 by lia.
  rewrite (lor_add_disjoint _ (_ * 2 ^ 8) 16); [|lia|by rewrite Z.mod_mul|].
  - rewrite (lor_add_disjoint _ _ 8); [|lia| |apply Z.mod_pos_bound; lia].
    + pose proof (Z.div_mod a (2 ^ 8) ltac:(lia)). pose proof (Z.div_mod (a / 2 ^ 8) (2 ^ 8) ltac:(lia)) as H2.
      rewrite Z.div_div in H2 by lia. change (2 ^ 8 * 2 ^ 8) with (2 ^ 16) in H2.
      rewrite (Z.mod_small (a / 2 ^ 16)); [lia|]. split; [apply Z.div_pos; lia|apply Z.div_lt_upper_bound; lia].
    + replace (2 ^ 16) with (2 ^ 8 * 2 ^ 8) by done. rewrite Z.mul_assoc, <- Z.mul_add_distr_r. by apply Z.mod_mul.
  - pose proof (Z.mod_pos_bound (a / 2 ^ 8) (2 ^ 8) ltac:(lia)). lia.
Qed.
Lemma be16_bytes n : 0 ≤ n < 0x10000 → be16 [wrap8 (Z.shiftr n 8); wrap8 n] = n.
Proof.
  intros Hn. unfold be16, byte. cbn [lookup list_lookup default]. unfold id, wrap8.
  rewrite Z.shiftl_mul_pow2, Z.shiftr_div_pow2 by lia. change 0x100 with (2 ^ 8).
  rewrite (lor_add_disjoint _ _ 8); [|lia|by rewrite Z.mod_mul|apply Z.mod_pos_bound; lia].
  rewrite (Z.mod_small (n / 2 ^ 8)); [pose proof (Z.div_mod n (2 ^ 8) ltac:(lia)); lia|].
  split; [apply Z.div_pos; lia|apply Z.div_lt_upper_bound; lia].
Qed.
(** The data records of [chunks], at consecutive addresses *)
Fixpoint data_records (addr : Z) (cs : list bytes) : list Record_ :=
  match cs with [] => [] | c :: cs => Data addr c :: data_records (addr + 32) cs end.

Lemma wrap16_small n : 0 ≤ n < 0x10000 → wrap16 n = n.
Proof. apply Z.mod_small. Qed.
Lemma wrap16_range n : 0 ≤ wrap16 n < 0x10000.
Proof. by apply Z.mod_pos_bound. Qed.
Lemma chunk_address `{Profile} base i : 0 ≤ base → 0 ≤ i → base + 32 * i < 2 ^ 24 + 32 →
  add_u32 base (wrap32 (i * 32)) = Done (base + 32 * i).
Proof.
  intros Hb Hi Ha. unfold add_u32, checked_or_wrap, wrap32, U32. rewrite (Z.mod_small (i * 32)) by lia.
  rewrite bool_decide_eq_true_2; [f_equal; lia|]. symmetry. apply Z.mod_small. lia.
Qed.

(** The count of the data records does not fit 16 bits. *)
Lemma write_chunks_overflow `{Profile} base cs i n : debug_build = true → 0 ≤ base → 0 ≤ i → 0 ≤ n < 0x10000 →
  base + 32 * (i + Z.of_nat (length cs)) < 2 ^ 24 + 32 → 0x10000 ≤ n + Z.of_nat (length cs) → write_chunks base i n cs = Panic.
Proof.
  intros Hd Hb. revert i n. induction cs as [|c cs IH]; intros i n Hi Hn Ha Hk; cbn [length write_chunks] in *; [lia|].
  rewrite chunk_address by lia. cbn [mbind outcome_bind]. unfold add_u16, checked_or_wrap. rewrite Hd.
  case_bool_decide as E; [|done]. cbn [mbind outcome_bind]. pose proof (wrap16_range (n + 1)). by rewrite IH by lia.
Qed.

Lemma write_chunks_parse `{Profile} base cs i n k f rest : Forall (λ c, Forall is_byte c ∧ (length c ≤ 32)%nat) cs → 0 ≤ base → 0 ≤ i → 0 ≤ n < 0x10000 →
  base + 32 * (i + Z.of_nat (length cs)) < 2 ^ 24 + 32 → debug_build = false ∨ n + Z.of_nat (length cs) < 0x10000 →
  ∃ out, write_chunks base i n cs = Done (out, wrap16 (n + Z.of_nat (length cs))) ∧
    parse_lines k (lines (out ++ rest)) f =
    parse_lines (k + Z.of_nat (length cs)) (lines rest) (mkSrecFile (sf_records f ++ data_records (base + 32 * i) cs) (sf_entry f)).
Proof.
  intros Hcs Hb. revert i n k f. induction Hcs as [|c cs [Hc Hl] _ IH]; intros i n k f Hi Hn Ha Hk.
  - exists []. cbn. rewrite !Z.add_0_r, app_nil_r, wrap16_small by done. by destruct f.
  - cbn [length] in *. pose proof (wrap16_range (n + 1)) as Hw. assert (wrap16 (n + 1) ≤ n + 1) as Hle by (apply Z.mod_le; lia).
    destruct (IH (i + 1) (wrap16 (n + 1)) (k + 1) (mkSrecFile (sf_records f ++ [Data (base + 32 * i) c]) (sf_entry f)))
      as (out&Ew&Ep); [lia|lia|lia|destruct Hk; [by left|right; lia]|]. cbn [write_chunks].
    rewrite chunk_address by lia. cbn [mbind outcome_bind]. assert (add_u16 n 1 = Done (wrap16 (n + 1))) as ->.
    { unfold add_u16, checked_or_wrap. case_bool_decide as E; [by rewrite <- E|]. destruct Hk as [->|]; [done|].
      destruct E. symmetry. apply wrap16_small. lia. }
    cbn [mbind outcome_bind]. rewrite Ew. cbn [mbind outcome_bind].
    exists (make_s2 (base + 32 * i) c ++ [0x0A] ++ out). split.
    { do 2 f_equal. unfold wrap16. rewrite Zplus_mod_idemp_l. f_equal. lia. }
    rewrite <- (app_assoc (make_s2 _ _)). cbn [app]. unfold make_s2. rewrite (parse_record _ _ _ _ _ _ (Data (base + 32 * i) c)).
    + rewrite Ep. f_equal; [lia|]. cbn. rewrite <- app_assoc. cbn. do 4 f_equal. lia.
    + constructor; [unfold is_byte, wrap8; apply Z.mod_pos_bound; lia|]. apply Forall_app. split; [apply addr24_bytes|done].
    + unfold wrap8. rewrite Z.mod_small, length_app by lia. cbn. lia.
    + lia.
    + change (parse_payload 0x32 (addr24 (base + 32 * i) ++ c)) with (@Ok Message _ (Data (be24 (addr24 (base + 32 * i) ++ c)) c)).
      by rewrite be24_addr24 by lia.
Qed.

(** The data records of a file, in order, are [data] at consecutive addresses from [addr]. *)
Fixpoint laid_out (addr : Z) (rs : list Record_) (data : bytes) : Prop :=
  match rs with
  | [] => data = []
  | Data a d :: rs => a = addr ∧ ∃ rest, data = d ++ rest ∧ laid_out (addr + Z.of_nat (length d)) rs rest
  | _ :: rs => laid_out addr rs data
  end.
Lemma chunks_spec fuel data : (length data ≤ fuel)%nat → Forall is_byte data →
  Forall (λ c, Forall is_byte c ∧ (length c ≤ 32)%nat) (chunks fuel data) ∧
  Z.of_nat (length data) ≤ 32 * Z.of_nat (length (chunks fuel data)) < Z.of_nat (length data) + 32 ∧
  ∀ addr tail, (∀ addr, laid_out addr tail []) → laid_out addr (data_records addr (chunks fuel data) ++ tail) data.
Proof.
  revert data. induction fuel as [|fuel IH]; intros data Hl Hb.
  { destruct data; [|cbn in Hl; lia]. split; [done|split; [cbn; lia|]]. intros addr tail Ht. apply Ht. }
  destruct data as [|x data]; [split; [done|split; [cbn; lia|]]; intros addr tail Ht; apply Ht|].
  set (l := x :: data) in *. assert (chunks (S fuel) l = take 32 l :: chunks fuel (drop 32 l)) as -> by done.
  assert (length l ≠ 0)%nat as Hne by done. destruct (IH (drop 32 l)) as (H1&H2&H3); [rewrite length_drop; lia|by apply Forall_drop|].
  clearbody l. rewrite length_drop in H2. split; [|split].
  - constructor; [|done]. split; [by apply Forall_take|]. rewrite length_take. lia.
  - cbn [length]. destruct (decide (length l ≤ 32)%nat); [|lia].
    rewrite (drop_ge l 32) by lia. assert (chunks fuel [] = []) as -> by (by destruct fuel). cbn. lia.
  - intros addr tail Ht. cbn [data_records app laid_out]. split; [done|]. exists (drop 32 l). rewrite take_drop. split; [done|].
    destruct (decide (32 ≤ length l)%nat).
    + rewrite length_take, Nat.min_l by lia. by apply H3.
    + rewrite (drop_ge l 32) by lia. assert (chunks fuel [] = []) as -> by (by destruct fuel). apply Ht.
Qed.

Lemma written_parses `{Profile} cs data base entry :
  Forall (λ c, Forall is_byte c ∧ (length c ≤ 32)%nat) cs → 0 ≤ base → base + 32 * Z.of_nat (length cs) < 2 ^ 24 + 32 →
  0 ≤ entry < 2 ^ 24 → debug_build = false ∨ Z.of_nat (length cs) < 0x10000 →
  (∀ addr tail, (∀ addr, laid_out addr tail []) → laid_out addr (data_records addr cs ++ tail) data) →
  ∃ text f, ('(out, n) ← write_chunks base 0 0 cs;
             Done (make_s0 ANKA ++ [0x0A] ++ out ++ make_s5 n ++ [0x0A] ++ make_s8 entry ++ [0x0A])) = Done text ∧
    parse text = Done (Ok f) ∧ sf_entry f = Some entry ∧ laid_out base (sf_records f) data ∧
    Count (wrap16 (Z.of_nat (length cs))) ∈ sf_records f.
Proof.
  intros Hc Hb Hend He Hn Hlay. set (n := wrap16 (Z.of_nat (length cs))). pose proof (wrap16_range (Z.of_nat (length cs))) as Hr. fold n in Hr.
  destruct (write_chunks_parse base cs 0 0 2 (mkSrecFile [Header ANKA] None)
    (make_s5 n ++ 0x0A :: make_s8 entry ++ [0x0A])) as (out&Ew&Ep); [done|lia|lia|lia|lia|by rewrite Z.add_0_l|].
  rewrite Z.add_0_l in Ew. fold n in Ew. rewrite Ew. cbn [mbind outcome_bind]. eexists _, _. split; [done|].
  unfold parse. cbn [app]. unfold make_s0.
  rewrite (parse_record _ _ _ _ _ _ (Header ANKA)); [|by repeat constructor|done|lia|done].
  change (1 + 1) with 2. cbn [sf_records sf_entry app]. rewrite Ep. clear Ep.
  assert (be16 [wrap8 (Z.shiftr n 8); wrap8 n] = n) as Hbe by (by apply be16_bytes).
  unfold make_s5. rewrite (parse_record _ _ _ _ _ _ (Count n)).
  2:{ repeat constructor; unfold is_byte, wrap8; (lia || apply Z.mod_pos_bound; lia). }
  2-3: done || lia.
  2:{ by rewrite <- Hbe at 3. }
  unfold make_s8. rewrite (parse_record _ _ _ _ _ _ (End_ entry)).
  2:{ constructor; [unfold is_byte; lia|apply addr24_bytes]. }
  2-3: done || lia.
  2:{ by rewrite <- (be24_addr24 entry [] He) at 2. }
  cbn [lines split_lines parse_lines sf_records sf_entry]. split; [done|]. split; [done|]. cbn [sf_records].
  rewrite <- !app_assoc. split; [|set_solver]. cbn [app laid_out]. rewrite Z.mul_0_r, Z.add_0_r. by apply Hlay.
Qed.

(** C39: What becomes of an image in the S-record format.  Take any bytes, base and
    entry point that fit the 24-bit address space.  In a debug build, writing more
    than 65535 records' worth of data panics, since the writer counts the records in
    16 bits.  In every other case the writer returns a text, which the parser accepts
    without error: it gives back the entry point and, in order and at consecutive
    addresses from the base, exactly the bytes; and its count record is the number
    of data records modulo 2^16. *)
Theorem srec_roundtrip `{Profile} (data : bytes) (base entry : Z) :
  Forall is_byte data → 0 ≤ base → base + Z.of_nat (length data) ≤ 2 ^ 24 → 0 ≤ entry < 2 ^ 24 →
  if debug_build && (32 * 0xFFFF <? Z.of_nat (length data)) then write data base entry = Panic
  else ∃ text f, write data base entry = Done text ∧ parse text = Done (Ok f) ∧ sf_entry f = Some entry ∧
         laid_out base (sf_records f) data ∧ Count (wrap16 ((Z.of_nat (length data) + 31) / 32)) ∈ sf_records f.
Proof.
  intros Hd Hb Hend He. destruct (chunks_spec (length data) data) as (Hc&Hlen&Hlay); [done..|].
  set (cs := chunks _ _) in *. assert ((Z.of_nat (length data) + 31) / 32 = Z.of_nat (length cs)) as ->
    by (symmetry; apply (Z.div_unique _ _ _ (Z.of_nat (length data) + 31 - 32 * Z.of_nat (length cs))); lia).
  unfold write. fold cs. destruct (_ && _) eqn:Ep.
  { bools. by rewrite write_chunks_overflow by (done || lia). }
  apply written_parses; [done|done|lia|done| |done].
  destruct debug_build; [|by left]. cbn in Ep. bools. right. lia.
Qed.
Lemma srec_roundtrip_witness : ∃ text f, @write true [0x70; 0x48; 0x4E; 0x72] 0x2000 0x2000 = Done text ∧ parse text = Done (Ok f) ∧
  sf_entry f = Some 0x2000 ∧ laid_out 0x2000 (sf_records f) [0x70; 0x48; 0x4E; 0x72] ∧ Count 1 ∈ sf_records f.
Proof.
  apply (@srec_roundtrip true [0x70; 0x48; 0x4E; 0x72] 0x2000 0x2000); [repeat constructor; unfold is_byte; lia|lia|cbn; lia|lia].
Defined.
