(* ===== verification/Concurrent68.v ===== *)
(** * Two agents on one fabric: [src/concurrent.rs]

    Transactions in explicit phases, scheduled event by event against revocations, and
    the rule that revocation wins the race. *)

From S2P Require Import Prelude Bv68 Bus68 Protection68.

Inductive TxPhase := Requested | Authorized | Prepared | Committed | Faulted.
Definition is_terminal (p : TxPhase) : bool := match p with Committed | Faulted => true | _ => false end.
#[export] Instance TxPhase_eq_dec : EqDecision TxPhase.
Proof. solve_decision. Defined.

Record Transaction := mkTransaction {
  tx_id : Z;
  tx_agent : Z;
  tx_object_id : Z;
  tx_auth_generation : option Z;
  tx_offset : Z;
  tx_data : list Z;
  tx_phase : TxPhase;
  tx_fault : option FaultRecord;
}.
Definition Transaction_new (id agent object_id offset : Z) (data : list Z) : Transaction :=
  mkTransaction id agent object_id None offset data Requested None.
Definition set_phase (p : TxPhase) (t : Transaction) : Transaction :=
  mkTransaction (tx_id t) (tx_agent t) (tx_object_id t) (tx_auth_generation t) (tx_offset t) (tx_data t) p (tx_fault t).
Definition set_authorized (g : Z) (t : Transaction) : Transaction :=
  mkTransaction (tx_id t) (tx_agent t) (tx_object_id t) (Some g) (tx_offset t) (tx_data t) Authorized (tx_fault t).
Definition set_faulted (r : FaultRecord) (t : Transaction) : Transaction :=
  mkTransaction (tx_id t) (tx_agent t) (tx_object_id t) (tx_auth_generation t) (tx_offset t) (tx_data t) Faulted (Some r).

Inductive Event := Advance (tx : Z) | Revoke (object_id : Z).
#[export] Instance Event_eq_dec : EqDecision Event.
Proof. solve_decision. Defined.

Record ConcurrentFabric := mkConcurrentFabric {
  cf_objects : ObjectTable;
  cf_memory : list Z;
  cf_fault_log : list FaultRecord;
}.
Definition ConcurrentFabric_new (mem_size : nat) : ConcurrentFabric := mkConcurrentFabric [] (replicate mem_size 0) [].
Definition read (f : ConcurrentFabric) (addr len : Z) : outcome (list Z) := vec_slice addr (addr + len) (cf_memory f).

Definition tx_addr (t : Transaction) (cap : Capability) : Z := wrapping_add32 (cap_base cap) (tx_offset t).
Definition tx_size (t : Transaction) : Z := wrap32 (Z.of_nat (length (tx_data t))).
(** Fault the transaction and log why. *)
Definition fault (f : ConcurrentFabric) (t : Transaction) (cap : Capability) (reason : FaultReason) : ConcurrentFabric * Transaction :=
  let r := mkFaultRecord (tx_addr t cap) (tx_size t) Perm.WRITE reason 0 ""%string in
  (mkConcurrentFabric (cf_objects f) (cf_memory f) (cf_fault_log f ++ [r]), set_faulted r t).

Definition phase_authorize (f : ConcurrentFabric) (t : Transaction) (cap : Capability) : ConcurrentFabric * Transaction :=
  if negb (ObjectTable.validate (cf_objects f) cap) then fault f t cap StaleGeneration
  else if negb (Capability.permits cap (tx_addr t cap) (tx_size t) Perm.WRITE) then fault f t cap NoCapability
  else (f, set_authorized (cap_generation cap) t).
Definition phase_prepare (f : ConcurrentFabric) (t : Transaction) : ConcurrentFabric * Transaction := (f, set_phase Prepared t).
(** [self.memory[base + i] = byte], in order *)
Fixpoint store (memory : list Z) (at_ : nat) (data : list Z) : outcome (list Z) :=
  match data with
  | [] => Done memory
  | byte :: data => memory ← vec_set at_ byte memory; store memory (S at_) data
  end.
Definition phase_commit (f : ConcurrentFabric) (t : Transaction) (cap : Capability) : outcome (ConcurrentFabric * Transaction) :=
  if negb (ObjectTable.validate (cf_objects f) cap) then Done (fault f t cap StaleGeneration)
  else
    memory ← store (cf_memory f) (Z.to_nat (tx_addr t cap)) (tx_data t);
    Done (mkConcurrentFabric (cf_objects f) memory (cf_fault_log f), set_phase Committed t).
Definition advance (f : ConcurrentFabric) (t : Transaction) (cap : Capability) : outcome (ConcurrentFabric * Transaction) :=
  match tx_phase t with
  | Requested => Done (phase_authorize f t cap)
  | Authorized => Done (phase_prepare f t)
  | Prepared => phase_commit f t cap
  | Committed | Faulted => Done (f, t)
  end.

Definition run_event (f : ConcurrentFabric) (txs : list Transaction) (caps : list Capability) (e : Event) :
    outcome (ConcurrentFabric * list Transaction) :=
  match e with
  | Advance tx_id =>
      let idx := Z.to_nat tx_id in
      cap ← vec_get idx caps;
      t ← vec_get idx txs;
      '(f, t) ← advance f t cap;
      txs ← vec_set idx t txs;
      Done (f, txs)
  | Revoke obj_id =>
      Done (mkConcurrentFabric (ObjectTable.revoke (cf_objects f) obj_id) (cf_memory f) (cf_fault_log f), txs)
  end.
Fixpoint run_schedule (f : ConcurrentFabric) (txs : list Transaction) (caps : list Capability) (events : list Event) :
    outcome (ConcurrentFabric * list Transaction) :=
  match events with
  | [] => Done (f, txs)
  | e :: events => '(f, txs) ← run_event f txs caps e; run_schedule f txs caps events
  end.

(** ** Revocation wins the race *)

(** An object that is freed stays freed, and validates no capability. *)
Definition freed (t : ObjectTable) (id : Z) : Prop := ∀ e, ObjectTable.entry t id = Some e → oe_state e = Freed.
Lemma freed_revoke t id id' : freed t id → freed (ObjectTable.revoke t id') id.
Proof.
  intros Hf e. unfold ObjectTable.entry, ObjectTable.revoke. destruct (decide (Z.to_nat id = Z.to_nat id')) as [->|].
  - rewrite list_lookup_alter_eq. destruct (t !! Z.to_nat id'); [|done]. by intros [= <-].
  - rewrite list_lookup_alter_ne by done. apply Hf.
Qed.
Lemma revoke_freed t id : freed (ObjectTable.revoke t id) id.
Proof.
  intros e. unfold ObjectTable.entry, ObjectTable.revoke. rewrite list_lookup_alter_eq.
  destruct (t !! Z.to_nat id); [|done]. by intros [= <-].
Qed.
Lemma freed_stale t cap : freed t (cap_object_id cap) → ObjectTable.validate t cap = false.
Proof.
  intros Hf. unfold ObjectTable.validate. destruct (ObjectTable.entry t _) as [e|] eqn:E; [|done]. by rewrite (Hf e E).
Qed.

(** Two runs that agree on everything but the transaction [i] and the fault log *)
Record alike (i : nat) (x y : ConcurrentFabric * list Transaction) : Prop := {
  al_objects : cf_objects x.1 = cf_objects y.1;
  al_memory : cf_memory x.1 = cf_memory y.1;
  al_length : length x.2 = length y.2;
  al_txs : ∀ j, j ≠ i → x.2 !! j = y.2 !! j;
}.

Definition advances (i : nat) (e : Event) : bool := match e with Advance tx => (Z.to_nat tx =? i)%nat | Revoke _ => false end.
(** The schedule without the steps of transaction [i] *)
Definition without (i : nat) (events : list Event) : list Event := filter (λ e, advances i e = false) events.
(** Transaction [i] exists and has not committed. *)
Definition pending (i : nat) (txs : list Transaction) : Prop := ∃ t, txs !! i = Some t ∧ tx_phase t ≠ Committed.
(** The two runs both panic, or both finish in states that agree outside [i]. *)
Definition same_fate (i : nat) (x y : outcome (ConcurrentFabric * list Transaction)) : Prop :=
  match x, y with
  | Done x, Done y => alike i x y ∧ pending i x.2
  | Panic, Panic => True
  | _, _ => False
  end.

Section race.
Context (caps : list Capability) (i : nat) (cap : Capability) (Hcap : caps !! i = Some cap).

(** A step of a transaction on a freed object changes the transaction and the log. *)
Lemma advance_freed f t : freed (cf_objects f) (cap_object_id cap) → tx_phase t ≠ Committed →
  ∃ f' t', advance f t cap = Done (f', t') ∧ cf_objects f' = cf_objects f ∧ cf_memory f' = cf_memory f ∧ tx_phase t' ≠ Committed.
Proof.
  intros Hf Ht. unfold advance, phase_authorize, phase_prepare, phase_commit. rewrite (freed_stale _ _ Hf). simpl.
  destruct (tx_phase t) eqn:E; do 2 eexists; (split; [reflexivity|]); simpl; rewrite ?E; naive_solver.
Qed.

(** The step of another transaction reads the objects and the memory only. *)
Lemma advance_alike f g t c : cf_objects f = cf_objects g → cf_memory f = cf_memory g →
  match advance f t c, advance g t c with
  | Done (f', t'), Done (g', t'') => t' = t'' ∧ cf_objects f' = cf_objects g' ∧ cf_memory f' = cf_memory g' ∧ cf_objects f' = cf_objects f
  | Panic, Panic => True
  | _, _ => False
  end.
Proof.
  intros Ho Hm. unfold advance, phase_authorize, phase_prepare, phase_commit, fault. rewrite Ho, Hm.
  repeat first [case_match; simplify_eq/= | destruct (store _ _ _); simplify_eq/=]; naive_solver.
Qed.

Lemma run_event_mine f txs g tys e : advances i e = true → alike i (f, txs) (g, tys) →
  freed (cf_objects f) (cap_object_id cap) → pending i txs →
  ∃ f' txs', run_event f txs caps e = Done (f', txs') ∧ alike i (f', txs') (g, tys)
    ∧ freed (cf_objects f') (cap_object_id cap) ∧ pending i txs'.
Proof.
  intros He [Ho Hm Hl Ht] Hf (t & Hti & Hp). destruct e as [tx|]; [|done]. simpl in *. apply Nat.eqb_eq in He. subst i.
  destruct (advance_freed f t Hf Hp) as (f' & t' & Ha & Ho' & Hm' & Hp').
  rewrite (vec_get_lookup _ _ _ Hcap), (vec_get_lookup _ _ _ Hti). simpl. rewrite Ha. simpl.
  pose proof (lookup_lt_Some _ _ _ Hti) as Hlt. unfold vec_set. rewrite (proj2 (Nat.ltb_lt _ _) Hlt). simpl.
  do 2 eexists. split; [reflexivity|]. split; [|split].
  - constructor; simpl; [congruence|congruence|by rewrite length_insert|].
    intros j Hj. rewrite list_lookup_insert_ne by done. by apply Ht.
  - by rewrite Ho'.
  - exists t'. split; [|done]. by apply list_lookup_insert_eq.
Qed.

Lemma run_event_other f txs g tys e : advances i e = false → alike i (f, txs) (g, tys) →
  freed (cf_objects f) (cap_object_id cap) → pending i txs →
  match run_event f txs caps e, run_event g tys caps e with
  | Done x, Done y => alike i x y ∧ freed (cf_objects x.1) (cap_object_id cap) ∧ pending i x.2
  | Panic, Panic => True
  | _, _ => False
  end.
Proof.
  intros He [Ho Hm Hl Ht] Hf Hp. destruct e as [tx|o]; simpl in *.
  2:{ split; [|split; [by apply freed_revoke|done]]. constructor; simpl; [by rewrite Ho|done|done|done]. }
  apply Nat.eqb_neq in He. set (j := Z.to_nat tx) in *. destruct (vec_get j caps) as [c|]; simpl; [|done].
  unfold vec_get. rewrite <-(Ht j He). destruct (txs !! j) as [t|] eqn:Et; simpl; [|done].
  pose proof (advance_alike f g t c Ho Hm) as Ha. destruct (advance f t c) as [[f' t']|], (advance g t c) as [[g' t'']|];
    simpl in *; try done. destruct Ha as (<- & Ho' & Hm' & Hk).
  pose proof (lookup_lt_Some _ _ _ Et) as Hlt. unfold vec_set. rewrite <-Hl, (proj2 (Nat.ltb_lt _ _) Hlt). simpl.
  split; [|split; [by rewrite Hk|]].
  - constructor; simpl; [done|done|by rewrite !length_insert|]. intros k Hk'. destruct (decide (k = j)) as [->|].
    + rewrite !list_lookup_insert_eq by lia. done.
    + rewrite !list_lookup_insert_ne by done. by apply Ht.
  - destruct Hp as (u & Hu & Hpu). exists u. by rewrite list_lookup_insert_ne.
Qed.

Lemma run_without events : ∀ f txs g tys, alike i (f, txs) (g, tys) →
  freed (cf_objects f) (cap_object_id cap) → pending i txs →
  same_fate i (run_schedule f txs caps events) (run_schedule g tys caps (without i events)).
Proof.
  induction events as [|e events IH]; intros f txs g tys Hal Hf Hp; [by split|]. unfold without.
  rewrite filter_cons. destruct (decide (advances i e = false)) as [He|He].
  - pose proof (run_event_other f txs g tys e He Hal Hf Hp) as H. simpl.
    destruct (run_event f txs caps e) as [[f' txs']|], (run_event g tys caps e) as [[g' tys']|]; simpl in *; try done.
    apply IH; tauto.
  - apply not_false_is_true in He. destruct (run_event_mine f txs g tys e He Hal Hf Hp) as (f' & txs' & E & ? & ? & ?).
    cbn [run_schedule]. rewrite E. simpl. by apply IH.
Qed.
End race.

(** C23: Revocation wins the race.  Take any schedule in which the object of a pending
    transaction is revoked and the steps of the transaction follow in any order with the
    other agents' steps and revocations.  The transaction never commits, and the run ends
    with the same objects, memory and other transactions as the schedule in which it takes
    no further step, panicking exactly when that one does: past the revocation it only
    leaves fault records. *)
Theorem revocation_wins (f : ConcurrentFabric) (txs : list Transaction) (caps : list Capability) (cap : Capability)
    (i : nat) (events : list Event) :
  caps !! i = Some cap → pending i txs →
  let events' := Revoke (cap_object_id cap) :: events in
  same_fate i (run_schedule f txs caps events') (run_schedule f txs caps (without i events')).
Proof.
  intros Hc Hp events'. unfold without, events'. rewrite filter_cons, decide_True by done. simpl.
  eapply run_without; [done|done| |done]. simpl. apply revoke_freed.
Qed.

(** Two agents prepared to write to two objects; the first object is revoked and both commit. *)
Definition race_fabric : ConcurrentFabric :=
  mkConcurrentFabric [mkObjectEntry 0 0 4 Active "a"%string; mkObjectEntry 0 4 4 Active "b"%string] (replicate 8 0) [].
Definition race_caps : list Capability := [mkCapability 0 0 0 4 Perm.RW; mkCapability 1 0 4 4 Perm.RW].
Definition race_txs : list Transaction :=
  [set_phase Prepared (Transaction_new 0 0 0 0 [7]); set_phase Prepared (Transaction_new 1 1 1 0 [9])].

Lemma revocation_wins_witness :
  pending 0 race_txs ∧
  (let events := [Revoke 0; Advance 0; Advance 1] in
   same_fate 0 (run_schedule race_fabric race_txs race_caps events) (run_schedule race_fabric race_txs race_caps (without 0 events))
   ∧ match run_schedule race_fabric race_txs race_caps events with
     | Done (f, txs) => cf_memory f = [0; 0; 0; 0; 9; 0; 0; 0] ∧ map tx_phase txs = [Faulted; Committed]
     | Panic => False
     end).
Proof.
  assert (Hp : pending 0 race_txs) by (eexists; split; [reflexivity|discriminate]).
  split; [exact Hp|]. split; [|vm_compute; split; reflexivity].
  exact (revocation_wins race_fabric race_txs race_caps (mkCapability 0 0 0 4 Perm.RW) 0 [Advance 0; Advance 1] eq_refl Hp).
Defined.
